(* ===== verification/_CoqProject ===== *)
-Q . S2P
Prelude.v
CircBuf.v
Gran.v
GranInfo.v
PgAlloc.v
Queue.v
QueueSq.v
QueueDq.v
QueueWorld.v
Wdog.v
WdogSpec.v
WdogTimer.v
Sched.v
SchedSpec.v
SchedView.v
SchedOps.v
SchedProps.v
Sem.v
SemSpec.v
SemOps.v
Task.v
TaskOps.v
SemProps.v
TaskProps.v
MmSem.v
Iob.v
IobSpec.v
IobTrim.v
IobCopy.v
IobMove.v
IobProps.v
IobQueue.v
IobSession.v
IobRefine.v
MmHeap.v
MmList.v
MmLayout.v
MmState.v
MmFree.v
MmMalloc.v
MmInit.v
MmBlocks.v
MmClient.v
MmInfo.v
MmResize.v
MmRealloc.v
MmZalloc.v
MmMemalign.v
MmExtend.v
MmSession.v
MmProps.v
Time.v
TimeProps.v
CString.v
Env.v
EnvProps.v
Qsort.v
QsortSpec.v
QsortProps.v
Lzf.v
LzfSpec.v
LzfEncode.v
LzfProps.v
Mq.v
MqSpec.v
MqOps.v
MqTimed.v
MqCalls.v
MqWorld.v
MqSteps.v
MqProps.v
