(* ===== verification/Prelude.v ===== *)
(** * NuttX kernel core: a verification library (root file and prelude)

    The repository is the NuttX operating system with its applications.  This library
    models the core that the rest of the kernel is built on: the heap, the granule and
    page allocators, circular buffers, queues, watchdog timers, I/O buffers, and the
    scheduler with semaphores, message queues and the end of tasks, the environment of a
    task, and of the C library calendar time, sorting and LZF compression.  Each is a
    translation of the C functions, named as in the source, together with the theorems that
    make it correct.

    ** Parts and how they interact

    The heap (mm/mm_heap) hands out blocks to all of the kernel, among them the bytes of a
    circular buffer (mm/circbuf).  The page allocator (mm/mm_gran/mm_pgalloc.c) is a thin
    layer over the granule allocator (mm/mm_gran).  The queues (include/queue.h,
    libs/libc/queue) are intrusive lists: the watchdogs (sched/wdog) keep their active
    timers on one, ordered by expiry.  The I/O buffers (mm/iob) form a pool of fixed
    buffers, chained into packets by the network stack and the drivers; queues of packets
    use containers from a second pool.  The scheduler (sched/sched) keeps the tasks on
    lists by state and switches contexts through the architecture (arch/arm).  Semaphores
    (sched/semaphore) and message queues (sched/mqueue) block and wake tasks with it.  The
    end of a task (sched/task) takes
    it off these lists, and posts the semaphore of the tasks that wait for it.  The heap
    is guarded by a semaphore with a holder and a count (mm/mm_heap/mm_sem.c).  A group of
    tasks shares an environment (sched/environ), one block of the user heap that the string
    functions (libs/libc/string) work on.  Calendar time
    (libs/libc/time), qsort and bsearch (libs/libc/stdlib) and the LZF compressor and
    decompressor (libs/libc/lzf), which the file system CROMFS reads its blocks with, stand
    alone.

    ** Files

    - Prelude: machine integers and their wrap-around, faults, tactics, the hint database
      and lemmas on lists, options and bits that the components share.
    - CircBuf: [circbuf_s] and every operation of circbuf.c, against a FIFO of bytes.
      [kmm_malloc] is the class [Kmm].
    - Gran, GranInfo, PgAlloc: [gran_initialize], [gran_alloc], [gran_free],
      [gran_reserve], [gran_mark_allocated], [gran_info]; [mm_pginitialize] to [mm_pginfo].
    - Queue: the store of nodes and all [sq_*] and [dq_*] functions; the classes [SqEntry]
      and [DqEntry] are the link fields that a node type embeds.  QueueSq, QueueDq:
      queues as list segments.  QueueWorld: many queues over one store; the class
      [QueueImpl] states what a kind of queue promises.
    - Wdog: [wd_start], [wd_cancel], [wd_gettime], [wd_recover], [wd_timer] on the queue
      of Queue.  WdogSpec: the delta list as a timeline.  WdogTimer: expiry, with timeout
      functions that start and cancel watchdogs themselves.
    - Iob: the pool ([iob_state]) and the operations on packets.  IobSpec: packets as
      lists of bytes.  IobTrim, IobCopy, IobMove: the operations; IobProps: what they
      promise one at a time.  IobQueue: the containers and the queues of packets
      ([io_state] is both pools).  IobSession: packets and queues as a client sees them.
      IobRefine: the buffers implement them.
    - Sched: the lists of tasks ([sched_s]) and the functions of sched/sched, task
      creation and the context switches of arch/arm that move tasks between them.
      SchedSpec: the scheduler as a pool of queues.  SchedView: the primitives are moves
      of the pool.  SchedOps: so are the operations of the kernel.  SchedProps: the
      reachable states.
    - Sem: [nxsem_wait], [nxsem_trywait], [nxsem_post] and the ways in which a wait ends.
      SemSpec, SemOps: semaphores as counters with queues.  SemProps: their properties
      next to everything else that the system does.
    - Task: [nxtask_terminate], [nxtask_exit] and [up_exit].  TaskOps, TaskProps: what is
      left of a task that ends.
    - Mq: message queues: [file_mq_send], [file_mq_receive], their timed variants, the waits
      in them and the ways in which these end, and [nxmq_free_msgq].  MqSpec: where the
      messages are, and who waits.  MqOps: each function as a change of one queue.  MqTimed:
      the same for the timed calls, the timeouts and the end of a queue.  MqCalls: the calls
      that are suspended while their tasks wait.  MqWorld: the operations of tasks and
      interrupt handlers, and the invariant.  MqSteps: each of them keeps it.  MqProps: the
      properties.
    - MmSem: the heap semaphore, its functions as programs of single accesses that
      interleave.
    - CString: strings in blocks of bytes.  Env: the environment; the user heap is the
      record [heap], its contract the class [HeapOk].  EnvProps: the environment as a map.
    - Time: [gmtime_r] and [mktime] with the conversions for each calendar.  TimeProps:
      the calendar and the properties.
    - Qsort: [qsort] and [bsearch] on an array inside of a block of bytes; the comparison
      function is a parameter.  QsortSpec: exchanges of elements.  QsortProps: the
      partition, the sort and the search.
    - Lzf: [lzf_compress] with its hash table of pointers and [lzf_decompress].  LzfSpec:
      the format as a sequence of tokens, and the decompressor on it.  LzfEncode: the
      tokens that the compressor emits.  LzfProps: the properties.
    - MmHeap: the memory as 32-bit words, the headers of the chunks, and every function of
      mm/mm_heap that works on them.  MmList: the sorted list of free chunks.  MmLayout:
      the region as a list of chunks.  MmState: what a few header writes do to that list.
      MmFree, MmMalloc, MmInit, MmResize, MmRealloc, MmZalloc, MmMemalign, MmExtend,
      MmInfo: one operation each.  MmBlocks, MmClient: chunks in use as blocks of the
      users.  MmSession: sessions of a client.  MmProps: the properties.

    ** What the theorems show

    - Heap (MmProps): every session of [mm_malloc], [mm_calloc], [mm_memalign],
      [mm_realloc], [mm_free] and stores, on a heap made by [mm_initialize], behaves like
      a set of disjoint blocks with contents of their own, and no assertion fails; the
      chunks, headers and free list stay well-formed and end as one chunk.  [mm_malloc] is
      best fit, [mm_free] coalesces and undoes [mm_malloc]; contents under [mm_realloc],
      zeroed memory and overflow, alignment, statistics, extension and the stale size it
      leaves, bounds of the free-list index.
    - Circular buffers (CircBuf): refinement of a FIFO as long as the counters do not wrap
      around or the size divides 2^32, resizing, and the corruption at the wrap-around for
      every other size.
    - Granules and pages (Gran, GranInfo, PgAlloc): first fit, round trip, reserve and
      statistics; the page allocator refines a pool of pages.
    - Queues (QueueWorld): every sequence of operations, nodes moving between queues
      included, is the same sequence on lists.
    - Watchdogs (WdogTimer): refinement of a timeline of absolute expiry times, and that a
      watchdog fires once and on time.
    - I/O buffers (IobRefine): every sequence of operations on packets and queues of
      packets is the same sequence on lists of bytes and lists of packets; buffers and
      containers are neither lost nor used twice, and an allocation fails only when they
      are used up.
    - Heap semaphore (MmSem): in all interleavings in which waits for the heap end with a
      count or a signal and no task is deleted while it uses the heap, at most one task is
      inside of the heap, the holder and the count are right, and no assertion fails; a
      wait that is cancelled lets a second task in.
    - Scheduler (SchedProps): the operations are moves between queues; each task is on one
      list, the lists are ordered, the idle task is ready; without the lock the running
      task has the highest priority, and with it no operation of the others takes the CPU,
      but yielding does.
    - Semaphores (SemProps): in every reachable state each operation on a semaphore is the
      one on a counter with a queue in the order of priorities.
    - Message queues (MqProps): in every reachable state each call, also one that is resumed
      after a wait, acts on a list of messages by priority and two queues of waiting tasks;
      no wake-up of a receiver is lost, but one of a sender can be; a timed call keeps its
      watchdog until it returns or the watchdog expires, which can happen without effect, so
      that the call then waits without one; and the race of a receiver with the end of a
      wait.
    - End of tasks (TaskProps): a task that is terminated is gone from its list, its
      semaphore gets the count back, and nothing else changes; when a task exits, a task of higher priority that waited for it may stay pending.
    - Environment (EnvProps): for every sequence of calls, with names without the character
      that separates them from the values, the block of strings is a map
      from names to values, also when the heap fails; and the read past its end for a name
      that equals a whole string.
    - Calendar time (TimeProps): [gmtime_r] against the calendar, day by day from
      1970-01-01, over the whole range of [time_t]; [mktime] undoes it; the year from which
      the default conversion is wrong, and the month by which [mktime] is off with
      CONFIG_GREGORIAN_TIME.
    - Sorting and searching (QsortProps): [qsort] terminates inside of the array, with
      aligned accesses, and permutes it, for any comparison function; it sorts when the
      function is consistent.  [bsearch] finds an element that is there.
    - LZF (LzfProps): what is compressed decompresses to the input, whatever the hash table
      holds at first, from two bytes on; the decompressor is safe on any data that is not
      empty, in buffers that keep off both ends of the address space; and the matches that are lost
      with a hash table of more than 2^13 slots.

    ** Conventions

    The target is the 32-bit build with DEBUGASSERT enabled.  An integer is a [Z] that each
    operation wraps explicitly.  A fault (a failed assertion, an access outside of memory
    or through NULL) is [None]; theorems state that operations return [Some].  Loops are
    fixpoints with fuel.  The fuel is the size of the store that the loop walks through
    (memory words, nodes of a queue, buffers of a pool, words of a table, tasks of a list,
    elements of an array, bytes of the input) or the width of the integer that it shifts,
    plus one; the theorems show that it is enough, since they conclude that the operation
    returns.  Copies in the heap go word by word from low to
    high addresses, as the C library does, which the overlapping copy of [mm_realloc]
    relies on.

    Each operation is atomic, as the critical sections around it make it on one CPU; the
    semaphores that the allocators take are left out, but for their outcome where the code
    handles it (an interrupted wait in [gran_free], a full pool in [iob_allocwait], a
    deferred [mm_free]).  MmSem justifies this for the heap.  A call that blocks ends with
    the switch to another task; what it returns is read when the task runs again.

    ** Not modelled

    The heap with several regions, CONFIG_MM_SMALL and mm_sbrk.c (page mapping of the
    architecture); the umm and kmm entry points, which pass a global heap on; gran_release
    and shared memory; the notifier and statistics of the I/O buffers; the tickless variant
    of the watchdogs; SMP, sporadic scheduling and priority inheritance; the
    notifications and attributes of message queues, and tasks that are deleted while they
    wait for one; signals, threads, work queues and clocks;
    formatting of times and time zones; the rest of the C library, drivers, file systems,
    network, graphics, architectures, boards, tools and applications, which are device
    input and output or are independent of the parts above. *)

From stdpp Require Export base gmap list list_numbers sorting.
From Stdlib Require Export ZArith Znumtheory Lia.

#[global] Open Scope Z_scope.

(** ** Machine integers

    The modelled target is the 32-bit build of the repository (Cortex-M
    boards such as tm4c1294-launchpad): [size_t], [uintptr_t], [uint32_t] and
    [unsigned int] are 32 bits wide, [int] and [ssize_t] are 32-bit two's
    complement.  A value of such a type is a [Z]; each operation that can leave
    the type's range is wrapped explicitly. *)

Definition u32 (z : Z) : Z := z mod 2 ^ 32.
Definition u16 (z : Z) : Z := z mod 2 ^ 16.
Definition u8 (z : Z) : Z := z mod 2 ^ 8.
Definition s32 (z : Z) : Z := (z + 2 ^ 31) mod 2 ^ 32 - 2 ^ 31.

(** Values returned by the kernel interfaces. *)

Definition OK : Z := 0.
Definition EPERM : Z := 1.
Definition ENOMEM : Z := 12.
Definition EINVAL : Z := 22.

(** ** Faults

    An operation that can break a [DEBUGASSERT] or touch memory outside of the
    object it belongs to returns an [option]: [None] is the fault.  The bind of
    the option monad is stdpp's ([x ← m; k], [m ;; k]). *)

Definition DEBUGASSERT (b : bool) : option unit := if b then Some () else None.

(** Reading [len] bytes at offset [off] of the object whose bytes are [l], and
    writing the bytes [d] at offset [off] of it (the two sides of a [memcpy]). *)

Definition mem_read {A} (l : list A) (off len : Z) : option (list A) :=
  if (0 <=? off) && (0 <=? len) && (off + len <=? Z.of_nat (length l))
  then Some (take (Z.to_nat len) (drop (Z.to_nat off) l)) else None.

Definition mem_write {A} (l : list A) (off : Z) (d : list A) : option (list A) :=
  if (0 <=? off) && (off + Z.of_nat (length d) <=? Z.of_nat (length l))
  then Some (list_inserts (Z.to_nat off) d l) else None.

(** Shifts of a [uint32_t]; a shift count outside [0, 31] is undefined. *)

Definition shl32 (x k : Z) : option Z :=
  if (0 <=? k) && (k <? 32) then Some (u32 (Z.shiftl x k)) else None.

Definition shr32 (x k : Z) : option Z :=
  if (0 <=? k) && (k <? 32) then Some (Z.shiftr x k) else None.

(** The element of an array at a C index. *)

Definition arr_get {A} (l : list A) (i : Z) : option A :=
  if 0 <=? i then l !! Z.to_nat i else None.

Definition arr_set {A} (l : list A) (i : Z) (x : A) : option (list A) :=
  if (0 <=? i) && (i <? Z.of_nat (length l)) then Some (<[Z.to_nat i := x]> l) else None.

Arguments DEBUGASSERT !b /.
Arguments mem_read : simpl never.
Arguments mem_write : simpl never.
Arguments shl32 : simpl never.
Arguments shr32 : simpl never.
Arguments arr_get : simpl never.
Arguments arr_set : simpl never.
Arguments u32 : simpl never.
Arguments u16 : simpl never.
Arguments u8 : simpl never.
Arguments s32 : simpl never.

(** ** Tactics *)

(** Splits the boolean tests of the code and turns them into facts of [Z]. *)

Ltac bool_to_prop :=
  repeat match goal with
  | H : (_ && _) = true |- _ => apply andb_true_iff in H as [? ?]
  | H : (_ || _) = false |- _ => apply orb_false_iff in H as [? ?]
  | H : negb _ = true |- _ => apply negb_true_iff in H
  | H : negb _ = false |- _ => apply negb_false_iff in H
  | H : (_ <=? _)%Z = true |- _ => apply Z.leb_le in H
  | H : (_ <=? _)%Z = false |- _ => apply Z.leb_gt in H
  | H : (_ <? _)%Z = true |- _ => apply Z.ltb_lt in H
  | H : (_ <? _)%Z = false |- _ => apply Z.ltb_ge in H
  | H : (_ =? _)%Z = true |- _ => apply Z.eqb_eq in H
  | H : (_ =? _)%Z = false |- _ => apply Z.eqb_neq in H
  end.

(** [lia] with division and remainder by constants. *)

Ltac dlia := Z.to_euclidean_division_equations; lia.

(** Case analysis on the first [if] of the goal. *)

Ltac case_if :=
  match goal with
  | |- context [if ?b then _ else _] => let E := fresh "E" in destruct b eqn:E
  end; bool_to_prop.

Ltac case_if_in H :=
  match type of H with
  | context [if ?b then _ else _] => let E := fresh "E" in destruct b eqn:E
  end; bool_to_prop.

(** Case analysis on the integer tests of the goal, innermost first. *)

Ltac no_if t :=
  lazymatch t with context [if _ then _ else _] => fail | _ => idtac end.

Ltac case_test :=
  match goal with
  | |- context [(?a <? ?b)%Z] => no_if a; no_if b; destruct (Z.ltb_spec a b)
  | |- context [(?a =? ?b)%Z] => no_if a; no_if b; destruct (Z.eqb_spec a b)
  | |- context [(?a <=? ?b)%Z] => no_if a; no_if b; destruct (Z.leb_spec a b)
  end.

Ltac case_tests := repeat (case_test; simpl).

(** ** Lemmas on machine integers *)

Lemma u32_range z : 0 ≤ u32 z < 2 ^ 32.
Proof. apply Z.mod_pos_bound. lia. Qed.

Lemma u32_small z : 0 ≤ z < 2 ^ 32 → u32 z = z.
Proof. apply Z.mod_small. Qed.

Lemma u32_u32_add a b : u32 (u32 a + b) = u32 (a + b).
Proof. unfold u32. by rewrite Zplus_mod_idemp_l. Qed.

Lemma u32_add_u32 a b : u32 (a + u32 b) = u32 (a + b).
Proof. unfold u32. by rewrite Zplus_mod_idemp_r. Qed.

Lemma u32_sub_u32 a b : u32 (a - u32 b) = u32 (a - b).
Proof. unfold u32. by rewrite Zminus_mod_idemp_r. Qed.

Lemma u32_u32_sub a b : u32 (u32 a - b) = u32 (a - b).
Proof. unfold u32. by rewrite Zminus_mod_idemp_l. Qed.

Lemma s32_small z : - 2 ^ 31 ≤ z < 2 ^ 31 → s32 z = z.
Proof. intros H. unfold s32. rewrite Z.mod_small; lia. Qed.

Lemma u32_s32 z : u32 (s32 z) = u32 z.
Proof.
  unfold u32, s32. rewrite Zminus_mod_idemp_l.
  f_equal. lia.
Qed.

(** Removes the wrap-around of values that fit, innermost first. *)

Ltac no_wrap t :=
  lazymatch t with context [u32 _] => fail | context [s32 _] => fail | _ => idtac end.

Ltac fits :=
  repeat match goal with
  | |- context [u32 ?z] => no_wrap z; rewrite (u32_small z) by dlia
  | |- context [s32 ?z] => no_wrap z; rewrite (s32_small z) by dlia
  end.

(** ** Lemmas on bits *)

Definition word32 (w : Z) : Prop := 0 ≤ w < 2 ^ 32.

Lemma word32_high w i : word32 w → 32 ≤ i → Z.testbit w i = false.
Proof.
  intros [] ?. destruct (decide (w = 0)) as [->|]; [apply Z.bits_0|].
  apply Z.bits_above_log2; [lia|]. apply Z.log2_lt_pow2; [lia|].
  apply Z.lt_le_trans with (2 ^ 32); [done|]. apply Z.pow_le_mono_r; lia.
Qed.

Lemma word32_intro w : 0 ≤ w → (∀ i, 32 ≤ i → Z.testbit w i = false) → word32 w.
Proof. intros H0 Hb. apply (Z.bounded_iff_bits_nonneg' 32); [lia|done..]. Qed.

Lemma word32_ext v w :
  word32 v → word32 w → (∀ i, 0 ≤ i < 32 → Z.testbit v i = Z.testbit w i) → v = w.
Proof.
  intros Hv Hw Hb. apply Z.bits_inj'. intros i Hi.
  destruct (decide (i < 32)); [apply Hb; lia|].
  rewrite !word32_high by (auto; lia). done.
Qed.

Lemma word32_u32 z : word32 (u32 z).
Proof. apply u32_range. Qed.

Lemma word32_lor v w : word32 v → word32 w → word32 (Z.lor v w).
Proof.
  intros Hv Hw. apply word32_intro.
  - apply Z.lor_nonneg. by destruct Hv, Hw.
  - intros i Hi. by rewrite Z.lor_spec, !word32_high.
Qed.

Lemma word32_ldiff v w : word32 v → word32 (Z.ldiff v w).
Proof.
  intros Hv. apply word32_intro.
  - apply Z.ldiff_nonneg. destruct Hv. by left.
  - intros i Hi. by rewrite Z.ldiff_spec, word32_high.
Qed.

Lemma word32_shiftr w k : word32 w → 0 ≤ k → word32 (Z.shiftr w k).
Proof.
  intros Hw Hk. apply word32_intro.
  - apply Z.shiftr_nonneg. by destruct Hw.
  - intros i Hi. rewrite Z.shiftr_spec by lia. apply word32_high; [done|lia].
Qed.

Lemma u32_spec z i : 0 ≤ i → Z.testbit (u32 z) i = (i <? 32) && Z.testbit z i.
Proof. intros. unfold u32. by rewrite Z.testbit_mod_pow2 by lia. Qed.

(** Masks of consecutive bits. *)

Definition is_mask (m a b : Z) : Prop :=
  ∀ i, 0 ≤ i → Z.testbit m i = (a <=? i) && (i <? b).

Lemma mask_zero w m a b :
  is_mask m a b → 0 ≤ a →
  Z.land w m = 0 ↔ (∀ i, a ≤ i < b → Z.testbit w i = false).
Proof.
  intros Hm Ha. split.
  - intros H0 i Hi. assert (Hb : Z.testbit (Z.land w m) i = false)
      by (rewrite H0; apply Z.bits_0).
    rewrite Z.land_spec, Hm in Hb by lia. destruct (Z.testbit w i); lia.
  - intros Hb. apply Z.bits_inj'. intros i Hi.
    rewrite Z.land_spec, Hm, Z.bits_0 by lia.
    destruct (decide (a ≤ i < b)); [rewrite Hb by lia; lia|].
    destruct (Z.testbit w i); lia.
Qed.

Lemma mask_nonzero w m a b :
  is_mask m a b → 0 ≤ a → Z.land w m ≠ 0 → ∃ i, a ≤ i < b ∧ Z.testbit w i = true.
Proof.
  intros Hm Ha Hnz.
  destruct (decide (Exists (λ i, Z.testbit w i = true) (seqZ a (b - a)))) as [He|Hn].
  - apply Exists_exists in He as (i & Hi & Hb). apply elem_of_seqZ in Hi.
    exists i. split; [lia|done].
  - destruct Hnz. apply (mask_zero _ _ _ _ Hm Ha). intros i Hi.
    destruct (Z.testbit w i) eqn:E; [|done]. destruct Hn. apply Exists_exists.
    exists i. split; [apply elem_of_seqZ; lia|done].
Qed.

Lemma mask_full w m a b :
  is_mask m a b → 0 ≤ a →
  Z.land w m = m ↔ (∀ i, a ≤ i < b → Z.testbit w i = true).
Proof.
  intros Hm Ha. split.
  - intros H0 i Hi. assert (Hb : Z.testbit (Z.land w m) i = Z.testbit m i) by by rewrite H0.
    rewrite Z.land_spec, Hm in Hb by lia. destruct (Z.testbit w i); lia.
  - intros Hb. apply Z.bits_inj'. intros i Hi.
    rewrite Z.land_spec, Hm by lia.
    destruct (decide (a ≤ i < b)); [rewrite Hb by lia; lia|].
    destruct (Z.testbit w i); lia.
Qed.

Lemma is_mask_ones n : 0 ≤ n → is_mask (Z.ones n) 0 n.
Proof. intros Hn i Hi. rewrite Z.testbit_ones by lia. done. Qed.

Lemma is_mask_shl m a b k :
  is_mask m a b → 0 ≤ a → 0 ≤ k → is_mask (u32 (Z.shiftl m k)) (a + k) (Z.min 32 (b + k)).
Proof.
  intros Hm Ha Hk i Hi. rewrite u32_spec, Z.shiftl_spec by lia.
  destruct (decide (k ≤ i)); [rewrite Hm by lia; lia|].
  rewrite Z.testbit_neg_r by lia. lia.
Qed.

Lemma is_mask_shr m b k : is_mask m 0 b → 0 ≤ k → is_mask (Z.shiftr m k) 0 (b - k).
Proof. intros Hm Hk i Hi. rewrite Z.shiftr_spec, Hm by lia. lia. Qed.

Lemma is_mask_full : is_mask 0xffffffff 0 32.
Proof. apply (is_mask_ones 32). lia. Qed.

(** ** Lemmas on the byte operations *)

Lemma mem_read_Some {A} (l : list A) off len :
  0 ≤ off → 0 ≤ len → off + len ≤ Z.of_nat (length l) →
  mem_read l off len = Some (take (Z.to_nat len) (drop (Z.to_nat off) l)).
Proof. intros. unfold mem_read. case_if; [done|]. lia. Qed.

Lemma mem_write_Some {A} (l d : list A) off :
  0 ≤ off → off + Z.of_nat (length d) ≤ Z.of_nat (length l) →
  mem_write l off d = Some (list_inserts (Z.to_nat off) d l).
Proof. intros. unfold mem_write. case_if; [done|]. lia. Qed.

Lemma inserts_split {A} (l d : list A) i :
  (i + length d ≤ length l)%nat →
  list_inserts i d l = take i l ++ d ++ drop (i + length d) l.
Proof.
  intros Hl. rewrite <- (take_drop i l) at 1.
  replace i with (length (take i l) + 0)%nat at 1 by (rewrite length_take; lia).
  rewrite list_inserts_app_r. f_equal. rewrite <- (take_drop (length d) (drop i l)).
  rewrite list_inserts_0_r by (rewrite length_take, length_drop; lia). by rewrite drop_drop.
Qed.

Lemma inserts_insert {A} (l d : list A) i j y :
  (i < j)%nat → list_inserts j d (<[i := y]> l) = <[i := y]> (list_inserts j d l).
Proof.
  revert j. induction d as [|z d IH]; intros j Hj; simpl; [done|].
  rewrite IH by lia. apply list_insert_insert_ne. lia.
Qed.

Lemma inserts_app {A} (l d1 d2 : list A) i :
  list_inserts (i + length d1) d2 (list_inserts i d1 l) = list_inserts i (d1 ++ d2) l.
Proof.
  revert i. induction d1 as [|y d1 IH]; intros i; simpl; [by rewrite Nat.add_0_r|].
  rewrite inserts_insert, <- IH by lia. do 2 f_equal. lia.
Qed.

(** ** Searching a range of integers *)

Section FindSeqZ.

Context (f : Z → bool).

Lemma find_seqZ_none a m :
  (∀ i, a ≤ i < a + m → f i = false) → List.find f (seqZ a m) = None.
Proof.
  intros Hf. destruct (List.find f (seqZ a m)) as [x|] eqn:E; [|done].
  apply List.find_some in E as [Hin Hx]. apply list_elem_of_In, elem_of_seqZ in Hin.
  rewrite Hf in Hx by lia. done.
Qed.

Lemma find_seqZ_none_inv a m :
  List.find f (seqZ a m) = None → ∀ i, a ≤ i < a + m → f i = false.
Proof.
  intros E i Hi. apply (List.find_none _ _ E). by apply list_elem_of_In, elem_of_seqZ.
Qed.

Lemma find_app (l1 l2 : list Z) :
  List.find f (l1 ++ l2) =
  match List.find f l1 with Some x => Some x | None => List.find f l2 end.
Proof. induction l1 as [|x l1 IH]; simpl; [done|]. by destruct (f x). Qed.

Lemma find_seqZ_app a m k :
  0 ≤ m → 0 ≤ k →
  List.find f (seqZ a (m + k)) =
  match List.find f (seqZ a m) with
  | Some x => Some x | None => List.find f (seqZ (a + m) k) end.
Proof. intros. by rewrite seqZ_app, find_app. Qed.

Lemma find_seqZ_skip a m s :
  0 ≤ s → (∀ i, a ≤ i < a + s → i < a + m → f i = false) →
  List.find f (seqZ a m) = List.find f (seqZ (a + s) (m - s)).
Proof.
  intros Hs Hf. destruct (decide (s ≤ m)).
  - replace m with (s + (m - s)) at 1 by lia. rewrite find_seqZ_app by lia.
    rewrite (find_seqZ_none a s); [done|]. intros; apply Hf; lia.
  - rewrite (seqZ_nil (a + s)) by lia. apply find_seqZ_none. intros; apply Hf; lia.
Qed.

Lemma find_seqZ_extend a m s :
  0 ≤ m ≤ s → (∀ i, a + m ≤ i < a + s → f i = false) →
  List.find f (seqZ a s) = List.find f (seqZ a m).
Proof.
  intros Hm Hf. replace s with (m + (s - m)) by lia. rewrite find_seqZ_app by lia.
  destruct (List.find f (seqZ a m)); [done|]. apply find_seqZ_none. intros; apply Hf; lia.
Qed.

Lemma find_seqZ_first a m x :
  List.find f (seqZ a m) = Some x →
  a ≤ x < a + m ∧ f x = true ∧ ∀ i, a ≤ i < x → f i = false.
Proof.
  intros E. pose proof E as E2. apply List.find_some in E2 as [Hin Hx].
  apply list_elem_of_In, elem_of_seqZ in Hin. split; [done|]. split; [done|].
  intros i Hi. destruct (f i) eqn:Hfi; [|done].
  replace m with ((x - a) + (m - (x - a))) in E by lia. rewrite find_seqZ_app in E by lia.
  destruct (List.find f (seqZ a (x - a))) as [y|] eqn:Ey.
  - apply List.find_some in Ey as [Hiny _]. apply list_elem_of_In, elem_of_seqZ in Hiny.
    simplify_eq. lia.
  - apply List.find_none with (x := i) in Ey; [congruence|].
    apply list_elem_of_In, elem_of_seqZ. lia.
Qed.

End FindSeqZ.

(** ** Lemmas on arrays *)

Lemma arr_get_Some {A} (l : list A) i x :
  arr_get l i = Some x ↔ 0 ≤ i ∧ l !! Z.to_nat i = Some x.
Proof. unfold arr_get. case_if; [tauto|]. split; [done|]. intros [??]. lia. Qed.

Lemma arr_get_lt `{Inhabited A} (l : list A) i :
  0 ≤ i < Z.of_nat (length l) → arr_get l i = Some (l !!! Z.to_nat i).
Proof.
  intros. apply arr_get_Some. split; [lia|]. apply list_lookup_lookup_total_lt. lia.
Qed.

Lemma arr_get_ge {A} (l : list A) i :
  Z.of_nat (length l) ≤ i → arr_get l i = None.
Proof. intros. unfold arr_get. case_if; [|done]. apply lookup_ge_None. lia. Qed.

Lemma arr_set_lt {A} (l : list A) i x :
  0 ≤ i < Z.of_nat (length l) → arr_set l i x = Some (<[Z.to_nat i := x]> l).
Proof. intros. unfold arr_set. case_if; [done|lia]. Qed.

Create HintDb nx discriminated.
#[export] Hint Resolve u32_range : nx.
