(* ===== verification/CircBuf.v ===== *)
(** * The circular byte buffer (mm/circbuf/circbuf.c)

    [circbuf_s] is the structure of include/nuttx/mm/circbuf.h.  The memory
    that [base] points to is the list of its bytes (the empty list for a NULL
    [base]); [head] and [tail] are the free-running [size_t] positions of the
    code, so both wrap at 2^32.  The destination of a read is returned as the
    list of the bytes stored there.  [kmm_malloc] is the interface [Kmm] below:
    a block of the requested size with unspecified contents, or NULL.

    The first part translates the functions of circbuf.c; the second part shows
    that they implement a bounded FIFO ([Fifo]) for a buffer whose positions
    never wrap or whose size divides 2^32, and that a wrap of the positions
    breaks a buffer of any other size. *)

From S2P Require Import Prelude.

(** What the buffer needs of the kernel heap. *)

Class Kmm := {
  kmm_malloc : Z → option (list Z);
  kmm_malloc_size n l : 0 ≤ n → kmm_malloc n = Some l → Z.of_nat (length l) = n
}.

Module CircBuf.

Record circbuf_s := mk_circ {
  base : list Z;
  size : Z;
  head : Z;
  tail : Z;
  external : bool
}.

Definition set_head (c : circbuf_s) (h : Z) : circbuf_s :=
  mk_circ (base c) (size c) h (tail c) (external c).
Definition set_tail (c : circbuf_s) (t : Z) : circbuf_s :=
  mk_circ (base c) (size c) (head c) t (external c).
Definition set_base (c : circbuf_s) (b : list Z) : circbuf_s :=
  mk_circ b (size c) (head c) (tail c) (external c).

Definition circbuf_init `{Kmm} (circ : circbuf_s) (buf : option (list Z))
    (bytes : Z) : option (Z * circbuf_s) :=
  DEBUGASSERT (match buf with None => true | Some _ => negb (bytes =? 0) end) ;;
  let circ := mk_circ (base circ) (size circ) (head circ) (tail circ)
                (match buf with None => false | Some _ => true end) in
  match buf with
  | Some b => Some (0, mk_circ b bytes 0 0 (external circ))
  | None =>
      if bytes =? 0 then Some (0, mk_circ [] bytes 0 0 (external circ)) else
      match kmm_malloc bytes with
      | None => Some (- ENOMEM, circ)
      | Some b => Some (0, mk_circ b bytes 0 0 (external circ))
      end
  end.

Definition circbuf_reset (circ : circbuf_s) : circbuf_s :=
  mk_circ (base circ) (size circ) 0 0 (external circ).

(** [kmm_free] gives the block back to the heap; [memset] clears every field. *)

Definition circbuf_uninit (circ : circbuf_s) : circbuf_s :=
  mk_circ [] 0 0 0 false.

Definition circbuf_size (circ : circbuf_s) : Z := size circ.

Definition circbuf_used (circ : circbuf_s) : Z := u32 (head circ - tail circ).

Definition circbuf_space (circ : circbuf_s) : Z :=
  u32 (circbuf_size circ - circbuf_used circ).

Definition circbuf_is_empty (circ : circbuf_s) : bool := circbuf_used circ =? 0.

Definition circbuf_is_full (circ : circbuf_s) : bool := circbuf_space circ =? 0.

Definition circbuf_peek (circ : circbuf_s) (bytes : Z) : option (Z * list Z) :=
  if size circ =? 0 then Some (0, []) else
  let len := circbuf_used circ in
  let off := tail circ mod size circ in
  let bytes := if len <? bytes then len else bytes in
  let len := u32 (size circ - off) in
  let len := if bytes <? len then bytes else len in
  d1 ← mem_read (base circ) off len;
  d2 ← mem_read (base circ) 0 (u32 (bytes - len));
  Some (s32 bytes, d1 ++ d2).

Definition circbuf_read (circ : circbuf_s) (bytes : Z) :
    option (Z * list Z * circbuf_s) :=
  '(n, dst) ← circbuf_peek circ bytes;
  let bytes := u32 n in
  Some (s32 bytes, dst, set_tail circ (u32 (tail circ + bytes))).

Definition circbuf_skip (circ : circbuf_s) (bytes : Z) : Z * circbuf_s :=
  let len := circbuf_used circ in
  let bytes := if len <? bytes then len else bytes in
  (s32 bytes, set_tail circ (u32 (tail circ + bytes))).

Definition circbuf_resize `{Kmm} (circ : circbuf_s) (bytes : Z) :
    option (Z * circbuf_s) :=
  DEBUGASSERT (negb (external circ)) ;;
  if bytes =? 0 then Some (0, mk_circ [] bytes 0 0 (external circ)) else
  match kmm_malloc bytes with
  | None => Some (- ENOMEM, circ)
  | Some tmp =>
      let len := circbuf_used circ in
      let '(circ, len) :=
        if bytes <? len
        then (snd (circbuf_skip circ (u32 (len - bytes))), bytes)
        else (circ, len) in
      '(_, dst, circ) ← circbuf_read circ len;
      tmp ← mem_write tmp 0 dst;
      Some (0, mk_circ tmp bytes len 0 (external circ))
  end.

Definition circbuf_write (circ : circbuf_s) (src : list Z) (bytes : Z) :
    option (Z * circbuf_s) :=
  if size circ =? 0 then Some (0, circ) else
  let space := circbuf_space circ in
  let off := head circ mod size circ in
  let bytes := if space <? bytes then space else bytes in
  let space := u32 (size circ - off) in
  let space := if bytes <? space then bytes else space in
  d1 ← mem_read src 0 space;
  b1 ← mem_write (base circ) off d1;
  d2 ← mem_read src space (u32 (bytes - space));
  b2 ← mem_write b1 0 d2;
  Some (s32 bytes, set_head (set_base circ b2) (u32 (head circ + bytes))).

Definition circbuf_overwrite (circ : circbuf_s) (src : list Z) (bytes : Z) :
    option (Z * circbuf_s) :=
  if size circ =? 0 then Some (0, circ) else
  let '(soff, bytes) :=
    if size circ <? bytes then (u32 (bytes - size circ), size circ)
    else (0, bytes) in
  let space := circbuf_space circ in
  let overwrite := if space <? bytes then u32 (bytes - space) else 0 in
  let off := head circ mod size circ in
  let space := u32 (size circ - off) in
  let space := if bytes <? space then bytes else space in
  d1 ← mem_read src soff space;
  b1 ← mem_write (base circ) off d1;
  d2 ← mem_read src (soff + space) (u32 (bytes - space));
  b2 ← mem_write b1 0 d2;
  let circ := set_head (set_base circ b2) (u32 (head circ + bytes)) in
  Some (s32 overwrite, set_tail circ (u32 (tail circ + overwrite))).

(** ** The ring

    [window b p n] is the run of [n] bytes of the ring [b] from position [p] on. *)

Definition ring_get (b : list Z) (p : Z) : Z :=
  b !!! Z.to_nat (p mod Z.of_nat (length b)).

Definition window (b : list Z) (p n : Z) : list Z :=
  (λ k, ring_get b (p + k)) <$> seqZ 0 n.

Lemma ring_get_mod b p k :
  length b ≠ 0%nat → ring_get b (p mod Z.of_nat (length b) + k) = ring_get b (p + k).
Proof. intros. unfold ring_get. by rewrite Zplus_mod_idemp_l. Qed.

Lemma ring_get_fold b off k :
  0 ≤ off < Z.of_nat (length b) → 0 ≤ k < Z.of_nat (length b) →
  ring_get b (off + k) =
    b !!! Z.to_nat (if off + k <? Z.of_nat (length b) then off + k
                    else off + k - Z.of_nat (length b)).
Proof.
  intros Hoff Hk. unfold ring_get. f_equal. f_equal. case_if.
  - by rewrite Z.mod_small by lia.
  - rewrite <- (Z_mod_plus_full _ (-1)), Z.mod_small; lia.
Qed.

Lemma length_window b p n : Z.of_nat (length (window b p n)) = Z.max 0 n.
Proof. unfold window. rewrite length_fmap, length_seqZ. lia. Qed.

Lemma lookup_window b p n (i : nat) :
  Z.of_nat i < n → window b p n !! i = Some (ring_get b (p + Z.of_nat i)).
Proof.
  intros Hi. unfold window. rewrite list_lookup_fmap, lookup_seqZ_lt by lia.
  done.
Qed.

Lemma window_app b p n m :
  0 ≤ n → 0 ≤ m → window b p (n + m) = window b p n ++ window b (p + n) m.
Proof.
  intros. unfold window. rewrite seqZ_app, fmap_app by lia. f_equal.
  rewrite (Z.add_comm 0 n), <- fmap_add_seqZ, <- list_fmap_compose. apply list_fmap_ext.
  intros _ k _. unfold compose. f_equal. lia.
Qed.

(** Two copies read a window that may cross the end of the buffer. *)

Lemma window_read b off n :
  0 ≤ off < Z.of_nat (length b) → 0 ≤ n ≤ Z.of_nat (length b) →
  let len := Z.min n (Z.of_nat (length b) - off) in
  take (Z.to_nat len) (drop (Z.to_nat off) b) ++ take (Z.to_nat (n - len)) b =
  window b off n.
Proof.
  intros Hoff Hn len. apply list_eq. intros i.
  destruct (decide (Z.of_nat i < n)) as [Hi|Hi].
  2: { rewrite !lookup_ge_None_2; [done| |].
       - pose proof (length_window b off n). lia.
       - rewrite length_app, !length_take, length_drop. lia. }
  rewrite lookup_window, ring_get_fold by lia.
  case_if.
  - rewrite lookup_app_l by (rewrite length_take, length_drop; lia).
    rewrite lookup_take_lt, lookup_drop by lia.
    rewrite list_lookup_lookup_total_lt by lia. do 2 f_equal. lia.
  - rewrite lookup_app_r; rewrite !length_take, length_drop; [|lia].
    rewrite lookup_take_lt by lia.
    rewrite list_lookup_lookup_total_lt by lia. do 2 f_equal. lia.
Qed.

(** Two copies write a window that may cross the end of the buffer: the bytes
    of the window are the source's, the rest of the ring is unchanged. *)

Lemma ring_get_write b off (d1 d2 : list Z) k :
  0 ≤ off < Z.of_nat (length b) →
  Z.of_nat (length d1) = Z.min (Z.of_nat (length d1 + length d2)) (Z.of_nat (length b) - off) →
  Z.of_nat (length d1 + length d2) ≤ Z.of_nat (length b) →
  0 ≤ k < Z.of_nat (length b) →
  ring_get (list_inserts 0 d2 (list_inserts (Z.to_nat off) d1 b)) (off + k) =
    if k <? Z.of_nat (length d1 + length d2) then (d1 ++ d2) !!! Z.to_nat k
    else ring_get b (off + k).
Proof.
  intros Hoff Hd1 Hle Hk.
  rewrite !ring_get_fold; rewrite ?length_inserts; [|lia..].
  case_if; case_if.
  - destruct (decide (length d2 = 0%nat)) as [Hz|Hz].
    + apply nil_length_inv in Hz as ->. simpl in *. rewrite app_nil_r.
      rewrite list_lookup_total_inserts by (rewrite ?length_inserts; lia).
      f_equal. lia.
    + rewrite list_lookup_total_inserts_ge by lia.
      rewrite list_lookup_total_inserts by lia.
      rewrite lookup_total_app_l by lia. f_equal. lia.
  - rewrite list_lookup_total_inserts_ge by lia.
    rewrite list_lookup_total_inserts_ge by lia. done.
  - rewrite list_lookup_total_inserts by (rewrite ?length_inserts; lia).
    rewrite lookup_total_app_r by lia. f_equal. lia.
  - rewrite list_lookup_total_inserts_ge by lia.
    by rewrite list_lookup_total_inserts_lt by lia.
Qed.

(** ** Well-formed buffers and their contents

    The bytes held by the buffer are the window of [circbuf_used] bytes from
    [tail] on.  [steady c n]: after [n] more bytes the positions still agree
    with the ring, either because the size divides 2^32 or because the
    positions do not reach 2^32. *)

Record wf (c : circbuf_s) : Prop := {
  wf_base : Z.of_nat (length (base c)) = size c;
  wf_size : 0 ≤ size c < 2 ^ 31;
  wf_head : 0 ≤ head c < 2 ^ 32;
  wf_tail : 0 ≤ tail c < 2 ^ 32;
  wf_used : circbuf_used c ≤ size c
}.

Definition contents (c : circbuf_s) : list Z :=
  window (base c) (tail c) (circbuf_used c).

Definition steady (c : circbuf_s) (n : Z) : Prop :=
  (size c | 2 ^ 32) ∨ tail c + circbuf_used c + n < 2 ^ 32.

Lemma used_range c : 0 ≤ circbuf_used c < 2 ^ 32.
Proof. apply u32_range. Qed.

Lemma space_eq c : wf c → circbuf_space c = size c - circbuf_used c.
Proof.
  intros []. unfold circbuf_space, circbuf_size. pose proof (used_range c).
  apply u32_small. lia.
Qed.

Lemma length_contents c : Z.of_nat (length (contents c)) = circbuf_used c.
Proof. unfold contents. rewrite length_window. pose proof (used_range c). lia. Qed.

Lemma window_take b p n m :
  0 ≤ m ≤ n → take (Z.to_nat m) (window b p n) = window b p m.
Proof.
  intros. replace n with (m + (n - m)) by lia. rewrite window_app by lia.
  rewrite take_app_length'; [done|]. pose proof (length_window b p m). lia.
Qed.

Lemma window_drop b p n m :
  0 ≤ m ≤ n → drop (Z.to_nat m) (window b p n) = window b (p + m) (n - m).
Proof.
  intros. replace n with (m + (n - m)) at 1 by lia. rewrite window_app by lia.
  rewrite drop_app_length'; [done|]. pose proof (length_window b p m). lia.
Qed.

Lemma window_ext b p q n :
  p mod Z.of_nat (length b) = q mod Z.of_nat (length b) → window b p n = window b q n.
Proof.
  intros Hpq. apply list_fmap_ext. intros _ k _. unfold ring_get.
  by rewrite <- Zplus_mod_idemp_l, Hpq, Zplus_mod_idemp_l.
Qed.

(** A wrapped position is the same place of the ring. *)

Lemma pos_wrap s p :
  0 < s → (s | 2 ^ 32) ∨ 0 ≤ p < 2 ^ 32 → u32 p mod s = p mod s.
Proof.
  intros Hs [Hd|Hp]; [|by rewrite u32_small].
  by apply Z.mod_mod_divide.
Qed.

Lemma head_pos c :
  wf c → steady c 0 → 0 < size c →
  head c mod size c = (tail c + circbuf_used c) mod size c.
Proof.
  intros [] Hst Hs. pose proof (used_range c).
  rewrite <- (pos_wrap (size c) (tail c + _)); [|done|destruct Hst; [by left|right; lia]].
  unfold circbuf_used. rewrite u32_add_u32.
  replace (tail c + (head c - tail c)) with (head c) by lia.
  by rewrite u32_small.
Qed.

Lemma tail_advance c n :
  wf c → 0 ≤ n ≤ circbuf_used c →
  circbuf_used (set_tail c (u32 (tail c + n))) = circbuf_used c - n.
Proof.
  intros [] Hn. unfold circbuf_used at 1. simpl. rewrite u32_sub_u32.
  replace (head c - (tail c + n)) with ((head c - tail c) - n) by lia.
  rewrite <- u32_u32_sub. fold (circbuf_used c). pose proof (used_range c).
  apply u32_small. lia.
Qed.

Lemma steady_mono c n m : steady c n → m ≤ n → steady c m.
Proof. intros [?|?] ?; [by left|right; lia]. Qed.

(** Consuming [n] bytes: what [circbuf_read] and [circbuf_skip] do to [tail]. *)

Lemma consume_spec c n m :
  wf c → steady c m → 0 ≤ m → 0 ≤ n ≤ circbuf_used c →
  let c' := set_tail c (u32 (tail c + n)) in
  wf c' ∧ steady c' m ∧ contents c' = drop (Z.to_nat n) (contents c).
Proof.
  intros Hwf Hst Hm Hn c'. pose proof (used_range c).
  assert (Hu : circbuf_used c' = circbuf_used c - n) by by apply tail_advance.
  pose proof Hwf as [].
  split; [|split].
  - constructor; simpl; auto using u32_range. rewrite Hu. lia.
  - destruct Hst as [?|?]; [by left|right]. rewrite Hu. simpl.
    rewrite u32_small; lia.
  - unfold contents. rewrite Hu, window_drop by lia. simpl.
    destruct (decide (circbuf_used c - n = 0)) as [->|]; [done|].
    apply window_ext. rewrite wf_base0. apply pos_wrap; [lia|].
    destruct Hst; [by left|right; lia].
Qed.

Lemma peek_spec c bytes :
  wf c → 0 ≤ bytes < 2 ^ 32 →
  let n := Z.min bytes (circbuf_used c) in
  circbuf_peek c bytes = Some (n, take (Z.to_nat n) (contents c)).
Proof.
  intros [] Hb n. pose proof (used_range c). unfold circbuf_peek.
  destruct (Z.eqb_spec (size c) 0) as [Hz|Hz].
  { assert (n = 0) as -> by lia. done. }
  pose proof (Z.mod_pos_bound (tail c) (size c)).
  set (off := tail c mod size c) in *.
  replace (if circbuf_used c <? bytes then circbuf_used c else bytes) with n
    by (case_if; lia).
  rewrite (u32_small (size c - off)) by lia.
  replace (if n <? size c - off then n else size c - off)
    with (Z.min n (size c - off)) by (case_if; lia).
  rewrite (u32_small (n - _)) by lia.
  rewrite !mem_read_Some by lia. simpl. rewrite drop_0.
  rewrite s32_small by lia. do 2 f_equal.
  unfold contents. rewrite window_take by lia.
  replace (size c) with (Z.of_nat (length (base c))).
  rewrite window_read by lia. apply window_ext. unfold off.
  rewrite wf_base0. by rewrite Zmod_mod.
Qed.

Lemma ring_get_period b p k :
  length b ≠ 0%nat → ring_get b (p + Z.of_nat (length b) * k) = ring_get b p.
Proof.
  intros. unfold ring_get. rewrite Z.mul_comm. by rewrite Z_mod_plus_full.
Qed.

(** The ring after the two copies that store [d1 ++ d2] at position [h],
    seen from [h]. *)

Lemma ring_get_store b h (d1 d2 : list Z) k :
  let s := Z.of_nat (length b) in
  let n := Z.of_nat (length (d1 ++ d2)) in
  0 < s → n ≤ s → Z.of_nat (length d1) = Z.min n (s - h mod s) →
  n - s ≤ k < n →
  ring_get (list_inserts 0 d2 (list_inserts (Z.to_nat (h mod s)) d1 b)) (h + k) =
    if 0 <=? k then (d1 ++ d2) !!! Z.to_nat k else ring_get b (h + k).
Proof.
  intros s n Hs Hn Hd1 Hk.
  assert (n = Z.of_nat (length d1 + length d2)) by (unfold n; by rewrite length_app).
  pose proof (Z.mod_pos_bound h s Hs) as Hoff.
  assert (Hk2 : 0 ≤ (if 0 <=? k then k else k + s) < s) by (case_if; lia).
  pose proof (ring_get_write b (h mod s) d1 d2 _ Hoff ltac:(lia) ltac:(lia) Hk2) as Hw.
  set (b2 := list_inserts 0 d2 _) in *.
  assert (Hlen : length b2 = length b) by (unfold b2; by rewrite !length_inserts).
  unfold s in Hw. rewrite ring_get_mod in Hw by lia.
  rewrite <- Hlen in Hw at 1. rewrite ring_get_mod in Hw by lia. fold s in Hw.
  destruct (0 <=? k) eqn:E; bool_to_prop.
  - rewrite Hw. case_if; [done|lia].
  - replace (h + (k + s)) with (h + k + s * 1) in Hw by lia.
    unfold s in Hw. rewrite ring_get_period in Hw by lia.
    rewrite <- Hlen in Hw at 1. rewrite ring_get_period in Hw by lia.
    rewrite Hw. case_if; [lia|done].
Qed.

Lemma window_store b t u (d1 d2 : list Z) :
  let s := Z.of_nat (length b) in
  let n := Z.of_nat (length (d1 ++ d2)) in
  let ov := Z.max 0 (u + n - s) in
  0 < s → n ≤ s → 0 ≤ u ≤ s →
  Z.of_nat (length d1) = Z.min n (s - (t + u) mod s) →
  window (list_inserts 0 d2 (list_inserts (Z.to_nat ((t + u) mod s)) d1 b))
    (t + ov) (u + n - ov) =
  drop (Z.to_nat ov) (window b t u ++ d1 ++ d2).
Proof.
  intros s n ov Hs Hn Hu Hd1. apply list_eq. intros i.
  pose proof (length_window b t u).
  destruct (decide (Z.of_nat i < u + n - ov)) as [Hi|Hi].
  2: { rewrite !lookup_ge_None_2; [done| |].
       - rewrite length_drop, length_app. lia.
       - apply Nat2Z.inj_le. rewrite length_window. lia. }
  rewrite lookup_window, lookup_drop by lia.
  replace (t + ov + Z.of_nat i) with (t + u + (ov + Z.of_nat i - u)) by lia.
  pose proof (ring_get_store b (t + u) d1 d2 (ov + Z.of_nat i - u)) as Hr.
  cbv zeta in Hr. fold s n in Hr. rewrite Hr by lia. case_if.
  - rewrite lookup_app_r by lia. rewrite list_lookup_lookup_total_lt by lia.
    do 2 f_equal. lia.
  - rewrite lookup_app_l, lookup_window by lia. do 2 f_equal. lia.
Qed.

(** The two copies of [n] bytes of [src], from [soff] on, into the ring. *)

Lemma two_copies (b src : list Z) soff n off :
  0 ≤ off < Z.of_nat (length b) → 0 ≤ n ≤ Z.of_nat (length b) →
  0 ≤ soff → soff + n ≤ Z.of_nat (length src) →
  let sp := Z.min n (Z.of_nat (length b) - off) in
  ∃ d1 d2,
    d1 ++ d2 = take (Z.to_nat n) (drop (Z.to_nat soff) src) ∧
    Z.of_nat (length d1) = sp ∧ Z.of_nat (length d2) = n - sp ∧
    mem_read src soff sp = Some d1 ∧
    mem_write b off d1 = Some (list_inserts (Z.to_nat off) d1 b) ∧
    mem_read src (soff + sp) (n - sp) = Some d2 ∧
    mem_write (list_inserts (Z.to_nat off) d1 b) 0 d2 =
      Some (list_inserts 0 d2 (list_inserts (Z.to_nat off) d1 b)).
Proof.
  intros Hoff Hn Hso Hsrc sp.
  set (src' := take (Z.to_nat n) (drop (Z.to_nat soff) src)).
  assert (Hls : Z.of_nat (length src') = n)
    by (unfold src'; rewrite length_take, length_drop; lia).
  exists (take (Z.to_nat sp) src'), (drop (Z.to_nat sp) src').
  assert (Hl1 : Z.of_nat (length (take (Z.to_nat sp) src')) = sp)
    by (rewrite length_take; lia).
  assert (Hl2 : Z.of_nat (length (drop (Z.to_nat sp) src')) = n - sp)
    by (rewrite length_drop; lia).
  split_and!; auto using take_drop.
  - rewrite mem_read_Some by lia. f_equal. unfold src'. rewrite take_take. f_equal. lia.
  - apply mem_write_Some; lia.
  - rewrite mem_read_Some by lia. f_equal. unfold src'.
    replace (Z.to_nat n) with (Z.to_nat sp + Z.to_nat (n - sp))%nat by lia.
    rewrite <- take_drop_commute, drop_drop. do 2 f_equal. lia.
  - apply mem_write_Some; rewrite ?length_inserts; lia.
Qed.

(** Storing [d1 ++ d2] at [head] and moving both positions: the common part of
    [circbuf_write] (no byte is dropped) and [circbuf_overwrite] ([ov] bytes
    are dropped). *)

Lemma produce_spec c (d1 d2 : list Z) m :
  let n := Z.of_nat (length (d1 ++ d2)) in
  let off := head c mod size c in
  let ov := Z.max 0 (circbuf_used c + n - size c) in
  let b2 := list_inserts 0 d2 (list_inserts (Z.to_nat off) d1 (base c)) in
  let c' := set_tail (set_head (set_base c b2) (u32 (head c + n))) (u32 (tail c + ov)) in
  wf c → 0 < size c → n ≤ size c → 0 ≤ m → steady c (n + m) →
  Z.of_nat (length d1) = Z.min n (size c - off) →
  wf c' ∧ steady c' m ∧ contents c' = drop (Z.to_nat ov) (contents c ++ d1 ++ d2).
Proof.
  intros n off ov b2 c' Hwf Hs Hn Hm Hst Hd1. pose proof (used_range c).
  pose proof (head_pos c Hwf (steady_mono c (n + m) 0 Hst ltac:(lia)) Hs) as Hhp.
  pose proof Hwf as [Hb ? ? ? ?].
  assert (Hu : circbuf_used c' = circbuf_used c + n - ov).
  { unfold circbuf_used at 1. simpl. rewrite u32_sub_u32, u32_u32_sub.
    replace (head c + n - (tail c + ov)) with ((head c - tail c) + (n - ov)) by lia.
    rewrite <- u32_u32_add. fold (circbuf_used c). rewrite u32_small; lia. }
  split; [|split].
  - constructor; simpl; auto using u32_range.
    + unfold b2. by rewrite !length_inserts.
    + rewrite Hu. lia.
  - destruct Hst as [?|?]; [by left|right]. rewrite Hu. simpl. rewrite u32_small; lia.
  - unfold contents. rewrite Hu. simpl.
    pose proof (window_store (base c) (tail c) (circbuf_used c) d1 d2) as Hw.
    cbv zeta in Hw. rewrite Hb in Hw. fold n ov in Hw. rewrite <- Hhp in Hw.
    rewrite <- Hw by lia. fold off b2.
    destruct (decide (circbuf_used c + n - ov = 0)) as [->|Hz]; [done|].
    apply window_ext. unfold b2. rewrite !length_inserts, Hb.
    apply pos_wrap; [lia|]. destruct Hst; [by left|right; lia].
Qed.

Lemma write_spec c (src : list Z) bytes m :
  wf c → 0 ≤ bytes < 2 ^ 32 → bytes ≤ Z.of_nat (length src) → 0 ≤ m →
  steady c (bytes + m) →
  let n := Z.min bytes (size c - circbuf_used c) in
  ∃ c', circbuf_write c src bytes = Some (n, c') ∧ wf c' ∧ steady c' m ∧
    size c' = size c ∧ contents c' = contents c ++ take (Z.to_nat n) src.
Proof.
  intros Hwf Hb Hsrc Hm Hst n. pose proof Hwf as [Hbase ? ? ? ?].
  pose proof (used_range c). unfold circbuf_write.
  destruct (Z.eqb_spec (size c) 0) as [Hz|Hz].
  { assert (n = 0) as -> by lia. exists c. rewrite take_0, app_nil_r.
    split_and!; auto. eapply steady_mono; [done|lia]. }
  rewrite (space_eq c Hwf).
  pose proof (Z.mod_pos_bound (head c) (size c)) as Hoff.
  set (off := head c mod size c) in *.
  replace (if size c - circbuf_used c <? bytes then _ else bytes) with n
    by (case_if; lia).
  rewrite (u32_small (size c - off)) by lia.
  replace (if n <? size c - off then n else size c - off)
    with (Z.min n (size c - off)) by (case_if; lia).
  rewrite (u32_small (n - _)) by lia. rewrite s32_small by lia.
  destruct (two_copies (base c) src 0 n off) as
    (d1 & d2 & Hd & Hl1 & Hl2 & E1 & E2 & E3 & E4); [lia..|].
  rewrite Hbase in *. rewrite Z.add_0_l in E3. rewrite E1. simpl.
  rewrite E2. simpl. rewrite E3. simpl. rewrite E4. simpl.
  assert (Hn : Z.of_nat (length (d1 ++ d2)) = n) by (rewrite length_app; lia).
  destruct (produce_spec c d1 d2 m) as (Hwf' & Hst' & Hc); auto; try lia.
  { eapply steady_mono; [done|lia]. }
  eexists. split; [done|]. rewrite Hn, Z.max_l in * by lia.
  rewrite drop_0, Hd, drop_0 in Hc. fold off in Hwf', Hst', Hc.
  rewrite Z.add_0_r, (u32_small (tail c)) in Hwf', Hst', Hc by lia. by split_and!.
Qed.

Lemma overwrite_spec c (src : list Z) bytes m :
  wf c → 0 ≤ bytes < 2 ^ 32 → Z.of_nat (length src) = bytes → 0 ≤ m →
  steady c (bytes + m) →
  let kept := drop (Z.to_nat (bytes - size c)) src in
  let ov := Z.max 0 (circbuf_used c + Z.of_nat (length kept) - size c) in
  ∃ c', circbuf_overwrite c src bytes = Some (ov, c') ∧ wf c' ∧ steady c' m ∧
    size c' = size c ∧ contents c' = drop (Z.to_nat ov) (contents c ++ kept).
Proof.
  intros Hwf Hb Hsrc Hm Hst kept ov. pose proof Hwf as [Hbase ? ? ? ?].
  pose proof (used_range c).
  assert (Hk : Z.of_nat (length kept) = Z.min bytes (size c))
    by (unfold kept; rewrite length_drop; lia).
  unfold circbuf_overwrite.
  destruct (Z.eqb_spec (size c) 0) as [Hz|Hz].
  { assert (ov = 0) as -> by lia. exists c.
    rewrite (nil_length_inv kept), app_nil_r by lia.
    split_and!; auto. eapply steady_mono; [done|lia]. }
  rewrite (space_eq c Hwf).
  pose proof (Z.mod_pos_bound (head c) (size c)) as Hoff.
  set (off := head c mod size c) in *. set (n := Z.min bytes (size c)).
  replace (if size c <? bytes then _ else _) with (Z.max 0 (bytes - size c), n)
    by (case_if; f_equal; rewrite ?u32_small; lia).
  rewrite (u32_small (size c - off)) by lia.
  replace (if n <? size c - off then n else size c - off)
    with (Z.min n (size c - off)) by (case_if; lia).
  replace (if size c - circbuf_used c <? n then _ else 0) with ov
    by (case_if; rewrite ?u32_small; lia).
  rewrite (u32_small (n - _)) by lia. rewrite s32_small by lia.
  destruct (two_copies (base c) src (Z.max 0 (bytes - size c)) n off) as
    (d1 & d2 & Hd & Hl1 & Hl2 & E1 & E2 & E3 & E4); [lia..|].
  rewrite Hbase in *. rewrite E1. simpl.
  rewrite E2. simpl. rewrite E3. simpl. rewrite E4. simpl.
  assert (Hn : Z.of_nat (length (d1 ++ d2)) = n) by (rewrite length_app; lia).
  destruct (produce_spec c d1 d2 m) as (Hwf' & Hst' & Hc); auto; try lia.
  { eapply steady_mono; [done|lia]. }
  eexists. split; [done|]. rewrite Hn in *.
  assert (Hov : Z.max 0 (circbuf_used c + n - size c) = ov) by lia.
  rewrite Hov in *. fold off in Hwf', Hst', Hc.
  split_and!; auto. rewrite Hc, Hd. do 2 f_equal.
  rewrite take_ge by (rewrite length_drop; lia). unfold kept. f_equal. lia.
Qed.

(** ** The buffer as a bounded FIFO

    [fifo_step cap] is the specification: a queue of at most [cap] bytes.  An
    operation outputs its return value and the bytes it delivers. *)

Inductive op :=
  | Op_write (src : list Z)
  | Op_overwrite (src : list Z)
  | Op_read (bytes : Z)
  | Op_peek (bytes : Z)
  | Op_skip (bytes : Z)
  | Op_reset.

Definition op_step (c : circbuf_s) (o : op) : option (Z * list Z * circbuf_s) :=
  match o with
  | Op_write src =>
      '(n, c) ← circbuf_write c src (Z.of_nat (length src)); Some (n, [], c)
  | Op_overwrite src =>
      '(n, c) ← circbuf_overwrite c src (Z.of_nat (length src)); Some (n, [], c)
  | Op_read bytes => circbuf_read c bytes
  | Op_peek bytes => '(n, d) ← circbuf_peek c bytes; Some (n, d, c)
  | Op_skip bytes => let '(n, c) := circbuf_skip c bytes in Some (n, [], c)
  | Op_reset => Some (0, [], circbuf_reset c)
  end.

Definition fifo_step (cap : Z) (q : list Z) (o : op) : Z * list Z * list Z :=
  match o with
  | Op_write src =>
      let n := Z.min (Z.of_nat (length src)) (cap - Z.of_nat (length q)) in
      (n, [], q ++ take (Z.to_nat n) src)
  | Op_overwrite src =>
      let kept := drop (Z.to_nat (Z.of_nat (length src) - cap)) src in
      let lost := Z.max 0 (Z.of_nat (length (q ++ kept)) - cap) in
      (lost, [], drop (Z.to_nat lost) (q ++ kept))
  | Op_read bytes =>
      let n := Z.min bytes (Z.of_nat (length q)) in
      (n, take (Z.to_nat n) q, drop (Z.to_nat n) q)
  | Op_peek bytes =>
      let n := Z.min bytes (Z.of_nat (length q)) in (n, take (Z.to_nat n) q, q)
  | Op_skip bytes =>
      let n := Z.min bytes (Z.of_nat (length q)) in (n, [], drop (Z.to_nat n) q)
  | Op_reset => (0, [], [])
  end.

Fixpoint op_run (c : circbuf_s) (os : list op) :
    option (list (Z * list Z) * circbuf_s) :=
  match os with
  | [] => Some ([], c)
  | o :: os =>
      '(n, d, c) ← op_step c o;
      '(outs, c) ← op_run c os;
      Some ((n, d) :: outs, c)
  end.

Fixpoint fifo_run (cap : Z) (q : list Z) (os : list op) :
    list (Z * list Z) * list Z :=
  match os with
  | [] => ([], q)
  | o :: os =>
      let '(n, d, q) := fifo_step cap q o in
      let '(outs, q) := fifo_run cap q os in ((n, d) :: outs, q)
  end.

(** The bytes an operation asks to store, and arguments that are [size_t]s. *)

Definition op_demand (o : op) : Z :=
  match o with
  | Op_write src | Op_overwrite src => Z.of_nat (length src)
  | _ => 0
  end.

Definition op_ok (o : op) : bool :=
  match o with
  | Op_write src | Op_overwrite src => Z.of_nat (length src) <? 2 ^ 32
  | Op_read n | Op_peek n | Op_skip n => (0 <=? n) && (n <? 2 ^ 32)
  | Op_reset => true
  end.

Definition ops_demand (os : list op) : Z := foldr (λ o n, op_demand o + n) 0 os.

Lemma op_demand_nonneg o : 0 ≤ op_demand o.
Proof. destruct o; simpl; lia. Qed.

Lemma ops_demand_nonneg os : 0 ≤ ops_demand os.
Proof. induction os as [|o os IH]; simpl; [lia|]. pose proof (op_demand_nonneg o). lia. Qed.

(** One operation of the code is one operation of the specification. *)

Lemma op_step_refines c o m :
  wf c → op_ok o = true → 0 ≤ m → steady c (op_demand o + m) →
  ∃ n d c', op_step c o = Some (n, d, c') ∧ wf c' ∧ steady c' m ∧ size c' = size c ∧
    fifo_step (size c) (contents c) o = (n, d, contents c').
Proof.
  intros Hwf Hok Hm Hst. pose proof (used_range c). pose proof (length_contents c) as Hlc.
  assert (Hs : 0 ≤ circbuf_used c ≤ size c ∧ size c < 2 ^ 31) by (destruct Hwf; lia).
  destruct o as [src|src|n|n|n|]; simpl in *; bool_to_prop.
  - destruct (write_spec c src (Z.of_nat (length src)) m) as (c' & -> & ? & ? & ? & Hc);
      auto; try lia.
    eexists _, _, c'. rewrite Hc, Hlc. by split_and!.
  - destruct (overwrite_spec c src (Z.of_nat (length src)) m)
      as (c' & -> & ? & ? & ? & Hc); auto; try lia.
    eexists _, _, c'. rewrite Hc, length_app, Nat2Z.inj_add, Hlc. by split_and!.
  - unfold circbuf_read. rewrite peek_spec by (auto; lia). simpl.
    rewrite u32_small, s32_small by lia.
    destruct (consume_spec c (Z.min n (circbuf_used c)) m) as (? & ? & Hc); auto; try lia.
    eexists _, _, _. split; [done|]. rewrite Hlc, Hc. by split_and!.
  - rewrite peek_spec by (auto; lia). simpl. eexists _, _, c. rewrite Hlc. by split_and!.
  - replace (if circbuf_used c <? n then circbuf_used c else n)
      with (Z.min n (circbuf_used c)) by (case_if; lia).
    destruct (consume_spec c (Z.min n (circbuf_used c)) m) as (? & ? & Hc); auto; try lia.
    eexists _, _, _. rewrite s32_small by lia. split; [done|]. rewrite Hlc, Hc. by split_and!.
  - eexists _, _, _. split; [done|]. destruct Hwf. split_and!; [|..|done|done].
    + constructor; simpl; try done; try lia.
      unfold circbuf_used. simpl. rewrite u32_small; lia.
    + destruct Hst as [?|?]; [by left|right]. unfold circbuf_used. simpl. rewrite u32_small; lia.
Qed.

(** C19.  Refinement: on a well-formed buffer, every sequence of writes,
    overwrites, reads, peeks, skips and resets runs without a fault and delivers
    exactly what a FIFO of [size] bytes delivers, and the buffer then holds
    exactly the bytes of that FIFO, provided that the positions do not wrap
    (fewer than 2^32 bytes are stored) or that the size divides 2^32. *)
Theorem circbuf_refines_fifo os : ∀ c,
  wf c → forallb op_ok os = true → steady c (ops_demand os) →
  ∃ outs c', op_run c os = Some (outs, c') ∧ wf c' ∧
    fifo_run (size c) (contents c) os = (outs, contents c').
Proof.
  induction os as [|o os IH]; intros c Hwf Hok Hst; simpl in *.
  - by eexists _, c.
  - bool_to_prop. pose proof (ops_demand_nonneg os).
    destruct (op_step_refines c o (ops_demand os)) as
      (n & d & c1 & -> & Hwf1 & Hst1 & Hs1 & ->); auto.
    destruct (IH c1) as (outs & c2 & E2 & ? & E3); auto. simpl. rewrite E2. simpl.
    rewrite <- Hs1, E3. by eexists _, c2.
Qed.

(** A fresh buffer: what [circbuf_init] leaves on success. *)

Definition fresh (b : list Z) (ext : bool) : circbuf_s :=
  mk_circ b (Z.of_nat (length b)) 0 0 ext.

Lemma fresh_wf b ext :
  Z.of_nat (length b) < 2 ^ 31 → wf (fresh b ext) ∧ contents (fresh b ext) = [].
Proof.
  intros. split; [|done]. constructor; simpl; try lia.
  unfold circbuf_used. simpl. rewrite u32_small; lia.
Qed.

(** The buffer built by [circbuf_resize]: the bytes kept, from offset 0 on. *)

Lemma resized_buffer (tmp dst : list Z) len bytes e :
  0 < bytes < 2 ^ 31 → Z.of_nat (length tmp) = bytes →
  Z.of_nat (length dst) = len → len ≤ bytes →
  let c' := mk_circ (list_inserts 0 dst tmp) bytes len 0 e in
  wf c' ∧ size c' = bytes ∧ contents c' = dst.
Proof.
  intros Hb Ht Hd Hle c'.
  assert (Hu : circbuf_used c' = len)
    by (unfold circbuf_used; simpl; rewrite u32_small; lia).
  split_and!; [|done|].
  - constructor; rewrite ?Hu; simpl; rewrite ?length_inserts; lia.
  - unfold contents. rewrite Hu. simpl. apply list_eq. intros i.
    destruct (decide (Z.of_nat i < len)) as [Hi|Hi].
    + rewrite lookup_window by lia. unfold ring_get. rewrite length_inserts.
      rewrite Z.mod_small, list_lookup_total_inserts by lia.
      rewrite list_lookup_lookup_total_lt by lia. do 2 f_equal. lia.
    + rewrite !lookup_ge_None_2; [done|lia|].
      apply Nat2Z.inj_le. rewrite length_window. lia.
Qed.

(** [circbuf_init] either reports [-ENOMEM], and only when no buffer was
    given and the heap had none, or leaves an empty well-formed buffer of
    [bytes] bytes; it never faults on a call that satisfies its assertion. *)
Theorem circbuf_init_spec `{Kmm} (circ : circbuf_s) (buf : option (list Z)) bytes :
  0 ≤ bytes < 2 ^ 31 →
  match buf with Some b => Z.of_nat (length b) = bytes ∧ bytes ≠ 0 | None => True end →
  ∃ ret circ', circbuf_init circ buf bytes = Some (ret, circ') ∧
    ((ret = - ENOMEM ∧ buf = None ∧ bytes ≠ 0 ∧ kmm_malloc bytes = None) ∨
     (ret = 0 ∧ wf circ' ∧ size circ' = bytes ∧ contents circ' = [] ∧
      external circ' = bool_decide (is_Some buf))).
Proof.
  intros Hb Hbuf.
  assert (Hok : ∀ b e, Z.of_nat (length b) = bytes →
    wf (mk_circ b bytes 0 0 e) ∧ contents (mk_circ b bytes 0 0 e) = []).
  { intros b e <-. apply fresh_wf. lia. }
  unfold circbuf_init. destruct buf as [b|]; simpl.
  - destruct Hbuf as [Hl Hz]. apply Z.eqb_neq in Hz. rewrite Hz. simpl.
    eexists _, _. split; [done|]. right. by destruct (Hok b true).
  - destruct (Z.eqb_spec bytes 0) as [->|Hz].
    + eexists _, _. split; [done|]. right. by destruct (Hok [] false).
    + destruct (kmm_malloc bytes) as [b|] eqn:E.
      * apply kmm_malloc_size in E; [|lia].
        eexists _, _. split; [done|]. right. by destruct (Hok b false).
      * eexists _, _. split; [done|]. by left.
Qed.

(** [circbuf_resize] on a buffer the code allocated itself: a failed
    allocation leaves the buffer as it was and reports [-ENOMEM]; otherwise the
    new buffer is well formed and holds the newest bytes that fit. *)
Theorem circbuf_resize_spec `{Kmm} c bytes :
  wf c → external c = false → steady c 0 → 0 ≤ bytes < 2 ^ 31 →
  ∃ ret c', circbuf_resize c bytes = Some (ret, c') ∧
    ((ret = - ENOMEM ∧ c' = c ∧ kmm_malloc bytes = None) ∨
     (ret = 0 ∧ wf c' ∧ size c' = bytes ∧
      contents c' = drop (Z.to_nat (circbuf_used c - bytes)) (contents c))).
Proof.
  intros Hwf Hext Hst Hb. pose proof (used_range c). pose proof Hwf as [].
  unfold circbuf_resize. rewrite Hext. simpl.
  destruct (Z.eqb_spec bytes 0) as [->|Hz].
  { eexists _, _. split; [done|]. right. destruct (fresh_wf [] false) as [? Hc]; [done|].
    split_and!; auto. etrans; [exact Hc|]. symmetry. apply drop_ge. pose proof (length_contents c). lia. }
  destruct (kmm_malloc bytes) as [tmp|] eqn:Em; [|eexists _, _; eauto].
  apply kmm_malloc_size in Em; [|lia].
  set (len := Z.min bytes (circbuf_used c)).
  set (gone := Z.max 0 (circbuf_used c - bytes)).
  destruct (consume_spec c gone 0) as (Hwf1 & Hst1 & Hc1); auto; try lia.
  assert (Hu1 : circbuf_used (set_tail c (u32 (tail c + gone))) = len)
    by (rewrite tail_advance by (auto; lia); lia).
  replace (if bytes <? circbuf_used c then _ else _)
    with (set_tail c (u32 (tail c + gone)), len).
  2: { case_if; f_equal; try lia.
       - unfold circbuf_skip. rewrite (u32_small (_ - bytes)) by lia. case_if; [lia|].
         simpl. do 3 f_equal. lia.
       - assert (gone = 0) as -> by lia. rewrite Z.add_0_r, u32_small by lia. by destruct c. }
  unfold circbuf_read. rewrite peek_spec by (auto; lia). rewrite Hu1. simpl.
  rewrite Z.min_id, take_ge by (pose proof (length_contents (set_tail c (u32 (tail c + gone)))); lia).
  set (dst := contents (set_tail c (u32 (tail c + gone)))).
  assert (Hd : Z.of_nat (length dst) = len) by (unfold dst; rewrite length_contents; lia).
  rewrite mem_write_Some by lia. simpl.
  eexists _, _. split; [done|]. right. rewrite Hext. split; [done|].
  destruct (resized_buffer tmp dst len bytes false) as (? & ? & Hc); try lia.
  split_and!; auto. etrans; [exact Hc|]. unfold dst. rewrite Hc1. f_equal. lia.
Qed.

(** ** Positions that wrap *)

(** A buffer of the bytes [b] after [k] bytes have been written and read. *)

Definition passed (b : list Z) (ext : bool) (k : Z) : circbuf_s := mk_circ b (Z.of_nat (length b)) k k ext.

(** One byte goes to the place of [head]. *)

Lemma write_byte c x :
  wf c → circbuf_used c < size c →
  circbuf_write c [x] 1 =
    Some (1, set_head (set_base c (<[Z.to_nat (head c mod size c) := x]> (base c))) (u32 (head c + 1))).
Proof.
  intros Hwf Hu. pose proof (used_range c). pose proof (space_eq c Hwf) as Hsp. destruct Hwf.
  pose proof (Z.mod_pos_bound (head c) (size c) ltac:(lia)) as Hm. unfold circbuf_write.
  rewrite (proj2 (Z.eqb_neq _ _)), Hsp by lia.
  replace (if size c - circbuf_used c <? 1 then _ else 1) with 1 by (case_if; lia).
  rewrite (u32_small (size c - head c mod size c)) by lia.
  replace (if 1 <? size c - head c mod size c then 1 else _) with 1 by (case_if; lia).
  rewrite (u32_small (1 - 1)), !mem_read_Some by (simpl; lia). simpl.
  rewrite mem_write_Some by (simpl; lia). simpl. rewrite mem_write_Some by (simpl; lia). done.
Qed.

(** Bytes that lie in one piece from [tail] on. *)

Lemma peek_piece c n :
  wf c → 0 ≤ n ≤ circbuf_used c → 0 < size c → tail c mod size c + n ≤ size c →
  circbuf_peek c n = Some (n, take (Z.to_nat n) (drop (Z.to_nat (tail c mod size c)) (base c))).
Proof.
  intros [] Hn Hs Hp. pose proof (Z.mod_pos_bound (tail c) (size c) Hs) as Hm. unfold circbuf_peek.
  rewrite (proj2 (Z.eqb_neq _ _)) by lia. replace (if circbuf_used c <? n then _ else n) with n by (case_if; lia).
  rewrite (u32_small (size c - tail c mod size c)) by lia.
  replace (if n <? size c - tail c mod size c then n else _) with n by (case_if; lia).
  rewrite (u32_small (n - n)), !mem_read_Some by lia. simpl. rewrite s32_small by lia.
  rewrite Z.sub_diag. simpl. by rewrite app_nil_r.
Qed.

(** [n] rounds of one byte through the buffer. *)

Definition rounds (n : nat) : list op := concat (replicate n [Op_write [0]; Op_read 1]).

Lemma op_run_app os1 os2 : ∀ c outs1 c1 outs2 c2,
  op_run c os1 = Some (outs1, c1) → op_run c1 os2 = Some (outs2, c2) →
  op_run c (os1 ++ os2) = Some (outs1 ++ outs2, c2).
Proof.
  induction os1 as [|o os1 IH]; intros c outs1 c1 outs2 c2 H1 H2; simpl in *.
  - by simplify_eq.
  - destruct (op_step c o) as [[[n d] c']|]; [|done]. simpl in *.
    destruct (op_run c' os1) as [[outs c'']|] eqn:E; [|done]. simpl in *. simplify_eq.
    by rewrite (IH _ _ _ _ _ E H2).
Qed.

Lemma rounds_args n : forallb op_ok (rounds n) = true.
Proof. induction n as [|n IH]; [done|]. exact IH. Qed.

Lemma passed_wf b ext k :
  Z.of_nat (length b) < 2 ^ 31 → 0 ≤ k < 2 ^ 32 → wf (passed b ext k) ∧ circbuf_used (passed b ext k) = 0.
Proof.
  intros Hb Hk. assert (Hu : circbuf_used (passed b ext k) = 0) by (unfold circbuf_used; simpl; by rewrite Z.sub_diag).
  split; [|done]. constructor; rewrite ?Hu; simpl; lia.
Qed.

Lemma round_run b ext k :
  0 < Z.of_nat (length b) < 2 ^ 31 → 0 ≤ k → k + 1 < 2 ^ 32 →
  ∃ d b', op_run (passed b ext k) [Op_write [0]; Op_read 1] = Some ([(1, []); (1, d)], passed b' ext (k + 1)) ∧
    length b' = length b.
Proof.
  intros Hb Hk Hk1. destruct (passed_wf b ext k) as [Hwf Hu]; [lia|lia|].
  set (b' := <[Z.to_nat (k mod Z.of_nat (length b)) := 0]> b). assert (Hl : length b' = length b) by apply length_insert.
  set (c := mk_circ b' (Z.of_nat (length b)) (k + 1) k ext).
  assert (Hu1 : circbuf_used c = 1) by (unfold circbuf_used; simpl; rewrite u32_small; lia).
  assert (Hwf1 : wf c) by (constructor; rewrite ?Hu1; simpl; lia).
  pose proof (Z.mod_pos_bound k (Z.of_nat (length b)) ltac:(lia)) as Hm.
  eexists _, b'. split; [|done]. unfold op_run, op_step. change (Z.of_nat (length [0])) with 1.
  rewrite write_byte by (done || simpl; lia). cbn [mbind option_bind].
  change (set_head _ _) with (mk_circ b' (Z.of_nat (length b)) (u32 (k + 1)) k ext). rewrite (u32_small (k + 1)) by lia. fold c.
  unfold circbuf_read. rewrite peek_piece by (done || simpl; lia). cbn [mbind option_bind]. change (u32 1) with 1.
  unfold set_tail, passed. simpl. rewrite u32_small, Hl by lia. done.
Qed.

Lemma rounds_run n : ∀ b ext k,
  0 < Z.of_nat (length b) < 2 ^ 31 → 0 ≤ k → k + Z.of_nat n < 2 ^ 32 →
  ∃ outs b', op_run (passed b ext k) (rounds n) = Some (outs, passed b' ext (k + Z.of_nat n)) ∧ length b' = length b.
Proof.
  induction n as [|n IH]; intros b ext k Hb Hk Hn.
  - exists [], b. simpl. by rewrite Z.add_0_r.
  - destruct (round_run b ext k) as (d & b1 & E1 & Hl1); [lia..|].
    destruct (IH b1 ext (k + 1)) as (outs & b2 & E2 & Hl2); [lia..|].
    exists ([(1, []); (1, d)] ++ outs), b2. split; [|congruence].
    change (rounds (S n)) with ([Op_write [0]; Op_read 1] ++ rounds n).
    replace (k + Z.of_nat (S n)) with (k + 1 + Z.of_nat n) by lia. by eapply op_run_app.
Qed.

(** The last position before the wrap is not the last place of the ring. *)

Lemma wrap_place n : 0 < n → ¬ (n | 2 ^ 32) → (2 ^ 32 - 1) mod n + 1 < n.
Proof.
  intros Hn Hd. pose proof (Z.mod_pos_bound (2 ^ 32 - 1) n Hn). destruct (Z.eq_dec ((2 ^ 32 - 1) mod n) (n - 1)) as [E|]; [|lia].
  destruct Hd. apply Z.mod_divide; [lia|]. replace (2 ^ 32) with ((2 ^ 32 - 1) + 1) by lia.
  rewrite <- Zplus_mod_idemp_l, E. replace (n - 1 + 1) with n by lia. apply Z.mod_same. lia.
Qed.

(** Two bytes that are written across the wrap. *)

Lemma wrap_run b ext x y :
  0 < Z.of_nat (length b) < 2 ^ 31 → ¬ (Z.of_nat (length b) | 2 ^ 32) →
  let r := Z.to_nat ((2 ^ 32 - 1) mod Z.of_nat (length b)) in
  ∃ a c, op_run (passed b ext (2 ^ 32 - 1)) [Op_write [x]; Op_write [y]; Op_read 2] =
    Some ([(1, []); (1, []); (2, [a; b !!! S r])], c).
Proof.
  intros Hb Hd r. pose proof (wrap_place _ (proj1 Hb) Hd) as Hr. set (n := Z.of_nat (length b)) in *.
  pose proof (Z.mod_pos_bound (2 ^ 32 - 1) n ltac:(lia)) as Hm.
  destruct (passed_wf b ext (2 ^ 32 - 1)) as [Hwf Hu]; [lia|lia|].
  set (b1 := <[r := x]> b). assert (Hl1 : length b1 = length b) by apply length_insert.
  set (b2 := <[0%nat := y]> b1). assert (Hl2 : length b2 = length b) by (unfold b2; by rewrite length_insert).
  set (c1 := mk_circ b1 n 0 (2 ^ 32 - 1) ext). set (c2 := mk_circ b2 n 1 (2 ^ 32 - 1) ext).
  assert (Hu1 : circbuf_used c1 = 1) by done. assert (Hu2 : circbuf_used c2 = 2) by done.
  assert (Hwf1 : wf c1) by (constructor; rewrite ?Hu1; simpl; lia).
  assert (Hwf2 : wf c2) by (constructor; rewrite ?Hu2; simpl; lia).
  unfold op_run, op_step. change (Z.of_nat (length [x])) with 1. change (Z.of_nat (length [y])) with 1.
  rewrite write_byte by (done || simpl; lia). cbn [mbind option_bind]. change (set_head _ _) with c1.
  rewrite write_byte by (done || (rewrite Hu1; simpl; lia)). cbn [mbind option_bind]. 
  replace (set_head _ _) with c2 by (unfold set_head, set_base; simpl; by rewrite Z.mod_0_l by lia).
  unfold circbuf_read. rewrite peek_piece by (done || rewrite ?Hu2; simpl; lia). cbn [mbind option_bind].
  simpl tail. simpl size. simpl base. fold r. eexists (b2 !!! r), _. do 3 f_equal.
  assert (Hz : b2 !! S r = Some (b !!! S r)).
  { unfold b2, b1. rewrite !list_lookup_insert_ne by lia. apply list_lookup_lookup_total_lt. lia. }
  assert (Ha : b2 !! r = Some (b2 !!! r)) by (apply list_lookup_lookup_total_lt; lia).
  rewrite (drop_S _ _ _ Ha), (drop_S _ _ _ Hz). done.
Qed.

(** C20.  The condition on the size is needed for every size: a buffer whose size does not divide
    2^32, and through which 2^32 - 1 bytes have passed, is empty and well-formed, yet when
    two bytes are then written, with success, and read, the second byte that is read is
    some [z] whatever the second byte was that was written. *)
Theorem circbuf_wrap_corrupts b ext :
  b ≠ [] → Z.of_nat (length b) < 2 ^ 31 → ¬ (Z.of_nat (length b) | 2 ^ 32) →
  ∃ os outs c z, forallb op_ok os = true ∧ op_run (fresh b ext) os = Some (outs, c) ∧ wf c ∧ contents c = [] ∧
    ∀ x y, ∃ a c', op_run c [Op_write [x]; Op_write [y]; Op_read 2] = Some ([(1, []); (1, []); (2, [a; z])], c').
Proof.
  intros Hne Hb Hd. assert (Hpos : 0 < Z.of_nat (length b)) by (destruct b; [done|simpl; lia]).
  destruct (rounds_run (Z.to_nat (2 ^ 32 - 1)) b ext 0) as (outs & b' & E & Hl); [lia..|].
  replace (0 + Z.of_nat (Z.to_nat (2 ^ 32 - 1))) with (2 ^ 32 - 1) in E by lia. rewrite <- Hl in Hpos, Hb, Hd.
  destruct (passed_wf b' ext (2 ^ 32 - 1)) as [Hwf Hu]; [lia|lia|].
  eexists (rounds _), outs, (passed b' ext (2 ^ 32 - 1)), _. split; [apply rounds_args|]. split; [exact E|]. split; [done|].
  split; [unfold contents; by rewrite Hu|]. intros x y. by apply wrap_run.
Qed.

Lemma circbuf_wrap_corrupts_witness :
  ∃ os outs c z, forallb op_ok os = true ∧ op_run (fresh [7; 8; 9] false) os = Some (outs, c) ∧ wf c ∧ contents c = [] ∧
    ∀ x y, ∃ a c', op_run c [Op_write [x]; Op_write [y]; Op_read 2] = Some ([(1, []); (1, []); (2, [a; z])], c').
Proof.
  apply (circbuf_wrap_corrupts [7; 8; 9] false); [done|simpl; lia|]. simpl. intros [z Hz]. lia.
Defined.

(** ** Witnesses *)

#[local] Instance kmm_zero : Kmm.
Proof.
  refine {| kmm_malloc n := if n <=? 64 then Some (replicate (Z.to_nat n) 0) else None |}.
  intros n l Hn Hl. case_match; simplify_eq. rewrite length_replicate. lia.
Defined.

Definition demo_ops : list op :=
  [Op_write [1; 2; 3]; Op_read 2; Op_overwrite [4; 5; 6; 7; 8]; Op_peek 9].

Lemma circbuf_refines_fifo_witness :
  ∃ outs c', op_run (fresh [0; 0; 0; 0] true) demo_ops = Some (outs, c') ∧ wf c' ∧
    fifo_run 4 [] demo_ops = (outs, contents c').
Proof.
  apply (circbuf_refines_fifo demo_ops (fresh [0; 0; 0; 0] true)).
  - by apply fresh_wf.
  - reflexivity.
  - left. by exists (2 ^ 30).
Defined.

Lemma circbuf_init_spec_witness :
  ∃ ret circ', circbuf_init (passed [0; 0; 0] false 5) None 8 = Some (ret, circ') ∧
    ((ret = - ENOMEM ∧ None = @None (list Z) ∧ 8 ≠ 0 ∧ kmm_malloc 8 = None) ∨
     (ret = 0 ∧ wf circ' ∧ size circ' = 8 ∧ contents circ' = [] ∧
      external circ' = bool_decide (is_Some (@None (list Z))))).
Proof. apply (circbuf_init_spec (passed [0; 0; 0] false 5) None 8); [lia|done]. Defined.

Lemma circbuf_resize_spec_witness :
  let c := mk_circ [3; 1; 2; 0] 4 5 2 false in
  ∃ ret c', circbuf_resize c 2 = Some (ret, c') ∧
    ((ret = - ENOMEM ∧ c' = c ∧ kmm_malloc 2 = None) ∨
     (ret = 0 ∧ wf c' ∧ size c' = 2 ∧
      contents c' = drop (Z.to_nat (circbuf_used c - 2)) (contents c))).
Proof.
  intros c. apply (circbuf_resize_spec c 2).
  - constructor; done.
  - reflexivity.
  - left. by exists (2 ^ 30).
  - lia.
Defined.

End CircBuf.
