(* ===== verification/Gran.v ===== *)
(** * The granule allocator (mm/mm_gran) and the page allocator on top of it

    [gran_s] is the structure of mm_gran.h without its lock: the granule
    allocation table [gat] is the list of its 32-bit words, granule [i] is bit
    [i mod 32] of word [i / 32], one = allocated.  The outcome of
    [gran_enter_critical] (a semaphore wait of the scheduler) is the argument
    [enter]: OK or a negated errno value. *)

From S2P Require Import Prelude.

Module Gran.

Record gran_s := mk_gran {
  log2gran : Z;
  ngranules : Z;
  heapstart : Z;
  gat : list Z
}.

Definition set_gat (p : gran_s) (g : list Z) : gran_s :=
  mk_gran (log2gran p) (ngranules p) (heapstart p) g.

Definition SIZEOF_GAT (n : Z) : Z := Z.shiftr (n + 31) 5.

(** [(1 << log2) - 1] and [x & ~mask]. *)

Definition log2_mask (log2 : Z) : Z := Z.shiftl 1 log2 - 1.
Definition and_not (x mask : Z) : Z := Z.ldiff x mask.

(** [zalloc] tells whether [kmm_zalloc] had memory for the structure. *)

Definition gran_initialize (start heapsize log2g log2align : Z) (zalloc : bool) :
    option (option gran_s) :=
  DEBUGASSERT (negb (start =? 0) && (0 <? heapsize) && (0 <? log2g) && (log2g <? 32)
               && (log2align <=? log2g)) ;;
  let mask := log2_mask log2align in
  let alignedstart := and_not (u32 (start + mask)) mask in
  let mask := log2_mask log2g in
  let heapend := u32 (start + heapsize) in
  let alignedsize := and_not (u32 (heapend - alignedstart)) mask in
  let n := Z.shiftr alignedsize log2g in
  if zalloc
  then Some (Some (mk_gran log2g (u16 n) alignedstart
                     (replicate (Z.to_nat (SIZEOF_GAT n)) 0)))
  else Some None.

Definition gran_mark_allocated (priv : gran_s) (alloc n : Z) : option gran_s :=
  let granno := Z.shiftr (u32 (alloc - heapstart priv)) (log2gran priv) in
  let gatidx := Z.shiftr granno 5 in
  let gatbit := Z.land granno 31 in
  let avail := 32 - gatbit in
  if avail <? n then
    gatmask ← shl32 0xffffffff gatbit;
    w ← arr_get (gat priv) gatidx;
    DEBUGASSERT (Z.land w gatmask =? 0) ;;
    g ← arr_set (gat priv) gatidx (Z.lor w gatmask);
    let n := n - avail in
    gatmask ← shr32 0xffffffff (32 - n);
    w ← arr_get g (gatidx + 1);
    DEBUGASSERT (Z.land w gatmask =? 0) ;;
    g ← arr_set g (gatidx + 1) (Z.lor w gatmask);
    Some (set_gat priv g)
  else
    gatmask ← shr32 0xffffffff (32 - n);
    gatmask ← shl32 gatmask gatbit;
    w ← arr_get (gat priv) gatidx;
    DEBUGASSERT (Z.land w gatmask =? 0) ;;
    g ← arr_set (gat priv) gatidx (Z.lor w gatmask);
    Some (set_gat priv g).

(** The distance to the next candidate position, or [None] when the free
    granules asked for start at this one (the chain of tests in the loop). *)

Definition gran_shift (curr mask : Z) : option Z :=
  if Z.land curr 0x0000ffff =? 0x0000ffff then Some 16
  else if Z.land curr 0x0000ff =? 0x000000ff then Some 8
  else if Z.land curr 0x00000f =? 0x0000000f then Some 4
  else if Z.land curr 0x000003 =? 0x00000003 then Some 2
  else if Z.land curr mask =? 0 then None
  else Some 1.

(** The loop over the bits of one table entry.  [Some None]: not here. *)

Fixpoint gran_search_entry (fuel : nat) (priv : gran_s) (n mask granidx : Z)
    (alloc curr next bitidx : Z) : option (option (Z * gran_s)) :=
  match fuel with
  | O => None
  | S fuel =>
      if (bitidx <? 32) && (granidx + bitidx + n <=? ngranules priv) then
        if curr =? 0xffffffff then Some None else
        match gran_shift curr mask with
        | None =>
            p ← gran_mark_allocated priv alloc n;
            Some (Some (alloc, p))
        | Some shift =>
            hi ← shl32 next (32 - shift);
            gran_search_entry fuel priv n mask granidx
              (u32 (alloc + Z.shiftl shift (log2gran priv)))
              (Z.lor (Z.shiftr curr shift) hi)
              (Z.shiftr next shift)
              (bitidx + shift)
        end
      else Some None
  end.

(** The word after an entry.  The code tests [granidx < priv->ngranules], which
    the loop has just established, so for the last entry it reads the word
    that follows the table: [past], [None] if that word is not accessible. *)

Definition gat_next (priv : gran_s) (past : option Z) (gatidx : Z) : option Z :=
  match arr_get (gat priv) (gatidx + 1) with
  | Some w => Some w
  | None => past
  end.

(** The loop over the table entries. *)

Fixpoint gran_search (fuel : nat) (priv : gran_s) (past : option Z)
    (n mask granidx : Z) : option (Z * gran_s) :=
  match fuel with
  | O => None
  | S fuel =>
      if granidx <? ngranules priv then
        let gatidx := Z.shiftr granidx 5 in
        curr ← arr_get (gat priv) gatidx;
        if curr =? 0xffffffff
        then gran_search fuel priv past n mask (granidx + 32) else
        next ← (if granidx <? ngranules priv then gat_next priv past gatidx
                else Some 0xffffffff);
        let alloc := u32 (heapstart priv + Z.shiftl granidx (log2gran priv)) in
        r ← gran_search_entry 33 priv n mask granidx alloc curr next 0;
        match r with
        | Some r => Some r
        | None => gran_search fuel priv past n mask (granidx + 32)
        end
      else Some (0, priv)
  end.

(** The returned address is 0 for NULL. *)

Definition gran_alloc (priv : gran_s) (past : option Z) (enter size : Z) :
    option (Z * gran_s) :=
  DEBUGASSERT (size <=? u32 (32 * Z.shiftl 1 (log2gran priv))) ;;
  if 0 <? size then
    if enter <? 0 then Some (0, priv) else
    let tmpmask := log2_mask (log2gran priv) in
    let n := Z.shiftr (u32 (size + tmpmask)) (log2gran priv) in
    DEBUGASSERT (n <=? 32) ;;
    mask ← shr32 0xffffffff (32 - n);
    gran_search (S (length (gat priv))) priv past n mask 0
  else Some (0, priv).

(** [gran_free] retries until it gets the lock: [enters] are the outcomes of
    the successive attempts. *)

Definition ECANCELED : Z := 140.

Fixpoint gran_enter_retry (enters : list Z) : option unit :=
  match enters with
  | [] => None
  | ret :: enters =>
      DEBUGASSERT ((ret =? OK) || (ret =? - ECANCELED)) ;;
      if ret <? 0 then gran_enter_retry enters else Some ()
  end.

Definition gran_free (priv : gran_s) (enters : list Z) (memory size : Z) : option gran_s :=
  DEBUGASSERT (negb (memory =? 0) && (size <=? u32 (32 * Z.shiftl 1 (log2gran priv)))) ;;
  gran_enter_retry enters ;;
  let granno := Z.shiftr (u32 (memory - heapstart priv)) (log2gran priv) in
  let gatidx := Z.shiftr granno 5 in
  let gatbit := Z.land granno 31 in
  let granmask := log2_mask (log2gran priv) in
  let n := Z.shiftr (u32 (size + granmask)) (log2gran priv) in
  let avail := 32 - gatbit in
  if avail <? n then
    gatmask ← shl32 0xffffffff gatbit;
    w ← arr_get (gat priv) gatidx;
    DEBUGASSERT (Z.land w gatmask =? gatmask) ;;
    g ← arr_set (gat priv) gatidx (and_not w gatmask);
    let n := n - avail in
    gatmask ← shr32 0xffffffff (32 - n);
    w ← arr_get g (gatidx + 1);
    DEBUGASSERT (Z.land w gatmask =? gatmask) ;;
    g ← arr_set g (gatidx + 1) (and_not w gatmask);
    Some (set_gat priv g)
  else
    gatmask ← shr32 0xffffffff (32 - n);
    gatmask ← shl32 gatmask gatbit;
    w ← arr_get (gat priv) gatidx;
    DEBUGASSERT (Z.land w gatmask =? gatmask) ;;
    g ← arr_set (gat priv) gatidx (and_not w gatmask);
    Some (set_gat priv g).

Definition gran_reserve (priv : gran_s) (start size : Z) : option gran_s :=
  if 0 <? size then
    let mask := log2_mask (log2gran priv) in
    let end_ := u32 (start + size - 1) in
    let start := and_not start mask in
    let end_ := and_not (u32 (end_ + mask)) mask in
    let n := Z.shiftr (u32 (end_ - start)) (log2gran priv) + 1 in
    gran_mark_allocated priv start n
  else Some priv.

(** ** The table as a set of granules

    [gbit g i]: granule [i] is allocated.  [set_range] and [clear_range] are the
    reference operations on the table. *)

Definition gbit (g : list Z) (i : Z) : bool :=
  Z.testbit (g !!! Z.to_nat (i / 32)) (i mod 32).

Definition range_word (j : nat) (a n : Z) : Z :=
  u32 (Z.shiftr (Z.shiftl (Z.ones n) a) (32 * Z.of_nat j)).

Definition set_range (a n : Z) (g : list Z) : list Z :=
  imap (λ j w, Z.lor w (range_word j a n)) g.

Definition clear_range (a n : Z) (g : list Z) : list Z :=
  imap (λ j w, Z.ldiff w (range_word j a n)) g.

Definition all_free (g : list Z) (a n : Z) : bool :=
  forallb (λ i, negb (gbit g i)) (seqZ a n).

Definition all_used (g : list Z) (a n : Z) : bool := forallb (gbit g) (seqZ a n).

Definition free_run (p : gran_s) (a n : Z) : bool :=
  (a + n <=? ngranules p) && all_free (gat p) a n.

(** The lowest place where [n] consecutive granules are free. *)

Definition first_fit (p : gran_s) (n : Z) : option Z :=
  List.find (λ a, free_run p a n) (seqZ 0 (ngranules p)).

Definition gran_addr (p : gran_s) (a : Z) : Z := heapstart p + a * 2 ^ log2gran p.

(** ** Invariant of the structure *)

Record wf (p : gran_s) : Prop := {
  wf_log2 : 0 < log2gran p ≤ 25;
  wf_n : 0 ≤ ngranules p < 2 ^ 16;
  wf_len : Z.of_nat (length (gat p)) = (ngranules p + 31) / 32;
  wf_words : Forall word32 (gat p);
  wf_start : 0 < heapstart p;
  wf_end : gran_addr p (ngranules p) ≤ 2 ^ 32
}.

Lemma word_at g j : Forall word32 g → word32 (g !!! j).
Proof.
  intros Hg. rewrite list_lookup_total_alt.
  destruct (g !! j) as [w|] eqn:E; simpl; [by eapply Forall_lookup_1|done].
Qed.

(** Tables with the same granules are equal. *)

Lemma gat_ext g1 g2 :
  length g1 = length g2 → Forall word32 g1 → Forall word32 g2 →
  (∀ i, 0 ≤ i < 32 * Z.of_nat (length g1) → gbit g1 i = gbit g2 i) → g1 = g2.
Proof.
  intros Hl H1 H2 Hb. apply list_eq_same_length with (length g1); [done|done|].
  intros j v w Hj Hv Hw.
  apply word32_ext; [exact (Forall_lookup_1 _ _ _ _ H1 Hv)
                    |exact (Forall_lookup_1 _ _ _ _ H2 Hw)|]. intros i Hi.
  specialize (Hb (32 * Z.of_nat j + i)). unfold gbit in Hb.
  replace ((32 * Z.of_nat j + i) / 32) with (Z.of_nat j) in Hb by dlia.
  replace ((32 * Z.of_nat j + i) mod 32) with i in Hb by dlia.
  rewrite Nat2Z.id in Hb.
  rewrite (list_lookup_total_correct _ _ _ Hv), (list_lookup_total_correct _ _ _ Hw) in Hb.
  apply Hb. lia.
Qed.

Lemma range_word_spec j a n i :
  0 ≤ a → 0 ≤ n → 0 ≤ i < 32 →
  Z.testbit (range_word j a n) i =
    (a <=? 32 * Z.of_nat j + i) && (32 * Z.of_nat j + i <? a + n).
Proof.
  intros. unfold range_word. rewrite u32_spec, Z.shiftr_spec by lia.
  rewrite Z.shiftl_spec by lia. rewrite Z.testbit_ones by lia. lia.
Qed.

Lemma length_set_range a n g : length (set_range a n g) = length g.
Proof. apply length_imap. Qed.

Lemma length_clear_range a n g : length (clear_range a n g) = length g.
Proof. apply length_imap. Qed.

Lemma set_range_words a n g : Forall word32 g → Forall word32 (set_range a n g).
Proof.
  intros Hg. apply Forall_lookup. intros j w. unfold set_range.
  rewrite list_lookup_imap. destruct (g !! j) as [v|] eqn:E; simpl; [|done].
  intros [= <-]. apply word32_lor; [by eapply Forall_lookup_1|apply word32_u32].
Qed.

Lemma clear_range_words a n g : Forall word32 g → Forall word32 (clear_range a n g).
Proof.
  intros Hg. apply Forall_lookup. intros j w. unfold clear_range.
  rewrite list_lookup_imap. destruct (g !! j) as [v|] eqn:E; simpl; [|done].
  intros [= <-]. apply word32_ldiff. by eapply Forall_lookup_1.
Qed.

Lemma lookup_total_imap_lt (f : nat → Z → Z) g j :
  (j < length g)%nat → imap f g !!! j = f j (g !!! j).
Proof.
  intros Hj. rewrite !list_lookup_total_alt, list_lookup_imap.
  destruct (lookup_lt_is_Some_2 g j Hj) as [w ->]. done.
Qed.

Lemma gbit_set_range a n g i :
  0 ≤ a → 0 ≤ n → 0 ≤ i < 32 * Z.of_nat (length g) →
  gbit (set_range a n g) i = gbit g i || (a <=? i) && (i <? a + n).
Proof.
  intros. unfold gbit, set_range. rewrite lookup_total_imap_lt by dlia.
  rewrite Z.lor_spec, range_word_spec by dlia. f_equal.
  replace (32 * Z.of_nat (Z.to_nat (i / 32)) + i mod 32) with i by dlia. done.
Qed.

Lemma gbit_clear_range a n g i :
  0 ≤ a → 0 ≤ n → 0 ≤ i < 32 * Z.of_nat (length g) →
  gbit (clear_range a n g) i = gbit g i && negb ((a <=? i) && (i <? a + n)).
Proof.
  intros. unfold gbit, clear_range. rewrite lookup_total_imap_lt by dlia.
  rewrite Z.ldiff_spec, range_word_spec by dlia. f_equal. f_equal.
  replace (32 * Z.of_nat (Z.to_nat (i / 32)) + i mod 32) with i by dlia. done.
Qed.

Lemma gbit_insert g j w i :
  0 ≤ i → 0 ≤ j < Z.of_nat (length g) →
  gbit (<[Z.to_nat j := w]> g) i = if i / 32 =? j then Z.testbit w (i mod 32) else gbit g i.
Proof.
  intros Hi Hj. unfold gbit. case_if.
  - subst j. by rewrite list_lookup_total_insert_eq by lia.
  - rewrite list_lookup_total_insert_ne; [done|]. dlia.
Qed.

Lemma forallb_seqZ (f : Z → bool) a n :
  forallb f (seqZ a n) = true ↔ ∀ i, a ≤ i < a + n → f i = true.
Proof.
  rewrite forallb_forall. setoid_rewrite <- list_elem_of_In.
  setoid_rewrite elem_of_seqZ. done.
Qed.

Lemma all_free_spec g a n :
  all_free g a n = true ↔ ∀ i, a ≤ i < a + n → gbit g i = false.
Proof. unfold all_free. rewrite forallb_seqZ. by setoid_rewrite negb_true_iff. Qed.

Lemma all_used_spec g a n :
  all_used g a n = true ↔ ∀ i, a ≤ i < a + n → gbit g i = true.
Proof. unfold all_used. by rewrite forallb_seqZ. Qed.

Lemma free_run_spec p a n :
  free_run p a n = true ↔
  a + n ≤ ngranules p ∧ ∀ i, a ≤ i < a + n → gbit (gat p) i = false.
Proof. unfold free_run. by rewrite andb_true_iff, all_free_spec, Z.leb_le. Qed.

(** ** Marking and clearing a range *)

Lemma granno_addr p a :
  wf p → 0 ≤ a < ngranules p →
  Z.shiftr (u32 (gran_addr p a - heapstart p)) (log2gran p) = a.
Proof.
  intros [Hlog Hn _ _ Hs He] Ha. unfold gran_addr in *.
  assert (0 < 2 ^ log2gran p) by (apply Z.pow_pos_nonneg; lia).
  rewrite u32_small by nia. rewrite Z.shiftr_div_pow2 by lia.
  replace (heapstart p + a * 2 ^ log2gran p - heapstart p) with (a * 2 ^ log2gran p) by lia.
  apply Z.div_mul. lia.
Qed.

Lemma gatidx_eq a : Z.shiftr a 5 = a / 32.
Proof. by rewrite Z.shiftr_div_pow2. Qed.

Lemma gatbit_eq a : Z.land a 31 = a mod 32.
Proof. apply (Z.land_ones a 5). lia. Qed.

(** The tests and updates of one word, seen as granules. *)

Section Word.

Context (g : list Z) (j lo n m : Z).
Context (Hm : is_mask m lo (lo + n)) (Hlo : 0 ≤ lo) (Hn : 0 ≤ n) (Hhi : lo + n ≤ 32).
Context (Hj : 0 ≤ j < Z.of_nat (length g)) (Hg : Forall word32 g) (Hmw : word32 m).

Lemma word_gbit i : 0 ≤ i < 32 → Z.testbit (g !!! Z.to_nat j) i = gbit g (32 * j + i).
Proof.
  intros. unfold gbit. replace ((32 * j + i) / 32) with j by dlia.
  by replace ((32 * j + i) mod 32) with i by dlia.
Qed.

Lemma word_free : (Z.land (g !!! Z.to_nat j) m =? 0) = all_free g (32 * j + lo) n.
Proof.
  apply eq_true_iff_eq. rewrite Z.eqb_eq, (mask_zero _ _ _ _ Hm Hlo), all_free_spec.
  split; intros H i Hi.
  - specialize (H (i - 32 * j)). rewrite word_gbit in H by lia.
    replace (32 * j + (i - 32 * j)) with i in H by lia. apply H. lia.
  - rewrite word_gbit by lia. apply H. lia.
Qed.

Lemma word_used : (Z.land (g !!! Z.to_nat j) m =? m) = all_used g (32 * j + lo) n.
Proof.
  apply eq_true_iff_eq. rewrite Z.eqb_eq, (mask_full _ _ _ _ Hm Hlo), all_used_spec.
  split; intros H i Hi.
  - specialize (H (i - 32 * j)). rewrite word_gbit in H by lia.
    replace (32 * j + (i - 32 * j)) with i in H by lia. apply H. lia.
  - rewrite word_gbit by lia. apply H. lia.
Qed.

Lemma word_set :
  <[Z.to_nat j := Z.lor (g !!! Z.to_nat j) m]> g = set_range (32 * j + lo) n g.
Proof.
  apply gat_ext.
  - by rewrite length_insert, length_set_range.
  - apply Forall_insert; [done|]. apply word32_lor; [by apply word_at|done].
  - by apply set_range_words.
  - rewrite length_insert. intros i Hi. rewrite gbit_insert, gbit_set_range by lia.
    case_if.
    + subst j. rewrite Z.lor_spec, Hm by dlia. unfold gbit. f_equal. dlia.
    + replace ((32 * j + lo <=? i) && (i <? 32 * j + lo + n)) with false by dlia.
      by rewrite orb_false_r.
Qed.

Lemma word_clear :
  <[Z.to_nat j := and_not (g !!! Z.to_nat j) m]> g = clear_range (32 * j + lo) n g.
Proof.
  apply gat_ext.
  - by rewrite length_insert, length_clear_range.
  - apply Forall_insert; [done|]. apply word32_ldiff. by apply word_at.
  - by apply clear_range_words.
  - rewrite length_insert. intros i Hi. rewrite gbit_insert, gbit_clear_range by lia.
    case_if.
    + subst j. unfold and_not. rewrite Z.ldiff_spec, Hm by dlia. unfold gbit.
      do 2 f_equal. dlia.
    + replace ((32 * j + lo <=? i) && (i <? 32 * j + lo + n)) with false by dlia.
      by rewrite andb_true_r.
Qed.

(** One word of [gran_mark_allocated] and of [gran_free], whatever follows. *)

Lemma word_mark {B} (k : list Z → option B) :
  (w ← arr_get g j; DEBUGASSERT (Z.land w m =? 0) ;;
   g' ← arr_set g j (Z.lor w m); k g') =
  if all_free g (32 * j + lo) n then k (set_range (32 * j + lo) n g) else None.
Proof.
  rewrite arr_get_lt by done. simpl. rewrite arr_set_lt by done.
  rewrite word_free, word_set. by destruct (all_free _ _ _).
Qed.

Lemma word_unmark {B} (k : list Z → option B) :
  (w ← arr_get g j; DEBUGASSERT (Z.land w m =? m) ;;
   g' ← arr_set g j (and_not w m); k g') =
  if all_used g (32 * j + lo) n then k (clear_range (32 * j + lo) n g) else None.
Proof.
  rewrite arr_get_lt by done. simpl. rewrite arr_set_lt by done.
  rewrite word_used, word_clear. by destruct (all_used _ _ _).
Qed.

End Word.

Lemma all_free_app g a k m :
  0 ≤ a → 0 ≤ k → 0 ≤ m → a + k + m ≤ 32 * Z.of_nat (length g) →
  all_free g a (k + m) = all_free g a k && all_free (set_range a k g) (a + k) m.
Proof.
  intros. apply eq_true_iff_eq. rewrite andb_true_iff, !all_free_spec.
  assert (Hg : ∀ i, a + k ≤ i < a + k + m → gbit (set_range a k g) i = gbit g i).
  { intros i Hi. rewrite gbit_set_range by lia.
    replace ((_ <=? i) && _) with false by lia. by rewrite orb_false_r. }
  split.
  - intros Hall. split; intros i Hi; [|rewrite Hg by lia]; apply Hall; lia.
  - intros [Hl Hr] i Hi. destruct (decide (i < a + k)); [apply Hl; lia|].
    rewrite <- Hg by lia. apply Hr. lia.
Qed.

Lemma all_used_app g a k m :
  0 ≤ a → 0 ≤ k → 0 ≤ m → a + k + m ≤ 32 * Z.of_nat (length g) →
  all_used g a (k + m) = all_used g a k && all_used (clear_range a k g) (a + k) m.
Proof.
  intros. apply eq_true_iff_eq. rewrite andb_true_iff, !all_used_spec.
  assert (Hg : ∀ i, a + k ≤ i < a + k + m → gbit (clear_range a k g) i = gbit g i).
  { intros i Hi. rewrite gbit_clear_range by lia.
    replace ((_ <=? i) && _) with false by lia. by rewrite andb_true_r. }
  split.
  - intros Hall. split; intros i Hi; [|rewrite Hg by lia]; apply Hall; lia.
  - intros [Hl Hr] i Hi. destruct (decide (i < a + k)); [apply Hl; lia|].
    rewrite <- Hg by lia. apply Hr. lia.
Qed.

Lemma set_range_app a k m g :
  Forall word32 g → 0 ≤ a → 0 ≤ k → 0 ≤ m →
  set_range (a + k) m (set_range a k g) = set_range a (k + m) g.
Proof.
  intros. apply gat_ext; auto using set_range_words.
  - by rewrite !length_set_range.
  - rewrite !length_set_range. intros i Hi.
    rewrite !gbit_set_range; rewrite ?length_set_range; [|lia..].
    rewrite <- orb_assoc. f_equal. lia.
Qed.

Lemma clear_range_app a k m g :
  Forall word32 g → 0 ≤ a → 0 ≤ k → 0 ≤ m →
  clear_range (a + k) m (clear_range a k g) = clear_range a (k + m) g.
Proof.
  intros. apply gat_ext; auto using clear_range_words.
  - by rewrite !length_clear_range.
  - rewrite !length_clear_range. intros i Hi.
    rewrite !gbit_clear_range; rewrite ?length_clear_range; [|lia..].
    rewrite <- andb_assoc. f_equal. lia.
Qed.

(** The masks of the code. *)

Lemma mask_low n : 1 ≤ n ≤ 32 →
  ∃ m, shr32 0xffffffff (32 - n) = Some m ∧ is_mask m 0 n ∧ word32 m.
Proof.
  intros Hn. exists (Z.shiftr 0xffffffff (32 - n)). split_and!.
  - unfold shr32. case_if; [done|lia].
  - replace n with (32 - (32 - n)) at 2 by lia. apply is_mask_shr; [apply is_mask_full|lia].
  - apply word32_shiftr; [done|lia].
Qed.

Lemma mask_shift m n b : is_mask m 0 n → 0 ≤ b < 32 →
  ∃ m', shl32 m b = Some m' ∧ is_mask m' b (Z.min 32 (b + n)) ∧ word32 m'.
Proof.
  intros Hm Hb. exists (u32 (Z.shiftl m b)). split_and!.
  - unfold shl32. case_if; [done|lia].
  - pose proof (is_mask_shl m 0 n b Hm) as H. replace (n + b) with (b + n) in H by lia.
    apply H; lia.
  - apply word32_u32.
Qed.

(** The bounds of a range of granules inside the table. *)

Lemma range_entries p a n :
  wf p → 0 ≤ a → 1 ≤ n ≤ 32 → a + n ≤ ngranules p →
  0 ≤ a / 32 < Z.of_nat (length (gat p)) ∧ 0 ≤ a mod 32 < 32 ∧
  (32 - a mod 32 < n → a / 32 + 1 < Z.of_nat (length (gat p))).
Proof. intros [_ _ Hlen _ _ _] ? ? ?. rewrite Hlen. dlia. Qed.

Lemma mark_spec p a n :
  wf p → 0 ≤ a → 1 ≤ n ≤ 32 → a + n ≤ ngranules p →
  gran_mark_allocated p (gran_addr p a) n =
    if all_free (gat p) a n then Some (set_gat p (set_range a n (gat p))) else None.
Proof.
  intros Hwf Ha Hn Hle. pose proof (wf_words p Hwf) as Hw.
  destruct (range_entries p a n) as (Hj & Hb & Hj2); auto.
  unfold gran_mark_allocated. rewrite granno_addr by (auto; lia).
  rewrite gatidx_eq, gatbit_eq. set (j := a / 32) in *. set (b := a mod 32) in *.
  assert (Ea : a = 32 * j + b) by (unfold j, b; dlia).
  destruct (32 - b <? n) eqn:Hav; bool_to_prop.
  - destruct (mask_shift 0xffffffff 32 b is_mask_full Hb) as (m1 & -> & Hm1 & Hw1).
    replace (Z.min 32 (b + 32)) with (b + (32 - b)) in Hm1 by lia.
    destruct (mask_low (n - (32 - b))) as (m2 & E2 & Hm2 & Hw2); [lia|]. simpl.
    rewrite (word_mark (gat p) j b (32 - b) m1) by (auto; lia).
    pose proof (all_free_app (gat p) a (32 - b) (n - (32 - b))) as Haf.
    pose proof (set_range_app a (32 - b) (n - (32 - b)) (gat p)) as Hsa.
    replace (32 - b + (n - (32 - b))) with n in Haf, Hsa by lia.
    rewrite <- Ea, Haf, <- Hsa by (auto; lia).
    destruct (all_free (gat p) a (32 - b)); [|done]. rewrite E2. simpl.
    replace (a + (32 - b)) with (32 * (j + 1) + 0) by lia.
    apply (word_mark (set_range a (32 - b) (gat p)) (j + 1) 0 (n - (32 - b)) m2 Hm2)
      with (k := λ g, Some (set_gat p g));
      rewrite ?length_set_range; auto using set_range_words; lia.
  - destruct (mask_low n) as (m0 & -> & Hm0 & _); [lia|]. simpl.
    destruct (mask_shift m0 n b Hm0 Hb) as (m & -> & Hm & Hwm).
    rewrite Z.min_r in Hm by lia. simpl.
    rewrite (word_mark (gat p) j b n m) by (auto; lia). by rewrite <- Ea.
Qed.

Lemma retry_ok enters :
  gran_enter_retry enters = Some () →
  ∃ pre post, enters = pre ++ OK :: post ∧ Forall (λ ret, ret = - ECANCELED) pre.
Proof.
  induction enters as [|ret enters IH]; simpl; [done|].
  destruct ((ret =? OK) || (ret =? - ECANCELED)) eqn:E; [|done]. simpl.
  case_if.
  - intros H. destruct (IH H) as (pre & post & -> & Hp).
    exists (ret :: pre), post. split; [done|]. constructor; [|done].
    unfold OK in *. lia.
  - intros _. exists [], enters. split; [|done]. assert (ret = OK) as ->; [|done].
    unfold OK, ECANCELED in *. lia.
Qed.

(** The number of granules of an allocation: the size rounded up. *)

Definition granules (p : gran_s) (size : Z) : Z :=
  (size + 2 ^ log2gran p - 1) / 2 ^ log2gran p.

Lemma pow_log2 p : wf p → 2 ≤ 2 ^ log2gran p ≤ 2 ^ 25.
Proof.
  intros [[] _ _ _ _ _]. split; [|by apply Z.pow_le_mono_r].
  change 2 with (2 ^ 1) at 1. apply Z.pow_le_mono_r; lia.
Qed.

Lemma granules_eq p size :
  wf p → 0 ≤ size ≤ 32 * 2 ^ log2gran p →
  Z.shiftr (u32 (size + log2_mask (log2gran p))) (log2gran p) = granules p size.
Proof.
  intros Hwf Hs. pose proof (pow_log2 p Hwf). pose proof (wf_log2 p Hwf).
  unfold log2_mask. rewrite Z.shiftl_1_l, u32_small by lia.
  rewrite Z.shiftr_div_pow2 by lia. unfold granules. f_equal. lia.
Qed.

Lemma granules_range p size :
  wf p → 0 < size ≤ 32 * 2 ^ log2gran p → 1 ≤ granules p size ≤ 32.
Proof.
  intros Hwf Hs. pose proof (pow_log2 p Hwf). unfold granules. split.
  - apply Z.div_le_lower_bound; lia.
  - apply Z.lt_succ_r, Z.div_lt_upper_bound; lia.
Qed.

Lemma size_test p size :
  wf p → (size <=? u32 (32 * Z.shiftl 1 (log2gran p))) = (size <=? 32 * 2 ^ log2gran p).
Proof.
  intros Hwf. pose proof (pow_log2 p Hwf). rewrite Z.shiftl_1_l, u32_small by lia. done.
Qed.

Lemma free_spec p enters a size :
  wf p → 0 ≤ a → 0 < size ≤ 32 * 2 ^ log2gran p →
  let n := granules p size in
  a + n ≤ ngranules p → gran_enter_retry enters = Some () →
  gran_free p enters (gran_addr p a) size =
    if all_used (gat p) a n then Some (set_gat p (clear_range a n (gat p))) else None.
Proof.
  intros Hwf Ha Hs n Hle Hen. pose proof (wf_words p Hwf) as Hw.
  pose proof (granules_range p size Hwf Hs) as Hn. fold n in Hn.
  destruct (range_entries p a n) as (Hj & Hb & Hj2); auto.
  unfold gran_free. rewrite size_test by done.
  replace (negb (gran_addr p a =? 0) && (size <=? 32 * 2 ^ log2gran p)) with true.
  2: { pose proof (wf_start p Hwf). pose proof (pow_log2 p Hwf). unfold gran_addr. nia. }
  simpl. rewrite Hen. simpl. rewrite granules_eq by (auto; lia). fold n.
  rewrite granno_addr by (auto; lia).
  rewrite gatidx_eq, gatbit_eq. set (j := a / 32) in *. set (b := a mod 32) in *.
  assert (Ea : a = 32 * j + b) by (unfold j, b; dlia).
  destruct (32 - b <? n) eqn:Hav; bool_to_prop.
  - destruct (mask_shift 0xffffffff 32 b is_mask_full Hb) as (m1 & -> & Hm1 & Hw1).
    replace (Z.min 32 (b + 32)) with (b + (32 - b)) in Hm1 by lia.
    destruct (mask_low (n - (32 - b))) as (m2 & E2 & Hm2 & Hw2); [lia|]. simpl.
    rewrite (word_unmark (gat p) j b (32 - b) m1) by (auto; lia).
    pose proof (all_used_app (gat p) a (32 - b) (n - (32 - b))) as Haf.
    pose proof (clear_range_app a (32 - b) (n - (32 - b)) (gat p)) as Hsa.
    replace (32 - b + (n - (32 - b))) with n in Haf, Hsa by lia.
    rewrite <- Ea, Haf, <- Hsa by (auto; lia).
    destruct (all_used (gat p) a (32 - b)); [|done]. rewrite E2. simpl.
    replace (a + (32 - b)) with (32 * (j + 1) + 0) by lia.
    apply (word_unmark (clear_range a (32 - b) (gat p)) (j + 1) 0 (n - (32 - b)) m2 Hm2)
      with (k := λ g, Some (set_gat p g));
      rewrite ?length_clear_range; auto using clear_range_words; lia.
  - destruct (mask_low n) as (m0 & -> & Hm0 & _); [lia|]. simpl.
    destruct (mask_shift m0 n b Hm0 Hb) as (m & -> & Hm & Hwm).
    rewrite Z.min_r in Hm by lia. simpl.
    rewrite (word_unmark (gat p) j b n m) by (auto; lia). by rewrite <- Ea.
Qed.

(** ** The search *)

Lemma gran_shift_spec curr mask n :
  is_mask mask 0 n → 1 ≤ n ≤ 32 →
  match gran_shift curr mask with
  | None => ∀ j, 0 ≤ j < n → Z.testbit curr j = false
  | Some s =>
      1 ≤ s ≤ 16 ∧
      ∀ k, 0 ≤ k < s → ∃ j, k ≤ j < k + n ∧ j < 32 ∧ Z.testbit curr j = true
  end.
Proof.
  intros Hm Hn.
  assert (Hones : ∀ s, 1 ≤ s ≤ 16 → Z.land curr (Z.ones s) = Z.ones s →
    1 ≤ s ≤ 16 ∧
    ∀ k, 0 ≤ k < s → ∃ j, k ≤ j < k + n ∧ j < 32 ∧ Z.testbit curr j = true).
  { intros s Hs Hl. split; [done|]. intros k Hk. exists k. split_and!; [lia..|].
    pose proof (mask_full curr _ _ _ (is_mask_ones s ltac:(lia)) ltac:(lia)) as Hf.
    apply Hf; [done|lia]. }
  unfold gran_shift.
  destruct (Z.eqb_spec (Z.land curr 0x0000ffff) 0x0000ffff) as [E|_]; [by apply (Hones 16)|].
  destruct (Z.eqb_spec (Z.land curr 0x0000ff) 0x000000ff) as [E|_]; [by apply (Hones 8)|].
  destruct (Z.eqb_spec (Z.land curr 0x00000f) 0x0000000f) as [E|_]; [by apply (Hones 4)|].
  destruct (Z.eqb_spec (Z.land curr 0x000003) 0x00000003) as [E|_]; [by apply (Hones 2)|].
  destruct (Z.eqb_spec (Z.land curr mask) 0) as [E|E].
  - by apply (mask_zero _ _ _ _ Hm).
  - apply (mask_nonzero _ _ _ _ Hm) in E as (j & Hj & Hb); [|lia].
    split; [lia|]. intros k Hk. exists j. split_and!; [lia..|done].
Qed.

Lemma free_run_false p a n i :
  a ≤ i < a + n → (i < ngranules p → gbit (gat p) i = true) → free_run p a n = false.
Proof.
  intros Hi Hb. destruct (free_run p a n) eqn:E; [|done].
  apply free_run_spec in E as [Hle Hf]. rewrite Hf in Hb by lia.
  discriminate Hb. lia.
Qed.

(** What a successful search returns. *)

Definition granted (p : gran_s) (n a : Z) : Z * gran_s :=
  (gran_addr p a, set_gat p (set_range a n (gat p))).

Section Entry.

Context (p : gran_s) (n mask granidx : Z) (wb : Z → bool).
Context (Hwf : wf p) (Hn : 1 ≤ n ≤ 32) (Hmask : is_mask mask 0 n) (Hg : 0 ≤ granidx).
Context (Hwb : ∀ k, 0 ≤ k < 64 → granidx + k < ngranules p →
                    wb k = gbit (gat p) (granidx + k)).

Lemma window_shift curr next t s :
  word32 curr → word32 next → 1 ≤ s ≤ 16 →
  (∀ j, 0 ≤ j < 32 → Z.testbit curr j = wb (t + j)) →
  (∀ j, 0 ≤ j → Z.testbit next j = wb (t + 32 + j)) →
  let curr' := Z.lor (Z.shiftr curr s) (u32 (Z.shiftl next (32 - s))) in
  word32 curr' ∧ word32 (Z.shiftr next s) ∧
  (∀ j, 0 ≤ j < 32 → Z.testbit curr' j = wb (t + s + j)) ∧
  (∀ j, 0 ≤ j → Z.testbit (Z.shiftr next s) j = wb (t + s + 32 + j)).
Proof.
  intros Hc Hx Hs Bc Bx curr'. split_and!.
  - apply word32_lor; [apply word32_shiftr; [done|lia]|apply word32_u32].
  - apply word32_shiftr; [done|lia].
  - intros j Hj. unfold curr'. rewrite Z.lor_spec, Z.shiftr_spec, u32_spec by lia.
    rewrite Z.shiftl_spec by lia. destruct (decide (j + s < 32)).
    + rewrite Bc by lia. rewrite (Z.testbit_neg_r next) by lia.
      rewrite andb_false_r, orb_false_r. f_equal. lia.
    + rewrite word32_high by (auto; lia). rewrite Bx by lia.
      replace (j <? 32) with true by lia. simpl. f_equal. lia.
  - intros j Hj. rewrite Z.shiftr_spec, Bx by lia. f_equal. lia.
Qed.

Lemma search_entry_spec fuel : ∀ alloc curr next t,
  0 ≤ t → word32 curr → word32 next → 32 - t < Z.of_nat fuel →
  (∀ j, 0 ≤ j < 32 → Z.testbit curr j = wb (t + j)) →
  (∀ j, 0 ≤ j → Z.testbit next j = wb (t + 32 + j)) →
  alloc = u32 (gran_addr p (granidx + t)) →
  (0 < fuel)%nat →
  gran_search_entry fuel p n mask granidx alloc curr next t =
    Some (granted p n <$> List.find (λ a, free_run p a n) (seqZ (granidx + t) (32 - t))).
Proof.
  induction fuel as [|fuel IH]; intros alloc curr next t Ht Hc Hx Hfuel Bc Bx Ha Hf0; [lia|].
  simpl. destruct (_ && _) eqn:Hcond; bool_to_prop.
  2: { rewrite find_seqZ_none; [done|]. intros i Hi. unfold free_run. lia. }
  assert (Hbit : ∀ j, 0 ≤ j < 32 → Z.testbit curr j = true →
    granidx + t + j < ngranules p → gbit (gat p) (granidx + t + j) = true).
  { intros j Hj Hb Hlt. rewrite Bc in Hb by lia. rewrite Hwb in Hb by lia.
    by replace (granidx + (t + j)) with (granidx + t + j) in Hb by lia. }
  destruct (Z.eqb_spec curr 0xffffffff) as [Hall|Hall].
  { rewrite find_seqZ_none; [done|]. intros i Hi.
    apply (free_run_false p i n i); [lia|]. intros Hlt.
    replace i with (granidx + t + (i - granidx - t)) by lia. apply Hbit; [lia| |lia].
    rewrite Hall. rewrite (is_mask_full (i - granidx - t)) by lia. lia. }
  pose proof (gran_shift_spec curr mask n Hmask Hn) as Hsh.
  destruct (gran_shift curr mask) as [s|].
  - destruct Hsh as [Hs Hskip].
    replace (shl32 next (32 - s)) with (Some (u32 (Z.shiftl next (32 - s))))
      by (unfold shl32; case_if; [done|lia]). simpl.
    destruct (window_shift curr next t s) as (Hc' & Hx' & Bc' & Bx'); auto.
    rewrite IH; auto; try lia.
    + rewrite (find_seqZ_skip _ (granidx + t) (32 - t) s); [|lia|].
      * do 4 f_equal; lia.
      * intros i Hi Hi2. destruct (Hskip (i - (granidx + t))) as (j & Hj & Hj32 & Hb); [lia|].
        apply (free_run_false p i n (granidx + t + j)); [lia|]. intros Hlt. apply Hbit; auto. lia.
    + subst alloc. rewrite u32_u32_add. f_equal. unfold gran_addr.
      pose proof (wf_log2 p Hwf). rewrite Z.shiftl_mul_pow2 by lia. lia.
  - assert (Hfree : all_free (gat p) (granidx + t) n = true).
    { apply all_free_spec. intros i Hi.
      replace i with (granidx + (i - granidx)) by lia. rewrite <- Hwb by lia.
      replace (i - granidx) with (t + (i - granidx - t)) by lia.
      rewrite <- Bc by lia. apply Hsh. lia. }
    assert (Haddr : u32 (gran_addr p (granidx + t)) = gran_addr p (granidx + t)).
    { pose proof (wf_start p Hwf). pose proof (wf_end p Hwf). pose proof (pow_log2 p Hwf).
      unfold gran_addr in *. apply u32_small. nia. }
    rewrite Ha, Haddr, mark_spec, Hfree by (auto; lia). simpl.
    rewrite seqZ_cons by lia. simpl. unfold free_run at 1.
    rewrite Hfree, (proj2 (Z.leb_le _ _)) by lia. done.
Qed.

End Entry.

#[local] Opaque gran_search_entry.

(** The window over an entry and the word after it shows the granules of the
    table, whatever the word past the end of the table is. *)

Lemma entry_window p e w past :
  wf p → 0 ≤ e → 32 * e < ngranules p → word32 past →
  arr_get (gat p) e = Some w →
  ∃ next, gat_next p (Some past) e = Some next ∧ word32 next ∧
    ∀ k, 0 ≤ k < 64 → 32 * e + k < ngranules p →
      (if k <? 32 then Z.testbit w k else Z.testbit next (k - 32)) =
      gbit (gat p) (32 * e + k).
Proof.
  intros Hwf He Hlt Hpast Hw. pose proof (wf_len p Hwf) as Hlen.
  apply arr_get_Some in Hw as [_ Hw]. apply list_lookup_total_correct in Hw as <-.
  assert (Hlow : ∀ f k, 0 ≤ k < 32 → Z.testbit (gat p !!! Z.to_nat f) k =
    Z.testbit (gat p !!! Z.to_nat ((32 * f + k) / 32)) ((32 * f + k) mod 32)).
  { intros f k Hk. replace ((32 * f + k) / 32) with f by dlia.
    by replace ((32 * f + k) mod 32) with k by dlia. }
  unfold gat_next. destruct (decide (e + 1 < Z.of_nat (length (gat p)))).
  - rewrite arr_get_lt by lia. eexists. split; [done|].
    split; [by apply word_at, wf_words|]. intros k Hk Hkn. unfold gbit. case_if.
    + apply Hlow. lia.
    + rewrite Hlow by lia. by replace (32 * (e + 1) + (k - 32)) with (32 * e + k) by lia.
  - rewrite arr_get_ge by lia. exists past. split_and!; [done..|].
    intros k Hk Hkn. case_if; [apply Hlow; lia|]. rewrite Hlen in *. dlia.
Qed.

Lemma search_spec p past n mask fuel : ∀ e,
  wf p → word32 past → 1 ≤ n ≤ 32 → is_mask mask 0 n →
  0 ≤ e ≤ Z.of_nat (length (gat p)) → Z.of_nat (length (gat p)) - e < Z.of_nat fuel →
  gran_search fuel p (Some past) n mask (32 * e) =
    Some (match List.find (λ a, free_run p a n)
                  (seqZ (32 * e) (ngranules p - 32 * e)) with
          | Some a => granted p n a
          | None => (0, p)
          end).
Proof.
  intros e Hwf Hpast Hn Hm. revert e. pose proof (wf_len p Hwf) as Hlen.
  induction fuel as [|fuel IH]; intros e He Hfuel.
  { lia. }
  cbn [gran_search]. destruct (32 * e <? ngranules p) eqn:Hlt; bool_to_prop.
  2: { by rewrite seqZ_nil by lia. }
  rewrite gatidx_eq. replace (32 * e / 32) with e by dlia.
  replace (32 * e + 32) with (32 * (e + 1)) by lia.
  rewrite arr_get_lt by dlia. cbn [mbind option_bind]. set (w := gat p !!! Z.to_nat e).
  assert (Hw : arr_get (gat p) e = Some w) by (apply arr_get_lt; dlia).
  destruct (entry_window p e w past) as (next & Hnext & Hwn & Hwb); auto; [lia|].
  assert (Hsplit : List.find (λ a, free_run p a n) (seqZ (32 * e) (ngranules p - 32 * e)) =
    match List.find (λ a, free_run p a n) (seqZ (32 * e) 32) with
    | Some x => Some x
    | None => List.find (λ a, free_run p a n)
                (seqZ (32 * (e + 1)) (ngranules p - 32 * (e + 1)))
    end).
  { assert (Hout : ∀ i, ngranules p ≤ i → free_run p i n = false)
      by (intros; unfold free_run; lia).
    destruct (decide (32 * (e + 1) ≤ ngranules p)).
    - replace (ngranules p - 32 * e) with (32 + (ngranules p - 32 * (e + 1))) by lia.
      rewrite find_seqZ_app by lia. by replace (32 * e + 32) with (32 * (e + 1)) by lia.
    - rewrite (find_seqZ_extend _ (32 * e) (ngranules p - 32 * e) 32);
        [|lia|intros; apply Hout; lia].
      rewrite (seqZ_nil (32 * (e + 1))) by lia. by destruct (List.find _ _). }
  rewrite Hsplit. destruct (Z.eqb_spec w 0xffffffff) as [Hall|Hall].
  - rewrite (find_seqZ_none _ (32 * e) 32); [apply IH; dlia|].
    intros i Hi. apply (free_run_false p i n i); [lia|]. intros Hi2.
    replace i with (32 * e + (i - 32 * e)) by lia. rewrite <- Hwb by lia.
    replace (i - 32 * e <? 32) with true by lia. rewrite Hall.
    rewrite (is_mask_full (i - 32 * e)) by lia. lia.
  - rewrite Hnext. cbn [mbind option_bind].
    rewrite (search_entry_spec p n mask (32 * e)
      (λ k, if k <? 32 then Z.testbit w k else Z.testbit next (k - 32))); auto; try lia.
    + cbn [mbind option_bind]. rewrite Z.add_0_r.
      change (32 - 0) with 32.
      destruct (List.find _ (seqZ (32 * e) 32)); [done|]. apply IH; dlia.
    + by apply word_at, wf_words.
    + intros j Hj. rewrite Z.add_0_l. by replace (j <? 32) with true by lia.
    + intros j Hj. replace (0 + 32 + j <? 32) with false by lia. f_equal. lia.
    + pose proof (wf_log2 p Hwf). unfold gran_addr.
      rewrite Z.shiftl_mul_pow2, Z.add_0_r by lia. done.
Qed.

Lemma alloc_spec p past enter size :
  wf p → word32 past → 0 ≤ enter → 0 < size ≤ 32 * 2 ^ log2gran p →
  gran_alloc p (Some past) enter size =
    Some (match first_fit p (granules p size) with
          | Some a => granted p (granules p size) a
          | None => (0, p)
          end).
Proof.
  intros Hwf Hpast Hen Hs. unfold gran_alloc.
  rewrite size_test by done. replace (size <=? _) with true by lia.
  cbn [mbind option_bind DEBUGASSERT].
  replace (0 <? size) with true by lia. replace (enter <? 0) with false by lia.
  rewrite granules_eq by (auto; lia).
  pose proof (granules_range p size Hwf Hs) as Hn. set (n := granules p size) in *.
  rewrite (proj2 (Z.leb_le n 32)) by lia. cbn [mbind option_bind DEBUGASSERT].
  destruct (mask_low n Hn) as (m & -> & Hm & _). cbn [mbind option_bind].
  pose proof (search_spec p past n m (S (length (gat p))) 0) as Hsp.
  rewrite Z.mul_0_r, !Z.sub_0_r in Hsp. rewrite Hsp by (auto; lia). reflexivity.
Qed.

Lemma set_gat_wf p g :
  wf p → length g = length (gat p) → Forall word32 g → wf (set_gat p g).
Proof. intros [] Hl Hw. constructor; simpl; auto. by rewrite Hl. Qed.

Lemma first_fit_Some p n a :
  first_fit p n = Some a → 0 ≤ a ∧ free_run p a n = true ∧
  ∀ b, 0 ≤ b < a → free_run p b n = false.
Proof. intros E. apply find_seqZ_first in E as (? & ? & ?). split_and!; auto. lia. Qed.

Lemma size_granules p size :
  wf p → 0 < size → size ≤ granules p size * 2 ^ log2gran p.
Proof.
  intros Hwf Hs. pose proof (pow_log2 p Hwf). unfold granules.
  pose proof (Z.div_mod (size + 2 ^ log2gran p - 1) (2 ^ log2gran p)).
  pose proof (Z.mod_pos_bound (size + 2 ^ log2gran p - 1) (2 ^ log2gran p)). nia.
Qed.

(** Clearing a range that was free and has been marked gives the table back. *)

Lemma clear_set_range a n g :
  Forall word32 g → 0 ≤ a → 0 ≤ n → a + n ≤ 32 * Z.of_nat (length g) →
  all_free g a n = true → clear_range a n (set_range a n g) = g.
Proof.
  intros Hw Ha Hn Hle Hf. apply gat_ext; auto using clear_range_words, set_range_words.
  - by rewrite length_clear_range, length_set_range.
  - rewrite length_clear_range, length_set_range. intros i Hi.
    rewrite gbit_clear_range, gbit_set_range by (rewrite ?length_set_range; lia).
    destruct ((a <=? i) && (i <? a + n)) eqn:E.
    + rewrite andb_false_r. symmetry. apply (proj1 (all_free_spec g a n) Hf). lia.
    + by rewrite orb_false_r, andb_true_r.
Qed.

Lemma all_used_set_range a n g :
  0 ≤ a → 0 ≤ n → a + n ≤ 32 * Z.of_nat (length g) → all_used (set_range a n g) a n = true.
Proof.
  intros. apply all_used_spec. intros i Hi. rewrite gbit_set_range by lia. lia.
Qed.

(** ** Properties of the allocator *)

(** C21.  [gran_alloc] is a first-fit search: for every request of 1 to 32
    granules it returns the address of the lowest run of free granules that is
    long enough and marks exactly that run, or NULL with the table unchanged
    when the table has no such run.  The word that the search reads past the
    end of the table never matters. *)
Theorem gran_alloc_first_fit p past enter size :
  wf p → word32 past → 0 ≤ enter → 0 < size ≤ 32 * 2 ^ log2gran p →
  let n := granules p size in
  gran_alloc p (Some past) enter size =
    Some (match first_fit p n with
          | Some a => (gran_addr p a, set_gat p (set_range a n (gat p)))
          | None => (0, p)
          end).
Proof. apply alloc_spec. Qed.

(** What a successful allocation gives the caller: an address inside the
    heap and aligned like the heap to the granule, on granules that were all
    free and are now all allocated, while every other granule keeps its state;
    the allocator stays well formed. *)
Theorem gran_alloc_exclusive p past enter size addr p' :
  wf p → word32 past → 0 ≤ enter → 0 < size ≤ 32 * 2 ^ log2gran p →
  gran_alloc p (Some past) enter size = Some (addr, p') → addr ≠ 0 →
  wf p' ∧
  ∃ a, 0 ≤ a ∧ addr = heapstart p + a * 2 ^ log2gran p ∧
    addr + size ≤ heapstart p + ngranules p * 2 ^ log2gran p ∧
    (∀ i, a ≤ i < a + granules p size → gbit (gat p) i = false ∧ gbit (gat p') i = true) ∧
    (∀ i, 0 ≤ i < ngranules p → ¬ (a ≤ i < a + granules p size) →
       gbit (gat p') i = gbit (gat p) i).
Proof.
  intros Hwf Hpast Hen Hs E Hnz. pose proof (granules_range p size Hwf Hs) as Hn.
  rewrite alloc_spec in E by done. injection E as E.
  destruct (first_fit p (granules p size)) as [a|] eqn:Ef; [|by simplify_eq].
  injection E as <- <-. apply first_fit_Some in Ef as (Ha & Hfr & _).
  apply free_run_spec in Hfr as [Hle Hfr]. pose proof (wf_len p Hwf) as Hlen.
  split.
  { apply set_gat_wf; [done|apply length_set_range|by apply set_range_words, wf_words]. }
  exists a. split_and!; [done|done| | |].
  - pose proof (size_granules p size Hwf). pose proof (pow_log2 p Hwf).
    unfold gran_addr. nia.
  - intros i Hi. split; [by apply Hfr|]. simpl. rewrite gbit_set_range by dlia. lia.
  - intros i Hi Hnot. simpl. rewrite gbit_set_range by dlia.
    replace ((a <=? i) && _) with false by lia. by rewrite orb_false_r.
Qed.

(** Round trip: freeing an allocation with the size it was asked for gives
    back the allocator exactly as it was, without a failed assertion. *)
Theorem gran_alloc_free_roundtrip p past enter enters size addr p' :
  wf p → word32 past → 0 ≤ enter → 0 < size ≤ 32 * 2 ^ log2gran p →
  gran_enter_retry enters = Some () →
  gran_alloc p (Some past) enter size = Some (addr, p') → addr ≠ 0 →
  gran_free p' enters addr size = Some p.
Proof.
  intros Hwf Hpast Hen Hs Hens E Hnz. pose proof (granules_range p size Hwf Hs) as Hn.
  rewrite alloc_spec in E by done. injection E as E.
  destruct (first_fit p (granules p size)) as [a|] eqn:Ef; [|by simplify_eq].
  injection E as <- <-. apply first_fit_Some in Ef as (Ha & Hfr & _).
  unfold free_run in Hfr. bool_to_prop. pose proof (wf_words p Hwf).
  assert (Hle : a + granules p size ≤ 32 * Z.of_nat (length (gat p)))
    by (rewrite (wf_len p Hwf); dlia).
  set (p' := set_gat p (set_range a (granules p size) (gat p))).
  assert (Hwf' : wf p')
    by (apply set_gat_wf; [done|apply length_set_range|by apply set_range_words]).
  change (gran_addr p a) with (gran_addr p' a). rewrite free_spec by done.
  change (granules p' size) with (granules p size). simpl.
  rewrite all_used_set_range, clear_set_range by (auto; lia). by destruct p.
Qed.

(** [gran_free] clears exactly the granules of the range and keeps the
    allocator well formed when all of them are allocated; when one of them is
    already free (a double free) an assertion stops it. *)
Theorem gran_free_spec p enters a size :
  wf p → 0 ≤ a → 0 < size ≤ 32 * 2 ^ log2gran p →
  a + granules p size ≤ ngranules p → gran_enter_retry enters = Some () →
  match gran_free p enters (heapstart p + a * 2 ^ log2gran p) size with
  | Some p' =>
      wf p' ∧
      (∀ i, a ≤ i < a + granules p size → gbit (gat p) i = true) ∧
      (∀ i, 0 ≤ i < ngranules p →
        gbit (gat p') i = gbit (gat p) i && negb ((a <=? i) && (i <? a + granules p size)))
  | None => ∃ i, a ≤ i < a + granules p size ∧ gbit (gat p) i = false
  end.
Proof.
  intros Hwf Ha Hs Hle Hen. pose proof (granules_range p size Hwf Hs).
  pose proof (wf_len p Hwf) as Hlen.
  fold (gran_addr p a). rewrite (free_spec p enters a size) by done.
  destruct (all_used (gat p) a (granules p size)) eqn:E.
  - split_and!.
    + apply set_gat_wf; [done|apply length_clear_range|by apply clear_range_words, wf_words].
    + by apply all_used_spec.
    + intros i Hi. simpl. apply gbit_clear_range; dlia.
  - unfold all_used in E.
    destruct (decide (Exists (λ i, gbit (gat p) i = false) (seqZ a (granules p size)))) as [He|Hne].
    + apply Exists_exists in He as (i & Hi & Hb). apply elem_of_seqZ in Hi. by exists i.
    + apply not_true_iff_false in E. destruct E. apply forallb_seqZ. intros i Hi.
      apply not_false_iff_true. intros Hb. apply Hne, Exists_exists.
      exists i. split; [by apply elem_of_seqZ|done].
Qed.

(** Aligning an address down to a power of two. *)

Lemma and_not_mask x k : 0 ≤ k → and_not x (log2_mask k) = x / 2 ^ k * 2 ^ k.
Proof.
  intros Hk. unfold and_not, log2_mask. rewrite Z.shiftl_1_l.
  replace (2 ^ k - 1) with (Z.ones k) by (rewrite Z.ones_equiv; lia).
  rewrite Z.ldiff_ones_r, Z.shiftr_div_pow2, Z.shiftl_mul_pow2 by lia. done.
Qed.

Lemma div_up x g : 0 < g → (x + (g - 1)) / g = x / g + (if x mod g =? 0 then 0 else 1).
Proof.
  intros Hg. pose proof (Z.div_mod x g). pose proof (Z.mod_pos_bound x g Hg).
  case_if; symmetry; apply Z.div_unique with
    (if x mod g =? 0 then g - 1 else x mod g - 1); case_if; lia.
Qed.

(** [gran_reserve] on a heap aligned to the granule: with [a] and [b] the
    granules of the first and of the last byte, it reserves [a] to [b], and one
    granule beyond [b] unless the last byte is the first byte of a granule (its
    comment promises [a] to [b]). *)
Theorem gran_reserve_spec p start size :
  let g := 2 ^ log2gran p in
  let last := start + size - 1 in
  let a := (start - heapstart p) / g in
  let b := (last - heapstart p) / g in
  let n := b - a + 1 + (if last mod g =? 0 then 0 else 1) in
  wf p → (g | heapstart p) → 0 < size → heapstart p ≤ start →
  n ≤ 32 → a + n ≤ ngranules p →
  gran_reserve p start size =
    if all_free (gat p) a n then Some (set_gat p (set_range a n (gat p))) else None.
Proof.
  intros g last a b n Hwf [h Hh] Hs Hst Hn Hle.
  pose proof (pow_log2 p Hwf) as Hg. fold g in Hg. pose proof (wf_log2 p Hwf) as Hlog.
  pose proof (wf_end p Hwf) as Hend. pose proof (wf_start p Hwf) as Hpos.
  unfold gran_addr in Hend. fold g in Hend.
  assert (Hdiv : ∀ x, (x - heapstart p) / g = x / g - h).
  { intros x. rewrite Hh. replace (x - h * g) with (x + (- h) * g) by lia.
    rewrite Z.div_add by lia. lia. }
  unfold a, b in *. rewrite !Hdiv in *.
  assert (Hab : start / g ≤ last / g) by (apply Z.div_le_mono; lia).
  assert (Ha : h ≤ start / g).
  { replace h with (h * g / g) by (rewrite Z.div_mul; lia). apply Z.div_le_mono; lia. }
  pose proof (Z.div_mod last g ltac:(lia)). pose proof (Z.mod_pos_bound last g ltac:(lia)).
  pose proof (Z.div_mod start g ltac:(lia)). pose proof (Z.mod_pos_bound start g ltac:(lia)).
  set (extra := if last mod g =? 0 then 0 else 1) in *.
  assert (Hex : 0 ≤ extra ≤ 1) by (unfold extra; case_if; lia).
  assert (Hneq : n = last / g - start / g + 1 + extra) by (unfold n; rewrite ?Hdiv; lia).
  assert (Hup : last + (g - 1) < 2 ^ 32 ∧
                (last / g + extra) * g ≤ 2 ^ 32 ∧ start / g * g ≤ (last / g + extra) * g).
  { assert (Hm : g * (last / g + 1 + extra) ≤ g * (h + ngranules p))
      by (apply Z.mul_le_mono_nonneg_l; lia).
    assert (start / g * g ≤ last / g * g) by (apply Z.mul_le_mono_nonneg_r; lia).
    unfold extra in *. case_if; lia. }
  unfold gran_reserve. replace (0 <? size) with true by lia. rewrite !and_not_mask by lia.
  fold last. unfold log2_mask. rewrite Z.shiftl_1_l. fold g.
  rewrite (u32_small last) by lia. rewrite (u32_small (last + _)) by lia.
  assert (h * g ≤ start / g * g) by (apply Z.mul_le_mono_nonneg_r; lia).
  rewrite div_up by lia. fold extra. rewrite u32_small by lia.
  rewrite Z.shiftr_div_pow2 by lia. fold g.
  rewrite <- Z.mul_sub_distr_r, Z.div_mul by lia.
  replace (last / g + _ - start / g + 1) with n by lia.
  replace (start / g * g) with (gran_addr p (start / g - h)) by (unfold gran_addr; fold g; lia).
  apply mark_spec; auto; lia.
Qed.

Lemma gran_init_spec start heapsize log2g log2align :
  let astart := and_not (u32 (start + log2_mask log2align)) (log2_mask log2align) in
  0 < start → 0 < log2g ≤ 25 → 0 ≤ log2align ≤ log2g →
  0 < heapsize → start + heapsize < 2 ^ 32 →
  start + 2 ^ log2align ≤ start + heapsize → heapsize / 2 ^ log2g < 2 ^ 16 →
  ∃ p, gran_initialize start heapsize log2g log2align true = Some (Some p) ∧
    wf p ∧ (2 ^ log2align | heapstart p) ∧ start ≤ heapstart p ∧
    gran_addr p (ngranules p) ≤ start + heapsize ∧
    (∀ i, 0 ≤ i < ngranules p → gbit (gat p) i = false).
Proof.
  intros astart Hst Hlg Hla Hhs Hend Hal Hfit.
  pose proof (Z.pow_pos_nonneg 2 log2align ltac:(lia) ltac:(lia)) as Hpa.
  pose proof (Z.pow_pos_nonneg 2 log2g ltac:(lia) ltac:(lia)) as Hpg.
  assert (Hmask : ∀ k, log2_mask k = 2 ^ k - 1) by (intros; unfold log2_mask; by rewrite Z.shiftl_1_l).
  assert (Has : astart = (start + 2 ^ log2align - 1) / 2 ^ log2align * 2 ^ log2align).
  { unfold astart. rewrite and_not_mask, Hmask, u32_small by lia. do 2 f_equal. lia. }
  pose proof (Z.div_mod (start + 2 ^ log2align - 1) (2 ^ log2align) ltac:(lia)).
  pose proof (Z.mod_pos_bound (start + 2 ^ log2align - 1) (2 ^ log2align) Hpa).
  assert (Hrange : start ≤ astart ≤ start + heapsize) by lia.
  unfold gran_initialize. rewrite (proj2 (Z.eqb_neq start 0)) by lia.
  replace (negb false && (0 <? heapsize) && (0 <? log2g) && (log2g <? 32)
           && (log2align <=? log2g)) with true by lia.
  cbn [mbind option_bind DEBUGASSERT]. fold astart.
  rewrite (u32_small (start + heapsize)), (u32_small (_ - astart)) by lia.
  rewrite and_not_mask, Z.shiftr_div_pow2, Z.div_mul by lia.
  set (n := (start + heapsize - astart) / 2 ^ log2g).
  assert (Hn : 0 ≤ n < 2 ^ 16).
  { split; [apply Z.div_pos; lia|]. eapply Z.le_lt_trans; [|exact Hfit].
    apply Z.div_le_mono; lia. }
  assert (Hu16 : u16 n = n) by (apply Z.mod_small; lia).
  assert (Hcov : n * 2 ^ log2g ≤ start + heapsize - astart).
  { rewrite Z.mul_comm. apply Z.mul_div_le. lia. }
  eexists. split; [done|]. rewrite Hu16. split_and!.
  - constructor; simpl; try lia.
    + rewrite length_replicate, Z2Nat.id; unfold SIZEOF_GAT; rewrite Z.shiftr_div_pow2 by lia; [done|].
      apply Z.div_pos; lia.
    + apply Forall_replicate. done.
    + unfold gran_addr. simpl. lia.
  - simpl. rewrite Has. apply Z.divide_factor_r.
  - simpl. lia.
  - unfold gran_addr. simpl. lia.
  - intros i Hi. unfold gbit. simpl.
    rewrite lookup_total_replicate_2; [apply Z.bits_0|]. simpl in Hi.
    unfold SIZEOF_GAT. rewrite Z.shiftr_div_pow2 by lia. change (2 ^ 5) with 32. dlia.
Qed.

(** [gran_initialize] leaves a well-formed allocator whose granules are all
    free, lie inside the memory it was given and start aligned to [log2align],
    when the number of granules fits the 16-bit field of the structure. *)
Theorem gran_initialize_spec start heapsize log2g log2align :
  let astart := and_not (u32 (start + log2_mask log2align)) (log2_mask log2align) in
  0 < start → 0 < log2g ≤ 25 → 0 ≤ log2align ≤ log2g →
  0 < heapsize → start + heapsize < 2 ^ 32 →
  start + 2 ^ log2align ≤ start + heapsize → heapsize / 2 ^ log2g < 2 ^ 16 →
  ∃ p, gran_initialize start heapsize log2g log2align true = Some (Some p) ∧
    wf p ∧ (2 ^ log2align | heapstart p) ∧ start ≤ heapstart p ∧
    gran_addr p (ngranules p) ≤ start + heapsize ∧
    (∀ i, 0 ≤ i < ngranules p → gbit (gat p) i = false).
Proof. apply gran_init_spec. Qed.

(** The structure keeps only 16 bits of the number of granules: a heap of 65536
    granules comes out with a table for all of them and no usable granule. *)
Lemma gran_initialize_truncates :
  ∃ p, gran_initialize 0x10000000 0x4000000 10 10 true = Some (Some p) ∧
    ngranules p = 0 ∧ length (gat p) = 2048%nat ∧
    gran_alloc p (Some 0) 0 1024 = Some (0, p).
Proof. eexists. split; [vm_compute; reflexivity|]. vm_compute. auto. Qed.

(** The search reads the word past the end of the table: it faults where that
    word is not accessible, on a heap of 32 free granules. *)
Lemma gran_alloc_reads_past_table :
  wf (mk_gran 10 32 0x10000000 [0]) ∧
  gran_alloc (mk_gran 10 32 0x10000000 [0]) None 0 1024 = None.
Proof.
  split; [|vm_compute; reflexivity].
  constructor; simpl; try done. by repeat constructor.
Qed.

(** ** Witnesses *)

(** 40 granules of 1 KiB; the first 30 are allocated, and 35. *)

Definition demo_gran : gran_s := mk_gran 10 40 0x10000000 [0x3fffffff; 0x8].

Lemma demo_wf : wf demo_gran.
Proof. constructor; simpl; try done. by repeat constructor. Qed.

Lemma gran_alloc_first_fit_witness :
  gran_alloc demo_gran (Some 0) 0 4096 =
    Some (0x10000000 + 30 * 1024, set_gat demo_gran (set_range 30 4 (gat demo_gran))).
Proof. apply (gran_alloc_first_fit demo_gran 0 0 4096); [apply demo_wf|done..]. Defined.

Lemma gran_alloc_exclusive_witness :
  let p' := set_gat demo_gran (set_range 30 4 (gat demo_gran)) in
  wf p' ∧
  ∃ a, 0 ≤ a ∧ 0x10000000 + 30 * 1024 = heapstart demo_gran + a * 2 ^ log2gran demo_gran ∧
    0x10000000 + 30 * 1024 + 4096 ≤
      heapstart demo_gran + ngranules demo_gran * 2 ^ log2gran demo_gran ∧
    (∀ i, a ≤ i < a + granules demo_gran 4096 →
       gbit (gat demo_gran) i = false ∧ gbit (gat p') i = true) ∧
    (∀ i, 0 ≤ i < ngranules demo_gran → ¬ (a ≤ i < a + granules demo_gran 4096) →
       gbit (gat p') i = gbit (gat demo_gran) i).
Proof.
  intros p'. apply (gran_alloc_exclusive demo_gran 0 0 4096 _ p'); [apply demo_wf|done..| |done].
  vm_compute. reflexivity.
Defined.

Lemma gran_alloc_free_roundtrip_witness :
  gran_free (set_gat demo_gran (set_range 30 4 (gat demo_gran))) [- ECANCELED; OK]
    (0x10000000 + 30 * 1024) 4096 = Some demo_gran.
Proof.
  apply (gran_alloc_free_roundtrip demo_gran 0 0 [- ECANCELED; OK] 4096);
    [apply demo_wf|done..| |done].
  vm_compute. reflexivity.
Defined.

Lemma gran_free_spec_witness :
  match gran_free demo_gran [OK] (0x10000000 + 29 * 1024) 2048 with
  | Some p' =>
      wf p' ∧ (∀ i, 29 ≤ i < 31 → gbit (gat demo_gran) i = true) ∧
      (∀ i, 0 ≤ i < 40 →
        gbit (gat p') i = gbit (gat demo_gran) i && negb ((29 <=? i) && (i <? 31)))
  | None => ∃ i, 29 ≤ i < 31 ∧ gbit (gat demo_gran) i = false
  end.
Proof. apply (gran_free_spec demo_gran [OK] 29 2048); [apply demo_wf|done..]. Defined.

Lemma gran_reserve_spec_witness :
  gran_reserve demo_gran (0x10000000 + 36 * 1024) 1024 =
    Some (set_gat demo_gran (set_range 36 2 (gat demo_gran))).
Proof.
  apply (gran_reserve_spec demo_gran (0x10000000 + 36 * 1024) 1024);
    [apply demo_wf|by exists (0x10000000 / 1024)|done..].
Defined.

Lemma gran_initialize_spec_witness :
  ∃ p, gran_initialize 0x10000004 0x10000 10 4 true = Some (Some p) ∧
    wf p ∧ (2 ^ 4 | heapstart p) ∧ 0x10000004 ≤ heapstart p ∧
    gran_addr p (ngranules p) ≤ 0x10000004 + 0x10000 ∧
    (∀ i, 0 ≤ i < ngranules p → gbit (gat p) i = false).
Proof. apply (gran_initialize_spec 0x10000004 0x10000 10 4); done. Defined.

End Gran.
