(* ===== verification/GranInfo.v ===== *)
(** * Free space statistics of the granule allocator (mm_graninfo.c)

    [gran_info] computes the number of free granules and the length of the
    longest run of free granules from a table of the sixteen nibbles, combining
    nibbles into bytes, half words and words.  The file translates it and shows
    that the two numbers are what they claim to be. *)

From S2P Require Import Prelude Gran.

Module GranInfo.

Import Gran.

Record valinfo_s := mk_info {
  nfree : Z;
  nlsfree : Z;
  nmsfree : Z;
  mxfree : Z
}.

Definition g_0bit_info : list valinfo_s := [mk_info 0 0 0 0].

Definition g_1bit_info : list valinfo_s := [mk_info 1 1 0 0; mk_info 0 0 0 0].

Definition g_2bit_info : list valinfo_s :=
  [mk_info 2 2 0 0; mk_info 1 0 1 0; mk_info 1 1 0 0; mk_info 0 0 0 0].

Definition g_3bit_info : list valinfo_s :=
  [mk_info 3 3 0 0; mk_info 2 0 2 0; mk_info 2 1 1 0; mk_info 1 0 1 0;
   mk_info 2 2 0 0; mk_info 1 0 0 1; mk_info 1 1 0 0; mk_info 0 0 0 0].

Definition g_4bit_info : list valinfo_s :=
  [mk_info 4 4 0 0; mk_info 3 0 3 0; mk_info 3 1 2 0; mk_info 2 0 2 0;
   mk_info 3 2 1 0; mk_info 2 0 1 1; mk_info 2 1 1 0; mk_info 1 0 1 0;
   mk_info 3 3 0 0; mk_info 2 0 0 2; mk_info 2 1 0 1; mk_info 1 0 0 1;
   mk_info 2 2 0 0; mk_info 1 0 0 1; mk_info 1 1 0 0; mk_info 0 0 0 0].

Definition g_info_table : list (list valinfo_s) :=
  [g_0bit_info; g_1bit_info; g_2bit_info; g_3bit_info; g_4bit_info].

Definition gran_nibble_info (value nbits : Z) : option valinfo_s :=
  table ← arr_get g_info_table nbits;
  let mask := u8 (Z.shiftl 1 nbits - 1) in
  let value := Z.land value mask in
  arr_get table value.

Definition gran_info_combine (msinfo : valinfo_s) (msbits : Z)
    (lsinfo : valinfo_s) (lsbits : Z) : valinfo_s :=
  let midfree :=
    if (nlsfree lsinfo <? lsbits) && (nlsfree msinfo <? msbits)
    then nmsfree lsinfo + nlsfree msinfo else 0 in
  let nfree' := u8 (nfree lsinfo + nfree msinfo) in
  let nmsfree' :=
    if nlsfree msinfo =? msbits then
      if nlsfree lsinfo =? lsbits then 0 else u8 (nmsfree lsinfo + msbits)
    else nmsfree msinfo in
  let nlsfree' :=
    if nlsfree lsinfo =? lsbits then u8 (nlsfree lsinfo + nlsfree msinfo)
    else nlsfree lsinfo in
  let mxfree' := if mxfree lsinfo <? midfree then u8 midfree else mxfree lsinfo in
  let mxfree' := if mxfree' <? mxfree msinfo then mxfree msinfo else mxfree' in
  mk_info nfree' nlsfree' nmsfree' mxfree'.

Definition gran_byte_info (value nbits : Z) : option valinfo_s :=
  let '(mask, value) :=
    if nbits <? 8
    then (u8 (Z.shiftl 1 nbits - 1), Z.land value (u8 (Z.shiftl 1 nbits - 1)))
    else (0xff, value) in
  if value =? 0 then Some (mk_info (u8 nbits) (u8 nbits) 0 0)
  else if value =? mask then Some (mk_info 0 0 0 0)
  else
    info ← gran_nibble_info (Z.land value 0x0f) (if 4 <? nbits then 4 else nbits);
    if 4 <? nbits then
      let msbits := nbits - 4 in
      msinfo ← gran_nibble_info (Z.shiftr value 4) msbits;
      Some (gran_info_combine msinfo msbits info 4)
    else Some info.

Definition gran_hword_info (value nbits : Z) : option valinfo_s :=
  let '(mask, value) :=
    if nbits <? 16
    then (u16 (Z.shiftl 1 nbits - 1), Z.land value (u16 (Z.shiftl 1 nbits - 1)))
    else (0xffff, value) in
  if value =? 0 then Some (mk_info (u8 nbits) (u8 nbits) 0 0)
  else if value =? mask then Some (mk_info 0 0 0 0)
  else
    info ← gran_byte_info (u8 (Z.land value 0xff)) (if 8 <? nbits then 8 else nbits);
    if 8 <? nbits then
      let msbits := nbits - 8 in
      msinfo ← gran_byte_info (u8 (Z.shiftr value 8)) msbits;
      Some (gran_info_combine msinfo msbits info 8)
    else Some info.

Record graninfo_s := mk_graninfo {
  gi_log2gran : Z;
  gi_ngranules : Z;
  gi_nfree : Z;
  gi_mxfree : Z
}.

(** One turn of the loop of [gran_info]: the entry [value] of which [nbits]
    bits are granules; [free] and [best] are [info->nfree] and [info->mxfree],
    [run] the length of the free run that is still open. *)

Definition gran_info_entry (value nbits mask : Z) (free best run : Z) :
    option (Z * Z * Z) :=
  if value =? mask then
    Some (free, (if best <? run then run else best), 0)
  else if value =? 0 then Some (u16 (free + nbits), best, u16 (run + nbits))
  else
    hwinfo ← gran_hword_info (u16 (Z.land value 0xffff)) (if 16 <? nbits then 16 else nbits);
    hwinfo ← (if 16 <? nbits then
                let msbits := nbits - 16 in
                msinfo ← gran_hword_info (u16 (Z.shiftr value 16)) msbits;
                Some (gran_info_combine msinfo msbits hwinfo 16)
              else Some hwinfo);
    let run := if 0 <? nlsfree hwinfo then u16 (run + nlsfree hwinfo) else run in
    let '(best, run) :=
      if nlsfree hwinfo <? nbits then
        let run := if run <? mxfree hwinfo then mxfree hwinfo else run in
        ((if best <? run then run else best), nmsfree hwinfo)
      else (best, run) in
    Some (u16 (free + nfree hwinfo), best, run).

Fixpoint gran_info_loop (fuel : nat) (priv : gran_s) (granidx : Z)
    (free best run : Z) : option (Z * Z * Z) :=
  match fuel with
  | O => None
  | S fuel =>
      if granidx <? ngranules priv then
        let gatidx := Z.shiftr granidx 5 in
        value ← arr_get (gat priv) gatidx;
        '(value, nbits, mask) ←
          (if ngranules priv <? granidx + 32 then
             let nbits := ngranules priv - granidx in
             bit ← shl32 1 nbits;
             let mask := u32 (bit - 1) in
             Some (Z.land value mask, nbits, mask)
           else Some (value, 32, 0xffffffff));
        '(free, best, run) ← gran_info_entry value nbits mask free best run;
        gran_info_loop fuel priv (granidx + 32) free best run
      else Some (free, best, run)
  end.

Definition gran_info (priv : gran_s) (enter : Z) : option graninfo_s :=
  let info := mk_graninfo (log2gran priv) (ngranules priv) 0 0 in
  if enter <? 0 then
    DEBUGASSERT (enter =? - ECANCELED) ;; Some info
  else
    '(free, best, run) ← gran_info_loop (S (length (gat priv))) priv 0 0 0 0;
    let best := if best <? run then run else best in
    Some (mk_graninfo (log2gran priv) (ngranules priv) free best).

(** ** Summaries of bit strings

    The statistics of a bit string (true = allocated, least significant bit
    first) form a monoid: a string is free throughout, or it has a leading free
    run, a trailing free run and a longest inner free run. *)

Inductive summary :=
  | AllFree (n : Z)
  | Mixed (lead trail inner : Z).

Definition s_step (s : summary) (b : bool) : summary :=
  match s, b with
  | AllFree n, false => AllFree (n + 1)
  | AllFree n, true => Mixed n 0 0
  | Mixed l t i, false => Mixed l (t + 1) i
  | Mixed l t i, true => Mixed l 0 (Z.max i t)
  end.

Definition summarize (l : list bool) : summary := foldl s_step (AllFree 0) l.

Definition s_cat (s1 s2 : summary) : summary :=
  match s1, s2 with
  | AllFree n, AllFree m => AllFree (n + m)
  | AllFree n, Mixed l t i => Mixed (n + l) t i
  | Mixed l t i, AllFree m => Mixed l (t + m) i
  | Mixed l1 t1 i1, Mixed l2 t2 i2 => Mixed l1 t2 (Z.max (Z.max i1 (t1 + l2)) i2)
  end.

Definition count_free (l : list bool) : Z := Z.of_nat (length (filter (λ b, b = false) l)).

Definition info_of (l : list bool) : valinfo_s :=
  match summarize l with
  | AllFree n => mk_info (count_free l) n 0 0
  | Mixed ld t i => mk_info (count_free l) ld t i
  end.

Definition bits_of (v n : Z) : list bool := Z.testbit v <$> seqZ 0 n.

Lemma summarize_snoc l b : summarize (l ++ [b]) = s_step (summarize l) b.
Proof. unfold summarize. by rewrite foldl_app. Qed.

(** Sanity of a summary: which one it is tells whether the string is all free. *)

Lemma summarize_ok l :
  match summarize l with
  | AllFree n => n = Z.of_nat (length l)
  | Mixed ld t i => 0 ≤ ld < Z.of_nat (length l) ∧ 0 ≤ t < Z.of_nat (length l) ∧
                    0 ≤ i < Z.of_nat (length l)
  end.
Proof.
  induction l as [|b l IH] using rev_ind; [done|].
  rewrite summarize_snoc, length_app. simpl.
  destruct (summarize l), b; simpl; lia.
Qed.

Lemma summarize_app l1 l2 : summarize (l1 ++ l2) = s_cat (summarize l1) (summarize l2).
Proof.
  induction l2 as [|b l2 IH] using rev_ind.
  - rewrite app_nil_r. simpl. destruct (summarize l1); simpl; f_equal; lia.
  - rewrite app_assoc, !summarize_snoc, IH. pose proof (summarize_ok l1).
    pose proof (summarize_ok l2).
    destruct (summarize l1), (summarize l2), b; simpl; f_equal; lia.
Qed.

Lemma count_free_app l1 l2 : count_free (l1 ++ l2) = count_free l1 + count_free l2.
Proof. unfold count_free. rewrite filter_app, length_app. lia. Qed.

Lemma count_free_le l : 0 ≤ count_free l ≤ Z.of_nat (length l).
Proof.
  induction l as [|b l IH]; [done|]. change (b :: l) with ([b] ++ l).
  rewrite count_free_app, length_app. destruct b; unfold count_free at 1 3; simpl; lia.
Qed.

(** [gran_info_combine] is the product of the monoid. *)

Lemma combine_spec ls ms :
  Z.of_nat (length (ls ++ ms)) < 2 ^ 8 →
  gran_info_combine (info_of ms) (Z.of_nat (length ms)) (info_of ls) (Z.of_nat (length ls)) =
  info_of (ls ++ ms).
Proof.
  intros Hlen. rewrite length_app in Hlen.
  assert (Hu8 : ∀ z, 0 ≤ z ≤ Z.of_nat (length ls + length ms) → u8 z = z)
    by (intros; apply Z.mod_small; lia).
  pose proof (summarize_ok ls). pose proof (summarize_ok ms).
  pose proof (count_free_le ls). pose proof (count_free_le ms).
  unfold info_of. rewrite summarize_app, count_free_app.
  destruct (summarize ls), (summarize ms); unfold gran_info_combine; simpl;
    rewrite ?Hu8 by (case_tests; lia); case_tests; f_equal; lia.
Qed.

Lemma length_bits_of v n : Z.of_nat (length (bits_of v n)) = Z.max 0 n.
Proof. unfold bits_of. rewrite length_fmap, length_seqZ. lia. Qed.

Lemma bits_of_app v n m :
  0 ≤ n → 0 ≤ m → bits_of v (n + m) = bits_of v n ++ bits_of (Z.shiftr v n) m.
Proof.
  intros. unfold bits_of. rewrite seqZ_app, fmap_app by lia. f_equal.
  rewrite (Z.add_comm 0 n), <- fmap_add_seqZ, <- list_fmap_compose.
  apply list_fmap_ext. intros i x Hx. apply lookup_seqZ in Hx as [-> ?].
  unfold compose. rewrite Z.shiftr_spec by lia. f_equal. lia.
Qed.

Lemma bits_of_ext v w n :
  (∀ i, 0 ≤ i < n → Z.testbit v i = Z.testbit w i) → bits_of v n = bits_of w n.
Proof.
  intros H. apply list_fmap_ext. intros i x Hx. apply lookup_seqZ in Hx as [-> ?].
  apply H. lia.
Qed.

Lemma bits_of_const v n b :
  (∀ i, 0 ≤ i < n → Z.testbit v i = b) → bits_of v n = replicate (Z.to_nat n) b.
Proof.
  intros H. apply list_eq. intros j. unfold bits_of. rewrite list_lookup_fmap.
  destruct (decide (Z.of_nat j < n)).
  - rewrite lookup_seqZ_lt, lookup_replicate_2 by lia. simpl. rewrite H by lia. done.
  - rewrite lookup_seqZ_ge by lia. simpl. symmetry. apply lookup_replicate_None. lia.
Qed.

Lemma info_free n : 0 ≤ n → info_of (replicate (Z.to_nat n) false) = mk_info n n 0 0.
Proof.
  intros Hn. rewrite <- (Z2Nat.id n Hn) at 2 3. generalize (Z.to_nat n) as k. clear n Hn.
  intros k. unfold info_of.
  assert (summarize (replicate k false) = AllFree (Z.of_nat k) ∧
          count_free (replicate k false) = Z.of_nat k) as [-> ->]; [|done].
  induction k as [|k [IH1 IH2]]; [done|].
  rewrite replicate_S_end, summarize_snoc, count_free_app, IH1, IH2. simpl.
  split; [f_equal; lia|]. unfold count_free. simpl. lia.
Qed.

Lemma info_used n : 0 < n → info_of (replicate (Z.to_nat n) true) = mk_info 0 0 0 0.
Proof.
  intros Hn. replace (Z.to_nat n) with (S (Z.to_nat (n - 1))) by lia.
  generalize (Z.to_nat (n - 1)) as k. clear n Hn. intros k. unfold info_of.
  assert (summarize (replicate (S k) true) = Mixed 0 0 0 ∧
          count_free (replicate (S k) true) = 0) as [-> ->]; [|done].
  induction k as [|k [IH1 IH2]]; [done|].
  rewrite replicate_S_end, summarize_snoc, count_free_app, IH1, IH2. done.
Qed.

(** Masking keeps the bits below the width of the mask. *)

Lemma bits_of_mask v n k : 0 ≤ n ≤ k → bits_of (Z.land v (Z.ones k)) n = bits_of v n.
Proof.
  intros Hn. apply bits_of_ext. intros i Hi. rewrite Z.land_spec, Z.testbit_ones by lia.
  replace ((0 <=? i) && (i <? k)) with true by lia. apply andb_true_r.
Qed.

Lemma ones_shiftl n : 0 ≤ n → Z.shiftl 1 n - 1 = Z.ones n.
Proof. intros. rewrite Z.shiftl_1_l, Z.ones_equiv. lia. Qed.

#[global] Instance valinfo_s_eq_dec : EqDecision valinfo_s.
Proof. solve_decision. Defined.

(** The five tables hold the summaries of their indices. *)

Lemma tables_ok :
  Forall (λ n, Forall (λ v, gran_nibble_info v n = Some (info_of (bits_of v n)))
                 (seqZ 0 (2 ^ n))) [1; 2; 3; 4].
Proof. apply (bool_decide_unpack _). vm_compute. exact I. Qed.

Lemma nibble_spec value nbits :
  1 ≤ nbits ≤ 4 → gran_nibble_info value nbits = Some (info_of (bits_of value nbits)).
Proof.
  intros Hn. rewrite <- (bits_of_mask _ _ nbits) by lia.
  assert (Hm : gran_nibble_info value nbits =
               gran_nibble_info (Z.land value (Z.ones nbits)) nbits).
  { unfold gran_nibble_info. rewrite ones_shiftl by lia.
    assert (Hu : u8 (Z.ones nbits) = Z.ones nbits).
    { assert (nbits = 1 ∨ nbits = 2 ∨ nbits = 3 ∨ nbits = 4) as [-> | [-> | [-> | ->]]] by lia;
        reflexivity. }
    by rewrite Hu, <- Z.land_assoc, Z.land_diag. }
  rewrite Hm, Z.land_ones by lia. pose proof tables_ok as Ht.
  rewrite Forall_forall in Ht. specialize (Ht nbits). rewrite Forall_forall in Ht.
  apply Ht; [|apply elem_of_seqZ; apply Z.mod_pos_bound; lia].
  set_unfold. lia.
Qed.

Lemma u8_ones z : u8 z = Z.land z (Z.ones 8).
Proof. by rewrite Z.land_ones. Qed.

Lemma u16_ones z : u16 z = Z.land z (Z.ones 16).
Proof. by rewrite Z.land_ones. Qed.

Lemma ones_land z n : 0 ≤ z < 2 ^ n → 0 ≤ n → Z.land z (Z.ones n) = z.
Proof. intros. rewrite Z.land_ones by lia. by apply Z.mod_small. Qed.

Lemma ones_bound n k : 0 ≤ n ≤ k → 0 ≤ Z.ones n < 2 ^ k.
Proof.
  intros. rewrite Z.ones_equiv. pose proof (Z.pow_le_mono_r 2 n k).
  pose proof (Z.pow_pos_nonneg 2 n). lia.
Qed.

(** The two shortcuts and the split that each level takes. *)

Lemma info_all_free v n :
  0 ≤ n < 2 ^ 8 → Z.land v (Z.ones n) = 0 →
  Some (mk_info (u8 n) (u8 n) 0 0) = Some (info_of (bits_of v n)).
Proof.
  intros Hn H. rewrite <- (bits_of_mask v n n), H by lia.
  rewrite (bits_of_const _ _ false) by (intros; apply Z.bits_0).
  rewrite info_free by lia. unfold u8. by rewrite Z.mod_small by lia.
Qed.

Lemma info_all_used v n :
  0 < n → Z.land v (Z.ones n) = Z.ones n →
  Some (mk_info 0 0 0 0) = Some (info_of (bits_of v n)).
Proof.
  intros Hn H. rewrite <- (bits_of_mask v n n), H by lia.
  rewrite (bits_of_const _ _ true) by (intros; rewrite Z.testbit_ones; lia).
  by rewrite info_used.
Qed.

Lemma info_split v h n :
  0 < h < n → n < 2 ^ 8 →
  gran_info_combine (info_of (bits_of (Z.shiftr v h) (n - h))) (n - h)
                    (info_of (bits_of v h)) h = info_of (bits_of v n).
Proof.
  intros Hh Hn. replace (bits_of v n) with (bits_of v (h + (n - h))) by (f_equal; lia).
  pose proof (length_bits_of v h). pose proof (length_bits_of (Z.shiftr v h) (n - h)).
  rewrite bits_of_app by lia. rewrite <- combine_spec by (rewrite length_app; lia).
  f_equal; lia.
Qed.

(** The bits of the two halves that a level hands to the level below. *)

Lemma bits_of_low v n k h : 0 ≤ k ≤ n → k ≤ h → bits_of (Z.land (Z.land v (Z.ones n)) (Z.ones h)) k = bits_of v k.
Proof. intros. rewrite !bits_of_mask by lia. done. Qed.

Lemma bits_of_high v n h :
  0 ≤ h ≤ n → bits_of (Z.shiftr (Z.land v (Z.ones n)) h) (n - h) = bits_of (Z.shiftr v h) (n - h).
Proof.
  intros. apply bits_of_ext. intros i Hi. rewrite !Z.shiftr_spec, Z.land_spec by lia.
  rewrite Z.testbit_ones by lia. replace ((0 <=? i + h) && (i + h <? n)) with true by lia.
  apply andb_true_r.
Qed.

Lemma byte_spec value nbits :
  0 ≤ value < 2 ^ 8 → 1 ≤ nbits ≤ 8 →
  gran_byte_info value nbits = Some (info_of (bits_of value nbits)).
Proof.
  intros Hv Hn. pose proof (ones_bound nbits 8 ltac:(lia)). unfold gran_byte_info.
  replace (if nbits <? 8 then _ else _) with (Z.ones nbits, Z.land value (Z.ones nbits)).
  2:{ case_tests.
      - by rewrite ones_shiftl, u8_ones, (ones_land (Z.ones nbits) 8) by lia.
      - replace nbits with 8 by lia. by rewrite ones_land. }
  case_if; [by apply info_all_free; lia|]. case_if; [by apply info_all_used; lia|].
  case_if; change 15 with (Z.ones 4); rewrite nibble_spec by lia; cbn [mbind option_bind].
  - rewrite nibble_spec by lia. cbn [mbind option_bind].
    by rewrite bits_of_low, bits_of_high, info_split by lia.
  - by rewrite bits_of_low by lia.
Qed.

Lemma hword_spec value nbits :
  0 ≤ value < 2 ^ 16 → 1 ≤ nbits ≤ 16 →
  gran_hword_info value nbits = Some (info_of (bits_of value nbits)).
Proof.
  intros Hv Hn. pose proof (ones_bound nbits 16 ltac:(lia)). unfold gran_hword_info.
  replace (if nbits <? 16 then _ else _) with (Z.ones nbits, Z.land value (Z.ones nbits)).
  2:{ case_tests.
      - by rewrite ones_shiftl, u16_ones, (ones_land (Z.ones nbits) 16) by lia.
      - replace nbits with 16 by lia. by rewrite ones_land. }
  case_if; [by apply info_all_free; lia|]. case_if; [by apply info_all_used; lia|].
  assert (Hu : ∀ z, 0 ≤ u8 z < 2 ^ 8) by (intros; apply Z.mod_pos_bound; lia).
  case_if; change 255 with (Z.ones 8); rewrite byte_spec by (auto; lia); cbn [mbind option_bind].
  - rewrite byte_spec by (auto; lia). cbn [mbind option_bind]. rewrite !u8_ones.
    by rewrite !bits_of_mask, bits_of_high, info_split by lia.
  - by rewrite u8_ones, !bits_of_mask by lia.
Qed.

(** What the loop of [gran_info] carries after the granules [l]: their number of
    free ones, the longest run closed so far and the length of the open one. *)

Definition best_of (s : summary) : Z :=
  match s with AllFree _ => 0 | Mixed l _ i => Z.max l i end.

Definition run_of (s : summary) : Z :=
  match s with AllFree n => n | Mixed _ t _ => t end.

Definition carried (l : list bool) : Z * Z * Z :=
  (count_free l, best_of (summarize l), run_of (summarize l)).

Lemma word_info {A} v nbits (k : valinfo_s → option A) :
  1 ≤ nbits ≤ 32 →
  (hwinfo ← gran_hword_info (u16 (Z.land (Z.land v (Z.ones nbits)) 0xffff))
              (if 16 <? nbits then 16 else nbits);
   hwinfo ← (if 16 <? nbits then
               let msbits := nbits - 16 in
               msinfo ← gran_hword_info (u16 (Z.shiftr (Z.land v (Z.ones nbits)) 16)) msbits;
               Some (gran_info_combine msinfo msbits hwinfo 16)
             else Some hwinfo);
   k hwinfo) = k (info_of (bits_of v nbits)).
Proof.
  intros Hn. assert (Hu : ∀ z, 0 ≤ u16 z < 2 ^ 16) by (intros; apply Z.mod_pos_bound; lia).
  change 65535 with (Z.ones 16).
  case_if; rewrite hword_spec by (auto; lia); cbn [mbind option_bind]; cbv zeta.
  - rewrite hword_spec by (auto; lia). cbn [mbind option_bind]. rewrite !u16_ones.
    by rewrite !bits_of_mask, bits_of_high, info_split by lia.
  - by rewrite u16_ones, !bits_of_mask by lia.
Qed.

Lemma some_triple (a a' b b' c c' : Z) :
  a = a' → b = b' → c = c' → Some (a, b, c) = Some (a', b', c').
Proof. congruence. Qed.

Lemma entry_spec l v nbits :
  1 ≤ nbits ≤ 32 → Z.of_nat (length l) + nbits < 2 ^ 16 →
  gran_info_entry (Z.land v (Z.ones nbits)) nbits (Z.ones nbits)
    (count_free l) (best_of (summarize l)) (run_of (summarize l)) =
  Some (carried (l ++ bits_of v nbits)).
Proof.
  intros Hn Hl. unfold carried. rewrite summarize_app, count_free_app.
  assert (Hu : ∀ z, 0 ≤ z < 2 ^ 16 → u16 z = z) by (intros; by apply Z.mod_small).
  pose proof (summarize_ok l). pose proof (count_free_le l).
  pose proof (summarize_ok (bits_of v nbits)) as Hok. pose proof (count_free_le (bits_of v nbits)).
  rewrite length_bits_of in *. unfold gran_info_entry. case_if; [|case_if].
  - pose proof (info_all_used v nbits ltac:(lia) ltac:(done)) as Hi. unfold info_of in Hi.
    destruct (summarize l), (summarize (bits_of v nbits)); simplify_eq; simpl in *;
      try lia; apply some_triple; case_tests; lia.
  - pose proof (info_all_free v nbits ltac:(lia) ltac:(done)) as Hi. unfold info_of in Hi.
    unfold u8 in Hi. rewrite Z.mod_small in Hi by lia.
    destruct (summarize l), (summarize (bits_of v nbits)); simplify_eq; simpl in *;
      try lia; rewrite ?Hu by lia; apply some_triple; lia.
  - rewrite (word_info (A := Z * Z * Z)) by lia. unfold info_of.
    destruct (summarize l), (summarize (bits_of v nbits)); simpl in *;
      rewrite ?Hu by (case_tests; lia); case_tests; apply some_triple; lia.
Qed.

(** ** The loop over the entries *)

Definition granule_bits (p : gran_s) (m : Z) : list bool := gbit (gat p) <$> seqZ 0 m.

Lemma granule_bits_app p e n :
  0 ≤ e → 0 ≤ n ≤ 32 →
  granule_bits p (32 * e + n) =
  granule_bits p (32 * e) ++ bits_of (gat p !!! Z.to_nat e) n.
Proof.
  intros. unfold granule_bits. rewrite seqZ_app, fmap_app by lia. f_equal.
  unfold bits_of. rewrite (Z.add_comm 0), <- fmap_add_seqZ, <- list_fmap_compose.
  apply list_fmap_ext. intros i x Hx. apply lookup_seqZ in Hx as [-> ?].
  unfold compose, gbit. rewrite Z.add_comm, (Z.mul_comm 32), Z.div_add, Z_mod_plus_full by lia.
  rewrite Z.div_small, Z.mod_small by lia. done.
Qed.

(** The entry as the loop prepares it: all 32 bits, or the ones before the end. *)

Lemma entry_mask p e (k : Z * Z * Z → option (Z * Z * Z)) :
  wf p → 0 ≤ e → 32 * e < ngranules p →
  let n := Z.min 32 (ngranules p - 32 * e) in
  let v := gat p !!! Z.to_nat e in
  (value ← arr_get (gat p) (Z.shiftr (32 * e) 5);
   x ← (if ngranules p <? 32 * e + 32 then
          let nbits := ngranules p - 32 * e in
          bit ← shl32 1 nbits;
          let mask := u32 (bit - 1) in
          Some (Z.land value mask, nbits, mask)
        else Some (value, 32, 0xffffffff));
   k x) = k (Z.land v (Z.ones n), n, Z.ones n).
Proof.
  intros [? ? Hlen Hw ? ?] He Hlt n v. subst n v.
  replace (Z.shiftr (32 * e) 5) with e by (rewrite gatidx_eq, Z.mul_comm, Z.div_mul; lia).
  rewrite arr_get_lt by dlia. cbn [mbind option_bind]. case_if.
  - rewrite Z.min_r by lia. unfold shl32. replace ((0 <=? _) && _) with true by lia.
    cbn [mbind option_bind]. rewrite (u32_small (Z.shiftl _ _)).
    + rewrite ones_shiftl, u32_small by (try apply ones_bound; lia). done.
    + rewrite Z.shiftl_1_l. split; [lia|]. apply Z.pow_lt_mono_r; lia.
  - rewrite Z.min_l by lia. cbn [mbind option_bind]. do 3 f_equal. symmetry.
    apply ones_land; [|lia]. by apply word_at.
Qed.

Lemma info_loop_spec p fuel : wf p → ∀ e,
  0 ≤ e ≤ Z.of_nat (length (gat p)) → Z.of_nat (length (gat p)) - e < Z.of_nat fuel →
  let '(free, best, run) := carried (granule_bits p (Z.min (32 * e) (ngranules p))) in
  gran_info_loop fuel p (32 * e) free best run = Some (carried (granule_bits p (ngranules p))).
Proof.
  intros Hp. pose proof (wf_n _ Hp). induction fuel as [|fuel IH]; intros e He Hf; [lia|].
  unfold carried at 1. cbn [gran_info_loop]. case_if.
  - pose proof (wf_len _ Hp). rewrite (entry_mask p e (λ x, _)) by (done || lia).
    rewrite (Z.min_l (32 * e)) by lia. set (n := Z.min 32 _).
    rewrite entry_spec;
      [|lia|unfold granule_bits; rewrite length_fmap, length_seqZ; lia].
    rewrite <- granule_bits_app by lia. specialize (IH (e + 1)).
    replace (Z.min (32 * (e + 1)) (ngranules p)) with (32 * e + n) in IH by lia.
    replace (32 * e + 32) with (32 * (e + 1)) by lia.
    unfold carried in *. cbn [mbind option_bind]. apply IH; dlia.
  - by rewrite Z.min_r by lia.
Qed.

(** ** The longest run *)

Section LongestRun.
Context (f : Z → bool).

Definition free_between (a k : Z) : Prop := ∀ i, a ≤ i < a + k → f i = false.

(** [run] and [best] are the open run and the longest closed run of the first
    [m] granules. *)

Definition runs_ok (m run best : Z) : Prop :=
  (0 ≤ run ≤ m ∧ free_between (m - run) run) ∧
  (∀ k, 0 ≤ k ≤ m → free_between (m - k) k → k ≤ run) ∧
  (0 ≤ best ∧ ∃ a, 0 ≤ a ∧ a + best ≤ m ∧ free_between a best) ∧
  (∀ a k, 0 ≤ a → 0 ≤ k → a + k ≤ m → free_between a k → k ≤ Z.max best run).

Lemma runs_ok_used m run best :
  runs_ok m run best → f m = true → runs_ok (m + 1) 0 (Z.max best run).
Proof.
  intros ((Hr & Hrun) & Hrmax & (Hb & a0 & Ha0 & Hend & Hbest) & Hmax) Ef.
  assert (Hk : ∀ a k, 0 ≤ k → a + k ≤ m + 1 → free_between a k → k = 0 ∨ a + k ≤ m).
  { intros a k ? ? Hfr. destruct (decide (k = 0 ∨ a + k ≤ m)); [done|].
    specialize (Hfr m). rewrite Ef in Hfr. discriminate Hfr. lia. }
  split_and!; try lia; try (intros i; lia).
  - intros k ? Hfr. apply Hk in Hfr; lia.
  - destruct (Z.max_spec best run) as [[? ->]|[? ->]];
      [exists (m - run)|exists a0]; split_and!; auto with lia.
  - intros a k ? ? ? Hfr. apply Hk in Hfr as Hfr'; [|lia..].
    destruct Hfr'; [lia|]. apply Hmax in Hfr; lia.
Qed.

Lemma runs_ok_free m run best :
  runs_ok m run best → f m = false → runs_ok (m + 1) (run + 1) best.
Proof.
  intros ((Hr & Hrun) & Hrmax & (Hb & a0 & Ha0 & Hend & Hbest) & Hmax) Ef.
  assert (Hk : ∀ k, 0 ≤ k ≤ m + 1 → free_between (m + 1 - k) k → k ≤ run + 1).
  { intros k ? Hfr. destruct (decide (k = 0)); [lia|]. specialize (Hrmax (k - 1)).
    apply Z.le_sub_le_add_r, Hrmax; [lia|]. intros i ?. apply Hfr. lia. }
  split_and!; try lia; [|done|by exists a0; auto with lia|].
  - intros i ?. destruct (decide (i = m)) as [->|]; [done|]. apply Hrun. lia.
  - intros a k ? ? ? Hfr. destruct (decide (a + k ≤ m)); [apply Hmax in Hfr; lia|].
    assert (k ≤ run + 1); [|lia]. apply Hk; [lia|]. by replace (m + 1 - k) with a by lia.
Qed.

Lemma runs_spec m : 0 ≤ m →
  let s := summarize (f <$> seqZ 0 m) in runs_ok m (run_of s) (best_of s).
Proof.
  revert m. apply natlike_ind.
  - simpl. split_and!; try lia; try (intros i; lia). exists 0. split_and!; try lia.
    intros i; lia.
  - intros m Hm IH. rewrite <- Z.add_1_r, seqZ_app, fmap_app by lia.
    change (f <$> seqZ (0 + m) 1) with [f m]. rewrite summarize_snoc.
    set (s := summarize _) in *. clearbody s.
    pose proof IH as ((? & _) & _ & (? & _) & _). destruct (f m) eqn:Ef.
    + apply runs_ok_used in IH; [|done].
      by replace (run_of (s_step s true)) with 0;
        [replace (best_of (s_step s true)) with (Z.max (best_of s) (run_of s))|];
        [|destruct s; simpl in *; lia..].
    + apply runs_ok_free in IH; [|done]. destruct s; exact IH.
Qed.
End LongestRun.

Lemma count_free_spec p m : count_free (granule_bits p m) =
  Z.of_nat (length (filter (λ i, gbit (gat p) i = false) (seqZ 0 m))).
Proof.
  unfold count_free, granule_bits. f_equal. induction (seqZ 0 m) as [|i l IH]; [done|].
  simpl. rewrite !filter_cons. repeat case_decide; simpl; auto with lia; done.
Qed.

Lemma info_spec p enter :
  wf p → 0 ≤ enter →
  ∃ nfree mxfree,
    gran_info p enter = Some (mk_graninfo (log2gran p) (ngranules p) nfree mxfree) ∧
    nfree = Z.of_nat (length (filter (λ i, gbit (gat p) i = false) (seqZ 0 (ngranules p)))) ∧
    (∃ a, 0 ≤ a ∧ free_run p a mxfree = true) ∧
    (∀ a n, 0 ≤ a → 0 ≤ n → free_run p a n = true → n ≤ mxfree).
Proof.
  intros Hp He. pose proof (wf_n _ Hp).
  pose proof (info_loop_spec p (S (length (gat p))) Hp 0 ltac:(lia) ltac:(lia)) as Hloop.
  rewrite Z.mul_0_r, Z.min_l in Hloop by lia.
  change (carried (granule_bits p 0)) with (0, 0, 0) in Hloop. cbv beta iota in Hloop.
  pose proof (runs_spec (gbit (gat p)) (ngranules p) ltac:(lia)) as Hruns.
  fold (granule_bits p (ngranules p)) in Hruns. unfold carried in Hloop. cbv zeta in Hruns.
  set (best := best_of _) in *. set (run := run_of _) in *. clearbody best run.
  destruct Hruns as ((? & Hrun) & _ & (? & a0 & ? & ? & Hbest) & Hmax).
  exists (count_free (granule_bits p (ngranules p))), (Z.max best run). split_and!.
  - unfold gran_info. case_if; [lia|]. rewrite Hloop. cbn [mbind option_bind].
    do 2 f_equal. case_tests; lia.
  - apply count_free_spec.
  - destruct (Z.max_spec best run) as [[? ->]|[? ->]].
    + exists (ngranules p - run). split; [lia|]. apply free_run_spec. split; [lia|done].
    + exists a0. split; [done|]. apply free_run_spec. split; [lia|done].
  - intros a n ? ? Hfr. apply free_run_spec in Hfr as [? Hfr]. by apply (Hmax a).
Qed.

(** For every well-formed allocator [gran_info] terminates and reports the
    true figures: [nfree] is the number of granules whose table bit is clear and
    [mxfree] the length of the longest run of free granules, that is, some run
    of [mxfree] granules is free and no longer one is. *)
Theorem gran_info_spec p enter :
  wf p → 0 ≤ enter →
  ∃ nfree mxfree,
    gran_info p enter = Some (mk_graninfo (log2gran p) (ngranules p) nfree mxfree) ∧
    nfree = Z.of_nat (length (filter (λ i, gbit (gat p) i = false) (seqZ 0 (ngranules p)))) ∧
    (∃ a, 0 ≤ a ∧ free_run p a mxfree = true) ∧
    (∀ a n, 0 ≤ a → 0 ≤ n → free_run p a n = true → n ≤ mxfree).
Proof. apply info_spec. Qed.

(** The 40 granules of [demo_gran]: 9 are free, at most 5 of them in a row. *)

Lemma gran_info_spec_witness :
  gran_info demo_gran 0 = Some (mk_graninfo 10 40 9 5) ∧
  ∃ nfree mxfree,
    gran_info demo_gran 0 = Some (mk_graninfo 10 40 nfree mxfree) ∧
    nfree = Z.of_nat (length (filter (λ i, gbit (gat demo_gran) i = false) (seqZ 0 40))) ∧
    (∃ a, 0 ≤ a ∧ free_run demo_gran a mxfree = true) ∧
    (∀ a n, 0 ≤ a → 0 ≤ n → free_run demo_gran a n = true → n ≤ mxfree).
Proof.
  split; [vm_compute; reflexivity|]. exact (gran_info_spec demo_gran 0 demo_wf ltac:(lia)).
Defined.

End GranInfo.
