(* ===== verification/PgAlloc.v ===== *)
(** * The page allocator (mm/mm_gran/mm_pgalloc.c)

    Pages of [2 ^ MM_PGSHIFT] bytes on top of the granule allocator of [Gran];
    the global [g_pgalloc] is the state that the operations pass along. *)

From S2P Require Import Prelude.
From S2P Require Import Gran.
From S2P Require Import GranInfo.

Module PgAlloc.
Import Gran.
Import GranInfo.

Record pginfo_s := mk_pginfo {
  pi_ntotal : Z;
  pi_nfree : Z;
  pi_mxfree : Z
}.

Section Pages.

(** The page size is a configuration choice, 1 KiB to 16 KiB (pgalloc.h). *)

Context (MM_PGSHIFT : Z).

Definition mm_pginitialize (heap_start heap_size : Z) (zalloc : bool) : option gran_s :=
  h ← gran_initialize heap_start heap_size MM_PGSHIFT MM_PGSHIFT zalloc;
  DEBUGASSERT (bool_decide (is_Some h)) ;;
  h.

Definition mm_pgreserve (g_pgalloc : gran_s) (start size : Z) : option gran_s :=
  gran_reserve g_pgalloc start size.

Definition mm_pgalloc (g_pgalloc : gran_s) (past : option Z) (enter npages : Z) :
    option (Z * gran_s) :=
  gran_alloc g_pgalloc past enter (u32 (Z.shiftl npages MM_PGSHIFT)).

Definition mm_pgfree (g_pgalloc : gran_s) (enters : list Z) (paddr npages : Z) :
    option gran_s :=
  gran_free g_pgalloc enters paddr (u32 (Z.shiftl npages MM_PGSHIFT)).

Definition mm_pginfo (g_pgalloc : gran_s) (enter : Z) : option pginfo_s :=
  info ← gran_info g_pgalloc enter;
  Some (mk_pginfo (gi_ngranules info) (gi_nfree info) (gi_mxfree info)).

(** ** The contract: a pool of pages

    A client sees a pool of [total] pages from address [base] on, of which the
    set [used] is taken. *)

Record pool := mk_pool {
  base : Z;
  total : Z;
  used : gset Z
}.

Definition pages (a n : Z) : gset Z := list_to_set (seqZ a n).

Definition pool_fit (q : pool) (n : Z) : option Z :=
  List.find (λ a, (a + n <=? total q) && bool_decide (pages a n ## used q))
    (seqZ 0 (total q)).

Definition pool_addr (q : pool) (a : Z) : Z := base q + a * 2 ^ MM_PGSHIFT.

Inductive pg_op := PgAlloc (npages : Z) | PgFree (paddr npages : Z).

(** The pool's steps; a free must name pages that are all taken. *)

Definition pool_step (q : pool) (o : pg_op) : option (Z * pool) :=
  match o with
  | PgAlloc n =>
      if (0 <? n) && (n <=? 32) then
        match pool_fit q n with
        | Some a => Some (pool_addr q a, mk_pool (base q) (total q) (used q ∪ pages a n))
        | None => Some (0, q)
        end
      else None
  | PgFree paddr n =>
      let a := (paddr - base q) / 2 ^ MM_PGSHIFT in
      if (0 <? n) && (n <=? 32) && (0 <=? a) && (paddr =? pool_addr q a) &&
         bool_decide (pages a n ⊆ used q)
      then Some (0, mk_pool (base q) (total q) (used q ∖ pages a n))
      else None
  end.

Definition pg_step (past : Z) (p : gran_s) (o : pg_op) : option (Z * gran_s) :=
  match o with
  | PgAlloc n => mm_pgalloc p (Some past) OK n
  | PgFree paddr n => p' ← mm_pgfree p [OK] paddr n; Some (0, p')
  end.

Fixpoint run_ops {S} (step : S → pg_op → option (Z * S)) (s : S) (os : list pg_op) :
    option (list Z * S) :=
  match os with
  | [] => Some ([], s)
  | o :: os =>
      '(r, s) ← step s o;
      '(rs, s) ← run_ops step s os;
      Some (r :: rs, s)
  end.

(** The granule table [p] represents the pool [q]. *)

Record represents (p : gran_s) (q : pool) : Prop := {
  rep_wf : wf p;
  rep_shift : log2gran p = MM_PGSHIFT;
  rep_base : heapstart p = base q;
  rep_total : ngranules p = total q;
  rep_used : ∀ i, 0 ≤ i < total q → gbit (gat p) i = bool_decide (i ∈ used q);
  rep_range : ∀ i, i ∈ used q → 0 ≤ i < total q
}.

Lemma elem_of_pages i a n : i ∈ pages a n ↔ a ≤ i < a + n.
Proof. unfold pages. by rewrite elem_of_list_to_set, elem_of_seqZ. Qed.

Hypothesis Hshift : 10 ≤ MM_PGSHIFT ≤ 14.

Lemma page_pow : 2 ^ 10 ≤ 2 ^ MM_PGSHIFT ≤ 2 ^ 14.
Proof. split; apply Z.pow_le_mono_r; lia. Qed.

Lemma page_size n : 0 < n ≤ 32 → u32 (Z.shiftl n MM_PGSHIFT) = n * 2 ^ MM_PGSHIFT.
Proof.
  intros. pose proof page_pow. rewrite Z.shiftl_mul_pow2 by lia. apply u32_small. nia.
Qed.

Lemma page_granules p n :
  log2gran p = MM_PGSHIFT → 0 < n ≤ 32 → granules p (n * 2 ^ MM_PGSHIFT) = n.
Proof.
  intros E ?. pose proof page_pow. unfold granules. rewrite E.
  replace (n * 2 ^ MM_PGSHIFT + 2 ^ MM_PGSHIFT - 1)
    with (2 ^ MM_PGSHIFT - 1 + n * 2 ^ MM_PGSHIFT) by lia.
  rewrite Z.div_add, Z.div_small by lia. lia.
Qed.

Section Step.
Context (p : gran_s) (q : pool) (Hrep : represents p q).

Lemma fit_agree n : 0 < n → first_fit p n = pool_fit q n.
Proof.
  intros Hn. destruct Hrep as [? ? ? Ht Hu Hr]. unfold first_fit, pool_fit. rewrite Ht.
  assert (Hext : ∀ l, Forall (λ a, 0 ≤ a) l →
    List.find (λ a, free_run p a n) l =
    List.find (λ a, (a + n <=? total q) && bool_decide (pages a n ## used q)) l).
  { induction 1 as [|a l Ha _ IH]; [done|]. simpl. rewrite IH.
    replace (free_run p a n) with ((a + n <=? total q) && bool_decide (pages a n ## used q));
      [done|]. apply eq_true_iff_eq. rewrite andb_true_iff, bool_decide_eq_true, Z.leb_le.
    rewrite free_run_spec, Ht. split; intros [Hle Hd]; (split; [done|]).
    - intros i Hi. rewrite Hu by lia. apply bool_decide_eq_false.
      intros ?. apply (Hd i); [by apply elem_of_pages|done].
    - intros i Hp Hin. apply elem_of_pages in Hp. specialize (Hd i Hp).
      rewrite Hu in Hd by lia. by apply bool_decide_eq_false in Hd. }
  apply Hext, Forall_forall. intros a Ha%elem_of_seqZ. lia.
Qed.

Lemma rep_addr a : gran_addr p a = pool_addr q a.
Proof. destruct Hrep. unfold gran_addr, pool_addr. congruence. Qed.

(** Marking or clearing a range of the table adds or removes those pages. *)

Lemma represents_set a n :
  0 ≤ a → 0 ≤ n → a + n ≤ total q →
  represents (set_gat p (set_range a n (gat p)))
    (mk_pool (base q) (total q) (used q ∪ pages a n)).
Proof.
  intros Ha Hn Hle. destruct Hrep as [Hwf ? ? Ht Hu Hr]. pose proof (wf_len _ Hwf).
  constructor; simpl; try done.
  - apply set_gat_wf; [done|apply length_set_range|by apply set_range_words, wf_words].
  - intros i Hi. rewrite gbit_set_range, Hu by dlia.
    apply eq_true_iff_eq. rewrite orb_true_iff, !bool_decide_eq_true, elem_of_union,
      elem_of_pages, andb_true_iff, Z.leb_le, Z.ltb_lt. done.
  - intros i [?|?%elem_of_pages]%elem_of_union; [by apply Hr|lia].
Qed.

Lemma represents_clear a n :
  0 ≤ a → 0 ≤ n → a + n ≤ total q →
  represents (set_gat p (clear_range a n (gat p)))
    (mk_pool (base q) (total q) (used q ∖ pages a n)).
Proof.
  intros Ha Hn Hle. destruct Hrep as [Hwf ? ? Ht Hu Hr]. pose proof (wf_len _ Hwf).
  constructor; simpl; try done.
  - apply set_gat_wf; [done|apply length_clear_range|by apply clear_range_words, wf_words].
  - intros i Hi. rewrite gbit_clear_range, Hu by dlia.
    apply eq_true_iff_eq. rewrite andb_true_iff, !bool_decide_eq_true, elem_of_difference,
      elem_of_pages. rewrite negb_true_iff, andb_false_iff, Z.leb_gt, Z.ltb_ge.
    split; intros [? ?]; (split; [done|lia]).
  - intros i [? _]%elem_of_difference. by apply Hr.
Qed.

Lemma step_alloc past n r q' :
  word32 past → pool_step q (PgAlloc n) = Some (r, q') →
  ∃ p', pg_step past p (PgAlloc n) = Some (r, p') ∧ represents p' q'.
Proof.
  intros Hpast Hq. simpl in Hq. case_if_in Hq; [|done].
  pose proof page_pow. pose proof (rep_wf _ _ Hrep) as Hwf.
  pose proof (rep_shift _ _ Hrep) as Hs. simpl. unfold mm_pgalloc.
  assert (0 < n * 2 ^ MM_PGSHIFT ≤ 32 * 2 ^ MM_PGSHIFT) by nia.
  rewrite page_size, alloc_spec by (rewrite ?Hs; done || lia).
  rewrite page_granules, fit_agree by (done || lia).
  destruct (pool_fit q n) as [a|] eqn:Ef; simplify_eq.
  - unfold granted. rewrite rep_addr. eexists. split; [done|].
    unfold pool_fit in Ef. apply find_seqZ_first in Ef as (? & Hfit & _).
    bool_to_prop. apply represents_set; lia.
  - by exists p.
Qed.

Lemma step_free past paddr n r q' :
  pool_step q (PgFree paddr n) = Some (r, q') →
  ∃ p', pg_step past p (PgFree paddr n) = Some (r, p') ∧ represents p' q'.
Proof.
  intros Hq. simpl in Hq. set (a := _ / _) in Hq. case_if_in Hq; [|done].
  pose proof page_pow. pose proof (rep_wf _ _ Hrep) as Hwf.
  pose proof (rep_shift _ _ Hrep) as Hs. injection Hq as <- <-.
  assert (Hin : pages a n ⊆ used q) by (by eapply bool_decide_eq_true).
  assert (Hle : a + n ≤ total q).
  { pose proof (rep_range _ _ Hrep (a + n - 1)) as Hr.
    specialize (Hr ltac:(apply Hin, elem_of_pages; lia)). lia. }
  assert (Hused : all_used (gat p) a n = true).
  { apply all_used_spec. intros i Hi. rewrite (rep_used _ _ Hrep).
    - apply bool_decide_eq_true, Hin, elem_of_pages. lia.
    - pose proof (rep_range _ _ Hrep i) as Hr. apply Hr, Hin, elem_of_pages. lia. }
  simpl. unfold mm_pgfree. replace paddr with (gran_addr p a) by (by rewrite rep_addr).
  rewrite page_size, free_spec; rewrite ?Hs, ?page_granules, ?Hused, ?(rep_total _ _ Hrep);
    try (done || nia).
  eexists. split; [done|]. apply represents_clear; lia.
Qed.
End Step.

Lemma pg_run_refines past os : word32 past → ∀ p q rs q',
  represents p q → run_ops pool_step q os = Some (rs, q') →
  ∃ p', run_ops (pg_step past) p os = Some (rs, p') ∧ represents p' q'.
Proof.
  intros Hpast. induction os as [|o os IH]; intros p q rs q' Hrep Hq; simpl in *.
  { injection Hq as <- <-. by exists p. }
  destruct (pool_step q o) as [[r q1]|] eqn:E1; [|done]. cbn [mbind option_bind] in Hq.
  destruct (run_ops pool_step q1 os) as [[rs1 q2]|] eqn:E2; [|done].
  cbn in Hq. injection Hq as <- <-.
  assert (∃ p1, pg_step past p o = Some (r, p1) ∧ represents p1 q1) as (p1 & E & Hrep1).
  { destruct o; [eapply step_alloc|eapply step_free]; eauto. }
  destruct (IH _ _ _ _ Hrep1 E2) as (p2 & E' & Hrep2). exists p2.
  simpl. rewrite E. cbn [mbind option_bind]. rewrite E'. done.
Qed.

(** ** The statistics *)

Lemma used_count p q : represents p q →
  Z.of_nat (length (filter (λ i, gbit (gat p) i = false) (seqZ 0 (ngranules p)))) =
  total q - Z.of_nat (size (used q)).
Proof.
  intros [Hwf _ _ Ht Hu Hr]. pose proof (wf_n _ Hwf).
  assert (Hset : used q = list_to_set (filter (.∈ used q) (seqZ 0 (total q)))).
  { apply set_eq. intros i. rewrite elem_of_list_to_set, list_elem_of_filter, elem_of_seqZ.
    split; [|by intros [? _]]. intros Hi. specialize (Hr i Hi). split; [done|lia]. }
  assert (Hsz : size (used q) = length (filter (.∈ used q) (seqZ 0 (total q)))).
  { rewrite Hset at 1. rewrite size_list_to_set; [done|]. apply NoDup_filter, NoDup_seqZ. }
  rewrite Hsz, Ht. clear Hset Hsz. assert (Hin : Forall (λ i, 0 ≤ i < total q) (seqZ 0 (total q))).
  { apply Forall_forall. intros i ?%elem_of_seqZ. lia. }
  replace (total q) with (Z.of_nat (length (seqZ 0 (total q)))) at 2
    by (rewrite length_seqZ; lia).
  induction Hin as [|i l Hi _ IH]; [done|]. rewrite !filter_cons, Hu by done.
  repeat case_decide; repeat case_bool_decide; simpl; try done; lia.
Qed.

Lemma represents_init p :
  wf p → log2gran p = MM_PGSHIFT → (∀ i, 0 ≤ i < ngranules p → gbit (gat p) i = false) →
  represents p (mk_pool (heapstart p) (ngranules p) ∅).
Proof.
  intros ? ? Hfree. constructor; simpl; [done..| |set_solver].
  intros i Hi. rewrite Hfree by done. symmetry. apply bool_decide_eq_false. set_solver.
Qed.

(** C22.  The page allocator implements a pool of pages: from initialization on,
    every sequence of allocations and frees that the pool allows runs without a
    fault and answers the same addresses (first fit, 0 when nothing fits), and
    [mm_pginfo] then reports the size of the pool, the number of pages that are
    not taken and the length of the longest run of them. *)
Theorem pgalloc_refines_pool start heapsize past os :
  0 < start → 2 ^ MM_PGSHIFT ≤ heapsize → start + heapsize < 2 ^ 32 →
  heapsize / 2 ^ MM_PGSHIFT < 2 ^ 16 → word32 past →
  ∃ p, mm_pginitialize start heapsize true = Some p ∧
  ∀ rs q', run_ops pool_step (mk_pool (heapstart p) (ngranules p) ∅) os = Some (rs, q') →
  ∃ p' mxfree, run_ops (pg_step past) p os = Some (rs, p') ∧
    mm_pginfo p' OK =
      Some (mk_pginfo (total q') (total q' - Z.of_nat (size (used q'))) mxfree) ∧
    (is_Some (pool_fit q' mxfree) ∨ mxfree = 0) ∧ pool_fit q' (mxfree + 1) = None.
Proof.
  intros Hst Hsz Hend Hfit Hpast. pose proof page_pow.
  destruct (gran_init_spec start heapsize MM_PGSHIFT MM_PGSHIFT) as (p & E & Hwf & _ & _ & _ & Hfree);
    try lia.
  assert (Hlog : log2gran p = MM_PGSHIFT).
  { unfold gran_initialize in E. destruct (DEBUGASSERT _); [|done]. cbn in E. by simplify_eq. }
  exists p. split; [unfold mm_pginitialize; by rewrite E|]. intros rs q' Hrun.
  destruct (pg_run_refines past os Hpast _ _ _ _ (represents_init p Hwf Hlog Hfree) Hrun)
    as (p' & Erun & Hrep).
  destruct (info_spec p' OK) as (nfree & mxfree & Einfo & Hn & (a & Ha & Hex) & Hmax);
    [apply Hrep|done|].
  exists p', mxfree. split_and!; [done| | |].
  - unfold mm_pginfo. rewrite Einfo. cbn. by rewrite Hn, (used_count _ _ Hrep), (rep_total _ _ Hrep).
  - destruct (decide (0 < mxfree)) as [Hpos|]; [left|right].
    + rewrite <- (fit_agree _ _ Hrep) by lia. apply not_eq_None_Some. intros Hno.
      pose proof Hex as [? _]%free_run_spec.
      rewrite (find_seqZ_none_inv _ _ _ Hno a) in Hex by lia. done.
    + specialize (Hmax 0 0 ltac:(lia) ltac:(lia)). apply Z.le_antisymm; [lia|].
      apply Hmax, free_run_spec. destruct (wf_n _ (rep_wf _ _ Hrep)). split; lia.
  - assert (0 ≤ mxfree). { apply (Hmax 0 0); [lia..|]. apply free_run_spec.
      destruct (wf_n _ (rep_wf _ _ Hrep)). split; lia. }
    rewrite <- (fit_agree _ _ Hrep) by lia.
    destruct (first_fit p' (mxfree + 1)) as [b|] eqn:Eb; [|done].
    apply first_fit_Some in Eb as (? & Hb & _). apply Hmax in Hb; lia.
Qed.
End Pages.

(** 1 KiB pages from 0x10000000 on: three allocations, one free and a fourth
    allocation that fits the hole. *)

Definition demo_ops : list pg_op :=
  [PgAlloc 3; PgAlloc 30; PgAlloc 32; PgFree 0x10000c00 30; PgAlloc 8].

Lemma pgalloc_refines_pool_witness :
  (∃ q, run_ops (pool_step 10) (mk_pool 0x10000000 64 ∅) demo_ops =
        Some ([0x10000000; 0x10000c00; 0; 0; 0x10000c00], q)) ∧
  ∃ p, mm_pginitialize 10 0x10000000 0x10000 true = Some p ∧
  ∀ rs q', run_ops (pool_step 10) (mk_pool (heapstart p) (ngranules p) ∅) demo_ops = Some (rs, q') →
  ∃ p' mxfree, run_ops (pg_step 10 0) p demo_ops = Some (rs, p') ∧
    mm_pginfo p' OK =
      Some (mk_pginfo (total q') (total q' - Z.of_nat (size (used q'))) mxfree) ∧
    (is_Some (pool_fit q' mxfree) ∨ mxfree = 0) ∧ pool_fit q' (mxfree + 1) = None.
Proof.
  split; [eexists; vm_compute; reflexivity|].
  apply (pgalloc_refines_pool 10 ltac:(lia) 0x10000000 0x10000 0 demo_ops); done.
Defined.
End PgAlloc.
