(* ===== verification/Queue.v ===== *)
(** * Linked queues (libs/libc/queue, include/queue.h)

    Nodes live in a store from addresses to structures; NULL is 0 and
    dereferencing it, or an address that holds no node, is a fault.  The queue
    routines only know the link fields of a node: the classes [SqEntry] and
    [DqEntry] say how to read and write them in the structure that embeds the
    entry (the C code casts the structure's address), so that the same routines
    serve every structure that starts with an entry. *)

From S2P Require Import Prelude.

Class SqEntry (N : Type) := {
  sq_flink : N → Z;
  sq_set_flink : Z → N → N;
  sq_flink_set p n : sq_flink (sq_set_flink p n) = p;
  sq_set_set p p' n : sq_set_flink p (sq_set_flink p' n) = sq_set_flink p n
}.

Class DqEntry (N : Type) := {
  dq_flink : N → Z;
  dq_blink : N → Z;
  dq_set_flink : Z → N → N;
  dq_set_blink : Z → N → N;
  dq_flink_set p n : dq_flink (dq_set_flink p n) = p;
  dq_blink_set p n : dq_blink (dq_set_blink p n) = p;
  dq_flink_set_blink p n : dq_flink (dq_set_blink p n) = dq_flink n;
  dq_blink_set_flink p n : dq_blink (dq_set_flink p n) = dq_blink n;
  dq_set_set_flink p p' n : dq_set_flink p (dq_set_flink p' n) = dq_set_flink p n;
  dq_set_set_blink p p' n : dq_set_blink p (dq_set_blink p' n) = dq_set_blink p n;
  dq_set_comm p p' n : dq_set_blink p (dq_set_flink p' n) = dq_set_flink p' (dq_set_blink p n)
}.

(** The entries themselves, for queues of bare nodes. *)

Record sq_entry_s := mk_sq_entry { flink1 : Z }.

#[global, refine] Instance sq_entry_SqEntry : SqEntry sq_entry_s := {
  sq_flink := flink1;
  sq_set_flink p _ := mk_sq_entry p
}.
Proof. all: done. Defined.

Record dq_entry_s := mk_dq_entry { flink2 : Z; blink2 : Z }.

#[global, refine] Instance dq_entry_DqEntry : DqEntry dq_entry_s := {
  dq_flink := flink2;
  dq_blink := blink2;
  dq_set_flink p n := mk_dq_entry p (blink2 n);
  dq_set_blink p n := mk_dq_entry (flink2 n) p
}.
Proof. all: by intros ? []. Defined.

Record sq_queue_s := mk_sq { sq_head : Z; sq_tail : Z }.
Record dq_queue_s := mk_dq { dq_head : Z; dq_tail : Z }.

Definition NULL : Z := 0.

Definition deref {N} (m : gmap Z N) (p : Z) : option N :=
  if p =? NULL then None else m !! p.

(** [p->field = ...] *)

Definition update {N} (m : gmap Z N) (p : Z) (f : N → N) : option (gmap Z N) :=
  n ← deref m p; Some (<[p := f n]> m).

(** ** Singly linked queues *)

Module Sq.
Section Ops.
Context {N : Type} `{SqEntry N}.
Implicit Types (m : gmap Z N) (q : sq_queue_s).

Definition sq_init : sq_queue_s := mk_sq NULL NULL.

(** [sq_move (q1, q2)]: the new [q1] and [q2]. *)

Definition sq_move (q1 q2 : sq_queue_s) : sq_queue_s * sq_queue_s :=
  (mk_sq NULL NULL, mk_sq (sq_head q1) (sq_tail q1)).

Definition sq_empty q : bool := sq_head q =? NULL.

Definition sq_next m (p : Z) : option Z := n ← deref m p; Some (sq_flink n).

Definition sq_addfirst m (node : Z) q : option (gmap Z N * sq_queue_s) :=
  m ← update m node (sq_set_flink (sq_head q));
  Some (m, mk_sq node (if sq_head q =? NULL then node else sq_tail q)).

Definition sq_addlast m (node : Z) q : option (gmap Z N * sq_queue_s) :=
  m ← update m node (sq_set_flink NULL);
  if sq_head q =? NULL then Some (m, mk_sq node node)
  else
    m ← update m (sq_tail q) (sq_set_flink node);
    Some (m, mk_sq (sq_head q) node).

Definition sq_addafter m (prev node : Z) q : option (gmap Z N * sq_queue_s) :=
  if (sq_head q =? NULL) || (prev =? sq_tail q) then sq_addlast m node q
  else
    next ← sq_next m prev;
    m ← update m node (sq_set_flink next);
    m ← update m prev (sq_set_flink node);
    Some (m, q).

Definition sq_remfirst m q : option (Z * gmap Z N * sq_queue_s) :=
  let ret := sq_head q in
  if ret =? NULL then Some (ret, m, q)
  else
    next ← sq_next m ret;
    let q := mk_sq next (if next =? NULL then NULL else sq_tail q) in
    m ← update m ret (sq_set_flink NULL);
    Some (ret, m, q).

Definition sq_remafter m (node : Z) q : option (Z * gmap Z N * sq_queue_s) :=
  ret ← sq_next m node;
  if negb (sq_head q =? NULL) && negb (ret =? NULL) then
    '(m, q) ← (if sq_tail q =? ret then
                 m ← update m node (sq_set_flink NULL);
                 Some (m, mk_sq (sq_head q) node)
               else
                 next ← sq_next m ret;
                 m ← update m node (sq_set_flink next);
                 Some (m, q));
    m ← update m ret (sq_set_flink NULL);
    Some (ret, m, q)
  else Some (ret, m, q).

(** The loop [for (prev = head; prev && prev->flink != node; prev = prev->flink)]. *)

Fixpoint sq_find_prev (fuel : nat) m (prev node : Z) : option Z :=
  match fuel with
  | O => None
  | S fuel =>
      if prev =? NULL then Some prev
      else
        next ← sq_next m prev;
        if next =? node then Some prev else sq_find_prev fuel m next node
  end.

Definition sq_rem m (node : Z) q : option (gmap Z N * sq_queue_s) :=
  if negb (sq_head q =? NULL) && negb (node =? NULL) then
    if node =? sq_head q then
      next ← sq_next m node;
      Some (m, mk_sq next (if node =? sq_tail q then NULL else sq_tail q))
    else
      prev ← sq_find_prev (S (size m)) m (sq_head q) node;
      if prev =? NULL then Some (m, q)
      else '(_, m, q) ← sq_remafter m prev q; Some (m, q)
  else Some (m, q).

Definition sq_remlast m q : option (Z * gmap Z N * sq_queue_s) :=
  let ret := sq_tail q in
  if ret =? NULL then Some (ret, m, q)
  else
    '(m, q) ← (if sq_head q =? sq_tail q then Some (m, mk_sq NULL NULL)
               else
                 prev ← sq_find_prev (S (size m)) m (sq_head q) ret;
                 if prev =? NULL then Some (m, q)
                 else
                   m ← update m prev (sq_set_flink NULL);
                   Some (m, mk_sq (sq_head q) prev));
    m ← update m ret (sq_set_flink NULL);
    Some (ret, m, q).

Fixpoint sq_count_loop (fuel : nat) m (node count : Z) : option Z :=
  match fuel with
  | O => None
  | S fuel =>
      if node =? NULL then Some count
      else next ← sq_next m node; sq_count_loop fuel m next (u32 (count + 1))
  end.

Definition sq_count m q : option Z := sq_count_loop (S (size m)) m (sq_head q) 0.

(** The new [queue1] and [queue2]. *)

Definition sq_cat m (queue1 queue2 : sq_queue_s) :
    option (gmap Z N * sq_queue_s * sq_queue_s) :=
  if sq_empty queue2 then
    let '(queue1, queue2) := sq_move queue1 queue2 in Some (m, queue1, queue2)
  else if negb (sq_empty queue1) then
    m ← update m (sq_tail queue2) (sq_set_flink (sq_head queue1));
    Some (m, sq_init, mk_sq (sq_head queue2) (sq_tail queue1))
  else Some (m, queue1, queue2).

End Ops.
Arguments sq_find_prev : simpl never.
End Sq.

(** ** Doubly linked queues *)

Module Dq.
Section Ops.
Context {N : Type} `{DqEntry N}.
Implicit Types (m : gmap Z N) (q : dq_queue_s).

Definition dq_init : dq_queue_s := mk_dq NULL NULL.

Definition dq_move (q1 q2 : dq_queue_s) : dq_queue_s * dq_queue_s :=
  (mk_dq NULL NULL, mk_dq (dq_head q1) (dq_tail q1)).

Definition dq_empty q : bool := dq_head q =? NULL.

Definition dq_next m (p : Z) : option Z := n ← deref m p; Some (dq_flink n).
Definition dq_prev m (p : Z) : option Z := n ← deref m p; Some (dq_blink n).

Definition dq_addfirst m (node : Z) q : option (gmap Z N * dq_queue_s) :=
  m ← update m node (dq_set_blink NULL);
  m ← update m node (dq_set_flink (dq_head q));
  if dq_head q =? NULL then Some (m, mk_dq node node)
  else
    m ← update m (dq_head q) (dq_set_blink node);
    Some (m, mk_dq node (dq_tail q)).

Definition dq_addlast m (node : Z) q : option (gmap Z N * dq_queue_s) :=
  m ← update m node (dq_set_flink NULL);
  m ← update m node (dq_set_blink (dq_tail q));
  if dq_head q =? NULL then Some (m, mk_dq node node)
  else
    m ← update m (dq_tail q) (dq_set_flink node);
    Some (m, mk_dq (dq_head q) node).

Definition dq_addafter m (prev node : Z) q : option (gmap Z N * dq_queue_s) :=
  if (dq_head q =? NULL) || (prev =? dq_tail q) then dq_addlast m node q
  else
    next ← dq_next m prev;
    m ← update m node (dq_set_blink prev);
    m ← update m node (dq_set_flink next);
    m ← update m next (dq_set_blink node);
    m ← update m prev (dq_set_flink node);
    Some (m, q).

Definition dq_addbefore m (next node : Z) q : option (gmap Z N * dq_queue_s) :=
  if (dq_head q =? NULL) || (next =? dq_head q) then dq_addfirst m node q
  else
    prev ← dq_prev m next;
    m ← update m node (dq_set_flink next);
    m ← update m node (dq_set_blink prev);
    m ← update m prev (dq_set_flink node);
    m ← update m next (dq_set_blink node);
    Some (m, q).

Definition dq_rem m (node : Z) q : option (gmap Z N * dq_queue_s) :=
  prev ← dq_prev m node;
  next ← dq_next m node;
  '(m, q) ← (if prev =? NULL then Some (m, mk_dq next (dq_tail q))
             else m ← update m prev (dq_set_flink next); Some (m, q));
  '(m, q) ← (if next =? NULL then Some (m, mk_dq (dq_head q) prev)
             else m ← update m next (dq_set_blink prev); Some (m, q));
  m ← update m node (dq_set_flink NULL);
  m ← update m node (dq_set_blink NULL);
  Some (m, q).

Definition dq_remfirst m q : option (Z * gmap Z N * dq_queue_s) :=
  let ret := dq_head q in
  if ret =? NULL then Some (ret, m, q)
  else
    next ← dq_next m ret;
    '(m, q) ← (if next =? NULL then Some (m, mk_dq NULL NULL)
               else
                 m ← update m next (dq_set_blink NULL);
                 Some (m, mk_dq next (dq_tail q)));
    m ← update m ret (dq_set_flink NULL);
    m ← update m ret (dq_set_blink NULL);
    Some (ret, m, q).

Definition dq_remlast m q : option (Z * gmap Z N * dq_queue_s) :=
  let ret := dq_tail q in
  if ret =? NULL then Some (ret, m, q)
  else
    prev ← dq_prev m ret;
    '(m, q) ← (if prev =? NULL then Some (m, mk_dq NULL NULL)
               else
                 m ← update m prev (dq_set_flink NULL);
                 Some (m, mk_dq (dq_head q) prev));
    m ← update m ret (dq_set_flink NULL);
    m ← update m ret (dq_set_blink NULL);
    Some (ret, m, q).

Fixpoint dq_count_loop (fuel : nat) m (node count : Z) : option Z :=
  match fuel with
  | O => None
  | S fuel =>
      if node =? NULL then Some count
      else next ← dq_next m node; dq_count_loop fuel m next (u32 (count + 1))
  end.

Definition dq_count m q : option Z := dq_count_loop (S (size m)) m (dq_head q) 0.

Definition dq_cat m (queue1 queue2 : dq_queue_s) :
    option (gmap Z N * dq_queue_s * dq_queue_s) :=
  if dq_empty queue2 then
    let '(queue1, queue2) := dq_move queue1 queue2 in Some (m, queue1, queue2)
  else if negb (dq_empty queue1) then
    m ← update m (dq_tail queue2) (dq_set_flink (dq_head queue1));
    m ← update m (dq_head queue1) (dq_set_blink (dq_tail queue2));
    Some (m, dq_init, mk_dq (dq_head queue2) (dq_tail queue1))
  else Some (m, queue1, queue2).

End Ops.
End Dq.

(** ** Chains of links

    [chain g l e]: in the link map [g] the addresses [l] follow one another and
    the last one links to [e]. *)

Definition first (l : list Z) (e : Z) : Z := match l with [] => e | x :: _ => x end.

Fixpoint chain (g : gmap Z Z) (l : list Z) (e : Z) : Prop :=
  match l with
  | [] => True
  | x :: l => x ≠ NULL ∧ g !! x = Some (first l e) ∧ chain g l e
  end.

Lemma first_app l1 l2 e : first (l1 ++ l2) e = first l1 (first l2 e).
Proof. by destruct l1. Qed.

Lemma chain_app g l1 l2 e :
  chain g (l1 ++ l2) e ↔ chain g l1 (first l2 e) ∧ chain g l2 e.
Proof.
  induction l1 as [|x l1 IH]; simpl; [tauto|]. rewrite IH, first_app. tauto.
Qed.

Lemma chain_nonzero g l e x : chain g l e → x ∈ l → x ≠ NULL.
Proof.
  induction l as [|y l IH]; simpl; intros Hc Hx; [by apply not_elem_of_nil in Hx|].
  destruct Hc as (? & _ & ?). apply elem_of_cons in Hx as [->|?]; auto.
Qed.

Lemma chain_first_eq0 g l : chain g l NULL → (first l NULL =? NULL) = bool_decide (l = []).
Proof. destruct l; simpl; [done|]. intros [? _]. by apply Z.eqb_neq. Qed.

(** Links outside the chain do not matter. *)

Lemma chain_insert_ne g l e x v : x ∉ l → chain g l e → chain (<[x := v]> g) l e.
Proof.
  induction l as [|y l IH]; simpl; [done|]. intros Hx (? & ? & ?).
  apply not_elem_of_cons in Hx as [? ?]. rewrite lookup_insert_ne by done. auto.
Qed.

Lemma chain_ext g g' l e : (∀ x, x ∈ l → g' !! x = g !! x) → chain g l e → chain g' l e.
Proof.
  induction l as [|y l IH]; simpl; [done|]. intros Hx (? & ? & ?).
  rewrite (Hx y) by set_solver. split_and!; auto. apply IH; [|done]. set_solver.
Qed.

(** Cutting a chain open after its last element. *)

Lemma chain_set_last g l x e v :
  x ∉ l → chain g (l ++ [x]) e → chain (<[x := v]> g) (l ++ [x]) v.
Proof.
  rewrite !chain_app. simpl. intros Hx (Hl & ? & ? & _).
  rewrite lookup_insert_eq. split_and!; auto. by apply chain_insert_ne.
Qed.

Lemma chain_cons g l e x :
  x ≠ NULL → x ∉ l → chain g l e → chain (<[x := first l e]> g) (x :: l) e.
Proof. intros. simpl. rewrite lookup_insert_eq. auto using chain_insert_ne. Qed.

(** Inserting [x] behind [y], and taking it out again. *)

Lemma chain_insert_after g l1 y l2 e x :
  x ≠ NULL → NoDup (l1 ++ y :: x :: l2) → chain g (l1 ++ y :: l2) e →
  chain (<[y := x]> (<[x := first l2 e]> g)) (l1 ++ y :: x :: l2) e.
Proof.
  intros Hx Hnd. rewrite !chain_app. simpl. intros (H1 & Hy & Hgy & H2).
  apply NoDup_app in Hnd as (_ & Hd1 & Hnd). rewrite !NoDup_cons in Hnd.
  destruct Hnd as (Hyx & Hxl & _). apply not_elem_of_cons in Hyx as [? ?].
  rewrite lookup_insert_eq, lookup_insert_ne, lookup_insert_eq by done.
  split_and!; auto; repeat apply chain_insert_ne; auto; intros Hin; apply Hd1 in Hin; set_solver.
Qed.

Lemma chain_remove_after g l1 y x l2 e :
  NoDup (l1 ++ y :: x :: l2) → chain g (l1 ++ y :: x :: l2) e →
  chain (<[y := first l2 e]> g) (l1 ++ y :: l2) e.
Proof.
  intros Hnd. rewrite !chain_app. simpl. intros (H1 & Hy & Hgy & Hx & Hgx & H2).
  apply NoDup_app in Hnd as (_ & Hd1 & Hnd). rewrite !NoDup_cons in Hnd.
  destruct Hnd as (Hyx & Hxl & _). apply not_elem_of_cons in Hyx as [? ?].
  rewrite lookup_insert_eq. split_and!; auto; apply chain_insert_ne; auto.
  intros Hin; apply Hd1 in Hin; set_solver.
Qed.

Lemma chain_dom g l e : chain g l e → ∀ x, x ∈ l → x ∈ dom g.
Proof.
  induction l as [|y l IH]; simpl; intros Hc x Hx; [by apply not_elem_of_nil in Hx|].
  destruct Hc as (_ & ? & ?). apply elem_of_cons in Hx as [->|?]; [|by apply IH].
  by eapply elem_of_dom_2.
Qed.

(** A chain without repetitions is no longer than the store is large, which is
    the fuel of the loops. *)

Lemma chain_length g l e : NoDup l → chain g l e → (length l ≤ size g)%nat.
Proof.
  intros Hnd Hc. rewrite <- size_dom. rewrite <- (size_list_to_set (C := gset Z)) by done.
  apply subseteq_size. intros x Hx%elem_of_list_to_set. by eapply chain_dom.
Qed.

(** The first and the last element of a list. *)

Lemma filter_ne_id (l : list Z) x : x ∉ l → filter (.≠ x) l = l.
Proof.
  induction l as [|y l IH]; [done|]. intros [? ?]%not_elem_of_cons.
  rewrite filter_cons_True by done. by rewrite IH.
Qed.

Lemma filter_ne_mid (l1 l2 : list Z) x :
  NoDup (l1 ++ x :: l2) → filter (.≠ x) (l1 ++ x :: l2) = l1 ++ l2.
Proof.
  intros (_ & Hd & [Hx _]%NoDup_cons)%NoDup_app. rewrite filter_app, filter_cons_False by auto.
  rewrite !filter_ne_id; [done..|]. intros Hin. apply (Hd x Hin). set_solver.
Qed.

Lemma last_mid (l1 l2 : list Z) y e : first (reverse (l1 ++ y :: l2)) e = first (reverse l2) y.
Proof. by rewrite reverse_app, reverse_cons, <- app_assoc, first_app. Qed.

Lemma first_rev_cons (l : list Z) x e e' :
  l ≠ [] → first (reverse (x :: l)) e = first (reverse l) e'.
Proof.
  intros Hl. rewrite reverse_cons, first_app.
  destruct l as [|y l _] using rev_ind; [done|]. by rewrite reverse_snoc.
Qed.

Lemma first_any (l : list Z) e e' : l ≠ [] → first l e = first l e'.
Proof. by destruct l. Qed.

Lemma last_any (l : list Z) e e' : l ≠ [] → first (reverse l) e = first (reverse l) e'.
Proof.
  intros Hl. apply first_any. intros E. apply Hl.
  by rewrite <- (reverse_involutive l), E.
Qed.

Lemma first_ne (l1 l2 : list Z) x y : NoDup (l1 ++ y :: x :: l2) → first l1 y ≠ x.
Proof.
  destruct l1 as [|z l1]; simpl; intros [Hnin _]%NoDup_cons ->; apply Hnin; set_solver.
Qed.

Lemma NoDup_reverse (l : list Z) : NoDup l → NoDup (reverse l).
Proof. by rewrite reverse_Permutation. Qed.

(** Taking [x] out of a chain: its predecessor, when there is one, is relinked. *)

Definition relink (r : list Z) (v : Z) (g : gmap Z Z) : gmap Z Z :=
  match r with [] => g | p :: _ => <[p := v]> g end.

Lemma chain_unlink g l1 x l2 e :
  NoDup (l1 ++ x :: l2) → chain g (l1 ++ x :: l2) e →
  chain (relink (reverse l1) (first l2 e) g) (l1 ++ l2) e.
Proof.
  destruct l1 as [|p l1 _] using rev_ind.
  - intros _ (_ & _ & ?). done.
  - rewrite reverse_snoc, <- !app_assoc. apply chain_remove_after.
Qed.

Lemma NoDup_mid (l1 l2 : list Z) x :
  NoDup (l1 ++ x :: l2) → (x ∉ l1 ++ l2) ∧ NoDup (l1 ++ l2).
Proof. rewrite <- Permutation_middle. apply NoDup_cons. Qed.
