(* ===== verification/QueueSq.v ===== *)
(** * Singly linked queues represent lists

    [sq_rep m q l]: the queue [q] holds the nodes [l], in order.  Every routine
    of libs/libc/queue/sq_*.c is shown to do to [l] what it promises, and to
    touch nothing but link fields of the nodes concerned. *)

From S2P Require Import Prelude.
From S2P Require Import Queue.

Module SqSpec.
Import Sq.
Section Theory.
Context {N : Type} `{SqEntry N}.
Implicit Types (m : gmap Z N) (q : sq_queue_s) (l : list Z).

Definition links m : gmap Z Z := sq_flink <$> m.

Record sq_rep m q l : Prop := {
  rep_head : sq_head q = first l NULL;
  rep_tail : sq_tail q = first (reverse l) NULL;
  rep_chain : chain (links m) l NULL;
  rep_nodup : NoDup l
}.

(** [changed s m m']: only links of nodes in [s] differ. *)

Definition changed (s : gset Z) m m' : Prop :=
  sq_set_flink NULL <$> m' = sq_set_flink NULL <$> m ∧
  ∀ x, x ∉ s → m' !! x = m !! x.

Lemma sq_changed_refl s m : changed s m m.
Proof. done. Qed.

Lemma sq_changed_trans s s1 s2 m m1 m2 :
  changed s1 m m1 → changed s2 m1 m2 → s1 ∪ s2 ⊆ s → changed s m m2.
Proof.
  intros [Hp1 Hx1] [Hp2 Hx2] Hs. split; [congruence|].
  intros x Hx. rewrite Hx2, Hx1 by set_solver. done.
Qed.

Lemma sq_changed_mono s s1 m m1 : changed s1 m m1 → s1 ⊆ s → changed s m m1.
Proof. intros [? Hx] Hs. split; [done|]. intros x ?. apply Hx. set_solver. Qed.

Lemma sq_changed_dom s m m' : changed s m m' → dom m' = dom m.
Proof.
  intros [Hp _]. rewrite <- (dom_fmap_L (sq_set_flink NULL) m), <- Hp. symmetry.
  apply dom_fmap_L.
Qed.

Lemma changed_size s m m' : changed s m m' → size m' = size m.
Proof. intros Hc. rewrite <- !size_dom. by rewrite (sq_changed_dom _ _ _ Hc). Qed.

Lemma lookup_links m x : links m !! x = sq_flink <$> m !! x.
Proof. apply lookup_fmap. Qed.

Lemma elem_of_links m x : x ∈ dom m ↔ is_Some (links m !! x).
Proof. by rewrite lookup_links, fmap_is_Some, elem_of_dom. Qed.

Lemma size_links m : size (links m) = size m.
Proof. apply map_size_fmap. Qed.

Lemma sq_next_spec m x v : x ≠ NULL → links m !! x = Some v → sq_next m x = Some v.
Proof.
  rewrite lookup_links. unfold sq_next, deref. intros Hx Hl.
  rewrite (proj2 (Z.eqb_neq _ _) Hx). destruct (m !! x); simpl in *; congruence.
Qed.

(** One assignment to a link field. *)

Lemma update_spec m x v :
  x ≠ NULL → x ∈ dom m →
  ∃ m', update m x (sq_set_flink v) = Some m' ∧ links m' = <[x := v]> (links m) ∧
    changed {[x]} m m'.
Proof.
  intros Hx [n Hn]%elem_of_dom. unfold update, deref.
  rewrite (proj2 (Z.eqb_neq _ _) Hx), Hn. simpl. eexists. split_and!; [done| |split].
  - unfold links. by rewrite fmap_insert, sq_flink_set.
  - rewrite fmap_insert, sq_set_set. apply insert_id. by rewrite lookup_fmap, Hn.
  - intros y Hy. apply lookup_insert_ne. set_solver.
Qed.

Lemma sq_rep_dom m q l x : sq_rep m q l → x ∈ l → x ∈ dom m.
Proof.
  intros Hr Hx. apply elem_of_links, elem_of_dom.
  eapply chain_dom; [apply (rep_chain _ _ _ Hr)|done].
Qed.

Lemma sq_rep_nonzero m q l x : sq_rep m q l → x ∈ l → x ≠ NULL.
Proof. intros Hr. apply (chain_nonzero _ _ _ _ (rep_chain _ _ _ Hr)). Qed.

Lemma sq_rep_head0 m q l : sq_rep m q l → (sq_head q =? NULL) = bool_decide (l = []).
Proof. intros Hr. rewrite (rep_head _ _ _ Hr). eapply chain_first_eq0, Hr. Qed.

Lemma sq_rep_length m q l : sq_rep m q l → (length l ≤ size m)%nat.
Proof.
  intros Hr. rewrite <- size_links. eapply chain_length; apply Hr.
Qed.

(** [assign]: perform the next assignment to a link field. *)

Ltac assign m' :=
  match goal with
  | |- context [update ?m ?x (sq_set_flink ?v)] =>
      let Hl := fresh "Hl" in let Hc := fresh "Hc" in
      destruct (update_spec m x v) as (m' & -> & Hl & Hc);
      [|erewrite ?sq_changed_dom by eassumption|cbn [mbind option_bind]]
  end.

Lemma sq_addfirst_spec m q l x :
  sq_rep m q l → x ≠ NULL → x ∈ dom m → x ∉ l →
  ∃ m' q', sq_addfirst m x q = Some (m', q') ∧ sq_rep m' q' (x :: l) ∧ changed {[x]} m m'.
Proof.
  intros Hr Hx Hd Hnl. unfold sq_addfirst. rewrite (sq_rep_head0 _ _ _ Hr). assign m1; [done..|].
  do 2 eexists. split_and!; [done| |done]. constructor; simpl.
  - done.
  - rewrite reverse_cons, first_app. case_bool_decide; [by subst|].
    rewrite (rep_tail _ _ _ Hr). destruct (reverse l) eqn:E; [|done].
    by apply (f_equal reverse) in E; rewrite reverse_involutive in E.
  - rewrite Hl, (rep_head _ _ _ Hr). apply chain_cons; [done..|apply Hr].
  - apply NoDup_cons. split; [done|apply Hr].
Qed.

Lemma sq_addlast_spec m q l x :
  sq_rep m q l → x ≠ NULL → x ∈ dom m → x ∉ l →
  ∃ m' q', sq_addlast m x q = Some (m', q') ∧ sq_rep m' q' (l ++ [x]) ∧
    changed ({[x]} ∪ list_to_set l) m m'.
Proof.
  intros Hr Hx Hd Hnl. unfold sq_addlast. rewrite (sq_rep_head0 _ _ _ Hr). assign m1; [done..|].
  destruct l as [|y l _] using rev_ind; case_bool_decide.
  - do 2 eexists. split_and!; [done| |eapply sq_changed_mono; [done|set_solver]].
    constructor; simpl; [done..| |apply NoDup_singleton].
    rewrite Hl, lookup_insert_eq. done.
  - done.
  - by destruct l.
  - assert (Ht : sq_tail q = y) by (by rewrite (rep_tail _ _ _ Hr), reverse_snoc).
    rewrite Ht. assign m2.
    { apply (sq_rep_nonzero _ _ _ y Hr). set_solver. }
    { apply (sq_rep_dom _ _ _ y Hr). set_solver. }
    do 2 eexists. split_and!; [done| |eapply sq_changed_trans; [done..|set_solver]].
    assert (Hnd : NoDup (l ++ y :: [x])).
    { pose proof (rep_nodup _ _ _ Hr). rewrite (cons_middle y l [x]), app_assoc.
      apply NoDup_app. split_and!; [done|set_solver|apply NoDup_singleton]. }
    rewrite <- app_assoc. simpl. constructor; simpl; [| | |done].
    + rewrite (rep_head _ _ _ Hr), !first_app. done.
    + by rewrite (cons_middle y l [x]), app_assoc, reverse_snoc.
    + rewrite Hl0, Hl. by apply (chain_insert_after _ _ _ []), Hr.
Qed.

(** Where the tail is in the list. *)

Lemma sq_rep_tail_mid m q l1 y l2 :
  sq_rep m q (l1 ++ y :: l2) → (y =? sq_tail q) = bool_decide (l2 = []).
Proof.
  intros Hr. rewrite (rep_tail _ _ _ Hr), last_mid. case_bool_decide; [subst; apply Z.eqb_refl|].
  apply Z.eqb_neq. pose proof (rep_nodup _ _ _ Hr) as (_ & _ & [Hy _]%NoDup_cons)%NoDup_app.
  destruct l2 as [|z l2 _] using rev_ind; [done|]. rewrite reverse_snoc. simpl. set_solver.
Qed.

Lemma sq_addafter_spec m q l1 y l2 x :
  sq_rep m q (l1 ++ y :: l2) → x ≠ NULL → x ∈ dom m → x ∉ l1 ++ y :: l2 →
  ∃ m' q', sq_addafter m y x q = Some (m', q') ∧ sq_rep m' q' (l1 ++ y :: x :: l2) ∧
    changed ({[x]} ∪ list_to_set (l1 ++ y :: l2)) m m'.
Proof.
  intros Hr Hx Hd Hnl. unfold sq_addafter.
  rewrite (sq_rep_tail_mid _ _ _ _ _ Hr), (sq_rep_head0 _ _ _ Hr).
  rewrite bool_decide_eq_false_2 by (by destruct l1). simpl. case_bool_decide; subst.
  { destruct (sq_addlast_spec m q (l1 ++ [y]) x) as (m' & q' & ? & ? & ?); [done..|].
    exists m', q'. by rewrite <- app_assoc in *. }
  pose proof (rep_chain _ _ _ Hr) as Hch. apply chain_app in Hch as (_ & Hy & Hgy & _).
  rewrite (sq_next_spec _ _ _ Hy Hgy). cbn [mbind option_bind]. assign m1; [done..|].
  assign m2; [done|apply (sq_rep_dom _ _ _ y Hr); set_solver|].
  do 2 eexists. split_and!; [done| |eapply sq_changed_trans; [done..|set_solver]].
  assert (Hnd : NoDup (l1 ++ y :: x :: l2)).
  { pose proof (rep_nodup _ _ _ Hr). rewrite (Permutation_swap x y), <- Permutation_middle.
    apply NoDup_cons. split; [set_solver|done]. }
  constructor; [| | |done].
  - rewrite (rep_head _ _ _ Hr), !first_app. done.
  - rewrite (rep_tail _ _ _ Hr), !last_mid. by erewrite first_rev_cons.
  - rewrite Hl0, Hl. by apply chain_insert_after, Hr.
Qed.

Lemma sq_remfirst_spec m q x l :
  sq_rep m q (x :: l) →
  ∃ m' q', sq_remfirst m q = Some (x, m', q') ∧ sq_rep m' q' l ∧ changed {[x]} m m'.
Proof.
  intros Hr. unfold sq_remfirst. rewrite (sq_rep_head0 _ _ _ Hr), (rep_head _ _ _ Hr). simpl.
  pose proof (rep_chain _ _ _ Hr) as (Hx & Hgx & Hch).
  rewrite (sq_next_spec _ _ _ Hx Hgx). cbn [mbind option_bind].
  assign m1; [done|apply (sq_rep_dom _ _ _ x Hr); set_solver|].
  pose proof (rep_nodup _ _ _ Hr) as [Hnx Hnd]%NoDup_cons.
  do 2 eexists. split_and!; [done| |done]. constructor; simpl; [done| | |done].
  - rewrite (chain_first_eq0 _ _ Hch). case_bool_decide; [by subst|].
    rewrite (rep_tail _ _ _ Hr). by apply first_rev_cons.
  - rewrite Hl. by apply chain_insert_ne.
Qed.

Lemma remafter_spec m q l1 y x l2 :
  sq_rep m q (l1 ++ y :: x :: l2) →
  ∃ m' q', sq_remafter m y q = Some (x, m', q') ∧ sq_rep m' q' (l1 ++ y :: l2) ∧
    changed {[y; x]} m m'.
Proof.
  intros Hr. unfold sq_remafter. pose proof (rep_chain _ _ _ Hr) as Hch.
  pose proof (rep_nodup _ _ _ Hr) as Hnd. pose proof Hch as (_ & Hy & Hgy & Hx & Hgx & Hc2)%chain_app.
  rewrite (sq_next_spec _ _ _ Hy Hgy). cbn [mbind option_bind].
  rewrite (sq_rep_head0 _ _ _ Hr), bool_decide_eq_false_2 by (by destruct l1).
  replace (first (x :: l2) NULL =? NULL) with false by (symmetry; by apply Z.eqb_neq). simpl.
  assert (Ht : (sq_tail q =? x) = bool_decide (l2 = [])).
  { rewrite Z.eqb_sym. apply (sq_rep_tail_mid m q (l1 ++ [y]) x l2). by rewrite <- app_assoc. }
  assert (∃ m1 q1, (if sq_tail q =? x then
      m ← update m y (sq_set_flink NULL); Some (m, mk_sq (sq_head q) y)
    else (next ← sq_next m x; m ← update m y (sq_set_flink next); Some (m, q))) = Some (m1, q1) ∧
    q1 = mk_sq (sq_head q) (first (reverse l2) y) ∧
    links m1 = <[y := first l2 NULL]> (links m) ∧ changed {[y]} m m1)
    as (m1 & q1 & -> & -> & Hl1 & Hc1).
  { rewrite Ht. case_bool_decide; subst.
    - assign m1; [done|apply (sq_rep_dom _ _ _ y Hr); set_solver|]. by do 2 eexists.
    - rewrite (sq_next_spec _ _ _ Hx Hgx). cbn [mbind option_bind].
      assign m1; [done|apply (sq_rep_dom _ _ _ y Hr); set_solver|]. do 2 eexists. split_and!; [done| |done..].
      destruct q as [h t]. simpl. f_equal. pose proof (rep_tail _ _ _ Hr) as Htl. simpl in Htl.
      rewrite Htl, last_mid. by apply first_rev_cons. }
  cbn [mbind option_bind].
  assign m2; [done|apply (sq_rep_dom _ _ _ x Hr); set_solver|].
  do 2 eexists. split_and!; [done| |eapply sq_changed_trans; [done..|set_solver]].
  assert (Hnd' : (x ∉ l1 ++ y :: l2) ∧ NoDup (l1 ++ y :: l2)).
  { rewrite (Permutation_swap x y), <- Permutation_middle in Hnd. by apply NoDup_cons in Hnd. }
  constructor; simpl; [| | |apply Hnd'].
  - rewrite (rep_head _ _ _ Hr), !first_app. done.
  - by rewrite last_mid.
  - rewrite Hl, Hl1. apply chain_insert_ne; [apply Hnd'|]. by eapply chain_remove_after.
Qed.

(** The search for the predecessor. *)

Lemma find_prev_step fuel m prev node :
  prev ≠ NULL →
  sq_find_prev (S fuel) m prev node =
    (next ← sq_next m prev; if next =? node then Some prev else sq_find_prev fuel m next node).
Proof. intros Hp. simpl. unfold sq_find_prev at 1. by rewrite (proj2 (Z.eqb_neq _ _) Hp). Qed.

Lemma find_prev_hit m l1 y x l2 fuel :
  chain (links m) (l1 ++ y :: x :: l2) NULL → NoDup (l1 ++ y :: x :: l2) →
  (length (l1 ++ y :: x :: l2) ≤ fuel)%nat →
  sq_find_prev (S fuel) m (first l1 y) x = Some y.
Proof.
  revert fuel. induction l1 as [|z l1 IH]; intros fuel Hc Hnd Hf; simpl in Hc, Hnd, Hf; cbn [first].
  - destruct Hc as (Hy & Hgy & _). rewrite find_prev_step, (sq_next_spec _ _ _ Hy Hgy) by done.
    simpl. by rewrite Z.eqb_refl.
  - destruct Hc as (Hz & Hgz & Hc). rewrite find_prev_step, (sq_next_spec _ _ _ Hz Hgz) by done.
    cbn [mbind option_bind]. rewrite first_app. cbn [first].
    apply NoDup_cons in Hnd as [_ Hnd]. replace (first l1 y =? x) with false.
    + destruct fuel as [|fuel]; [lia|]. apply IH; [done..|lia].
    + symmetry. apply Z.eqb_neq. by eapply first_ne.
Qed.

Lemma find_prev_miss m x l : ∀ fuel,
  chain (links m) l NULL → x ≠ NULL → x ∉ tail l → (length l ≤ fuel)%nat →
  sq_find_prev (S fuel) m (first l NULL) x = Some NULL.
Proof.
  induction l as [|z l IH]; intros fuel Hc Hx Hnx Hf; [done|]. simpl in Hf, Hnx.
  destruct Hc as (Hz & Hgz & Hc). cbn [first].
  rewrite find_prev_step, (sq_next_spec _ _ _ Hz Hgz) by done. cbn [mbind option_bind].
  replace (first l NULL =? x) with false.
  - destruct fuel as [|fuel]; [lia|]. apply IH; [done..| |lia]. by destruct l; set_solver.
  - symmetry. apply Z.eqb_neq. destruct l; simpl in *; set_solver.
Qed.

Lemma sq_rem_spec m q l x :
  sq_rep m q l →
  ∃ m' q', sq_rem m x q = Some (m', q') ∧ sq_rep m' q' (filter (.≠ x) l) ∧
    changed (list_to_set l) m m'.
Proof.
  intros Hr. unfold sq_rem. rewrite (sq_rep_head0 _ _ _ Hr).
  destruct (decide (x = NULL)) as [->|Hx].
  { rewrite andb_false_r. exists m, q. rewrite filter_ne_id; [done|].
    intros Hin. by apply (sq_rep_nonzero _ _ _ _ Hr) in Hin. }
  rewrite (proj2 (Z.eqb_neq _ _) Hx), andb_true_r. case_bool_decide as Hnil; [by subst; exists m, q|].
  cbn [negb]. rewrite (rep_head _ _ _ Hr). pose proof (rep_nodup _ _ _ Hr) as Hnd.
  pose proof (sq_rep_length _ _ _ Hr) as Hlen. pose proof (rep_chain _ _ _ Hr) as Hch.
  destruct (decide (x = first l NULL)) as [Hxf|Hne].
  - rewrite Hxf, Z.eqb_refl. destruct l as [|y l]; [done|]. simpl in *. subst y.
    destruct Hch as (_ & Hgx & Hch). rewrite (sq_next_spec _ _ _ Hx Hgx). simpl.
    do 2 eexists. split_and!; [done| |done]. apply NoDup_cons in Hnd as [Hnx Hnd].
    rewrite filter_cons_False, filter_ne_id by auto. constructor; simpl; [done| |done..].
    rewrite (sq_rep_tail_mid m q [] x l Hr). case_bool_decide; [by subst|].
    rewrite (rep_tail _ _ _ Hr). by apply first_rev_cons.
  - rewrite (proj2 (Z.eqb_neq _ _) Hne). destruct (decide (x ∈ l)) as [Hin|Hnin].
    + apply list_elem_of_split in Hin as (l1 & l2 & ->).
      destruct l1 as [|y l1 _] using rev_ind; [done|]. rewrite <- app_assoc in *. simpl in *.
      rewrite first_app. cbn [first]. rewrite find_prev_hit with (1 := Hch) by done.
      cbn [mbind option_bind]. apply chain_app in Hch as (_ & Hy & _).
      rewrite (proj2 (Z.eqb_neq _ _) Hy).
      destruct (remafter_spec _ _ _ _ _ _ Hr) as (m' & q' & -> & Hr' & Hc').
      exists m', q'. split_and!; [done| |eapply sq_changed_mono; [done|set_solver]].
      rewrite (cons_middle y), app_assoc, filter_ne_mid, <- app_assoc; [done|].
      by rewrite <- app_assoc.
    + rewrite find_prev_miss by (done || by destruct l; set_solver).
      simpl. exists m, q. by rewrite filter_ne_id.
Qed.

Lemma sq_remlast_spec m q l x :
  sq_rep m q (l ++ [x]) →
  ∃ m' q', sq_remlast m q = Some (x, m', q') ∧ sq_rep m' q' l ∧
    changed (list_to_set (l ++ [x])) m m'.
Proof.
  intros Hr. pose proof (sq_rep_nonzero _ _ _ x Hr ltac:(set_solver)) as Hx.
  pose proof (sq_rep_dom _ _ _ x Hr ltac:(set_solver)) as Hd.
  pose proof (rep_nodup _ _ _ Hr) as Hnd. pose proof (rep_chain _ _ _ Hr) as Hch.
  pose proof (sq_rep_length _ _ _ Hr) as Hlen.
  unfold sq_remlast. rewrite (rep_tail _ _ _ Hr), reverse_snoc. cbn [first].
  rewrite (proj2 (Z.eqb_neq _ _) Hx), (rep_head _ _ _ Hr), first_app. cbn [first].
  destruct l as [|y l _] using rev_ind; simpl.
  { rewrite Z.eqb_refl. cbn [mbind option_bind]. assign m1; [done..|].
    do 2 eexists. split_and!; [done|by constructor; try apply NoDup_nil|].
    eapply sq_changed_mono; [done|set_solver]. }
  rewrite <- app_assoc in *. simpl in *. rewrite first_app. cbn [first].
  replace (first l y =? x) with false.
  2: { symmetry. apply Z.eqb_neq. by eapply first_ne. }
  rewrite find_prev_hit with (1 := Hch) by done. cbn [mbind option_bind].
  pose proof Hch as (_ & Hy & _)%chain_app. rewrite (proj2 (Z.eqb_neq _ _) Hy).
  assign m1; [done|apply (sq_rep_dom _ _ _ y Hr); set_solver|]. assign m2; [done..|].
  do 2 eexists. split_and!; [done| |eapply sq_changed_trans; [done..|set_solver]].
  apply (chain_remove_after _ _ _ _ [] _ Hnd) in Hch. rewrite cons_middle, app_assoc in Hnd.
  apply NoDup_app in Hnd as (Hnd & Hdis & _). constructor; simpl; [| | |done].
  - by rewrite first_app.
  - by rewrite reverse_snoc.
  - rewrite Hl0, Hl. apply chain_insert_ne; [|done]. intros Hin%Hdis. set_solver.
Qed.

Lemma sq_count_spec m q l : sq_rep m q l → Z.of_nat (size m) < 2 ^ 32 →
  sq_count m q = Some (Z.of_nat (length l)).
Proof.
  intros Hr Hsz. unfold sq_count. rewrite (rep_head _ _ _ Hr).
  pose proof (sq_rep_length _ _ _ Hr) as Hlen. pose proof (rep_chain _ _ _ Hr) as Hch. clear Hr.
  assert (Hgen : ∀ fuel c, (length l ≤ fuel)%nat → 0 ≤ c → c + Z.of_nat (length l) < 2 ^ 32 →
    sq_count_loop (S fuel) m (first l NULL) c = Some (c + Z.of_nat (length l))).
  { clear Hlen. induction l as [|x l IH]; intros fuel c Hf Hc Hlt; simpl in Hf, Hlt, Hch.
    - simpl. f_equal. lia.
    - destruct Hch as (Hx & Hgx & Hch). cbn [sq_count_loop first length].
      rewrite (proj2 (Z.eqb_neq _ _) Hx), (sq_next_spec _ _ _ Hx Hgx).
      destruct fuel as [|fuel]; [lia|]. cbn [mbind option_bind].
      rewrite IH, u32_small by (done || rewrite ?u32_small; lia). f_equal. lia. }
  apply (Hgen (size m) 0); lia.
Qed.

Lemma sq_cat_spec m q1 q2 l1 l2 :
  sq_rep m q1 l1 → sq_rep m q2 l2 → (∀ x, x ∈ l1 → x ∉ l2) →
  ∃ m' q1' q2', sq_cat m q1 q2 = Some (m', q1', q2') ∧
    sq_rep m' q1' [] ∧ sq_rep m' q2' (l2 ++ l1) ∧ changed (list_to_set l2) m m'.
Proof.
  intros Hr1 Hr2 Hdis. unfold sq_cat, sq_empty. rewrite (sq_rep_head0 _ _ _ Hr1), (sq_rep_head0 _ _ _ Hr2).
  assert (Hemp : ∀ m', sq_rep m' (mk_sq NULL NULL) []) by (constructor; simpl; auto using NoDup_nil_2).
  case_bool_decide as H2; subst.
  { simpl. do 3 eexists. split_and!; [done|auto| |done]. by destruct q1, Hr1; constructor. }
  case_bool_decide as H1; subst; simpl.
  { do 3 eexists. rewrite app_nil_r. by split_and!. }
  destruct l2 as [|y l2 _] using rev_ind; [done|]. clear H2.
  assert (Ht : sq_tail q2 = y) by (by rewrite (rep_tail _ _ _ Hr2), reverse_snoc). rewrite Ht.
  assign m1; [apply (sq_rep_nonzero _ _ _ y Hr2); set_solver|apply (sq_rep_dom _ _ _ y Hr2); set_solver|].
  do 3 eexists. split_and!; [done|apply Hemp| |eapply sq_changed_mono; [done|set_solver]].
  pose proof (rep_nodup _ _ _ Hr2) as Hnd2. constructor; simpl.
  - rewrite (rep_head _ _ _ Hr2), !first_app. done.
  - rewrite (rep_tail _ _ _ Hr1), reverse_app.
    destruct l1 as [|z l1 _] using rev_ind; [done|]. by rewrite reverse_snoc.
  - rewrite Hl, (rep_head _ _ _ Hr1). apply chain_app. split.
    + apply (chain_set_last _ _ _ NULL); [|apply Hr2].
      apply NoDup_app in Hnd2 as (_ & Hd & _). intros Hin%Hd. set_solver.
    + apply chain_insert_ne; [|apply Hr1]. intros Hin%Hdis. set_solver.
  - apply NoDup_app. split_and!; [done|set_solver|apply Hr1].
Qed.
Lemma sq_rep_frame s m m' q l :
  sq_rep m q l → changed s m m' → (∀ x, x ∈ l → x ∉ s) → sq_rep m' q l.
Proof.
  intros [] [_ Ho] Hs. constructor; try done. eapply chain_ext; [|done].
  intros x Hx. unfold links. rewrite !lookup_fmap, Ho by auto. done.
Qed.

Lemma remafter_last m q l y :
  sq_rep m q (l ++ [y]) → sq_remafter m y q = Some (NULL, m, q).
Proof.
  intros Hr. pose proof (rep_chain _ _ _ Hr) as (_ & Hy & Hgy & _)%chain_app.
  unfold sq_remafter. rewrite (sq_next_spec _ _ _ Hy Hgy). simpl. by rewrite andb_false_r.
Qed.

Lemma sq_remfirst_empty m q : sq_rep m q [] → sq_remfirst m q = Some (NULL, m, q).
Proof. intros Hr. unfold sq_remfirst. by rewrite (rep_head _ _ _ Hr). Qed.

Lemma sq_remlast_empty m q : sq_rep m q [] → sq_remlast m q = Some (NULL, m, q).
Proof. intros Hr. unfold sq_remlast. by rewrite (rep_tail _ _ _ Hr). Qed.
End Theory.
End SqSpec.
