(* ===== verification/QueueDq.v ===== *)
(** * Doubly linked queues represent lists

    [dq_rep m q l]: the queue [q] holds the nodes [l]; the forward links chain
    [l] and the backward links chain its reverse.  Every routine of
    libs/libc/queue/dq_*.c is shown to do to [l] what it promises, and to touch
    nothing but link fields of the nodes concerned. *)

From S2P Require Import Prelude.
From S2P Require Import Queue.

Module DqSpec.
Import Dq.
Section Theory.
Context {N : Type} `{DqEntry N}.
Implicit Types (m : gmap Z N) (q : dq_queue_s) (l : list Z).

Definition flinks m : gmap Z Z := dq_flink <$> m.
Definition blinks m : gmap Z Z := dq_blink <$> m.

Record dq_rep m q l : Prop := {
  rep_head : dq_head q = first l NULL;
  rep_tail : dq_tail q = first (reverse l) NULL;
  rep_fchain : chain (flinks m) l NULL;
  rep_bchain : chain (blinks m) (reverse l) NULL;
  rep_nodup : NoDup l
}.

(** [changed s m m']: only links of nodes in [s] differ. *)

Definition payload (n : N) : N := dq_set_flink NULL (dq_set_blink NULL n).

Definition changed (s : gset Z) m m' : Prop :=
  payload <$> m' = payload <$> m ∧ ∀ x, x ∉ s → m' !! x = m !! x.

Lemma dq_changed_refl s m : changed s m m.
Proof. done. Qed.

Lemma dq_changed_mono s s1 m m1 : changed s1 m m1 → s1 ⊆ s → changed s m m1.
Proof. intros [? Hx] Hs. split; [done|]. intros x ?. apply Hx. set_solver. Qed.

Lemma dq_changed_dom s m m' : changed s m m' → dom m' = dom m.
Proof.
  intros [Hp _]. rewrite <- (dom_fmap_L payload m), <- Hp. symmetry. apply dom_fmap_L.
Qed.

Lemma changed_insert s m m0 x n n' :
  changed s m m0 → m0 !! x = Some n → payload n' = payload n → x ∈ s →
  changed s m (<[x := n']> m0).
Proof.
  intros [Hp Ho] Hx Hn Hs. split.
  - rewrite fmap_insert, Hn, <- Hp. apply insert_id. by rewrite lookup_fmap, Hx.
  - intros y Hy. rewrite lookup_insert_ne by set_solver. by apply Ho.
Qed.

(** One assignment to a link field, after others of the same routine. *)

Section Assign.
Context (s : gset Z) (m m0 : gmap Z N) (x v : Z).
Context (Hc : changed s m m0) (Hx : x ≠ NULL) (Hd : x ∈ dom m) (Hs : x ∈ s).

Lemma assign_flink :
  ∃ m', update m0 x (dq_set_flink v) = Some m' ∧ flinks m' = <[x := v]> (flinks m0) ∧
    blinks m' = blinks m0 ∧ changed s m m'.
Proof.
  rewrite <- (dq_changed_dom _ _ _ Hc) in Hd. apply elem_of_dom in Hd as [n Hn].
  unfold update, deref. rewrite (proj2 (Z.eqb_neq _ _) Hx), Hn. eexists. split_and!; [done|..].
  - unfold flinks. by rewrite fmap_insert, dq_flink_set.
  - unfold blinks. rewrite fmap_insert, dq_blink_set_flink. apply insert_id.
    by rewrite lookup_fmap, Hn.
  - eapply changed_insert; [done..| |done]. unfold payload.
    by rewrite dq_set_comm, dq_set_set_flink.
Qed.

Lemma assign_blink :
  ∃ m', update m0 x (dq_set_blink v) = Some m' ∧ flinks m' = flinks m0 ∧
    blinks m' = <[x := v]> (blinks m0) ∧ changed s m m'.
Proof.
  rewrite <- (dq_changed_dom _ _ _ Hc) in Hd. apply elem_of_dom in Hd as [n Hn].
  unfold update, deref. rewrite (proj2 (Z.eqb_neq _ _) Hx), Hn. eexists. split_and!; [done|..].
  - unfold flinks. rewrite fmap_insert, dq_flink_set_blink. apply insert_id.
    by rewrite lookup_fmap, Hn.
  - unfold blinks. by rewrite fmap_insert, dq_blink_set.
  - eapply changed_insert; [done..| |done]. unfold payload. by rewrite dq_set_set_blink.
Qed.
End Assign.

Lemma dq_next_spec m x v : x ≠ NULL → flinks m !! x = Some v → dq_next m x = Some v.
Proof.
  unfold flinks, dq_next, deref. rewrite lookup_fmap. intros Hx Hl.
  rewrite (proj2 (Z.eqb_neq _ _) Hx). destruct (m !! x); simpl in *; congruence.
Qed.

Lemma prev_spec m x v : x ≠ NULL → blinks m !! x = Some v → dq_prev m x = Some v.
Proof.
  unfold blinks, dq_prev, deref. rewrite lookup_fmap. intros Hx Hl.
  rewrite (proj2 (Z.eqb_neq _ _) Hx). destruct (m !! x); simpl in *; congruence.
Qed.

Lemma dq_rep_dom m q l x : dq_rep m q l → x ∈ l → x ∈ dom m.
Proof.
  intros Hr Hx. rewrite <- (dom_fmap_L dq_flink m).
  eapply chain_dom; [apply (rep_fchain _ _ _ Hr)|done].
Qed.

Lemma dq_rep_nonzero m q l x : dq_rep m q l → x ∈ l → x ≠ NULL.
Proof. intros Hr. apply (chain_nonzero _ _ _ _ (rep_fchain _ _ _ Hr)). Qed.

Lemma dq_rep_head0 m q l : dq_rep m q l → (dq_head q =? NULL) = bool_decide (l = []).
Proof. intros Hr. rewrite (rep_head _ _ _ Hr). eapply chain_first_eq0, Hr. Qed.

Lemma dq_rep_length m q l : dq_rep m q l → (length l ≤ size m)%nat.
Proof.
  intros Hr. rewrite <- (map_size_fmap dq_flink m). eapply chain_length; apply Hr.
Qed.

(** The forward and backward link of a node in the middle. *)

Lemma rep_mid m q l1 x l2 :
  dq_rep m q (l1 ++ x :: l2) →
  x ≠ NULL ∧ dq_next m x = Some (first l2 NULL) ∧
  dq_prev m x = Some (first (reverse l1) NULL).
Proof.
  intros Hr. pose proof (rep_fchain _ _ _ Hr) as (_ & Hx & Hf & _)%chain_app.
  pose proof (rep_bchain _ _ _ Hr) as Hb. rewrite reverse_app, reverse_cons, <- app_assoc in Hb.
  apply chain_app in Hb as (_ & _ & Hb & _).
  split_and!; auto using dq_next_spec, prev_spec.
Qed.

(** [assign m']: perform the next assignment; [Hc] tracks what has changed. *)

Ltac assign Hc m' :=
  match goal with
  | |- context [update ?m0 ?x (dq_set_flink ?v)] =>
      let Hf := fresh "Hf" in let Hb := fresh "Hb" in let Hc' := fresh "Hc" in
      destruct (assign_flink _ _ m0 x v Hc) as (m' & -> & Hf & Hb & Hc');
      [..|clear Hc; rename Hc' into Hc; cbn [mbind option_bind]]
  | |- context [update ?m0 ?x (dq_set_blink ?v)] =>
      let Hf := fresh "Hf" in let Hb := fresh "Hb" in let Hc' := fresh "Hc" in
      destruct (assign_blink _ _ m0 x v Hc) as (m' & -> & Hf & Hb & Hc');
      [..|clear Hc; rename Hc' into Hc; cbn [mbind option_bind]]
  end.

(** Rewrite the link maps of the final store to updates of the first one. *)

Ltac unroll := repeat match goal with
  | H : flinks ?m = _ |- context [flinks ?m] => rewrite H
  | H : blinks ?m = _ |- context [blinks ?m] => rewrite H
  end.

Lemma dq_addfirst_spec m q l x :
  dq_rep m q l → x ≠ NULL → x ∈ dom m → x ∉ l →
  ∃ m' q', dq_addfirst m x q = Some (m', q') ∧ dq_rep m' q' (x :: l) ∧
    changed ({[x]} ∪ list_to_set l) m m'.
Proof.
  intros Hr Hx Hd Hnl. set (s := {[x]} ∪ _). pose proof (dq_changed_refl s m) as Hc.
  unfold dq_addfirst. assign Hc m1; [done..|set_solver|]. assign Hc m2; [done..|set_solver|].
  rewrite (dq_rep_head0 _ _ _ Hr). pose proof (rep_nodup _ _ _ Hr). case_bool_decide as Hl.
  - subst l. do 2 eexists. split_and!; [done| |done].
    constructor; simpl; unroll; rewrite ?(rep_head _ _ _ Hr), ?lookup_insert_eq;
      auto using NoDup_singleton.
  - destruct l as [|y l]; [done|]. clear Hl. rewrite (rep_head _ _ _ Hr). cbn [first].
    assign Hc m3; [apply (dq_rep_nonzero _ _ _ y Hr); set_solver|
                   apply (dq_rep_dom _ _ _ y Hr); set_solver|set_solver|].
    do 2 eexists. split_and!; [done| |done].
    constructor; simpl; unroll.
    + done.
    + rewrite (rep_tail _ _ _ Hr). symmetry. by apply first_rev_cons.
    + rewrite (rep_head _ _ _ Hr). apply chain_cons; [done..|apply Hr].
    + pose proof (rep_bchain _ _ _ Hr) as Hch. rewrite !reverse_cons in *.
      rewrite <- app_assoc. simpl. apply (chain_insert_after _ _ _ []); [done| |done].
      rewrite cons_middle, app_assoc, <- reverse_cons, <- reverse_cons. apply NoDup_reverse.
      by apply NoDup_cons.
    + by apply NoDup_cons.
Qed.

Lemma dq_addlast_spec m q l x :
  dq_rep m q l → x ≠ NULL → x ∈ dom m → x ∉ l →
  ∃ m' q', dq_addlast m x q = Some (m', q') ∧ dq_rep m' q' (l ++ [x]) ∧
    changed ({[x]} ∪ list_to_set l) m m'.
Proof.
  intros Hr Hx Hd Hnl. set (s := {[x]} ∪ _). pose proof (dq_changed_refl s m) as Hc.
  unfold dq_addlast. assign Hc m1; [done..|set_solver|]. assign Hc m2; [done..|set_solver|].
  rewrite (dq_rep_head0 _ _ _ Hr). pose proof (rep_nodup _ _ _ Hr). case_bool_decide as Hl.
  - subst l. do 2 eexists. split_and!; [done| |done].
    constructor; simpl; unroll; rewrite ?(rep_tail _ _ _ Hr), ?lookup_insert_eq;
      auto using NoDup_singleton.
  - destruct l as [|y l _] using rev_ind; [done|]. clear Hl.
    assert (Ht : dq_tail q = y) by (by rewrite (rep_tail _ _ _ Hr), reverse_snoc).
    rewrite Ht. assign Hc m3; [apply (dq_rep_nonzero _ _ _ y Hr); set_solver|
                   apply (dq_rep_dom _ _ _ y Hr); set_solver|set_solver|].
    do 2 eexists. split_and!; [done| |done].
    assert (Hnd : NoDup ((l ++ [y]) ++ [x])).
    { apply NoDup_app. split_and!; [done|set_solver|apply NoDup_singleton]. }
    constructor; simpl; unroll.
    + rewrite (rep_head _ _ _ Hr), !first_app. done.
    + by rewrite reverse_snoc.
    + rewrite <- app_assoc in *. apply (chain_insert_after _ _ _ []); [done..|apply Hr].
    + rewrite Ht, (reverse_snoc _ x). replace y with (first (reverse (l ++ [y])) NULL) at 1
        by (by rewrite reverse_snoc). apply chain_cons; [done|by rewrite elem_of_reverse|apply Hr].
    + done.
Qed.

(** Where head and tail are in the list. *)

Lemma dq_rep_tail_mid m q l1 y l2 :
  dq_rep m q (l1 ++ y :: l2) → (y =? dq_tail q) = bool_decide (l2 = []).
Proof.
  intros Hr. rewrite (rep_tail _ _ _ Hr), last_mid. case_bool_decide; [subst; apply Z.eqb_refl|].
  apply Z.eqb_neq. pose proof (rep_nodup _ _ _ Hr) as (_ & _ & [Hy _]%NoDup_cons)%NoDup_app.
  destruct l2 as [|z l2 _] using rev_ind; [done|]. rewrite reverse_snoc. simpl. set_solver.
Qed.

Lemma rep_head_mid m q l1 y l2 :
  dq_rep m q (l1 ++ y :: l2) → (y =? dq_head q) = bool_decide (l1 = []).
Proof.
  intros Hr. rewrite (rep_head _ _ _ Hr), first_app. case_bool_decide; [subst; apply Z.eqb_refl|].
  apply Z.eqb_neq. pose proof (rep_nodup _ _ _ Hr) as (_ & Hd & _)%NoDup_app.
  destruct l1 as [|z l1]; [done|]. simpl. intros <-. apply (Hd y); set_solver.
Qed.

(** Both link maps when [x] goes between [y] and [z]. *)

Lemma rep_insert_between m m' q l1 y x z l2 :
  dq_rep m q (l1 ++ y :: z :: l2) → x ≠ NULL → x ∉ l1 ++ y :: z :: l2 →
  flinks m' = <[y := x]> (<[x := z]> (flinks m)) →
  blinks m' = <[z := x]> (<[x := y]> (blinks m)) →
  dq_rep m' q (l1 ++ y :: x :: z :: l2).
Proof.
  intros Hr Hx Hnl Hf Hb. pose proof (rep_nodup _ _ _ Hr) as Hnd.
  assert (Hnd' : NoDup (l1 ++ y :: x :: z :: l2)).
  { rewrite (Permutation_swap x y), <- Permutation_middle. by apply NoDup_cons. }
  assert (Hrev : reverse (l1 ++ y :: z :: l2) = reverse l2 ++ z :: y :: reverse l1).
  { rewrite reverse_app, !reverse_cons, <- !app_assoc. done. }
  assert (Hrev' : reverse (l1 ++ y :: x :: z :: l2) = reverse l2 ++ z :: x :: y :: reverse l1).
  { rewrite reverse_app, !reverse_cons, <- !app_assoc. done. }
  constructor; [| | | |done].
  - rewrite (rep_head _ _ _ Hr), !first_app. done.
  - rewrite (rep_tail _ _ _ Hr), Hrev, Hrev', !first_app. done.
  - rewrite Hf. apply (chain_insert_after _ _ _ (z :: l2)); [done..|apply Hr].
  - rewrite Hb, Hrev'. apply (chain_insert_after _ _ _ (y :: reverse l1)); [done| |].
    + rewrite <- Hrev'. by apply NoDup_reverse.
    + rewrite <- Hrev. apply Hr.
Qed.

Lemma dq_addafter_spec m q l1 y l2 x :
  dq_rep m q (l1 ++ y :: l2) → x ≠ NULL → x ∈ dom m → x ∉ l1 ++ y :: l2 →
  ∃ m' q', dq_addafter m y x q = Some (m', q') ∧ dq_rep m' q' (l1 ++ y :: x :: l2) ∧
    changed ({[x]} ∪ list_to_set (l1 ++ y :: l2)) m m'.
Proof.
  intros Hr Hx Hd Hnl. unfold dq_addafter.
  rewrite (dq_rep_tail_mid _ _ _ _ _ Hr), (dq_rep_head0 _ _ _ Hr).
  rewrite bool_decide_eq_false_2 by (by destruct l1). simpl. case_bool_decide as Hl2; subst.
  { destruct (dq_addlast_spec m q (l1 ++ [y]) x) as (m' & q' & ? & ? & ?); [done..|].
    exists m', q'. by rewrite <- app_assoc in *. }
  destruct (rep_mid _ _ _ _ _ Hr) as (Hy & -> & _). destruct l2 as [|z l2]; [done|].
  assert (Hz : z ≠ NULL) by (apply (dq_rep_nonzero _ _ _ z Hr); set_solver).
  cbn [mbind option_bind first]. set (s := {[x]} ∪ _). pose proof (dq_changed_refl s m) as Hc.
  assign Hc m1; [done..|set_solver|]. assign Hc m2; [done..|set_solver|].
  assign Hc m3; [done|apply (dq_rep_dom _ _ _ z Hr); set_solver|set_solver|].
  assign Hc m4; [done|apply (dq_rep_dom _ _ _ y Hr); set_solver|set_solver|].
  do 2 eexists. split_and!; [done| |done]. eapply rep_insert_between; [done..| |]; by unroll.
Qed.

Lemma addbefore_spec m q l1 y l2 x :
  dq_rep m q (l1 ++ y :: l2) → x ≠ NULL → x ∈ dom m → x ∉ l1 ++ y :: l2 →
  ∃ m' q', dq_addbefore m y x q = Some (m', q') ∧ dq_rep m' q' (l1 ++ x :: y :: l2) ∧
    changed ({[x]} ∪ list_to_set (l1 ++ y :: l2)) m m'.
Proof.
  intros Hr Hx Hd Hnl. unfold dq_addbefore.
  rewrite (rep_head_mid _ _ _ _ _ Hr), (dq_rep_head0 _ _ _ Hr).
  rewrite bool_decide_eq_false_2 by (by destruct l1). simpl. case_bool_decide as Hl1; subst.
  { by apply dq_addfirst_spec. }
  destruct (rep_mid _ _ _ _ _ Hr) as (Hy & _ & ->).
  destruct l1 as [|w l1 _] using rev_ind; [done|]. rewrite reverse_snoc.
  rewrite <- app_assoc in *. simpl in *.
  assert (Hw : w ≠ NULL) by (apply (dq_rep_nonzero _ _ _ w Hr); set_solver).
  set (s := {[x]} ∪ _). pose proof (dq_changed_refl s m) as Hc.
  assign Hc m1; [done..|set_solver|]. assign Hc m2; [done..|set_solver|].
  assign Hc m3; [done|apply (dq_rep_dom _ _ _ w Hr); set_solver|set_solver|].
  assign Hc m4; [done|apply (dq_rep_dom _ _ _ y Hr); set_solver|set_solver|].
  do 2 eexists. split_and!; [done| |done]. eapply rep_insert_between; [done..| |]; by unroll.
Qed.

(** The node [x] is out of both chains and its own links are cleared. *)

Lemma rep_unlink m m' q l1 x l2 h t :
  dq_rep m q (l1 ++ x :: l2) →
  flinks m' = <[x := NULL]> (relink (reverse l1) (first l2 NULL) (flinks m)) →
  blinks m' = <[x := NULL]> (relink l2 (first (reverse l1) NULL) (blinks m)) →
  h = first (l1 ++ l2) NULL → t = first (reverse (l1 ++ l2)) NULL →
  dq_rep m' (mk_dq h t) (l1 ++ l2).
Proof.
  intros Hr Hf Hb Hh Ht. pose proof (rep_nodup _ _ _ Hr) as Hnd.
  pose proof (NoDup_mid _ _ _ Hnd) as [Hx Hnd'].
  assert (Hrev : reverse (l1 ++ x :: l2) = reverse l2 ++ x :: reverse l1)
    by (by rewrite reverse_app, reverse_cons, <- app_assoc).
  constructor; [done|done| | |done].
  - rewrite Hf. apply chain_insert_ne; [done|]. eapply chain_unlink; [done|apply Hr].
  - rewrite Hb. apply chain_insert_ne; [by rewrite elem_of_reverse|].
    pose proof (chain_unlink (blinks m) (reverse l2) x (reverse l1) NULL) as Hu.
    rewrite reverse_involutive, <- Hrev, <- reverse_app in Hu.
    apply Hu; [by apply NoDup_reverse|apply Hr].
Qed.

Section Removal.
Context (m : gmap Z N) (q : dq_queue_s) (l1 : list Z) (x : Z) (l2 : list Z).
Context (Hr : dq_rep m q (l1 ++ x :: l2)).
Let s : gset Z := list_to_set (l1 ++ x :: l2).

(** The two halves of an unlinking: the forward link of the predecessor and the
    backward link of the successor. *)

Lemma unlink_prev m0 (q0 q1 : dq_queue_s) :
  changed s m m0 →
  ∃ m1, (if first (reverse l1) NULL =? NULL then Some (m0, q1)
         else m' ← update m0 (first (reverse l1) NULL) (dq_set_flink (first l2 NULL));
              Some (m', q0)) =
        Some (m1, if bool_decide (l1 = []) then q1 else q0) ∧
    flinks m1 = relink (reverse l1) (first l2 NULL) (flinks m0) ∧
    blinks m1 = blinks m0 ∧ changed s m m1.
Proof.
  intros Hc. destruct l1 as [|p l _] using rev_ind; [by exists m0|].
  rewrite reverse_snoc. cbn [first relink].
  assert (Hp : p ≠ NULL) by (apply (dq_rep_nonzero _ _ _ p Hr); set_solver).
  rewrite (proj2 (Z.eqb_neq _ _) Hp), bool_decide_eq_false_2 by (by destruct l).
  assign Hc m1; [done|apply (dq_rep_dom _ _ _ p Hr); set_solver|set_solver|]. by exists m1.
Qed.

Lemma unlink_next m0 (q0 q1 : dq_queue_s) :
  changed s m m0 →
  ∃ m1, (if first l2 NULL =? NULL then Some (m0, q1)
         else m' ← update m0 (first l2 NULL) (dq_set_blink (first (reverse l1) NULL));
              Some (m', q0)) =
        Some (m1, if bool_decide (l2 = []) then q1 else q0) ∧
    flinks m1 = flinks m0 ∧
    blinks m1 = relink l2 (first (reverse l1) NULL) (blinks m0) ∧ changed s m m1.
Proof.
  intros Hc. destruct l2 as [|z l]; [by exists m0|]. cbn [first relink].
  assert (Hz : z ≠ NULL) by (apply (dq_rep_nonzero _ _ _ z Hr); set_solver).
  rewrite (proj2 (Z.eqb_neq _ _) Hz), bool_decide_eq_false_2 by done.
  assign Hc m1; [done|apply (dq_rep_dom _ _ _ z Hr); set_solver|set_solver|]. by exists m1.
Qed.

Lemma dq_rem_spec :
  ∃ m' q', dq_rem m x q = Some (m', q') ∧ dq_rep m' q' (l1 ++ l2) ∧ changed s m m'.
Proof.
  destruct (rep_mid _ _ _ _ _ Hr) as (Hx & En & Ep). unfold dq_rem. rewrite Ep, En.
  cbn [mbind option_bind]. pose proof (dq_changed_refl s m) as Hc.
  destruct (unlink_prev m q (mk_dq (first l2 NULL) (dq_tail q)) Hc) as (m1 & E1 & Hf1 & Hb1 & Hc1).
  cbn [mbind option_bind] in E1. rewrite E1. cbn [mbind option_bind]. set (q1 := if bool_decide _ then _ else _).
  destruct (unlink_next m1 q1 (mk_dq (dq_head q1) (first (reverse l1) NULL)) Hc1)
    as (m2 & E2 & Hf2 & Hb2 & Hc2).
  cbn [mbind option_bind] in E2. rewrite E2. cbn [mbind option_bind]. clear Hc Hc1 E1 E2.
  assert (Hd : x ∈ dom m) by (apply (dq_rep_dom _ _ _ x Hr); set_solver).
  assign Hc2 m3; [done..|set_solver|]. assign Hc2 m4; [done..|set_solver|].
  do 2 eexists. split_and!; [done| |done].
  set (q2 := if bool_decide _ then _ else _). destruct q2 as [h t] eqn:Eq.
  eapply rep_unlink; [done|by unroll|by unroll|..]; subst q2 q1;
    pose proof (rep_head _ _ _ Hr) as Hh; pose proof (rep_tail _ _ _ Hr) as Ht;
    rewrite ?last_mid, first_app in *; repeat case_bool_decide; subst; simplify_eq/=;
    rewrite ?app_nil_r, ?first_app in *; try done;
    rewrite ?reverse_app, ?first_app, ?Hh, ?Ht; auto using first_any, last_any.
Qed.
End Removal.

Lemma dq_remfirst_spec m q x l :
  dq_rep m q (x :: l) →
  ∃ m' q', dq_remfirst m q = Some (x, m', q') ∧ dq_rep m' q' l ∧
    changed (list_to_set (x :: l)) m m'.
Proof.
  intros Hr. pose proof (rep_mid m q [] x l Hr) as (Hx & En & _). unfold dq_remfirst.
  rewrite (dq_rep_head0 _ _ _ Hr), (rep_head _ _ _ Hr). cbn [first bool_decide decide_rel].
  rewrite bool_decide_eq_false_2, En by done. cbn [mbind option_bind].
  destruct (unlink_next m q [] x l Hr m (mk_dq (first l NULL) (dq_tail q)) (mk_dq NULL NULL)
    (dq_changed_refl _ m)) as (m1 & E1 & Hf1 & Hb1 & Hc).
  cbn [mbind option_bind] in E1. simpl in E1. rewrite E1. cbn [mbind option_bind]. clear E1.
  assert (Hd : x ∈ dom m) by (apply (dq_rep_dom _ _ _ x Hr); set_solver).
  assign Hc m2; [done..|set_solver|]. assign Hc m3; [done..|set_solver|].
  do 2 eexists. split_and!; [done| |done].
  set (q2 := if bool_decide _ then _ else _). destruct q2 as [h t] eqn:Eq.
  eapply (rep_unlink _ _ _ [] _ _ _ _ Hr); [by unroll|by unroll|..]; subst q2;
    pose proof (rep_tail _ _ _ Hr) as Ht;
    case_bool_decide; subst; simplify_eq/=; try done. rewrite Ht. by apply first_rev_cons.
Qed.

Lemma dq_remlast_spec m q l x :
  dq_rep m q (l ++ [x]) →
  ∃ m' q', dq_remlast m q = Some (x, m', q') ∧ dq_rep m' q' l ∧
    changed (list_to_set (l ++ [x])) m m'.
Proof.
  intros Hr. pose proof (rep_mid m q l x [] Hr) as (Hx & _ & Ep). unfold dq_remlast.
  rewrite (rep_tail _ _ _ Hr), reverse_snoc. cbn [first].
  rewrite (proj2 (Z.eqb_neq _ _) Hx), Ep. cbn [mbind option_bind].
  destruct (unlink_prev m q l x [] Hr m (mk_dq (dq_head q) (first (reverse l) NULL)) (mk_dq NULL NULL)
    (dq_changed_refl _ m)) as (m1 & E1 & Hf1 & Hb1 & Hc).
  cbn [mbind option_bind first] in E1. rewrite E1. cbn [mbind option_bind]. clear E1.
  assert (Hd : x ∈ dom m) by (apply (dq_rep_dom _ _ _ x Hr); set_solver).
  assign Hc m2; [done..|set_solver|]. assign Hc m3; [done..|set_solver|].
  do 2 eexists. split_and!; [done| |done].
  set (q2 := if bool_decide _ then _ else _). destruct q2 as [h t] eqn:Eq.
  rewrite <- (app_nil_r l).
  eapply (rep_unlink _ _ _ l x [] _ _ Hr); [by unroll|by unroll|..]; subst q2; rewrite app_nil_r;
    pose proof (rep_head _ _ _ Hr) as Hh; rewrite first_app in Hh;
    case_bool_decide; subst; simplify_eq/=; try done. rewrite Hh. by apply first_any.
Qed.

Lemma dq_count_spec m q l : dq_rep m q l → Z.of_nat (size m) < 2 ^ 32 →
  dq_count m q = Some (Z.of_nat (length l)).
Proof.
  intros Hr Hsz. unfold dq_count. rewrite (rep_head _ _ _ Hr).
  pose proof (dq_rep_length _ _ _ Hr) as Hlen. pose proof (rep_fchain _ _ _ Hr) as Hch. clear Hr.
  assert (Hgen : ∀ fuel c, (length l ≤ fuel)%nat → 0 ≤ c → c + Z.of_nat (length l) < 2 ^ 32 →
    dq_count_loop (S fuel) m (first l NULL) c = Some (c + Z.of_nat (length l))).
  { clear Hlen. induction l as [|x l IH]; intros fuel c Hf Hc Hlt; simpl in Hf, Hlt, Hch.
    - simpl. f_equal. lia.
    - destruct Hch as (Hx & Hgx & Hch). cbn [dq_count_loop first length].
      rewrite (proj2 (Z.eqb_neq _ _) Hx), (dq_next_spec _ _ _ Hx Hgx).
      destruct fuel as [|fuel]; [lia|]. cbn [mbind option_bind].
      rewrite IH, u32_small by (done || rewrite ?u32_small; lia). f_equal. lia. }
  apply (Hgen (size m) 0); lia.
Qed.

Lemma rep_nil m : dq_rep m (mk_dq NULL NULL) [].
Proof. constructor; simpl; auto using NoDup_nil_2. Qed.

Lemma dq_cat_spec m q1 q2 l1 l2 :
  dq_rep m q1 l1 → dq_rep m q2 l2 → (∀ x, x ∈ l1 → x ∉ l2) →
  ∃ m' q1' q2', dq_cat m q1 q2 = Some (m', q1', q2') ∧
    dq_rep m' q1' [] ∧ dq_rep m' q2' (l2 ++ l1) ∧ changed (list_to_set (l2 ++ l1)) m m'.
Proof.
  intros Hr1 Hr2 Hdis. unfold dq_cat, dq_empty. rewrite (dq_rep_head0 _ _ _ Hr1), (dq_rep_head0 _ _ _ Hr2).
  case_bool_decide as H2; subst.
  { simpl. do 3 eexists. split_and!; [done|apply rep_nil| |done]. by destruct q1, Hr1; constructor. }
  case_bool_decide as H1; subst; simpl.
  { do 3 eexists. rewrite app_nil_r. by split_and!. }
  destruct l2 as [|y l2 _] using rev_ind; [done|]. destruct l1 as [|z l1]; [done|]. clear H1 H2.
  assert (Ht : dq_tail q2 = y) by (by rewrite (rep_tail _ _ _ Hr2), reverse_snoc).
  pose proof (rep_head _ _ _ Hr1) as Hh. simpl in Hh. rewrite Ht, Hh.
  pose proof (dq_changed_refl (list_to_set ((l2 ++ [y]) ++ z :: l1)) m) as Hc.
  assign Hc m1; [apply (dq_rep_nonzero _ _ _ y Hr2); set_solver|
    apply (dq_rep_dom _ _ _ y Hr2); set_solver|set_solver|].
  assign Hc m2; [apply (dq_rep_nonzero _ _ _ z Hr1); set_solver|
    apply (dq_rep_dom _ _ _ z Hr1); set_solver|set_solver|].
  do 3 eexists. split_and!; [done|apply rep_nil| |done].
  pose proof (rep_nodup _ _ _ Hr1) as Hnd1. pose proof (rep_nodup _ _ _ Hr2) as Hnd2.
  constructor; simpl; unroll.
  - rewrite (rep_head _ _ _ Hr2), !first_app. done.
  - rewrite (rep_tail _ _ _ Hr1), reverse_app, first_app. by apply last_any.
  - apply chain_app. split.
    + apply (chain_set_last _ _ _ NULL); [|apply Hr2].
      apply NoDup_app in Hnd2 as (_ & Hd & _). intros Hin%Hd. set_solver.
    + apply chain_insert_ne; [|apply Hr1]. intros Hin%Hdis. set_solver.
  - rewrite reverse_app. apply chain_app. rewrite reverse_snoc, reverse_cons. cbn [first].
    rewrite <- (reverse_snoc l2 y), <- (reverse_cons l1). split.
    + rewrite reverse_cons. apply (chain_set_last _ _ _ NULL); [|rewrite <- reverse_cons; apply Hr1].
      rewrite elem_of_reverse. by apply NoDup_cons in Hnd1 as [? _].
    + apply chain_insert_ne; [|apply Hr2]. rewrite elem_of_reverse. apply Hdis. set_solver.
  - apply NoDup_app. split_and!; [done|set_solver|apply Hr1].
Qed.
Lemma dq_rep_frame s m m' q l :
  dq_rep m q l → changed s m m' → (∀ x, x ∈ l → x ∉ s) → dq_rep m' q l.
Proof.
  intros [] [_ Ho] Hs. constructor; try done; (eapply chain_ext; [|done]); intros x Hx;
    rewrite ?elem_of_reverse in Hx; unfold flinks, blinks; rewrite !lookup_fmap, Ho by auto; done.
Qed.

Lemma dq_changed_trans s m m1 m2 : changed s m m1 → changed s m1 m2 → changed s m m2.
Proof.
  intros [Hp1 Hx1] [Hp2 Hx2]. split; [congruence|]. intros x Hx. rewrite Hx2, Hx1; done.
Qed.

Lemma dq_remfirst_empty m q : dq_rep m q [] → dq_remfirst m q = Some (NULL, m, q).
Proof. intros Hr. unfold dq_remfirst. by rewrite (rep_head _ _ _ Hr). Qed.

Lemma dq_remlast_empty m q : dq_rep m q [] → dq_remlast m q = Some (NULL, m, q).
Proof. intros Hr. unfold dq_remlast. by rewrite (rep_tail _ _ _ Hr). Qed.
End Theory.
End DqSpec.
