(* ===== verification/QueueWorld.v ===== *)
(** * Queues as an interface, and programs over several queues

    [QueueImpl] states what a queue implementation promises: its operations, and
    for each the effect on the represented list.  The theorem about sequences of
    operations on many queues in one store is proved against this interface; the
    singly and the doubly linked queues are its two instances. *)

From S2P Require Import Prelude.
From S2P Require Import Queue.
From S2P Require Import QueueSq.
From S2P Require Import QueueDq.

(** [M] is the store, [Q] the queue header. *)

Class QueueImpl (M Q : Type) := {
  qrep : M → Q → list Z → Prop;
  qchanged : gset Z → M → M → Prop;
  qdom : M → gset Z;
  q_double : bool;
  q_addfirst : M → Z → Q → option (M * Q);
  q_addlast : M → Z → Q → option (M * Q);
  q_addafter : M → Z → Z → Q → option (M * Q);
  q_addbefore : M → Z → Z → Q → option (M * Q);
  q_remfirst : M → Q → option (Z * M * Q);
  q_remlast : M → Q → option (Z * M * Q);
  q_remafter : M → Z → Q → option (Z * M * Q);
  q_rem : M → Z → Q → option (M * Q);
  q_count : M → Q → option Z;
  q_cat : M → Q → Q → option (M * Q * Q);

  qchanged_refl s m : qchanged s m m;
  qchanged_trans s m m1 m2 : qchanged s m m1 → qchanged s m1 m2 → qchanged s m m2;
  qchanged_mono s s' m m' : qchanged s m m' → s ⊆ s' → qchanged s' m m';
  qchanged_dom s m m' : qchanged s m m' → qdom m' = qdom m;
  qrep_frame s m m' q l :
    qrep m q l → qchanged s m m' → (∀ x, x ∈ l → x ∉ s) → qrep m' q l;
  qrep_nodup m q l : qrep m q l → NoDup l;
  qrep_nonzero m q l x : qrep m q l → x ∈ l → x ≠ NULL;

  addfirst_law m q l x :
    qrep m q l → x ≠ NULL → x ∈ qdom m → x ∉ l →
    ∃ m' q', q_addfirst m x q = Some (m', q') ∧ qrep m' q' (x :: l) ∧
      qchanged ({[x]} ∪ list_to_set l) m m';
  addlast_law m q l x :
    qrep m q l → x ≠ NULL → x ∈ qdom m → x ∉ l →
    ∃ m' q', q_addlast m x q = Some (m', q') ∧ qrep m' q' (l ++ [x]) ∧
      qchanged ({[x]} ∪ list_to_set l) m m';
  addafter_law m q l1 y l2 x :
    qrep m q (l1 ++ y :: l2) → x ≠ NULL → x ∈ qdom m → x ∉ l1 ++ y :: l2 →
    ∃ m' q', q_addafter m y x q = Some (m', q') ∧ qrep m' q' (l1 ++ y :: x :: l2) ∧
      qchanged ({[x]} ∪ list_to_set (l1 ++ y :: l2)) m m';
  addbefore_law m q l1 y l2 x :
    q_double = true →
    qrep m q (l1 ++ y :: l2) → x ≠ NULL → x ∈ qdom m → x ∉ l1 ++ y :: l2 →
    ∃ m' q', q_addbefore m y x q = Some (m', q') ∧ qrep m' q' (l1 ++ x :: y :: l2) ∧
      qchanged ({[x]} ∪ list_to_set (l1 ++ y :: l2)) m m';
  remfirst_law m q l :
    qrep m q l →
    ∃ m' q', q_remfirst m q = Some (first l NULL, m', q') ∧ qrep m' q' (tail l) ∧
      qchanged (list_to_set l) m m';
  remlast_law m q l :
    qrep m q l →
    ∃ m' q', q_remlast m q = Some (first (reverse l) NULL, m', q') ∧
      qrep m' q' (take (length l - 1) l) ∧ qchanged (list_to_set l) m m';
  remafter_law m q l1 y l2 :
    q_double = false → qrep m q (l1 ++ y :: l2) →
    ∃ m' q', q_remafter m y q = Some (first l2 NULL, m', q') ∧
      qrep m' q' (l1 ++ y :: tail l2) ∧ qchanged (list_to_set (l1 ++ y :: l2)) m m';
  rem_law m q l1 x l2 :
    qrep m q (l1 ++ x :: l2) →
    ∃ m' q', q_rem m x q = Some (m', q') ∧ qrep m' q' (l1 ++ l2) ∧
      qchanged (list_to_set (l1 ++ x :: l2)) m m';
  count_law m q l :
    qrep m q l → Z.of_nat (size (qdom m)) < 2 ^ 32 →
    q_count m q = Some (Z.of_nat (length l));
  cat_law m q1 q2 l1 l2 :
    qrep m q1 l1 → qrep m q2 l2 → (∀ x, x ∈ l1 → x ∉ l2) →
    ∃ m' q1' q2', q_cat m q1 q2 = Some (m', q1', q2') ∧ qrep m' q1' [] ∧
      qrep m' q2' (l2 ++ l1) ∧ qchanged (list_to_set (l2 ++ l1)) m m'
}.

(** ** Programs over queues, and the lists they stand for *)

Inductive q_op :=
  | AddFirst (k : nat) (x : Z) | AddLast (k : nat) (x : Z)
  | AddAfter (k : nat) (y x : Z) | AddBefore (k : nat) (y x : Z)
  | RemFirst (k : nat) | RemLast (k : nat) | RemAfter (k : nat) (y : Z)
  | Rem (k : nat) (x : Z) | Count (k : nat) | Cat (k1 k2 : nat).

Fixpoint insert_after (y x : Z) (l : list Z) : list Z :=
  match l with
  | [] => []
  | z :: l => if decide (z = y) then z :: x :: l else z :: insert_after y x l
  end.

Fixpoint insert_before (y x : Z) (l : list Z) : list Z :=
  match l with
  | [] => []
  | z :: l => if decide (z = y) then x :: z :: l else z :: insert_before y x l
  end.

Fixpoint behind (y : Z) (l : list Z) : Z :=
  match l with
  | [] => NULL
  | z :: l => if decide (z = y) then first l NULL else behind y l
  end.

Definition in_list (x : Z) (l : list Z) : bool := bool_decide (x ∈ l).

Section Lists.
Context (double : bool) (D : gset Z).
Implicit Types (ls : gmap nat (list Z)).

Definition fresh_in ls (x : Z) : Prop := map_Forall (λ _ l, x ∉ l) ls.

(** A node may be added when it is not on any queue. *)

Definition may_add ls (x : Z) : bool :=
  bool_decide (x ≠ NULL ∧ x ∈ D ∧ fresh_in ls x).

Definition list_exec ls (o : q_op) : option (Z * gmap nat (list Z)) :=
  match o with
  | AddFirst k x =>
      l ← ls !! k;
      if may_add ls x then Some (0, <[k := x :: l]> ls) else None
  | AddLast k x =>
      l ← ls !! k;
      if may_add ls x then Some (0, <[k := l ++ [x]]> ls) else None
  | AddAfter k y x =>
      l ← ls !! k;
      if may_add ls x && in_list y l
      then Some (0, <[k := insert_after y x l]> ls) else None
  | AddBefore k y x =>
      l ← ls !! k;
      if double && may_add ls x && in_list y l
      then Some (0, <[k := insert_before y x l]> ls) else None
  | RemFirst k => l ← ls !! k; Some (first l NULL, <[k := tail l]> ls)
  | RemLast k =>
      l ← ls !! k; Some (first (reverse l) NULL, <[k := take (length l - 1) l]> ls)
  | RemAfter k y =>
      l ← ls !! k;
      if negb double && in_list y l
      then Some (behind y l, <[k := filter (.≠ behind y l) l]> ls) else None
  | Rem k x =>
      l ← ls !! k;
      if in_list x l then Some (0, <[k := filter (.≠ x) l]> ls) else None
  | Count k => l ← ls !! k; Some (Z.of_nat (length l), ls)
  | Cat k1 k2 =>
      l1 ← ls !! k1; l2 ← ls !! k2;
      if negb (Nat.eqb k1 k2) then Some (0, <[k2 := l2 ++ l1]> (<[k1 := []]> ls)) else None
  end.

Fixpoint list_run ls (os : list q_op) : option (list Z * gmap nat (list Z)) :=
  match os with
  | [] => Some ([], ls)
  | o :: os => '(r, ls) ← list_exec ls o; '(rs, ls) ← list_run ls os; Some (r :: rs, ls)
  end.
End Lists.

Lemma insert_after_mid l1 y l2 x :
  y ∉ l1 → insert_after y x (l1 ++ y :: l2) = l1 ++ y :: x :: l2.
Proof.
  induction l1 as [|z l1 IH]; simpl; [by rewrite decide_True|].
  intros [? ?]%not_elem_of_cons. rewrite decide_False, IH by done. done.
Qed.

Lemma insert_before_mid l1 y l2 x :
  y ∉ l1 → insert_before y x (l1 ++ y :: l2) = l1 ++ x :: y :: l2.
Proof.
  induction l1 as [|z l1 IH]; simpl; [by rewrite decide_True|].
  intros [? ?]%not_elem_of_cons. rewrite decide_False, IH by done. done.
Qed.

Lemma behind_mid l1 y l2 : y ∉ l1 → behind y (l1 ++ y :: l2) = first l2 NULL.
Proof.
  induction l1 as [|z l1 IH]; simpl; [by rewrite decide_True|].
  intros [? ?]%not_elem_of_cons. rewrite decide_False, IH by done. done.
Qed.

Lemma NoDup_split (l : list Z) y :
  NoDup l → y ∈ l → ∃ l1 l2, l = l1 ++ y :: l2 ∧ y ∉ l1.
Proof.
  intros Hnd (l1 & l2 & ->)%list_elem_of_split. exists l1, l2. split; [done|].
  apply NoDup_mid in Hnd. set_solver.
Qed.

Lemma take_sub n (l : list Z) x : x ∈ take n l → x ∈ l.
Proof. intros Hx. rewrite <- (take_drop n l), elem_of_app. by left. Qed.

Section World.
Context {M Q : Type} `{!QueueImpl M Q}.
Implicit Types (m : M) (qs : gmap nat Q) (ls : gmap nat (list Z)).

Definition set_queue qs (k : nat) (r : option (M * Q)) : option (Z * (M * gmap nat Q)) :=
  '(m, q) ← r; Some (0, (m, <[k := q]> qs)).

Definition take_queue qs (k : nat) (r : option (Z * M * Q)) : option (Z * (M * gmap nat Q)) :=
  '(v, m, q) ← r; Some (v, (m, <[k := q]> qs)).

Definition q_exec (m : M) (qs : gmap nat Q) (o : q_op) : option (Z * (M * gmap nat Q)) :=
  match o with
  | AddFirst k x => q ← qs !! k; set_queue qs k (q_addfirst m x q)
  | AddLast k x => q ← qs !! k; set_queue qs k (q_addlast m x q)
  | AddAfter k y x => q ← qs !! k; set_queue qs k (q_addafter m y x q)
  | AddBefore k y x => q ← qs !! k; set_queue qs k (q_addbefore m y x q)
  | RemFirst k => q ← qs !! k; take_queue qs k (q_remfirst m q)
  | RemLast k => q ← qs !! k; take_queue qs k (q_remlast m q)
  | RemAfter k y => q ← qs !! k; take_queue qs k (q_remafter m y q)
  | Rem k x => q ← qs !! k; set_queue qs k (q_rem m x q)
  | Count k => q ← qs !! k; n ← q_count m q; Some (n, (m, qs))
  | Cat k1 k2 =>
      q1 ← qs !! k1; q2 ← qs !! k2;
      '(m, q1, q2) ← q_cat m q1 q2;
      Some (0, (m, <[k2 := q2]> (<[k1 := q1]> qs)))
  end.

Fixpoint q_run (m : M) (qs : gmap nat Q) (os : list q_op) :
    option (list Z * (M * gmap nat Q)) :=
  match os with
  | [] => Some ([], (m, qs))
  | o :: os =>
      '(r, (m, qs)) ← q_exec m qs o;
      '(rs, w) ← q_run m qs os;
      Some (r :: rs, w)
  end.

(** Every list is represented by its queue, and no node is on two queues. *)

Record world m qs ls : Prop := {
  w_rep k l : ls !! k = Some l → ∃ q, qs !! k = Some q ∧ qrep m q l;
  w_disj k1 k2 l1 l2 x :
    ls !! k1 = Some l1 → ls !! k2 = Some l2 → x ∈ l1 → x ∈ l2 → k1 = k2
}.

(** All nodes on the queues belong to [S]. *)

Definition covers ls (S : gset Z) : Prop := ∀ k l x, ls !! k = Some l → x ∈ l → x ∈ S.

Definition added (o : q_op) : gset Z :=
  match o with
  | AddFirst _ x | AddLast _ x | AddAfter _ _ x | AddBefore _ _ x => {[x]}
  | _ => ∅
  end.

(** The world after a step that only touched links of nodes in [S]. *)

Definition stepped (S : gset Z) m m' qs' ls' : Prop :=
  world m' qs' ls' ∧ qchanged S m m' ∧ covers ls' S.

Lemma fresh_not_in ls x k l : fresh_in ls x → ls !! k = Some l → x ∉ l.
Proof. intros Hf Hk. exact (Hf _ _ Hk). Qed.

Lemma world_upd m qs ls k l m' q' l' s :
  world m qs ls → ls !! k = Some l → qchanged s m m' → qrep m' q' l' →
  (∀ x, x ∈ s → x ∈ l ∨ fresh_in ls x) → (∀ x, x ∈ l' → x ∈ l ∨ fresh_in ls x) →
  world m' (<[k := q']> qs) (<[k := l']> ls).
Proof.
  intros [Hrep Hdis] Hk Hc Hr' Hs Hl'.
  assert (Hother : ∀ k2 l2 x, k2 ≠ k → ls !! k2 = Some l2 → x ∈ l2 → x ∈ l ∨ fresh_in ls x → False).
  { intros k2 l2 x Hne H2 Hx [Hin|Hfr]; [by apply Hne, (Hdis k2 k l2 l x)|].
    by apply (fresh_not_in _ _ _ _ Hfr H2). }
  constructor.
  - intros j lj [[<- <-]|[Hne Hj]]%lookup_insert_Some.
    + exists q'. by rewrite lookup_insert_eq.
    + destruct (Hrep _ _ Hj) as (qj & ? & ?). exists qj.
      rewrite lookup_insert_ne by done. split; [done|].
      eapply qrep_frame; [done..|]. intros x Hx Hin. by eapply (Hother j lj x), Hs.
  - intros k1 k2 l1 l2 x [[<- <-]|[? H1]]%lookup_insert_Some [[<- <-]|[? H2]]%lookup_insert_Some
      Hx1 Hx2; [done|exfalso; eauto..|eauto].
Qed.

(** Operations on the queue [k], by what they do to its list. *)

Section OnQueue.
Context (m : M) (qs : gmap nat Q) (ls : gmap nat (list Z)) (k : nat) (l l' : list Z) (s : gset Z).
Context (Hw : world m qs ls) (Hk : ls !! k = Some l).
Context (Hs : ∀ x, x ∈ s → x ∈ l ∨ fresh_in ls x) (Hl' : ∀ x, x ∈ l' → x ∈ l ∨ fresh_in ls x).
Context (S : gset Z) (HS : covers ls S) (HsS : s ⊆ S) (Hl'S : ∀ x, x ∈ l' → x ∈ S).

Lemma covers_insert : covers (<[k := l']> ls) S.
Proof. intros j lj x [[<- <-]|[? ?]]%lookup_insert_Some; eauto. Qed.

Lemma exec_set (f : Q → option (M * Q)) :
  (∀ q, qrep m q l →
     ∃ m' q', f q = Some (m', q') ∧ qrep m' q' l' ∧ qchanged s m m') →
  ∃ m' qs', (q ← qs !! k; set_queue qs k (f q)) = Some (0, (m', qs')) ∧
    stepped S m m' qs' (<[k := l']> ls).
Proof.
  intros Hf. destruct (w_rep _ _ _ Hw _ _ Hk) as (q & -> & Hr).
  destruct (Hf q Hr) as (m' & q' & E & Hr' & Hc). exists m', (<[k := q']> qs).
  split; [simpl; by rewrite E|]. split_and!; [by eapply world_upd|by eapply qchanged_mono|].
  apply covers_insert.
Qed.

Lemma exec_take (f : Q → option (Z * M * Q)) r :
  (∀ q, qrep m q l →
     ∃ m' q', f q = Some (r, m', q') ∧ qrep m' q' l' ∧ qchanged s m m') →
  ∃ m' qs', (q ← qs !! k; take_queue qs k (f q)) = Some (r, (m', qs')) ∧
    stepped S m m' qs' (<[k := l']> ls).
Proof.
  intros Hf. destruct (w_rep _ _ _ Hw _ _ Hk) as (q & -> & Hr).
  destruct (Hf q Hr) as (m' & q' & E & Hr' & Hc). exists m', (<[k := q']> qs).
  split; [simpl; by rewrite E|]. split_and!; [by eapply world_upd|by eapply qchanged_mono|].
  apply covers_insert.
Qed.
End OnQueue.

Lemma may_add_spec m ls x :
  may_add (qdom m) ls x = true → x ≠ NULL ∧ x ∈ qdom m ∧ fresh_in ls x.
Proof. apply bool_decide_eq_true. Qed.

Lemma world_nodup m qs ls k l : world m qs ls → ls !! k = Some l → NoDup l.
Proof. intros Hw Hk. destruct (w_rep _ _ _ Hw _ _ Hk) as (q & _ & ?). by eapply qrep_nodup. Qed.

(** Additions. *)

Lemma step_add S m qs ls o r ls' :
  match o with AddFirst _ _ | AddLast _ _ | AddAfter _ _ _ | AddBefore _ _ _ => True | _ => False end →
  world m qs ls → covers ls S → added o ⊆ S →
  list_exec q_double (qdom m) ls o = Some (r, ls') →
  ∃ m' qs', q_exec m qs o = Some (r, (m', qs')) ∧ stepped S m m' qs' ls'.
Proof.
  intros Ho Hw HS Ha E. destruct o as [k x|k x|k y x|k y x|k|k|k y|k x|k|k1 k2]; try done; clear Ho;
    simpl in E, Ha; destruct (ls !! k) as [l|] eqn:Hk; try done; simpl in E; case_if_in E; try done;
    pose proof (λ x, HS k l x Hk) as HSl;
    injection E as <- <-;
    repeat match goal with H : in_list _ _ = true |- _ => apply bool_decide_eq_true in H end;
    match goal with H : may_add _ _ _ = true |- _ =>
      apply may_add_spec in H as (Hx & Hd & Hf) end;
    pose proof (fresh_not_in _ _ _ _ Hf Hk) as Hnl;
    try (destruct (NoDup_split l y (world_nodup _ _ _ _ _ Hw Hk)) as (l1 & l2 & -> & Hy); [done|];
         rewrite ?insert_after_mid, ?insert_before_mid by done).
  - eapply (exec_set _ _ _ _ _ _ ({[x]} ∪ list_to_set l)); eauto using addfirst_law; set_solver.
  - eapply (exec_set _ _ _ _ _ _ ({[x]} ∪ list_to_set l)); eauto using addlast_law; set_solver.
  - eapply (exec_set _ _ _ _ _ _ ({[x]} ∪ list_to_set (l1 ++ y :: l2)));
      eauto using addafter_law; set_solver.
  - eapply (exec_set _ _ _ _ _ _ ({[x]} ∪ list_to_set (l1 ++ y :: l2)));
      eauto using addbefore_law; set_solver.
Qed.

(** Removals. *)

Lemma step_rem S m qs ls o r ls' :
  match o with RemFirst _ | RemLast _ | RemAfter _ _ | Rem _ _ => True | _ => False end →
  world m qs ls → covers ls S → added o ⊆ S →
  list_exec q_double (qdom m) ls o = Some (r, ls') →
  ∃ m' qs', q_exec m qs o = Some (r, (m', qs')) ∧ stepped S m m' qs' ls'.
Proof.
  intros Ho Hw HS Ha E. destruct o as [k x|k x|k y x|k y x|k|k|k y|k x|k|k1 k2]; try done; clear Ho;
    simpl in E; destruct (ls !! k) as [l|] eqn:Hk; try done; simpl in E;
    pose proof (world_nodup _ _ _ _ _ Hw Hk) as Hnd; pose proof (λ x, HS k l x Hk) as HSl.
  - injection E as <- <-. eapply (exec_take _ _ _ _ _ _ (list_to_set l)); eauto using remfirst_law;
      destruct l; set_solver.
  - injection E as <- <-. eapply (exec_take _ _ _ _ _ _ (list_to_set l)); eauto using remlast_law;
      pose proof (take_sub (length l - 1) l); set_solver.
  - case_if_in E; [|done]. injection E as <- <-. apply bool_decide_eq_true in H0.
    destruct (NoDup_split l y Hnd H0) as (l1 & l2 & -> & Hy). rewrite behind_mid by done.
    replace (filter (.≠ first l2 NULL) (l1 ++ y :: l2)) with (l1 ++ y :: tail l2).
    + eapply (exec_take _ _ _ _ _ _ (list_to_set (l1 ++ y :: l2))); eauto using remafter_law;
        destruct l2; set_solver.
    + destruct l2 as [|z l2]; simpl.
      * rewrite filter_ne_id; [done|]. destruct (w_rep _ _ _ Hw _ _ Hk) as (q & _ & Hr).
        intros Hin. by apply (qrep_nonzero _ _ _ _ Hr) in Hin.
      * pose proof (filter_ne_mid (l1 ++ [y]) l2 z) as Hfm. rewrite <- !app_assoc in Hfm.
        symmetry. by apply Hfm.
  - case_if_in E; [|done]. injection E as <- <-. apply bool_decide_eq_true in E0.
    destruct (NoDup_split l x Hnd E0) as (l1 & l2 & -> & Hx). rewrite filter_ne_mid by done.
    eapply (exec_set _ _ _ _ _ _ (list_to_set (l1 ++ x :: l2))); eauto using rem_law; set_solver.
Qed.

Lemma step_cat S m qs ls k1 k2 r ls' :
  world m qs ls → covers ls S → list_exec q_double (qdom m) ls (Cat k1 k2) = Some (r, ls') →
  ∃ m' qs', q_exec m qs (Cat k1 k2) = Some (r, (m', qs')) ∧ stepped S m m' qs' ls'.
Proof.
  intros Hw HS E. simpl in E. destruct (ls !! k1) as [l1|] eqn:H1; [|done]. simpl in E.
  destruct (ls !! k2) as [l2|] eqn:H2; [|done]. simpl in E. case_if_in E; [|done].
  injection E as <- <-. apply Nat.eqb_neq in E0 as Hne.
  destruct (w_rep _ _ _ Hw _ _ H1) as (q1 & Hq1 & Hr1).
  destruct (w_rep _ _ _ Hw _ _ H2) as (q2 & Hq2 & Hr2).
  assert (Hdis : ∀ x, x ∈ l1 → x ∉ l2) by (intros x ? ?; by apply Hne, (w_disj _ _ _ Hw k1 k2 l1 l2 x)).
  destruct (cat_law m q1 q2 l1 l2 Hr1 Hr2 Hdis) as (m' & q1' & q2' & E & Hr1' & Hr2' & Hc).
  exists m', (<[k2 := q2']> (<[k1 := q1']> qs)).
  assert (HSl : ∀ x, x ∈ l2 ++ l1 → x ∈ S) by (intros x [?|?]%elem_of_app; eauto).
  split; [simpl; rewrite Hq1, Hq2; simpl; by rewrite E|]. clear E. split; [|split].
  2: { eapply qchanged_mono; [done|]. intros x Hx%elem_of_list_to_set. auto. }
  2: { intros j lj x [[<- <-]|[? [[<- <-]|[? ?]]%lookup_insert_Some]]%lookup_insert_Some Hx; eauto.
       by apply not_elem_of_nil in Hx. }
  assert (Hother : ∀ j lj x, j ≠ k1 → j ≠ k2 → ls !! j = Some lj → x ∈ lj → x ∉ l2 ++ l1).
  { intros j lj x ? ? Hj Hx [Hin|Hin]%elem_of_app;
      [by apply (w_disj _ _ _ Hw j k2 lj l2 x) in Hj|by apply (w_disj _ _ _ Hw j k1 lj l1 x) in Hj]. }
  constructor.
  - intros j lj [[<- <-]|[? [[<- <-]|[? Hj]]%lookup_insert_Some]]%lookup_insert_Some.
    + exists q2'. by rewrite lookup_insert_eq.
    + exists q1'. by rewrite lookup_insert_ne, lookup_insert_eq.
    + destruct (w_rep _ _ _ Hw _ _ Hj) as (q & Hq & Hr). exists q.
      rewrite !lookup_insert_ne by done. split; [done|]. eapply qrep_frame; [done..|].
      intros x Hx. rewrite elem_of_list_to_set. by eapply Hother.
  - intros i j li lj x [[<- <-]|[? [[<- <-]|[? Hi]]%lookup_insert_Some]]%lookup_insert_Some
      [[<- <-]|[? [[<- <-]|[? Hj]]%lookup_insert_Some]]%lookup_insert_Some Hxi Hxj; try done;
      try (by apply not_elem_of_nil in Hxi); try (by apply not_elem_of_nil in Hxj).
    + exfalso. by eapply (Hother j).
    + exfalso. by eapply (Hother i).
    + by apply (w_disj _ _ _ Hw i j li lj x).
Qed.

Lemma q_run_refines S os : ∀ m qs ls rs ls',
  Z.of_nat (size (qdom m)) < 2 ^ 32 → world m qs ls →
  covers ls S → Forall (λ o, added o ⊆ S) os →
  list_run q_double (qdom m) ls os = Some (rs, ls') →
  ∃ m' qs', q_run m qs os = Some (rs, (m', qs')) ∧ stepped S m m' qs' ls'.
Proof.
  induction os as [|o os IH]; intros m qs ls rs ls' Hsz Hw HS Ha E.
  { injection E as <- <-. exists m, qs. split; [done|]. split_and!; auto using qchanged_refl. }
  simpl in E. destruct (list_exec _ _ ls o) as [[r ls1]|] eqn:Eo; [|done]. simpl in E.
  destruct (list_run _ _ ls1 os) as [[rs1 ls2]|] eqn:Er; [|done]. injection E as <- <-.
  apply Forall_cons in Ha as [Hao Ha].
  assert (∃ m1 qs1, q_exec m qs o = Some (r, (m1, qs1)) ∧ stepped S m m1 qs1 ls1)
    as (m1 & qs1 & E1 & Hw1 & Hc1 & HS1).
  { destruct o as [k x|k x|k y x|k y x|k|k|k y|k x|k|k1 k2]; try (by eapply step_add);
      try (by eapply step_rem); [|by eapply step_cat].
    simpl in Eo. destruct (ls !! k) as [l|] eqn:Hk; [|done]. injection Eo as <- <-.
    destruct (w_rep _ _ _ Hw _ _ Hk) as (q & Hq & Hr). exists m, qs.
    simpl. rewrite Hq. simpl. rewrite (count_law _ _ _ Hr Hsz). split; [done|].
    split_and!; auto using qchanged_refl. }
  rewrite <- (qchanged_dom _ _ _ Hc1) in Er, Hsz.
  destruct (IH _ _ _ _ _ Hsz Hw1 HS1 Ha Er) as (m2 & qs2 & E2 & Hw2 & Hc2 & HS2).
  exists m2, qs2. split; [simpl; rewrite E1; simpl; by rewrite E2|].
  split_and!; [done|by eapply qchanged_trans|done].
Qed.
End World.

(** ** The two implementations *)

Lemma take_snoc (l : list Z) x : take (length (l ++ [x]) - 1) (l ++ [x]) = l.
Proof. rewrite length_app. simpl. rewrite Nat.add_sub. by apply take_app_length. Qed.

Section Instances.
Context {N : Type}.

#[global, refine] Instance sq_QueueImpl `{!SqEntry N} : QueueImpl (gmap Z N) sq_queue_s := {
  qrep := SqSpec.sq_rep;
  qchanged := SqSpec.changed;
  qdom := dom;
  q_double := false;
  q_addfirst := Sq.sq_addfirst;
  q_addlast := Sq.sq_addlast;
  q_addafter := Sq.sq_addafter;
  q_addbefore _ _ _ _ := None;
  q_remfirst := Sq.sq_remfirst;
  q_remlast := Sq.sq_remlast;
  q_remafter := Sq.sq_remafter;
  q_rem := Sq.sq_rem;
  q_count := Sq.sq_count;
  q_cat := Sq.sq_cat
}.
Proof.
  - apply SqSpec.sq_changed_refl.
  - intros. eapply SqSpec.sq_changed_trans; [done..|set_solver].
  - intros. by eapply SqSpec.sq_changed_mono.
  - apply SqSpec.sq_changed_dom.
  - apply SqSpec.sq_rep_frame.
  - apply SqSpec.rep_nodup.
  - apply SqSpec.sq_rep_nonzero.
  - intros m q l x Hr ? ? ?. destruct (SqSpec.sq_addfirst_spec m q l x) as (m' & q' & ? & ? & ?); [done..|].
    exists m', q'. split_and!; [done..|]. eapply SqSpec.sq_changed_mono; [done|set_solver].
  - apply SqSpec.sq_addlast_spec.
  - apply SqSpec.sq_addafter_spec.
  - done.
  - intros m q [|x l] Hr; [exists m, q; by rewrite SqSpec.sq_remfirst_empty|].
    destruct (SqSpec.sq_remfirst_spec m q x l Hr) as (m' & q' & ? & ? & ?).
    exists m', q'. split_and!; [done..|]. eapply SqSpec.sq_changed_mono; [done|set_solver].
  - intros m q l Hr. destruct l as [|x l _] using rev_ind.
    + exists m, q. by rewrite SqSpec.sq_remlast_empty.
    + rewrite take_snoc, reverse_snoc. by apply SqSpec.sq_remlast_spec.
  - intros m q l1 y l2 _ Hr. destruct l2 as [|x l2].
    + exists m, q. by rewrite (SqSpec.remafter_last _ _ _ _ Hr).
    + destruct (SqSpec.remafter_spec _ _ _ _ _ _ Hr) as (m' & q' & ? & ? & ?).
      exists m', q'. split_and!; [done..|]. eapply SqSpec.sq_changed_mono; [done|set_solver].
  - intros m q l1 x l2 Hr. pose proof (SqSpec.rep_nodup _ _ _ Hr) as Hnd.
    rewrite <- (filter_ne_mid _ _ _ Hnd). by apply SqSpec.sq_rem_spec.
  - intros m q l Hr Hsz. apply SqSpec.sq_count_spec; [done|]. by rewrite <- size_dom.
  - intros m q1 q2 l1 l2 H1 H2 Hd.
    destruct (SqSpec.sq_cat_spec m q1 q2 l1 l2 H1 H2 Hd) as (m' & q1' & q2' & ? & ? & ? & ?).
    exists m', q1', q2'. split_and!; [done..|]. eapply SqSpec.sq_changed_mono; [done|set_solver].
Defined.

#[global, refine] Instance dq_QueueImpl `{!DqEntry N} : QueueImpl (gmap Z N) dq_queue_s := {
  qrep := DqSpec.dq_rep;
  qchanged := DqSpec.changed;
  qdom := dom;
  q_double := true;
  q_addfirst := Dq.dq_addfirst;
  q_addlast := Dq.dq_addlast;
  q_addafter := Dq.dq_addafter;
  q_addbefore := Dq.dq_addbefore;
  q_remfirst := Dq.dq_remfirst;
  q_remlast := Dq.dq_remlast;
  q_remafter _ _ _ := None;
  q_rem := Dq.dq_rem;
  q_count := Dq.dq_count;
  q_cat := Dq.dq_cat
}.
Proof.
  - apply DqSpec.dq_changed_refl.
  - apply DqSpec.dq_changed_trans.
  - intros. by eapply DqSpec.dq_changed_mono.
  - apply DqSpec.dq_changed_dom.
  - apply DqSpec.dq_rep_frame.
  - apply DqSpec.rep_nodup.
  - apply DqSpec.dq_rep_nonzero.
  - apply DqSpec.dq_addfirst_spec.
  - apply DqSpec.dq_addlast_spec.
  - apply DqSpec.dq_addafter_spec.
  - intros. by apply DqSpec.addbefore_spec.
  - intros m q [|x l] Hr; [exists m, q; by rewrite DqSpec.dq_remfirst_empty|].
    by apply DqSpec.dq_remfirst_spec.
  - intros m q l Hr. destruct l as [|x l _] using rev_ind.
    + exists m, q. by rewrite DqSpec.dq_remlast_empty.
    + rewrite take_snoc, reverse_snoc. by apply DqSpec.dq_remlast_spec.
  - done.
  - intros m q l1 x l2 Hr. by apply DqSpec.dq_rem_spec.
  - intros m q l Hr Hsz. apply DqSpec.dq_count_spec; [done|]. by rewrite <- size_dom.
  - intros m q1 q2 l1 l2 H1 H2 Hd. by apply DqSpec.dq_cat_spec.
Defined.
End Instances.

Module QueueProps.

(** C23.  Singly linked queues are lists: any sequence of [sq_*] calls on any
    number of queues whose nodes are in one store runs without a fault, returns
    the nodes and counts of the corresponding list operations and leaves every
    queue holding its list, provided no node is added to a queue while it is on
    one.  The routines write nothing but link fields, and only those of nodes
    that were on a queue or were added to one. *)
Theorem sq_refines_lists {N : Type} `{!SqEntry N} (m : gmap Z N)
    (qs : gmap nat sq_queue_s) ls os rs ls' S :
  Z.of_nat (size m) < 2 ^ 32 → world m qs ls →
  covers ls S → Forall (λ o, added o ⊆ S) os →
  list_run false (dom m) ls os = Some (rs, ls') →
  ∃ m' qs', q_run m qs os = Some (rs, (m', qs')) ∧ world m' qs' ls' ∧
    sq_set_flink NULL <$> m' = sq_set_flink NULL <$> m ∧
    ∀ x, x ∉ S → m' !! x = m !! x.
Proof.
  intros Hsz Hw HS Ha E.
  assert (Hsz' : Z.of_nat (size (qdom m)) < 2 ^ 32) by (simpl; by rewrite size_dom).
  destruct (q_run_refines S os m qs ls rs ls' Hsz' Hw HS Ha E)
    as (m' & qs' & ? & ? & [? ?] & _). by exists m', qs'.
Qed.

(** C24.  Doubly linked queues are lists: the same for the [dq_*] calls, with
    insertion before a node and constant-time removal of a node; forward and
    backward links of every queue agree at every point. *)
Theorem dq_refines_lists {N : Type} `{!DqEntry N} (m : gmap Z N)
    (qs : gmap nat dq_queue_s) ls os rs ls' S :
  Z.of_nat (size m) < 2 ^ 32 → world m qs ls →
  covers ls S → Forall (λ o, added o ⊆ S) os →
  list_run true (dom m) ls os = Some (rs, ls') →
  ∃ m' qs', q_run m qs os = Some (rs, (m', qs')) ∧ world m' qs' ls' ∧
    DqSpec.payload <$> m' = DqSpec.payload <$> m ∧
    ∀ x, x ∉ S → m' !! x = m !! x.
Proof.
  intros Hsz Hw HS Ha E.
  assert (Hsz' : Z.of_nat (size (qdom m)) < 2 ^ 32) by (simpl; by rewrite size_dom).
  destruct (q_run_refines S os m qs ls rs ls' Hsz' Hw HS Ha E)
    as (m' & qs' & ? & ? & [? ?] & _). by exists m', qs'.
Qed.

(** Six nodes, two queues: fill the first, insert, remove in all ways, and
    append it to the second. *)

Definition demo_sq_store : gmap Z sq_entry_s :=
  list_to_map ((λ x, (x, mk_sq_entry 0)) <$> [16; 32; 48; 64; 80; 96; 112]).

Definition demo_dq_store : gmap Z dq_entry_s :=
  list_to_map ((λ x, (x, mk_dq_entry 0 0)) <$> [16; 32; 48; 64; 80; 96; 112]).

Definition demo_lists : gmap nat (list Z) := {[ 0%nat := []; 1%nat := [] ]}.

Definition demo_fill : list q_op :=
  [AddLast 0 16; AddLast 0 32; AddFirst 0 48; AddAfter 0 16 64; AddAfter 0 32 80;
   AddLast 1 96; Count 0].

Definition demo_nodes : gset Z := list_to_set [16; 32; 48; 64; 80; 96].

Lemma demo_sq_world : world demo_sq_store {[ 0%nat := Sq.sq_init; 1%nat := Sq.sq_init ]} demo_lists.
Proof.
  constructor; unfold demo_lists.
  - intros k l [[<- <-]|[? [<- <-]%lookup_singleton_Some]]%lookup_insert_Some;
      eexists; (split; [reflexivity|]); constructor; simpl; auto using NoDup_nil_2.
  - intros k1 k2 l1 l2 x [[<- <-]|[? [<- <-]%lookup_singleton_Some]]%lookup_insert_Some _ Hx;
      by apply not_elem_of_nil in Hx.
Qed.

Lemma demo_dq_world : world demo_dq_store {[ 0%nat := Dq.dq_init; 1%nat := Dq.dq_init ]} demo_lists.
Proof.
  constructor; unfold demo_lists.
  - intros k l [[<- <-]|[? [<- <-]%lookup_singleton_Some]]%lookup_insert_Some;
      eexists; (split; [reflexivity|]); constructor; simpl; auto using NoDup_nil_2.
  - intros k1 k2 l1 l2 x [[<- <-]|[? [<- <-]%lookup_singleton_Some]]%lookup_insert_Some _ Hx;
      by apply not_elem_of_nil in Hx.
Qed.

Lemma demo_covers : covers demo_lists demo_nodes.
Proof.
  unfold demo_lists. intros k l x [[<- <-]|[? [<- <-]%lookup_singleton_Some]]%lookup_insert_Some Hx;
    by apply not_elem_of_nil in Hx.
Qed.

Lemma sq_refines_lists_witness :
  ∃ m' qs', q_run demo_sq_store {[ 0%nat := Sq.sq_init; 1%nat := Sq.sq_init ]}
    (demo_fill ++ [RemAfter 0 16; RemFirst 0; RemLast 0; Rem 0 16; Cat 0 1; RemFirst 1; RemFirst 1; RemFirst 1])
    = Some ([0; 0; 0; 0; 0; 0; 5; 64; 48; 80; 0; 0; 96; 32; 0], (m', qs')) ∧
    world m' qs' {[ 0%nat := []; 1%nat := [] ]} ∧
    sq_set_flink NULL <$> m' = sq_set_flink NULL <$> demo_sq_store ∧
    ∀ x, x ∉ demo_nodes → m' !! x = demo_sq_store !! x.
Proof.
  apply (sq_refines_lists demo_sq_store _ demo_lists _ _ _ demo_nodes).
  - vm_compute. reflexivity.
  - apply demo_sq_world.
  - apply demo_covers.
  - apply (bool_decide_unpack _). vm_compute. exact I.
  - vm_compute. reflexivity.
Defined.

Lemma dq_refines_lists_witness :
  ∃ m' qs', q_run demo_dq_store {[ 0%nat := Dq.dq_init; 1%nat := Dq.dq_init ]}
    (demo_fill ++ [RemFirst 0; RemLast 0; Rem 0 64; AddBefore 0 32 48; Cat 0 1; RemFirst 1; RemFirst 1; RemLast 1])
    = Some ([0; 0; 0; 0; 0; 0; 5; 48; 80; 0; 0; 0; 96; 16; 32], (m', qs')) ∧
    world m' qs' {[ 0%nat := []; 1%nat := [48] ]} ∧
    DqSpec.payload <$> m' = DqSpec.payload <$> demo_dq_store ∧
    ∀ x, x ∉ demo_nodes → m' !! x = demo_dq_store !! x.
Proof.
  apply (dq_refines_lists demo_dq_store _ demo_lists _ _ _ demo_nodes).
  - vm_compute. reflexivity.
  - apply demo_dq_world.
  - apply demo_covers.
  - apply (bool_decide_unpack _). vm_compute. exact I.
  - vm_compute. reflexivity.
Defined.

End QueueProps.
