(* ===== verification/Wdog.v ===== *)
(** * Watchdog timers (sched/wdog)

    The active watchdogs form a singly linked delta list: [lag] is the number of
    ticks after the expiry of the predecessor.  The state is the store of
    watchdog structures and the list header [g_wdactivelist]; the build is the
    one with a periodic tick (no CONFIG_SCHED_TICKLESS).  Signed overflow in the
    [int] arithmetic is a fault ([add_int]).

    What a timeout function does to the watchdogs is a list of requests, given by
    the parameter [callback] for the function and its argument; [wd_timer]
    returns the functions it called, in order. *)

From S2P Require Import Prelude.
From S2P Require Import Queue.
From S2P Require Import QueueSq.

Module Wdog.
Import Sq.

Definition INT32_MAX : Z := 2147483647.
Definition INT32_MIN : Z := -2147483648.

(** Addition of type [int]. *)

Definition add_int (a b : Z) : option Z :=
  if (INT32_MIN <=? a + b) && (a + b <=? INT32_MAX) then Some (a + b) else None.

Record wdog_s := mk_wdog {
  next : Z;
  func : Z;
  lag : Z;
  flags : Z;
  arg : Z
}.

#[global, refine] Instance wdog_SqEntry : SqEntry wdog_s := {
  sq_flink := next;
  sq_set_flink p w := mk_wdog p (func w) (lag w) (flags w) (arg w)
}.
Proof. all: by intros ? ?. Defined.

Definition WDOGF_ACTIVE : Z := 1.
Definition WDOG_ISACTIVE (w : wdog_s) : bool := negb (Z.land (flags w) WDOGF_ACTIVE =? 0).

Definition WDOG_SETACTIVE (w : wdog_s) : wdog_s :=
  mk_wdog (next w) (func w) (lag w) (Z.lor (flags w) WDOGF_ACTIVE) (arg w).

Definition WDOG_CLRACTIVE (w : wdog_s) : wdog_s :=
  mk_wdog (next w) (func w) (lag w) (Z.ldiff (flags w) WDOGF_ACTIVE) (arg w).

Definition set_lag (v : Z) (w : wdog_s) : wdog_s :=
  mk_wdog (next w) (func w) v (flags w) (arg w).

Definition set_call (f a : Z) (w : wdog_s) : wdog_s :=
  mk_wdog (next w) f (lag w) (flags w) a.

Record wd_state := mk_wd {
  wdogs : gmap Z wdog_s;
  g_wdactivelist : sq_queue_s
}.

Definition wd_initialize (m : gmap Z wdog_s) : wd_state := mk_wd m sq_init.

(** [w->lag += d] *)

Definition add_lag (m : gmap Z wdog_s) (w d : Z) : option (gmap Z wdog_s) :=
  n ← deref m w;
  v ← add_int (lag n) d;
  update m w (set_lag v).

(** [while (curr && curr != wdog) { prev = curr; curr = curr->next; }] *)

Fixpoint wd_find (fuel : nat) (m : gmap Z wdog_s) (wdog prev curr : Z) : option (Z * Z) :=
  match fuel with
  | O => None
  | S fuel =>
      if negb (curr =? NULL) && negb (curr =? wdog) then
        n ← deref m curr;
        wd_find fuel m wdog curr (next n)
      else Some (prev, curr)
  end.

Definition wd_cancel (s : wd_state) (wdog : Z) : option (Z * wd_state) :=
  if wdog =? NULL then Some (- EINVAL, s) else
  w ← deref (wdogs s) wdog;
  if negb (WDOG_ISACTIVE w) then Some (- EINVAL, s) else
  '(prev, curr) ← wd_find (S (size (wdogs s))) (wdogs s) wdog NULL
                    (sq_head (g_wdactivelist s));
  DEBUGASSERT (negb (curr =? NULL)) ;;
  c ← deref (wdogs s) curr;
  m ← (if next c =? NULL then Some (wdogs s) else add_lag (wdogs s) (next c) (lag c));
  '(_, m, q) ← (if prev =? NULL then sq_remfirst m (g_wdactivelist s)
                else sq_remafter m prev (g_wdactivelist s));
  m ← update m wdog (sq_set_flink NULL);
  m ← update m wdog WDOG_CLRACTIVE;
  Some (OK, mk_wd m q).

Definition wd_recover (s : wd_state) (waitdog : Z) : option wd_state :=
  '(_, s) ← wd_cancel s waitdog; Some s.

(** [while ((now += curr->lag) < 0 && curr->next)]: the new [prev, curr, now]. *)

Fixpoint wd_positive (fuel : nat) (m : gmap Z wdog_s) (prev curr now : Z) :
    option (Z * Z * Z) :=
  match fuel with
  | O => None
  | S fuel =>
      c ← deref m curr;
      now ← add_int now (lag c);
      if (now <? 0) && negb (next c =? NULL)
      then wd_positive fuel m curr (next c) now
      else Some (prev, curr, now)
  end.

(** [while (now <= delay && curr->next)] *)

Fixpoint wd_advance (fuel : nat) (m : gmap Z wdog_s) (delay prev curr now : Z) :
    option (Z * Z * Z) :=
  match fuel with
  | O => None
  | S fuel =>
      c ← deref m curr;
      if (now <=? delay) && negb (next c =? NULL) then
        n ← deref m (next c);
        now ← add_int now (lag n);
        wd_advance fuel m delay curr (next c) now
      else Some (prev, curr, now)
  end.

(** The watchdog goes into a list that is not empty; the lag it gets. *)

Definition wd_insert (m : gmap Z wdog_s) (q : sq_queue_s) (wdog delay : Z) :
    option (Z * gmap Z wdog_s * sq_queue_s) :=
  let head := sq_head q in
  '(prev, curr, now) ← wd_positive (S (size m)) m head head 0;
  '(prev, curr, now) ← wd_advance (S (size m)) m delay prev curr now;
  c ← deref m curr;
  if delay <? now then
    back ← add_int now (- lag c);
    delay ← add_int delay (- back);
    m ← add_lag m curr (- delay);
    '(m, q) ← (if curr =? sq_head q then sq_addfirst m wdog q
               else sq_addafter m prev wdog q);
    Some (delay, m, q)
  else
    delay ← add_int delay (- now);
    if next c =? NULL then
      '(m, q) ← sq_addlast m wdog q; Some (delay, m, q)
    else
      m ← add_lag m (next c) (- delay);
      '(m, q) ← sq_addafter m curr wdog q; Some (delay, m, q).

(** [delay + 1], forced into range. *)

Definition wd_ticks (delay : Z) : Z :=
  if delay <=? 0 then 1
  else let delay := s32 (delay + 1) in
       if delay <=? 0 then s32 (delay - 1) else delay.

Definition wd_start (s : wd_state) (wdog delay wdentry parm : Z) : option (Z * wd_state) :=
  if (wdog =? NULL) || (delay <? 0) then Some (- EINVAL, s) else
  w ← deref (wdogs s) wdog;
  '(_, s) ← (if WDOG_ISACTIVE w then wd_cancel s wdog else Some (OK, s));
  m ← update (wdogs s) wdog (set_call wdentry parm);
  let delay := wd_ticks delay in
  let q := g_wdactivelist s in
  '(delay, m, q) ← (if sq_head q =? NULL
                    then '(m, q) ← sq_addlast m wdog q; Some (delay, m, q)
                    else wd_insert m q wdog delay);
  m ← update m wdog (set_lag delay);
  m ← update m wdog WDOG_SETACTIVE;
  Some (OK, mk_wd m q).

Fixpoint wd_gettime_loop (fuel : nat) (m : gmap Z wdog_s) (wdog curr delay : Z) : option Z :=
  match fuel with
  | O => None
  | S fuel =>
      if curr =? NULL then Some 0
      else
        c ← deref m curr;
        delay ← add_int delay (lag c);
        if curr =? wdog then Some delay
        else wd_gettime_loop fuel m wdog (next c) delay
  end.

Definition wd_gettime (s : wd_state) (wdog : Z) : option Z :=
  if wdog =? NULL then Some 0 else
  w ← deref (wdogs s) wdog;
  if WDOG_ISACTIVE w
  then wd_gettime_loop (S (size (wdogs s))) (wdogs s) wdog (sq_head (g_wdactivelist s)) 0
  else Some 0.

(** ** Expiration *)

Inductive wd_req := Start (wdog delay f a : Z) | Cancel (wdog : Z).

Definition wd_request (s : wd_state) (r : wd_req) : option wd_state :=
  match r with
  | Start w d f a => '(_, s) ← wd_start s w d f a; Some s
  | Cancel w => '(_, s) ← wd_cancel s w; Some s
  end.

Fixpoint wd_requests (s : wd_state) (rs : list wd_req) : option wd_state :=
  match rs with
  | [] => Some s
  | r :: rs => s ← wd_request s r; wd_requests s rs
  end.

Section Timer.
Context (callback : Z → Z → list wd_req).

(** The loop of [wd_expiration]; the calls are (watchdog, function, argument). *)

Fixpoint wd_expire (fuel : nat) (s : wd_state) : option (list (Z * Z * Z) * wd_state) :=
  match fuel with
  | O => None
  | S fuel =>
      let q := g_wdactivelist s in
      if sq_head q =? NULL then Some ([], s)
      else
        h ← deref (wdogs s) (sq_head q);
        if lag h <=? 0 then
          '(wdog, m, q) ← sq_remfirst (wdogs s) q;
          w ← deref m wdog;
          m ← (if sq_head q =? NULL then Some m else add_lag m (sq_head q) (lag w));
          m ← update m wdog WDOG_CLRACTIVE;
          s ← wd_requests (mk_wd m q) (callback (func w) (arg w));
          '(calls, s) ← wd_expire fuel s;
          Some ((wdog, func w, arg w) :: calls, s)
        else Some ([], s)
  end.

Definition wd_expiration (s : wd_state) : option (list (Z * Z * Z) * wd_state) :=
  h ← deref (wdogs s) (sq_head (g_wdactivelist s));
  if lag h <=? 0 then wd_expire (S (size (wdogs s))) s else Some ([], s).

Definition wd_timer (s : wd_state) : option (list (Z * Z * Z) * wd_state) :=
  if sq_head (g_wdactivelist s) =? NULL then Some ([], s)
  else
    m ← add_lag (wdogs s) (sq_head (g_wdactivelist s)) (-1);
    wd_expiration (mk_wd m (g_wdactivelist s)).
End Timer.
End Wdog.
