(* ===== verification/WdogSpec.v ===== *)
(** * Watchdog timers: the specification and the proofs

    The contract is a list of entries with absolute due times, in order of
    expiry.  [wd_rep now s es]: at time [now] the state [s] of [Wdog] represents
    the entries [es]. *)

From S2P Require Import Prelude.
From S2P Require Import Queue.
From S2P Require Import QueueSq.
From S2P Require Import Wdog.

Module WdogSpec.
Import Sq SqSpec Wdog.

Record entry := mk_entry {
  e_wdog : Z;
  e_due : Z;
  e_func : Z;
  e_arg : Z
}.

Definition e_wdogs (es : list entry) : list Z := e_wdog <$> es.

(** ** The contract *)

(** Equal due times expire in the order in which they were started. *)

Fixpoint abs_insert (e : entry) (es : list entry) : list entry :=
  match es with
  | [] => [e]
  | x :: es' => if e_due e <? e_due x then e :: es else x :: abs_insert e es'
  end.

Definition abs_remove (w : Z) (es : list entry) : list entry :=
  filter (λ e, e_wdog e ≠ w) es.

Definition abs_start (now : Z) (es : list entry) (w delay f a : Z) : Z * list entry :=
  if (w =? NULL) || (delay <? 0) then (- EINVAL, es)
  else (OK, abs_insert (mk_entry w (now + wd_ticks delay) f a) (abs_remove w es)).

Definition is_listed (w : Z) (es : list entry) : bool := bool_decide (w ∈ e_wdogs es).

Definition abs_cancel (es : list entry) (w : Z) : Z * list entry :=
  if is_listed w es then (OK, abs_remove w es) else (- EINVAL, es).

Definition abs_gettime (now : Z) (es : list entry) (w : Z) : Z :=
  match List.find (λ e, e_wdog e =? w) es with
  | Some e => e_due e - now
  | None => 0
  end.

Definition abs_request (now : Z) (es : list entry) (r : wd_req) : list entry :=
  match r with
  | Start w d f a => (abs_start now es w d f a).2
  | Cancel w => (abs_cancel es w).2
  end.

Definition abs_requests (now : Z) (es : list entry) (rs : list wd_req) : list entry :=
  foldl (abs_request now) es rs.

(** ** Representation *)

(** The data of a watchdog and its active flag, apart from the link. *)

Definition data (m : gmap Z wdog_s) (w : Z) : option (Z * Z * Z) :=
  (λ n, (lag n, func n, arg n)) <$> m !! w.

Definition active (m : gmap Z wdog_s) (w : Z) : option bool := WDOG_ISACTIVE <$> m !! w.

(** The lags of the entries are the differences of their due times. *)

Fixpoint deltas (m : gmap Z wdog_s) (t : Z) (es : list entry) : Prop :=
  match es with
  | [] => True
  | e :: es =>
      t ≤ e_due e ∧ data m (e_wdog e) = Some (e_due e - t, e_func e, e_arg e) ∧
      deltas m (e_due e) es
  end.

Record wd_rep (now : Z) (s : wd_state) (es : list entry) : Prop := {
  wr_queue : sq_rep (wdogs s) (g_wdactivelist s) (e_wdogs es);
  wr_deltas : deltas (wdogs s) now es;
  wr_bound : Forall (λ e, e_due e ≤ now + INT32_MAX) es;
  wr_active : ∀ w, w ∈ dom (wdogs s) → active (wdogs s) w = Some (is_listed w es)
}.

(** ** Stores *)

Implicit Types (m : gmap Z wdog_s) (es : list entry).

Lemma add_int_ok a b : INT32_MIN ≤ a + b ≤ INT32_MAX → add_int a b = Some (a + b).
Proof. intros. unfold add_int. by replace ((_ <=? _) && _) with true by lia. Qed.

Lemma deref_data m w l f a :
  w ≠ NULL → data m w = Some (l, f, a) →
  ∃ n, deref m w = Some n ∧ m !! w = Some n ∧ lag n = l ∧ func n = f ∧ arg n = a.
Proof.
  unfold data, deref. intros Hw Hd. rewrite (proj2 (Z.eqb_neq _ _) Hw).
  destruct (m !! w) as [n|] eqn:E; simplify_eq/=. by exists n.
Qed.

Lemma deref_dom m w : w ≠ NULL → w ∈ dom m → ∃ n, deref m w = Some n ∧ m !! w = Some n.
Proof.
  intros Hw [n Hn]%elem_of_dom. exists n. unfold deref. by rewrite (proj2 (Z.eqb_neq _ _) Hw).
Qed.

(** The link routines change no data and no flag. *)

Lemma changed_data s m m' w : changed s m m' → data m' w = data m w.
Proof.
  intros [Hp _]. apply (f_equal (.!! w)) in Hp. rewrite !lookup_fmap in Hp.
  unfold data. destruct (m' !! w), (m !! w); simplify_eq/=; congruence.
Qed.

Lemma changed_active s m m' w : changed s m m' → active m' w = active m w.
Proof.
  intros [Hp _]. apply (f_equal (.!! w)) in Hp. rewrite !lookup_fmap in Hp.
  unfold active, WDOG_ISACTIVE. destruct (m' !! w), (m !! w); simplify_eq/=; congruence.
Qed.

(** An assignment to another field changes no link. *)

Lemma update_field m w (f : wdog_s → wdog_s) n :
  w ≠ NULL → m !! w = Some n → (∀ n, next (f n) = next n) →
  ∃ m', update m w f = Some m' ∧ links m' = links m ∧ dom m' = dom m ∧
    m' !! w = Some (f n) ∧ (∀ x, x ≠ w → m' !! x = m !! x).
Proof.
  intros Hw Hn Hf. unfold update, deref. rewrite (proj2 (Z.eqb_neq _ _) Hw), Hn. simpl.
  eexists. split_and!; [done|..].
  - unfold links. rewrite fmap_insert. apply insert_id. simpl. by rewrite lookup_fmap, Hn, Hf.
  - rewrite dom_insert_L. apply elem_of_dom_2 in Hn. set_solver.
  - apply lookup_insert_eq.
  - intros x Hx. by apply lookup_insert_ne.
Qed.

Lemma data_eq m m' w : m' !! w = m !! w → data m' w = data m w.
Proof. unfold data. by intros ->. Qed.

Lemma active_eq m m' w : m' !! w = m !! w → active m' w = active m w.
Proof. unfold active. by intros ->. Qed.

Lemma rep_links m m' q l : links m' = links m → sq_rep m q l → sq_rep m' q l.
Proof. intros E []. constructor; try done. by rewrite E. Qed.

Lemma add_lag_spec m w d l f a :
  w ≠ NULL → data m w = Some (l, f, a) → INT32_MIN ≤ l + d ≤ INT32_MAX →
  ∃ m', add_lag m w d = Some m' ∧ links m' = links m ∧ dom m' = dom m ∧
    data m' w = Some (l + d, f, a) ∧ (∀ x, x ≠ w → data m' x = data m x) ∧
    (∀ x, active m' x = active m x).
Proof.
  intros Hw Hd Hb. destruct (deref_data _ _ _ _ _ Hw Hd) as (n & En & Hn & Hl & Hf & Ha).
  unfold add_lag. rewrite En. simpl. rewrite Hl, add_int_ok by done. simpl.
  destruct (update_field m w (set_lag (l + d)) n) as (m' & -> & Hlk & Hdm & Hw' & Ho); [done..|].
  exists m'. split_and!; [done..| | |].
  - unfold data. rewrite Hw'. simpl. by rewrite Hf, Ha.
  - intros x Hx. by apply data_eq, Ho.
  - intros x. destruct (decide (x = w)) as [->|Hx]; [|by apply active_eq, Ho].
    unfold active. by rewrite Hw', Hn.
Qed.

(** ** Entries *)

Definition last_due (t : Z) (es : list entry) : Z :=
  match last es with Some e => e_due e | None => t end.

Lemma last_due_cons t e es : last_due t (e :: es) = last_due (e_due e) es.
Proof. unfold last_due. rewrite last_cons. by destruct (last es). Qed.

Lemma deltas_app m t es1 es2 :
  deltas m t (es1 ++ es2) ↔ deltas m t es1 ∧ deltas m (last_due t es1) es2.
Proof.
  revert t. induction es1 as [|e es1 IH]; intros t; simpl; [tauto|].
  rewrite last_due_cons, IH. tauto.
Qed.

Lemma deltas_ext m m' t es :
  (∀ w, w ∈ e_wdogs es → data m' w = data m w) → deltas m t es → deltas m' t es.
Proof.
  revert t. induction es as [|e es IH]; intros t Hd; simpl; [done|]. intros (? & ? & ?).
  split_and!; [done| |]; [rewrite Hd; [done|set_solver]|]. apply IH; [|done]. set_solver.
Qed.

Lemma deltas_le m t es : deltas m t es → Forall (λ e, t ≤ e_due e) es ∧ t ≤ last_due t es.
Proof.
  revert t. induction es as [|e es IH]; intros t; simpl; [done|]. intros (? & _ & Hd).
  apply IH in Hd as [Hall ?]. rewrite last_due_cons. split; [|lia].
  constructor; [done|]. eapply Forall_impl; [done|]. simpl. lia.
Qed.

(** ** Cancellation *)

Lemma deref_link m x v :
  x ≠ NULL → links m !! x = Some v → ∃ n, deref m x = Some n ∧ m !! x = Some n ∧ next n = v.
Proof.
  unfold deref. rewrite lookup_links. intros Hx Hl. rewrite (proj2 (Z.eqb_neq _ _) Hx).
  destruct (m !! x) as [n|]; simplify_eq/=. by exists n.
Qed.

Lemma find_spec m w l2 l1 : ∀ fuel p,
  chain (links m) (l1 ++ w :: l2) NULL → w ∉ l1 → (length l1 < fuel)%nat →
  wd_find fuel m w p (first l1 w) = Some (first (reverse l1) p, w).
Proof.
  induction l1 as [|x l1 IH]; intros fuel p Hc Hw Hf; (destruct fuel as [|fuel]; [simpl in Hf; lia|]).
  - simpl. by rewrite Z.eqb_refl, andb_false_r.
  - destruct Hc as (Hx & Hgx & Hc). apply not_elem_of_cons in Hw as [Hwx Hw]. simpl.
    rewrite (proj2 (Z.eqb_neq _ _) Hx), (proj2 (Z.eqb_neq x w)) by done. simpl.
    destruct (deref_link _ _ _ Hx Hgx) as (n & -> & _ & Hn). simpl.
    rewrite Hn, first_app. simpl in Hf |- *. rewrite IH by (done || lia). simpl.
    by rewrite reverse_cons, first_app.
Qed.

(** The successor inherits the remaining ticks. *)

Lemma inherit_spec m now es1 e es2 :
  deltas m now (es1 ++ e :: es2) → NoDup (e_wdogs (es1 ++ e :: es2)) →
  NULL ∉ e_wdogs es2 → Forall (λ x, e_due x ≤ now + INT32_MAX) es2 →
  ∃ m1, (if first (e_wdogs es2) NULL =? NULL then Some m
         else add_lag m (first (e_wdogs es2) NULL) (e_due e - last_due now es1)) = Some m1 ∧
    links m1 = links m ∧ dom m1 = dom m ∧ (∀ x, active m1 x = active m x) ∧
    (∀ x, x ∉ e_wdogs es2 → data m1 x = data m x) ∧ deltas m1 now (es1 ++ es2).
Proof.
  intros Hd Hnd Hnz Hb. pose proof Hd as (Hd1 & Hle & He & Hd2)%deltas_app.
  destruct es2 as [|x es2]; simpl.
  { exists m. rewrite app_nil_r. by split_and!. }
  simpl in Hnz. apply not_elem_of_cons in Hnz as [Hx Hnz]. apply not_eq_sym in Hx.
  rewrite (proj2 (Z.eqb_neq _ _) Hx). destruct Hd2 as (Hle2 & Hdx & Hd2).
  apply Forall_cons in Hb as [Hbx _]. pose proof (deltas_le _ _ _ Hd1) as [_ ?].
  destruct (add_lag_spec m (e_wdog x) (e_due e - last_due now es1) _ _ _ Hx Hdx)
    as (m1 & -> & Hl1 & Hdom & Hdx1 & Ho & Ha).
  { unfold INT32_MIN, INT32_MAX in *. lia. }
  exists m1. split_and!; [done..|set_solver|]. unfold e_wdogs in Hnd. rewrite fmap_app in Hnd.
  apply NoDup_app in Hnd as (_ & Hdis & Hnd). simpl in Hnd. rewrite !NoDup_cons in Hnd.
  destruct Hnd as (_ & Hnx & _). apply deltas_app. split; [|simpl; split_and!].
  - eapply deltas_ext; [|done]. intros w Hw. apply Ho. intros ->. apply Hdis in Hw. set_solver.
  - lia.
  - rewrite Hdx1. do 3 f_equal. lia.
  - eapply deltas_ext; [|done]. intros w Hw. apply Ho. by intros ->.
Qed.

Lemma remove_at m q l1 w l2 :
  sq_rep m q (l1 ++ w :: l2) →
  ∃ m' q' s, (if first (reverse l1) NULL =? NULL then sq_remfirst m q
              else sq_remafter m (first (reverse l1) NULL) q) = Some (w, m', q') ∧
    sq_rep m' q' (l1 ++ l2) ∧ changed s m m'.
Proof.
  intros Hr. destruct l1 as [|y l1 _] using rev_ind.
  - destruct (sq_remfirst_spec _ _ _ _ Hr) as (m' & q' & E & ? & ?). by exists m', q', {[w]}.
  - rewrite reverse_snoc. simpl. rewrite <- app_assoc in *. simpl in *.
    rewrite (proj2 (Z.eqb_neq y NULL)) by (apply (sq_rep_nonzero _ _ _ y Hr); set_solver).
    destruct (remafter_spec _ _ _ _ _ _ Hr) as (m' & q' & E & ? & ?). by exists m', q', {[y; w]}.
Qed.

Lemma abs_remove_id w es : w ∉ e_wdogs es → abs_remove w es = es.
Proof.
  unfold abs_remove. induction es as [|x es IH]; [done|]. simpl. intros [? ?]%not_elem_of_cons.
  rewrite filter_cons_True by done. by rewrite IH.
Qed.

Lemma listed_split w es :
  is_listed w es = true → NoDup (e_wdogs es) →
  ∃ es1 e es2, es = es1 ++ e :: es2 ∧ e_wdog e = w ∧ (w ∉ e_wdogs es1) ∧ (w ∉ e_wdogs es2) ∧
    abs_remove w es = es1 ++ es2.
Proof.
  intros Hw%bool_decide_eq_true Hnd. apply list_elem_of_fmap in Hw as (e & -> & He).
  apply list_elem_of_split in He as (es1 & es2 & ->). exists es1, e, es2.
  unfold e_wdogs in *. rewrite fmap_app in Hnd. simpl in Hnd. apply NoDup_mid in Hnd as [Hn _].
  apply not_elem_of_app in Hn as [Hn1 Hn2]. split_and!; [done..|].
  unfold abs_remove. rewrite filter_app, filter_cons_False by (intros []; done).
  f_equal; by apply abs_remove_id.
Qed.

Lemma isactive_set n : WDOG_ISACTIVE (WDOG_SETACTIVE n) = true.
Proof.
  unfold WDOG_ISACTIVE, WDOG_SETACTIVE, WDOGF_ACTIVE. simpl. apply negb_true_iff, Z.eqb_neq.
  intros E. apply (f_equal (λ z, Z.testbit z 0)) in E.
  by rewrite Z.land_spec, Z.lor_spec, orb_true_r in E.
Qed.

Lemma isactive_clr n : WDOG_ISACTIVE (WDOG_CLRACTIVE n) = false.
Proof.
  unfold WDOG_ISACTIVE, WDOG_CLRACTIVE, WDOGF_ACTIVE. simpl. apply negb_false_iff, Z.eqb_eq.
  apply Z.bits_inj. intros i. rewrite Z.land_spec, Z.ldiff_spec, Z.bits_0.
  by destruct (Z.testbit (flags n) i), (Z.testbit 1 i).
Qed.

Lemma e_wdogs_app es1 es2 : e_wdogs (es1 ++ es2) = e_wdogs es1 ++ e_wdogs es2.
Proof. apply fmap_app. Qed.

Lemma is_listed_app x es1 es2 : is_listed x (es1 ++ es2) = is_listed x es1 || is_listed x es2.
Proof.
  unfold is_listed. rewrite e_wdogs_app. apply eq_true_iff_eq.
  by rewrite orb_true_iff, !bool_decide_eq_true, elem_of_app.
Qed.

Lemma is_listed_cons x e es : is_listed x (e :: es) = (x =? e_wdog e) || is_listed x es.
Proof.
  unfold is_listed. apply eq_true_iff_eq. change (e_wdogs (e :: es)) with (e_wdog e :: e_wdogs es).
  by rewrite orb_true_iff, !bool_decide_eq_true, Z.eqb_eq, elem_of_cons.
Qed.

Lemma rep_wdog_nonzero now s es w : wd_rep now s es → w ∈ e_wdogs es → w ≠ NULL.
Proof. intros Hr. apply (sq_rep_nonzero _ _ _ _ (wr_queue _ _ _ Hr)). Qed.

(** The flag of a watchdog that has left the list is reset. *)

Lemma retire_spec now m m2 q' es1 e es2 :
  sq_rep m2 q' (e_wdogs (es1 ++ es2)) → deltas m2 now (es1 ++ es2) →
  Forall (λ x, e_due x ≤ now + INT32_MAX) (es1 ++ es2) →
  dom m2 = dom m → e_wdog e ≠ NULL → e_wdog e ∈ dom m → e_wdog e ∉ e_wdogs (es1 ++ es2) →
  (∀ x, x ∈ dom m → active m2 x = Some (is_listed x (es1 ++ e :: es2))) →
  ∃ m4, update m2 (e_wdog e) WDOG_CLRACTIVE = Some m4 ∧
    wd_rep now (mk_wd m4 q') (es1 ++ es2) ∧ dom m4 = dom m.
Proof.
  intros Hr Hd Hb Hdom Hw Hwd Hnw Ha. rewrite <- Hdom in Hwd.
  destruct (deref_dom _ _ Hw Hwd) as (n & _ & Hn).
  destruct (update_field m2 _ WDOG_CLRACTIVE n Hw Hn) as (m4 & -> & Hl4 & Hdom4 & Hn4 & Ho4); [done|].
  exists m4. split; [done|]. split; [|congruence]. constructor; simpl.
  - by eapply rep_links.
  - eapply deltas_ext; [|done]. intros x Hx. apply data_eq, Ho4. by intros ->.
  - done.
  - intros x Hx. destruct (decide (x = e_wdog e)) as [->|Hne].
    + unfold active. rewrite Hn4. simpl. rewrite isactive_clr. f_equal. symmetry.
      by apply bool_decide_eq_false.
    + rewrite (active_eq m2) by (by apply Ho4).
      rewrite Ha, !is_listed_app, is_listed_cons by congruence.
      by rewrite (proj2 (Z.eqb_neq x (e_wdog e))).
Qed.

Lemma cancel_spec now s es w :
  wd_rep now s es → w = NULL ∨ w ∈ dom (wdogs s) →
  ∃ s', wd_cancel s w = Some ((abs_cancel es w).1, s') ∧
    wd_rep now s' (abs_cancel es w).2 ∧ dom (wdogs s') = dom (wdogs s).
Proof.
  intros Hr Hw. pose proof (wr_queue _ _ _ Hr) as Hq. unfold wd_cancel, abs_cancel.
  destruct (Z.eqb_spec w NULL) as [->|Hnz].
  { exists s. unfold is_listed. rewrite bool_decide_eq_false_2; [done|].
    intros Hin. by apply (rep_wdog_nonzero _ _ _ _ Hr) in Hin. }
  destruct Hw as [|Hd]; [done|]. destruct (deref_dom _ _ Hnz Hd) as (n & -> & Hn).
  cbn [mbind option_bind]. pose proof (wr_active _ _ _ Hr w Hd) as Ha. unfold active in Ha. rewrite Hn in Ha.
  injection Ha as ->. destruct (is_listed w es) eqn:Hlist; cbn [negb]; [|by exists s].
  pose proof (rep_nodup _ _ _ Hq) as Hnd. pose proof (wr_deltas _ _ _ Hr) as Hdel.
  pose proof (wr_bound _ _ _ Hr) as Hb. pose proof (wr_active _ _ _ Hr) as Hact.
  destruct (listed_split w es Hlist Hnd) as (es1 & e & es2 & -> & He & Hn1 & Hn2 & Hrem).
  rewrite Hrem. clear Hrem Hlist. rewrite e_wdogs_app in Hq. simpl in Hq. rewrite He in Hq.
  pose proof (rep_chain _ _ _ Hq) as Hch.
  rewrite (rep_head _ _ _ Hq), first_app. cbn [first].
  pose proof (sq_rep_length _ _ _ Hq) as Hlen. rewrite length_app in Hlen. simpl in Hlen.
  rewrite (find_spec _ _ _ _ _ _ Hch Hn1) by lia. cbn [mbind option_bind].
  rewrite (proj2 (Z.eqb_neq _ _) Hnz). cbn [mbind option_bind DEBUGASSERT negb].
  pose proof Hch as (_ & _ & Hgw & _)%chain_app.
  destruct (deref_link _ _ _ Hnz Hgw) as (c & -> & Hc & Hcn). cbn [mbind option_bind].
  pose proof Hdel as (_ & _ & Hdw & _)%deltas_app. rewrite He in Hdw.
  assert (Hlag : lag c = e_due e - last_due now es1).
  { unfold data in Hdw. rewrite Hc in Hdw. by injection Hdw. }
  apply Forall_app in Hb as [Hb1 [Hbe Hb2]%Forall_cons].
  destruct (inherit_spec _ now es1 e es2 Hdel Hnd) as (m1 & E1 & Hl1 & Hdom1 & Ha1 & _ & Hd1); [|done|].
  { intros Hin. apply (rep_wdog_nonzero _ _ _ NULL Hr); [|done]. rewrite e_wdogs_app. set_solver. }
  rewrite Hcn, Hlag, E1. cbn [mbind option_bind].
  apply (rep_links _ m1) in Hq; [|done].
  destruct (remove_at _ _ _ _ _ Hq) as (m2 & q' & sx & E2 & Hq2 & Hc2).
  rewrite E2. cbn [mbind option_bind]. pose proof (sq_changed_dom _ _ _ Hc2) as Hdom2.
  destruct (update_spec m2 w NULL Hnz) as (m3 & -> & _ & Hc3); [by rewrite Hdom2, Hdom1|].
  cbn [mbind option_bind]. pose proof (sq_changed_dom _ _ _ Hc3) as Hdom3. subst w.
  destruct (retire_spec now (wdogs s) m3 q' es1 e es2) as (m4 & -> & Hrep4 & Hdom4); try done.
  - rewrite e_wdogs_app. eapply sq_rep_frame; [done..|]. set_solver.
  - eapply deltas_ext; [|done]. intros x _.
    by rewrite (changed_data _ _ _ _ Hc3), (changed_data _ _ _ _ Hc2).
  - by apply Forall_app.
  - congruence.
  - rewrite e_wdogs_app. set_solver.
  - intros x Hx. rewrite (changed_active _ _ _ _ Hc3), (changed_active _ _ _ _ Hc2), Ha1. by apply Hact.
  - by exists (mk_wd m4 q').
Qed.

(** ** Starting a watchdog *)

Lemma abs_insert_mid e pre x post :
  Forall (λ y, e_due y ≤ e_due e) pre → e_due e < e_due x →
  abs_insert e (pre ++ x :: post) = pre ++ e :: x :: post.
Proof.
  induction 1 as [|y pre Hy _ IH]; simpl; intros Hx; case_if; try lia; [done|]. by rewrite IH.
Qed.

Lemma abs_insert_end e es :
  Forall (λ y, e_due y ≤ e_due e) es → abs_insert e es = es ++ [e].
Proof. induction 1 as [|y pre Hy _ IH]; simpl; [done|]. case_if; [lia|]. by rewrite IH. Qed.

Section Insertion.
Context (m : gmap Z wdog_s) (now : Z).

(** A node of the list, as the loops see it. *)

Lemma deref_entry x t post :
  chain (links m) (e_wdogs (x :: post)) NULL → deltas m t (x :: post) →
  ∃ n, deref m (e_wdog x) = Some n ∧ next n = first (e_wdogs post) NULL ∧
    lag n = e_due x - t ∧ func n = e_func x ∧ arg n = e_arg x.
Proof.
  intros (Hx & Hg & _) (_ & Hd & _). destruct (deref_link _ _ _ Hx Hg) as (n & E & Hn & Hnx).
  exists n. unfold data in Hd. rewrite Hn in Hd. by simplify_eq/=.
Qed.

Lemma advance_spec delay p0 post : ∀ pre x t fuel,
  chain (links m) (e_wdogs (x :: post)) NULL → deltas m t (x :: post) → now ≤ t →
  Forall (λ y, e_due y ≤ now + INT32_MAX) (x :: post) → (length post < fuel)%nat →
  Forall (λ y, e_due y ≤ now + delay) pre →
  ∃ pre' x' post', pre ++ x :: post = pre' ++ x' :: post' ∧
    wd_advance fuel m delay (first (reverse (e_wdogs pre)) p0) (e_wdog x) (e_due x - now) =
      Some (first (reverse (e_wdogs pre')) p0, e_wdog x', e_due x' - now) ∧
    Forall (λ y, e_due y ≤ now + delay) pre' ∧ (now + delay < e_due x' ∨ post' = []).
Proof.
  induction post as [|y post IH]; intros pre x t fuel Hch Hd Ht Hb Hf Hpre;
    (destruct fuel as [|fuel]; [simpl in Hf; lia|]);
    destruct (deref_entry x t _ Hch Hd) as (n & E & Hnx & _); cbn [wd_advance];
    rewrite E; cbn [mbind option_bind]; rewrite Hnx.
  - rewrite andb_false_r. exists pre, x, []. split_and!; auto.
  - destruct Hd as (Hle & _ & Hd). destruct Hch as (Hx & _ & Hch). cbn [first e_wdogs fmap list_fmap].
    pose proof Hch as (Hy & _). rewrite (proj2 (Z.eqb_neq _ _) Hy), andb_true_r.
    case_if; [|exists pre, x, (y :: post); split_and!; auto; left; lia].
    destruct (deref_entry y _ _ Hch Hd) as (n' & E' & _ & Hl & _). rewrite E'. cbn [mbind option_bind].
    apply Forall_cons in Hb as [_ Hb]. pose proof Hb as [Hby _]%Forall_cons. destruct Hd as (Hle' & Hd).
    rewrite Hl, add_int_ok by (unfold INT32_MIN, INT32_MAX in *; lia). cbn [mbind option_bind].
    replace (e_due x - now + (e_due y - e_due x)) with (e_due y - now) by lia.
    destruct (IH (pre ++ [x]) y (e_due x) fuel) as (pre' & x' & post' & Es & Ea & Hp & Hend);
      [done|done|lia|done|simpl in Hf; lia| |].
    { apply Forall_app. split; [done|]. apply Forall_singleton. lia. }
    exists pre', x', post'. rewrite <- app_assoc in Es. split_and!; [done| |done..].
    rewrite <- Ea, e_wdogs_app. change (e_wdogs [x]) with [e_wdog x]. by rewrite reverse_snoc.
Qed.

(** Once the new watchdog has its lag, the deltas are those of the longer list. *)

Lemma deltas_insert m' pre e post d :
  deltas m' now pre → e_wdog e ∉ e_wdogs (pre ++ post) →
  now ≤ last_due now pre ≤ e_due e → d = e_due e - last_due now pre →
  deltas m' (e_due e) post →
  ∀ m'', (∀ x, x ≠ e_wdog e → data m'' x = data m' x) →
    data m'' (e_wdog e) = Some (d, e_func e, e_arg e) → deltas m'' now (pre ++ e :: post).
Proof.
  intros Hpre Hnin Hle -> Hpost m'' Ho He. rewrite e_wdogs_app in Hnin.
  apply not_elem_of_app in Hnin as [Hn1 Hn2]. apply deltas_app. split; [|simpl; split_and!].
  - eapply deltas_ext; [|done]. intros x Hx. apply Ho. by intros ->.
  - lia.
  - done.
  - eapply deltas_ext; [|done]. intros x Hx. apply Ho. by intros ->.
Qed.

(** What an insertion of [e] with lag [d] achieves before the lag is stored. *)

Definition inserted (e : entry) (d : Z) m' (q' : sq_queue_s) (es' : list entry) : Prop :=
  sq_rep m' q' (e_wdogs es') ∧ dom m' = dom m ∧ (∀ x, active m' x = active m x) ∧
  data m' (e_wdog e) = data m (e_wdog e) ∧
  ∀ m'', (∀ x, x ≠ e_wdog e → data m'' x = data m' x) →
    data m'' (e_wdog e) = Some (d, e_func e, e_arg e) → deltas m'' now es'.

Section At.
Context (q : sq_queue_s) (e : entry) (delay : Z).
Context (Hdue : e_due e = now + delay) (Hdelay : 0 ≤ delay ≤ INT32_MAX).
Context (Hw : e_wdog e ≠ NULL) (Hdom : e_wdog e ∈ dom m).

Lemma insert_before_entry pre x post :
  sq_rep m q (e_wdogs (pre ++ x :: post)) → deltas m now (pre ++ x :: post) →
  Forall (λ y, e_due y ≤ now + INT32_MAX) (pre ++ x :: post) →
  Forall (λ y, e_due y ≤ e_due e) pre → e_due e < e_due x →
  e_wdog e ∉ e_wdogs (pre ++ x :: post) →
  ∃ d m' q', (m ← add_lag m (e_wdog x) (- (e_due e - last_due now pre));
     '(m, q) ← (if e_wdog x =? sq_head q then sq_addfirst m (e_wdog e) q
                else sq_addafter m (first (reverse (e_wdogs pre)) (sq_head q)) (e_wdog e) q);
     Some (e_due e - last_due now pre, m, q)) = Some (d, m', q') ∧
    inserted e d m' q' (pre ++ e :: x :: post).
Proof.
  intros Hq Hd Hb Hpre Hx Hn. pose proof Hd as (Hd1 & Hlex & Hdx & Hd2)%deltas_app.
  pose proof (deltas_le _ _ _ Hd1) as [_ Hld].
  assert (Hld' : last_due now pre ≤ e_due e).
  { unfold last_due. destruct (last pre) as [y|] eqn:El; [|lia].
    apply last_Some_elem_of in El. by eapply Forall_forall in Hpre. }
  assert (Hxz : e_wdog x ≠ NULL) by (apply (sq_rep_nonzero _ _ _ _ Hq); rewrite e_wdogs_app; set_solver).
  assert (Hbx : e_due x ≤ now + INT32_MAX) by (eapply Forall_forall in Hb; [done|set_solver]).
  destruct (add_lag_spec m (e_wdog x) (- (e_due e - last_due now pre)) _ _ _ Hxz Hdx)
    as (m1 & -> & Hl1 & Hdom1 & Hdx1 & Ho1 & Ha1).
  { unfold INT32_MIN, INT32_MAX in *. lia. }
  cbn [mbind option_bind]. apply (rep_links _ m1) in Hq; [|done].
  assert (∃ m2 q2 s2, (if e_wdog x =? sq_head q then sq_addfirst m1 (e_wdog e) q
      else sq_addafter m1 (first (reverse (e_wdogs pre)) (sq_head q)) (e_wdog e) q) = Some (m2, q2) ∧
      sq_rep m2 q2 (e_wdogs (pre ++ e :: x :: post)) ∧ changed s2 m1 m2)
    as (m2 & q2 & s2 & -> & Hq2 & Hc2).
  { rewrite (rep_head _ _ _ Hq). rewrite e_wdogs_app in *. rewrite first_app.
    destruct pre as [|y pre _] using rev_ind.
    - simpl. rewrite Z.eqb_refl. destruct (sq_addfirst_spec _ _ _ (e_wdog e) Hq) as (m2 & q2 & ? & ? & ?);
        [done|by rewrite Hdom1|done|]. by exists m2, q2, {[e_wdog e]}.
    - pose proof (rep_nodup _ _ _ Hq) as Hnd. rewrite e_wdogs_app in *. simpl in *.
      rewrite reverse_snoc, <- app_assoc in *. simpl in *.
      rewrite first_app. simpl. rewrite (proj2 (Z.eqb_neq _ _)) by (apply not_eq_sym; by eapply first_ne).
      destruct (sq_addafter_spec _ _ _ _ _ (e_wdog e) Hq) as (m2 & q2 & ? & ? & ?);
        [done|by rewrite Hdom1|done|]. eexists m2, q2, _.
      rewrite e_wdogs_app. by split_and!. }
  do 3 eexists. split; [done|]. split_and!; [done|..].
  - rewrite (sq_changed_dom _ _ _ Hc2). done.
  - intros y. by rewrite (changed_active _ _ _ _ Hc2).
  - rewrite (changed_data _ _ _ _ Hc2). apply Ho1. intros E. apply Hn. rewrite E, e_wdogs_app. set_solver.
  - assert (Hdat : ∀ y, y ≠ e_wdog x → data m2 y = data m y)
      by (intros; rewrite (changed_data _ _ _ _ Hc2); by apply Ho1).
    pose proof (rep_nodup _ _ _ Hq) as Hnd. rewrite e_wdogs_app in Hnd.
    apply NoDup_app in Hnd as (_ & Hdis & [Hnx _]%NoDup_cons).
    apply (deltas_insert m2); [|done|lia|done|simpl; split_and!].
    + eapply deltas_ext; [|done]. intros y Hy. apply Hdat. intros ->. apply Hdis in Hy. set_solver.
    + lia.
    + rewrite (changed_data _ _ _ _ Hc2), Hdx1. do 3 f_equal. lia.
    + eapply deltas_ext; [|done]. intros y Hy. apply Hdat. by intros ->.
Qed.

Lemma insert_at_end pre x :
  sq_rep m q (e_wdogs (pre ++ [x])) → deltas m now (pre ++ [x]) →
  Forall (λ y, e_due y ≤ e_due e) (pre ++ [x]) → e_wdog e ∉ e_wdogs (pre ++ [x]) →
  ∃ m' q', sq_addlast m (e_wdog e) q = Some (m', q') ∧
    inserted e (e_due e - e_due x) m' q' ((pre ++ [x]) ++ [e]).
Proof.
  intros Hq Hd Hle Hn. destruct (sq_addlast_spec _ _ _ (e_wdog e) Hq) as (m2 & q2 & E & Hq2 & Hc2);
    [done..|]. exists m2, q2. split; [done|]. split_and!.
  - by rewrite (e_wdogs_app (pre ++ [x])).
  - apply (sq_changed_dom _ _ _ Hc2).
  - intros y. apply (changed_active _ _ _ _ Hc2).
  - apply (changed_data _ _ _ _ Hc2).
  - assert (Hld : last_due now (pre ++ [x]) = e_due x) by (unfold last_due; by rewrite last_snoc).
    pose proof (deltas_le _ _ _ Hd) as [_ Hlo]. rewrite Hld in Hlo. apply Forall_app in Hle as [_ [Hx _]%Forall_cons].
    apply (deltas_insert m2 (pre ++ [x]) e []);
      [|by rewrite app_nil_r|rewrite Hld; lia|by rewrite Hld|done].
    eapply deltas_ext; [|done]. intros y _. apply (changed_data _ _ _ _ Hc2).
Qed.

Lemma insert_spec es :
  es ≠ [] → sq_rep m q (e_wdogs es) → deltas m now es →
  Forall (λ y, e_due y ≤ now + INT32_MAX) es → e_wdog e ∉ e_wdogs es →
  ∃ d m' q', wd_insert m q (e_wdog e) delay = Some (d, m', q') ∧
    inserted e d m' q' (abs_insert e es).
Proof.
  intros Hne Hq Hd Hb Hn. destruct es as [|x0 es]; [done|]. clear Hne.
  pose proof (rep_chain _ _ _ Hq) as Hch. pose proof (sq_rep_length _ _ _ Hq) as Hlen.
  unfold e_wdogs in Hlen. rewrite length_fmap in Hlen. simpl in Hlen.
  unfold wd_insert. pose proof (rep_head _ _ _ Hq) as Hh. simpl in Hh. rewrite Hh.
  destruct (deref_entry x0 now es Hch Hd) as (n & E & _ & Hl & _).
  cbn [wd_positive]. rewrite E. cbn [mbind option_bind]. rewrite Hl.
  pose proof Hd as (Hle & _). pose proof Hb as [Hb0 _]%Forall_cons.
  rewrite add_int_ok by (unfold INT32_MIN, INT32_MAX in *; lia). cbn [mbind option_bind].
  replace (0 + (e_due x0 - now) <? 0) with false by lia. cbn [andb mbind option_bind].
  destruct (advance_spec delay (e_wdog x0) es [] x0 now (S (size m)) Hch Hd) as
    (pre & x & post & Es & Ea & Hpre & Hend); [lia|done|lia|done|].
  simpl app in Es. change (first (reverse (e_wdogs [])) (e_wdog x0)) with (e_wdog x0) in Ea.
  rewrite Z.add_0_l. rewrite Ea. cbn [mbind option_bind]. clear Ea E Hl n.
  rewrite Es in *. rewrite e_wdogs_app in Hch. apply chain_app in Hch as [_ Hchx].
  pose proof Hd as [Hd1 Hdx]%deltas_app. pose proof (deltas_le _ _ _ Hd1) as [_ Hld].
  destruct (deref_entry x _ post Hchx Hdx) as (n & E & Hnx & Hl & _). rewrite E. cbn [mbind option_bind].
  assert (Hbx : e_due x ≤ now + INT32_MAX) by (eapply Forall_forall in Hb; [done|set_solver]).
  pose proof Hdx as (Hlex & _). rewrite <- Hdue in *. case_if.
  - rewrite Hl, (add_int_ok (e_due x - now)) by (unfold INT32_MIN, INT32_MAX in *; lia).
    cbn [mbind option_bind]. rewrite add_int_ok by (unfold INT32_MIN, INT32_MAX in *; lia).
    cbn [mbind option_bind].
    replace (delay + - (e_due x - now + - (e_due x - last_due now pre)))
      with (e_due e - last_due now pre) by lia.
    rewrite abs_insert_mid by (done || lia). rewrite <- Hh. apply insert_before_entry; try done. lia.
  - destruct Hend as [?| ->]; [lia|]. rewrite add_int_ok by (unfold INT32_MIN, INT32_MAX in *; lia).
    cbn [mbind option_bind]. rewrite Hnx. cbn [e_wdogs fmap list_fmap first]. rewrite Z.eqb_refl.
    rewrite abs_insert_end.
    + destruct (insert_at_end pre x) as (m' & q' & -> & Hins); [done..| |done|].
      * apply Forall_app. split; [done|]. apply Forall_singleton. lia.
      * cbn [mbind option_bind]. do 3 eexists. split; [done|].
        by replace (delay + - (e_due x - now)) with (e_due e - e_due x) by lia.
    + apply Forall_app. split; [done|]. apply Forall_singleton. lia.
Qed.
End At.
End Insertion.

Lemma abs_insert_perm e es : abs_insert e es ≡ₚ e :: es.
Proof.
  induction es as [|x es IH]; simpl; [done|]. case_if; [done|].
  rewrite IH. apply Permutation_swap.
Qed.

Lemma is_listed_perm x es es' : es ≡ₚ es' → is_listed x es = is_listed x es'.
Proof.
  intros Hp. unfold is_listed, e_wdogs. apply bool_decide_ext. by rewrite Hp.
Qed.

Lemma wd_ticks_range delay : 0 ≤ delay ≤ INT32_MAX → 1 ≤ wd_ticks delay ≤ INT32_MAX.
Proof.
  intros Hd. unfold wd_ticks, INT32_MAX in *. case_if; [lia|]. destruct (decide (delay = 2147483647)).
  - subst. vm_compute. split; discriminate.
  - rewrite s32_small by lia. case_if; lia.
Qed.

Section Start.
Context (now : Z) (q : sq_queue_s) (e : entry) (delay : Z).
Context (Hdue : e_due e = now + delay) (Hdelay : 0 ≤ delay ≤ INT32_MAX).
Context (Hw : e_wdog e ≠ NULL).

Lemma enqueue_spec m es :
  e_wdog e ∈ dom m → sq_rep m q (e_wdogs es) → deltas m now es →
  Forall (λ y, e_due y ≤ now + INT32_MAX) es → e_wdog e ∉ e_wdogs es →
  ∃ d m' q', (if sq_head q =? NULL
              then '(m, q) ← sq_addlast m (e_wdog e) q; Some (delay, m, q)
              else wd_insert m q (e_wdog e) delay) = Some (d, m', q') ∧
    inserted m now e d m' q' (abs_insert e es).
Proof.
  intros Hdom Hq Hd Hb Hn. rewrite (sq_rep_head0 _ _ _ Hq). case_bool_decide as Hnil.
  - apply fmap_nil_inv in Hnil as ->.
    destruct (sq_addlast_spec _ _ _ (e_wdog e) Hq) as (m' & q' & -> & Hq' & Hc); [done..|].
    cbn [mbind option_bind]. do 3 eexists. split; [done|]. split_and!; [done|..].
    + apply (sq_changed_dom _ _ _ Hc).
    + intros y. apply (changed_active _ _ _ _ Hc).
    + apply (changed_data _ _ _ _ Hc).
    + intros m'' _ He. simpl. split_and!; [lia| |done]. rewrite He. do 3 f_equal. lia.
  - apply insert_spec; try done. by intros ->.
Qed.

(** The lag and the flag complete the insertion. *)

Lemma activate_spec m es d m' q' :
  e_wdog e ∈ dom m → inserted m now e d m' q' (abs_insert e es) →
  (∃ l, data m (e_wdog e) = Some (l, e_func e, e_arg e)) →
  Forall (λ y, e_due y ≤ now + INT32_MAX) es →
  (∀ x, x ∈ dom m → active m x = Some (is_listed x es)) →
  ∃ m'', (m1 ← update m' (e_wdog e) (set_lag d); update m1 (e_wdog e) WDOG_SETACTIVE) = Some m'' ∧
    wd_rep now (mk_wd m'' q') (abs_insert e es) ∧ dom m'' = dom m.
Proof.
  intros Hdm (Hq & Hdom & Hact & Hdat & Hdel) [l Hl] Hb Ha. rewrite Hl in Hdat.
  destruct (deref_data _ _ _ _ _ Hw Hdat) as (n & _ & Hn & Hl' & Hf & Har).
  destruct (update_field m' _ (set_lag d) n Hw Hn) as (m1 & -> & Hl1 & Hd1 & Hn1 & Ho1); [done|].
  cbn [mbind option_bind].
  destruct (update_field m1 _ WDOG_SETACTIVE _ Hw Hn1) as (m2 & -> & Hl2 & Hd2 & Hn2 & Ho2); [done|].
  exists m2. split; [done|]. split; [|congruence].
  assert (Ho : ∀ x, x ≠ e_wdog e → m2 !! x = m' !! x) by (intros; rewrite Ho2, Ho1; done).
  constructor; simpl.
  - eapply rep_links; [|done]. congruence.
  - apply Hdel; [intros x Hx; by apply data_eq, Ho|]. unfold data. rewrite Hn2. simpl. congruence.
  - rewrite abs_insert_perm. constructor; [lia|done].
  - intros x Hx. rewrite (is_listed_perm x _ _ (abs_insert_perm e es)), is_listed_cons.
    destruct (Z.eqb_spec x (e_wdog e)) as [->|Hne]; simpl.
    + unfold active. rewrite Hn2. simpl. by rewrite isactive_set.
    + rewrite (active_eq m') by (by apply Ho). rewrite Hact. apply Ha. congruence.
Qed.
End Start.

Lemma remove_not_listed w es : w ∉ e_wdogs (abs_remove w es).
Proof.
  unfold e_wdogs, abs_remove. intros (e & -> & He)%list_elem_of_fmap.
  by apply list_elem_of_filter in He as [? _].
Qed.

(** After the cancellation of a running watchdog it is not on the list. *)

Lemma stop_spec now s es w n :
  wd_rep now s es → w ≠ NULL → wdogs s !! w = Some n →
  ∃ r s', (if WDOG_ISACTIVE n then wd_cancel s w else Some (OK, s)) = Some (r, s') ∧
    wd_rep now s' (abs_remove w es) ∧ dom (wdogs s') = dom (wdogs s).
Proof.
  intros Hr Hw Hn. assert (Hd : w ∈ dom (wdogs s)) by (by eapply elem_of_dom_2).
  pose proof (wr_active _ _ _ Hr w Hd) as Ha. unfold active in Ha. rewrite Hn in Ha.
  injection Ha as ->. destruct (is_listed w es) eqn:Hlist.
  - destruct (cancel_spec now s es w Hr) as (s' & E & Hr' & Hd'); [by right|].
    unfold abs_cancel in *. rewrite Hlist in *. by exists OK, s'.
  - exists OK, s. split_and!; try done. rewrite abs_remove_id; [done|].
    by apply bool_decide_eq_false in Hlist.
Qed.

Lemma start_spec now s es w delay f a :
  wd_rep now s es → w = NULL ∨ w ∈ dom (wdogs s) → delay ≤ INT32_MAX →
  ∃ s', wd_start s w delay f a = Some ((abs_start now es w delay f a).1, s') ∧
    wd_rep now s' (abs_start now es w delay f a).2 ∧ dom (wdogs s') = dom (wdogs s).
Proof.
  intros Hr Hw Hmax. unfold wd_start, abs_start. case_if; [by exists s|].
  destruct Hw as [|Hd]; [done|]. destruct (deref_dom _ _ ltac:(done) Hd) as (n & -> & Hn).
  cbn [mbind option_bind]. pose proof (wd_ticks_range delay ltac:(lia)) as Ht.
  destruct (stop_spec _ _ _ _ _ Hr ltac:(done) Hn) as (r & s1 & -> & Hr1 & Hd1).
  cbn [mbind option_bind]. rewrite <- Hd1 in Hd. destruct (deref_dom _ _ ltac:(done) Hd) as (n1 & _ & Hn1).
  set (e := mk_entry w (now + wd_ticks delay) f a). set (es1 := abs_remove w es) in *.
  assert (Hnin : w ∉ e_wdogs es1) by apply remove_not_listed.
  destruct (update_field (wdogs s1) w (set_call f a) n1) as (m1 & -> & Hl1 & Hdm1 & Hw1 & Ho1); [done..|].
  cbn [mbind option_bind]. cbv zeta.
  assert (Hact : ∀ x, x ∈ dom m1 → active m1 x = Some (is_listed x es1)).
  { intros x Hx. rewrite Hdm1 in Hx. rewrite <- (wr_active _ _ _ Hr1 x Hx).
    destruct (decide (x = w)) as [->|]; [|by apply active_eq, Ho1].
    unfold active. by rewrite Hw1, Hn1. }
  destruct (enqueue_spec now (g_wdactivelist s1) e (wd_ticks delay) eq_refl ltac:(lia) ltac:(done) m1 es1)
    as (d & m2 & q2 & E2 & Hins); [by rewrite Hdm1|by eapply rep_links, Hr1| |apply Hr1|done|].
  { eapply deltas_ext; [|apply Hr1]. intros x Hx. apply data_eq, Ho1. by intros ->. }
  cbn [e_wdog e] in E2. rewrite E2. cbn [mbind option_bind].
  destruct (activate_spec now e (wd_ticks delay) eq_refl ltac:(lia) ltac:(done) m1 es1 d m2 q2)
    as (m3 & E3 & Hr3 & Hd3); [by rewrite Hdm1|done| |apply Hr1|done|].
  { unfold data. simpl. rewrite Hw1. by eexists. }
  cbn [e_wdog e] in E3. destruct (update m2 w (set_lag d)) as [m2'|]; [|done].
  cbn [mbind option_bind] in *. rewrite E3. exists (mk_wd m3 q2). split_and!; [done..|].
  simpl. congruence.
Qed.

(** ** Remaining time *)

Lemma gettime_loop_spec m now w es : ∀ t fuel,
  chain (links m) (e_wdogs es) NULL → deltas m t es → now ≤ t →
  Forall (λ y, e_due y ≤ now + INT32_MAX) es → (length es < fuel)%nat →
  wd_gettime_loop fuel m w (first (e_wdogs es) NULL) (t - now) = Some (abs_gettime now es w).
Proof.
  induction es as [|e es IH]; intros t fuel Hch Hd Ht Hb Hf;
    (destruct fuel as [|fuel]; [simpl in Hf; lia|]); [done|].
  destruct (deref_entry m e t es Hch Hd) as (n & E & Hnx & Hl & _).
  destruct Hd as (Hle & _ & Hd). destruct Hch as (Hw & _ & Hch). apply Forall_cons in Hb as [Hbe Hb].
  cbn [wd_gettime_loop first e_wdogs fmap list_fmap]. rewrite (proj2 (Z.eqb_neq _ _) Hw), E.
  cbn [mbind option_bind]. rewrite Hl, add_int_ok by (unfold INT32_MIN, INT32_MAX in *; lia).
  cbn [mbind option_bind]. replace (t - now + (e_due e - t)) with (e_due e - now) by lia.
  unfold abs_gettime. simpl. case_if; [done|]. rewrite Hnx.
  apply IH; try done; [lia|simpl in Hf; lia].
Qed.

Lemma gettime_spec now s es w :
  wd_rep now s es → w = NULL ∨ w ∈ dom (wdogs s) →
  wd_gettime s w = Some (abs_gettime now es w).
Proof.
  intros Hr Hw. pose proof (wr_queue _ _ _ Hr) as Hq.
  assert (Hno : is_listed w es = false → abs_gettime now es w = 0).
  { intros Hn%bool_decide_eq_false. unfold abs_gettime.
    destruct (List.find _ es) as [e|] eqn:E; [|done]. apply List.find_some in E as [Hin He].
    apply Z.eqb_eq in He as <-. destruct Hn. apply list_elem_of_fmap_2, list_elem_of_In, Hin. }
  unfold wd_gettime. destruct (Z.eqb_spec w NULL) as [->|Hnz].
  { rewrite Hno; [done|]. apply bool_decide_eq_false. intros Hin.
    by apply (rep_wdog_nonzero _ _ _ _ Hr) in Hin. }
  destruct Hw as [|Hd]; [done|]. destruct (deref_dom _ _ Hnz Hd) as (n & -> & Hn).
  cbn [mbind option_bind]. pose proof (wr_active _ _ _ Hr w Hd) as Ha. unfold active in Ha.
  rewrite Hn in Ha. injection Ha as ->. destruct (is_listed w es) eqn:Hl; [|by rewrite Hno].
  rewrite (rep_head _ _ _ Hq). replace 0 with (now - now) by lia.
  pose proof (sq_rep_length _ _ _ Hq) as Hlen. unfold e_wdogs in Hlen. rewrite length_fmap in Hlen.
  apply gettime_loop_spec; [apply Hq|apply Hr|lia|apply Hr|lia].
Qed.

End WdogSpec.
