(* ===== verification/WdogTimer.v ===== *)
(** * Watchdog timers: expiration and timelines

    The timer interrupt against the contract of [WdogSpec], and what follows for
    whole sequences of requests and ticks. *)

From S2P Require Import Prelude.
From S2P Require Import Queue.
From S2P Require Import QueueSq.
From S2P Require Import Wdog.
From S2P Require Import WdogSpec.

Module WdogTimer.
Import Sq SqSpec Wdog WdogSpec.

(** A call of a timeout function: the watchdog, the function and the argument. *)

Definition call : Type := Z * Z * Z.

(** Requests name watchdogs of the store, and delays are of type [int32_t]. *)

Definition valid_wdog (D : gset Z) (w : Z) : Prop := w = NULL ∨ w ∈ D.

Definition valid_req (D : gset Z) (r : wd_req) : Prop :=
  match r with
  | Start w d _ _ => valid_wdog D w ∧ d ≤ INT32_MAX
  | Cancel w => valid_wdog D w
  end.

Section Timer.
Context (callback : Z → Z → list wd_req).

(** ** The contract of expiration

    The entries that are due leave the list one by one, in order; each one's
    function may start and cancel watchdogs before the next one is looked at. *)

Inductive expires (now : Z) : list entry → list call → list entry → Prop :=
  | expires_done es :
      (∀ e, head es = Some e → now < e_due e) → expires now es [] es
  | expires_fire e es calls es' :
      e_due e ≤ now →
      expires now (abs_requests now es (callback (e_func e) (e_arg e))) calls es' →
      expires now (e :: es) ((e_wdog e, e_func e, e_arg e) :: calls) es'.

Definition settled (now : Z) (es : list entry) : Prop := Forall (λ e, now < e_due e) es.

(** The number of entries that are due: it bounds the turns of the loop. *)

Definition due_count (now : Z) (es : list entry) : nat :=
  length (filter (λ e, e_due e ≤ now) es).

Lemma due_count_perm now es es' : es ≡ₚ es' → due_count now es = due_count now es'.
Proof. intros Hp. unfold due_count. by rewrite Hp. Qed.

Lemma due_count_remove now w es : (due_count now (abs_remove w es) ≤ due_count now es)%nat.
Proof.
  unfold due_count, abs_remove. induction es as [|e es IH]; [done|].
  rewrite !filter_cons. repeat case_decide; simpl; rewrite ?filter_cons; repeat case_decide; simpl; lia.
Qed.

Lemma wd_ticks_pos d : 0 ≤ d ≤ INT32_MAX → 1 ≤ wd_ticks d.
Proof. apply wd_ticks_range. Qed.

Lemma due_count_request now es D r :
  valid_req D r → (due_count now (abs_request now es r) ≤ due_count now es)%nat.
Proof.
  destruct r as [w d f a|w]; simpl; intros Hv.
  - unfold abs_start. case_if; [done|]. simpl. pose proof (wd_ticks_pos d ltac:(lia)).
    rewrite (due_count_perm _ _ _ (abs_insert_perm _ _)). unfold due_count at 1.
    rewrite filter_cons_False by (simpl; lia). apply due_count_remove.
  - unfold abs_cancel. case_if; simpl; [apply due_count_remove|done].
Qed.

Lemma due_count_requests now D rs : ∀ es,
  Forall (valid_req D) rs → (due_count now (abs_requests now es rs) ≤ due_count now es)%nat.
Proof.
  induction rs as [|r rs IH]; intros es Hv; [done|]. apply Forall_cons in Hv as [Hr Hrs].
  simpl. etrans; [by apply IH|]. by eapply due_count_request.
Qed.

(** ** Requests *)

Lemma request_spec now s es r :
  wd_rep now s es → valid_req (dom (wdogs s)) r →
  ∃ s', wd_request s r = Some s' ∧ wd_rep now s' (abs_request now es r) ∧
    dom (wdogs s') = dom (wdogs s).
Proof.
  intros Hr Hv. destruct r as [w d f a|w]; simpl in *.
  - destruct Hv as [Hw Hd].
    destruct (start_spec now s es w d f a Hr Hw Hd) as (s' & -> & ? & ?). by exists s'.
  - destruct (cancel_spec now s es w Hr Hv) as (s' & -> & ? & ?). by exists s'.
Qed.

Lemma requests_spec now rs : ∀ s es,
  wd_rep now s es → Forall (valid_req (dom (wdogs s))) rs →
  ∃ s', wd_requests s rs = Some s' ∧ wd_rep now s' (abs_requests now es rs) ∧
    dom (wdogs s') = dom (wdogs s).
Proof.
  induction rs as [|r rs IH]; intros s es Hr Hv; [by exists s|].
  apply Forall_cons in Hv as [Hv1 Hv].
  destruct (request_spec _ _ _ _ Hr Hv1) as (s1 & E1 & Hr1 & Hd1). rewrite <- Hd1 in Hv.
  destruct (IH _ _ Hr1 Hv) as (s2 & E2 & Hr2 & Hd2). exists s2. simpl. rewrite E1. simpl.
  split_and!; [done..|congruence].
Qed.

(** ** The loop of [wd_expiration] *)

(** The head watchdog is taken off the list and marked inactive. *)

Lemma pop_spec now s e es :
  wd_rep now s (e :: es) →
  ∃ m1 q1 n m2 m3, sq_remfirst (wdogs s) (g_wdactivelist s) = Some (e_wdog e, m1, q1) ∧
    deref m1 (e_wdog e) = Some n ∧ func n = e_func e ∧ arg n = e_arg e ∧
    (if sq_head q1 =? NULL then Some m1 else add_lag m1 (sq_head q1) (lag n)) = Some m2 ∧
    update m2 (e_wdog e) WDOG_CLRACTIVE = Some m3 ∧
    wd_rep now (mk_wd m3 q1) es ∧ dom m3 = dom (wdogs s).
Proof.
  intros Hr. pose proof (wr_queue _ _ _ Hr) as Hq. pose proof (wr_deltas _ _ _ Hr) as Hd.
  pose proof (wr_bound _ _ _ Hr) as Hb. pose proof (rep_nodup _ _ _ Hq) as Hnd.
  assert (Hwz : e_wdog e ≠ NULL) by (apply (rep_wdog_nonzero _ _ _ _ Hr); set_solver).
  assert (Hwd : e_wdog e ∈ dom (wdogs s)) by (apply (sq_rep_dom _ _ _ _ Hq); set_solver).
  destruct (sq_remfirst_spec _ _ _ _ Hq) as (m1 & q1 & E1 & Hq1 & Hc1).
  pose proof (sq_changed_dom _ _ _ Hc1) as Hd1.
  assert (Hdel : deltas m1 now ([] ++ e :: es))
    by (eapply deltas_ext; [|exact Hd]; intros x _; by eapply changed_data).
  pose proof Hdel as (_ & Hde & _). destruct (deref_data _ _ _ _ _ Hwz Hde) as (n & En & _ & Hl & Hf & Ha).
  apply Forall_cons in Hb as [_ Hb].
  destruct (inherit_spec m1 now [] e es Hdel Hnd) as (m2 & E2 & Hl2 & Hd2 & Ha2 & _ & Hdel2); [|done|].
  { intros Hin. apply (rep_wdog_nonzero _ _ _ NULL Hr); [set_solver|done]. }
  apply NoDup_cons in Hnd as [Hnin _].
  destruct (retire_spec now (wdogs s) m2 q1 [] e es) as (m3 & E3 & Hr3 & Hd3); try done.
  - by eapply rep_links.
  - congruence.
  - intros x Hx. rewrite Ha2, (changed_active _ _ _ _ Hc1). by apply (wr_active _ _ _ Hr).
  - exists m1, q1, n, m2, m3. split_and!; try done.
    rewrite (rep_head _ _ _ Hq1), Hl. exact E2.
Qed.

(** ** The timer interrupt *)

Section Expiration.
Context (D : gset Z) (Hcb : ∀ f a, Forall (valid_req D) (callback f a)).

Lemma expire_spec now fuel : ∀ s es,
  dom (wdogs s) = D → wd_rep now s es → (due_count now es < fuel)%nat →
  ∃ calls s' es', wd_expire callback fuel s = Some (calls, s') ∧
    expires now es calls es' ∧ wd_rep now s' es' ∧ dom (wdogs s') = D.
Proof.
  induction fuel as [|fuel IH]; intros s es HD Hr Hf; [lia|]. cbn [wd_expire]. cbv zeta.
  pose proof (wr_queue _ _ _ Hr) as Hq. rewrite (sq_rep_head0 _ _ _ Hq).
  destruct es as [|e es].
  { exists [], s, []. by split_and!; [|apply expires_done|..]. }
  rewrite bool_decide_eq_false_2 by done. rewrite (rep_head _ _ _ Hq). cbn [first e_wdogs fmap list_fmap].
  destruct (deref_entry _ e now es (rep_chain _ _ _ Hq) (wr_deltas _ _ _ Hr)) as (n & E & _ & Hl & _).
  rewrite E. cbn [mbind option_bind]. rewrite Hl. case_if.
  2: { exists [], s, (e :: es). split_and!; try done. apply expires_done. intros ? [= <-]. lia. }
  destruct (pop_spec now s e es Hr) as (m1 & q1 & n1 & m2 & m3 & -> & E1 & Hfn & Harg & E2 & E3 & Hr3 & Hd3).
  cbn [mbind option_bind]. rewrite E1. cbn [mbind option_bind]. rewrite E2. cbn [mbind option_bind].
  rewrite E3. cbn [mbind option_bind]. rewrite Hfn, Harg.
  destruct (requests_spec now (callback (e_func e) (e_arg e)) _ _ Hr3) as (s4 & -> & Hr4 & Hd4).
  { simpl. rewrite Hd3, HD. apply Hcb. }
  cbn [mbind option_bind]. destruct (IH s4 _ ltac:(simpl in *; congruence) Hr4) as
    (calls & s5 & es5 & E5 & Hx & Hr5 & Hd5).
  { unfold due_count in Hf. rewrite filter_cons_True in Hf by lia. simpl in Hf.
    eapply Nat.le_lt_trans; [apply (due_count_requests _ D), Hcb|]. unfold due_count. lia. }
  rewrite E5. cbn [mbind option_bind]. do 3 eexists.
  split_and!; [done|by apply expires_fire; [lia|]|done..].
Qed.

(** What is left after the expiration is not due. *)

Lemma expires_settled now es calls es' m :
  expires now es calls es' → deltas m now es' → settled now es'.
Proof.
  induction 1 as [es Hh|]; intros Hd; [|auto]. destruct es as [|e es]; [by constructor|].
  specialize (Hh e eq_refl). destruct Hd as (_ & _ & Hd). apply deltas_le in Hd as [Hd _].
  constructor; [done|]. eapply Forall_impl; [done|]. simpl. lia.
Qed.

(** The tick moves the time: the lag of the head is all that changes. *)

Lemma tick_spec now s es m1 :
  wd_rep now s es → settled now es → es ≠ [] →
  add_lag (wdogs s) (sq_head (g_wdactivelist s)) (-1) = Some m1 →
  wd_rep (now + 1) (mk_wd m1 (g_wdactivelist s)) es ∧ dom m1 = dom (wdogs s).
Proof.
  intros Hr Hs Hne E. destruct es as [|e es]; [done|]. pose proof (wr_queue _ _ _ Hr) as Hq.
  pose proof (wr_deltas _ _ _ Hr) as (Hle & Hde & Hd). pose proof (rep_nodup _ _ _ Hq) as [Hn _]%NoDup_cons.
  pose proof (wr_bound _ _ _ Hr) as Hb. pose proof Hb as [Hbe _]%Forall_cons.
  apply Forall_cons in Hs as [Hlt _].
  assert (Hwz : e_wdog e ≠ NULL) by (apply (rep_wdog_nonzero _ _ _ _ Hr); set_solver).
  rewrite (rep_head _ _ _ Hq) in E. cbn [first e_wdogs fmap list_fmap] in E.
  destruct (add_lag_spec (wdogs s) (e_wdog e) (-1) _ _ _ Hwz Hde) as (m' & E' & Hl & Hdom & Hdw & Ho & Ha).
  { unfold INT32_MIN, INT32_MAX in *. lia. }
  simplify_eq. split; [|done]. constructor; simpl.
  - by eapply rep_links.
  - split_and!; [lia| |].
    + rewrite Hdw. do 3 f_equal. lia.
    + eapply deltas_ext; [|done]. intros x Hx. apply Ho. by intros ->.
  - eapply Forall_impl; [done|]. simpl. lia.
  - intros x Hx. rewrite Ha. apply (wr_active _ _ _ Hr). by rewrite <- Hdom.
Qed.

Lemma timer_spec now s es :
  dom (wdogs s) = D → wd_rep now s es → settled now es →
  ∃ calls s' es', wd_timer callback s = Some (calls, s') ∧
    expires (now + 1) es calls es' ∧ wd_rep (now + 1) s' es' ∧
    settled (now + 1) es' ∧ dom (wdogs s') = D.
Proof.
  intros HD Hr Hs. pose proof (wr_queue _ _ _ Hr) as Hq. unfold wd_timer.
  rewrite (sq_rep_head0 _ _ _ Hq). case_bool_decide as Hnil.
  { apply fmap_nil_inv in Hnil as ->. exists [], s, []. split_and!; [done|by apply expires_done| |by constructor|done].
    by destruct Hr; constructor. }
  destruct es as [|e es]; [done|].
  assert (Hwz : e_wdog e ≠ NULL) by (apply (rep_wdog_nonzero _ _ _ _ Hr); set_solver).
  pose proof (wr_deltas _ _ _ Hr) as (Hle & Hde & _). pose proof (wr_bound _ _ _ Hr) as [Hb _]%Forall_cons.
  pose proof (rep_head _ _ _ Hq) as Hh. simpl in Hh.
  destruct (add_lag_spec (wdogs s) (e_wdog e) (-1) _ _ _ Hwz Hde) as (m1 & E & _).
  { unfold INT32_MIN, INT32_MAX in *. lia. }
  rewrite <- Hh in E. rewrite E. cbn [mbind option_bind].
  destruct (tick_spec now s (e :: es) m1 Hr Hs ltac:(done) E) as [Hr1 Hd1].
  pose proof (wr_queue _ _ _ Hr1) as Hq1. cbn [wdogs g_wdactivelist] in Hq1.
  destruct (expire_spec (now + 1) (S (size m1)) (mk_wd m1 (g_wdactivelist s)) _ (eq_trans Hd1 HD) Hr1)
    as (calls & s' & es' & E' & Hx & Hr' & Hd').
  { pose proof (sq_rep_length _ _ _ Hq1) as Hlen. unfold e_wdogs in Hlen. rewrite length_fmap in Hlen.
    unfold due_count. pose proof (length_filter (λ e, e_due e ≤ now + 1) (e :: es)). lia. }
  exists calls, s', es'. split_and!; try done.
  2: { eapply expires_settled; [done|apply Hr']. }
  unfold wd_expiration. cbn [wdogs g_wdactivelist]. rewrite Hh.
  destruct (deref_entry _ e (now + 1) es (rep_chain _ _ _ Hq1) (wr_deltas _ _ _ Hr1)) as (n & En & _ & Hl & _).
  cbn [wdogs] in En. rewrite En. cbn [mbind option_bind]. case_if; [done|].
  cbn [wd_expire] in E'. cbv zeta in E'. cbn [wdogs g_wdactivelist] in E'.
  rewrite Hh, (proj2 (Z.eqb_neq _ _) Hwz), En in E'. cbn [mbind option_bind] in E'.
  by rewrite (proj2 (Z.leb_gt _ _)) in E' by done.
Qed.
End Expiration.

(** ** Timelines *)

Inductive wd_event := EvRequest (r : wd_req) | EvGetTime (w : Z) | EvTick.

Inductive wd_out := OutCode (ret : Z) | OutTime (ticks : Z) | OutCalls (calls : list call).

Definition wd_step (s : wd_state) (ev : wd_event) : option (wd_out * wd_state) :=
  match ev with
  | EvRequest (Start w d f a) => '(r, s) ← wd_start s w d f a; Some (OutCode r, s)
  | EvRequest (Cancel w) => '(r, s) ← wd_cancel s w; Some (OutCode r, s)
  | EvGetTime w => t ← wd_gettime s w; Some (OutTime t, s)
  | EvTick => '(calls, s) ← wd_timer callback s; Some (OutCalls calls, s)
  end.

Fixpoint wd_run (s : wd_state) (evs : list wd_event) : option (list wd_out * wd_state) :=
  match evs with
  | [] => Some ([], s)
  | ev :: evs => '(o, s) ← wd_step s ev; '(os, s) ← wd_run s evs; Some (o :: os, s)
  end.

Inductive abs_step : Z → list entry → wd_event → wd_out → Z → list entry → Prop :=
  | abs_step_start now es w d f a :
      abs_step now es (EvRequest (Start w d f a)) (OutCode (abs_start now es w d f a).1)
        now (abs_start now es w d f a).2
  | abs_step_cancel now es w :
      abs_step now es (EvRequest (Cancel w)) (OutCode (abs_cancel es w).1)
        now (abs_cancel es w).2
  | abs_step_gettime now es w :
      abs_step now es (EvGetTime w) (OutTime (abs_gettime now es w)) now es
  | abs_step_tick now es calls es' :
      expires (now + 1) es calls es' → abs_step now es EvTick (OutCalls calls) (now + 1) es'.

Inductive abs_run : Z → list entry → list wd_event → list wd_out → Z → list entry → Prop :=
  | abs_run_nil now es : abs_run now es [] [] now es
  | abs_run_cons now es ev o now1 es1 evs os now2 es2 :
      abs_step now es ev o now1 es1 → abs_run now1 es1 evs os now2 es2 →
      abs_run now es (ev :: evs) (o :: os) now2 es2.

Definition valid_event (D : gset Z) (ev : wd_event) : Prop :=
  match ev with
  | EvRequest r => valid_req D r
  | EvGetTime w => valid_wdog D w
  | EvTick => True
  end.

Section Timelines.
Context (D : gset Z) (Hcb : ∀ f a, Forall (valid_req D) (callback f a)).

Lemma settled_perm now es es' : es ≡ₚ es' → settled now es → settled now es'.
Proof. intros Hp. unfold settled. by rewrite Hp. Qed.

Lemma settled_remove now w es : settled now es → settled now (abs_remove w es).
Proof.
  intros Hs. apply Forall_forall. intros e [_ He]%list_elem_of_filter.
  by eapply Forall_forall in Hs.
Qed.

Lemma settled_request now es r :
  valid_req D r → settled now es → settled now (abs_request now es r).
Proof.
  destruct r as [w d f a|w]; simpl; intros Hv Hs.
  - unfold abs_start. case_if; [done|]. simpl. pose proof (wd_ticks_pos d ltac:(lia)).
    eapply settled_perm; [symmetry; apply abs_insert_perm|].
    constructor; [simpl; lia|by apply settled_remove].
  - unfold abs_cancel. case_if; simpl; [by apply settled_remove|done].
Qed.

Lemma step_refines now s es ev :
  dom (wdogs s) = D → wd_rep now s es → settled now es → valid_event D ev →
  ∃ o s' now' es', wd_step s ev = Some (o, s') ∧ abs_step now es ev o now' es' ∧
    dom (wdogs s') = D ∧ wd_rep now' s' es' ∧ settled now' es'.
Proof.
  intros HD Hr Hs Hv. destruct ev as [r|w|]; cbn [wd_step].
  - pose proof (settled_request now es r Hv Hs) as Hs'. destruct r as [w d f a|w]; simpl in Hv, Hs'.
    + destruct Hv as [Hw Hd]. rewrite <- HD in Hw.
      destruct (start_spec now s es w d f a Hr Hw Hd) as (s' & -> & Hr' & Hd').
      do 4 eexists. split_and!; [done|constructor|congruence|done..].
    + rewrite <- HD in Hv. destruct (cancel_spec now s es w Hr Hv) as (s' & -> & Hr' & Hd').
      do 4 eexists. split_and!; [done|constructor|congruence|done..].
  - simpl in Hv. rewrite <- HD in Hv. rewrite (gettime_spec _ _ _ _ Hr Hv).
    do 4 eexists. split_and!; [done|constructor|done..].
  - destruct (timer_spec D Hcb now s es HD Hr Hs) as (calls & s' & es' & -> & Hx & Hr' & Hs' & Hd').
    do 4 eexists. split_and!; [done|by constructor|done..].
Qed.

Lemma wd_run_refines evs : ∀ now s es,
  dom (wdogs s) = D → wd_rep now s es → settled now es → Forall (valid_event D) evs →
  ∃ os s' now' es', wd_run s evs = Some (os, s') ∧ abs_run now es evs os now' es' ∧
    wd_rep now' s' es' ∧ settled now' es'.
Proof.
  induction evs as [|ev evs IH]; intros now s es HD Hr Hs Hv.
  { exists [], s, now, es. split_and!; [done|constructor|done..]. }
  apply Forall_cons in Hv as [Hv1 Hv].
  destruct (step_refines now s es ev HD Hr Hs Hv1) as (o & s1 & now1 & es1 & E1 & Ha & HD1 & Hr1 & Hs1).
  destruct (IH now1 s1 es1 HD1 Hr1 Hs1 Hv) as (os & s2 & now2 & es2 & E2 & Ha2 & Hr2 & Hs2).
  exists (o :: os), s2, now2, es2. simpl. rewrite E1. cbn [mbind option_bind]. rewrite E2.
  split_and!; [done|by econstructor|done..].
Qed.
End Timelines.

(** ** One watchdog on its timeline *)

Definition touches (w : Z) (r : wd_req) : Prop :=
  match r with Start w' _ _ _ => w' = w | Cancel w' => w' = w end.

Definition untouched (w : Z) (ev : wd_event) : Prop :=
  match ev with EvRequest r => ¬ touches w r | _ => True end.

Definition entry_of (w : Z) (es : list entry) : option entry :=
  List.find (λ e, e_wdog e =? w) es.

(** Expiry order and distinct watchdogs. *)

Definition good (es : list entry) : Prop :=
  NoDup (e_wdogs es) ∧ StronglySorted (λ x y, e_due x ≤ e_due y) es.

Lemma deltas_sorted m t es : deltas m t es → StronglySorted (λ x y, e_due x ≤ e_due y) es.
Proof.
  revert t. induction es as [|e es IH]; intros t; simpl; [constructor|]. intros (_ & _ & Hd).
  constructor; [by eapply IH|]. by apply deltas_le in Hd as [? _].
Qed.

Lemma rep_good now s es : wd_rep now s es → good es.
Proof. intros Hr. split; [apply (rep_nodup _ _ _ (wr_queue _ _ _ Hr))|by eapply deltas_sorted, Hr]. Qed.

Lemma good_remove w es : good es → good (abs_remove w es).
Proof.
  intros [Hnd Hs]. split.
  - unfold e_wdogs. eapply sublist_NoDup; [exact Hnd|]. apply fmap_sublist, sublist_filter.
  - clear Hnd. induction Hs as [|e es Hs IH Hall]; [constructor|].
    unfold abs_remove. rewrite filter_cons. case_decide; [|done]. constructor; [done|].
    apply Forall_forall. intros y [_ Hy]%list_elem_of_filter. by eapply Forall_forall in Hall.
Qed.

Lemma good_insert e es : good es → e_wdog e ∉ e_wdogs es → good (abs_insert e es).
Proof.
  intros [Hnd Hs] Hn. split.
  { unfold e_wdogs. rewrite abs_insert_perm. by apply NoDup_cons. }
  clear Hnd Hn. induction Hs as [|x es Hs IH Hall]; simpl; [by repeat constructor|].
  case_if; constructor; try done.
  - by constructor.
  - constructor; [lia|]. eapply Forall_impl; [done|]. simpl. lia.
  - rewrite abs_insert_perm. by constructor.
Qed.

Lemma good_request now es r : good es → good (abs_request now es r).
Proof.
  intros Hg. destruct r as [w d f a|w]; simpl.
  - unfold abs_start. case_if; [done|]. apply good_insert; [by apply good_remove|].
    apply remove_not_listed.
  - unfold abs_cancel. case_if; [by apply good_remove|done].
Qed.

Lemma good_requests now rs : ∀ es, good es → good (abs_requests now es rs).
Proof. induction rs as [|r rs IH]; intros es Hg; [done|]. by apply IH, good_request. Qed.

(** Requests for other watchdogs leave the entry alone. *)

Lemma entry_of_remove w w' es : w' ≠ w → entry_of w (abs_remove w' es) = entry_of w es.
Proof.
  intros Hne. unfold entry_of, abs_remove. induction es as [|e es IH]; [done|].
  rewrite filter_cons. case_decide as Hd; simpl; rewrite IH; [done|].
  destruct (Z.eqb_spec (e_wdog e) w); [|done]. destruct Hd. congruence.
Qed.

Lemma entry_of_insert_ne w e es : e_wdog e ≠ w → entry_of w (abs_insert e es) = entry_of w es.
Proof.
  intros Hne. unfold entry_of. induction es as [|x es IH]; simpl;
    rewrite ?(proj2 (Z.eqb_neq _ _) Hne); [done|].
  case_if; simpl; rewrite ?(proj2 (Z.eqb_neq _ _) Hne), ?IH; done.
Qed.

Lemma entry_of_none w es : w ∉ e_wdogs es → entry_of w es = None.
Proof.
  unfold entry_of. induction es as [|x es IH]; simpl; [done|]. intros [? ?]%not_elem_of_cons.
  rewrite (proj2 (Z.eqb_neq _ _)) by done. by apply IH.
Qed.

Lemma entry_of_insert e es : e_wdog e ∉ e_wdogs es → entry_of (e_wdog e) (abs_insert e es) = Some e.
Proof.
  unfold entry_of. induction es as [|x es IH]; simpl; [by rewrite Z.eqb_refl|].
  intros [? ?]%not_elem_of_cons. case_if; simpl; [by rewrite Z.eqb_refl|].
  rewrite (proj2 (Z.eqb_neq _ _)) by done. by apply IH.
Qed.

Lemma entry_of_request w now es r :
  ¬ touches w r → entry_of w (abs_request now es r) = entry_of w es.
Proof.
  destruct r as [w' d f a|w']; simpl; intros Hne.
  - unfold abs_start. case_if; [done|]. simpl. by rewrite entry_of_insert_ne, entry_of_remove.
  - unfold abs_cancel. case_if; simpl; [by rewrite entry_of_remove|done].
Qed.

Lemma entry_of_requests w now rs : ∀ es,
  Forall (λ r, ¬ touches w r) rs → entry_of w (abs_requests now es rs) = entry_of w es.
Proof.
  induction rs as [|r rs IH]; intros es Hf; [done|]. apply Forall_cons in Hf as [Hr Hf].
  simpl. rewrite IH by done. by apply entry_of_request.
Qed.

Section Watch.
Context (w : Z) (Hcb : ∀ f a, Forall (λ r, ¬ touches w r) (callback f a)).

Definition calls_of (calls : list call) : list call := filter (λ c, c.1.1 = w) calls.

Lemma calls_of_cons w' f a cs :
  calls_of ((w', f, a) :: cs) = if w' =? w then (w', f, a) :: calls_of cs else calls_of cs.
Proof.
  unfold calls_of. rewrite filter_cons. simpl.
  destruct (Z.eqb_spec w' w); [by rewrite decide_True|by rewrite decide_False].
Qed.

(** In one expiration the entry fires once if it is due, and stays otherwise. *)

Lemma expires_entry now es calls es' :
  expires now es calls es' → good es →
  match entry_of w es with
  | Some e => if e_due e <=? now
              then calls_of calls = [(w, e_func e, e_arg e)] ∧ entry_of w es' = None
              else calls_of calls = [] ∧ entry_of w es' = Some e
  | None => calls_of calls = [] ∧ entry_of w es' = None
  end.
Proof.
  induction 1 as [es Hh|e es calls es' Hdue Hx IH]; intros Hg.
  - destruct (entry_of w es) as [e|] eqn:E; [|done]. case_if; [|done].
    apply List.find_some in E as [Hin _]. destruct Hg as [_ Hs]. destruct es as [|x es]; [done|].
    specialize (Hh x eq_refl). apply StronglySorted_inv in Hs as [_ Hall].
    apply list_elem_of_In, elem_of_cons in Hin as [->|Hin]; [lia|].
    eapply Forall_forall in Hall; [|done]. simpl in Hall. lia.
  - destruct Hg as [Hnd Hs]. apply NoDup_cons in Hnd as [Hn Hnd]. apply StronglySorted_inv in Hs as [Hs _].
    specialize (IH (good_requests _ _ _ (conj Hnd Hs))). rewrite entry_of_requests in IH by apply Hcb.
    rewrite calls_of_cons. unfold entry_of at 1. simpl.
    destruct (Z.eqb_spec (e_wdog e) w) as [Hw|Hne]; [|exact IH].
    rewrite (proj2 (Z.leb_le _ _) Hdue). rewrite Hw in *. rewrite (entry_of_none w es Hn) in IH.
    by destruct IH as [-> ->].
Qed.

(** The ticks at which the watchdog's function is called, counted from [k]. *)

Fixpoint fired (k : Z) (os : list wd_out) : list (Z * Z * Z) :=
  match os with
  | [] => []
  | OutCalls calls :: os => ((λ c, (k + 1, c.1.2, c.2)) <$> calls_of calls) ++ fired (k + 1) os
  | _ :: os => fired k os
  end.

Definition nticks (evs : list wd_event) : Z :=
  Z.of_nat (length (List.filter (λ ev, match ev with EvTick => true | _ => false end) evs)).

Lemma expires_good now es calls es' :
  expires now es calls es' → good es → good es' ∧ settled now es'.
Proof.
  induction 1 as [es Hh|e es calls es' Hdue Hx IH]; intros Hg.
  - split; [done|]. destruct Hg as [_ Hs]. destruct es as [|x es]; [constructor|].
    specialize (Hh x eq_refl). apply StronglySorted_inv in Hs as [_ Hall].
    constructor; [done|]. eapply Forall_impl; [done|]. simpl. lia.
  - apply IH, good_requests. destruct Hg as [[_ ?]%NoDup_cons [? _]%StronglySorted_inv]. done.
Qed.

Lemma nticks_cons ev evs :
  nticks (ev :: evs) = (match ev with EvTick => 1 | _ => 0 end) + nticks evs.
Proof. unfold nticks. destruct ev; simpl length; lia. Qed.

Lemma nticks_nonneg evs : 0 ≤ nticks evs.
Proof. unfold nticks. lia. Qed.

Lemma timeline_spec D now es evs os now' es' :
  abs_run now es evs os now' es' → good es → settled now es →
  Forall (valid_event D) evs → Forall (untouched w) evs → ∀ k,
  fired k os = match entry_of w es with
               | Some e => if now + nticks evs <? e_due e then []
                           else [(k + (e_due e - now), e_func e, e_arg e)]
               | None => []
               end.
Proof.
  assert (Hset : ∀ now es e, settled now es → entry_of w es = Some e → now < e_due e).
  { intros now0 es0 e Hs [Hin%list_elem_of_In _]%List.find_some.
    by eapply Forall_forall in Hs. }
  induction 1 as [now es|now es ev o now1 es1 evs os now2 es2 Hstep Hrun IH]; intros Hg Hs Hv Hu k.
  { simpl. destruct (entry_of w es) as [e|] eqn:E; [|done]. specialize (Hset _ _ _ Hs E).
    unfold nticks. simpl. by rewrite (proj2 (Z.ltb_lt _ _)) by lia. }
  apply Forall_cons in Hu as [Hu1 Hu]. apply Forall_cons in Hv as [Hv1 Hv]. rewrite nticks_cons.
  destruct Hstep as [now es w' d f a|now es w'|now es w'|now es calls es' Hx]; cbn [fired].
  - pose proof (good_request now es (Start w' d f a) Hg).
    pose proof (settled_request D now es (Start w' d f a) Hv1 Hs).
    pose proof (entry_of_request w now es (Start w' d f a) Hu1) as Heo. simpl in Heo.
    rewrite IH, Heo by done. done.
  - pose proof (good_request now es (Cancel w') Hg).
    pose proof (settled_request D now es (Cancel w') Hv1 Hs).
    pose proof (entry_of_request w now es (Cancel w') Hu1) as Heo. simpl in Heo.
    rewrite IH, Heo by done. done.
  - rewrite IH by done. done.
  - destruct (expires_good _ _ _ _ Hx Hg) as [Hg' Hs']. rewrite IH by done.
    pose proof (expires_entry _ _ _ _ Hx Hg) as He. pose proof (nticks_nonneg evs).
    destruct (entry_of w es) as [e|] eqn:Ee; [|by destruct He as [-> ->]].
    specialize (Hset _ _ _ Hs Ee). case_if_in He; destruct He as [-> Hes']; rewrite Hes'; simpl.
    + rewrite (proj2 (Z.ltb_ge _ _)) by lia. do 3 f_equal. lia.
    + replace (now + 1 + nticks evs) with (now + (1 + nticks evs)) by lia. case_if; [done|].
      do 3 f_equal. lia.
Qed.
End Watch.
End Timer.

Lemma init_rep now m :
  map_Forall (λ _ n, WDOG_ISACTIVE n = false) m → wd_rep now (wd_initialize m) [].
Proof.
  intros Hm. constructor; simpl; try done.
  - constructor; simpl; auto using NoDup_nil_2.
  - intros w [n Hn]%elem_of_dom. unfold active. rewrite Hn. simpl. by rewrite (Hm _ _ Hn).
Qed.

Lemma wd_ticks_eq d : 0 ≤ d ≤ INT32_MAX → wd_ticks d = Z.min (d + 1) INT32_MAX.
Proof.
  intros Hd. unfold wd_ticks, INT32_MAX in *. case_if; [lia|]. destruct (decide (d = 2147483647)).
  - subst. reflexivity.
  - rewrite s32_small by lia. case_if; lia.
Qed.

(** C25.  The watchdog module implements a timeline.  From initialization on, every
    sequence of starts, cancellations, queries and timer interrupts runs without
    a fault (no NULL dereference, no signed overflow, no failed assertion, the
    loops end), whatever the timeout functions start and cancel, and its return
    values, remaining times and calls are those of the list of entries with
    absolute due times: an expiration calls exactly the entries that are due, in
    order of due time and, among equals, of starting. *)
Theorem wd_refines_timeline callback m evs :
  map_Forall (λ _ n, WDOG_ISACTIVE n = false) m →
  (∀ f a, Forall (valid_req (dom m)) (callback f a)) → Forall (valid_event (dom m)) evs →
  ∃ os s' now' es', wd_run callback (wd_initialize m) evs = Some (os, s') ∧
    abs_run callback 0 [] evs os now' es' ∧ wd_rep now' s' es' ∧ settled now' es'.
Proof.
  intros Hm Hcb Hev. apply (wd_run_refines callback (dom m)); try done.
  - by apply init_rep.
  - constructor.
Qed.

(** C26.  A watchdog fires on time, once: after [wd_start] with a delay of [d] ticks
    its function is called with its argument at the timer interrupt number
    [d + 1] (capped at the largest [int32_t]) and at no other one, whatever else
    is started, cancelled or called in between, as long as nobody starts or
    cancels this watchdog. *)
Theorem wd_fires_on_time callback now s es w delay f a evs :
  wd_rep now s es → settled now es → w ≠ NULL → w ∈ dom (wdogs s) →
  0 ≤ delay ≤ INT32_MAX →
  (∀ f a, Forall (valid_req (dom (wdogs s))) (callback f a)) →
  (∀ f a, Forall (λ r, ¬ touches w r) (callback f a)) →
  Forall (valid_event (dom (wdogs s))) evs → Forall (untouched w) evs →
  ∃ s1 os s2, wd_start s w delay f a = Some (OK, s1) ∧
    wd_run callback s1 evs = Some (os, s2) ∧
    fired w 0 os = if nticks evs <? Z.min (delay + 1) INT32_MAX then []
                   else [(Z.min (delay + 1) INT32_MAX, f, a)].
Proof.
  intros Hr Hs Hw Hd Hdelay Hcb Htouch Hv Hu. set (D := dom (wdogs s)) in *.
  destruct (start_spec now s es w delay f a Hr (or_intror Hd) (proj2 Hdelay)) as (s1 & E1 & Hr1 & Hd1).
  pose proof (settled_request D now es (Start w delay f a) (conj (or_intror Hd) (proj2 Hdelay)) Hs) as Hs1.
  simpl in Hs1. unfold abs_start in *. rewrite (proj2 (Z.eqb_neq _ _) Hw) in *.
  replace (delay <? 0) with false in * by lia. cbn [orb fst snd] in *.
  destruct (wd_run_refines callback D Hcb evs now s1 _ Hd1 Hr1 Hs1 Hv)
    as (os & s2 & now2 & es2 & E2 & Habs & _ & _).
  exists s1, os, s2. split_and!; [done..|].
  rewrite (timeline_spec callback w Htouch D _ _ _ _ _ _ Habs (rep_good _ _ _ Hr1) Hs1 Hv Hu 0).
  rewrite (entry_of_insert (mk_entry w _ f a)) by apply remove_not_listed. cbn [e_due e_func e_arg].
  rewrite wd_ticks_eq by done. set (T := Z.min _ _).
  replace (now + nticks evs <? now + T) with (nticks evs <? T) by lia.
  by replace (0 + (now + T - now)) with T by lia.
Qed.

(** Three watchdogs; the function 7 starts the watchdog 48 again. *)

Definition demo_wdogs : gmap Z wdog_s :=
  list_to_map ((λ w, (w, mk_wdog 0 0 0 0 0)) <$> [16; 32; 48]).

Definition demo_callback (f a : Z) : list wd_req :=
  if f =? 7 then [Start 48 2 7 a] else [].

Definition demo_events : list wd_event :=
  [EvRequest (Start 48 1 7 70); EvTick; EvRequest (Start 32 0 9 90); EvGetTime 48; EvTick;
   EvTick; EvRequest (Cancel 32); EvTick; EvTick].

Lemma demo_rep : wd_rep 0 (wd_initialize demo_wdogs) [].
Proof. apply init_rep. apply (bool_decide_unpack _). vm_compute. exact I. Qed.

Lemma demo_callback_valid f a : Forall (valid_req (dom demo_wdogs)) (demo_callback f a).
Proof.
  unfold demo_callback. case_if; constructor; [|constructor]. split; [|done]. right. by vm_compute.
Qed.

Lemma demo_events_valid : Forall (valid_event (dom demo_wdogs)) demo_events.
Proof. repeat constructor; try done; right; by vm_compute. Qed.

Lemma wd_refines_timeline_witness :
  (∃ s, wd_run demo_callback (wd_initialize demo_wdogs) demo_events =
     Some ([OutCode 0; OutCalls []; OutCode 0; OutTime 1; OutCalls [(48, 7, 70); (32, 9, 90)];
            OutCalls []; OutCode (-22); OutCalls []; OutCalls [(48, 7, 70)]], s)) ∧
  ∃ os s' now' es', wd_run demo_callback (wd_initialize demo_wdogs) demo_events = Some (os, s') ∧
    abs_run demo_callback 0 [] demo_events os now' es' ∧ wd_rep now' s' es' ∧ settled now' es'.
Proof.
  split; [eexists; vm_compute; reflexivity|].
  apply (wd_refines_timeline demo_callback demo_wdogs demo_events).
  - apply (bool_decide_unpack _). vm_compute. exact I.
  - apply demo_callback_valid.
  - apply demo_events_valid.
Defined.

Lemma wd_fires_on_time_witness :
  ∃ s1 os s2, wd_start (wd_initialize demo_wdogs) 16 3 5 50 = Some (OK, s1) ∧
    wd_run demo_callback s1 demo_events = Some (os, s2) ∧ fired 16 0 os = [(4, 5, 50)].
Proof.
  apply (wd_fires_on_time demo_callback 0 (wd_initialize demo_wdogs) [] 16 3 5 50 demo_events).
  - apply demo_rep.
  - constructor.
  - done.
  - by vm_compute.
  - done.
  - apply demo_callback_valid.
  - intros f a. unfold demo_callback. case_if; repeat constructor. done.
  - apply demo_events_valid.
  - repeat constructor; done.
Defined.

End WdogTimer.
