(* ===== verification/Sched.v ===== *)
(** * The scheduler (sched/sched)

    The lists of tasks and the operations that move tasks between them: blocking and
    waking, the preemption lock with its list of pending tasks, changes of priority,
    yielding and round robin.

    A task is its PID; PID 0 is the idle task.  The lists are lists of PIDs, the order of
    the links.  The build has one CPU (no CONFIG_SMP), a round-robin interval, and neither
    sporadic scheduling nor priority inheritance.  Of the registers the model keeps whose
    they are ([current]): a switch of contexts loads those of the head of
    [g_readytorun]. *)

From S2P Require Import Prelude.

Module Sched.

Definition SCHED_PRIORITY_MAX : Z := 255.
Definition SCHED_PRIORITY_MIN : Z := 1.
Definition SCHED_PRIORITY_IDLE : Z := 0.
Definition MAX_LOCK_COUNT : Z := 127.

Definition CONFIG_RR_INTERVAL : Z := 200.
Definition USEC_PER_TICK : Z := 10000.
Definition MSEC_PER_TICK : Z := USEC_PER_TICK / 1000.
Definition MSEC2TICK (msec : Z) : Z := (msec + MSEC_PER_TICK / 2) / MSEC_PER_TICK.

(** ** Tasks and their lists *)

Inductive tstate_t :=
  | TSTATE_TASK_INVALID
  | TSTATE_TASK_PENDING
  | TSTATE_TASK_READYTORUN
  | TSTATE_TASK_RUNNING
  | TSTATE_TASK_INACTIVE
  | TSTATE_WAIT_SEM
  | TSTATE_WAIT_SIG
  | TSTATE_WAIT_MQNOTEMPTY
  | TSTATE_WAIT_MQNOTFULL.

#[global] Instance tstate_eq_dec : EqDecision tstate_t.
Proof. solve_decision. Defined.

(** [FIRST_READY_TO_RUN_STATE <= s <= LAST_READY_TO_RUN_STATE] and
    [FIRST_BLOCKED_STATE <= s <= LAST_BLOCKED_STATE] *)

Definition ready_to_run (s : tstate_t) : bool :=
  match s with TSTATE_TASK_READYTORUN | TSTATE_TASK_RUNNING => true | _ => false end.

Definition blocked (s : tstate_t) : bool :=
  match s with
  | TSTATE_TASK_INVALID | TSTATE_TASK_PENDING | TSTATE_TASK_READYTORUN | TSTATE_TASK_RUNNING => false
  | _ => true
  end.

Definition TCB_FLAG_TTYPE_MASK : Z := 3.
Definition TCB_FLAG_TTYPE_KERNEL : Z := 2.
Definition TCB_FLAG_NONCANCELABLE : Z := Z.shiftl 1 2.
Definition TCB_FLAG_POLICY_MASK : Z := Z.shiftl 3 5.
Definition TCB_FLAG_SCHED_RR : Z := Z.shiftl 1 5.

Record tcb_s := mk_tcb {
  sched_priority : Z;
  task_state : tstate_t;
  flags : Z;
  lockcount : Z;
  errcode : Z;
  timeslice : Z;
  waitsem : Z
}.

Definition set_priority (n : Z) (t : tcb_s) : tcb_s :=
  mk_tcb n (task_state t) (flags t) (lockcount t) (errcode t) (timeslice t) (waitsem t).
Definition set_state (s : tstate_t) (t : tcb_s) : tcb_s :=
  mk_tcb (sched_priority t) s (flags t) (lockcount t) (errcode t) (timeslice t) (waitsem t).
Definition set_lockcount (n : Z) (t : tcb_s) : tcb_s :=
  mk_tcb (sched_priority t) (task_state t) (flags t) n (errcode t) (timeslice t) (waitsem t).
Definition set_errcode (e : Z) (t : tcb_s) : tcb_s :=
  mk_tcb (sched_priority t) (task_state t) (flags t) (lockcount t) e (timeslice t) (waitsem t).
Definition set_timeslice (n : Z) (t : tcb_s) : tcb_s :=
  mk_tcb (sched_priority t) (task_state t) (flags t) (lockcount t) (errcode t) n (waitsem t).
Definition set_waitsem (sem : Z) (t : tcb_s) : tcb_s :=
  mk_tcb (sched_priority t) (task_state t) (flags t) (lockcount t) (errcode t) (timeslice t) sem.

Record sched_s := mk_sched {
  tcbs : gmap Z tcb_s;
  g_readytorun : list Z;
  g_pendingtasks : list Z;
  g_inactivetasks : list Z;
  g_waitingforsemaphore : list Z;
  g_waitingforsignal : list Z;
  g_waitingformqnotempty : list Z;
  g_waitingformqnotfull : list Z;
  current : Z
}.

(** An update of a field of a task. *)

Definition upd (f : tcb_s → tcb_s) (p : Z) (st : sched_s) : option sched_s :=
  t ← tcbs st !! p;
  Some (mk_sched (<[p := f t]> (tcbs st)) (g_readytorun st) (g_pendingtasks st) (g_inactivetasks st)
          (g_waitingforsemaphore st) (g_waitingforsignal st) (g_waitingformqnotempty st)
          (g_waitingformqnotfull st) (current st)).

(** [g_tasklisttable]: the list of a state, and whether it is prioritized. *)

Definition TLIST_HEAD (s : tstate_t) (st : sched_s) : list Z :=
  match s with
  | TSTATE_TASK_INVALID => []
  | TSTATE_TASK_PENDING => g_pendingtasks st
  | TSTATE_TASK_READYTORUN | TSTATE_TASK_RUNNING => g_readytorun st
  | TSTATE_TASK_INACTIVE => g_inactivetasks st
  | TSTATE_WAIT_SEM => g_waitingforsemaphore st
  | TSTATE_WAIT_SIG => g_waitingforsignal st
  | TSTATE_WAIT_MQNOTEMPTY => g_waitingformqnotempty st
  | TSTATE_WAIT_MQNOTFULL => g_waitingformqnotfull st
  end.

Definition set_tlist (s : tstate_t) (l : list Z) (st : sched_s) : sched_s :=
  let (t, rtr, pend, inact, sem, sig, mqe, mqf, cur) := st in
  match s with
  | TSTATE_TASK_INVALID => st
  | TSTATE_TASK_PENDING => mk_sched t rtr l inact sem sig mqe mqf cur
  | TSTATE_TASK_READYTORUN | TSTATE_TASK_RUNNING => mk_sched t l pend inact sem sig mqe mqf cur
  | TSTATE_TASK_INACTIVE => mk_sched t rtr pend l sem sig mqe mqf cur
  | TSTATE_WAIT_SEM => mk_sched t rtr pend inact l sig mqe mqf cur
  | TSTATE_WAIT_SIG => mk_sched t rtr pend inact sem l mqe mqf cur
  | TSTATE_WAIT_MQNOTEMPTY => mk_sched t rtr pend inact sem sig l mqf cur
  | TSTATE_WAIT_MQNOTFULL => mk_sched t rtr pend inact sem sig mqe l cur
  end.

Definition TLIST_ISPRIORITIZED (s : tstate_t) : bool :=
  match s with
  | TSTATE_TASK_INVALID | TSTATE_TASK_INACTIVE | TSTATE_WAIT_SIG => false
  | _ => true
  end.

Definition this_task (st : sched_s) : option Z := head (g_readytorun st).

Definition priority (st : sched_s) (p : Z) : Z := default 0 (sched_priority <$> tcbs st !! p).

(** [tcb->flink] *)

Fixpoint flink (p : Z) (l : list Z) : option Z :=
  match l with
  | [] => None
  | x :: r => if x =? p then head r else flink p r
  end.

Definition dq_rem (p : Z) (l : list Z) : list Z := filter (λ q, q ≠ p) l.

(** ** Lists in descending order of priority *)

(** The place of a task, behind the tasks of its priority, and whether it is the new
    head. *)

Fixpoint insert_prioritized (prio : Z → Z) (tcb : Z) (l : list Z) : list Z * bool :=
  match l with
  | [] => ([tcb], true)
  | next :: r =>
      if prio tcb <=? prio next then (next :: (insert_prioritized prio tcb r).1, false)
      else (tcb :: next :: r, true)
  end.

Definition nxsched_add_prioritized (tcb : Z) (s : tstate_t) (st : sched_s) : option (bool * sched_s) :=
  t ← tcbs st !! tcb;
  DEBUGASSERT (SCHED_PRIORITY_MIN <=? sched_priority t) ;;
  let '(l, ret) := insert_prioritized (priority st) tcb (TLIST_HEAD s st) in
  Some (ret, set_tlist s l st).

(** ** The ready-to-run list *)

Definition nxsched_add_readytorun (btcb : Z) (st : sched_s) : option (bool * sched_s) :=
  rtcb ← this_task st;
  rt ← tcbs st !! rtcb;
  bt ← tcbs st !! btcb;
  if (0 <? lockcount rt) && (sched_priority rt <? sched_priority bt) then
    '(_, st) ← nxsched_add_prioritized btcb TSTATE_TASK_PENDING st;
    st ← upd (set_state TSTATE_TASK_PENDING) btcb st;
    Some (false, st)
  else
    '(ishead, st) ← nxsched_add_prioritized btcb TSTATE_TASK_READYTORUN st;
    if ishead : bool then
      DEBUGASSERT (lockcount rt =? 0) ;;
      next ← flink btcb (g_readytorun st);
      st ← upd (set_state TSTATE_TASK_RUNNING) btcb st;
      st ← upd (set_state TSTATE_TASK_READYTORUN) next st;
      Some (true, st)
    else
      st ← upd (set_state TSTATE_TASK_READYTORUN) btcb st;
      Some (false, st).

Definition nxsched_remove_readytorun (rtcb : Z) (st : sched_s) : option (bool * sched_s) :=
  '(doswitch, st) ← (if decide (head (g_readytorun st) = Some rtcb) then
                       nxttcb ← flink rtcb (g_readytorun st);
                       st ← upd (set_state TSTATE_TASK_RUNNING) nxttcb st;
                       Some (true, st)
                     else Some (false, st));
  let st := set_tlist TSTATE_TASK_READYTORUN (dq_rem rtcb (g_readytorun st)) st in
  st ← upd (set_state TSTATE_TASK_INVALID) rtcb st;
  Some (doswitch, st).

(** [for (; rtcb && ptcb->sched_priority <= rtcb->sched_priority; rtcb = rtcb->flink)]: the
    tasks before [rtcb], nearest first, and the tasks from [rtcb] on. *)

Fixpoint merge_search (prio : Z → Z) (ptcb : Z) (before after : list Z) : list Z * list Z :=
  match after with
  | rtcb :: r => if prio ptcb <=? prio rtcb then merge_search prio ptcb (rtcb :: before) r else (before, after)
  | [] => (before, after)
  end.

Fixpoint merge_loop (pending before after : list Z) (ret : bool) (st : sched_s) : option (bool * sched_s) :=
  match pending with
  | [] => Some (ret, set_tlist TSTATE_TASK_READYTORUN (reverse before ++ after) st)
  | ptcb :: pnext =>
      let '(before, after) := merge_search (priority st) ptcb before after in
      rtcb ← head after;
      match before with
      | [] =>
          st ← upd (set_state TSTATE_TASK_READYTORUN) rtcb st;
          st ← upd (set_state TSTATE_TASK_RUNNING) ptcb st;
          merge_loop pnext before (ptcb :: after) true st
      | _ =>
          st ← upd (set_state TSTATE_TASK_READYTORUN) ptcb st;
          merge_loop pnext before (ptcb :: after) ret st
      end
  end.

Definition nxsched_merge_pending (st : sched_s) : option (bool * sched_s) :=
  '(ret, st) ← merge_loop (g_pendingtasks st) [] (g_readytorun st) false st;
  Some (ret, set_tlist TSTATE_TASK_PENDING [] st).

(** ** Blocked tasks *)

Definition nxsched_add_blocked (btcb : Z) (s : tstate_t) (st : sched_s) : option sched_s :=
  DEBUGASSERT (blocked s) ;;
  st ← (if TLIST_ISPRIORITIZED s then snd <$> nxsched_add_prioritized btcb s st
        else Some (set_tlist s (TLIST_HEAD s st ++ [btcb]) st));
  upd (set_state s) btcb st.

Definition nxsched_remove_blocked (btcb : Z) (st : sched_s) : option sched_s :=
  t ← tcbs st !! btcb;
  let s := task_state t in
  DEBUGASSERT (blocked s) ;;
  upd (set_state TSTATE_TASK_INVALID) btcb (set_tlist s (dq_rem btcb (TLIST_HEAD s st)) st).

(** ** Switches *)

Definition nxsched_resume_scheduler (tcb : Z) (st : sched_s) : option sched_s :=
  upd (set_timeslice (MSEC2TICK CONFIG_RR_INTERVAL)) tcb st.

Definition set_current (p : Z) (st : sched_s) : sched_s :=
  mk_sched (tcbs st) (g_readytorun st) (g_pendingtasks st) (g_inactivetasks st)
    (g_waitingforsemaphore st) (g_waitingforsignal st) (g_waitingformqnotempty st)
    (g_waitingformqnotfull st) p.

(** The registers are restored from the new head of the list. *)

Definition switch_context (switch_needed : bool) (st : sched_s) : option sched_s :=
  if switch_needed then
    tcb ← this_task st;
    st ← nxsched_resume_scheduler tcb st;
    Some (set_current tcb st)
  else Some st.

Definition merge_if_pending (st : sched_s) : option (bool * sched_s) :=
  match g_pendingtasks st with [] => Some (false, st) | _ => nxsched_merge_pending st end.

Definition up_block_task (tcb : Z) (s : tstate_t) (st : sched_s) : option sched_s :=
  t ← tcbs st !! tcb;
  DEBUGASSERT (ready_to_run (task_state t)) ;;
  '(switch_needed, st) ← nxsched_remove_readytorun tcb st;
  st ← nxsched_add_blocked tcb s st;
  '(merged, st) ← merge_if_pending st;
  switch_context (switch_needed || merged) st.

Definition up_unblock_task (tcb : Z) (st : sched_s) : option sched_s :=
  t ← tcbs st !! tcb;
  DEBUGASSERT (blocked (task_state t)) ;;
  st ← nxsched_remove_blocked tcb st;
  '(switch_needed, st) ← nxsched_add_readytorun tcb st;
  switch_context switch_needed st.

Definition up_release_pending (st : sched_s) : option sched_s :=
  '(switch_needed, st) ← nxsched_merge_pending st;
  switch_context switch_needed st.

Definition up_reprioritize_rtr (tcb prio : Z) (st : sched_s) : option sched_s :=
  t ← tcbs st !! tcb;
  DEBUGASSERT (ready_to_run (task_state t) && (SCHED_PRIORITY_MIN <=? prio)) ;;
  '(removed, st) ← nxsched_remove_readytorun tcb st;
  st ← upd (set_priority prio) tcb st;
  '(added, st) ← nxsched_add_readytorun tcb st;
  if xorb removed added then
    '(_, st) ← merge_if_pending st;
    switch_context true st
  else Some st.

(** A new task is made ready to run. *)

Definition nxtask_activate (tcb : Z) (st : sched_s) : option sched_s := up_unblock_task tcb st.

(** ** The preemption lock *)

(** [irq]: the caller is an interrupt handler. *)

Definition sched_lock (irq : bool) (st : sched_s) : option sched_s :=
  match this_task st with
  | Some rtcb =>
      if negb irq then
        rt ← tcbs st !! rtcb;
        DEBUGASSERT (lockcount rt <? MAX_LOCK_COUNT) ;;
        upd (set_lockcount (lockcount rt + 1)) rtcb st
      else Some st
  | None => Some st
  end.

(** What follows [up_release_pending] runs when the caller is the running task again; its
    test for another running task is false then. *)

Definition sched_unlock (irq : bool) (st : sched_s) : option sched_s :=
  match this_task st with
  | Some rtcb =>
      if negb irq then
        rt ← tcbs st !! rtcb;
        let n := if 0 <? lockcount rt then lockcount rt - 1 else lockcount rt in
        st ← upd (set_lockcount n) rtcb st;
        if n <=? 0 then
          st ← upd (set_lockcount 0) rtcb st;
          match g_pendingtasks st with [] => Some st | _ => up_release_pending st end
        else Some st
      else Some st
  | None => Some st
  end.

(** ** Start and new tasks *)

(** The lists after [nx_start] has put the idle task on them. *)

Definition nx_start_idle : tcb_s :=
  mk_tcb SCHED_PRIORITY_IDLE TSTATE_TASK_RUNNING (Z.lor TCB_FLAG_TTYPE_KERNEL TCB_FLAG_NONCANCELABLE) 0 0 0 0.

Definition nx_start : sched_s := mk_sched {[0 := nx_start_idle]} [0] [] [] [] [] [] [] 0.

(** The TCB is zeroed memory with the PID that [nxtask_assign_pid] found. *)

Definition nxthread_setup_scheduler (pid prio ttype : Z) (st : sched_s) : option sched_s :=
  let fl := Z.lor (Z.land ttype TCB_FLAG_TTYPE_MASK) TCB_FLAG_SCHED_RR in
  let t := mk_tcb (u8 prio) TSTATE_TASK_INVALID fl 0 0 (MSEC2TICK CONFIG_RR_INTERVAL) 0 in
  let st := mk_sched (<[pid := t]> (tcbs st)) (g_readytorun st) (g_pendingtasks st) (g_inactivetasks st)
              (g_waitingforsemaphore st) (g_waitingforsignal st) (g_waitingformqnotempty st)
              (g_waitingformqnotfull st) (current st) in
  st ← sched_lock false st;
  st ← upd (set_state TSTATE_TASK_INACTIVE) pid
         (set_tlist TSTATE_TASK_INACTIVE (pid :: g_inactivetasks st) st);
  sched_unlock false st.

(** ** Priorities *)

Definition nxsched_running_setpriority (tcb prio : Z) (st : sched_s) : option sched_s :=
  nxttcb ← flink tcb (g_readytorun st);
  nt ← tcbs st !! nxttcb;
  if prio <=? sched_priority nt then up_reprioritize_rtr tcb (u8 prio) st
  else upd (set_priority (u8 prio)) tcb st.

Definition nxsched_readytorun_setpriority (tcb prio : Z) (st : sched_s) : option sched_s :=
  rtcb ← this_task st;
  rt ← tcbs st !! rtcb;
  if sched_priority rt <? prio then up_reprioritize_rtr tcb (u8 prio) st
  else
    '(check, st) ← nxsched_remove_readytorun tcb st;
    DEBUGASSERT (negb check) ;;
    st ← upd (set_priority (u8 prio)) tcb st;
    '(check, st) ← nxsched_add_readytorun tcb st;
    DEBUGASSERT (negb check) ;;
    Some st.

Definition nxsched_blocked_setpriority (tcb prio : Z) (st : sched_s) : option sched_s :=
  t ← tcbs st !! tcb;
  let s := task_state t in
  if TLIST_ISPRIORITIZED s then
    let st := set_tlist s (dq_rem tcb (TLIST_HEAD s st)) st in
    st ← upd (set_priority (u8 prio)) tcb st;
    snd <$> nxsched_add_prioritized tcb s st
  else upd (set_priority (u8 prio)) tcb st.

Definition nxsched_set_priority (tcb prio : Z) (st : sched_s) : option (Z * sched_s) :=
  if (prio <? SCHED_PRIORITY_MIN) || (SCHED_PRIORITY_MAX <? prio) then Some (- EINVAL, st)
  else
    t ← tcbs st !! tcb;
    st ← match task_state t with
         | TSTATE_TASK_RUNNING => nxsched_running_setpriority tcb prio st
         | TSTATE_TASK_READYTORUN => nxsched_readytorun_setpriority tcb prio st
         | _ => nxsched_blocked_setpriority tcb prio st
         end;
    Some (OK, st).

Definition sched_yield (st : sched_s) : option (Z * sched_s) :=
  rtcb ← this_task st;
  rt ← tcbs st !! rtcb;
  '(ret, st) ← nxsched_set_priority rtcb (sched_priority rt) st;
  Some (if ret <? 0 then -1 else OK, st).

(** ** Round robin *)

Definition nxsched_process_roundrobin (tcb ticks : Z) (noswitches : bool) (st : sched_s) :
    option (Z * sched_s) :=
  t ← tcbs st !! tcb;
  let slice := timeslice t - (if u32 (timeslice t) <? ticks then timeslice t else ticks) in
  st ← upd (set_timeslice slice) tcb st;
  if (slice <=? 0) && negb (0 <? lockcount t) then
    if noswitches then Some (1, st)
    else
      let slice := MSEC2TICK CONFIG_RR_INTERVAL in
      st ← upd (set_timeslice slice) tcb st;
      match flink tcb (g_readytorun st) with
      | Some next =>
          nt ← tcbs st !! next;
          if sched_priority t <=? sched_priority nt then
            st ← up_reprioritize_rtr tcb (sched_priority t) st;
            Some (slice, st)
          else Some (slice, st)
      | None => Some (slice, st)
      end
  else Some (u32 slice, st).

Definition nxsched_cpu_scheduler (st : sched_s) : option sched_s :=
  rtcb ← this_task st;
  rt ← tcbs st !! rtcb;
  if Z.land (flags rt) TCB_FLAG_POLICY_MASK =? TCB_FLAG_SCHED_RR then
    snd <$> nxsched_process_roundrobin rtcb 1 false st
  else Some st.

End Sched.
