(* ===== verification/SchedSpec.v ===== *)
(** * The scheduler as a pool of queues

    [pool] is the scheduler without the states that the tasks repeat: a queue per state
    and the data of the tasks.  [view] relates it to [sched_s], [pool_ok] is its
    invariant, and the primitive operations of Sched.v are shown to be moves of a task
    from one queue to another. *)

From S2P Require Import Prelude Sched.

Module SchedSpec.
Import Sched.

Implicit Types (st : sched_s) (p q : Z) (l : list Z) (k s : tstate_t) (t : tcb_s).

(** ** Prioritized lists *)

Lemma sorted_impl (R R' : Z → Z → Prop) l :
  (∀ x y, x ∈ l → y ∈ l → R x y → R' x y) → StronglySorted R l → StronglySorted R' l.
Proof.
  intros H Hl. induction Hl as [|x l Hl IH Hx]; [constructor|]. constructor; [apply IH; intros; apply H; set_solver|].
  apply Forall_forall. intros y Hy. apply H; [set_solver..|]. by eapply Forall_forall in Hx.
Qed.

Lemma sorted_filter (R : Z → Z → Prop) (P : Z → Prop) `{!∀ x, Decision (P x)} l :
  StronglySorted R l → StronglySorted R (filter P l).
Proof.
  induction 1 as [|x l Hl IH Hx]; [constructor|]. destruct (decide (P x)).
  - rewrite filter_cons_True by done. constructor; [done|]. apply Forall_forall.
    intros y [_ Hy]%list_elem_of_filter. by eapply Forall_forall in Hx.
  - by rewrite filter_cons_False.
Qed.

Lemma dq_rem_absent p l : p ∉ l → dq_rem p l = l.
Proof.
  intros Hp. unfold dq_rem. induction l as [|x l IH]; [done|]. rewrite filter_cons_True by set_solver.
  rewrite IH; [done|set_solver].
Qed.

Lemma dq_rem_head p l : p ∉ l → dq_rem p (p :: l) = l.
Proof. intros Hp. unfold dq_rem. rewrite filter_cons_False by naive_solver. by apply dq_rem_absent. Qed.

Lemma dq_rem_perm p l : NoDup l → p ∈ l → l ≡ₚ p :: dq_rem p l.
Proof.
  intros Hnd. induction Hnd as [|x l Hx Hnd IH]; intros Hp; [set_solver|].
  apply elem_of_cons in Hp as [->|Hp]; [by rewrite dq_rem_head|].
  unfold dq_rem. rewrite filter_cons_True by (intros ->; done). fold (dq_rem p l). rewrite IH at 1 by done.
  apply perm_swap.
Qed.

Lemma elem_dq_rem p q l : q ∈ dq_rem p l ↔ q ≠ p ∧ q ∈ l.
Proof. unfold dq_rem. by rewrite list_elem_of_filter. Qed.

Lemma flink_head p l : flink p (p :: l) = head l.
Proof. simpl. by rewrite Z.eqb_refl. Qed.

Definition descending (prio : Z → Z) : Z → Z → Prop := λ x y, prio y ≤ prio x.
Definition enqueue (prio : Z → Z) p l : list Z := (insert_prioritized prio p l).1.

Section Prioritized.

Context (prio : Z → Z).

Lemma enqueue_perm p l : enqueue prio p l ≡ₚ p :: l.
Proof.
  unfold enqueue. induction l as [|x l IH]; [done|]. simpl. case_if; simpl; [|done].
  rewrite IH. apply perm_swap.
Qed.

Lemma elem_enqueue p q l : q ∈ enqueue prio p l ↔ q = p ∨ q ∈ l.
Proof. by rewrite enqueue_perm, elem_of_cons. Qed.

Lemma enqueue_sorted p l : StronglySorted (descending prio) l → StronglySorted (descending prio) (enqueue prio p l).
Proof.
  unfold enqueue. induction 1 as [|x l Hl IH Hx]; simpl; [by repeat constructor|]. case_if; simpl.
  - constructor; [done|]. change (Forall (descending prio x) (enqueue prio p l)).
    rewrite enqueue_perm. by constructor.
  - constructor; [by constructor|]. unfold descending in *. constructor; [lia|].
    eapply Forall_impl; [exact Hx|]. simpl. lia.
Qed.

(** The new head is the task that was added, or the old one. *)

Lemma enqueue_head p l :
  head (enqueue prio p l) = if (insert_prioritized prio p l).2 then Some p else head l.
Proof. unfold enqueue. destruct l as [|x l]; [done|]. simpl. by case_if. Qed.

Lemma enqueue_front p x l : prio p ≤ prio x → enqueue prio p (x :: l) = x :: enqueue prio p l.
Proof. intros H. unfold enqueue. simpl. by rewrite (proj2 (Z.leb_le _ _)). Qed.

Lemma enqueue_before p x l : prio x < prio p → enqueue prio p (x :: l) = p :: x :: l.
Proof. intros H. unfold enqueue. simpl. by rewrite (proj2 (Z.leb_gt _ _)). Qed.

Lemma enqueue_new_head p x l :
  (insert_prioritized prio p (x :: l)).2 = bool_decide (prio x < prio p).
Proof. simpl. case_if; simpl; [by rewrite bool_decide_false by lia|by rewrite bool_decide_true by lia]. Qed.

Lemma enqueue_above p l : (∀ x, x ∈ l → prio x < prio p) → enqueue prio p l = p :: l.
Proof.
  intros H. destruct l as [|x l]; [done|]. unfold enqueue. simpl.
  by rewrite (proj2 (Z.leb_gt _ _)) by (apply H; set_solver).
Qed.

Lemma enqueue_behind p l1 l2 :
  (∀ x, x ∈ l1 → prio p ≤ prio x) → enqueue prio p (l1 ++ l2) = l1 ++ enqueue prio p l2.
Proof.
  intros H. induction l1 as [|x l1 IH]; [done|]. simpl. rewrite enqueue_front by (apply H; set_solver).
  rewrite IH; [done|]. intros y Hy. apply H. set_solver.
Qed.

(** Tasks that satisfy [P] are queued as if they had a list of their own. *)

Lemma enqueue_filter (P : Z → Prop) `{!∀ x, Decision (P x)} p l :
  P p → StronglySorted (descending prio) l → filter P (enqueue prio p l) = enqueue prio p (filter P l).
Proof.
  intros Hp. unfold enqueue. induction 1 as [|x l Hl IH Hx]; simpl; [by rewrite filter_cons_True|].
  destruct (Z.leb_spec (prio p) (prio x)) as [Hle|Hgt]; simpl.
  - destruct (decide (P x)).
    + rewrite !filter_cons_True by done. simpl. rewrite (proj2 (Z.leb_le _ _)) by done. simpl. by rewrite IH.
    + by rewrite !filter_cons_False by done.
  - rewrite filter_cons_True by done.
    fold (enqueue prio p (filter P (x :: l))). rewrite enqueue_above; [done|].
    intros y [_ Hy]%list_elem_of_filter. apply elem_of_cons in Hy as [->|Hy]; [done|].
    eapply Forall_forall in Hx; [|done]. unfold descending in Hx. lia.
Qed.

Lemma enqueue_filter_out (P : Z → Prop) `{!∀ x, Decision (P x)} p l :
  ¬ P p → filter P (enqueue prio p l) = filter P l.
Proof.
  intros Hp. unfold enqueue. induction l as [|x l IH]; simpl; [by rewrite filter_cons_False|].
  case_if; simpl; [|by rewrite (filter_cons_False _ p)].
  destruct (decide (P x)); [rewrite !filter_cons_True by done; by rewrite IH|by rewrite !filter_cons_False].
Qed.

(** Enqueueing one after the other. *)

Definition enqueue_all (pend l : list Z) : list Z := foldl (λ l p, enqueue prio p l) l pend.

Lemma enqueue_all_perm pend l : enqueue_all pend l ≡ₚ pend ++ l.
Proof.
  revert l. induction pend as [|p pend IH]; intros l; [done|]. simpl. rewrite IH, enqueue_perm.
  symmetry. apply Permutation_middle.
Qed.

Lemma elem_enqueue_all pend l q : q ∈ enqueue_all pend l ↔ q ∈ pend ∨ q ∈ l.
Proof. by rewrite enqueue_all_perm, elem_of_app. Qed.

Lemma enqueue_all_sorted pend l :
  StronglySorted (descending prio) l → StronglySorted (descending prio) (enqueue_all pend l).
Proof. revert l. induction pend as [|p pend IH]; intros l Hl; [done|]. by apply IH, enqueue_sorted. Qed.

End Prioritized.

Lemma enqueue_ext f g p l : (∀ x, x = p ∨ x ∈ l → f x = g x) → enqueue f p l = enqueue g p l.
Proof.
  unfold enqueue. induction l as [|x l IH]; intros H; [done|]. simpl. rewrite !H by set_solver.
  case_if; simpl; [|done]. rewrite IH; [done|]. intros y Hy. apply H. set_solver.
Qed.

Lemma enqueue_all_ext f g pend l : (∀ x, f x = g x) → enqueue_all f pend l = enqueue_all g pend l.
Proof.
  intros H. revert l. induction pend as [|p pend IH]; intros l; [done|]. simpl. rewrite IH.
  by rewrite (enqueue_ext f g).
Qed.

(** ** The pool *)

Record pool := mk_pool { core : gmap Z tcb_s; queue : tstate_t → list Z }.

Implicit Types A : pool.

Abbreviation rdy := TSTATE_TASK_READYTORUN.
Abbreviation pnd := TSTATE_TASK_PENDING.

Definition qset k l A : pool := mk_pool (core A) (λ k', if decide (k' = k) then l else queue A k').
Definition cupd (f : tcb_s → tcb_s) p A : pool := mk_pool (alter f p (core A)) (queue A).
Definition prio A p : Z := default 0 (sched_priority <$> core A !! p).
Definition locks A p : Z := default 0 (lockcount <$> core A !! p).
Definition loose A p : Prop := ∀ k, p ∉ queue A k.

(** Running and ready tasks share a list. *)

Definition norm s : tstate_t := match s with TSTATE_TASK_RUNNING => rdy | s => s end.
Definition proper k : Prop := norm k = k ∧ k ≠ TSTATE_TASK_INVALID.

Record pool_ok A : Prop := {
  w_proper : ∀ k p, p ∈ queue A k → proper k;
  w_known : ∀ k p, p ∈ queue A k → is_Some (core A !! p);
  w_disj : ∀ k k' p, p ∈ queue A k → p ∈ queue A k' → k = k';
  w_nodup : ∀ k, NoDup (queue A k);
  w_sorted : ∀ k, TLIST_ISPRIORITIZED k = true → StronglySorted (descending (prio A)) (queue A k);
  w_idle : 0 ∈ queue A rdy ∧ prio A 0 = SCHED_PRIORITY_IDLE;
  w_prio : ∀ p t, p ≠ 0 → core A !! p = Some t →
    SCHED_PRIORITY_MIN ≤ sched_priority t ≤ SCHED_PRIORITY_MAX;
  w_lock : ∀ p t, core A !! p = Some t → 0 ≤ lockcount t ≤ MAX_LOCK_COUNT
}.

(** Tasks wait for the preemption lock only while the running task has it. *)

Definition no_stale_pending A : Prop :=
  ∀ r, head (queue A rdy) = Some r → queue A pnd = [] ∨ 0 < locks A r.

(** The moves. *)

Definition take k p A : pool := qset k (dq_rem p (queue A k)) A.

Definition put k p A : pool :=
  qset k (if TLIST_ISPRIORITIZED k then enqueue (prio A) p (queue A k) else queue A k ++ [p]) A.

Definition held_back p A : bool :=
  match head (queue A rdy) with
  | Some r => (0 <? locks A r) && (prio A r <? prio A p)
  | None => false
  end.

Definition make_ready p A : pool := if held_back p A then put pnd p A else put rdy p A.

Definition release A : pool :=
  qset rdy (enqueue_all (prio A) (queue A pnd) (queue A rdy)) (qset pnd [] A).

(** ** The moves keep the invariant *)

Lemma pool_qset A k l :
  pool_ok A → proper k → NoDup l →
  (TLIST_ISPRIORITIZED k = true → StronglySorted (descending (prio A)) l) →
  (∀ p, p ∈ l → is_Some (core A !! p) ∧ ∀ k', p ∈ queue A k' → k' = k) →
  (k = rdy → 0 ∈ l) → pool_ok (qset k l A).
Proof.
  intros HA Hk Hnd Hsort Hl Hidle. constructor; simpl.
  - intros k' p. case_decide; [by subst|apply HA].
  - intros k' p. case_decide; [apply Hl|apply HA].
  - intros k1 k2 p. repeat case_decide; subst; [done| | |apply HA].
    + intros Hp Hp2. symmetry. by apply (Hl p).
    + intros Hp1 Hp. by apply (Hl p).
  - intros k'. case_decide; [done|apply HA].
  - intros k' Hk'. case_decide; [subst; by apply Hsort|by apply HA].
  - split; [|apply HA]. case_decide; [by apply Hidle|apply HA].
  - apply HA.
  - apply HA.
Qed.

Lemma pool_take A k p : pool_ok A → p ∈ queue A k → p ≠ 0 → pool_ok (take k p A) ∧ loose (take k p A) p.
Proof.
  intros HA Hp Hp0. split.
  - apply pool_qset; [done|by eapply w_proper|by apply NoDup_filter, HA| | |].
    + intros Hk. by apply sorted_filter, HA.
    + intros q [_ Hq]%elem_dq_rem. split; [by eapply w_known|]. intros k' Hk'. by eapply w_disj.
    + intros ->. apply elem_dq_rem. split; [done|apply HA].
  - intros k'. simpl. case_decide as Hk; [rewrite elem_dq_rem; naive_solver|].
    intros Hk'. apply Hk. by eapply w_disj.
Qed.

Lemma pool_put A k p :
  pool_ok A → proper k → loose A p → is_Some (core A !! p) → pool_ok (put k p A).
Proof.
  intros HA Hk Hp Hc. unfold put.
  assert (Hperm : (if TLIST_ISPRIORITIZED k then enqueue (prio A) p (queue A k) else queue A k ++ [p]) ≡ₚ p :: queue A k).
  { destruct (TLIST_ISPRIORITIZED k); [apply enqueue_perm|]. symmetry. apply Permutation_cons_append. }
  apply pool_qset; [done|done| | | |].
  - rewrite Hperm. constructor; [apply Hp|apply HA].
  - intros Hs. rewrite Hs. by apply enqueue_sorted, HA.
  - intros q. rewrite Hperm, elem_of_cons. intros [->|Hq].
    + split; [done|]. intros k' Hk'. by destruct (Hp k').
    + split; [by eapply w_known|]. intros k' Hk'. by eapply w_disj.
  - intros ->. rewrite Hperm. right. apply HA.
Qed.

Lemma proper_rdy : proper rdy.
Proof. done. Qed.

Lemma proper_pnd : proper pnd.
Proof. done. Qed.

#[export] Hint Resolve proper_rdy proper_pnd : nx.

Lemma pool_make_ready A p :
  pool_ok A → loose A p → is_Some (core A !! p) → pool_ok (make_ready p A).
Proof. intros HA Hp Hc. unfold make_ready. case_if; apply pool_put; auto with nx. Qed.

Lemma pool_release A : pool_ok A → pool_ok (release A).
Proof.
  intros HA. assert (HA' : pool_ok (qset pnd [] A)).
  { apply pool_qset; [done|apply proper_pnd|constructor|constructor|set_solver|done]. }
  apply pool_qset; [done|apply proper_rdy| | | |].
  - rewrite enqueue_all_perm. apply NoDup_app. split; [apply HA|]. split; [|apply HA].
    intros q Hq Hq'. by pose proof (w_disj _ HA _ _ _ Hq Hq').
  - intros _. apply enqueue_all_sorted, (w_sorted _ HA rdy). done.
  - intros q Hq. apply elem_enqueue_all in Hq. simpl. split; [destruct Hq; by eapply w_known|].
    intros k'. case_decide as Hk; [set_solver|]. intros Hk'. destruct Hq as [Hq|Hq].
    + by destruct Hk; apply (w_disj _ HA k' pnd q).
    + by apply (w_disj _ HA k' rdy q).
  - intros _. apply elem_enqueue_all. right. apply HA.
Qed.

(** A change of a task that is in no queue, or not of its priority. *)

Lemma prio_cupd_ne f p q A : q ≠ p → prio (cupd f p A) q = prio A q.
Proof. intros Hq. unfold prio. simpl. by rewrite lookup_alter_ne. Qed.

Lemma prio_cupd_same f p q A : (∀ t, sched_priority (f t) = sched_priority t) → prio (cupd f p A) q = prio A q.
Proof.
  intros Hf. unfold prio. simpl. destruct (decide (q = p)) as [->|]; [|by rewrite lookup_alter_ne].
  rewrite lookup_alter_eq. destruct (core A !! p); simpl; [by rewrite Hf|done].
Qed.

Lemma pool_cupd_sorted A f p :
  pool_ok A →
  (∀ k, TLIST_ISPRIORITIZED k = true → StronglySorted (descending (prio (cupd f p A))) (queue A k)) →
  prio (cupd f p A) 0 = SCHED_PRIORITY_IDLE →
  (∀ t, core A !! p = Some t → (p ≠ 0 → SCHED_PRIORITY_MIN ≤ sched_priority (f t) ≤ SCHED_PRIORITY_MAX) ∧
    0 ≤ lockcount (f t) ≤ MAX_LOCK_COUNT) →
  pool_ok (cupd f p A).
Proof.
  intros HA Hs Hi Hf. constructor; simpl; try apply HA.
  - intros k q Hq. destruct (decide (q = p)) as [->|]; [|rewrite lookup_alter_ne by done; by eapply w_known].
    rewrite lookup_alter_eq. destruct (w_known _ HA k p Hq) as [t ->]. by eexists.
  - exact Hs.
  - split; [apply HA|done].
  - intros q t Hq. destruct (decide (q = p)) as [->|]; [|rewrite lookup_alter_ne by done; by apply HA].
    rewrite lookup_alter_eq. destruct (core A !! p) as [t0|] eqn:E; simpl; [|done]. intros [= <-]. by apply Hf.
  - intros q t. destruct (decide (q = p)) as [->|]; [|rewrite lookup_alter_ne by done; by apply HA].
    rewrite lookup_alter_eq. destruct (core A !! p) as [t0|] eqn:E; simpl; [|done]. intros [= <-]. by apply Hf.
Qed.

Lemma sorted_cupd A f p k :
  pool_ok A → TLIST_ISPRIORITIZED k = true →
  (∀ q, q ∈ queue A k → prio (cupd f p A) q = prio A q) →
  StronglySorted (descending (prio (cupd f p A))) (queue A k).
Proof.
  intros HA Hk Hq. eapply sorted_impl; [|by apply (w_sorted _ HA)].
  intros x y Hx Hy. unfold descending. by rewrite !Hq.
Qed.

Lemma pool_cupd A f p :
  pool_ok A → (loose A p ∨ ∀ t, sched_priority (f t) = sched_priority t) →
  (∀ t, core A !! p = Some t → (p ≠ 0 → SCHED_PRIORITY_MIN ≤ sched_priority (f t) ≤ SCHED_PRIORITY_MAX) ∧
    0 ≤ lockcount (f t) ≤ MAX_LOCK_COUNT) →
  pool_ok (cupd f p A).
Proof.
  intros HA Hp Hf. assert (Hprio : ∀ k q, q ∈ queue A k → prio (cupd f p A) q = prio A q).
  { intros k q Hq. destruct Hp as [Hp|Hp]; [|by apply prio_cupd_same].
    apply prio_cupd_ne. intros ->. by apply (Hp k). }
  apply pool_cupd_sorted; [done| | |done].
  - intros k Hk. apply sorted_cupd; [done|done|]. intros q. apply Hprio.
  - rewrite (Hprio rdy) by apply HA. apply HA.
Qed.

(** The priority of the running task is raised, or lowered to no less than the next. *)

Lemma pool_raise A p r l n :
  pool_ok A → queue A rdy = p :: r :: l → p ≠ 0 → prio A r < n →
  SCHED_PRIORITY_MIN ≤ n ≤ SCHED_PRIORITY_MAX → pool_ok (cupd (set_priority n) p A).
Proof.
  intros HA E Hp Hr Hn. pose proof (w_nodup _ HA rdy) as Hnd. rewrite E in Hnd. apply NoDup_cons in Hnd as [Hpl _].
  assert (Hin : p ∈ queue A rdy) by (rewrite E; set_solver).
  apply pool_cupd_sorted; [done| | |].
  - intros k Hk. destruct (decide (k = rdy)) as [->|Hne].
    + pose proof (w_sorted _ HA rdy eq_refl) as Hs. rewrite E in Hs |- *. apply StronglySorted_inv in Hs as [Hs _].
      assert (Hl : ∀ q, q ∈ r :: l → prio (cupd (set_priority n) p A) q = prio A q).
      { intros q Hq. apply prio_cupd_ne. intros ->. done. }
      constructor.
      * eapply sorted_impl; [|exact Hs]. intros x y Hx Hy. unfold descending. by rewrite !Hl.
      * apply Forall_forall. intros q Hq. unfold descending. rewrite Hl by done.
        assert (Hself : prio (cupd (set_priority n) p A) p = n).
        { unfold prio. simpl. rewrite lookup_alter_eq. destruct (w_known _ HA rdy p Hin) as [t ->]. done. }
        rewrite Hself. apply StronglySorted_inv in Hs as [_ Hs]. apply elem_of_cons in Hq as [->|Hq]; [lia|].
        eapply Forall_forall in Hs; [|exact Hq]. unfold descending in Hs. lia.
    + apply sorted_cupd; [done|done|]. intros q Hq. apply prio_cupd_ne. intros ->. apply Hne. by eapply w_disj.
  - rewrite prio_cupd_ne by done. apply HA.
  - intros t Ht. split; [done|]. by apply (w_lock _ HA p t).
Qed.

End SchedSpec.
