(* ===== verification/SchedView.v ===== *)
(** * The operations on the lists of tasks are moves of the pool

    [view] says that a [sched_s] is a given pool: the lists are its queues, and the state
    that each task repeats is that of its queue.  Each primitive of Sched.v succeeds and
    has the view of the corresponding move; the flag that it returns is false only when
    the head of the ready-to-run list is still the same. *)

From S2P Require Import Prelude Sched SchedSpec.

Module SchedView.
Import Sched SchedSpec.

Implicit Types (st : sched_s) (p q : Z) (l : list Z) (k s : tstate_t) (t : tcb_s) (A : pool).

(** What is left of a task without its state and time slice. *)

Definition clear t : tcb_s := set_timeslice 0 (set_state TSTATE_TASK_INVALID t).

Definition state_in A k p : tstate_t :=
  if decide (k = rdy) then
    if decide (head (queue A rdy) = Some p) then TSTATE_TASK_RUNNING else rdy
  else k.

Definition has_state A p s : Prop :=
  (∃ k, p ∈ queue A k ∧ s = state_in A k p) ∨ (loose A p ∧ s = TSTATE_TASK_INVALID).

Record view st A : Prop := {
  v_core : clear <$> tcbs st = core A;
  v_queue : ∀ s, TLIST_HEAD s st = queue A (norm s);
  v_state : ∀ p t, tcbs st !! p = Some t → has_state A p (task_state t)
}.

(** ** Consequences *)

Lemma tlist_set s l st s' :
  s ≠ TSTATE_TASK_INVALID →
  TLIST_HEAD s' (set_tlist s l st) = if decide (norm s' = norm s) then l else TLIST_HEAD s' st.
Proof. intros Hs. destruct st, s; try done; by destruct s'. Qed.

Lemma tcbs_set s l st : tcbs (set_tlist s l st) = tcbs st.
Proof. by destruct st, s. Qed.

Lemma readytorun_set l st : g_readytorun (set_tlist rdy l st) = l.
Proof. by destruct st. Qed.

Lemma current_set s l st : current (set_tlist s l st) = current st.
Proof. by destruct st, s. Qed.

Lemma upd_Some f p st t :
  tcbs st !! p = Some t →
  ∃ st', upd f p st = Some st' ∧ tcbs st' = <[p := f t]> (tcbs st) ∧ current st' = current st ∧
    ∀ s, TLIST_HEAD s st' = TLIST_HEAD s st.
Proof. intros Ht. unfold upd. rewrite Ht. eexists. split; [done|]. split; [done|]. split; [done|]. by intros []. Qed.

Section View.

Context (st : sched_s) (A : pool) (HV : view st A).

Lemma v_tcb p : is_Some (core A !! p) → ∃ t, tcbs st !! p = Some t ∧ core A !! p = Some (clear t).
Proof.
  rewrite <- (v_core _ _ HV), lookup_fmap. intros [c Hc]. destruct (tcbs st !! p) as [t|]; [|done].
  exists t. by simplify_eq/=.
Qed.

Lemma v_lookup p t : tcbs st !! p = Some t → core A !! p = Some (clear t).
Proof. intros Ht. by rewrite <- (v_core _ _ HV), lookup_fmap, Ht. Qed.

Lemma v_prio p : priority st p = prio A p.
Proof. unfold priority, prio. rewrite <- (v_core _ _ HV), lookup_fmap. by destruct (tcbs st !! p). Qed.

Lemma v_priority p t : tcbs st !! p = Some t → sched_priority t = prio A p.
Proof. intros Ht. by rewrite <- v_prio; unfold priority; rewrite Ht. Qed.

Lemma v_locks p t : tcbs st !! p = Some t → lockcount t = locks A p.
Proof. intros Ht. unfold locks. by rewrite (v_lookup p t). Qed.

Lemma v_ready : g_readytorun st = queue A rdy.
Proof. apply (v_queue _ _ HV rdy). Qed.

Lemma v_pending : g_pendingtasks st = queue A pnd.
Proof. apply (v_queue _ _ HV pnd). Qed.

Lemma v_enqueue p l : enqueue (priority st) p l = enqueue (prio A) p l.
Proof. apply enqueue_ext. intros x _. apply v_prio. Qed.

Context (HA : pool_ok A).

Lemma v_in k p t : p ∈ queue A k → tcbs st !! p = Some t → task_state t = state_in A k p.
Proof.
  intros Hp Ht. destruct (v_state _ _ HV p t Ht) as [(k' & Hk' & ->)|[Hl _]]; [|by destruct (Hl k)].
  by rewrite (w_disj _ HA k k' p).
Qed.

Lemma v_norm k p t : p ∈ queue A k → tcbs st !! p = Some t → norm (task_state t) = k.
Proof.
  intros Hp Ht. rewrite (v_in k p t) by done. destruct (w_proper _ HA k p Hp) as [Hn _].
  unfold state_in. repeat case_decide; by subst.
Qed.

Lemma v_queued p t : tcbs st !! p = Some t → task_state t ≠ TSTATE_TASK_INVALID → p ∈ queue A (norm (task_state t)).
Proof.
  intros Ht Hs. destruct (v_state _ _ HV p t Ht) as [(k & Hk & Hs')|[_ ?]]; [|done]. by rewrite (v_norm k p t).
Qed.

Lemma v_head : ∃ r l t, queue A rdy = r :: l ∧ this_task st = Some r ∧ tcbs st !! r = Some t.
Proof.
  unfold this_task. rewrite v_ready. destruct (queue A rdy) as [|r l] eqn:E.
  - pose proof (proj1 (w_idle _ HA)). rewrite E in *. set_solver.
  - destruct (v_tcb r) as (t & Ht & _); [eapply (w_known _ HA rdy); rewrite E; set_solver|]. by exists r, l, t.
Qed.

Lemma loose_pos p : loose A p → p ≠ 0.
Proof. intros Hp ->. apply (Hp rdy), HA. Qed.

Lemma prio_pos p : p ≠ 0 → is_Some (core A !! p) → SCHED_PRIORITY_MIN ≤ prio A p ≤ SCHED_PRIORITY_MAX.
Proof. intros Hp [t Ht]. unfold prio. rewrite Ht. simpl. by eapply w_prio. Qed.

End View.

(** ** Building a view *)

Lemma has_state_qset A k l q s :
  (q ∈ l ↔ q ∈ queue A k) → (k = rdy → head l = Some q ↔ head (queue A rdy) = Some q) →
  has_state A q s → has_state (qset k l A) q s.
Proof.
  intros Hl Hh [(k' & Hq & ->)|[Hq ->]].
  - left. exists k'. simpl. split; [case_decide; subst; [by apply Hl|done]|].
    unfold state_in. simpl. destruct (decide (k' = rdy)) as [->|]; [|done].
    destruct (decide (rdy = k)) as [<-|]; [|done].
    destruct (decide (head l = Some q)) as [H1|H1]; rewrite Hh in H1 by done;
      [by rewrite decide_True|by rewrite decide_False].
  - right. split; [|done]. intros k'. simpl. case_decide; [rewrite Hl|]; apply Hq.
Qed.

Lemma view_qset st A st' k l :
  view st A → proper k → clear <$> tcbs st' = clear <$> tcbs st →
  (∀ s, TLIST_HEAD s st' = if decide (norm s = k) then l else TLIST_HEAD s st) →
  (∀ q t, tcbs st' !! q = Some t → has_state (qset k l A) q (task_state t)) →
  view st' (qset k l A).
Proof.
  intros HV Hk Hc Hl Hs. constructor; [by rewrite Hc; apply HV| |done].
  intros s. rewrite Hl. simpl. case_decide; [done|]. apply HV.
Qed.

Lemma clear_insert (m : gmap Z tcb_s) p t t' :
  m !! p = Some t → clear t' = clear t → clear <$> <[p := t']> m = clear <$> m.
Proof. intros Ht Hc. rewrite fmap_insert, Hc, insert_id; [done|]. by rewrite lookup_fmap, Ht. Qed.

Lemma alter_Some (m : gmap Z tcb_s) f p t : m !! p = Some t → alter f p m = <[p := f t]> m.
Proof.
  intros Ht. apply map_eq. intros q. destruct (decide (q = p)) as [->|].
  - by rewrite lookup_alter_eq, lookup_insert_eq, Ht.
  - by rewrite lookup_alter_ne, lookup_insert_ne.
Qed.

(** A field other than the state changes. *)

Lemma view_upd st A p t f :
  view st A → tcbs st !! p = Some t →
  (∀ t, clear (f t) = f (clear t)) → (∀ t, task_state (f t) = task_state t) →
  ∃ st', upd f p st = Some st' ∧ view st' (cupd f p A) ∧ current st' = current st.
Proof.
  intros HV Ht Hc Hs. destruct (upd_Some f p st t Ht) as (st' & E & Htcb & Hcur & Hl). exists st'.
  split; [done|]. split; [|done]. constructor.
  - simpl. rewrite Htcb, fmap_insert, Hc, (v_core _ _ HV). symmetry. by apply alter_Some, (v_lookup st).
  - intros s. rewrite Hl. apply HV.
  - intros q t'. rewrite Htcb. destruct (decide (q = p)) as [->|].
    + rewrite lookup_insert_eq. intros [= <-]. rewrite Hs. by apply HV.
    + rewrite lookup_insert_ne by done. apply HV.
Qed.

(** The effect of a move on the tasks of the pool. *)

Lemma take_state A k p q s :
  pool_ok A → p ∈ queue A k → q ≠ p →
  (k = rdy → head (queue A rdy) ≠ Some p) → has_state A q s → has_state (take k p A) q s.
Proof.
  intros HA Hp Hq Hh. apply has_state_qset; [rewrite elem_dq_rem; naive_solver|].
  intros ->. specialize (Hh eq_refl). destruct (queue A rdy) as [|r l]; [done|]. unfold dq_rem.
  rewrite filter_cons_True; [done|]. intros ->. done.
Qed.

Lemma put_state A k p q s :
  q ≠ p → (k = rdy → head (enqueue (prio A) p (queue A rdy)) ≠ Some p) →
  has_state A q s → has_state (put k p A) q s.
Proof.
  intros Hq Hh. apply has_state_qset.
  - destruct (TLIST_ISPRIORITIZED k); [rewrite elem_enqueue; naive_solver|]. rewrite elem_of_app. set_solver.
  - intros ->. simpl. specialize (Hh eq_refl). rewrite enqueue_head in *. by case_if.
Qed.

Lemma put_self A k p : p ∈ queue (put k p A) k.
Proof. simpl. rewrite decide_True by done. case_if; [apply elem_enqueue; by left|set_solver]. Qed.

(** ** Removing a task from the ready-to-run list *)

Lemma head_next A p :
  pool_ok A → p ≠ 0 → head (queue A rdy) = Some p → ∃ n l, queue A rdy = p :: n :: l ∧ p ∉ n :: l.
Proof.
  intros HA Hp0 Hh. pose proof (w_nodup _ HA rdy) as Hnd. pose proof (proj1 (w_idle _ HA)) as Hi.
  destruct (queue A rdy) as [|x [|n l]]; [done| |]; simplify_eq/=; [set_solver|].
  apply NoDup_cons in Hnd as [Hpl _]. by exists n, l.
Qed.

Section Remove.

Context (st : sched_s) (A : pool) (HV : view st A) (HA : pool_ok A).
Context (p : Z) (Hp : p ∈ queue A rdy) (Hp0 : p ≠ 0).

Lemma remove_from st1 t :
  tcbs st1 !! p = Some t → clear <$> tcbs st1 = clear <$> tcbs st → current st1 = current st →
  (∀ s, TLIST_HEAD s st1 = TLIST_HEAD s st) →
  (∀ q t, q ≠ p → tcbs st1 !! q = Some t → has_state (take rdy p A) q (task_state t)) →
  ∃ st', upd (set_state TSTATE_TASK_INVALID) p (set_tlist rdy (dq_rem p (g_readytorun st1)) st1) = Some st' ∧
    view st' (take rdy p A) ∧ current st' = current st.
Proof.
  intros Ht Hc Hcur Hl Hs.
  edestruct (upd_Some (set_state TSTATE_TASK_INVALID) p (set_tlist rdy (dq_rem p (g_readytorun st1)) st1) t)
    as (st' & E & Htcb & Hcur' & Hl'); [by rewrite tcbs_set|]. rewrite tcbs_set in Htcb. rewrite current_set in Hcur'.
  exists st'. split; [done|]. split; [|congruence]. apply (view_qset st).
  - done.
  - done.
  - rewrite Htcb. by rewrite (clear_insert _ _ t).
  - intros s. rewrite Hl', tlist_set by done. simpl. rewrite (Hl rdy : g_readytorun st1 = g_readytorun st).
    rewrite (v_ready st A HV). case_decide; [done|]. apply Hl.
  - intros q t'. rewrite Htcb. destruct (decide (q = p)) as [->|].
    + rewrite lookup_insert_eq. intros [= <-]. right. split; [by apply pool_take|done].
    + rewrite lookup_insert_ne by done. by apply Hs.
Qed.

Lemma remove_ready :
  ∃ st', nxsched_remove_readytorun p st = Some (bool_decide (head (queue A rdy) = Some p), st') ∧
    view st' (take rdy p A) ∧ current st' = current st.
Proof.
  destruct (v_tcb st A HV p) as (t & Ht & _); [by eapply w_known|].
  unfold nxsched_remove_readytorun. rewrite (v_ready st A HV). case_decide as Hh.
  - destruct (head_next A p HA Hp0 Hh) as (n & l & E & Hpl). rewrite bool_decide_true by done. rewrite E, flink_head.
    destruct (v_tcb st A HV n) as (tn & Hn & _); [eapply (w_known _ HA rdy); rewrite E; set_solver|].
    cbn [mbind option_bind head]. destruct (upd_Some (set_state TSTATE_TASK_RUNNING) n st tn Hn) as (st1 & -> & Htcb & Hcur & Hl).
    cbn [mbind option_bind].
    edestruct (remove_from st1 t) as (st' & -> & HV' & Hcur'); [..|by eexists].
    + rewrite Htcb, lookup_insert_ne; [done|]. set_solver.
    + rewrite Htcb. by apply (clear_insert _ _ tn).
    + done.
    + done.
    + intros q tq Hq. rewrite Htcb. assert (Hread : queue (take rdy p A) rdy = n :: l).
      { simpl. rewrite E. by apply dq_rem_head. }
      destruct (decide (q = n)) as [->|Hqn].
      * rewrite lookup_insert_eq. intros [= <-]. left. exists rdy. rewrite Hread. split; [set_solver|].
        unfold state_in. rewrite Hread. simpl. by rewrite !decide_True.
      * rewrite lookup_insert_ne by done. intros Htq. apply has_state_qset; [rewrite elem_dq_rem; naive_solver| |by apply HV].
        intros _. rewrite E, dq_rem_head by done. simpl. naive_solver.
  - rewrite bool_decide_false by done. cbn [mbind option_bind].
    edestruct (remove_from st t) as (st' & E & HV' & Hcur'); [done..| |].
    + intros q tq Hq Htq. apply take_state; [done|done|done|done|by apply HV].
    + rewrite E. by eexists.
Qed.

End Remove.

(** ** Adding a task to a list *)

Lemma insert_ext f g p l : (∀ x, f x = g x) → insert_prioritized f p l = insert_prioritized g p l.
Proof. intros H. induction l as [|x l IH]; [done|]. simpl. by rewrite !H, IH. Qed.

Section Add.

Context (st : sched_s) (A : pool) (HV : view st A) (HA : pool_ok A).
Context (p : Z) (Hp : loose A p) (t : tcb_s) (Ht : tcbs st !! p = Some t).

Lemma add_prioritized s :
  nxsched_add_prioritized p s st =
    Some ((insert_prioritized (prio A) p (queue A (norm s))).2,
          set_tlist s (enqueue (prio A) p (queue A (norm s))) st).
Proof.
  unfold nxsched_add_prioritized. rewrite Ht. cbn [mbind option_bind]. rewrite (v_priority st A HV p t Ht).
  pose proof (prio_pos A HA p (loose_pos A HA p Hp)) as Hpos.
  rewrite (proj2 (Z.leb_le _ _)) by (apply Hpos; by rewrite (v_lookup st A HV p t Ht)).
  cbn [DEBUGASSERT mbind option_bind]. rewrite (insert_ext _ (prio A)) by apply (v_prio st A HV).
  rewrite (v_queue _ _ HV). unfold enqueue. by destruct (insert_prioritized _ _ _).
Qed.

Definition place k : list Z :=
  if TLIST_ISPRIORITIZED k then enqueue (prio A) p (queue A k) else queue A k ++ [p].

Lemma place_in k :
  proper k → (k = rdy → head (enqueue (prio A) p (queue A rdy)) ≠ Some p) →
  ∃ st', upd (set_state k) p (set_tlist k (place k) st) = Some st' ∧ view st' (put k p A) ∧
    current st' = current st.
Proof.
  intros [Hk Hk0] Hh. edestruct (upd_Some (set_state k) p (set_tlist k (place k) st) t)
    as (st' & E & Htcb & Hcur & Hl); [by rewrite tcbs_set|]. rewrite tcbs_set in Htcb. rewrite current_set in Hcur.
  exists st'. split; [done|]. split; [|done]. apply (view_qset st); [done|done| | |].
  - rewrite Htcb. by apply (clear_insert _ _ t).
  - intros s. by rewrite Hl, tlist_set, Hk.
  - intros q t'. rewrite Htcb. destruct (decide (q = p)) as [->|].
    + rewrite lookup_insert_eq. intros [= <-]. left. exists k. split; [apply put_self|].
      unfold state_in. destruct (decide (k = rdy)) as [->|]; [|done]. simpl. by rewrite decide_False by auto.
    + rewrite lookup_insert_ne by done. intros Hq. apply put_state; [done|done|by apply HV].
Qed.

(** The task preempts the running one. *)

Lemma place_head r l tr :
  queue A rdy = r :: l → tcbs st !! r = Some tr → head (enqueue (prio A) p (queue A rdy)) = Some p →
  ∃ st1 st', upd (set_state TSTATE_TASK_RUNNING) p (set_tlist rdy (place rdy) st) = Some st1 ∧
    upd (set_state rdy) r st1 = Some st' ∧ view st' (put rdy p A) ∧ current st' = current st.
Proof.
  intros E Hr Hh. assert (Hrp : r ≠ p) by (intros ->; apply (Hp rdy); rewrite E; set_solver).
  edestruct (upd_Some (set_state TSTATE_TASK_RUNNING) p (set_tlist rdy (place rdy) st) t)
    as (st1 & E1 & Htcb & Hcur & Hl); [by rewrite tcbs_set|]. rewrite tcbs_set in Htcb. rewrite current_set in Hcur.
  destruct (upd_Some (set_state rdy) r st1 tr) as (st' & E2 & Htcb2 & Hcur2 & Hl2); [by rewrite Htcb, lookup_insert_ne|].
  exists st1, st'. split; [done|]. split; [done|]. split; [|congruence]. apply (view_qset st); [done|done| | |].
  - rewrite Htcb2, Htcb. rewrite (clear_insert _ _ tr); [by apply (clear_insert _ _ t)| |done]. by rewrite lookup_insert_ne.
  - intros s. by rewrite Hl2, Hl, tlist_set.
  - intros q t'. rewrite Htcb2, Htcb. destruct (decide (q = r)) as [->|Hqr].
    + rewrite lookup_insert_eq. intros [= <-]. left. exists rdy. simpl. split; [apply elem_enqueue; rewrite E; set_solver|].
      unfold state_in. simpl. rewrite decide_False; [done|]. rewrite Hh. naive_solver.
    + rewrite lookup_insert_ne by done. destruct (decide (q = p)) as [->|Hqp].
      * rewrite lookup_insert_eq. intros [= <-]. left. exists rdy. split; [apply put_self|].
        unfold state_in. simpl. by rewrite Hh, decide_True.
      * rewrite lookup_insert_ne by done. intros Hq. apply has_state_qset; [simpl; rewrite elem_enqueue; naive_solver| |by apply HV].
        intros _. simpl. rewrite Hh, E. simpl. naive_solver.
Qed.

Lemma add_ready :
  ∃ st', nxsched_add_readytorun p st =
      Some (bool_decide (head (queue (make_ready p A) rdy) = Some p), st') ∧
    view st' (make_ready p A) ∧ current st' = current st.
Proof.
  destruct (v_head st A HV HA) as (r & l & tr & E & Hr & Htr).
  unfold nxsched_add_readytorun, make_ready, held_back. rewrite Hr, Ht. cbn [mbind option_bind]. rewrite Htr.
  cbn [mbind option_bind]. rewrite (v_locks st A HV r tr), (v_priority st A HV r tr), (v_priority st A HV p t), E by done.
  cbn [head]. destruct ((0 <? locks A r) && (prio A r <? prio A p)) eqn:Hb.
  - rewrite add_prioritized. cbn [mbind option_bind norm].
    destruct (place_in pnd) as (st' & E' & HV' & Hcur); [apply proper_pnd|done|]. unfold place in E'. cbn in E'.
    rewrite E'. cbn [mbind option_bind]. exists st'. rewrite bool_decide_false; [done|]. simpl. rewrite E.
    intros [= ->]. apply (Hp rdy). rewrite E. set_solver.
  - rewrite add_prioritized. cbn [mbind option_bind norm].
    pose proof (enqueue_head (prio A) p (queue A rdy)) as Hh.
    destruct (insert_prioritized (prio A) p (queue A rdy)).2 eqn:Hb'; cbn [mbind option_bind].
    + destruct (place_head r l tr) as (st1 & st' & E1 & E2 & HV' & Hcur); [done..|]. unfold place in E1. cbn in E1.
      rewrite E, enqueue_new_head in Hb'. apply bool_decide_eq_true in Hb'.
      rewrite (proj2 (Z.eqb_eq _ _)).
      2:{ rewrite andb_false_iff, Z.ltb_ge, Z.ltb_ge in Hb. destruct (w_lock _ HA r (clear tr)); [by apply (v_lookup st)|].
          pose proof (v_locks st A HV r tr Htr). simpl in *. lia. }
      cbn [DEBUGASSERT mbind option_bind]. rewrite readytorun_set.
      rewrite E, enqueue_before, flink_head in * by done. cbn [mbind option_bind head].
      rewrite E1. cbn [mbind option_bind]. rewrite E2. cbn [mbind option_bind]. exists st'.
      rewrite bool_decide_true; [done|]. simpl. by rewrite E, enqueue_before.
    + destruct (place_in rdy) as (st' & E' & HV' & Hcur); [apply proper_rdy| |].
      * rewrite Hh, E. intros _ [= ->]. apply (Hp rdy). rewrite E. set_solver.
      * unfold place in E'. cbn in E'. rewrite E'. cbn [mbind option_bind]. exists st'.
        rewrite bool_decide_false; [done|]. simpl. rewrite Hh, E. intros [= ->]. apply (Hp rdy). rewrite E. set_solver.
Qed.

Lemma add_blocked s :
  blocked s = true →
  ∃ st', nxsched_add_blocked p s st = Some st' ∧ view st' (put s p A) ∧ current st' = current st.
Proof.
  intros Hb. assert (Hs : proper s ∧ s ≠ rdy) by (by destruct s). destruct Hs as [Hs Hr].
  destruct (place_in s Hs) as (st' & E & HV'); [done|]. exists st'. split; [|done].
  unfold nxsched_add_blocked. rewrite Hb. cbn [DEBUGASSERT mbind option_bind]. rewrite add_prioritized.
  rewrite (v_queue _ _ HV). destruct Hs as [-> _]. unfold place in E. by destruct (TLIST_ISPRIORITIZED s).
Qed.

End Add.

(** ** Removing a blocked task *)

Lemma blocked_proper s : blocked s = true → proper s ∧ s ≠ rdy ∧ s ≠ pnd ∧ norm s = s.
Proof. by destruct s. Qed.

Lemma remove_blocked st A p k :
  view st A → pool_ok A → p ∈ queue A k → blocked k = true →
  ∃ st', nxsched_remove_blocked p st = Some st' ∧ view st' (take k p A) ∧ current st' = current st.
Proof.
  intros HV HA Hp Hb. destruct (blocked_proper k Hb) as (Hk & Hr & _ & Hn).
  destruct (v_tcb st A HV p) as (t & Ht & _); [by eapply w_known|].
  assert (Hs : task_state t = k) by (rewrite (v_in st A HV HA k p t) by done; unfold state_in; by rewrite decide_False).
  unfold nxsched_remove_blocked. rewrite Ht. cbn [mbind option_bind]. rewrite Hs, Hb. cbn [DEBUGASSERT mbind option_bind].
  edestruct (upd_Some (set_state TSTATE_TASK_INVALID) p (set_tlist k (dq_rem p (TLIST_HEAD k st)) st) t)
    as (st' & E & Htcb & Hcur & Hl); [by rewrite tcbs_set|]. rewrite tcbs_set in Htcb. rewrite current_set in Hcur.
  exists st'. split; [done|]. split; [|done]. apply (view_qset st); [done|done| | |].
  - rewrite Htcb. by apply (clear_insert _ _ t).
  - intros s. rewrite Hl, tlist_set, Hn by apply Hk. by rewrite (v_queue _ _ HV), Hn.
  - intros q t'. rewrite Htcb. destruct (decide (q = p)) as [->|].
    + rewrite lookup_insert_eq. intros [= <-]. right. split; [|done]. apply pool_take; [done|done|].
      intros ->. apply Hr. eapply (w_disj _ HA); [exact Hp|apply HA].
    + rewrite lookup_insert_ne by done. intros Hq. apply take_state; [done..|by apply HV].
Qed.

(** ** Merging the pending tasks *)

Definition slot l q : tstate_t := if decide (head l = Some q) then TSTATE_TASK_RUNNING else rdy.

Definition restated st st' : Prop :=
  clear <$> tcbs st' = clear <$> tcbs st ∧ current st' = current st ∧
  ∀ s, TLIST_HEAD s st' = TLIST_HEAD s st.

Lemma restated_trans st1 st2 st3 : restated st1 st2 → restated st2 st3 → restated st1 st3.
Proof. intros (H1 & H2 & H3) (K1 & K2 & K3). split; [congruence|]. split; [congruence|]. intros s. by rewrite K3. Qed.

Lemma upd_state s p st t :
  tcbs st !! p = Some t →
  ∃ st', upd (set_state s) p st = Some st' ∧ restated st st' ∧ tcbs st' = <[p := set_state s t]> (tcbs st).
Proof.
  intros Ht. destruct (upd_Some (set_state s) p st t Ht) as (st' & E & Htcb & Hcur & Hl). exists st'.
  split; [done|]. split; [|done]. split; [|done]. rewrite Htcb. by apply (clear_insert _ _ t).
Qed.

Lemma restated_priority st st' p : restated st st' → priority st' p = priority st p.
Proof.
  intros (Hc & _). unfold priority. apply (f_equal (λ m : gmap Z tcb_s, m !! p)) in Hc. rewrite !lookup_fmap in Hc.
  destruct (tcbs st' !! p) as [t'|], (tcbs st !! p) as [t|]; simplify_eq/=; congruence.
Qed.

Lemma restated_known st st' p : restated st st' → is_Some (tcbs st !! p) → is_Some (tcbs st' !! p).
Proof.
  intros (Hc & _). apply (f_equal (λ m : gmap Z tcb_s, m !! p)) in Hc. rewrite !lookup_fmap in Hc.
  destruct (tcbs st' !! p), (tcbs st !! p); simplify_eq/=; intros [? ?]; by eauto.
Qed.

Lemma merge_search_spec pr p before after b a :
  merge_search pr p before after = (b, a) → (∀ x, x ∈ before → pr p ≤ pr x) →
  reverse b ++ a = reverse before ++ after ∧ (∀ x, x ∈ b → pr p ≤ pr x) ∧
  reverse b ++ p :: a = enqueue pr p (reverse before ++ after).
Proof.
  assert (Hrev : ∀ b l, (∀ x, x ∈ b → pr p ≤ pr x) → enqueue pr p (reverse b ++ l) = reverse b ++ enqueue pr p l).
  { intros b' l Hb'. apply enqueue_behind. intros x Hx. by apply Hb', elem_of_reverse. }
  revert before. induction after as [|x after IH]; intros before; simpl.
  - intros [= <- <-] Hb. by rewrite Hrev.
  - case_if; intros Hm Hb.
    + destruct (IH _ Hm) as (H1 & H2 & H3); [set_solver|]. rewrite reverse_cons, <- !app_assoc in *. done.
    + simplify_eq. rewrite Hrev, enqueue_before by (done || lia). done.
Qed.

Record merging st (pend l : list Z) : Prop := {
  m_known : ∀ q, q ∈ pend ∨ q ∈ l → is_Some (tcbs st !! q);
  m_nodup : NoDup (pend ++ l);
  m_sorted : StronglySorted (descending (priority st)) pend;
  m_idle : 0 ∈ l ∧ priority st 0 = 0 ∧ ∀ q, q ∈ pend → 0 < priority st q;
  m_slot : ∀ q t, q ∈ l → tcbs st !! q = Some t → task_state t = slot l q
}.

Lemma merging_next st st1 p pend l l' :
  restated st st1 → merging st (p :: pend) l → l' ≡ₚ p :: l →
  (∀ q t, q ∈ l' → tcbs st1 !! q = Some t → task_state t = slot l' q) → merging st1 pend l'.
Proof.
  intros Hr [Hk Hnd Hs (Hi & Hi0 & Hpos) _] Hl Hslot. constructor.
  - intros q. rewrite Hl, elem_of_cons. intros Hq. eapply restated_known; [done|]. apply Hk. set_solver.
  - rewrite Hl. revert Hnd. by rewrite <- Permutation_middle.
  - apply StronglySorted_inv in Hs as [Hs _]. eapply sorted_impl; [|exact Hs]. intros x y _ _. unfold descending.
    by rewrite !(restated_priority st st1).
  - split; [rewrite Hl; set_solver|]. rewrite (restated_priority st st1) by done. split; [done|].
    intros q Hq. rewrite (restated_priority st st1) by done. apply Hpos. set_solver.
  - exact Hslot.
Qed.

Lemma slot_head p l : slot (p :: l) p = TSTATE_TASK_RUNNING.
Proof. unfold slot. by rewrite decide_True. Qed.

Lemma slot_rest p l q : q ≠ p → slot (p :: l) q = rdy.
Proof. intros Hq. unfold slot. rewrite decide_False; [done|]. simpl. naive_solver. Qed.

(** One task is merged. *)

Lemma merge_first st p pend x a :
  merging st (p :: pend) (x :: a) →
  ∃ st1 st2, upd (set_state rdy) x st = Some st1 ∧ upd (set_state TSTATE_TASK_RUNNING) p st1 = Some st2 ∧
    restated st st2 ∧ merging st2 pend (p :: x :: a) ∧
    (∀ q, q ∉ p :: x :: a → tcbs st2 !! q = tcbs st !! q).
Proof.
  intros HM. destruct (m_known _ _ _ HM x) as [tx Hx]; [set_solver|]. destruct (m_known _ _ _ HM p) as [tp Hp]; [set_solver|].
  pose proof (m_nodup _ _ _ HM) as Hnd. simpl in Hnd. apply NoDup_cons in Hnd as [Hpx _].
  assert (Hne : p ≠ x) by set_solver.
  destruct (upd_state rdy x st tx Hx) as (st1 & E1 & Hr1 & Ht1).
  destruct (upd_state TSTATE_TASK_RUNNING p st1 tp) as (st2 & E2 & Hr2 & Ht2); [by rewrite Ht1, lookup_insert_ne|].
  exists st1, st2. split; [done|]. split; [done|]. pose proof (restated_trans _ _ _ Hr1 Hr2) as Hr. split; [done|].
  rewrite Ht1 in Ht2. split.
  - apply (merging_next st st2 p pend (x :: a)); [done|done|done|]. intros q t Hq. rewrite Ht2.
    destruct (decide (q = p)) as [->|]; [rewrite lookup_insert_eq; intros [= <-]; by rewrite slot_head|].
    rewrite lookup_insert_ne, slot_rest by done. destruct (decide (q = x)) as [->|].
    + rewrite lookup_insert_eq. by intros [= <-].
    + rewrite lookup_insert_ne by done. intros Ht. rewrite (m_slot _ _ _ HM q t), slot_rest; set_solver.
  - intros q Hq. rewrite Ht2, !lookup_insert_ne by set_solver. done.
Qed.

Lemma merge_middle st p pend l l' :
  merging st (p :: pend) l → l' ≡ₚ p :: l → head l' = head l →
  ∃ st1, upd (set_state rdy) p st = Some st1 ∧ restated st st1 ∧ merging st1 pend l' ∧
    (∀ q, q ∉ l' → tcbs st1 !! q = tcbs st !! q).
Proof.
  intros HM Hl Hh. destruct (m_known _ _ _ HM p) as [tp Hp]; [set_solver|].
  destruct (upd_state rdy p st tp Hp) as (st1 & E1 & Hr & Ht1). exists st1. split; [done|]. split; [done|].
  pose proof (m_nodup _ _ _ HM) as Hnd. simpl in Hnd. apply NoDup_cons in Hnd as [Hpl _]. split.
  - apply (merging_next st st1 p pend l); [done..|]. intros q t Hq. rewrite Hl in Hq. rewrite Ht1. unfold slot. rewrite Hh.
    destruct (decide (q = p)) as [->|].
    + rewrite lookup_insert_eq. intros [= <-]. rewrite decide_False; [done|]. intros Hh'.
      destruct l as [|y l]; [done|]. simplify_eq/=. set_solver.
    + rewrite lookup_insert_ne by done. intros Ht. apply (m_slot _ _ _ HM); [set_solver|done].
  - intros q Hq. rewrite Ht1, lookup_insert_ne; [done|]. rewrite Hl in Hq. set_solver.
Qed.

(** All are. *)

Definition merged st (pend l : list Z) (b : bool) st1 : Prop :=
  let l' := enqueue_all (priority st) pend l in
  restated st st1 ∧ merging st1 [] l' ∧ (∀ q, q ∉ l' → tcbs st1 !! q = tcbs st !! q) ∧
  (b = false → head l' = head l).

Lemma merged_step st st1 st2 p pend l b b' :
  restated st st1 → (∀ q, q ∉ enqueue (priority st) p l → tcbs st1 !! q = tcbs st !! q) →
  (b' = false → b = false ∧ head (enqueue (priority st) p l) = head l) →
  merged st1 pend (enqueue (priority st) p l) b st2 → merged st (p :: pend) l b' st2.
Proof.
  intros Hr Hq Hb (H1 & H2 & H3 & H4). unfold merged. simpl.
  assert (Hp : ∀ x, priority st1 x = priority st x) by (intros; by apply restated_priority).
  rewrite (enqueue_all_ext _ (priority st)) in H2, H4 by done.
  split; [by eapply restated_trans|]. split; [done|]. split.
  - intros q Hq'. rewrite H3, Hq; [done| |by rewrite (enqueue_all_ext _ (priority st))].
    intros Hin. apply Hq', elem_enqueue_all. by right.
  - intros Hb'. destruct (Hb Hb') as [-> Hh]. by rewrite H4.
Qed.

Lemma merge_loop_spec pend before after ret st :
  merging st pend (reverse before ++ after) →
  (∀ p x, p ∈ pend → x ∈ before → priority st p ≤ priority st x) →
  ∃ b st1, merge_loop pend before after ret st =
      Some (ret || b, set_tlist rdy (enqueue_all (priority st) pend (reverse before ++ after)) st1) ∧
    merged st pend (reverse before ++ after) b st1.
Proof.
  revert before after ret st. induction pend as [|p pend IH]; intros before after ret st HM Hb.
  - exists false, st. simpl. rewrite orb_false_r. split; [done|]. by split_and!.
  - simpl. destruct (merge_search (priority st) p before after) as [b a] eqn:E.
    destruct (merge_search_spec _ _ _ _ _ _ E) as (H1 & H2 & H3); [intros; apply Hb; set_solver|].
    rewrite <- H1 in H3, HM |- *. rewrite <- H3. destruct (m_idle _ _ _ HM) as (Hi & Hi0 & Hpos).
    assert (Hnext : ∀ q x, q ∈ pend → x ∈ b → priority st q ≤ priority st x).
    { intros q x Hq Hx. pose proof (m_sorted _ _ _ HM) as Hs. apply StronglySorted_inv in Hs as [_ Hs].
      eapply Forall_forall in Hs; [|exact Hq]. specialize (H2 x Hx). unfold descending in Hs. lia. }
    destruct a as [|x a]; [|cbn [head mbind option_bind]; destruct b as [|y b]].
    + rewrite app_nil_r, elem_of_reverse in Hi. specialize (H2 0 Hi). specialize (Hpos p). set_solver by lia.
    + destruct (merge_first st p pend x a HM) as (st1 & st2 & -> & E2 & Hr & HM' & Hq).
      cbn [mbind option_bind]. rewrite E2. cbn [mbind option_bind].
      destruct (IH [] (p :: x :: a) true st2 HM') as (b' & st3 & -> & Hm); [set_solver|].
      exists true, st3. rewrite orb_true_r. split.
      * do 3 f_equal. apply enqueue_all_ext. intros. by apply restated_priority.
      * eapply (merged_step st st2); [done|by rewrite <- H3|done|]. by rewrite <- H3.
    + assert (Hh : ∀ l, head (reverse (y :: b) ++ l) = head (reverse (y :: b))).
      { intros l. rewrite reverse_cons. by destruct (reverse b). }
      destruct (merge_middle st p pend _ (reverse (y :: b) ++ p :: x :: a) HM) as (st1 & -> & Hr & HM' & Hq).
      { symmetry. apply Permutation_middle. }
      { by rewrite !Hh. }
      cbn [mbind option_bind]. destruct (IH (y :: b) (p :: x :: a) ret st1 HM') as (b' & st3 & -> & Hm).
      { intros q z Hq' Hz. rewrite !(restated_priority st st1) by done. by apply Hnext. }
      exists b', st3. split.
      * do 3 f_equal. apply enqueue_all_ext. intros. by apply restated_priority.
      * eapply (merged_step st st1); [done|by rewrite <- H3| |by rewrite <- H3].
        intros ->. split; [done|]. by rewrite <- H3, !Hh.
Qed.

Lemma merge_pending st A :
  view st A → pool_ok A →
  ∃ b st', nxsched_merge_pending st = Some (b, st') ∧ view st' (release A) ∧ current st' = current st ∧
    (b = false → head (queue (release A) rdy) = head (queue A rdy)).
Proof.
  intros HV HA. assert (HM : merging st (queue A pnd) (queue A rdy)).
  { constructor.
    - intros q Hq. assert (Hk : is_Some (core A !! q)) by (destruct Hq; by eapply w_known).
      destruct (v_tcb st A HV q Hk) as (t & Ht & _). by eexists.
    - apply NoDup_app. split; [apply HA|]. split; [|apply HA]. intros q H1 H2. by pose proof (w_disj _ HA _ _ _ H1 H2).
    - eapply sorted_impl; [|by apply (w_sorted _ HA pnd)]. intros x y _ _. unfold descending. by rewrite !(v_prio st A HV).
    - destruct (w_idle _ HA) as [Hi Hi0]. split; [done|]. rewrite (v_prio st A HV). split; [done|]. intros q Hq.
      rewrite (v_prio st A HV). pose proof (prio_pos A HA q) as Hpos. unfold SCHED_PRIORITY_MIN in Hpos.
      enough (1 ≤ prio A q) by lia. apply Hpos; [|by eapply w_known]. intros ->.
      by pose proof (w_disj _ HA _ _ _ Hq Hi).
    - intros q t Hq Ht. rewrite (v_in st A HV HA rdy q t) by done. done. }
  unfold nxsched_merge_pending. rewrite (v_ready st A HV), (v_pending st A HV).
  destruct (merge_loop_spec (queue A pnd) [] (queue A rdy) false st HM) as (b & st1 & -> & (Hc & Hcur & Hl) & HM' & Hq & Hb); [set_solver|].
  cbn [mbind option_bind orb]. simpl in HM', Hq, Hb.
  rewrite (enqueue_all_ext _ (prio A)) in HM', Hq, Hb by apply (v_prio st A HV).
  rewrite (enqueue_all_ext _ (prio A)) by apply (v_prio st A HV).
  eexists _, _. split; [done|]. split; [|split; [by rewrite !current_set|done]].
  constructor.
  - rewrite !tcbs_set, Hc. apply HV.
  - intros s. rewrite !tlist_set, Hl, (v_queue _ _ HV) by done. simpl. destruct s; done.
  - intros q t. rewrite !tcbs_set. intros Ht.
    destruct (decide (q ∈ enqueue_all (prio A) (queue A pnd) (queue A rdy))) as [Hin|Hout].
    + left. exists rdy. split; [done|]. by rewrite (m_slot _ _ _ HM' q t).
    + rewrite Hq in Ht by done. rewrite elem_enqueue_all in Hout. apply has_state_qset; [| |apply has_state_qset; [|done|by apply HV]].
      * rewrite elem_enqueue_all. simpl. tauto.
      * intros _. simpl. split; intros Hh%head_Some_elem_of; [|tauto]. apply elem_enqueue_all in Hh. tauto.
      * set_solver.
Qed.

End SchedView.
