(* ===== verification/SchedOps.v ===== *)
(** * Blocking, waking, locking and priorities as moves of the pool

    The operations that the rest of the kernel calls, composed of the primitives of
    SchedView.v.  [move] is what each of them does to the pool, and [sched_ok] is what
    they all keep: the lists have a view, and the registers of the CPU are those of the
    head of the ready-to-run list. *)

From S2P Require Import Prelude Sched SchedSpec SchedView.

Module SchedOps.
Import Sched SchedSpec SchedView.

Implicit Types (st : sched_s) (p q : Z) (l : list Z) (k s : tstate_t) (t : tcb_s) (A : pool).

(** ** Pools with the same queues *)

Definition pool_eq A A' : Prop := core A = core A' ∧ ∀ k, queue A k = queue A' k.

#[global] Instance pool_eq_equiv : Equivalence pool_eq.
Proof.
  split; [done| |].
  - intros A A' [Hc Hq]. by split; [|intros k; rewrite Hq].
  - intros A A' A'' [Hc Hq] [Hc' Hq']. by split; [congruence|intros k; rewrite Hq].
Qed.

#[global] Instance queue_proper : Proper (pool_eq ==> (=) ==> (=)) queue.
Proof. intros A A' [_ Hq] k ? <-. apply Hq. Qed.

#[global] Instance prio_proper : Proper (pool_eq ==> (=) ==> (=)) prio.
Proof. intros A A' [Hc _] p ? <-. unfold prio. by rewrite Hc. Qed.

#[global] Instance locks_proper : Proper (pool_eq ==> (=) ==> (=)) locks.
Proof. intros A A' [Hc _] p ? <-. unfold locks. by rewrite Hc. Qed.

#[global] Instance qset_proper : Proper ((=) ==> (=) ==> pool_eq ==> pool_eq) qset.
Proof.
  intros k ? <- l ? <- A A' [Hc Hq]. split; [done|]. intros k'. simpl. by rewrite Hq.
Qed.

#[global] Instance view_proper : Proper ((=) ==> pool_eq ==> iff) view.
Proof.
  enough (H : ∀ st A A', pool_eq A A' → view st A → view st A').
  { intros st ? <- A A' HA. split; apply H; [done|by symmetry]. }
  intros st A A' [Hc Hq] [H1 H2 H3]. constructor; [by rewrite H1|intros s; by rewrite H2|].
  intros p t Hp. destruct (H3 p t Hp) as [(k & Hk & ->)|[Hl ->]].
  - left. exists k. rewrite <- Hq. split; [done|]. unfold state_in. by rewrite Hq.
  - right. split; [|done]. intros k. rewrite <- Hq. apply Hl.
Qed.

#[global] Instance pool_ok_proper : Proper (pool_eq ==> iff) pool_ok.
Proof.
  enough (H : ∀ A A', pool_eq A A' → pool_ok A → pool_ok A').
  { intros A A' HA. split; apply H; [done|by symmetry]. }
  intros A A' HE HA. assert (Hp : ∀ x, prio A' x = prio A x) by (intros x; by rewrite HE).
  destruct HE as [Hc Hq], HA as [H1 H2 H3 H4 H5 H6 H7 H8]. constructor.
  - intros k p. rewrite <- Hq. apply H1.
  - intros k p. rewrite <- Hq, <- Hc. apply H2.
  - intros k k' p. rewrite <- !Hq. apply H3.
  - intros k. rewrite <- Hq. apply H4.
  - intros k Hk. rewrite <- Hq. eapply sorted_impl; [|by apply H5]. intros x y _ _. unfold descending. by rewrite !Hp.
  - rewrite <- Hq, Hp. done.
  - rewrite <- Hc. apply H7.
  - rewrite <- Hc. apply H8.
Qed.

Lemma release_nil A : queue A pnd = [] → pool_eq (release A) A.
Proof. intros H. split; [done|]. intros k. simpl. rewrite H. simpl. repeat case_decide; by subst. Qed.

(** ** Switches *)

Definition runs st : Prop := this_task st = Some (current st).

Lemma view_timeslice st A p t n :
  view st A → tcbs st !! p = Some t →
  ∃ st', upd (set_timeslice n) p st = Some st' ∧ view st' A ∧ current st' = current st.
Proof.
  intros HV Ht. destruct (upd_Some (set_timeslice n) p st t Ht) as (st' & E & Htcb & Hcur & Hl). exists st'.
  split; [done|]. split; [|done]. constructor.
  - rewrite Htcb, (clear_insert _ _ t) by done. apply HV.
  - intros s. rewrite Hl. apply HV.
  - intros q t'. rewrite Htcb. destruct (decide (q = p)) as [->|].
    + rewrite lookup_insert_eq. intros [= <-]. exact (v_state _ _ HV p t Ht).
    + rewrite lookup_insert_ne by done. apply HV.
Qed.

Lemma switch_ok st A b :
  view st A → pool_ok A → (b = false → head (queue A rdy) = Some (current st)) →
  ∃ st', switch_context b st = Some st' ∧ view st' A ∧ runs st'.
Proof.
  intros HV HA Hb. unfold switch_context, runs. destruct b.
  - destruct (v_head st A HV HA) as (r & l & t & E & Hr & Ht). rewrite Hr. cbn [mbind option_bind].
    unfold nxsched_resume_scheduler.
    destruct (view_timeslice st A r t (MSEC2TICK CONFIG_RR_INTERVAL) HV Ht) as (st' & -> & HV' & _).
    cbn [mbind option_bind]. eexists. split; [done|].
    assert (HV'' : view (set_current r st') A).
    { destruct HV' as [H1 H2 H3]. constructor; [done| |done]. intros s. rewrite <- H2. by destruct s. }
    split; [done|]. unfold this_task. rewrite (v_ready _ A HV''), E. done.
  - exists st. split; [done|]. split; [done|]. unfold this_task. rewrite (v_ready st A HV). by apply Hb.
Qed.

Lemma merge_if st A :
  view st A → pool_ok A →
  ∃ b st', merge_if_pending st = Some (b, st') ∧ view st' (release A) ∧ current st' = current st ∧
    (b = false → head (queue (release A) rdy) = head (queue A rdy)).
Proof.
  intros HV HA. unfold merge_if_pending. rewrite (v_pending st A HV). destruct (queue A pnd) eqn:E.
  - exists false, st. by rewrite (release_nil A E).
  - by apply merge_pending.
Qed.

(** ** What the operations keep *)

Record sched_ok st A : Prop := {
  ok_view : view st A;
  ok_pool : pool_ok A;
  ok_runs : runs st;
  ok_pending : no_stale_pending A
}.

Lemma head_current st A : view st A → runs st → head (queue A rdy) = Some (current st).
Proof. intros HV HR. rewrite <- (v_ready st A HV). apply HR. Qed.

Lemma take_head k p A :
  (k = rdy → head (queue A rdy) ≠ Some p) → head (queue (take k p A) rdy) = head (queue A rdy).
Proof.
  intros H. simpl. case_decide as Hk; [|done]. subst. specialize (H eq_refl).
  destruct (queue A rdy) as [|r l]; [done|]. unfold dq_rem. rewrite filter_cons_True; [done|]. intros ->. done.
Qed.

Lemma release_pending A : no_stale_pending (release A).
Proof. intros r _. by left. Qed.

(** A task that joins the ready tasks. *)

Lemma make_ready_pending p A0 :
  pool_ok A0 → no_stale_pending A0 → no_stale_pending (make_ready p A0).
Proof.
  intros HA HN. destruct (queue A0 rdy) as [|x l] eqn:E.
  { pose proof (proj1 (w_idle _ HA)) as Hi. rewrite E in Hi. set_solver. }
  specialize (HN x). rewrite E in HN. specialize (HN eq_refl). intros r. unfold make_ready, held_back. rewrite E. cbn [head].
  destruct ((0 <? locks A0 x) && (prio A0 x <? prio A0 p)) eqn:Hb; bool_to_prop; cbn [put qset queue TLIST_ISPRIORITIZED].
  - simpl. rewrite E. intros [= <-]. right. unfold locks in *. simpl. lia.
  - simpl. rewrite E. destruct HN as [HN|HN]; [by left|]. rewrite enqueue_front by lia. intros [= <-]. by right.
Qed.

Lemma make_ready_head p A0 :
  head (queue (make_ready p A0) rdy) = Some p ∨
  head (queue (make_ready p A0) rdy) = head (queue A0 rdy).
Proof.
  unfold make_ready. case_if; simpl; [by right|]. rewrite enqueue_head. case_if; [by left|by right].
Qed.

(** A new lock count of the running task. *)

Lemma locks_cupd n p A0 : is_Some (core A0 !! p) → locks (cupd (set_lockcount n) p A0) p = n.
Proof. intros [t Ht]. unfold locks. simpl. by rewrite lookup_alter_eq, Ht. Qed.

Lemma set_lock st0 A0 n :
  view st0 A0 → pool_ok A0 → runs st0 → 0 ≤ n ≤ MAX_LOCK_COUNT →
  ∃ st', upd (set_lockcount n) (current st0) st0 = Some st' ∧
    view st' (cupd (set_lockcount n) (current st0) A0) ∧ pool_ok (cupd (set_lockcount n) (current st0) A0) ∧
    runs st' ∧ current st' = current st0 ∧ locks (cupd (set_lockcount n) (current st0) A0) (current st0) = n.
Proof.
  intros HV HA HR Hn. destruct (v_head st0 A0 HV HA) as (r & l & t & E & Hr & Ht).
  unfold runs in HR. rewrite Hr in HR. simplify_eq.
  destruct (view_upd st0 A0 (current st0) t (set_lockcount n) HV Ht) as (st' & -> & HV' & Hc); [done..|].
  exists st'. split; [done|]. split; [done|]. split.
  { apply pool_cupd; [done|by right|]. intros t' Ht'. split; [|done]. intros Hp. by apply (w_prio _ HA _ _ Hp Ht'). }
  split; [|split; [done|]].
  - unfold runs, this_task. rewrite (v_ready st' _ HV'). simpl. by rewrite E, Hc.
  - apply locks_cupd. rewrite (v_lookup st0 A0 HV _ t Ht). by eexists.
Qed.

Lemma release_ok A0 st0 :
  view st0 A0 → pool_ok A0 → runs st0 → ∃ st', up_release_pending st0 = Some st' ∧ sched_ok st' (release A0).
Proof.
  intros HV HA HR. unfold up_release_pending.
  destruct (merge_pending st0 A0 HV HA) as (b & st1 & -> & HV1 & Hc & Hb). cbn [mbind option_bind].
  pose proof (pool_release _ HA) as HA1. destruct (switch_ok st1 _ b HV1 HA1) as (st' & -> & HV' & HR').
  - intros ->. rewrite Hb, Hc by done. by apply head_current.
  - exists st'. split; [done|]. constructor; [done..|apply release_pending].
Qed.

Section Ops.

Context (st : sched_s) (A : pool) (Hok : sched_ok st A).

Lemma block_ok p s :
  p ∈ queue A rdy → p ≠ 0 → blocked s = true →
  ∃ st', up_block_task p s st = Some st' ∧ sched_ok st' (release (put s p (take rdy p A))).
Proof.
  intros Hp Hp0 Hs. destruct Hok as [HV HA HR HN]. destruct (blocked_proper s Hs) as (Hsp & Hsr & _).
  destruct (v_tcb st A HV p) as (t & Ht & _); [by eapply w_known|].
  unfold up_block_task. rewrite Ht. cbn [mbind option_bind].
  assert (Hr : ready_to_run (task_state t) = true).
  { rewrite (v_in st A HV HA rdy p t) by done. unfold state_in. simpl. by case_decide. }
  rewrite Hr. cbn [DEBUGASSERT mbind option_bind].
  destruct (remove_ready st A HV HA p Hp Hp0) as (st1 & -> & HV1 & Hc1). cbn [mbind option_bind].
  destruct (pool_take A rdy p HA Hp Hp0) as [HA1 Hl1].
  destruct (v_tcb st1 _ HV1 p) as (t1 & Ht1 & _); [by eapply (w_known A HA)|].
  destruct (add_blocked st1 _ HV1 HA1 p Hl1 t1 Ht1 s Hs) as (st2 & -> & HV2 & Hc2). cbn [mbind option_bind].
  assert (HA2 : pool_ok (put s p (take rdy p A))) by (apply pool_put; [done..|by eapply (w_known A HA)]).
  destruct (merge_if st2 _ HV2 HA2) as (b & st3 & -> & HV3 & Hc3 & Hb). cbn [mbind option_bind].
  pose proof (pool_release _ HA2) as HA3.
  destruct (switch_ok st3 _ (bool_decide (head (queue A rdy) = Some p) || b) HV3 HA3) as (st' & -> & HV' & HR').
  - intros [Hb1 Hb2]%orb_false_iff. apply bool_decide_eq_false in Hb1. rewrite Hb by done.
    rewrite Hc3, Hc2, Hc1. rewrite <- (head_current st A HV HR). rewrite <- (take_head rdy p A) by done.
    simpl. by rewrite decide_False.
  - exists st'. split; [done|]. constructor; [done..|apply release_pending].
Qed.

Lemma unblock_ok p k :
  p ∈ queue A k → blocked k = true →
  ∃ st', up_unblock_task p st = Some st' ∧ sched_ok st' (make_ready p (take k p A)).
Proof.
  intros Hp Hb. destruct Hok as [HV HA HR HN]. destruct (blocked_proper k Hb) as (Hk & Hkr & Hkp & Hn).
  assert (Hp0 : p ≠ 0) by (intros ->; apply Hkr; eapply (w_disj _ HA); [exact Hp|apply HA]).
  destruct (v_tcb st A HV p) as (t & Ht & _); [by eapply w_known|].
  unfold up_unblock_task. rewrite Ht. cbn [mbind option_bind].
  assert (Hs : task_state t = k) by (rewrite (v_in st A HV HA k p t) by done; unfold state_in; by rewrite decide_False).
  rewrite Hs, Hb. cbn [DEBUGASSERT mbind option_bind].
  destruct (remove_blocked st A p k HV HA Hp Hb) as (st1 & -> & HV1 & Hc1). cbn [mbind option_bind].
  destruct (pool_take A k p HA Hp Hp0) as [HA1 Hl1].
  destruct (v_tcb st1 _ HV1 p) as (t1 & Ht1 & Hc); [by eapply (w_known A HA)|].
  destruct (add_ready st1 _ HV1 HA1 p Hl1 t1 Ht1) as (st2 & -> & HV2 & Hc2). cbn [mbind option_bind].
  assert (HA2 : pool_ok (make_ready p (take k p A))) by (apply pool_make_ready; [done|done|by eexists]).
  destruct (switch_ok st2 _ (bool_decide (head (queue (make_ready p (take k p A)) rdy) = Some p)) HV2 HA2)
    as (st' & -> & HV' & HR').
  - intros Hh. apply bool_decide_eq_false in Hh. rewrite Hc2, Hc1, <- (head_current st A HV HR).
    destruct (make_ready_head p (take k p A)) as [?| ->]; [done|]. by apply take_head.
  - exists st'. split; [done|]. constructor; [done..|]. apply make_ready_pending; [done|].
    intros r. rewrite take_head by done. intros Hr. simpl. rewrite decide_False by done. by apply HN.
Qed.

(** ** The preemption lock *)

Lemma head_tcb : ∃ t, this_task st = Some (current st) ∧ tcbs st !! current st = Some t ∧
  head (queue A rdy) = Some (current st) ∧ lockcount t = locks A (current st).
Proof.
  destruct Hok as [HV HA HR HN]. destruct (v_head st A HV HA) as (r & l & t & E & Hr & Ht).
  unfold runs in HR. rewrite Hr in HR. simplify_eq. exists t. rewrite E, Hr. split_and!; [done..|].
  by apply (v_locks st A).
Qed.

Lemma lock_ok :
  locks A (current st) < MAX_LOCK_COUNT →
  ∃ st', sched_lock false st = Some st' ∧ current st' = current st ∧
    sched_ok st' (cupd (set_lockcount (locks A (current st) + 1)) (current st) A).
Proof.
  intros Hlt. destruct head_tcb as (t & Hr & Ht & Hh & Hl). destruct Hok as [HV HA HR HN].
  unfold sched_lock. rewrite Hr. cbn [negb]. rewrite Ht. cbn [mbind option_bind]. rewrite Hl.
  rewrite (proj2 (Z.ltb_lt _ _)) by done. cbn [DEBUGASSERT mbind option_bind].
  assert (H0 : 0 ≤ locks A (current st)).
  { rewrite <- Hl. by apply (w_lock _ HA (current st) (clear t)), (v_lookup st). }
  destruct (set_lock st A (locks A (current st) + 1) HV HA HR) as (st' & -> & HV' & HA' & HR' & Hc & Hl'); [lia|].
  exists st'. split; [done|]. split; [done|]. constructor; [done..|].
  intros r Hr'. simpl in Hr'. rewrite Hh in Hr'. simplify_eq. right. lia.
Qed.

Lemma lock_irq : sched_lock true st = Some st.
Proof. unfold sched_lock. by destruct (this_task st). Qed.

End Ops.

#[global] Instance sched_ok_proper : Proper ((=) ==> pool_eq ==> iff) sched_ok.
Proof.
  enough (H : ∀ st A A', pool_eq A A' → sched_ok st A → sched_ok st A').
  { intros st ? <- A A' HA. split; apply H; [done|by symmetry]. }
  intros st A A' HE [H1 H2 H3 H4]. constructor; [by rewrite <- HE..| |]; [done|].
  intros r. rewrite <- HE. apply H4.
Qed.

Lemma cupd_twice n m p A : pool_eq (cupd (set_lockcount n) p (cupd (set_lockcount m) p A)) (cupd (set_lockcount n) p A).
Proof.
  split; [|done]. simpl. apply map_eq. intros q. destruct (decide (q = p)) as [->|].
  - rewrite !lookup_alter_eq. by destruct (core A !! p).
  - by rewrite !lookup_alter_ne.
Qed.

Definition unlock r A : pool :=
  if 1 <? locks A r then cupd (set_lockcount (locks A r - 1)) r A else release (cupd (set_lockcount 0) r A).

#[global] Instance release_proper : Proper (pool_eq ==> pool_eq) release.
Proof.
  intros A A' HE. split; [apply HE|]. intros k. simpl. rewrite !(proj2 HE). case_decide; [|done].
  apply enqueue_all_ext. intros x. by rewrite HE.
Qed.

Section Unlock.

Context (st : sched_s) (A : pool) (Hok : sched_ok st A).

Lemma unlock_ok : ∃ st', sched_unlock false st = Some st' ∧ sched_ok st' (unlock (current st) A).
Proof.
  destruct (head_tcb st A Hok) as (t & Hr & Ht & Hh & Hl). destruct Hok as [HV HA HR HN].
  destruct (w_lock _ HA (current st) (clear t)) as [H0 H1]; [by apply (v_lookup st)|]. simpl in H0, H1. rewrite Hl in H0, H1.
  unfold sched_unlock. rewrite Hr. cbn [negb]. rewrite Ht. cbn [mbind option_bind]. rewrite Hl.
  set (n := if 0 <? locks A (current st) then _ else _).
  assert (Hn : n = Z.max 0 (locks A (current st) - 1)) by (unfold n; case_if; lia).
  destruct (set_lock st A n HV HA HR) as (st1 & -> & HV1 & HA1 & HR1 & Hc1 & Hl1); [lia|]. cbn [mbind option_bind].
  unfold unlock. destruct (Z.leb_spec n 0).
  - destruct (set_lock st1 _ 0 HV1 HA1 HR1) as (st2 & E2 & HV2 & HA2 & HR2 & Hc2 & Hl2); [unfold MAX_LOCK_COUNT; lia|].
    rewrite Hc1 in *. rewrite E2. cbn [mbind option_bind]. rewrite cupd_twice in HV2, HA2.
    rewrite (proj2 (Z.ltb_ge _ _)) by lia. rewrite (v_pending st2 _ HV2). cbn [cupd queue].
    destruct (queue A pnd) eqn:E; [|by apply release_ok]. exists st2. split; [done|].
    rewrite release_nil by done. constructor; [done..|]. intros r _. by left.
  - rewrite (proj2 (Z.ltb_lt _ _)) by lia. exists st1. replace (locks A (current st) - 1) with n by lia.
    split; [done|]. constructor; [done..|]. intros r Hr'. simpl in Hr'. rewrite Hh in Hr'. simplify_eq. right. lia.
Qed.

Lemma unlock_irq : sched_unlock true st = Some st.
Proof. unfold sched_unlock. by destruct (this_task st). Qed.

End Unlock.

(** ** A new priority of a ready task *)

Definition again p n A : pool := make_ready p (cupd (set_priority n) p (take rdy p A)).

Definition reprioritize p n A : pool :=
  let A1 := again p n A in
  if xorb (bool_decide (head (queue A rdy) = Some p)) (bool_decide (head (queue A1 rdy) = Some p)) then release A1
  else A1.

Section Reprioritize.

Context (st : sched_s) (A : pool) (Hok : sched_ok st A) (p : Z) (Hp : p ∈ queue A rdy) (Hp0 : p ≠ 0).
Context (n : Z) (Hn : SCHED_PRIORITY_MIN ≤ n ≤ SCHED_PRIORITY_MAX).

Lemma loose_again :
  pool_ok (cupd (set_priority n) p (take rdy p A)) ∧ loose (cupd (set_priority n) p (take rdy p A)) p.
Proof.
  destruct Hok as [HV HA HR HN]. destruct (pool_take A rdy p HA Hp Hp0) as [HA1 Hl1]. split; [|apply Hl1].
  apply pool_cupd; [done|by left|]. intros t Ht. split; [done|]. by apply (w_lock _ HA p t).
Qed.

(** The task leaves the list and comes back with the new priority. *)

Lemma again_ok :
  ∃ st1 st2 st3, nxsched_remove_readytorun p st = Some (bool_decide (head (queue A rdy) = Some p), st1) ∧
    upd (set_priority n) p st1 = Some st2 ∧
    nxsched_add_readytorun p st2 = Some (bool_decide (head (queue (again p n A) rdy) = Some p), st3) ∧
    view st3 (again p n A) ∧ pool_ok (again p n A) ∧ current st3 = current st.
Proof.
  destruct loose_again as [HA2 Hl1]. destruct Hok as [HV HA HR HN].
  destruct (remove_ready st A HV HA p Hp Hp0) as (st1 & E1 & HV1 & Hc1).
  destruct (v_tcb st1 _ HV1 p) as (t1 & Ht1 & Hc); [by eapply (w_known A HA)|].
  destruct (view_upd st1 _ p t1 (set_priority n) HV1 Ht1) as (st2 & E2 & HV2 & Hc2); [done..|].
  destruct (v_tcb st2 _ HV2 p) as (t2 & Ht2 & Hc'); [simpl; rewrite lookup_alter_eq, fmap_is_Some; by eapply (w_known A HA)|].
  destruct (add_ready st2 _ HV2 HA2 p) with (t := t2) as (st3 & E3 & HV3 & Hc3); [apply Hl1|done|].
  exists st1, st2, st3. split; [done|]. split; [done|]. split; [done|]. split; [done|]. split; [|congruence].
  apply pool_make_ready; [done|apply Hl1|by eexists].
Qed.

Lemma again_head : head (queue (again p n A) rdy) ≠ Some p → head (queue A rdy) ≠ Some p →
  head (queue (again p n A) rdy) = head (queue A rdy).
Proof.
  intros H1 H2. destruct (make_ready_head p (cupd (set_priority n) p (take rdy p A))) as [?|H]; [done|].
  unfold again. rewrite H. by apply take_head.
Qed.

Lemma again_pending :
  bool_decide (head (queue A rdy) = Some p) = bool_decide (head (queue (again p n A) rdy) = Some p) →
  no_stale_pending (again p n A).
Proof.
  destruct loose_again as [HA2 Hl2]. destruct Hok as [HV HA HR HN].
  intros Hx. destruct (bool_decide_reflect (head (queue A rdy) = Some p)) as [Hd|Hd]; symmetry in Hx.
  - apply bool_decide_eq_true in Hx. intros r Hr. rewrite Hx in Hr. simplify_eq.
    assert (Hlk : ∀ A', core A' = core (cupd (set_priority n) r (take rdy r A)) → locks A' r = locks A r).
    { intros A' Hc. unfold locks. rewrite Hc. simpl. rewrite lookup_alter_eq. by destruct (core A !! r). }
    revert Hx. unfold again, make_ready. case_if; intros Hx.
    + apply head_Some_elem_of in Hx. by destruct (Hl2 rdy).
    + rewrite Hlk by done. by apply HN.
  - apply make_ready_pending; [done|]. intros r. change (queue (cupd ?f ?x ?B)) with (queue B).
    rewrite take_head by done. intros Hr. assert (r ≠ p) by congruence.
    destruct (HN r Hr) as [H0|H0]; [by left|right]. unfold locks. simpl. by rewrite lookup_alter_ne.
Qed.

Lemma reprioritize_ok : ∃ st', up_reprioritize_rtr p n st = Some st' ∧ sched_ok st' (reprioritize p n A).
Proof.
  destruct again_ok as (st1 & st2 & st3 & E1 & E2 & E3 & HV3 & HA3 & Hc3). pose proof again_pending as HN3.
  pose proof again_head as Hh3. destruct Hok as [HV HA HR HN].
  destruct (v_tcb st A HV p) as (t & Ht & _); [by eapply w_known|].
  unfold up_reprioritize_rtr. rewrite Ht. cbn [mbind option_bind].
  assert (Hr : ready_to_run (task_state t) = true).
  { rewrite (v_in st A HV HA rdy p t) by done. unfold state_in. simpl. by case_decide. }
  rewrite Hr, (proj2 (Z.leb_le _ _)) by lia. cbn [andb DEBUGASSERT mbind option_bind].
  rewrite E1. cbn [mbind option_bind]. rewrite E2. cbn [mbind option_bind]. rewrite E3. cbn [mbind option_bind].
  unfold reprioritize. destruct (xorb _ _) eqn:Hx.
  - destruct (merge_if st3 _ HV3 HA3) as (b & st4 & -> & HV4 & Hc4 & _). cbn [mbind option_bind].
    destruct (switch_ok st4 _ true HV4 (pool_release _ HA3)) as (st' & -> & HV' & HR'); [done|].
    exists st'. split; [done|]. constructor; [done|by apply pool_release|done|apply release_pending].
  - exists st3. split; [done|]. apply xorb_eq in Hx. constructor; [done|done| |by apply HN3].
    unfold runs, this_task. rewrite (v_ready st3 _ HV3), Hc3, <- (head_current st A HV HR).
    destruct (bool_decide_reflect (head (queue A rdy) = Some p)) as [Hd|Hd]; symmetry in Hx.
    + apply bool_decide_eq_true in Hx. congruence.
    + apply bool_decide_eq_false in Hx. by apply Hh3.
Qed.

End Reprioritize.

(** ** [nxsched_set_priority] *)

Inductive reprio A p n : pool → Prop :=
  | rp_drop r l : queue A rdy = p :: r :: l → n ≤ prio A r →
      reprio A p n (release (put rdy p (cupd (set_priority n) p (take rdy p A))))
  | rp_raise r l : queue A rdy = p :: r :: l → prio A r < n → reprio A p n (cupd (set_priority n) p A)
  | rp_ready : p ∈ queue A rdy → head (queue A rdy) ≠ Some p → reprio A p n (again p n A)
  | rp_queued k : p ∈ queue A k → k ≠ rdy → TLIST_ISPRIORITIZED k = true →
      reprio A p n (put k p (cupd (set_priority n) p (take k p A)))
  | rp_unsorted k : p ∈ queue A k → TLIST_ISPRIORITIZED k = false → reprio A p n (cupd (set_priority n) p A).

Lemma u8_small n : 0 ≤ n ≤ 255 → u8 n = n.
Proof. intros Hn. unfold u8. apply Z.mod_small. lia. Qed.

Lemma prio_again A p q n : is_Some (core A !! p) →
  prio (cupd (set_priority n) p (take rdy p A)) q = if decide (q = p) then n else prio A q.
Proof.
  intros [t Ht]. unfold prio. simpl. case_decide; subst; [by rewrite lookup_alter_eq, Ht|by rewrite lookup_alter_ne].
Qed.

Lemma locks_reprio A p q n A' : core A' = alter (set_priority n) p (core A) → locks A' q = locks A q.
Proof.
  intros Hc. unfold locks. rewrite Hc. destruct (decide (q = p)) as [->|]; [|by rewrite lookup_alter_ne].
  rewrite lookup_alter_eq. by destruct (core A !! p).
Qed.

(** The running task falls behind the next. *)

Lemma reprioritize_drop A (HA : pool_ok A) p r l n :
  queue A rdy = p :: r :: l → n ≤ prio A r →
  reprioritize p n A = release (put rdy p (cupd (set_priority n) p (take rdy p A))).
Proof.
  intros E Hle. pose proof (w_nodup _ HA rdy) as Hnd. rewrite E in Hnd. apply NoDup_cons in Hnd as [Hpl _].
  assert (Hk : is_Some (core A !! p)) by (eapply (w_known _ HA rdy); rewrite E; set_solver).
  assert (Hq : queue (cupd (set_priority n) p (take rdy p A)) rdy = r :: l) by (simpl; rewrite E; by apply dq_rem_head).
  assert (Hrp : r ≠ p) by set_solver.
  pose proof (prio_again A p p n Hk) as Hn. pose proof (prio_again A p r n Hk) as Hr.
  rewrite decide_True in Hn by done. rewrite decide_False in Hr by done.
  assert (Ha : again p n A = put rdy p (cupd (set_priority n) p (take rdy p A))).
  { unfold again, make_ready, held_back. rewrite Hq. cbn [head].
    rewrite (proj2 (Z.ltb_ge (prio _ r) _)) by lia. by rewrite andb_false_r. }
  unfold reprioritize. rewrite Ha, E, bool_decide_true by done. rewrite bool_decide_false; [done|].
  unfold put. cbn [TLIST_ISPRIORITIZED qset queue]. rewrite decide_True, Hq, enqueue_front by (done || lia).
  simpl. naive_solver.
Qed.

Section SetPriority.

Context (st : sched_s) (A : pool) (Hok : sched_ok st A) (p : Z) (Hp0 : p ≠ 0).
Context (n : Z) (Hn : SCHED_PRIORITY_MIN ≤ n ≤ SCHED_PRIORITY_MAX).

Lemma setprio_u8 : u8 n = n.
Proof. apply u8_small. unfold SCHED_PRIORITY_MIN, SCHED_PRIORITY_MAX in Hn. lia. Qed.

Lemma running_setpriority :
  head (queue A rdy) = Some p →
  ∃ st' A', nxsched_running_setpriority p n st = Some st' ∧ reprio A p n A' ∧ sched_ok st' A'.
Proof.
  intros Hh. pose proof (ok_view _ _ Hok) as HV. pose proof (ok_pool _ _ Hok) as HA.
  assert (Hp : p ∈ queue A rdy) by by apply head_Some_elem_of.
  destruct (head_next A p HA Hp0 Hh) as (r & l & E & Hpl).
  unfold nxsched_running_setpriority. rewrite (v_ready st A HV), E, flink_head. cbn [head mbind option_bind].
  destruct (v_tcb st A HV r) as (tr & Htr & _); [eapply (w_known _ HA rdy); rewrite E; set_solver|]. rewrite Htr.
  cbn [mbind option_bind]. rewrite (v_priority st A HV r tr Htr), setprio_u8. destruct (Z.leb_spec n (prio A r)) as [Hle|Hgt].
  - destruct (reprioritize_ok st A Hok p Hp Hp0 n Hn) as (st' & -> & Hok'). eexists _, _. split; [done|].
    split; [by eapply rp_drop|]. by rewrite <- (reprioritize_drop A HA p r l n).
  - destruct (v_tcb st A HV p) as (t & Ht & _); [by eapply w_known|].
    destruct (view_upd st A p t (set_priority n) HV Ht) as (st' & -> & HV' & Hc); [done..|].
    eexists _, _. split; [done|]. split; [by eapply rp_raise|]. constructor.
    + done.
    + by eapply pool_raise.
    + unfold runs, this_task. rewrite (v_ready st' _ HV'), Hc. simpl. apply head_current; [done|apply Hok].
    + intros x Hx. simpl in Hx. destruct (ok_pending _ _ Hok x Hx) as [H|H]; [by left|right].
      unfold locks in *. simpl. rewrite Hh in Hx. simplify_eq. rewrite lookup_alter_eq. by destruct (core A !! x).
Qed.

(** A ready task that would preempt the running one does so only if nothing is pending. *)

Lemma reprioritize_ready :
  p ∈ queue A rdy → head (queue A rdy) ≠ Some p → pool_eq (reprioritize p n A) (again p n A).
Proof.
  intros Hp Hh. unfold reprioritize. rewrite (bool_decide_false (head (queue A rdy) = Some p)) by done. cbn [xorb].
  case_bool_decide as Ha; [|done]. apply release_nil. revert Ha. unfold again, make_ready.
  set (A1 := cupd (set_priority n) p (take rdy p A)).
  destruct (head (queue A rdy)) as [r|] eqn:E.
  2:{ destruct (queue A rdy); set_solver. }
  assert (E1 : head (queue A1 rdy) = Some r) by (unfold A1; change (queue (cupd ?f ?x ?B)) with (queue B); rewrite take_head; congruence).
  unfold held_back. rewrite E1. assert (Hne : r ≠ p) by congruence. destruct (ok_pending _ _ Hok r E) as [H0|H0].
  - case_if; [|done]. simpl. intros Hx%head_Some_elem_of%elem_dq_rem. naive_solver.
  - assert (Hl : locks A1 r = locks A r) by (unfold locks, A1; simpl; by rewrite lookup_alter_ne).
    rewrite Hl, (proj2 (Z.ltb_lt 0 _)) by done. cbn [andb]. destruct (Z.ltb_spec (prio A1 r) (prio A1 p)).
    + simpl. intros Hx%head_Some_elem_of%elem_dq_rem. naive_solver.
    + unfold put. cbn [TLIST_ISPRIORITIZED qset queue]. rewrite decide_True by done.
      destruct (queue A1 rdy) as [|x l]; [done|]. simplify_eq/=. rewrite enqueue_front by done. simpl. congruence.
Qed.

Lemma again_not_head r :
  p ∈ queue A rdy → head (queue A rdy) = Some r → r ≠ p → n ≤ prio A r → head (queue (again p n A) rdy) ≠ Some p.
Proof.
  intros Hp Hr Hne Hle. pose proof (w_known _ (ok_pool _ _ Hok) rdy p Hp) as Hk.
  pose proof (prio_again A p p n Hk) as H1. pose proof (prio_again A p r n Hk) as H2.
  rewrite decide_True in H1 by done. rewrite decide_False in H2 by done. unfold again, make_ready.
  case_if.
  - simpl. intros Hx%head_Some_elem_of%elem_dq_rem. naive_solver.
  - assert (E1 : head (queue (take rdy p A) rdy) = Some r) by (rewrite take_head; congruence).
    unfold put. cbn [TLIST_ISPRIORITIZED qset queue]. rewrite decide_True by done. cbn [cupd queue].
    destruct (queue (take rdy p A) rdy) as [|x l]; [done|]. simplify_eq/=. rewrite enqueue_front by lia. simpl. congruence.
Qed.

Lemma readytorun_setpriority :
  p ∈ queue A rdy → head (queue A rdy) ≠ Some p →
  ∃ st', nxsched_readytorun_setpriority p n st = Some st' ∧ sched_ok st' (again p n A).
Proof.
  intros Hp Hh. pose proof (reprioritize_ready Hp Hh) as Heq.
  destruct (head_tcb st A Hok) as (t & Hr & Ht & Hhd & _).
  unfold nxsched_readytorun_setpriority. rewrite Hr. cbn [mbind option_bind]. rewrite Ht. cbn [mbind option_bind].
  rewrite setprio_u8. case_if.
  - destruct (reprioritize_ok st A Hok p Hp Hp0 n Hn) as (st' & -> & Hok'). exists st'. by rewrite <- Heq.
  - destruct (again_ok st A Hok p Hp Hp0 n Hn) as (st1 & st2 & st3 & -> & E2 & E3 & HV3 & HA3 & Hc3).
    pose proof (again_pending st A Hok p Hp Hp0 n Hn) as HN. pose proof (again_head A p n) as Hah.
    rewrite bool_decide_false in HN |- * by done. cbn [mbind option_bind negb DEBUGASSERT]. rewrite E2. cbn [mbind option_bind].
    rewrite E3. cbn [mbind option_bind].
    assert (Ha : head (queue (again p n A) rdy) ≠ Some p).
    { apply (again_not_head (current st)); [done|done|congruence|]. rewrite <- (v_priority st A (ok_view _ _ Hok) _ t Ht).
      lia. }
    rewrite bool_decide_false in HN |- * by done. cbn [negb DEBUGASSERT mbind option_bind]. exists st3. split; [done|].
    constructor; [done|done| |by apply HN]. unfold runs, this_task. rewrite (v_ready st3 _ HV3), Hc3, Hah by done. done.
Qed.

(** The task waits in some other list. *)

Lemma requeue_ok k :
  p ∈ queue A k → k ≠ rdy → TLIST_ISPRIORITIZED k = true →
  pool_ok (put k p (cupd (set_priority n) p (take k p A))) ∧
  no_stale_pending (put k p (cupd (set_priority n) p (take k p A))).
Proof.
  intros Hp Hk Hs. destruct Hok as [HV HA HR HN]. destruct (pool_take A k p HA Hp Hp0) as [HA1 Hl1]. split.
  - apply pool_put; [|by apply (w_proper _ HA k p)|exact Hl1|].
    + apply pool_cupd; [done|by left|]. intros t Ht. split; [done|]. by apply (w_lock _ HA p t).
    + simpl. rewrite lookup_alter_eq, fmap_is_Some. by eapply w_known.
  - intros r. rewrite (locks_reprio A p r n) by done. unfold put. rewrite Hs. simpl.
    rewrite !(decide_False (P := rdy = k)) by done. intros Hr. destruct (HN r Hr) as [H|H]; [left|by right].
    destruct (decide (pnd = k)) as [<-|]; [rewrite H in Hp; set_solver|done].
Qed.

Lemma view_requeue k st1 l b :
  p ∈ queue A k → k ≠ rdy → TLIST_ISPRIORITIZED k = true →
  upd (set_priority n) p (set_tlist k (dq_rem p (TLIST_HEAD k st)) st) = Some st1 →
  insert_prioritized (priority st1) p (TLIST_HEAD k st1) = (l, b) →
  view (set_tlist k l st1) (put k p (cupd (set_priority n) p (take k p A))).
Proof.
  intros Hp Hk Hs E1 Ei. pose proof (ok_view _ _ Hok) as HV. pose proof (ok_pool _ _ Hok) as HA.
  destruct (v_tcb st A HV p) as (t & Ht & Hct); [by eapply w_known|].
  destruct (w_proper _ HA k p Hp) as [Hnk Hk0].
  edestruct (upd_Some (set_priority n) p (set_tlist k (dq_rem p (TLIST_HEAD k st)) st) t)
    as (st1' & E1' & Htcb & Hcur & Hl); [by rewrite tcbs_set|]. rewrite E1' in E1. simplify_eq. rewrite tcbs_set in Htcb.
  assert (HVc : clear <$> tcbs st1 = core (cupd (set_priority n) p A)).
  { simpl. rewrite Htcb, fmap_insert, <- (v_core _ _ HV). rewrite (alter_Some _ _ _ (clear t)); [done|]. by rewrite lookup_fmap, Ht. }
  assert (Hl' : l = enqueue (prio (cupd (set_priority n) p A)) p (dq_rem p (queue A k))).
  { rewrite Hl, tlist_set, decide_True, (v_queue _ _ HV), Hnk in Ei by done.
    rewrite (insert_ext _ (prio (cupd (set_priority n) p A))) in Ei; [unfold enqueue; by rewrite Ei|].
    intros x. unfold priority, prio. rewrite <- HVc, lookup_fmap. by destruct (tcbs st1 !! x). }
  assert (Heq : pool_eq (qset k l (cupd (set_priority n) p A)) (put k p (cupd (set_priority n) p (take k p A)))).
  { split; [done|]. intros k'. unfold put. rewrite Hs. simpl. rewrite (decide_True (P := k = k)) by done.
    by destruct (decide (k' = k)); [rewrite Hl'|]. }
  rewrite <- Heq. constructor.
  - by rewrite tcbs_set.
  - intros s. rewrite tlist_set, Hl, tlist_set, Hnk by done. simpl. case_decide; [done|]. apply HV.
  - intros q t'. rewrite tcbs_set, Htcb. intros Hq. apply has_state_qset; [|done|].
    + simpl. rewrite Hl', elem_enqueue, elem_dq_rem. destruct (decide (q = p)) as [->|]; naive_solver.
    + change (has_state A q (task_state t')). destruct (decide (q = p)) as [->|].
      * rewrite lookup_insert_eq in Hq. simplify_eq. by apply (v_state _ _ HV p t).
      * rewrite lookup_insert_ne in Hq by done. by apply HV.
Qed.

Lemma blocked_setpriority k :
  p ∈ queue A k → k ≠ rdy →
  ∃ st' A', nxsched_blocked_setpriority p n st = Some st' ∧ reprio A p n A' ∧ sched_ok st' A'.
Proof.
  intros Hp Hk. pose proof (ok_view _ _ Hok) as HV. pose proof (ok_pool _ _ Hok) as HA.
  destruct (v_tcb st A HV p) as (t & Ht & Hct); [by eapply w_known|].
  destruct (w_proper _ HA k p Hp) as [Hnk Hk0].
  assert (Hst : task_state t = k) by (rewrite (v_in st A HV HA k p t) by done; unfold state_in; by rewrite decide_False).
  unfold nxsched_blocked_setpriority. rewrite Ht. cbn [mbind option_bind]. rewrite Hst, setprio_u8.
  destruct (TLIST_ISPRIORITIZED k) eqn:Hs.
  - destruct (requeue_ok k Hp Hk Hs) as [HA' HN'].
    edestruct (upd_Some (set_priority n) p (set_tlist k (dq_rem p (TLIST_HEAD k st)) st) t)
      as (st1 & E1 & Htcb & Hcur & Hl); [by rewrite tcbs_set|]. rewrite tcbs_set in Htcb. rewrite current_set in Hcur.
    rewrite E1. cbn [mbind option_bind]. unfold nxsched_add_prioritized. rewrite Htcb, lookup_insert_eq. cbn [mbind option_bind].
    simpl sched_priority. rewrite (proj2 (Z.leb_le _ _)) by lia. cbn [DEBUGASSERT mbind option_bind].
    destruct (insert_prioritized _ _ _) as [l b] eqn:Ei. cbn [fmap option_fmap option_map snd].
    eexists _, _. split; [done|]. split; [by apply (rp_queued A p n k)|].
    assert (HV' : view (set_tlist k l st1) (put k p (cupd (set_priority n) p (take k p A)))).
    { by apply (view_requeue k st1 l b). }
    constructor; [done|done| |done]. unfold runs, this_task. rewrite (v_ready _ _ HV'), current_set, Hcur.
    unfold put. rewrite Hs. simpl. rewrite !decide_False by done. apply head_current; [done|apply Hok].
  - destruct (view_upd st A p t (set_priority n) HV Ht) as (st' & -> & HV' & Hc); [done..|].
    eexists _, _. split; [done|]. split; [by apply (rp_unsorted A p n k)|]. constructor; [done| | |].
    + apply pool_cupd_sorted; [done| | |].
      * intros k' Hk'. apply sorted_cupd; [done|done|]. intros q Hq. apply prio_cupd_ne. intros ->.
        assert (k' = k) by by eapply w_disj. congruence.
      * rewrite prio_cupd_ne by done. apply HA.
      * intros t' Ht'. split; [done|]. by apply (w_lock _ HA p t').
    + unfold runs, this_task. rewrite (v_ready st' _ HV'), Hc. simpl. apply head_current; [done|apply Hok].
    + intros r Hr. rewrite (locks_reprio A p r n) by done. by apply (ok_pending _ _ Hok).
Qed.

Lemma set_priority_ok k :
  p ∈ queue A k →
  ∃ st' A', nxsched_set_priority p n st = Some (OK, st') ∧ reprio A p n A' ∧ sched_ok st' A'.
Proof.
  intros Hk. pose proof (ok_view _ _ Hok) as HV. pose proof (ok_pool _ _ Hok) as HA.
  destruct (v_tcb st A HV p) as (t & Ht & _); [by eapply w_known|].
  pose proof (v_in st A HV HA k p t Hk Ht) as Hst. unfold state_in in Hst.
  unfold nxsched_set_priority. rewrite (proj2 (Z.ltb_ge _ _)), (proj2 (Z.ltb_ge _ _)) by lia. cbn [orb].
  rewrite Ht. cbn [mbind option_bind]. rewrite Hst. destruct (decide (k = rdy)) as [->|Hne].
  - case_decide as Hh.
    + destruct (running_setpriority Hh) as (st' & A' & -> & H1 & H2). by exists st', A'.
    + destruct (readytorun_setpriority Hk Hh) as (st' & -> & H2). exists st', (again p n A). split; [done|]. by split; [apply rp_ready|].
  - destruct (blocked_setpriority k Hk Hne) as (st' & A' & E & H1 & H2). exists st', A'. split; [|done].
    destruct (w_proper _ HA k p Hk) as [Hn1 Hn2]. destruct k; try done; by rewrite E.
Qed.

End SetPriority.

Lemma set_priority_range p n st :
  ¬ SCHED_PRIORITY_MIN ≤ n ≤ SCHED_PRIORITY_MAX → nxsched_set_priority p n st = Some (- EINVAL, st).
Proof.
  intros Hn. unfold nxsched_set_priority. replace (_ || _) with true; [done|]. symmetry.
  rewrite orb_true_iff, !Z.ltb_lt. lia.
Qed.

(** ** Yielding and round robin *)

Definition rotate p A : pool := release (put rdy p (cupd (set_priority (prio A p)) p (take rdy p A))).

Section Rotate.

Context (st : sched_s) (A : pool) (Hok : sched_ok st A).

Lemma yield_ok :
  ∃ st' A', sched_yield st = Some (if decide (current st = 0) then -1 else OK, st') ∧ sched_ok st' A' ∧
    (if decide (current st = 0) then A' = A else reprio A (current st) (prio A (current st)) A').
Proof.
  destruct (head_tcb st A Hok) as (t & Hr & Ht & Hh & Hl). pose proof (ok_pool _ _ Hok) as HA.
  unfold sched_yield. rewrite Hr. cbn [mbind option_bind]. rewrite Ht. cbn [mbind option_bind].
  rewrite (v_priority st A (ok_view _ _ Hok) _ t Ht). case_decide as H0.
  - rewrite set_priority_range.
    + by exists st, A.
    + rewrite H0, (proj2 (w_idle _ HA)). unfold SCHED_PRIORITY_MIN, SCHED_PRIORITY_IDLE. lia.
  - assert (Hin : current st ∈ queue A rdy) by by apply head_Some_elem_of.
    destruct (set_priority_ok st A Hok (current st) H0 (prio A (current st))) with (k := rdy) as (st' & A' & -> & H1 & H2);
      [apply (prio_pos A HA); [done|by eapply w_known]|done|].
    by exists st', A'.
Qed.

Lemma timeslice_ok p t n :
  tcbs st !! p = Some t → ∃ st', upd (set_timeslice n) p st = Some st' ∧ sched_ok st' A ∧ current st' = current st.
Proof.
  intros Ht. destruct (view_timeslice st A p t n (ok_view _ _ Hok) Ht) as (st' & -> & HV & Hc). exists st'.
  split; [done|]. split; [|done]. constructor; [done|apply Hok| |apply Hok].
  unfold runs, this_task. rewrite (v_ready st' A HV), Hc. apply head_current; apply Hok.
Qed.

End Rotate.

(** The slice of the running task ends: it goes behind the tasks of its priority. *)

Lemma slice_end st A p :
  sched_ok st A → current st = p →
  ∃ st' A', (match flink p (g_readytorun st) with
             | Some next =>
                 nt ← tcbs st !! next;
                 if prio A p <=? sched_priority nt then up_reprioritize_rtr p (prio A p) st else Some st
             | None => Some st
             end) = Some st' ∧ sched_ok st' A' ∧
    A' = match queue A rdy with
         | _ :: r :: _ => if prio A p <=? prio A r then rotate p A else A
         | _ => A
         end.
Proof.
  intros Hok <-. destruct (head_tcb st A Hok) as (t & Hr & Ht & Hh & Hl).
  pose proof (ok_pool _ _ Hok) as HA. pose proof (ok_view _ _ Hok) as HV.
  rewrite (v_ready st A HV). destruct (queue A rdy) as [|x [|r l]] eqn:E; simplify_eq/=; rewrite Z.eqb_refl; [by exists st, A|].
  destruct (v_tcb st A HV r) as (tr & Htr & _); [eapply (w_known _ HA rdy); rewrite E; set_solver|].
  rewrite Htr. cbn [head mbind option_bind]. rewrite (v_priority st A HV r tr Htr).
  destruct (Z.leb_spec (prio A (current st)) (prio A r)) as [Hle|]; [|by exists st, A].
  assert (Hin : current st ∈ queue A rdy) by (rewrite E; set_solver).
  assert (Hp0 : current st ≠ 0).
  { intros H0. pose proof (w_nodup _ HA rdy) as Hnd. rewrite E, H0 in *. apply NoDup_cons in Hnd as [Hnd _].
    assert (Hs := w_sorted _ HA rdy eq_refl). rewrite E in Hs. apply StronglySorted_inv in Hs as [_ Hs].
    assert (Hr0 : prio A r ≤ prio A 0) by (eapply Forall_forall in Hs; [exact Hs|set_solver]).
    rewrite (proj2 (w_idle _ HA)) in Hr0. unfold SCHED_PRIORITY_IDLE in Hr0.
    pose proof (prio_pos A HA r) as Hpos. unfold SCHED_PRIORITY_MIN in Hpos.
    assert (1 ≤ prio A r); [|lia]. apply Hpos; [set_solver|]. eapply (w_known _ HA rdy). rewrite E. set_solver. }
  destruct (reprioritize_ok st A Hok (current st) Hin Hp0 (prio A (current st))) as (st' & -> & Hok');
    [apply (prio_pos A HA); [done|by eapply w_known]|].
  exists st', (rotate (current st) A). split; [done|]. split; [|done]. unfold rotate.
  by rewrite <- (reprioritize_drop A HA (current st) r l).
Qed.

(** What a timer tick does when the slice of the running task is over. *)

Definition slice_left t : Z := timeslice t - (if u32 (timeslice t) <? 1 then timeslice t else 1).

Definition slice_over t : bool :=
  (Z.land (flags t) TCB_FLAG_POLICY_MASK =? TCB_FLAG_SCHED_RR) && (slice_left t <=? 0) && (lockcount t =? 0).

Definition next_slice p A : pool :=
  match queue A rdy with
  | _ :: r :: _ => if prio A p <=? prio A r then rotate p A else A
  | _ => A
  end.

Lemma tick_ok st A t :
  sched_ok st A → tcbs st !! current st = Some t →
  ∃ st', nxsched_cpu_scheduler st = Some st' ∧
    sched_ok st' (if slice_over t then next_slice (current st) A else A).
Proof.
  intros Hok Ht. destruct (head_tcb st A Hok) as (t' & Hr & Ht' & Hh & Hl). rewrite Ht in Ht'. simplify_eq.
  assert (H0 : 0 ≤ lockcount t') by (apply (w_lock _ (ok_pool _ _ Hok) (current st) (clear t')), (v_lookup st), Ht; apply Hok).
  unfold nxsched_cpu_scheduler, slice_over. rewrite Hr. cbn [mbind option_bind]. rewrite Ht. cbn [mbind option_bind].
  destruct (Z.land _ _ =? _); cbn [andb]; [|by exists st].
  unfold nxsched_process_roundrobin. rewrite Ht. cbn [mbind option_bind].
  fold (slice_left t'). set (sl := slice_left t').
  destruct (timeslice_ok st A Hok _ t' sl Ht) as (st1 & E1 & Hok1 & Hc1). rewrite E1. cbn [mbind option_bind].
  destruct (sl <=? 0); cbn [andb]; [|by exists st1].
  replace (negb (0 <? lockcount t')) with (lockcount t' =? 0) by lia.
  destruct (lockcount t' =? 0); cbn [andb]; [|by exists st1].
  destruct (head_tcb st1 A Hok1) as (t1 & _ & Ht1 & _). rewrite Hc1 in Ht1.
  destruct (timeslice_ok st1 A Hok1 _ t1 (MSEC2TICK CONFIG_RR_INTERVAL) Ht1) as (st2 & E2 & Hok2 & Hc2).
  rewrite E2. cbn [mbind option_bind]. rewrite Hc1 in Hc2.
  destruct (slice_end st2 A (current st) Hok2 Hc2) as (st' & A' & E3 & Hok' & ->).
  exists st'. split; [|done]. rewrite (v_priority st A (ok_view _ _ Hok) _ t' Ht).
  destruct (flink _ _) as [next|]; [|by simplify_eq]. destruct (tcbs st2 !! next) as [nt|]; [|done].
  cbn [mbind option_bind] in E3 |- *. case_if; [|by simplify_eq]. rewrite E3. done.
Qed.

(** ** New tasks *)

Definition create p t A : pool :=
  qset TSTATE_TASK_INACTIVE (p :: queue A TSTATE_TASK_INACTIVE) (mk_pool (<[p := t]> (core A)) (queue A)).

Lemma pool_new A p t :
  pool_ok A → core A !! p = None → SCHED_PRIORITY_MIN ≤ sched_priority t ≤ SCHED_PRIORITY_MAX →
  0 ≤ lockcount t ≤ MAX_LOCK_COUNT →
  pool_ok (mk_pool (<[p := t]> (core A)) (queue A)) ∧ loose A p.
Proof.
  intros HA Hp Hpr Hlk. assert (Hl : loose A p).
  { intros k Hk. destruct (w_known _ HA k p Hk). congruence. }
  assert (Hne : ∀ k q, q ∈ queue A k → q ≠ p) by (intros k q Hq ->; by apply (Hl k)).
  assert (Hprio : ∀ q, q ≠ p → prio (mk_pool (<[p := t]> (core A)) (queue A)) q = prio A q).
  { intros q Hq. unfold prio. simpl. by rewrite lookup_insert_ne. }
  split; [|done]. constructor; simpl; try apply HA.
  - intros k q Hq. rewrite lookup_insert_ne by (intros ->; by eapply Hl). by eapply w_known.
  - intros k Hk. eapply sorted_impl; [|by apply (w_sorted _ HA)]. intros x y Hx Hy. unfold descending.
    rewrite !Hprio; [done|by eapply Hne..].
  - split; [apply HA|]. rewrite Hprio; [apply HA|]. eapply Hne, HA.
  - intros q t' Hq. destruct (decide (q = p)) as [->|]; [rewrite lookup_insert_eq; by intros [= <-]|].
    rewrite lookup_insert_ne by done. by apply HA.
  - intros q t'. destruct (decide (q = p)) as [->|]; [rewrite lookup_insert_eq; by intros [= <-]|].
    rewrite lookup_insert_ne by done. apply HA.
Qed.

Section Create.

Context (st : sched_s) (A : pool) (Hok : sched_ok st A) (p : Z) (Hp : tcbs st !! p = None).

(** Memory for the TCB. *)

Lemma new_tcb t st1 :
  SCHED_PRIORITY_MIN ≤ sched_priority t ≤ SCHED_PRIORITY_MAX → 0 ≤ lockcount t ≤ MAX_LOCK_COUNT →
  task_state t = TSTATE_TASK_INVALID → tcbs st1 = <[p := t]> (tcbs st) → current st1 = current st →
  (∀ s, TLIST_HEAD s st1 = TLIST_HEAD s st) →
  sched_ok st1 (mk_pool (<[p := clear t]> (core A)) (queue A)) ∧ loose A p.
Proof.
  intros H1 H2 H3 Ht Hc Hl. destruct Hok as [HV HA HR HN].
  destruct (pool_new A p (clear t)) as [HA' Hlo]; [done|by rewrite <- (v_core _ _ HV), lookup_fmap, Hp|done|done|].
  split; [|done]. constructor; [|done| |].
  - constructor; simpl; [by rewrite Ht, fmap_insert, (v_core _ _ HV)|intros s; rewrite Hl; apply HV|].
    intros q t'. rewrite Ht. destruct (decide (q = p)) as [->|].
    + rewrite lookup_insert_eq. intros [= <-]. by right.
    + rewrite lookup_insert_ne by done. apply HV.
  - unfold runs, this_task. rewrite Hc. pose proof (Hl rdy) as Hr. simpl in Hr. rewrite Hr. apply HR.
  - intros r Hr. simpl in Hr. destruct (HN r Hr) as [?|Hk]; [by left|right]. unfold locks in *. simpl.
    rewrite lookup_insert_ne; [done|]. intros ->. apply (Hlo rdy). by apply head_Some_elem_of.
Qed.

End Create.

(** The list of the tasks that are not yet active. *)

Lemma add_inactive st A p t :
  sched_ok st A → loose A p → tcbs st !! p = Some t →
  ∃ st', upd (set_state TSTATE_TASK_INACTIVE) p
           (set_tlist TSTATE_TASK_INACTIVE (p :: g_inactivetasks st) st) = Some st' ∧ current st' = current st ∧
    sched_ok st' (qset TSTATE_TASK_INACTIVE (p :: queue A TSTATE_TASK_INACTIVE) A).
Proof.
  intros [HV HA HR HN] Hl Ht.
  edestruct (upd_Some (set_state TSTATE_TASK_INACTIVE) p
    (set_tlist TSTATE_TASK_INACTIVE (p :: g_inactivetasks st) st) t) as (st' & E & Htcb & Hcur & Hlist); [by rewrite tcbs_set|].
  rewrite tcbs_set in Htcb. rewrite current_set in Hcur. exists st'. split; [done|]. split; [done|].
  pose proof (v_queue _ _ HV TSTATE_TASK_INACTIVE) as Hq. simpl in Hq.
  assert (HV' : view st' (qset TSTATE_TASK_INACTIVE (p :: queue A TSTATE_TASK_INACTIVE) A)).
  { apply (view_qset st); [done|done| | |].
    - rewrite Htcb. by apply (clear_insert _ _ t).
    - intros s. by rewrite Hlist, tlist_set, Hq.
    - intros q t'. rewrite Htcb. destruct (decide (q = p)) as [->|].
      + rewrite lookup_insert_eq. intros [= <-]. left. exists TSTATE_TASK_INACTIVE. simpl. split; [set_solver|done].
      + rewrite lookup_insert_ne by done. intros Hq'. apply has_state_qset; [set_solver|done|by apply HV]. }
  constructor; [done| | |].
  - apply pool_qset; [done|done|constructor; [apply Hl|apply HA]|done| |done].
    intros q [->|Hq']%elem_of_cons.
    + rewrite (v_lookup st A HV p t Ht). split; [by eexists|]. intros k Hk. by destruct (Hl k).
    + split; [by eapply w_known|]. intros k Hk. by eapply w_disj.
  - unfold runs, this_task. rewrite (v_ready st' _ HV'), Hcur. simpl. by apply head_current.
  - intros r Hr. by apply (HN r).
Qed.

(** Taking the preemption lock and giving it back has no effect. *)

Lemma lock_unlock A r k l t :
  no_stale_pending A → head (queue A rdy) = Some r → core A !! r = Some t → k ≠ pnd → 0 ≤ locks A r →
  pool_eq (unlock r (qset k l (cupd (set_lockcount (locks A r + 1)) r A))) (qset k l A).
Proof.
  intros HN Hr Ht Hk Hl0.
  assert (Hl : locks (qset k l (cupd (set_lockcount (locks A r + 1)) r A)) r = locks A r + 1).
  { apply locks_cupd. by eexists. }
  assert (Hback : ∀ n, n = locks A r →
    pool_eq (cupd (set_lockcount n) r (qset k l (cupd (set_lockcount (locks A r + 1)) r A))) (qset k l A)).
  { intros n ->. split; [|done]. simpl. apply map_eq. intros q. destruct (decide (q = r)) as [->|].
    - rewrite !lookup_alter_eq, Ht. simpl. f_equal. unfold locks. rewrite Ht. by destruct t.
    - by rewrite !lookup_alter_ne. }
  unfold unlock. rewrite Hl. destruct (Z.ltb_spec 1 (locks A r + 1)).
  - apply Hback. lia.
  - rewrite Hback by lia. apply release_nil. simpl. rewrite decide_False by done.
    destruct (HN r Hr) as [?|?]; [done|lia].
Qed.

Definition new_task (n ttype : Z) : tcb_s :=
  mk_tcb n TSTATE_TASK_INVALID (Z.lor (Z.land ttype TCB_FLAG_TTYPE_MASK) TCB_FLAG_SCHED_RR) 0 0
    (MSEC2TICK CONFIG_RR_INTERVAL) 0.

Lemma setup_ok st A p n ttype :
  sched_ok st A → tcbs st !! p = None → SCHED_PRIORITY_MIN ≤ n ≤ SCHED_PRIORITY_MAX →
  locks A (current st) < MAX_LOCK_COUNT →
  ∃ st', nxthread_setup_scheduler p n ttype st = Some st' ∧ sched_ok st' (create p (clear (new_task n ttype)) A).
Proof.
  intros Hok Hp Hn Hlk. unfold nxthread_setup_scheduler.
  rewrite u8_small by (unfold SCHED_PRIORITY_MIN, SCHED_PRIORITY_MAX in Hn; lia).
  match goal with |- context [sched_lock false ?s] => set (st1 := s) end.
  destruct (new_tcb st A Hok p Hp (new_task n ttype) st1) as [Hok1 Hl]; [done|done|done|done|done|by intros []|].
  set (A1 := mk_pool _ _) in Hok1. destruct (head_tcb st A Hok) as (t & _ & Ht & Hh & _).
  assert (Hcp : current st ≠ p) by congruence.
  assert (Hlk1 : locks A1 (current st) = locks A (current st)) by (unfold locks; simpl; by rewrite lookup_insert_ne).
  destruct (lock_ok st1 A1 Hok1) as (st2 & -> & Hc2 & Hok2); [simpl; lia|]. cbn [mbind option_bind].
  destruct (v_tcb st2 _ (ok_view _ _ Hok2) p) as (t2 & Ht2 & _).
  { simpl. rewrite lookup_alter_ne, lookup_insert_eq by done. by eexists. }
  destruct (add_inactive st2 _ p t2 Hok2 Hl Ht2) as (st3 & -> & Hc3 & Hok3). cbn [mbind option_bind].
  destruct (unlock_ok st3 _ Hok3) as (st4 & -> & Hok4). exists st4. split; [done|].
  rewrite Hc3, Hc2 in Hok4. simpl current in Hok4. cbn [cupd queue] in Hok4.
  rewrite (lock_unlock A1 (current st) _ _ (clear t)) in Hok4; [done|apply Hok1|done| |done|].
  - simpl. rewrite lookup_insert_ne by done. by apply (v_lookup st A (ok_view _ _ Hok)).
  - rewrite Hlk1, <- (v_locks st A (ok_view _ _ Hok) _ t Ht).
    by apply (w_lock _ (ok_pool _ _ Hok) (current st) (clear t)), (v_lookup st), Ht; apply Hok.
Qed.

End SchedOps.
