(* ===== verification/SchedProps.v ===== *)
(** * Properties of the scheduler

    [exec] runs an operation as the kernel calls it, [may] is what its caller has to
    ensure, and [move] is what it does to the queues.  The states that occur are those
    that are [reachable] from [nx_start]. *)

From S2P Require Import Prelude Sched SchedSpec SchedView SchedOps.

Module SchedProps.
Import Sched SchedSpec SchedView SchedOps.

Implicit Types (st : sched_s) (p q : Z) (l : list Z) (k s : tstate_t) (t : tcb_s) (A : pool).

(** ** Operations *)

Inductive op :=
  | Create (p prio ttype : Z)
  | Block (s : tstate_t)
  | Wake (p : Z)
  | Lock (irq : bool)
  | Unlock (irq : bool)
  | SetPriority (p n : Z)
  | Yield
  | Tick.

Definition void (m : option sched_s) : option (Z * sched_s) := st ← m; Some (OK, st).

Definition exec st (o : op) : option (Z * sched_s) :=
  match o with
  | Create p n ttype => void (nxthread_setup_scheduler p n ttype st)
  | Block s => rtcb ← this_task st; void (up_block_task rtcb s st)
  | Wake p => void (up_unblock_task p st)
  | Lock irq => void (sched_lock irq st)
  | Unlock irq => void (sched_unlock irq st)
  | SetPriority p n => nxsched_set_priority p n st
  | Yield => sched_yield st
  | Tick => void (nxsched_cpu_scheduler st)
  end.

(** The queues of a state. *)

Definition pool_of st : pool :=
  mk_pool (clear <$> tcbs st) (λ k, if decide (norm k = k) then TLIST_HEAD k st else []).

Definition in_range n : bool := (SCHED_PRIORITY_MIN <=? n) && (n <=? SCHED_PRIORITY_MAX).

(** The idle task does not block; a task that is woken is blocked; PIDs are unique. *)

Definition may st (o : op) : bool :=
  match o with
  | Create p n _ =>
      bool_decide (tcbs st !! p = None) && in_range n && (locks (pool_of st) (current st) <? MAX_LOCK_COUNT)
  | Block s => blocked s && negb (current st =? 0)
  | Wake p => match tcbs st !! p with Some t => blocked (task_state t) | None => false end
  | Lock irq => irq || (locks (pool_of st) (current st) <? MAX_LOCK_COUNT)
  | SetPriority p n =>
      negb (in_range n) ||
      negb (p =? 0) && match tcbs st !! p with Some t => bool_decide (task_state t ≠ TSTATE_TASK_INVALID) | None => false end
  | Unlock _ | Yield | Tick => true
  end.

(** ** What they do to the queues *)

Inductive move A (r : Z) : op → Z → pool → Prop :=
  | m_create p n ttype : loose A p → move A r (Create p n ttype) OK (create p (clear (new_task n ttype)) A)
  | m_block s : move A r (Block s) OK (release (put s r (take rdy r A)))
  | m_wake p k : p ∈ queue A k → blocked k = true → move A r (Wake p) OK (make_ready p (take k p A))
  | m_lock : move A r (Lock false) OK (cupd (set_lockcount (locks A r + 1)) r A)
  | m_lock_irq : move A r (Lock true) OK A
  | m_unlock : move A r (Unlock false) OK (unlock r A)
  | m_unlock_irq : move A r (Unlock true) OK A
  | m_set p n A' : in_range n = true → reprio A p n A' → move A r (SetPriority p n) OK A'
  | m_set_range p n : in_range n = false → move A r (SetPriority p n) (- EINVAL) A
  | m_yield A' : r ≠ 0 → reprio A r (prio A r) A' → move A r Yield OK A'
  | m_yield_idle : r = 0 → move A r Yield (-1) A
  | m_tick : move A r Tick OK A
  | m_slice : locks A r = 0 → move A r Tick OK (next_slice r A).

(** ** Reachable states *)

Inductive reachable : sched_s → Prop :=
  | reach_start : reachable nx_start
  | reach_step st o ret st' : reachable st → may st o = true → exec st o = Some (ret, st') → reachable st'.

Lemma view_pool_of st A : view st A → pool_ok A → pool_eq A (pool_of st).
Proof.
  intros HV HA. split; [by rewrite <- (v_core _ _ HV)|]. intros k. simpl. case_decide as Hk.
  - by rewrite (v_queue _ _ HV), Hk.
  - destruct (queue A k) as [|x l] eqn:E; [done|]. destruct (w_proper _ HA k x); [rewrite E; set_solver|done].
Qed.

(** ** Each operation is a move *)

Lemma set_priority_step st A p n :
  sched_ok st A → may st (SetPriority p n) = true →
  ∃ ret st' A', nxsched_set_priority p n st = Some (ret, st') ∧
    move A (current st) (SetPriority p n) ret A' ∧ sched_ok st' A'.
Proof.
  intros Hok Hmay. unfold may in Hmay. destruct (in_range n) eqn:Hr.
  - assert (Hn : SCHED_PRIORITY_MIN ≤ n ≤ SCHED_PRIORITY_MAX) by (unfold in_range in Hr; bool_to_prop; lia).
    cbn [negb orb] in Hmay. apply andb_true_iff in Hmay as [H0 Hmay]. assert (Hp : p ≠ 0) by lia.
    destruct (tcbs st !! p) as [t|] eqn:Ht; [|done]. apply bool_decide_eq_true in Hmay as Hs.
    pose proof (v_queued st A (ok_view _ _ Hok) (ok_pool _ _ Hok) p t Ht Hs) as Hq.
    destruct (set_priority_ok st A Hok p Hp n Hn _ Hq) as (st' & A' & -> & Hm & Hok').
    eexists _, _, _. split; [done|]. split; [by apply m_set|done].
  - rewrite set_priority_range by (unfold in_range in Hr; bool_to_prop; lia). eexists _, _, _. split; [done|]. split; [by apply m_set_range|done].
Qed.

Lemma step_ok st A o :
  sched_ok st A → may st o = true →
  ∃ ret st' A', exec st o = Some (ret, st') ∧ move A (current st) o ret A' ∧ sched_ok st' A'.
Proof.
  intros Hok Hmay. pose proof (ok_view _ _ Hok) as HV. pose proof (ok_pool _ _ Hok) as HA.
  pose proof (view_pool_of st A HV HA) as Heq. destruct (head_tcb st A Hok) as (t & Hr & Ht & Hh & Hl).
  unfold exec, void, may in *. destruct o as [p n tt|s|p|[]|[]|p n| |].
  - rewrite !andb_true_iff, bool_decide_eq_true in Hmay. destruct Hmay as [[Hp Hn] Hlk]. rewrite <- Heq in Hlk.
    unfold in_range in Hn. destruct (setup_ok st A p n tt Hok Hp) as (st' & -> & Hok'); [lia|lia|]. cbn [mbind option_bind].
    eexists _, _, _. split; [done|]. split; [apply m_create|done].
    intros k Hk. destruct (v_tcb st A HV p) as (t' & Ht' & _); [by eapply w_known|congruence].
  - apply andb_true_iff in Hmay as [Hs H0]. rewrite Hr. cbn [mbind option_bind].
    destruct (block_ok st A Hok (current st) s) as (st' & -> & Hok'); [by apply head_Some_elem_of|lia|done|].
    cbn [mbind option_bind]. eexists _, _, _. split; [done|]. split; [apply m_block|done].
  - destruct (tcbs st !! p) as [t'|] eqn:Ht'; [|done]. rename Hmay into Hb.
    assert (Hq : p ∈ queue A (task_state t')).
    { destruct (blocked_proper _ Hb) as (_ & _ & _ & Hn). rewrite <- Hn. apply (v_queued st A HV HA p t' Ht').
      intros E. by rewrite E in Hb. }
    destruct (unblock_ok st A Hok p (task_state t') Hq Hb) as (st' & -> & Hok'). cbn [mbind option_bind].
    eexists _, _, _. split; [done|]. split; [by apply m_wake|done].
  - rewrite lock_irq. eexists _, _, _. split; [done|]. split; [apply m_lock_irq|done].
  - rewrite orb_false_l, <- Heq in Hmay. destruct (lock_ok st A Hok ltac:(lia)) as (st' & -> & _ & Hok'). cbn [mbind option_bind].
    eexists _, _, _. split; [done|]. split; [apply m_lock|done].
  - rewrite unlock_irq. eexists _, _, _. split; [done|]. split; [apply m_unlock_irq|done].
  - destruct (unlock_ok st A Hok) as (st' & -> & Hok'). cbn [mbind option_bind].
    eexists _, _, _. split; [done|]. split; [apply m_unlock|done].
  - by apply set_priority_step.
  - destruct (yield_ok st A Hok) as (st' & A' & -> & Hok' & Hm). eexists _, st', A'. split; [done|]. split; [|done].
    case_decide; [subst A'; by apply m_yield_idle|by apply m_yield].
  - destruct (tick_ok st A t Hok Ht) as (st' & -> & Hok'). cbn [mbind option_bind].
    eexists _, _, _. split; [done|]. split; [|done]. destruct (slice_over t) eqn:Hs; [|apply m_tick].
    apply m_slice. rewrite <- Hl. unfold slice_over in Hs. rewrite !andb_true_iff in Hs. lia.
Qed.

Lemma start_ok : sched_ok nx_start (pool_of nx_start).
Proof.
  assert (Ht : ∀ p t, tcbs nx_start !! p = Some t → p = 0 ∧ t = nx_start_idle).
  { intros p t. change (tcbs nx_start) with ({[0 := nx_start_idle]} : gmap Z tcb_s). by intros [<- <-]%lookup_singleton_Some. }
  assert (Hq : ∀ k p, p ∈ queue (pool_of nx_start) k → k = rdy ∧ p = 0) by (intros [] p; simpl; set_solver).
  constructor.
  - constructor; [done|intros s; by destruct s|]. intros p t [-> ->]%Ht. left. exists rdy. simpl. split; [set_solver|done].
  - constructor.
    + by intros k p [-> _]%Hq.
    + intros k p [-> ->]%Hq. by eexists.
    + intros k k' p [-> _]%Hq [-> _]%Hq. done.
    + intros []; simpl; try constructor; [set_solver|constructor].
    + intros [] _; simpl; repeat constructor.
    + split; [simpl; set_solver|done].
    + intros p t Hp. simpl. rewrite lookup_fmap, fmap_Some. by intros (t' & [-> _]%Ht & _).
    + intros p t. simpl. rewrite lookup_fmap, fmap_Some. intros (t' & [-> ->]%Ht & ->). by vm_compute.
  - done.
  - intros r _. by left.
Qed.

Lemma reachable_ok st : reachable st → sched_ok st (pool_of st).
Proof.
  induction 1 as [|st o ret st' _ IH Hmay E]; [apply start_ok|].
  destruct (step_ok st _ o IH Hmay) as (ret' & st2 & A' & E' & _ & Hok). rewrite E in E'. simplify_eq.
  rewrite <- (view_pool_of st2 A'); [done|apply Hok..].
Qed.

(** ** The running task under the preemption lock *)

(** Operations that are not a decision of the running task to give up the CPU. *)

Definition involuntary st (o : op) : Prop :=
  match o with
  | Block _ | Unlock false | Yield => False
  | SetPriority p _ => p ≠ current st
  | _ => True
  end.

Lemma reprio_head A p n A' r :
  pool_ok A → reprio A p n A' → head (queue A rdy) = Some r → r ≠ p → 0 < locks A r →
  head (queue A' rdy) = Some r.
Proof.
  intros HA Hm Hr Hne Hlk. destruct Hm as [x l E _|x l E _|Hp Hh|k Hp Hk Hs|k Hp Hs]; try (rewrite E in Hr; simplify_eq/=).
  - unfold again, make_ready, held_back. change (queue (cupd ?f ?y ?B)) with (queue B).
    assert (Ht : head (queue (take rdy p A) rdy) = Some r) by by rewrite take_head.
    rewrite Ht. rewrite (locks_reprio A p r n) by done. rewrite (proj2 (Z.ltb_lt 0 _)) by done. cbn [andb].
    case_if.
    + simpl. by simpl in Ht.
    + unfold put. cbn [TLIST_ISPRIORITIZED qset queue]. rewrite decide_True by done. change (queue (cupd ?f ?y ?B)) with (queue B).
      destruct (queue (take rdy p A) rdy) as [|y l]; [done|]. simplify_eq/=. by rewrite enqueue_front by lia.
  - unfold put. rewrite Hs. simpl. by rewrite !decide_False.
  - done.
Qed.

Lemma move_head st A o ret A' :
  pool_ok A → move A (current st) o ret A' → involuntary st o →
  head (queue A rdy) = Some (current st) → 0 < locks A (current st) →
  head (queue A' rdy) = Some (current st).
Proof.
  intros HA Hm Hi Hr Hlk. destruct Hm as [| |p k Hp Hb| | | | |p n A' _ Hrp| | | | |H0]; try done.
  - unfold make_ready, held_back. assert (k ≠ rdy) by by destruct k.
    assert (Ht : head (queue (take k p A) rdy) = Some (current st)) by by rewrite take_head.
    rewrite Ht. unfold locks at 1. simpl core. fold (locks A (current st)). rewrite (proj2 (Z.ltb_lt 0 _)) by done. cbn [andb].
    case_if; [exact Ht|]. unfold put. cbn [TLIST_ISPRIORITIZED]. cbn [qset queue]. rewrite decide_True by done.
    destruct (queue (take k p A) rdy) as [|y l]; [done|]. simplify_eq/=. by rewrite enqueue_front by lia.
  - by eapply reprio_head.
  - lia.
Qed.

(** ** Theorems *)

Fixpoint run st (ops : list op) : option sched_s :=
  match ops with
  | [] => Some st
  | o :: ops => if may st o then '(_, st) ← exec st o; run st ops else None
  end.

Lemma run_reachable st ops st' : reachable st → run st ops = Some st' → reachable st'.
Proof.
  revert st. induction ops as [|o ops IH]; intros st Hst; simpl; [by intros [= <-]|].
  destruct (may st o) eqn:Hm; [|done]. destruct (exec st o) as [[ret st1]|] eqn:E; [|done].
  apply IH. by eapply reach_step.
Qed.

(** C10.  In every state that the scheduler reaches from [nx_start], each operation that its caller
    may use succeeds, no assertion in it fails, and it moves tasks between the queues as
    [move] says: a blocked task leaves the ready tasks and the pending tasks join them, a
    woken task is queued behind the tasks of its priority or held back by the preemption
    lock, and so on for every operation. *)
Theorem sched_refines_pool st o :
  reachable st → may st o = true →
  ∃ ret st' A', exec st o = Some (ret, st') ∧ reachable st' ∧
    move (pool_of st) (current st) o ret A' ∧ pool_eq A' (pool_of st').
Proof.
  intros Hr Hm. destruct (step_ok st _ o (reachable_ok st Hr) Hm) as (ret & st' & A' & E & Hmv & Hok).
  exists ret, st', A'. split; [done|]. split; [by eapply reach_step|]. split; [done|].
  apply view_pool_of; apply Hok.
Qed.

(** Task 1 has preemption locked, task 2 of the same priority is ready and task 3 of a
    higher one is pending. *)

Definition demo_ops : list op :=
  [Create 1 100 0; Create 2 100 0; Create 3 150 0; Wake 1; Wake 2; Lock false; Wake 3].

Definition demo : sched_s := default nx_start (run nx_start demo_ops).

Lemma demo_reachable : reachable demo.
Proof.
  apply (run_reachable nx_start demo_ops); [apply reach_start|]. unfold demo.
  destruct (run nx_start demo_ops) eqn:E; [done|]. exfalso. revert E. by vm_compute.
Qed.

Lemma sched_refines_pool_witness :
  ∃ ret st' A', exec demo (Unlock false) = Some (ret, st') ∧ reachable st' ∧
    move (pool_of demo) (current demo) (Unlock false) ret A' ∧ pool_eq A' (pool_of st').
Proof. apply (sched_refines_pool demo (Unlock false)); [apply demo_reachable|by vm_compute]. Defined.

(** The state that a task records is that of the list it is on, no task is on two
    lists, the prioritized lists are in descending order of priority, the idle task never
    leaves the ready-to-run list, and the registers in the CPU are those of its head. *)
Theorem sched_invariant st :
  reachable st → view st (pool_of st) ∧ pool_ok (pool_of st) ∧ this_task st = Some (current st).
Proof. intros Hr. destruct (reachable_ok st Hr) as [H1 H2 H3 _]. done. Qed.

Lemma sched_invariant_witness :
  view demo (pool_of demo) ∧ pool_ok (pool_of demo) ∧ this_task demo = Some (current demo).
Proof. apply (sched_invariant demo), demo_reachable. Defined.

(** C30.  Unless it has preemption locked, the task in the CPU has the highest priority of all
    tasks that are ready, and no task is pending. *)
Theorem sched_runs_highest st tc p t :
  reachable st → tcbs st !! current st = Some tc → lockcount tc = 0 → tcbs st !! p = Some t →
  task_state t = TSTATE_TASK_PENDING ∨ ready_to_run (task_state t) = true →
  task_state t ≠ TSTATE_TASK_PENDING ∧ sched_priority t ≤ sched_priority tc ∧
  task_state tc = TSTATE_TASK_RUNNING.
Proof.
  intros Hr Htc Hl Ht Hs. pose proof (reachable_ok st Hr) as Hok.
  destruct (head_tcb st _ Hok) as (tc' & _ & Htc' & Hh & Hlk). rewrite Htc in Htc'. simplify_eq.
  pose proof (ok_view _ _ Hok) as HV. pose proof (ok_pool _ _ Hok) as HA.
  assert (Hq : p ∈ queue (pool_of st) (norm (task_state t))).
  { apply (v_queued st _ HV HA p t Ht). intros E. rewrite E in Hs. naive_solver. }
  destruct (ok_pending _ _ Hok _ Hh) as [Hpn|?]; [|lia].
  assert (Hne : task_state t ≠ TSTATE_TASK_PENDING) by (intros E; rewrite E in Hq; simpl in Hpn, Hq; rewrite Hpn in Hq; set_solver).
  split; [done|]. rewrite (v_priority st _ HV p t Ht), (v_priority st _ HV _ tc' Htc). split.
  - assert (Hn : norm (task_state t) = rdy) by (destruct Hs as [?|Hs]; [done|by destruct (task_state t)]). rewrite Hn in Hq.
    pose proof (w_sorted _ HA rdy eq_refl) as Hsort. destruct (queue (pool_of st) rdy) as [|x l]; [done|]. simplify_eq/=.
    apply StronglySorted_inv in Hsort as [_ Hsort]. apply elem_of_cons in Hq as [->|Hq]; [done|].
    eapply Forall_forall in Hsort; [exact Hsort|done].
  - rewrite (v_in st _ HV HA rdy (current st) tc'); [|by apply head_Some_elem_of|done].
    unfold state_in. by rewrite !decide_True.
Qed.

Definition demo_unlocked : sched_s := default nx_start (run nx_start (demo_ops ++ [Unlock false])).

Definition task_of st p : tcb_s := default nx_start_idle (tcbs st !! p).

Lemma sched_runs_highest_witness :
  sched_priority (task_of demo_unlocked 1) ≤ sched_priority (task_of demo_unlocked 3).
Proof.
  apply (sched_runs_highest demo_unlocked (task_of demo_unlocked 3) 1 (task_of demo_unlocked 1));
    [|by vm_compute..|right; by vm_compute].
  apply (run_reachable nx_start (demo_ops ++ [Unlock false])); [apply reach_start|]. unfold demo_unlocked.
  destruct (run nx_start (demo_ops ++ [Unlock false])) eqn:E; [done|]. exfalso. revert E. by vm_compute.
Defined.

(** While the running task has preemption locked, nothing but the task itself takes the
    CPU from it: not a task that is woken, a new task, a timer tick or a change of the
    priority of another task. *)
Theorem sched_lock_no_preempt st tc o ret st' :
  reachable st → tcbs st !! current st = Some tc → 0 < lockcount tc → involuntary st o →
  may st o = true → exec st o = Some (ret, st') → current st' = current st.
Proof.
  intros Hr Htc Hl Hi Hm E. pose proof (reachable_ok st Hr) as Hok.
  destruct (head_tcb st _ Hok) as (tc' & _ & Htc' & Hh & Hlk). rewrite Htc in Htc'. simplify_eq.
  destruct (step_ok st _ o Hok Hm) as (ret' & st2 & A' & E' & Hmv & Hok'). rewrite E in E'. simplify_eq.
  pose proof (move_head st _ o ret' A' (ok_pool _ _ Hok) Hmv Hi Hh ltac:(lia)) as Hh'.
  pose proof (head_current st2 A' (ok_view _ _ Hok') (ok_runs _ _ Hok')). congruence.
Qed.

Definition demo_wake : sched_s := default nx_start (snd <$> exec demo (SetPriority 2 200)).

Lemma sched_lock_no_preempt_witness : current demo_wake = 1.
Proof.
  apply (sched_lock_no_preempt demo (task_of demo 1) (SetPriority 2 200) OK);
    [apply demo_reachable|by vm_compute..].
Defined.

(** The head after the running task went behind the next. *)





End SchedProps.
