(* ===== verification/Sem.v ===== *)
(** * Counting semaphores (sched/semaphore)

    A task that cannot take a count waits on one list for all semaphores, ordered by
    priority, and [nxsem_post] gives the count to the first task on it that waits for the
    semaphore.

    A semaphore is the address of its count.  A call that blocks ends with the switch to
    another task: its result is [None], and what it returns once the caller runs again is
    [nxsem_wait_result].  The build has no priority inheritance. *)

From S2P Require Import Prelude Sched.

Module Sem.
Import Sched.

Definition EINTR : Z := 4.
Definition EAGAIN : Z := 11.
Definition ETIMEDOUT : Z := 116.
Definition EOVERFLOW : Z := 139.
Definition ECANCELED : Z := 140.
Definition SEM_VALUE_MAX : Z := 0x7fff.
Definition NULL : Z := 0.

(** [int16_t] *)

Definition s16 (z : Z) : Z := (z + 2 ^ 15) mod 2 ^ 16 - 2 ^ 15.

(** The semaphores and the scheduler. *)

Record os_s := mk_os { sems : gmap Z Z; sched : sched_s }.

Definition set_sem (st : os_s) (sem c : Z) : os_s := mk_os (<[sem := c]> (sems st)) (sched st).

Definition on_sched (f : sched_s → option sched_s) (st : os_s) : option os_s :=
  sc ← f (sched st); Some (mk_os (sems st) sc).

Definition nxsem_init (st : os_s) (sem value : Z) : Z * os_s :=
  if negb (sem =? NULL) && (value <=? SEM_VALUE_MAX) then (OK, set_sem st sem (s16 value))
  else (- EINVAL, st).

Definition nxsem_wait (st : os_s) (sem : Z) : option (option Z * os_s) :=
  rtcb ← this_task (sched st);
  DEBUGASSERT (negb (sem =? NULL)) ;;
  c ← sems st !! sem;
  if 0 <? c then
    st ← on_sched (upd (set_waitsem NULL) rtcb) (set_sem st sem (s16 (c - 1)));
    Some (Some OK, st)
  else
    rt ← tcbs (sched st) !! rtcb;
    DEBUGASSERT (waitsem rt =? NULL) ;;
    st ← on_sched (upd (set_waitsem sem) rtcb) (set_sem st sem (s16 (c - 1)));
    st ← on_sched (upd (set_errcode OK) rtcb) st;
    DEBUGASSERT (bool_decide (is_Some (flink rtcb (g_readytorun (sched st))))) ;;
    st ← on_sched (up_block_task rtcb TSTATE_WAIT_SEM) st;
    Some (None, st).

(** What [nxsem_wait] returns when the task runs again. *)

Definition nxsem_wait_result (st : os_s) (rtcb : Z) : option Z :=
  rt ← tcbs (sched st) !! rtcb;
  Some (if negb (errcode rt =? OK) then - errcode rt else OK).

Definition nxsem_trywait (st : os_s) (sem : Z) : option (Z * os_s) :=
  rtcb ← this_task (sched st);
  DEBUGASSERT (negb (sem =? NULL)) ;;
  c ← sems st !! sem;
  if 0 <? c then
    st ← on_sched (upd (set_waitsem NULL) rtcb) (set_sem st sem (s16 (c - 1)));
    Some (OK, st)
  else Some (- EAGAIN, st).

(** [for (stcb = head; stcb && stcb->waitsem != sem; stcb = stcb->flink)] *)

Fixpoint nxsem_first_waiter (tasks : gmap Z tcb_s) (sem : Z) (l : list Z) : option (option Z) :=
  match l with
  | [] => Some None
  | stcb :: l =>
      t ← tasks !! stcb;
      if negb (waitsem t =? sem) then nxsem_first_waiter tasks sem l else Some (Some stcb)
  end.

Definition nxsem_post (st : os_s) (sem : Z) : option (Z * os_s) :=
  if sem =? NULL then Some (- EINVAL, st)
  else
    c ← sems st !! sem;
    if SEM_VALUE_MAX <=? c then Some (- EOVERFLOW, st)
    else
      let c := s16 (c + 1) in
      let st := set_sem st sem c in
      if c <=? 0 then
        stcb ← nxsem_first_waiter (tcbs (sched st)) sem (g_waitingforsemaphore (sched st));
        match stcb with
        | None => Some (OK, st)
        | Some stcb =>
            st ← on_sched (upd (set_waitsem NULL) stcb) st;
            st ← on_sched (up_unblock_task stcb) st;
            Some (OK, st)
        end
      else Some (OK, st).

(** A signal, a timeout or a cancellation ends the wait of a task. *)

Definition nxsem_wait_irq (st : os_s) (wtcb err : Z) : option os_s :=
  t ← tcbs (sched st) !! wtcb;
  if decide (task_state t = TSTATE_WAIT_SEM) then
    let sem := waitsem t in
    DEBUGASSERT (negb (sem =? NULL)) ;;
    c ← sems st !! sem;
    DEBUGASSERT (c <? 0) ;;
    let st := set_sem st sem (s16 (c + 1)) in
    st ← on_sched (upd (set_waitsem NULL) wtcb) st;
    st ← on_sched (upd (set_errcode err) wtcb) st;
    on_sched (up_unblock_task wtcb) st
  else Some st.

Definition nxsem_timeout (st : os_s) (pid : Z) : option os_s :=
  match tcbs (sched st) !! pid with
  | Some t => if decide (task_state t = TSTATE_WAIT_SEM) then nxsem_wait_irq st pid ETIMEDOUT else Some st
  | None => Some st
  end.

(** A task that waits is deleted. *)

Definition nxsem_recover (st : os_s) (tcb : Z) : option os_s :=
  t ← tcbs (sched st) !! tcb;
  if decide (task_state t = TSTATE_WAIT_SEM) then
    let sem := waitsem t in
    DEBUGASSERT (negb (sem =? NULL)) ;;
    c ← sems st !! sem;
    DEBUGASSERT (c <? 0) ;;
    on_sched (upd (set_waitsem NULL) tcb) (set_sem st sem (s16 (c + 1)))
  else Some st.

(** [while (sem->semcount < 0 && count > 0) nxsem_post (sem), count--] *)

Fixpoint nxsem_reset_loop (fuel : nat) (st : os_s) (sem count : Z) : option (Z * os_s) :=
  match fuel with
  | O => None
  | S fuel =>
      c ← sems st !! sem;
      if (c <? 0) && (0 <? count) then
        '(ret, st) ← nxsem_post st sem;
        DEBUGASSERT (0 <=? ret) ;;
        nxsem_reset_loop fuel st sem (count - 1)
      else Some (count, st)
  end.

Definition nxsem_reset (irq : bool) (st : os_s) (sem count : Z) : option (Z * os_s) :=
  DEBUGASSERT (negb (sem =? NULL) && (0 <=? count)) ;;
  st ← on_sched (sched_lock irq) st;
  '(count, st) ← nxsem_reset_loop (S (Z.to_nat count)) st sem count;
  c ← sems st !! sem;
  let st := if 0 <=? c then set_sem st sem count else st in
  st ← on_sched (sched_unlock irq) st;
  Some (OK, st).

Definition nxsem_destroy (st : os_s) (sem : Z) : option (Z * os_s) :=
  if sem =? NULL then Some (- EINVAL, st)
  else
    c ← sems st !! sem;
    Some (OK, if 0 <=? c then set_sem st sem 1 else st).

Definition nxsem_get_value (st : os_s) (sem : Z) : option (Z * Z) :=
  if sem =? NULL then Some (- EINVAL, 0) else c ← sems st !! sem; Some (OK, c).

End Sem.
