(* ===== verification/SemSpec.v ===== *)
(** * Semaphores as counters with queues

    [sem_inv] relates the counts to the tasks on the list of the waiting tasks.  Under it
    a semaphore is a number of available counts and a queue of tasks in the order of
    their priority, and the operations are the obvious ones on these. *)

From S2P Require Import Prelude Sched SchedSpec SchedView SchedOps Sem.

Module SemSpec.
Import Sched SchedSpec SchedView SchedOps Sem.

Implicit Types (st : os_s) (p q s : Z) (l : list Z) (A : pool) (m : gmap Z Z) (t : tcb_s).

Abbreviation wsem := TSTATE_WAIT_SEM.

(** ** The waiting tasks of a semaphore *)

Definition waits_for A p : Z := default NULL (waitsem <$> core A !! p).
Definition waiters A s : list Z := filter (λ p, waits_for A p = s) (queue A wsem).

Record sem_inv m A : Prop := {
  so_count : ∀ s c, m !! s = Some c →
    s ≠ NULL ∧ c ≤ SEM_VALUE_MAX ∧ Z.of_nat (length (waiters A s)) = Z.max 0 (- c);
  so_ready : ∀ p, p ∉ queue A wsem → waits_for A p = NULL;
  so_known : ∀ p, p ∈ queue A wsem → is_Some (m !! waits_for A p);
  so_errcode : ∀ p t, p ∈ queue A wsem → core A !! p = Some t → errcode t = OK;
  so_few : Z.of_nat (base.size (core A)) < 2 ^ 15
}.

Record sem_ok st A : Prop := {
  so_sched : sched_ok (sched st) A;
  so_sems : sem_inv (sems st) A
}.

(** The counts that are available and the queue. *)

Record sem_is m A s (a : Z) l : Prop := {
  si_count : m !! s = Some (a - Z.of_nat (length l));
  si_waiters : waiters A s = l;
  si_avail : 0 ≤ a ≤ SEM_VALUE_MAX;
  si_either : a = 0 ∨ l = []
}.

Lemma sem_view m A s c : sem_inv m A → m !! s = Some c → sem_is m A s (Z.max 0 c) (waiters A s).
Proof.
  intros Hok Hc. destruct (so_count _ _ Hok s c Hc) as (_ & Hmax & Hl).
  constructor; [rewrite Hc; f_equal; lia|done|unfold SEM_VALUE_MAX in *; lia|].
  destruct (decide (c ≤ 0)); [left; lia|right]. apply nil_length_inv. lia.
Qed.

Lemma s16_small z : - 2 ^ 15 ≤ z < 2 ^ 15 → s16 z = z.
Proof. intros Hz. unfold s16. rewrite Z.mod_small by lia. lia. Qed.

(** Tasks bound the waiters. *)

Lemma waiters_few m A s : sem_inv m A → pool_ok A → Z.of_nat (length (waiters A s)) < 2 ^ 15.
Proof.
  intros Hok HA. eapply Z.le_lt_trans; [|apply (so_few _ _ Hok)]. apply Nat2Z.inj_le.
  etransitivity; [apply length_filter|].
  rewrite <- (size_dom (D := gset Z)), <- (size_list_to_set (C := gset Z)) by apply HA.
  apply subseteq_size. intros p Hp%elem_of_list_to_set. apply elem_of_dom. by eapply w_known.
Qed.

(** A count after a change fits its type. *)

Lemma count_fits m A s c d :
  sem_inv m A → pool_ok A → m !! s = Some c → -1 ≤ d ≤ 1 → c + d ≤ SEM_VALUE_MAX → 0 ≤ d ∨ - 2 ^ 15 < c → s16 (c + d) = c + d.
Proof.
  intros Hok HA Hc Hd Hmax Hmin. destruct (so_count _ _ Hok s c Hc) as (_ & Hm & Hl).
  pose proof (waiters_few m A s Hok HA). unfold SEM_VALUE_MAX in *. apply s16_small. lia.
Qed.

Lemma filter_tasks (P Q : Z → Prop) `{!∀ x, Decision (P x)} `{!∀ x, Decision (Q x)} l :
  (∀ x, x ∈ l → P x ↔ Q x) → filter P l = filter Q l.
Proof.
  induction l as [|x l IH]; intros HPQ; [done|]. destruct (decide (P x)) as [Hp|Hp].
  - rewrite !filter_cons_True, IH; [done|set_solver|apply HPQ; [set_solver|done]|done].
  - rewrite !filter_cons_False, IH; [done|set_solver|rewrite <- HPQ; [done|set_solver]|done].
Qed.

(** ** Moves that do not concern semaphores *)

Definition info t : Z * Z := (waitsem t, errcode t).

Record same_waits A A' : Prop := {
  sw_info : ∀ p, info <$> core A' !! p = info <$> core A !! p;
  sw_queue : queue A' wsem ≡ₚ queue A wsem
}.

Lemma same_for A A' p : same_waits A A' → waits_for A' p = waits_for A p.
Proof.
  intros [H _]. specialize (H p). unfold waits_for.
  destruct (core A' !! p), (core A !! p); simplify_eq/=; unfold info in *; congruence.
Qed.

Lemma same_waiters A A' s : same_waits A A' → waiters A' s ≡ₚ waiters A s.
Proof.
  intros H. unfold waiters. rewrite (sw_queue _ _ H). erewrite filter_tasks; [done|].
  intros x _. by rewrite (same_for A A').
Qed.

Lemma same_inv m A A' : same_waits A A' → sem_inv m A → sem_inv m A'.
Proof.
  intros H [H1 H2 H3 H4 H5]. pose proof (sw_info _ _ H) as Hi. constructor.
  - intros s c Hc. rewrite (same_waiters A A') by done. by apply H1.
  - intros p. rewrite (sw_queue _ _ H), (same_for A A') by done. apply H2.
  - intros p. rewrite (sw_queue _ _ H), (same_for A A') by done. apply H3.
  - intros p t. rewrite (sw_queue _ _ H). intros Hp Ht. specialize (Hi p). rewrite Ht in Hi.
    destruct (core A !! p) as [t0|] eqn:E; simplify_eq/=. unfold info in *. specialize (H4 p t0 Hp E). congruence.
  - assert (Hd : dom (core A') = dom (core A)).
    { apply set_eq. intros p. rewrite !elem_of_dom. specialize (Hi p).
      destruct (core A' !! p), (core A !! p); simplify_eq/=; naive_solver. }
    by rewrite <- (size_dom (D := gset Z)), Hd, size_dom.
Qed.

#[global] Instance same_waits_refl : Reflexive same_waits.
Proof. by split. Qed.

#[global] Instance same_waits_trans : Transitive same_waits.
Proof. intros A1 A2 A3 [H1 H2] [H3 H4]. split; [intros p; by rewrite H3|by rewrite H4]. Qed.

Lemma same_qset A k l : k ≠ wsem → same_waits A (qset k l A).
Proof. intros Hk. split; [done|]. simpl. by rewrite decide_False. Qed.

Lemma same_put A k p : k ≠ wsem → same_waits A (put k p A).
Proof. apply same_qset. Qed.

Lemma same_take A k p : k ≠ wsem → same_waits A (take k p A).
Proof. apply same_qset. Qed.

Lemma same_release A : same_waits A (release A).
Proof. etransitivity; [by apply (same_qset A pnd [])|by apply same_qset]. Qed.

Lemma same_make_ready A p : same_waits A (make_ready p A).
Proof. unfold make_ready. case_if; by apply same_put. Qed.

Lemma same_cupd A f p : (∀ t, info (f t) = info t) → same_waits A (cupd f p A).
Proof.
  intros Hf. split; [|done]. intros q. simpl. destruct (decide (q = p)) as [->|]; [|by rewrite lookup_alter_ne].
  rewrite lookup_alter_eq. destruct (core A !! p); simpl; by rewrite ?Hf.
Qed.

#[export] Hint Resolve same_put same_take same_release same_make_ready same_cupd : nx.

Lemma same_waiters_eq A A' s : same_waits A A' → queue A' wsem = queue A wsem → waiters A' s = waiters A s.
Proof. intros H Hq. unfold waiters. rewrite Hq. apply filter_tasks. intros x _. by rewrite (same_for A A'). Qed.

(** ** A task begins to wait, or no longer waits *)

Definition rewait s (e : Z) p A : pool := cupd (set_errcode e) p (cupd (set_waitsem s) p A).

Lemma rewait_core s e p A q :
  core (rewait s e p A) !! q = if decide (q = p) then set_errcode e ∘ set_waitsem s <$> core A !! q else core A !! q.
Proof.
  simpl. case_decide; subst; [rewrite !lookup_alter_eq; by destruct (core A !! p)|by rewrite !lookup_alter_ne].
Qed.

Lemma rewait_for s e p A q :
  is_Some (core A !! p) → waits_for (rewait s e p A) q = if decide (q = p) then s else waits_for A q.
Proof.
  intros [t Ht]. unfold waits_for. rewrite rewait_core. case_decide; subst; [by rewrite Ht|done].
Qed.

Lemma rewait_prio s e p A q : prio (rewait s e p A) q = prio A q.
Proof. unfold rewait. by rewrite !prio_cupd_same. Qed.

Lemma rewait_size s e p A : base.size (core (rewait s e p A)) = base.size (core A).
Proof.
  rewrite <- !(size_dom (D := gset Z)). f_equal. apply set_eq. intros q. rewrite !elem_of_dom, rewait_core.
  case_decide; [|done]. by rewrite fmap_is_Some.
Qed.

Section Rewait.

Context (m : gmap Z Z) (A : pool) (Hinv : sem_inv m A) (HA : pool_ok A) (p : Z).

Section Blocking.

Context (Hp : p ∈ queue A rdy) (s c : Z) (Hc : m !! s = Some c) (Hc0 : c ≤ 0).

Definition blocked_pool : pool := release (put wsem p (take rdy p (rewait s OK p A))).

Lemma blocked_absent : p ∉ queue A wsem.
Proof. intros H. by pose proof (w_disj _ HA _ _ _ H Hp). Qed.

Lemma blocked_queue : queue blocked_pool wsem = enqueue (prio A) p (queue A wsem).
Proof.
  unfold blocked_pool. simpl. apply enqueue_ext. intros x _. apply (rewait_prio s OK p A x).
Qed.

Lemma blocked_for q : waits_for blocked_pool q = if decide (q = p) then s else waits_for A q.
Proof. apply (rewait_for s OK p A q). by eapply w_known. Qed.

Lemma blocked_waiters s' :
  waiters blocked_pool s' = if decide (s' = s) then enqueue (prio A) p (waiters A s) else waiters A s'.
Proof.
  assert (Hrest : ∀ x, filter (λ q, waits_for blocked_pool q = x) (queue A wsem) = waiters A x).
  { intros x. apply filter_tasks. intros q Hq. rewrite blocked_for, decide_False; [done|].
    intros ->. by apply blocked_absent. }
  unfold waiters at 1. rewrite blocked_queue. case_decide as Hs; [subst s'|].
  - rewrite enqueue_filter, Hrest; [done|by rewrite blocked_for, decide_True|by apply (w_sorted _ HA wsem)].
  - rewrite enqueue_filter_out, Hrest; [done|]. by rewrite blocked_for, decide_True.
Qed.

Lemma blocked_inv : sem_inv (<[s := c - 1]> m) blocked_pool.
Proof.
  destruct (so_count _ _ Hinv s c Hc) as (Hs & Hmax & Hl). constructor.
  - intros s' c' Hc'. rewrite blocked_waiters. destruct (decide (s' = s)) as [->|Hne].
    + rewrite lookup_insert_eq in Hc'. simplify_eq. rewrite enqueue_perm. simpl. lia.
    + rewrite lookup_insert_ne in Hc' by done. by apply (so_count _ _ Hinv).
  - intros q. rewrite blocked_queue, elem_enqueue, blocked_for. intros Hq. rewrite decide_False by naive_solver.
    apply (so_ready _ _ Hinv). naive_solver.
  - intros q. rewrite blocked_queue, elem_enqueue, blocked_for. intros Hq.
    case_decide; [rewrite lookup_insert_eq; by eexists|]. destruct (decide (s = waits_for A q)) as [->|];
      [rewrite lookup_insert_eq; by eexists|rewrite lookup_insert_ne by done]. apply (so_known _ _ Hinv). naive_solver.
  - intros q t. rewrite blocked_queue, elem_enqueue. intros Hq. change (core blocked_pool) with (core (rewait s OK p A)).
    rewrite rewait_core. case_decide; [|intros Ht; apply (so_errcode _ _ Hinv q); [naive_solver|done]].
    destruct (core A !! q); [|done]. by intros [= <-].
  - change (core blocked_pool) with (core (rewait s OK p A)). rewrite rewait_size. apply Hinv.
Qed.

End Blocking.

Section Waking.

Context (Hp : p ∈ queue A wsem) (e : Z).

Definition woken_pool : pool := make_ready p (take wsem p (rewait NULL e p A)).

Lemma woken_queue : queue woken_pool wsem = dq_rem p (queue A wsem).
Proof. unfold woken_pool, make_ready. by case_if. Qed.

Lemma woken_core q : core woken_pool !! q = core (rewait NULL e p A) !! q.
Proof. unfold woken_pool, make_ready. by case_if. Qed.

Lemma woken_for q : waits_for woken_pool q = if decide (q = p) then NULL else waits_for A q.
Proof. unfold waits_for at 1. rewrite woken_core. apply rewait_for. by eapply w_known. Qed.

Lemma woken_waiters s' : s' ≠ NULL → waiters woken_pool s' = dq_rem p (waiters A s').
Proof.
  intros Hs'. unfold waiters, dq_rem. rewrite woken_queue. unfold dq_rem. rewrite !list_filter_filter.
  apply filter_tasks. intros q _. rewrite woken_for. destruct (decide (q = p)); naive_solver.
Qed.

Context (s c : Z) (Hs : waits_for A p = s) (Hc : m !! s = Some c).

Lemma woken_member : p ∈ waiters A s.
Proof. apply list_elem_of_filter. done. Qed.

Lemma woken_inv : c < 0 ∧ sem_inv (<[s := c + 1]> m) woken_pool.
Proof.
  destruct (so_count _ _ Hinv s c Hc) as (Hs0 & Hmax & Hl).
  assert (Hnd : ∀ x, NoDup (waiters A x)) by (intros x; apply NoDup_filter, HA).
  rewrite (dq_rem_perm p _ (Hnd s) woken_member) in Hl. simpl in Hl. split; [lia|]. constructor.
  - intros s' c' Hc'. destruct (decide (s' = s)) as [->|Hne].
    + rewrite lookup_insert_eq in Hc'. simplify_eq. rewrite woken_waiters by done. unfold SEM_VALUE_MAX in *. split_and!; [done|lia..].
    + rewrite lookup_insert_ne in Hc' by done. destruct (so_count _ _ Hinv s' c' Hc') as (Hs' & Hr).
      rewrite woken_waiters, dq_rem_absent by (done || unfold waiters; rewrite list_elem_of_filter; naive_solver). done.
  - intros q. rewrite woken_queue, elem_dq_rem, woken_for. intros Hq. case_decide; [done|]. apply (so_ready _ _ Hinv). naive_solver.
  - intros q. rewrite woken_queue, elem_dq_rem, woken_for. intros [Hqp Hq]. rewrite decide_False by done.
    destruct (decide (s = waits_for A q)) as [->|]; [rewrite lookup_insert_eq; by eexists|rewrite lookup_insert_ne by done].
    by apply (so_known _ _ Hinv).
  - intros q t. rewrite woken_queue, elem_dq_rem, woken_core, rewait_core. intros [Hqp Hq]. rewrite decide_False by done.
    by apply (so_errcode _ _ Hinv).
  - replace (core woken_pool) with (core (rewait NULL e p A)); [rewrite rewait_size; apply Hinv|].
    unfold woken_pool, make_ready. by case_if.
Qed.

End Waking.

End Rewait.

End SemSpec.
