(* ===== verification/SemOps.v ===== *)
(** * The operations on semaphores

    Each operation of Sem.v on a state that satisfies [sem_ok]: it succeeds, keeps
    [sem_ok], and changes the view of the semaphores, [sview], as [sstep] says. *)

From S2P Require Import Prelude Sched SchedSpec SchedView SchedOps Sem SemSpec.

Module SemOps.
Import Sched SchedSpec SchedView SchedOps Sem SemSpec.

Implicit Types (st : os_s) (p q s : Z) (l : list Z) (A : pool) (m : gmap Z Z) (t : tcb_s).

(** ** Counters with queues *)

Definition sview m A : Z → option (Z * list Z) := λ s, (λ c, (Z.max 0 c, waiters A s)) <$> m !! s.

Definition becomes (S S' : Z → option (Z * list Z)) s v : Prop :=
  ∀ s', S' s' = if decide (s' = s) then Some v else S s'.

Definition unchanged (S S' : Z → option (Z * list Z)) : Prop := ∀ s, S' s = S s.

Inductive op :=
  | Wait (s : Z)
  | TryWait (s : Z)
  | Post (s : Z)
  | Irq (p err : Z)
  | Timeout (p : Z)
  | Reset (irq : bool) (s n : Z)
  | Destroy (s : Z).

(** [None]: the caller is blocked. *)

Definition returns (m : option (Z * os_s)) : option (option Z * os_s) := '(r, st) ← m; Some (Some r, st).
Definition void (m : option os_s) : option (option Z * os_s) := st ← m; Some (Some OK, st).

Definition exec st (o : op) : option (option Z * os_s) :=
  match o with
  | Wait s => nxsem_wait st s
  | TryWait s => returns (nxsem_trywait st s)
  | Post s => returns (nxsem_post st s)
  | Irq p err => void (nxsem_wait_irq st p err)
  | Timeout p => void (nxsem_timeout st p)
  | Reset irq s n => returns (nxsem_reset irq st s n)
  | Destroy s => returns (nxsem_destroy st s)
  end.

(** What the operations do: [pr] is the priority of the tasks, [r] the running one. *)

Definition given (n : Z) (v : Z * list Z) : Z * list Z :=
  (Z.max 0 (n - Z.of_nat (length v.2)), drop (Z.to_nat n) v.2).

Inductive sstep (pr : Z → Z) (r : Z) (S S' : Z → option (Z * list Z)) : op → option Z → Prop :=
  | s_take s a : S s = Some (a, []) → 0 < a → becomes S S' s (a - 1, []) → sstep pr r S S' (Wait s) (Some OK)
  | s_block s l : S s = Some (0, l) → becomes S S' s (0, enqueue pr r l) → sstep pr r S S' (Wait s) None
  | s_try s a : S s = Some (a, []) → 0 < a → becomes S S' s (a - 1, []) → sstep pr r S S' (TryWait s) (Some OK)
  | s_busy s l : S s = Some (0, l) → unchanged S S' → sstep pr r S S' (TryWait s) (Some (- EAGAIN))
  | s_wake s p l : S s = Some (0, p :: l) → becomes S S' s (0, l) → sstep pr r S S' (Post s) (Some OK)
  | s_add s a : S s = Some (a, []) → a < SEM_VALUE_MAX → becomes S S' s (a + 1, []) →
      sstep pr r S S' (Post s) (Some OK)
  | s_full s : S s = Some (SEM_VALUE_MAX, []) → unchanged S S' → sstep pr r S S' (Post s) (Some (- EOVERFLOW))
  | s_irq p err s l : S s = Some (0, l) → p ∈ l → becomes S S' s (0, dq_rem p l) →
      sstep pr r S S' (Irq p err) (Some OK)
  | s_irq_none p err : (∀ s a l, S s = Some (a, l) → p ∉ l) → unchanged S S' → sstep pr r S S' (Irq p err) (Some OK)
  | s_timeout p : sstep pr r S S' (Irq p ETIMEDOUT) (Some OK) → sstep pr r S S' (Timeout p) (Some OK)
  | s_reset irq s v n : S s = Some v → becomes S S' s (given n v) → sstep pr r S S' (Reset irq s n) (Some OK)
  | s_destroy s a : S s = Some (a, []) → becomes S S' s (1, []) → sstep pr r S S' (Destroy s) (Some OK)
  | s_destroy_busy s a p l : S s = Some (a, p :: l) → unchanged S S' → sstep pr r S S' (Destroy s) (Some OK).

(** What a task that is woken gets from [nxsem_wait]. *)

Definition wakes_with (o : op) : Z :=
  match o with Irq _ err => - err | Timeout _ => - ETIMEDOUT | _ => OK end.

Definition woken_get st A st' A' (e : Z) : Prop :=
  ∀ p, p ∈ queue A wsem → p ∉ queue A' wsem → nxsem_wait_result st' p = Some e.

(** ** A field of a task *)

Lemma upd_ok sc A p t f :
  sched_ok sc A → tcbs sc !! p = Some t →
  (∀ t, clear (f t) = f (clear t) ∧ task_state (f t) = task_state t ∧
    sched_priority (f t) = sched_priority t ∧ lockcount (f t) = lockcount t) →
  ∃ sc', upd f p sc = Some sc' ∧ sched_ok sc' (cupd f p A) ∧ current sc' = current sc.
Proof.
  intros [HV HA HR HN] Ht Hf.
  destruct (view_upd sc A p t f HV Ht) as (sc' & -> & HV' & Hc); [apply Hf..|].
  exists sc'. split; [done|]. split; [|done]. constructor; [done| | |].
  - apply pool_cupd; [done|right; apply Hf|]. intros t' Ht'. destruct (Hf t') as (_ & _ & -> & ->).
    split; [intros Hp; by apply (w_prio _ HA p)|by apply (w_lock _ HA p)].
  - unfold runs, this_task. rewrite (v_ready sc' _ HV'), Hc. exact (head_current sc A HV HR).
  - intros r Hr. simpl in Hr. destruct (HN r Hr) as [?|Hl]; [by left|right]. unfold locks in *. simpl.
    destruct (decide (r = p)) as [->|]; [|by rewrite lookup_alter_ne]. rewrite lookup_alter_eq.
    destruct (core A !! p) as [t'|]; [|done]. simpl in *. by destruct (Hf t') as (_ & _ & _ & ->).
Qed.

Ltac field := intros []; done.

(** The waits of a task that may run. *)

Lemma rewait_ok sc A p t s e :
  sched_ok sc A → tcbs sc !! p = Some t →
  ∃ sc1 sc2, upd (set_waitsem s) p sc = Some sc1 ∧ upd (set_errcode e) p sc1 = Some sc2 ∧
    sched_ok sc1 (cupd (set_waitsem s) p A) ∧ sched_ok sc2 (rewait s e p A) ∧
    current sc1 = current sc ∧ current sc2 = current sc.
Proof.
  intros Hok Ht. destruct (upd_ok sc A p t (set_waitsem s) Hok Ht) as (sc1 & E1 & Hok1 & Hc1); [field|].
  destruct (v_tcb sc1 _ (ok_view _ _ Hok1) p) as (t1 & Ht1 & _).
  { simpl. rewrite lookup_alter_eq, (v_lookup sc A (ok_view _ _ Hok) p t Ht). by eexists. }
  destruct (upd_ok sc1 _ p t1 (set_errcode e) Hok1 Ht1) as (sc2 & E2 & Hok2 & Hc2); [field|].
  exists sc1, sc2. split_and!; try done. congruence.
Qed.

(** ** A count *)

Lemma set_count m A s c :
  sem_inv m A → s ≠ NULL → c ≤ SEM_VALUE_MAX → Z.of_nat (length (waiters A s)) = Z.max 0 (- c) →
  sem_inv (<[s := c]> m) A.
Proof.
  intros [H1 H2 H3 H4 H5] Hs Hc Hl. constructor; try done.
  - intros s' c'. destruct (decide (s' = s)) as [->|].
    + rewrite lookup_insert_eq. by intros [= <-].
    + rewrite lookup_insert_ne by done. apply H1.
  - intros p Hp. destruct (decide (s = waits_for A p)) as [->|];
      [rewrite lookup_insert_eq; by eexists|rewrite lookup_insert_ne by done; by apply H3].
Qed.

Lemma sview_becomes m A A' s c :
  (∀ s' c', s' ≠ s → m !! s' = Some c' → waiters A' s' = waiters A s') →
  becomes (sview m A) (sview (<[s := c]> m) A') s (Z.max 0 c, waiters A' s).
Proof.
  intros H s'. unfold sview. case_decide as Hs; [subst; by rewrite lookup_insert_eq|].
  rewrite lookup_insert_ne by done. destruct (m !! s') as [c'|] eqn:E; [|done]. simpl. by rewrite (H s' c').
Qed.

Lemma set_waitsem_null A p : waits_for A p = NULL → pool_eq (cupd (set_waitsem NULL) p A) A.
Proof.
  intros Hw. split; [|done]. simpl. apply map_eq. intros q. destruct (decide (q = p)) as [->|]; [|by rewrite lookup_alter_ne].
  rewrite lookup_alter_eq. unfold waits_for in Hw. destruct (core A !! p) as [t|]; [|done]. simpl in *.
  f_equal. destruct t. unfold set_waitsem. simpl in *. by rewrite Hw.
Qed.

(** What a blocked call will return. *)

Definition code A p : option Z := errcode <$> core A !! p.

Lemma result_code st A p : sem_ok st A → nxsem_wait_result st p = Z.opp <$> code A p.
Proof.
  intros [[HV _ _ _] _]. unfold nxsem_wait_result, code. rewrite <- (v_core _ _ HV), lookup_fmap.
  destruct (tcbs (sched st) !! p) as [t|]; [|done]. simpl. f_equal. destruct (Z.eqb_spec (errcode t) OK) as [->|]; done.
Qed.

Lemma same_code A A' p : same_waits A A' → code A' p = code A p.
Proof.
  intros [H _]. specialize (H p). unfold code.
  destruct (core A' !! p), (core A !! p); simplify_eq/=; unfold info in *; congruence.
Qed.

Lemma waiting_code m A p : sem_inv m A → pool_ok A → p ∈ queue A wsem → code A p = Some OK.
Proof.
  intros Hi HA Hp. destruct (w_known _ HA _ _ Hp) as [t Ht]. unfold code. rewrite Ht. simpl.
  by rewrite (so_errcode _ _ Hi p t).
Qed.

(** What an operation leaves alone: the waits of other tasks, except for the caller, [X]. *)

Record frame (X : Z → Prop) A A' : Prop := {
  fr_in : ∀ q, q ∈ queue A wsem → q ∈ queue A' wsem → waits_for A' q = waits_for A q;
  fr_out : ∀ q, q ∉ queue A wsem → (¬ X q) → (q ∉ queue A' wsem) ∧ code A' q = code A q
}.

Definition nobody : Z → Prop := λ _, False.

#[global] Instance frame_refl X : Reflexive (frame X).
Proof. by split. Qed.

#[global] Instance frame_trans : Transitive (frame nobody).
Proof.
  intros A1 A2 A3 [H1 H2] [H3 H4]. split.
  - intros q Hq Hq'. destruct (decide (q ∈ queue A2 wsem)) as [Hm|Hm]; [by rewrite H3, H1|].
    destruct (H4 q Hm) as [Hq3 _]; [by intros []|done].
  - intros q Hq HX. destruct (H2 q Hq HX) as [Hq2 <-]. by apply H4.
Qed.

Lemma frame_more (X Y : Z → Prop) A A' : (∀ q, X q → Y q) → frame X A A' → frame Y A A'.
Proof. intros HXY [H1 H2]. split; [done|]. intros q Hq HY. apply H2; [done|]. intros HX. by apply HY, HXY. Qed.

Lemma frame_all X A A' : frame nobody A A' → frame X A A'.
Proof. by apply frame_more. Qed.

Lemma same_frame X A A' : same_waits A A' → frame X A A'.
Proof.
  intros H. split; [intros q _ _; by apply same_for|]. intros q Hq _. by rewrite (sw_queue _ _ H), (same_code A A').
Qed.

Lemma woken_same st A st' A' :
  sem_ok st A → sem_ok st' A' → (∀ p, code A' p = code A p) → woken_get st A st' A' OK.
Proof.
  intros Hok Hok' Hc p Hp _. rewrite (result_code st' A') by done.
  by rewrite Hc, (waiting_code _ A p (so_sems _ _ Hok) (ok_pool _ _ (so_sched _ _ Hok)) Hp).
Qed.

Lemma first_waiter tasks A s l :
  clear <$> tasks = core A → (∀ p, p ∈ l → is_Some (core A !! p)) → s ≠ NULL →
  nxsem_first_waiter tasks s l = Some (head (filter (λ p, waits_for A p = s) l)).
Proof.
  intros Hc Hl Hs. induction l as [|p l IH]; [done|]. simpl. destruct (Hl p) as [t Ht]; [set_solver|].
  rewrite <- Hc, lookup_fmap in Ht. destruct (tasks !! p) as [t'|] eqn:E; simplify_eq/=.
  assert (Hw : waits_for A p = waitsem t') by (unfold waits_for; by rewrite <- Hc, lookup_fmap, E).
  destruct (Z.eqb_spec (waitsem t') s); cbn [negb].
  - by rewrite filter_cons_True by congruence.
  - rewrite filter_cons_False by congruence. apply IH. set_solver.
Qed.

Section Ops.

Context (st : os_s) (A : pool) (Hok : sem_ok st A).

Let r := current (sched st).

Lemma running_tcb : ∃ t, this_task (sched st) = Some r ∧ tcbs (sched st) !! r = Some t ∧
  r ∈ queue A rdy ∧ head (queue A rdy) = Some r ∧ waits_for A r = NULL ∧ waitsem t = NULL.
Proof.
  destruct Hok as [Hs Hi]. destruct (head_tcb (sched st) A Hs) as (t & H1 & H2 & H3 & _). exists t.
  assert (Hin : r ∈ queue A rdy) by by apply head_Some_elem_of.
  assert (Hw : waits_for A r = NULL).
  { apply (so_ready _ _ Hi). intros H. by pose proof (w_disj _ (ok_pool _ _ Hs) _ _ _ H Hin). }
  split_and!; try done. unfold waits_for in Hw. by rewrite (v_lookup _ _ (ok_view _ _ Hs) r t H2) in Hw.
Qed.

Lemma avail_queue s c : sems st !! s = Some c → 0 < c → waiters A s = [].
Proof.
  intros Hc Hpos. destruct (so_count _ _ (so_sems _ _ Hok) s c Hc) as (_ & _ & Hl). apply nil_length_inv. lia.
Qed.

(** The running task takes a count. *)

Lemma take_count s c :
  sems st !! s = Some c → 0 < c →
  ∃ st', on_sched (upd (set_waitsem NULL) r) (set_sem st s (s16 (c - 1))) = Some st' ∧ sem_ok st' A ∧
    becomes (sview (sems st) A) (sview (sems st') A) s (c - 1, []) ∧ current (sched st') = r.
Proof.
  intros Hc Hpos. destruct running_tcb as (t & _ & Ht & _ & _ & Hw & _). destruct Hok as [Hs Hi].
  destruct (so_count _ _ Hi s c Hc) as (Hs0 & Hmax & Hl). pose proof (avail_queue s c Hc Hpos) as Hq.
  destruct (upd_ok _ A r t (set_waitsem NULL) Hs Ht) as (sc' & E & Hok' & Hc'); [field|].
  unfold on_sched. simpl sched. rewrite E. cbn [mbind option_bind]. rewrite (set_waitsem_null A r Hw) in Hok'.
  assert (Hf : s16 (c - 1) = c - 1) by (apply s16_small; unfold SEM_VALUE_MAX in Hmax; lia).
  eexists. split; [done|]. rewrite Hf. split; [|split; [|done]].
  - constructor; [done|]. simpl. apply set_count; [done|done|lia|]. rewrite Hq. simpl. lia.
  - simpl. pose proof (sview_becomes (sems st) A A s (c - 1)) as Hb. rewrite Hq in Hb. rewrite Z.max_r in Hb by lia. by apply Hb.
Qed.

Lemma blocked_frame p s : p ∈ queue A rdy → frame (eq p) A (blocked_pool A p s).
Proof.
  intros Hp. pose proof (ok_pool _ _ (so_sched _ _ Hok)) as HA. split.
  - intros q Hq _. rewrite (blocked_for A HA p Hp), decide_False; [done|]. intros ->. by apply (blocked_absent A HA p Hp).
  - intros q Hq Hne. rewrite blocked_queue, elem_enqueue. split; [naive_solver|]. unfold code.
    change (core (blocked_pool A p s)) with (core (rewait s OK p A)). by rewrite rewait_core, decide_False.
Qed.

Lemma wait_ok s c :
  sems st !! s = Some c → 0 < c ∨ r ≠ 0 →
  ∃ ret st' A', nxsem_wait st s = Some (ret, st') ∧ sem_ok st' A' ∧
    sstep (prio A) r (sview (sems st) A) (sview (sems st') A') (Wait s) ret ∧
    woken_get st A st' A' OK ∧ frame (eq r) A A'.
Proof.
  intros Hc Hr. destruct running_tcb as (t & Hth & Ht & Hin & Hh & Hw & Hwt).
  pose proof Hok as [Hs Hi]. destruct (so_count _ _ Hi s c Hc) as (Hs0 & Hmax & Hl).
  unfold nxsem_wait. rewrite Hth. cbn [mbind option_bind]. rewrite (proj2 (Z.eqb_neq _ _)) by done.
  cbn [negb DEBUGASSERT mbind option_bind]. rewrite Hc. cbn [mbind option_bind].
  assert (Hv : sview (sems st) A s = Some (Z.max 0 c, waiters A s)) by (unfold sview; by rewrite Hc).
  destruct (Z.ltb_spec 0 c) as [Hpos|Hle].
  - destruct (take_count s c Hc Hpos) as (st' & -> & Hok' & Hb & _). cbn [mbind option_bind].
    exists (Some OK), st', A. split; [done|]. split; [done|]. split; [|by split; [intros p ? ?|]].
    rewrite (avail_queue s c Hc Hpos), Z.max_r in Hv by lia. by eapply s_take.
  - assert (Hr0 : r ≠ 0) by (destruct Hr; [lia|done]). rewrite Ht. cbn [mbind option_bind]. rewrite Hwt, Z.eqb_refl.
    cbn [DEBUGASSERT mbind option_bind].
    destruct (rewait_ok _ A r t s OK Hs Ht) as (sc1 & sc2 & E1 & E2 & _ & Hok2 & _ & Hc2).
    unfold on_sched. cbn [sched set_sem]. rewrite E1. cbn [mbind option_bind sched]. rewrite E2. cbn [mbind option_bind sched].
    assert (Hn : is_Some (flink r (g_readytorun sc2))).
    { rewrite (v_ready sc2 _ (ok_view _ _ Hok2)). simpl. destruct (head_next A r (ok_pool _ _ Hs) Hr0 Hh) as (n & l & -> & _).
      rewrite flink_head. by eexists. }
    rewrite bool_decide_true by done. cbn [DEBUGASSERT mbind option_bind].
    destruct (block_ok sc2 _ Hok2 r wsem Hin Hr0 eq_refl) as (sc3 & -> & Hok3). cbn [mbind option_bind sems].
    assert (Hf : s16 (c - 1) = c - 1).
    { pose proof (waiters_few _ A s Hi (ok_pool _ _ Hs)). apply s16_small. unfold SEM_VALUE_MAX in Hmax. lia. }
    rewrite Hf. eexists None, _, _. split; [done|]. split; [|split; [|split]].
    + constructor; [exact Hok3|]. apply (blocked_inv _ A Hi (ok_pool _ _ Hs) r Hin s c Hc Hle).
    + rewrite Z.max_l in Hv by lia. apply (s_block _ _ _ _ s (waiters A s)); [done|].
      pose proof (blocked_waiters A (ok_pool _ _ Hs) r Hin s) as Hbw.
      pose proof (sview_becomes (sems st) A (blocked_pool A r s) s (c - 1)) as Hb.
      rewrite Z.max_l, Hbw, decide_True in Hb by (done || lia). apply Hb. intros s' c' Hne _. by rewrite Hbw, decide_False.
    + intros p Hp Hp'. exfalso. apply Hp'. change (p ∈ queue (blocked_pool A r s) wsem).
      rewrite (blocked_queue A r s). apply elem_enqueue. by right.
    + apply (blocked_frame r s Hin).
Qed.

Lemma trywait_ok s c :
  sems st !! s = Some c →
  ∃ ret st', nxsem_trywait st s = Some (ret, st') ∧ sem_ok st' A ∧ current (sched st') = r ∧
    sstep (prio A) r (sview (sems st) A) (sview (sems st') A) (TryWait s) (Some ret).
Proof.
  intros Hc. destruct running_tcb as (t & Hth & _). destruct (so_count _ _ (so_sems _ _ Hok) s c Hc) as (Hs0 & _).
  unfold nxsem_trywait. rewrite Hth. cbn [mbind option_bind]. rewrite (proj2 (Z.eqb_neq _ _)) by done.
  cbn [negb DEBUGASSERT mbind option_bind]. rewrite Hc. cbn [mbind option_bind].
  assert (Hv : sview (sems st) A s = Some (Z.max 0 c, waiters A s)) by (unfold sview; by rewrite Hc).
  destruct (Z.ltb_spec 0 c) as [Hpos|Hle].
  - destruct (take_count s c Hc Hpos) as (st' & -> & Hok' & Hb & Hcur). cbn [mbind option_bind].
    exists OK, st'. split; [done|]. split; [done|]. split; [done|].
    rewrite (avail_queue s c Hc Hpos), Z.max_r in Hv by lia. by eapply s_try.
  - exists (- EAGAIN), st. split; [done|]. split; [done|]. split; [done|]. rewrite Z.max_l in Hv by lia. by eapply s_busy.
Qed.

(** ** Waking a task *)

Lemma wake_sched p t e :
  p ∈ queue A wsem → tcbs (sched st) !! p = Some t →
  (∃ sc1 sc2, upd (set_waitsem NULL) p (sched st) = Some sc1 ∧ up_unblock_task p sc1 = Some sc2 ∧
    sched_ok sc2 (woken_pool A p OK)) ∧
  (∃ sc1 sc2 sc3, upd (set_waitsem NULL) p (sched st) = Some sc1 ∧ upd (set_errcode e) p sc1 = Some sc2 ∧
    up_unblock_task p sc2 = Some sc3 ∧ sched_ok sc3 (woken_pool A p e)).
Proof.
  intros Hp Ht. destruct Hok as [Hs Hi]. split.
  - destruct (rewait_ok _ A p t NULL OK Hs Ht) as (sc1 & _ & E1 & _ & Hok1 & _).
    assert (Heq : pool_eq (cupd (set_waitsem NULL) p A) (rewait NULL OK p A)).
    { split; [|done]. simpl. apply map_eq. intros q. destruct (decide (q = p)) as [->|]; [|by rewrite !lookup_alter_ne].
      rewrite !lookup_alter_eq. destruct (core A !! p) as [t'|] eqn:E; [|done]. simpl. f_equal.
      pose proof (so_errcode _ _ Hi p t' Hp E) as He. destruct t'. unfold set_errcode, set_waitsem. simpl in *. by rewrite He. }
    rewrite Heq in Hok1. destruct (unblock_ok sc1 _ Hok1 p wsem Hp eq_refl) as (sc2 & E2 & Hok2). by exists sc1, sc2.
  - destruct (rewait_ok _ A p t NULL e Hs Ht) as (sc1 & sc2 & E1 & E2 & _ & Hok2 & _).
    destruct (unblock_ok sc2 _ Hok2 p wsem Hp eq_refl) as (sc3 & E3 & Hok3). by exists sc1, sc2, sc3.
Qed.

Lemma woken_code p e q :
  p ∈ queue A wsem → code (woken_pool A p e) q = if decide (q = p) then Some e else code A q.
Proof.
  intros Hp. destruct (w_known _ (ok_pool _ _ (so_sched _ _ Hok)) _ _ Hp) as [t Ht].
  unfold code. rewrite woken_core, rewait_core. case_decide; subst; [by rewrite Ht|done].
Qed.

Lemma woken_frame X p e : p ∈ queue A wsem → frame X A (woken_pool A p e).
Proof.
  intros Hp. pose proof (ok_pool _ _ (so_sched _ _ Hok)) as HA. split.
  - intros q _. rewrite woken_queue, elem_dq_rem. intros [Hne _]. by rewrite (woken_for A HA p Hp), decide_False.
  - intros q Hq _. rewrite woken_queue, elem_dq_rem, woken_code by done. split; [naive_solver|].
    rewrite decide_False; [done|]. by intros ->.
Qed.

Lemma wake_view p s c e :
  p ∈ queue A wsem → waits_for A p = s → sems st !! s = Some c →
  c < 0 ∧ sem_inv (<[s := c + 1]> (sems st)) (woken_pool A p e) ∧
  becomes (sview (sems st) A) (sview (<[s := c + 1]> (sems st)) (woken_pool A p e)) s (0, dq_rem p (waiters A s)).
Proof.
  intros Hp Hw Hc. destruct Hok as [Hs Hi]. pose proof (ok_pool _ _ Hs) as HA.
  destruct (woken_inv _ A Hi HA p Hp e s c Hw Hc) as [Hneg Hi']. split; [done|]. split; [done|].
  destruct (so_count _ _ Hi s c Hc) as (Hs0 & _).
  pose proof (sview_becomes (sems st) A (woken_pool A p e) s (c + 1)) as Hb.
  rewrite Z.max_l in Hb by lia. rewrite (woken_waiters A HA p Hp e s) in Hb by done. apply Hb.
  intros s' c' Hne Hc'. destruct (so_count _ _ Hi s' c' Hc') as (Hs' & _).
  rewrite (woken_waiters A HA p Hp e s') by done. apply dq_rem_absent. unfold waiters. rewrite list_elem_of_filter. naive_solver.
Qed.

(** The first of the waiting tasks gets the count, or nobody waits and the count goes up. *)

Lemma post_ok s c :
  sems st !! s = Some c →
  ∃ ret st' A', nxsem_post st s = Some (ret, st') ∧ sem_ok st' A' ∧
    sstep (prio A) r (sview (sems st) A) (sview (sems st') A') (Post s) (Some ret) ∧
    (∀ p, code A' p = code A p) ∧ (c < SEM_VALUE_MAX → ret = OK ∧ sems st' !! s = Some (c + 1)) ∧ frame nobody A A'.
Proof.
  intros Hc. pose proof Hok as [Hs Hi]. pose proof (ok_pool _ _ Hs) as HA. destruct (so_count _ _ Hi s c Hc) as (Hs0 & Hmax & Hl).
  unfold nxsem_post. rewrite (proj2 (Z.eqb_neq _ _)) by done. rewrite Hc. cbn [mbind option_bind].
  assert (Hv : sview (sems st) A s = Some (Z.max 0 c, waiters A s)) by (unfold sview; by rewrite Hc).
  destruct (Z.leb_spec SEM_VALUE_MAX c) as [Hfull|Hlt].
  { exists (- EOVERFLOW), st, A. split; [done|]. split; [done|]. split; [|by split; [|split; [lia|]]]. apply s_full; [|done].
    rewrite Hv, (avail_queue s c Hc) by (unfold SEM_VALUE_MAX in *; lia). do 2 f_equal. unfold SEM_VALUE_MAX in *. lia. }
  assert (Hf : s16 (c + 1) = c + 1).
  { pose proof (waiters_few _ A s Hi HA). apply s16_small. unfold SEM_VALUE_MAX in *. lia. }
  rewrite Hf. cbn [sched set_sem]. destruct (Z.leb_spec (c + 1) 0) as [Hneg|Hpos].
  - rewrite (first_waiter _ A s) by (done || apply (ok_view _ _ Hs) || (intros p Hp; rewrite (v_queue _ _ (ok_view _ _ Hs) wsem : g_waitingforsemaphore (sched st) = _) in Hp; by eapply w_known)).
    rewrite (v_queue _ _ (ok_view _ _ Hs) wsem : g_waitingforsemaphore (sched st) = queue A wsem).
    change (filter _ (queue A wsem)) with (waiters A s). cbn [mbind option_bind].
    destruct (waiters A s) as [|p l] eqn:Ew; [simpl in Hl; lia|]. cbn [head].
    assert (Hp : p ∈ waiters A s) by (rewrite Ew; set_solver). apply list_elem_of_filter in Hp as [Hw Hp].
    destruct (v_tcb _ A (ok_view _ _ Hs) p) as (t & Ht & _); [by eapply w_known|].
    destruct (wake_sched p t OK Hp Ht) as [(sc1 & sc2 & E1 & E2 & Hok2) _].
    unfold on_sched. cbn [sched set_sem]. rewrite E1. cbn [mbind option_bind sched]. rewrite E2. cbn [mbind option_bind sems].
    destruct (wake_view p s c OK Hp Hw Hc) as (_ & Hi' & Hb).
    exists OK. eexists _, _. split; [done|]. split; [by constructor|]. split; [|split; [|split]].
    + apply (s_wake _ _ _ _ s p l); [rewrite Hv, Z.max_l by lia; done|]. rewrite Ew, dq_rem_head in Hb; [done|].
      assert (Hnd : NoDup (waiters A s)) by apply NoDup_filter, HA. rewrite Ew in Hnd. by apply NoDup_cons in Hnd as [? _].
    + intros q. rewrite woken_code by done. case_decide; [subst; by rewrite (waiting_code _ A _ Hi HA)|done].
    + intros _. split; [done|]. simpl. by rewrite lookup_insert_eq.
    + by apply woken_frame.
  - cbn [mbind option_bind]. exists OK. eexists _, A. split; [done|]. split; [|split; [|split; [done|split; [|done]; intros _; split; [done|simpl; by rewrite lookup_insert_eq]]]].
    + constructor; [done|]. simpl. apply set_count; [done|done|lia|lia].
    + assert (Hw : waiters A s = []) by (apply nil_length_inv; lia). apply (s_add _ _ _ _ s c).
      * rewrite Hv, Hw, Z.max_r by lia. done.
      * done.
      * pose proof (sview_becomes (sems st) A A s (c + 1)) as Hb. rewrite Hw, Z.max_r in Hb by lia. by apply Hb.
Qed.

(** ** Ending a wait *)

Lemma irq_ok p t err :
  tcbs (sched st) !! p = Some t →
  ∃ st' A', nxsem_wait_irq st p err = Some st' ∧ sem_ok st' A' ∧
    sstep (prio A) r (sview (sems st) A) (sview (sems st') A') (Irq p err) (Some OK) ∧
    woken_get st A st' A' (- err) ∧ frame nobody A A'.
Proof.
  intros Ht. pose proof Hok as [Hs Hi]. pose proof (ok_pool _ _ Hs) as HA. pose proof (ok_view _ _ Hs) as HV.
  unfold nxsem_wait_irq. rewrite Ht. cbn [mbind option_bind]. case_decide as Hst.
  - assert (Hp : p ∈ queue A wsem) by (pose proof (v_queued _ A HV HA p t Ht) as H; rewrite Hst in H; by apply H).
    assert (Hw : waits_for A p = waitsem t) by (unfold waits_for; by rewrite (v_lookup _ A HV p t Ht)).
    destruct (so_known _ _ Hi p Hp) as [c Hc]. rewrite Hw in Hc. destruct (so_count _ _ Hi _ c Hc) as (Hs0 & Hmax & Hl).
    destruct (wake_view p (waitsem t) c err Hp Hw Hc) as (Hneg & Hi' & Hb).
    rewrite (proj2 (Z.eqb_neq _ _)) by done. cbn [negb DEBUGASSERT mbind option_bind]. rewrite Hc. cbn [mbind option_bind].
    rewrite (proj2 (Z.ltb_lt _ _)) by done. cbn [DEBUGASSERT mbind option_bind].
    assert (Hf : s16 (c + 1) = c + 1) by (pose proof (waiters_few _ A (waitsem t) Hi HA); apply s16_small; unfold SEM_VALUE_MAX in *; lia).
    destruct (wake_sched p t err Hp Ht) as [_ (sc1 & sc2 & sc3 & E1 & E2 & E3 & Hok3)].
    unfold on_sched. cbn [sched set_sem]. rewrite E1. cbn [mbind option_bind sched]. rewrite E2. cbn [mbind option_bind sched].
    rewrite E3. cbn [mbind option_bind sems]. rewrite Hf. eexists _, (woken_pool A p err).
    assert (Hok' : sem_ok (mk_os (<[waitsem t := c + 1]> (sems st)) sc3) (woken_pool A p err)) by by constructor.
    split; [done|]. split; [done|]. split; [|split; [|by apply woken_frame]].
    + apply (s_irq _ _ _ _ p err (waitsem t) (waiters A (waitsem t))); [unfold sview; rewrite Hc; simpl; rewrite Z.max_l by lia; done| |done].
      apply list_elem_of_filter. done.
    + intros q Hq Hq'. etransitivity; [exact (result_code _ _ q Hok')|]. rewrite woken_code by done.
      rewrite woken_queue, elem_dq_rem in Hq'. rewrite decide_True; [done|]. destruct (decide (q = p)); naive_solver.
  - exists st, A. split; [done|]. split; [done|]. split; [|by split; [intros q ? ?|]].
    apply s_irq_none; [|done]. intros s a l. unfold sview. destruct (sems st !! s); [|done]. intros [= <- <-].
    unfold waiters. rewrite list_elem_of_filter. intros [_ Hp]. apply Hst.
    rewrite (v_in _ A HV HA wsem p t Hp Ht). done.
Qed.

Lemma timeout_ok p :
  ∃ st' A', nxsem_timeout st p = Some st' ∧ sem_ok st' A' ∧
    sstep (prio A) r (sview (sems st) A) (sview (sems st') A') (Timeout p) (Some OK) ∧
    woken_get st A st' A' (- ETIMEDOUT) ∧ frame nobody A A'.
Proof.
  unfold nxsem_timeout. destruct (tcbs (sched st) !! p) as [t|] eqn:Ht.
  - destruct (irq_ok p t ETIMEDOUT Ht) as (st' & A' & E & Hok' & Hs & Hw). case_decide as Hst.
    + exists st', A'. split; [done|]. split; [done|]. split; [by apply s_timeout|done].
    + unfold nxsem_wait_irq in E. rewrite Ht in E. cbn [mbind option_bind] in E. rewrite decide_False in E by done. simplify_eq.
      exists st', A'. split; [done|]. split; [done|]. split; [by apply s_timeout|done].
  - exists st, A. split; [done|]. split; [done|]. split; [|by split; [intros q ? ?|]]. apply s_timeout, s_irq_none; [|done].
    intros s a l. unfold sview. destruct (sems st !! s); [|done]. intros [= <- <-]. unfold waiters.
    rewrite list_elem_of_filter. intros [_ Hp]. destruct (w_known _ (ok_pool _ _ (so_sched _ _ Hok)) _ _ Hp) as [c Hc].
    rewrite <- (v_core _ _ (ok_view _ _ (so_sched _ _ Hok))), lookup_fmap, Ht in Hc. done.
Qed.

Lemma destroy_ok s c :
  sems st !! s = Some c →
  ∃ st', nxsem_destroy st s = Some (OK, st') ∧ sem_ok st' A ∧
    sstep (prio A) r (sview (sems st) A) (sview (sems st') A) (Destroy s) (Some OK).
Proof.
  intros Hc. destruct Hok as [Hs Hi]. destruct (so_count _ _ Hi s c Hc) as (Hs0 & Hmax & Hl).
  unfold nxsem_destroy. rewrite (proj2 (Z.eqb_neq _ _)) by done. rewrite Hc. cbn [mbind option_bind].
  destruct (Z.leb_spec 0 c) as [H0|Hneg].
  - assert (Hw : waiters A s = []) by (apply nil_length_inv; lia). eexists. split; [done|]. split.
    + constructor; [done|]. simpl. apply set_count; [done|done|done|]. by rewrite Hw.
    + apply (s_destroy _ _ _ _ s (Z.max 0 c)); [unfold sview; by rewrite Hc, <- Hw|].
      pose proof (sview_becomes (sems st) A A s 1) as Hb. rewrite Hw in Hb. by apply Hb.
  - exists st. split; [done|]. split; [by constructor|]. destruct (waiters A s) as [|p l] eqn:Ew; [simpl in Hl; lia|].
    apply (s_destroy_busy _ _ _ _ s (Z.max 0 c) p l); [|done]. unfold sview. by rewrite Hc, <- Ew.
Qed.

End Ops.

(** ** Resetting a semaphore *)

Lemma becomes_trans S S1 S2 s v1 v2 : becomes S S1 s v1 → becomes S1 S2 s v2 → becomes S S2 s v2.
Proof. intros H1 H2 s'. rewrite H2. case_decide; [done|]. by rewrite H1, decide_False. Qed.

Lemma reset_loop_ok fuel n st A s c :
  sem_ok st A → sems st !! s = Some c → 0 ≤ n → (Z.to_nat n < fuel)%nat →
  let k := Z.min n (Z.max 0 (- c)) in
  ∃ st' A', nxsem_reset_loop fuel st s n = Some (n - k, st') ∧ sem_ok st' A' ∧ sems st' !! s = Some (c + k) ∧
    becomes (sview (sems st) A) (sview (sems st') A') s (Z.max 0 (c + k), drop (Z.to_nat k) (waiters A s)) ∧
    (∀ p, code A' p = code A p) ∧ frame nobody A A'.
Proof.
  revert n st A c. induction fuel as [|fuel IH]; intros n st A c Hok Hc Hn Hfuel k; [lia|].
  simpl. rewrite Hc. cbn [mbind option_bind].
  destruct (so_count _ _ (so_sems _ _ Hok) s c Hc) as (Hs0 & Hmax & Hl).
  destruct ((c <? 0) && (0 <? n)) eqn:Hb.
  - assert (Hcn : c < 0 ∧ 0 < n) by lia.
    destruct (post_ok st A Hok s c Hc) as (ret & st1 & A1 & -> & Hok1 & Hstep & Hcode1 & Hret & Hfr1).
    destruct Hret as [-> Hc1]; [unfold SEM_VALUE_MAX; lia|]. cbn [mbind option_bind DEBUGASSERT].
    assert (Hv : sview (sems st) A s = Some (0, waiters A s)) by (unfold sview; rewrite Hc; simpl; by rewrite Z.max_l by lia).
    assert (Hw : ∃ p, waiters A s = p :: waiters A1 s ∧ becomes (sview (sems st) A) (sview (sems st1) A1) s (0, waiters A1 s)).
    { inversion Hstep as [| | | |? p l Hv1 Hb1|? a Hv1 _ _| | | | | | |]; subst; rewrite Hv in Hv1; simplify_eq.
      - exists p. specialize (Hb1 s) as Hs. rewrite decide_True in Hs by done. unfold sview in Hs. rewrite Hc1 in Hs.
        simpl in Hs. assert (El : l = waiters A1 s) by congruence. by rewrite <- El.
      - replace (waiters A s) with (@nil Z) in Hl by done. simpl in Hl. lia. }
    destruct Hw as (p & Hw & Hb1).
    destruct (IH (n - 1) st1 A1 (c + 1) Hok1 Hc1) as (st' & A' & -> & Hok' & Hc' & Hb' & Hcode' & Hfr'); [lia|lia|].
    set (k' := Z.min (n - 1) _) in *. assert (Hk : k = k' + 1) by lia. exists st', A'.
    replace (n - 1 - k') with (n - k) by lia. replace (c + 1 + k') with (c + k) in * by lia.
    split; [done|]. split; [done|]. split; [done|]. split; [|split; [intros q; by rewrite Hcode'|by etransitivity]].
    replace (Z.to_nat k) with (S (Z.to_nat k')) by lia. rewrite Hw. by eapply becomes_trans.
  - exists st, A. assert (Hk : k = 0) by lia. rewrite Hk, Z.sub_0_r, Z.add_0_r. split; [done|]. split; [done|]. split; [done|].
    split; [|done]. intros s'. case_decide; [subst; unfold sview; by rewrite Hc|done].
Qed.

(** The preemption lock does not concern the semaphores. *)

Lemma lock_sem irq st A :
  sem_ok st A → irq = true ∨ locks A (current (sched st)) < MAX_LOCK_COUNT →
  ∃ st' A', on_sched (sched_lock irq) st = Some st' ∧ sem_ok st' A' ∧ sems st' = sems st ∧ same_waits A A' ∧
    queue A' wsem = queue A wsem.
Proof.
  intros [Hs Hi] Hl. unfold on_sched. destruct irq.
  - rewrite lock_irq. exists (mk_os (sems st) (sched st)), A. split; [done|]. by split_and!.
  - destruct (lock_ok _ A Hs) as (sc' & -> & _ & Hok'); [by destruct Hl|]. cbn [mbind option_bind].
    eexists _, _. split; [done|]. assert (Hsw : same_waits A (cupd (set_lockcount (locks A (current (sched st)) + 1)) (current (sched st)) A)) by by apply same_cupd.
    split; [constructor; [done|by eapply same_inv]|done].
Qed.

Lemma same_unlock A r : same_waits A (unlock r A).
Proof.
  unfold unlock. case_if; [by apply same_cupd|]. etransitivity; [by apply (same_cupd A (set_lockcount 0) r)|apply same_release].
Qed.

Lemma unlock_sem irq st A :
  sem_ok st A →
  ∃ st' A', on_sched (sched_unlock irq) st = Some st' ∧ sem_ok st' A' ∧ sems st' = sems st ∧ same_waits A A' ∧
    queue A' wsem = queue A wsem.
Proof.
  intros [Hs Hi]. unfold on_sched. destruct irq.
  - rewrite unlock_irq. exists (mk_os (sems st) (sched st)), A. split; [done|]. by split_and!.
  - destruct (unlock_ok _ A Hs) as (sc' & -> & Hok'). cbn [mbind option_bind].
    eexists _, _. split; [done|]. pose proof (same_unlock A (current (sched st))) as Hsw.
    split; [constructor; [done|by eapply same_inv]|]. split; [done|]. split; [done|]. unfold unlock. by case_if.
Qed.

Lemma same_sview m A A' : same_waits A A' → queue A' wsem = queue A wsem → ∀ s, sview m A' s = sview m A s.
Proof. intros H Hq s. unfold sview. by rewrite (same_waiters_eq A A' s H Hq). Qed.

Lemma becomes_ext S S1 S2 S3 s v :
  (∀ x, S1 x = S x) → becomes S1 S2 s v → (∀ x, S3 x = S2 x) → becomes S S3 s v.
Proof. intros H1 H2 H3 s'. by rewrite H3, H2, H1. Qed.

Lemma reset_count S W st A s c n :
  let k := Z.min n (Z.max 0 (- c)) in
  sem_ok st A → s ≠ NULL → 0 ≤ n ≤ SEM_VALUE_MAX → Z.of_nat (length W) = Z.max 0 (- c) →
  sems st !! s = Some (c + k) → becomes S (sview (sems st) A) s (Z.max 0 (c + k), drop (Z.to_nat k) W) →
  let st' := if 0 <=? c + k then set_sem st s (n - k) else st in
  sem_ok st' A ∧ becomes S (sview (sems st') A) s (given n (Z.max 0 c, W)).
Proof.
  intros k [Hs Hi] Hs0 Hn HW Hc Hb. assert (Hw : waiters A s = drop (Z.to_nat k) W).
  { specialize (Hb s). rewrite decide_True in Hb by done. unfold sview in Hb. rewrite Hc in Hb. by simplify_eq/=. }
  pose proof (length_drop W (Z.to_nat k)) as Hd. destruct (Z.leb_spec 0 (c + k)) as [Hle|Hlt]; unfold given; simpl.
  - assert (Hnil : waiters A s = []) by (rewrite Hw; apply nil_length_inv; lia). split.
    + constructor; [done|]. simpl. apply set_count; [done|done|lia|]. rewrite Hnil. simpl. lia.
    + eapply becomes_trans; [exact Hb|]. pose proof (sview_becomes (sems st) A A s (n - k)) as Hb'.
      rewrite drop_ge by lia. rewrite Hnil in Hb'. replace (Z.max 0 (n - Z.of_nat (length W))) with (Z.max 0 (n - k)) by lia.
      by apply Hb'.
  - split; [by constructor|]. assert (Hk : k = n) by lia. rewrite <- Hk at 2.
    replace (Z.max 0 (n - Z.of_nat (length W))) with (Z.max 0 (c + k)) by lia. exact Hb.
Qed.

Lemma reset_ok irq st A s c n :
  sem_ok st A → sems st !! s = Some c → 0 ≤ n ≤ SEM_VALUE_MAX →
  irq = true ∨ locks A (current (sched st)) < MAX_LOCK_COUNT →
  ∃ st' A', nxsem_reset irq st s n = Some (OK, st') ∧ sem_ok st' A' ∧
    sstep (prio A) (current (sched st)) (sview (sems st) A) (sview (sems st') A') (Reset irq s n) (Some OK) ∧
    woken_get st A st' A' OK ∧ frame nobody A A'.
Proof.
  intros Hok Hc Hn Hlk. destruct (so_count _ _ (so_sems _ _ Hok) s c Hc) as (Hs0 & Hmax & Hl). unfold nxsem_reset.
  rewrite (proj2 (Z.eqb_neq _ _)), (proj2 (Z.leb_le _ _)) by (done || lia). cbn [negb andb DEBUGASSERT mbind option_bind].
  destruct (lock_sem irq st A Hok Hlk) as (st1 & A1 & -> & Hok1 & Hm1 & Hsw1 & Hq1). cbn [mbind option_bind].
  assert (Hc1 : sems st1 !! s = Some c) by by rewrite Hm1.
  destruct (reset_loop_ok (S (Z.to_nat n)) n st1 A1 s c Hok1 Hc1) as (st2 & A2 & -> & Hok2 & Hc2 & Hb2 & Hcode2 & Hfr2); [lia|lia|].
  cbn [mbind option_bind]. rewrite Hc2. cbn [mbind option_bind]. set (k := Z.min n _) in *.
  pose proof (same_sview (sems st) A A1 Hsw1 Hq1) as Hsv1. rewrite (same_waiters_eq A A1 s Hsw1 Hq1), Hm1 in Hb2.
  set (st3 := if 0 <=? c + k then _ else st2).
  destruct (reset_count (sview (sems st) A) (waiters A s) st2 A2 s c n) as [Hok3 Hb3]; [done..| |].
  { by eapply (becomes_ext _ (sview (sems st) A1)). }
  destruct (unlock_sem irq st3 A2 Hok3) as (st4 & A4 & -> & Hok4 & Hm4 & Hsw4 & Hq4). cbn [mbind option_bind].
  exists st4, A4. split; [done|]. split; [done|]. split; [|split].
  - eapply s_reset; [unfold sview; by rewrite Hc|]. eapply (becomes_ext _ (sview (sems st) A)); [done|exact Hb3|]. rewrite Hm4. by apply same_sview.
  - apply woken_same; [done|done|]. intros p. by rewrite (same_code A2 A4), Hcode2, (same_code A A1).
  - etransitivity; [by apply same_frame|]. etransitivity; [exact Hfr2|by apply same_frame].
Qed.

End SemOps.
