(* ===== verification/Task.v ===== *)
(** * The end of a task (sched/task)

    [nxtask_terminate] takes a task off its list, gives back what it holds, wakes the
    tasks in [waitpid] and frees the TCB; [nxtask_exit] does it for the running task.

    Of the group of a task the model has the number of members and the exit semaphore.
    The build has CONFIG_SCHED_WAITPID without CONFIG_SCHED_HAVE_PARENT; callbacks at
    exit, streams, files and pending signals do not concern the scheduler and are left
    out. *)

From S2P Require Import Prelude Sched Sem.

Module Task.
Import Sched Sem.

Definition ESRCH : Z := 3.
Definition TCB_FLAG_EXIT_PROCESSING : Z := Z.shiftl 1 10.

Record task_group_s := mk_group { tg_nmembers : Z; tg_exitsem : Z }.

Definition set_flags (f : Z) (t : tcb_s) : tcb_s :=
  mk_tcb (sched_priority t) (task_state t) f (lockcount t) (errcode t) (timeslice t) (waitsem t).

(** [while (group->tg_exitsem.semcount < 0) nxsem_post (&group->tg_exitsem)] *)

Fixpoint nxtask_exitwakeup_loop (fuel : nat) (st : os_s) (exitsem : Z) : option os_s :=
  match fuel with
  | O => None
  | S fuel =>
      c ← sems st !! exitsem;
      if c <? 0 then '(_, st) ← nxsem_post st exitsem; nxtask_exitwakeup_loop fuel st exitsem else Some st
  end.

Definition nxtask_exitwakeup (st : os_s) (group : option task_group_s) : option os_s :=
  match group with
  | Some g =>
      if tg_nmembers g =? 1 then
        c ← sems st !! tg_exitsem g;
        nxtask_exitwakeup_loop (S (Z.to_nat (- c))) st (tg_exitsem g)
      else Some st
  | None => Some st
  end.

Definition nxtask_exithook (st : os_s) (tcb : Z) (group : option task_group_s) : option os_s :=
  t ← tcbs (sched st) !! tcb;
  if negb (Z.land (flags t) TCB_FLAG_EXIT_PROCESSING =? 0) then Some st
  else
    st ← nxsem_recover st tcb;
    st ← nxtask_exitwakeup st group;
    t ← tcbs (sched st) !! tcb;
    on_sched (upd (set_flags (Z.lor (flags t) TCB_FLAG_EXIT_PROCESSING)) tcb) st.

Definition release_tcb (tcb : Z) (st : sched_s) : sched_s :=
  mk_sched (delete tcb (tcbs st)) (g_readytorun st) (g_pendingtasks st) (g_inactivetasks st)
    (g_waitingforsemaphore st) (g_waitingforsignal st) (g_waitingformqnotempty st)
    (g_waitingformqnotfull st) (current st).

Definition nxtask_terminate (st : os_s) (pid : Z) (group : option task_group_s) : option (Z * os_s) :=
  match tcbs (sched st) !! pid with
  | None => Some (- ESRCH, st)
  | Some dt =>
      let s := task_state dt in
      DEBUGASSERT (bool_decide (s ≠ TSTATE_TASK_RUNNING)) ;;
      let st := mk_os (sems st) (set_tlist s (dq_rem pid (TLIST_HEAD s (sched st))) (sched st)) in
      st ← nxtask_exithook st pid group;
      Some (OK, mk_os (sems st) (release_tcb pid (sched st)))
  end.

(** [rtcb] is locked and marked as not running while the old task is torn down. *)

Definition nxtask_exit (st : os_s) (group : option task_group_s) : option (Z * os_s) :=
  dtcb ← this_task (sched st);
  '(_, sc) ← nxsched_remove_readytorun dtcb (sched st);
  '(_, sc) ← merge_if_pending sc;
  rtcb ← this_task sc;
  rt ← tcbs sc !! rtcb;
  sc ← upd (set_lockcount (lockcount rt + 1)) rtcb sc;
  sc ← upd (set_state TSTATE_TASK_READYTORUN) rtcb sc;
  sc ← nxsched_add_blocked dtcb TSTATE_TASK_INACTIVE sc;
  '(ret, st) ← nxtask_terminate (mk_os (sems st) sc) dtcb group;
  st ← on_sched (upd (set_state TSTATE_TASK_RUNNING) rtcb) st;
  rt ← tcbs (sched st) !! rtcb;
  st ← on_sched (upd (set_lockcount (lockcount rt - 1)) rtcb) st;
  Some (ret, st).

Definition up_exit (st : os_s) (group : option task_group_s) : option os_s :=
  '(_, st) ← nxtask_exit st group;
  on_sched (switch_context true) st.

End Task.
