(* ===== verification/TaskOps.v ===== *)
(** * What is left when a task ends

    The lists and the semaphores after [nxtask_terminate] and [up_exit]. *)

From S2P Require Import Prelude Sched SchedSpec SchedView SchedOps Sem SemSpec SemOps Task.

Module TaskOps.
Import Sched SchedSpec SchedView SchedOps Sem SemSpec SemOps Task.

Implicit Types (st : os_s) (sc : sched_s) (p q s : Z) (l : list Z) (A : pool) (t : tcb_s) (k : tstate_t).

(** ** A task that is gone *)

Definition erase p A : pool := mk_pool (delete p (core A)) (queue A).
Definition gone k p A : pool := erase p (take k p A).

Lemma pool_erase A p : pool_ok A → loose A p → pool_ok (erase p A).
Proof.
  intros HA Hl. assert (Hne : ∀ k q, q ∈ queue A k → q ≠ p) by (intros k q Hq ->; by apply (Hl k)).
  assert (Hpr : ∀ q, q ≠ p → prio (erase p A) q = prio A q).
  { intros q Hq. unfold prio. simpl. by rewrite lookup_delete_ne. }
  constructor.
  - apply HA.
  - intros k q Hq. simpl. rewrite lookup_delete_ne by (symmetry; by eapply Hne). by apply (w_known _ HA k q).
  - apply HA.
  - apply HA.
  - intros k Hk. eapply sorted_impl; [|by apply (w_sorted _ HA k)]. intros x y Hx Hy. unfold descending.
    rewrite !Hpr; [done|by eapply Hne..].
  - split; [apply HA|]. rewrite Hpr; [apply HA|]. symmetry. apply not_eq_sym, (Hne rdy), HA.
  - intros q t Hq. simpl. intros [_ Ht]%lookup_delete_Some. by apply (w_prio _ HA q t).
  - intros q t. simpl. intros [_ Ht]%lookup_delete_Some. by apply (w_lock _ HA q t).
Qed.

Lemma pool_gone A k p : pool_ok A → p ∈ queue A k → p ≠ 0 → pool_ok (gone k p A).
Proof. intros HA Hp Hp0. destruct (pool_take A k p HA Hp Hp0) as [HA' Hl]. by apply pool_erase. Qed.

(** The list and the TCB are all that changes. *)

Lemma gone_ok sc A k p sc' :
  sched_ok sc A → p ∈ queue A k → p ≠ 0 → p ≠ current sc →
  clear <$> tcbs sc' = clear <$> delete p (tcbs sc) →
  (∀ q, task_state <$> tcbs sc' !! q = task_state <$> delete p (tcbs sc) !! q) → current sc' = current sc →
  (∀ x, TLIST_HEAD x sc' = if decide (norm x = k) then dq_rem p (TLIST_HEAD x sc) else TLIST_HEAD x sc) →
  sched_ok sc' (gone k p A).
Proof.
  intros Hok Hp Hp0 Hcur Ht Hst Hc Hl. destruct (head_tcb sc A Hok) as (tc & _ & _ & Hh & _).
  destruct Hok as [HV HA HR HN]. pose proof (pool_gone A k p HA Hp Hp0) as HA'.
  assert (Hhd : head (queue (take k p A) rdy) = Some (current sc)) by (rewrite take_head; [done|congruence]).
  assert (HV' : view sc' (gone k p A)).
  { constructor.
    - rewrite Ht, fmap_delete. simpl. by rewrite (v_core _ _ HV).
    - intros s. rewrite Hl, (v_queue _ _ HV). simpl. case_decide as Hk; [by rewrite <- Hk|done].
    - intros q t Hq. specialize (Hst q). rewrite Hq in Hst. destruct (delete p (tcbs sc) !! q) as [t0|] eqn:E; simplify_eq/=.
      apply lookup_delete_Some in E as [Hqp E]. rewrite Hst.
      change (has_state (gone k p A) q (task_state t0)) with (has_state (take k p A) q (task_state t0)).
      apply take_state; [done|done|done| |by apply HV]. intros ->. congruence. }
  constructor; [done|done| |].
  - unfold runs, this_task. rewrite (v_ready sc' _ HV'), Hc. exact Hhd.
  - intros r Hr. assert (Hrc : r = current sc) by (change (head (queue (take k p A) rdy) = Some r) in Hr; congruence). subst r.
    destruct (HN _ Hh) as [H0|H0].
    + left. simpl. case_decide as Hd; [rewrite <- Hd in *|done]. rewrite H0 in Hp. set_solver.
    + right. unfold locks in *. simpl. by rewrite lookup_delete_ne.
Qed.

(** ** Semaphores without the task *)

Lemma erase_for A p q : q ≠ p → waits_for (erase p A) q = waits_for A q.
Proof. intros Hq. unfold waits_for. simpl. by rewrite lookup_delete_ne. Qed.

Lemma few_erase k p A :
  Z.of_nat (base.size (core A)) < 2 ^ 15 → Z.of_nat (base.size (core (gone k p A))) < 2 ^ 15.
Proof.
  intros H. eapply Z.le_lt_trans; [|exact H]. apply Nat2Z.inj_le. simpl.
  rewrite <- !(size_dom (D := gset Z)). apply subseteq_size. rewrite dom_delete_L. set_solver.
Qed.

Lemma gone_waiters A k p s :
  pool_ok A → p ∈ queue A k → s ≠ NULL → (k ≠ wsem → waits_for A p = NULL) →
  waiters (gone k p A) s = dq_rem p (waiters A s).
Proof.
  intros HA Hp Hs Hw. unfold waiters. simpl. assert (Hd : dq_rem p (filter (λ q, waits_for A q = s) (queue A wsem)) =
    filter (λ q, waits_for (gone k p A) q = s) (dq_rem p (queue A wsem))).
  { unfold dq_rem. rewrite !list_filter_filter. apply filter_tasks. intros q _. destruct (decide (q = p)) as [->|]; [tauto|].
    unfold gone. rewrite erase_for by done. unfold waits_for. simpl. tauto. }
  rewrite Hd. case_decide as Hk; [by subst|]. rewrite dq_rem_absent; [done|].
  intros Hq. apply Hk. symmetry. by apply (w_disj _ HA wsem k p) in Hp.
Qed.

Lemma gone_inv m A k p :
  sem_inv m A → pool_ok A → p ∈ queue A k → k ≠ wsem → sem_inv m (gone k p A).
Proof.
  intros Hi HA Hp Hk. assert (Hnq : p ∉ queue A wsem) by (intros Hq; apply Hk; by eapply w_disj).
  assert (Hw : waits_for A p = NULL) by by apply (so_ready _ _ Hi).
  assert (Hq : queue (gone k p A) wsem = queue A wsem) by (simpl; by rewrite decide_False).
  destruct Hi as [H1 H2 H3 H4 H5]. constructor.
  - intros s c Hc. destruct (H1 s c Hc) as (Hs & Hm & Hl). rewrite (gone_waiters A k p s) by done.
    rewrite dq_rem_absent; [done|]. unfold waiters. rewrite list_elem_of_filter. naive_solver.
  - intros q. rewrite Hq. intros Hn. unfold waits_for. simpl. destruct (decide (q = p)) as [->|]; [by rewrite lookup_delete_eq|].
    rewrite lookup_delete_ne by done. by apply H2.
  - intros q. rewrite Hq. intros Hin. unfold gone. rewrite erase_for by (intros ->; done). by apply H3.
  - intros q t. rewrite Hq. intros Hin. simpl. intros [_ Ht]%lookup_delete_Some. by eapply H4.
  - by apply few_erase.
Qed.

(** The count that a waiting task asked for is there again. *)

Lemma gone_waiter_inv m A p s c :
  sem_inv m A → pool_ok A → p ∈ queue A wsem → waits_for A p = s → m !! s = Some c →
  c < 0 ∧ sem_inv (<[s := c + 1]> m) (gone wsem p A).
Proof.
  intros Hi HA Hp Hw Hc. destruct (so_count _ _ Hi s c Hc) as (Hs0 & Hmax & Hl).
  assert (Hnd : NoDup (waiters A s)) by apply NoDup_filter, HA.
  rewrite (dq_rem_perm p _ Hnd) in Hl by by apply list_elem_of_filter. simpl in Hl. split; [lia|].
  assert (Hq : ∀ q, q ∈ queue (gone wsem p A) wsem ↔ q ≠ p ∧ q ∈ queue A wsem) by (intros q; apply elem_dq_rem).
  constructor.
  - intros s' c'. destruct (decide (s' = s)) as [->|Hne].
    + rewrite lookup_insert_eq. intros [= <-]. rewrite gone_waiters by done. unfold SEM_VALUE_MAX in *. split_and!; [done|lia..].
    + rewrite lookup_insert_ne by done. intros Hc'. destruct (so_count _ _ Hi s' c' Hc') as (Hs' & Hr).
      rewrite gone_waiters, dq_rem_absent by (done || unfold waiters; rewrite list_elem_of_filter; naive_solver). done.
  - intros q Hn. rewrite Hq in Hn. destruct (decide (q = p)) as [->|]; [unfold waits_for; simpl; by rewrite lookup_delete_eq|].
    unfold gone. rewrite erase_for by done. apply (so_ready _ _ Hi). naive_solver.
  - intros q Hn. rewrite Hq in Hn. unfold gone. rewrite erase_for by naive_solver.
    destruct (decide (s = waits_for A q)) as [->|Hne]; [rewrite lookup_insert_eq; by eexists|].
    rewrite lookup_insert_ne by done. apply (so_known _ _ Hi). naive_solver.
  - intros q t Hn. rewrite Hq in Hn. simpl. intros [_ Ht]%lookup_delete_Some. apply (so_errcode _ _ Hi q t); naive_solver.
  - apply few_erase, Hi.
Qed.

(** ** [nxtask_terminate] *)

(** Nobody is in [waitpid] for the last task of its group. *)

Definition quiet (m : gmap Z Z) (group : option task_group_s) : bool :=
  match group with
  | Some g => negb (tg_nmembers g =? 1) || match m !! tg_exitsem g with Some c => 0 <=? c | None => false end
  | None => true
  end.

Lemma quiet_wakeup st group : quiet (sems st) group = true → nxtask_exitwakeup st group = Some st.
Proof.
  unfold quiet, nxtask_exitwakeup. destruct group as [g|]; [|done]. destruct (tg_nmembers g =? 1); [|done]. simpl.
  destruct (sems st !! tg_exitsem g) as [c|] eqn:Hc; [|done]. intros H. cbn [mbind option_bind]. by rewrite (proj2 (Z.ltb_ge _ _)) by lia.
Qed.

Lemma quiet_more (m : gmap Z Z) s c group : m !! s = Some c → quiet m group = true → quiet (<[s := c + 1]> m) group = true.
Proof.
  intros Hc. unfold quiet. destruct group as [g|]; [|done]. destruct (tg_nmembers g =? 1); [|done]. simpl.
  destruct (decide (tg_exitsem g = s)) as [->|]; [rewrite Hc, lookup_insert_eq; lia|by rewrite lookup_insert_ne].
Qed.

Section Terminate.

Context (sc : sched_s) (A : pool) (Hok : sched_ok sc A) (p : Z) (k : tstate_t).
Context (Hp : p ∈ queue A k) (Hp0 : p ≠ 0) (Hcur : p ≠ current sc).

(** The TCB is on no list any more; its fields do not matter. *)

Definition unlisted sc1 : Prop :=
  (∀ q, q ≠ p → tcbs sc1 !! q = tcbs sc !! q) ∧ is_Some (tcbs sc1 !! p) ∧ current sc1 = current sc ∧
  ∀ x, TLIST_HEAD x sc1 = if decide (norm x = k) then dq_rem p (TLIST_HEAD x sc) else TLIST_HEAD x sc.

Lemma unlisted_upd f sc1 : unlisted sc1 → ∃ sc2, upd f p sc1 = Some sc2 ∧ unlisted sc2.
Proof.
  intros (H1 & [t Ht] & H3 & H4). destruct (upd_Some f p sc1 t Ht) as (sc2 & E & Htcb & Hc & Hl). exists sc2. split; [done|].
  split_and!; [|rewrite Htcb, lookup_insert_eq; by eexists|congruence|intros x; by rewrite Hl].
  intros q Hq. by rewrite Htcb, lookup_insert_ne, H1.
Qed.

Lemma unlisted_rest sc1 : unlisted sc1 →
  tcbs (release_tcb p sc1) = delete p (tcbs sc) ∧ current (release_tcb p sc1) = current sc ∧
  ∀ x, TLIST_HEAD x (release_tcb p sc1) = dq_rem p (TLIST_HEAD x sc).
Proof.
  intros (H1 & _ & H3 & H4). split; [|split; [done|]].
  - simpl. apply map_eq. intros q. destruct (decide (q = p)) as [->|]; [by rewrite !lookup_delete_eq|].
    by rewrite !lookup_delete_ne, H1.
  - intros x. transitivity (TLIST_HEAD x sc1); [by destruct x|]. rewrite H4. case_decide as Hx; [done|].
    symmetry. apply dq_rem_absent. rewrite (v_queue _ _ (ok_view _ _ Hok)). intros Hq. apply Hx.
    by apply (w_disj _ (ok_pool _ _ Hok) _ k p) in Hq.
Qed.

Lemma unlisted_released sc1 : unlisted sc1 → sched_ok (release_tcb p sc1) (gone k p A).
Proof.
  intros Hun. pose proof Hun as (_ & _ & H3 & H4). destruct (unlisted_rest sc1 Hun) as [E _].
  apply (gone_ok sc A k p); [done|done|done|done|by rewrite E|intros q; by rewrite E|done|].
  intros x. rewrite <- H4. by destruct x.
Qed.

Lemma unlisted_first t :
  tcbs sc !! p = Some t → task_state t ≠ TSTATE_TASK_RUNNING ∧
  unlisted (set_tlist (task_state t) (dq_rem p (TLIST_HEAD (task_state t) sc)) sc) ∧ norm (task_state t) = k.
Proof.
  intros Ht. destruct (head_tcb sc A Hok) as (tc & _ & _ & Hh & _). destruct Hok as [HV HA HR HN].
  pose proof (v_norm sc A HV HA k p t Hp Ht) as Hn. pose proof (v_in sc A HV HA k p t Hp Ht) as Hs. split; [|split; [|done]].
  - intros E. rewrite E in Hs. unfold state_in in Hs. repeat case_decide; try congruence.
    rewrite <- Hs in Hp. by destruct (w_proper _ HA TSTATE_TASK_RUNNING p Hp).
  - assert (Hs0 : task_state t ≠ TSTATE_TASK_INVALID) by (intros E; rewrite E in Hn; rewrite <- Hn in Hp; by destruct (w_proper _ HA TSTATE_TASK_INVALID p Hp)).
    split_and!; [by rewrite tcbs_set|rewrite tcbs_set; by eexists|by rewrite current_set|].
    intros x. rewrite tlist_set, Hn by done. case_decide as Hx; [|done]. by rewrite !(v_queue _ _ HV), Hn, Hx.
Qed.

Lemma unlisted_hook m sc1 group :
  quiet m group = true → unlisted sc1 →
  ∃ sc2, (st ← nxtask_exitwakeup (mk_os m sc1) group;
          t ← tcbs (sched st) !! p;
          on_sched (upd (set_flags (Z.lor (flags t) TCB_FLAG_EXIT_PROCESSING)) p) st) = Some (mk_os m sc2) ∧ unlisted sc2.
Proof.
  intros Hq Hun. rewrite quiet_wakeup by done. cbn [mbind option_bind sched].
  pose proof Hun as (_ & [t Ht] & _). rewrite Ht. cbn [mbind option_bind].
  destruct (unlisted_upd (set_flags (Z.lor (flags t) TCB_FLAG_EXIT_PROCESSING)) sc1 Hun) as (sc2 & E & Hun2).
  exists sc2. unfold on_sched. simpl sched. by rewrite E.
Qed.

End Terminate.

(** Each semaphore loses the task from its queue. *)

Lemma gone_sview m m' A k p :
  sem_inv m A → pool_ok A → p ∈ queue A k →
  (m' = m ∧ k ≠ wsem ∨ ∃ s c, k = wsem ∧ waits_for A p = s ∧ m !! s = Some c ∧ c < 0 ∧ m' = <[s := c + 1]> m) →
  ∀ s, sview m' (gone k p A) s = (λ v, (v.1, dq_rem p v.2)) <$> sview m A s.
Proof.
  intros Hi HA Hp Hm s. assert (Hw : k ≠ wsem → waits_for A p = NULL).
  { intros Hk. apply (so_ready _ _ Hi). intros Hq. apply Hk. by eapply w_disj. }
  assert (Hg : ∀ c, m !! s = Some c → waiters (gone k p A) s = dq_rem p (waiters A s)).
  { intros c Hc. apply gone_waiters; [done|done| |done]. by destruct (so_count _ _ Hi s c Hc). }
  unfold sview. destruct Hm as [[-> _]|(s0 & c0 & -> & _ & Hc0 & Hneg & ->)].
  - destruct (m !! s) as [c|] eqn:Hc; [|done]. simpl. by rewrite (Hg c).
  - destruct (decide (s = s0)) as [->|].
    + rewrite lookup_insert_eq, Hc0. simpl. rewrite (Hg c0) by done. do 2 f_equal. lia.
    + rewrite lookup_insert_ne by done. destruct (m !! s) as [c|] eqn:Hc; [|done]. simpl. by rewrite (Hg c).
Qed.

(** The semaphores when a task that may wait for one is gone. *)

Definition given_back p st : gmap Z Z :=
  match tcbs (sched st) !! p with
  | Some t => if decide (task_state t = TSTATE_WAIT_SEM) then alter Z.succ (waitsem t) (sems st) else sems st
  | None => sems st
  end.

(** Nothing else changes. *)

Record only_gone p st st' : Prop := {
  og_tcbs : tcbs (sched st') = delete p (tcbs (sched st));
  og_current : current (sched st') = current (sched st);
  og_lists : ∀ x, TLIST_HEAD x (sched st') = dq_rem p (TLIST_HEAD x (sched st));
  og_sems : sems st' = given_back p st
}.

Lemma terminate_ok st A p t k group :
  sem_ok st A → p ∈ queue A k → p ≠ 0 → p ≠ current (sched st) → tcbs (sched st) !! p = Some t →
  Z.land (flags t) TCB_FLAG_EXIT_PROCESSING = 0 → quiet (sems st) group = true →
  ∃ st', nxtask_terminate st p group = Some (OK, st') ∧ sem_ok st' (gone k p A) ∧ only_gone p st st' ∧
    ∀ s, sview (sems st') (gone k p A) s = (λ v, (v.1, dq_rem p v.2)) <$> sview (sems st) A s.
Proof.
  intros [Hs Hi] Hp Hp0 Hcur Ht Hfl Hq.
  assert (Hrest : ∀ m sc1, unlisted (sched st) p k sc1 → m = given_back p st → only_gone p st (mk_os m (release_tcb p sc1))).
  { intros m sc1 Hun Hm. by destruct (unlisted_rest _ A Hs p k Hp sc1 Hun) as (? & ? & ?). } pose proof (ok_pool _ _ Hs) as HA.
  destruct (unlisted_first _ A Hs p k Hp Hcur t Ht) as (Hrun & Hun & Hn).
  unfold nxtask_terminate. rewrite Ht. rewrite bool_decide_true by done. cbn [DEBUGASSERT mbind option_bind].
  set (sc1 := set_tlist _ _ _) in *. unfold nxtask_exithook. cbn [sched].
  assert (Ht1 : tcbs sc1 !! p = Some t) by (unfold sc1; by rewrite tcbs_set). rewrite Ht1. cbn [mbind option_bind].
  rewrite Hfl. cbn [Z.eqb negb]. unfold nxsem_recover. cbn [sched sems]. rewrite Ht1. cbn [mbind option_bind].
  case_decide as Hst.
  - assert (Hk : k = wsem) by (rewrite <- Hn, Hst; done). clear Hn. subst k.
    assert (Hw : waits_for A p = waitsem t) by (unfold waits_for; by rewrite (v_lookup _ A (ok_view _ _ Hs) p t Ht)).
    destruct (so_known _ _ Hi p Hp) as [c Hc]. rewrite Hw in Hc. destruct (so_count _ _ Hi _ c Hc) as (Hs0 & Hmax & Hl).
    destruct (gone_waiter_inv _ A p (waitsem t) c Hi HA Hp Hw Hc) as [Hneg Hi'].
    rewrite (proj2 (Z.eqb_neq _ _)) by done. cbn [negb DEBUGASSERT mbind option_bind]. rewrite Hc. cbn [mbind option_bind].
    rewrite (proj2 (Z.ltb_lt _ _)) by done. cbn [DEBUGASSERT mbind option_bind].
    assert (Hf : s16 (c + 1) = c + 1) by (pose proof (waiters_few _ A (waitsem t) Hi HA); apply s16_small; unfold SEM_VALUE_MAX in *; lia).
    rewrite Hf. destruct (unlisted_upd _ p wsem (set_waitsem NULL) sc1 Hun) as (sc2 & E2 & Hun2).
    assert (E2' : on_sched (upd (set_waitsem NULL) p) (set_sem (mk_os (sems st) sc1) (waitsem t) (c + 1)) =
      Some (mk_os (<[waitsem t := c + 1]> (sems st)) sc2)) by (unfold on_sched; simpl sched; by rewrite E2).
    rewrite E2'. cbn [mbind option_bind].
    destruct (unlisted_hook _ p wsem _ sc2 group (quiet_more _ _ _ group Hc Hq) Hun2) as (sc3 & -> & Hun3). cbn [mbind option_bind].
    eexists. split; [done|]. split; [constructor; [by apply (unlisted_released (sched st))|done]|]. split.
    + apply Hrest; [done|]. unfold given_back. rewrite Ht, decide_True by done. symmetry. simpl sems. apply map_eq. intros x.
      destruct (decide (x = waitsem t)) as [->|]; [by rewrite lookup_alter_eq, Hc, lookup_insert_eq|by rewrite lookup_alter_ne, lookup_insert_ne].
    + apply gone_sview; [done..|]. right. by exists (waitsem t), c.
  - assert (Hk : k ≠ wsem) by (intros ->; destruct (task_state t); done).
    destruct (unlisted_hook _ p k (sems st) sc1 group Hq Hun) as (sc3 & E3 & Hun3). cbn [mbind option_bind]. rewrite E3.
    cbn [mbind option_bind]. eexists. split; [done|]. split; [constructor; [by apply (unlisted_released (sched st))|by apply gone_inv]|]. split.
    + apply Hrest; [done|]. unfold given_back. by rewrite Ht, decide_False.
    + apply gone_sview; [done..|]. by left.
Qed.

(** ** [nxtask_exit] *)

Section Exit.

Context (sc : sched_s) (A : pool) (HV : view sc A) (HA : pool_ok A).
Context (p r : Z) (Hl : loose A p) (Hh : head (queue A rdy) = Some r).

(** The state while the task [p] is torn down and [r] is marked as locked and not running;
    [il] is the list of inactive tasks. *)

Record teardown sc' (tr : tcb_s) (il : list Z) : Prop := {
  td_rest : ∀ q, q ≠ p → q ≠ r → tcbs sc' !! q = tcbs sc !! q;
  td_self : is_Some (tcbs sc' !! p);
  td_next : tcbs sc' !! r = Some tr;
  td_list : ∀ x, TLIST_HEAD x sc' = if decide (x = TSTATE_TASK_INACTIVE) then il else TLIST_HEAD x sc
}.

Lemma exit_ne : r ≠ p.
Proof. intros ->. apply (Hl rdy). by apply head_Some_elem_of. Qed.

Lemma teardown_next f sc' tr il :
  teardown sc' tr il → ∃ sc'', upd f r sc' = Some sc'' ∧ teardown sc'' (f tr) il.
Proof.
  intros [H1 H2 H3 H4]. pose proof exit_ne. destruct (upd_Some f r sc' tr H3) as (sc'' & E & Ht & _ & Hls). exists sc''.
  split; [done|]. constructor.
  - intros q Hq Hq'. rewrite Ht, lookup_insert_ne by done. by apply H1.
  - by rewrite Ht, lookup_insert_ne.
  - by rewrite Ht, lookup_insert_eq.
  - intros x. by rewrite Hls, H4.
Qed.

Lemma teardown_self f sc' tr il :
  teardown sc' tr il → ∃ sc'', upd f p sc' = Some sc'' ∧ teardown sc'' tr il ∧
    tcbs sc'' !! p = f <$> tcbs sc' !! p.
Proof.
  intros [H1 [t Hp] H3 H4]. pose proof exit_ne. destruct (upd_Some f p sc' t Hp) as (sc'' & E & Ht & _ & Hls). exists sc''.
  split; [done|]. split; [|by rewrite Ht, lookup_insert_eq, Hp]. constructor.
  - intros q Hq Hq'. rewrite Ht, lookup_insert_ne by done. by apply H1.
  - rewrite Ht, lookup_insert_eq. by eexists.
  - by rewrite Ht, lookup_insert_ne.
  - intros x. by rewrite Hls, H4.
Qed.

Lemma teardown_list sc' tr il l :
  teardown sc' tr il → teardown (set_tlist TSTATE_TASK_INACTIVE l sc') tr l.
Proof.
  intros [H1 H2 H3 H4]. constructor; rewrite ?tcbs_set; [done..|].
  intros x. rewrite tlist_set by done. specialize (H4 x). by destruct x.
Qed.

Lemma teardown_end sc' tr :
  teardown sc' tr (g_inactivetasks sc) → tcbs sc !! r = Some tr → view (release_tcb p sc') (erase p A).
Proof.
  intros [H1 _ H3 H4] Hr. assert (Ht : tcbs (release_tcb p sc') = delete p (tcbs sc)).
  { simpl. apply map_eq. intros q. destruct (decide (q = p)) as [->|]; [by rewrite !lookup_delete_eq|].
    rewrite !lookup_delete_ne by done. destruct (decide (q = r)) as [->|]; [congruence|by apply H1]. }
  constructor.
  - rewrite Ht, fmap_delete. simpl. by rewrite (v_core _ _ HV).
  - intros x. change (queue (erase p A)) with (queue A). rewrite <- (v_queue _ _ HV). specialize (H4 x). by destruct x.
  - intros q t. rewrite Ht. intros [_ Hq]%lookup_delete_Some. by apply (v_state _ _ HV).
Qed.

Lemma teardown_released f sc' tr il :
  teardown sc' tr il → ∃ sc'', upd f r (release_tcb p sc') = Some (release_tcb p sc'') ∧ teardown sc'' (f tr) il.
Proof.
  intros Htd. pose proof exit_ne. destruct (teardown_next f sc' tr il Htd) as (sc'' & E & Htd''). exists sc''.
  split; [|done]. unfold upd in *. rewrite (td_next _ _ _ Htd) in E. simpl. rewrite lookup_delete_ne by done.
  rewrite (td_next _ _ _ Htd). simplify_eq/=. unfold release_tcb. simpl. by rewrite delete_insert_ne.
Qed.

Lemma teardown_terminate m sc' tr t group :
  teardown sc' tr (g_inactivetasks sc ++ [p]) → tcbs sc' !! p = Some t → task_state t = TSTATE_TASK_INACTIVE →
  quiet m group = true →
  ∃ sc'', nxtask_terminate (mk_os m sc') p group = Some (OK, mk_os m (release_tcb p sc'')) ∧
    teardown sc'' tr (g_inactivetasks sc).
Proof.
  intros Htd Ht Hst Hq. unfold nxtask_terminate. cbn [sched sems]. rewrite Ht, Hst. rewrite bool_decide_true by done.
  cbn [DEBUGASSERT mbind option_bind].
  assert (Hil : dq_rem p (TLIST_HEAD TSTATE_TASK_INACTIVE sc') = g_inactivetasks sc).
  { rewrite (td_list _ _ _ Htd), decide_True by done. unfold dq_rem. rewrite filter_app.
    rewrite filter_cons_False, app_nil_r by naive_solver. apply dq_rem_absent.
    pose proof (v_queue _ _ HV TSTATE_TASK_INACTIVE) as Hiq. simpl in Hiq. rewrite Hiq. apply Hl. }
  rewrite Hil. pose proof (teardown_list sc' tr _ (g_inactivetasks sc) Htd) as Htd1. set (sc1 := set_tlist _ _ sc') in *.
  assert (Ht1 : tcbs sc1 !! p = Some t) by (unfold sc1; by rewrite tcbs_set).
  unfold nxtask_exithook. cbn [sched]. rewrite Ht1. cbn [mbind option_bind]. case_match; [by exists sc1|].
  unfold nxsem_recover. cbn [sched]. rewrite Ht1. cbn [mbind option_bind]. rewrite decide_False by congruence. cbn [mbind option_bind].
  rewrite quiet_wakeup by done. cbn [mbind option_bind sched]. rewrite Ht1. cbn [mbind option_bind]. unfold on_sched. cbn [sched].
  destruct (teardown_self (set_flags (Z.lor (flags t) TCB_FLAG_EXIT_PROCESSING)) sc1 tr _ Htd1) as (sc2 & -> & Htd2 & _).
  by exists sc2.
Qed.

(** The task is put on the list of the inactive tasks and torn down, and [r] is as before. *)

Lemma exit_tail m tr group :
  tcbs sc !! r = Some tr → is_Some (tcbs sc !! p) → quiet m group = true →
  ∃ sc', (sc ← upd (set_lockcount (lockcount tr + 1)) r sc;
          sc ← upd (set_state TSTATE_TASK_READYTORUN) r sc;
          sc ← nxsched_add_blocked p TSTATE_TASK_INACTIVE sc;
          '(ret, st) ← nxtask_terminate (mk_os m sc) p group;
          st ← on_sched (upd (set_state TSTATE_TASK_RUNNING) r) st;
          rt ← tcbs (sched st) !! r;
          st ← on_sched (upd (set_lockcount (lockcount rt - 1)) r) st;
          Some (ret, st)) = Some (OK, mk_os m sc') ∧ view sc' (erase p A).
Proof.
  intros Hr Hp Hq. pose proof exit_ne as Hne.
  assert (Htd : teardown sc tr (g_inactivetasks sc)).
  { constructor; [done..|]. intros x. by case_decide; subst. }
  destruct (teardown_next (set_lockcount (lockcount tr + 1)) sc tr _ Htd) as (sc1 & -> & Htd1). cbn [mbind option_bind].
  destruct (teardown_next (set_state rdy) sc1 _ _ Htd1) as (sc2 & -> & Htd2). cbn [mbind option_bind].
  unfold nxsched_add_blocked. cbn [blocked DEBUGASSERT mbind option_bind TLIST_ISPRIORITIZED].
  pose proof (td_list _ _ _ Htd2 TSTATE_TASK_INACTIVE) as Hil. rewrite decide_True in Hil by done. rewrite Hil.
  pose proof (teardown_list sc2 _ _ (g_inactivetasks sc ++ [p]) Htd2) as Htd3.
  destruct (teardown_self (set_state TSTATE_TASK_INACTIVE) _ _ _ Htd3) as (sc4 & -> & Htd4 & Hp4). cbn [mbind option_bind].
  destruct (td_self _ _ _ Htd4) as [tp Hp4']. rewrite Hp4' in Hp4. destruct (tcbs (set_tlist _ _ sc2) !! p); simplify_eq/=.
  destruct (teardown_terminate m sc4 _ _ group Htd4 Hp4' eq_refl Hq) as (sc5 & -> & Htd5). cbn [mbind option_bind].
  destruct (teardown_released (set_state TSTATE_TASK_RUNNING) sc5 _ _ Htd5) as (sc6 & E6 & Htd6).
  unfold on_sched. cbn [sched]. rewrite E6. cbn [mbind option_bind sched sems release_tcb tcbs]. rewrite lookup_delete_ne by done.
  rewrite (td_next _ _ _ Htd6). cbn [mbind option_bind]. fold (release_tcb p sc6).
  destruct (teardown_released (set_lockcount (lockcount tr + 1 - 1)) sc6 _ _ Htd6) as (sc7 & E7 & Htd7).
  simpl lockcount. rewrite E7. cbn [mbind option_bind]. eexists. split; [done|]. apply (teardown_end _ _ Htd7).
  rewrite Hr. f_equal. pose proof (v_in sc A HV HA rdy r tr) as Hs. unfold state_in in Hs. rewrite !decide_True in Hs by done.
  destruct tr. unfold set_lockcount, set_state. simpl in *. rewrite Hs; [f_equal; lia|by apply head_Some_elem_of|done].
Qed.

End Exit.

Lemma loose_release A p : loose A p → loose (release A) p.
Proof.
  intros Hl k. simpl. repeat case_decide; [|set_solver|apply Hl].
  rewrite elem_enqueue_all. intros [Hx|Hx]; [by apply (Hl pnd)|by apply (Hl rdy)].
Qed.

Lemma exit_ok st A p group :
  sem_ok st A → current (sched st) = p → p ≠ 0 → quiet (sems st) group = true →
  ∃ st', up_exit st group = Some st' ∧ sems st' = sems st ∧ sem_ok st' (erase p (release (take rdy p A))).
Proof.
  intros [Hs Hi] Hc Hp0 Hq. destruct (head_tcb _ A Hs) as (t & Hth & Ht & Hh & _). rewrite Hc in *.
  pose proof (ok_pool _ _ Hs) as HA. assert (Hp : p ∈ queue A rdy) by by apply head_Some_elem_of.
  unfold up_exit, nxtask_exit. rewrite Hth. cbn [mbind option_bind].
  destruct (remove_ready _ A (ok_view _ _ Hs) HA p Hp Hp0) as (sc1 & -> & HV1 & _). cbn [mbind option_bind].
  destruct (pool_take A rdy p HA Hp Hp0) as [HA1 Hl1].
  destruct (merge_if sc1 _ HV1 HA1) as (b & sc2 & -> & HV2 & _). cbn [mbind option_bind].
  pose proof (pool_release _ HA1) as HA2. pose proof (loose_release _ p Hl1) as Hl2.
  destruct (v_head sc2 _ HV2 HA2) as (r & l & tr & E & Hr & Htr). rewrite Hr. cbn [mbind option_bind]. rewrite Htr.
  cbn [mbind option_bind]. assert (Hhr : head (queue (release (take rdy p A)) rdy) = Some r) by by rewrite E.
  destruct (v_tcb sc2 _ HV2 p) as (tp & Htp & _); [by eapply (w_known A HA)|].
  destruct (exit_tail sc2 _ HV2 HA2 p r Hl2 Hhr (sems st) tr group Htr) as (sc3 & -> & HV3); [by eexists|done|].
  cbn [mbind option_bind]. unfold on_sched. cbn [sched sems]. pose proof (pool_erase _ p HA2 Hl2) as HA3.
  destruct (switch_ok sc3 _ true HV3 HA3) as (sc4 & -> & HV4 & HR4); [done|]. cbn [mbind option_bind].
  eexists. split; [done|]. split; [done|]. constructor.
  - constructor; [done|done|done|]. intros x _. by left.
  - eapply same_inv; [|apply (gone_inv _ A rdy p Hi HA Hp); done]. split; [done|]. done.
Qed.

End TaskOps.
