(* ===== verification/SemProps.v ===== *)
(** * Properties of semaphores

    The states that occur when tasks use semaphores next to everything else that the
    scheduler does, and that in all of them the semaphores behave like counters with
    queues. *)

From S2P Require Import Prelude Sched SchedSpec SchedView SchedOps SchedProps Sem SemSpec SemOps Task TaskOps.

Module SemProps.
Import Sched SchedSpec SchedView SchedOps SchedProps Sem SemSpec SemOps Task TaskOps.

Implicit Types (st : os_s) (p q s : Z) (l : list Z) (A : pool) (m : gmap Z Z) (t : tcb_s).

(** ** Scheduling does not concern the semaphores *)

Lemma same_again A p n : same_waits A (again p n A).
Proof.
  unfold again. etransitivity; [by apply (same_take A rdy p)|]. etransitivity; [|apply same_make_ready].
  by apply same_cupd.
Qed.

Lemma same_requeue A k p n :
  pool_ok A → p ∈ queue A k → same_waits A (put k p (cupd (set_priority n) p (take k p A))).
Proof.
  intros HA Hp. split.
  - intros q. simpl. destruct (decide (q = p)) as [->|]; [|by rewrite lookup_alter_ne].
    rewrite lookup_alter_eq. by destruct (core A !! p).
  - unfold put. simpl. destruct (decide (wsem = k)) as [<-|]; [|done]. simpl.
    rewrite enqueue_perm. symmetry. apply dq_rem_perm; [apply HA|done].
Qed.

Lemma same_reprio A p n A' : pool_ok A → reprio A p n A' → same_waits A A'.
Proof.
  intros HA Hr. destruct Hr as [x l E _|x l E _|Hp _|k Hp _ _|k Hp _]; [|by apply same_cupd|apply same_again| |by apply same_cupd].
  - etransitivity; [|apply same_release]. apply same_requeue; [done|]. rewrite E. set_solver.
  - by apply same_requeue.
Qed.

Lemma same_next_slice A p : pool_ok A → head (queue A rdy) = Some p → same_waits A (next_slice p A).
Proof.
  intros HA Hp. unfold next_slice. destruct (queue A rdy) as [|x [|y l]] eqn:E; [done..|]. case_if; [|done].
  unfold rotate. etransitivity; [|apply same_release]. apply same_requeue; [done|]. rewrite E. simplify_eq/=. set_solver.
Qed.

Lemma move_same A r o ret A' :
  pool_ok A → head (queue A rdy) = Some r → move A r o ret A' →
  match o with Create _ _ _ => False | Block s => s ≠ wsem | Wake p => p ∉ queue A wsem | _ => True end →
  same_waits A A'.
Proof.
  intros HA Hh Hm Ho. destruct Hm as [| s|p k Hp Hb| | | | |p n A' _ Hr| |A' _ Hr| | |];
    try done; eauto using same_reprio, same_unlock, same_next_slice.
  - etransitivity; [by apply (same_take A rdy r)|]. etransitivity; [by apply (same_put _ s r)|apply same_release].
  - etransitivity; [|apply same_make_ready]. apply same_take. intros ->. done.
  - by apply same_cupd.
Qed.

Lemma create_waiters A p t s :
  pool_ok A → core A !! p = None → waitsem t = NULL → waiters (create p t A) s = waiters A s.
Proof.
  intros HA Hp Ht. unfold waiters. apply filter_tasks. intros q Hq.
  assert (q ≠ p) by (intros ->; destruct (w_known _ HA _ _ Hq); congruence).
  unfold waits_for. simpl. by rewrite lookup_insert_ne.
Qed.

Lemma create_frame A p t : pool_ok A → core A !! p = None → frame (eq p) A (create p t A).
Proof.
  intros HA Hp. split.
  - intros q Hq _. unfold waits_for. simpl. rewrite lookup_insert_ne; [done|].
    intros <-. destruct (w_known _ HA _ _ Hq). congruence.
  - intros q Hq Hne. split; [done|]. unfold code. simpl. by rewrite lookup_insert_ne.
Qed.

Lemma create_inv m A p t :
  sem_inv m A → pool_ok A → core A !! p = None → waitsem t = NULL →
  Z.of_nat (base.size (core A)) + 1 < 2 ^ 15 → sem_inv m (create p t A).
Proof.
  intros [H1 H2 H3 H4 H5] HA Hp Ht Hsz.
  assert (Hnq : p ∉ queue A wsem) by (intros Hq; destruct (w_known _ HA _ _ Hq); congruence).
  assert (Hw : ∀ q, waits_for (create p t A) q = waits_for A q).
  { intros q. unfold waits_for. simpl. destruct (decide (q = p)) as [->|]; [|by rewrite lookup_insert_ne].
    by rewrite lookup_insert_eq, Hp. }
  assert (Hws : ∀ s, waiters (create p t A) s = waiters A s) by (intros s; by apply create_waiters).
  constructor.
  - intros s c. rewrite Hws. apply H1.
  - intros q. rewrite Hw. apply H2.
  - intros q. rewrite Hw. apply H3.
  - intros q t' Hq. simpl. destruct (decide (q = p)) as [->|]; [done|]. rewrite lookup_insert_ne by done. by apply H4.
  - simpl. rewrite map_size_insert_None by done. lia.
Qed.

(** ** Reachable states *)

Inductive os_op :=
  | OSched (o : SchedProps.op)
  | OInit (s v : Z)
  | OSem (o : SemOps.op)
  | OTerminate (p : Z) (group : option task_group_s)
  | OExit (group : option task_group_s).

Definition os_exec st (o : os_op) : option (option Z * os_s) :=
  match o with
  | OSched o => '(r, sc) ← SchedProps.exec (sched st) o; Some (Some r, mk_os (sems st) sc)
  | OInit s v => let '(r, st) := nxsem_init st s v in Some (Some r, st)
  | OSem o => SemOps.exec st o
  | OTerminate p group => returns (nxtask_terminate st p group)
  | OExit group => SemOps.void (up_exit st group)
  end.

(** Tasks wait for semaphores through [nxsem_wait] only, and a semaphore is initialized
    when nobody waits for it; when a task ends, nobody is in [waitpid] for it. *)

Definition waits_sem st p : bool :=
  match tcbs (sched st) !! p with Some t => bool_decide (task_state t = wsem) | None => false end.

Definition no_lock_overflow st : bool :=
  locks (pool_of (sched st)) (current (sched st)) <? MAX_LOCK_COUNT.

Definition os_may st (o : os_op) : bool :=
  match o with
  | OSched o =>
      SchedProps.may (sched st) o &&
      match o with
      | Create _ _ _ => Z.of_nat (base.size (tcbs (sched st))) + 1 <? 2 ^ 15
      | Block s => bool_decide (s ≠ wsem)
      | Wake p => negb (waits_sem st p)
      | _ => true
      end
  | OInit s v => (0 <=? v) && match sems st !! s with Some c => 0 <=? c | None => true end
  | OSem o =>
      match o with
      | Wait s => match sems st !! s with Some c => (0 <? c) || negb (current (sched st) =? 0) | None => false end
      | TryWait s | Post s | Destroy s => bool_decide (is_Some (sems st !! s))
      | Irq p _ => bool_decide (is_Some (tcbs (sched st) !! p))
      | Timeout _ => true
      | Reset irq s n =>
          bool_decide (is_Some (sems st !! s)) && (0 <=? n) && (n <=? SEM_VALUE_MAX) && (irq || no_lock_overflow st)
      end
  | OTerminate p group =>
      negb (p =? 0) && negb (p =? current (sched st)) && quiet (sems st) group &&
      match tcbs (sched st) !! p with
      | Some t => bool_decide (task_state t ≠ TSTATE_TASK_INVALID) && (Z.land (flags t) TCB_FLAG_EXIT_PROCESSING =? 0)
      | None => false
      end
  | OExit group => negb (current (sched st) =? 0) && quiet (sems st) group
  end.

Inductive os_reach : os_s → Prop :=
  | os_start : os_reach (mk_os ∅ nx_start)
  | os_step st o ret st' : os_reach st → os_may st o = true → os_exec st o = Some (ret, st') → os_reach st'.

(** ** Every operation keeps the invariant *)

Lemma seminit_ok st A s v :
  sem_ok st A → os_may st (OInit s v) = true → sem_ok (nxsem_init st s v).2 A.
Proof.
  intros [Hs Hi] Hm. unfold nxsem_init, os_may in *.
  destruct (negb (s =? NULL) && (v <=? SEM_VALUE_MAX)) eqn:Hb; [|by constructor]. simpl.
  apply andb_true_iff in Hm as [Hv Hm].
  assert (Hw : waiters A s = []).
  { destruct (sems st !! s) as [c|] eqn:Hc.
    - destruct (so_count _ _ Hi s c Hc) as (_ & _ & Hl). apply nil_length_inv. lia.
    - destruct (waiters A s) as [|p l] eqn:E; [done|]. exfalso.
      assert (Hp : p ∈ waiters A s) by (rewrite E; set_solver). apply list_elem_of_filter in Hp as [Hw Hp].
      destruct (so_known _ _ Hi p Hp) as [c Hc']. congruence. }
  constructor; [done|]. simpl. unfold SEM_VALUE_MAX, NULL in Hb. rewrite s16_small by lia.
  apply set_count; [done|unfold NULL; lia|unfold SEM_VALUE_MAX; lia|]. rewrite Hw. simpl. lia.
Qed.

Definition created (o : SchedProps.op) p : Prop := match o with Create q _ _ => q = p | _ => False end.

Lemma sched_op_ok st A o ret st' :
  sem_ok st A → os_may st (OSched o) = true → os_exec st (OSched o) = Some (ret, st') →
  ∃ A', sem_ok st' A' ∧ sems st' = sems st ∧ frame (created o) A A' ∧ ∀ s, waiters A' s ≡ₚ waiters A s.
Proof.
  intros [Hs Hi] Hm E. unfold os_may in Hm. apply andb_true_iff in Hm as [Hm Hx].
  pose proof (ok_pool _ _ Hs) as HA. pose proof (ok_view _ _ Hs) as HV.
  destruct (step_ok _ A o Hs Hm) as (r & sc & A' & E' & Hmv & Hok'). unfold os_exec in E. rewrite E' in E.
  cbn [mbind option_bind] in E. simplify_eq. exists A'. destruct (head_tcb _ A Hs) as (_ & _ & _ & Hh & _).
  enough (sem_inv (sems st) A' ∧ frame (created o) A A' ∧ ∀ s, waiters A' s ≡ₚ waiters A s) as (? & ? & ?) by by split_and!.
  destruct o as [p n tt|s|p| | | | |].
  1: { inversion Hmv; subst. unfold SchedProps.may in Hm. rewrite !andb_true_iff, bool_decide_eq_true in Hm.
    destruct Hm as [[Hp _] _]. assert (Hc : core A !! p = None) by by rewrite <- (v_core _ _ HV), lookup_fmap, Hp.
    split; [|split; [by apply create_frame|intros s; by rewrite create_waiters]].
    apply create_inv; [done..|]. rewrite <- (v_core _ _ HV), map_size_fmap. lia. }
  all: assert (Hsw : same_waits A A');
    [|split; [by eapply same_inv|split; [by apply same_frame|intros x; by apply same_waiters]]];
    eapply move_same; [done|done|exact Hmv|try done].
  - by apply bool_decide_eq_true in Hx.
  - intros Hp. unfold waits_sem in Hx.
    destruct (v_tcb _ A HV p) as (t & Ht & _); [by eapply w_known|]. rewrite Ht in Hx.
    pose proof (v_in _ A HV HA wsem p t Hp Ht) as Hst. rewrite Hst in Hx. done.
Qed.

Lemma sem_op_ok st A o :
  sem_ok st A → os_may st (OSem o) = true →
  ∃ ret st' A', SemOps.exec st o = Some (ret, st') ∧ sem_ok st' A' ∧
    sstep (prio A) (current (sched st)) (sview (sems st) A) (sview (sems st') A') o ret ∧
    woken_get st A st' A' (wakes_with o) ∧ frame (λ q, ∃ s, o = Wait s ∧ current (sched st) = q) A A'.
Proof.
  intros Hok Hm. unfold os_may, SemOps.exec, returns, SemOps.void in *.
  destruct o as [s|s|s|p err|p|irq s n|s].
  - destruct (sems st !! s) as [c|] eqn:Hc; [|done].
    destruct (wait_ok st A Hok s c Hc) as (ret & st' & A' & E & Hok' & Hs & Hw & Hf); [lia|].
    exists ret, st', A'. split_and!; [done..|]. eapply frame_more; [|exact Hf]. intros q <-. by exists s.
  - apply bool_decide_eq_true in Hm as [c Hc]. destruct (trywait_ok st A Hok s c Hc) as (ret & st' & -> & Hok' & _ & Hs).
    eexists _, st', A. split; [done|]. split; [done|]. split; [done|]. split; [by intros p ? ?|done].
  - apply bool_decide_eq_true in Hm as [c Hc]. destruct (post_ok st A Hok s c Hc) as (ret & st' & A' & -> & Hok' & Hs & Hcode & _ & Hf).
    eexists _, st', A'. split; [done|]. split; [done|]. split; [done|]. split; [by apply woken_same|by apply frame_all].
  - apply bool_decide_eq_true in Hm as [t Ht]. destruct (irq_ok st A Hok p t err Ht) as (st' & A' & -> & Hok' & Hs & Hw & Hf).
    eexists _, st', A'. split_and!; [done..|by apply frame_all].
  - destruct (timeout_ok st A Hok p) as (st' & A' & -> & Hok' & Hs & Hw & Hf).
    eexists _, st', A'. split_and!; [done..|by apply frame_all].
  - rewrite !andb_true_iff, orb_true_iff, bool_decide_eq_true in Hm. destruct Hm as [[[[c Hc] H1] H2] H3].
    pose proof (view_pool_of _ A (ok_view _ _ (so_sched _ _ Hok)) (ok_pool _ _ (so_sched _ _ Hok))) as Heq.
    unfold no_lock_overflow in H3. rewrite <- Heq in H3.
    destruct (reset_ok irq st A s c n Hok Hc) as (st' & A' & -> & Hok' & Hs & Hw & Hf); [lia|destruct H3; [by left|right; lia]|].
    eexists _, st', A'. split_and!; [done..|by apply frame_all].
  - apply bool_decide_eq_true in Hm as [c Hc]. destruct (destroy_ok st A Hok s c Hc) as (st' & -> & Hok' & Hs).
    eexists _, st', A. split; [done|]. split; [done|]. split; [done|]. split; [by intros p ? ?|done].
Qed.

#[global] Instance sem_ok_proper : Proper ((=) ==> pool_eq ==> iff) sem_ok.
Proof.
  enough (H : ∀ st A A', pool_eq A A' → sem_ok st A → sem_ok st A').
  { intros st ? <- A A' HA. split; apply H; [done|by symmetry]. }
  intros st A A' HE [H1 H2]. constructor; [by rewrite <- HE|]. eapply same_inv; [|exact H2].
  split; [intros p; by rewrite (proj1 HE)|by rewrite (proj2 HE)].
Qed.

Lemma start_sem : sem_ok (mk_os ∅ nx_start) (pool_of nx_start).
Proof.
  constructor; [apply start_ok|]. constructor; simpl; try done.
  - intros p _. unfold waits_for. simpl. destruct (decide (p = 0)) as [->|]; [by vm_compute|].
    rewrite lookup_fmap. unfold nx_start. simpl. by rewrite lookup_singleton_ne.
  - intros p Hp. set_solver.
  - intros p t Hp. set_solver.
Qed.

Lemma os_reach_ok st : os_reach st → sem_ok st (pool_of (sched st)).
Proof.
  intros Hr. enough (∃ A, sem_ok st A) as [A HA].
  { rewrite <- (view_pool_of (sched st) A); [done|apply HA..]. }
  induction Hr as [|st o ret st' _ [A Hok] Hm E]; [eexists; apply start_sem|]. destruct o as [o|s v|o|p group|group].
  - destruct (sched_op_ok st A o ret st' Hok Hm E) as (A' & Hok' & _). by exists A'.
  - pose proof (seminit_ok st A s v Hok Hm) as Hi. unfold os_exec in E. destruct (nxsem_init st s v). simplify_eq. by exists A.
  - destruct (sem_op_ok st A o Hok Hm) as (r & st2 & A' & E' & Hok' & _). unfold os_exec in E. rewrite E' in E.
    simplify_eq. by exists A'.
  - unfold os_may in Hm. rewrite !andb_true_iff in Hm. destruct Hm as [[[Hp0 Hpc] Hq] Ht].
    destruct (tcbs (sched st) !! p) as [t|] eqn:Et; [|done]. rewrite andb_true_iff, bool_decide_eq_true in Ht.
    destruct Ht as [Hst Hfl]. pose proof (v_queued _ A (ok_view _ _ (so_sched _ _ Hok)) (ok_pool _ _ (so_sched _ _ Hok)) p t Et Hst) as Hin.
    destruct (terminate_ok st A p t _ group Hok Hin) as (st2 & E' & Hok' & _); [lia|lia|done|lia|done|].
    unfold os_exec, returns in E. rewrite E' in E. simplify_eq/=. by eexists.
  - unfold os_may in Hm. apply andb_true_iff in Hm as [H0 Hq].
    destruct (exit_ok st A _ group Hok eq_refl) as (st2 & E' & _ & Hok'); [lia|done|].
    unfold os_exec, SemOps.void in E. rewrite E' in E. simplify_eq/=. by eexists.
Qed.

(** ** Theorem *)

(** The semaphores of a state: available counts, and the waiting tasks by priority. *)

Definition sem_view st : Z → option (Z * list Z) := sview (sems st) (pool_of (sched st)).

Lemma sstep_ext pr r S S1 S2 o ret : (∀ s, S2 s = S1 s) → sstep pr r S S1 o ret → sstep pr r S S2 o ret.
Proof.
  intros H. assert (Hb : ∀ s v, becomes S S1 s v → becomes S S2 s v) by (intros s v Hb s'; by rewrite H).
  assert (Hu : unchanged S S1 → unchanged S S2) by (intros Hu s'; by rewrite H).
  intros Hs. induction Hs; by econstructor; eauto.
Qed.

(** C35.  In every state that tasks reach with semaphores and the scheduler, each operation on a
    semaphore succeeds, no assertion in it fails, and it acts on counters with queues:
    [nxsem_wait] takes a count or queues the caller by priority, [nxsem_post] gives the
    count to the first task of the queue, and so on.  A task that leaves a queue returns
    from its wait with [OK] if it got the count, and else with the error that ended it. *)
Theorem nxsem_refines_queues st o :
  os_reach st → os_may st (OSem o) = true →
  ∃ ret st', os_exec st (OSem o) = Some (ret, st') ∧ os_reach st' ∧
    sstep (prio (pool_of (sched st))) (current (sched st)) (sem_view st) (sem_view st') o ret ∧
    ∀ p, p ∈ g_waitingforsemaphore (sched st) → p ∉ g_waitingforsemaphore (sched st') →
      nxsem_wait_result st' p = Some (wakes_with o).
Proof.
  intros Hr Hm. destruct (sem_op_ok st _ o (os_reach_ok st Hr) Hm) as (ret & st' & A' & E & Hok & Hs & Hw & _).
  pose proof (view_pool_of _ A' (ok_view _ _ (so_sched _ _ Hok)) (ok_pool _ _ (so_sched _ _ Hok))) as Heq.
  exists ret, st'. split; [done|]. split; [by eapply os_step|]. split.
  - eapply sstep_ext; [|exact Hs]. apply same_sview; [|symmetry; apply Heq].
    split; [intros p; by rewrite (proj1 Heq)|by rewrite (proj2 Heq)].
  - intros p Hp Hp'. apply (Hw p Hp). by rewrite (proj2 Heq).
Qed.

Fixpoint os_run st (ops : list os_op) : option os_s :=
  match ops with
  | [] => Some st
  | o :: ops => if os_may st o then '(_, st) ← os_exec st o; os_run st ops else None
  end.

Lemma os_run_reach st ops st' : os_reach st → os_run st ops = Some st' → os_reach st'.
Proof.
  revert st. induction ops as [|o ops IH]; intros st Hst; simpl; [by intros [= <-]|].
  destruct (os_may st o) eqn:Hm; [|done]. destruct (os_exec st o) as [[ret st1]|] eqn:E; [|done].
  apply IH. by eapply os_step.
Qed.

(** Tasks 2 and 3 wait for the semaphore at 16, the second with the higher priority. *)

Definition sem_demo_ops : list os_op :=
  [OSched (Create 1 90 0); OSched (Create 2 100 0); OSched (Create 3 150 0); OInit 16 0;
   OSched (Wake 2); OSem (Wait 16); OSched (Wake 3); OSem (Wait 16); OSched (Wake 1)].

Definition sem_demo : os_s := default (mk_os ∅ nx_start) (os_run (mk_os ∅ nx_start) sem_demo_ops).

Lemma sem_demo_reach : os_reach sem_demo.
Proof.
  apply (os_run_reach (mk_os ∅ nx_start) sem_demo_ops); [apply os_start|]. unfold sem_demo.
  destruct (os_run (mk_os ∅ nx_start) sem_demo_ops) eqn:E; [done|]. exfalso. revert E. by vm_compute.
Qed.

Lemma nxsem_refines_queues_witness :
  sem_view sem_demo 16 = Some (0, [3; 2]) ∧
  ∃ ret st', os_exec sem_demo (OSem (Post 16)) = Some (ret, st') ∧ os_reach st' ∧
    sstep (prio (pool_of (sched sem_demo))) (current (sched sem_demo)) (sem_view sem_demo) (sem_view st') (Post 16) ret ∧
    ∀ p, p ∈ g_waitingforsemaphore (sched sem_demo) → p ∉ g_waitingforsemaphore (sched st') →
      nxsem_wait_result st' p = Some (wakes_with (Post 16)).
Proof. split; [by vm_compute|]. apply (nxsem_refines_queues sem_demo (Post 16)); [apply sem_demo_reach|by vm_compute]. Defined.

End SemProps.
