(* ===== verification/TaskProps.v ===== *)
(** * Properties of the end of a task

    A task that ends leaves no trace on the lists and in the semaphores, and, when tasks
    wait for its end, [_exit] can leave the wrong task running. *)

From S2P Require Import Prelude Sched SchedSpec SchedView SchedOps SchedProps Sem SemSpec SemOps Task TaskOps SemProps.

Module TaskProps.
Import Sched SchedSpec SchedView SchedOps SchedProps Sem SemSpec SemOps Task TaskOps SemProps.

Implicit Types (st : os_s) (p q s : Z).

Lemma sview_pool_of st A s : sem_ok st A → sview (sems st) A s = sem_view st s.
Proof.
  intros Hok. pose proof (view_pool_of _ A (ok_view _ _ (so_sched _ _ Hok)) (ok_pool _ _ (so_sched _ _ Hok))) as Heq.
  symmetry. apply same_sview; [|symmetry; apply Heq]. split; [intros p; by rewrite (proj1 Heq)|by rewrite (proj2 Heq)].
Qed.

(** C36.  [nxtask_terminate] removes a task that is not running and not yet exiting, and for whose end
    nobody is in [waitpid]: its TCB is gone and it is on no list; when it waited for a
    semaphore, the count of that semaphore is raised by one.  Nothing else changes: the
    TCBs of the other tasks, the order of the lists without the task, the running task
    and the counts of the other semaphores.  So every semaphore keeps its available counts
    and loses the task from its queue. *)
Theorem nxtask_terminate_spec st p group :
  os_reach st → os_may st (OTerminate p group) = true →
  ∃ st', nxtask_terminate st p group = Some (OK, st') ∧ os_reach st' ∧
    tcbs (sched st') = delete p (tcbs (sched st)) ∧ current (sched st') = current (sched st) ∧
    (∀ k, TLIST_HEAD k (sched st') = dq_rem p (TLIST_HEAD k (sched st))) ∧
    sems st' = given_back p st ∧
    ∀ s, sem_view st' s = (λ v, (v.1, dq_rem p v.2)) <$> sem_view st s.
Proof.
  intros Hr Hm. pose proof (os_reach_ok st Hr) as Hok. pose proof Hm as Hm'.
  unfold os_may in Hm. rewrite !andb_true_iff in Hm. destruct Hm as [[[Hp0 Hpc] Hq] Ht].
  destruct (tcbs (sched st) !! p) as [t|] eqn:Et; [|done]. rewrite andb_true_iff, bool_decide_eq_true in Ht. destruct Ht as [Hst Hfl].
  pose proof (v_queued _ _ (ok_view _ _ (so_sched _ _ Hok)) (ok_pool _ _ (so_sched _ _ Hok)) p t Et Hst) as Hin.
  destruct (terminate_ok st _ p t _ group Hok Hin) as (st' & E & Hok' & [? ? ? ?] & Hv); [lia|lia|done|lia|done|].
  exists st'. split; [done|].
  split; [eapply (os_step _ (OTerminate p group)); [done|done|]; unfold os_exec, returns; by rewrite E|].
  do 4 (split; [done|]). intros s. rewrite <- (sview_pool_of st' _ s Hok'). apply Hv.
Qed.

Lemma nxtask_terminate_spec_witness :
  ∃ st', nxtask_terminate sem_demo 2 None = Some (OK, st') ∧ os_reach st' ∧
    tcbs (sched st') = delete 2 (tcbs (sched sem_demo)) ∧ current (sched st') = current (sched sem_demo) ∧
    (∀ k, TLIST_HEAD k (sched st') = dq_rem 2 (TLIST_HEAD k (sched sem_demo))) ∧
    sems st' = given_back 2 sem_demo ∧
    ∀ s, sem_view st' s = (λ v, (v.1, dq_rem 2 v.2)) <$> sem_view sem_demo s.
Proof. apply (nxtask_terminate_spec sem_demo 2 None); [apply sem_demo_reach|by vm_compute]. Defined.

(** Task 3 waits for the end of task 2, which runs; task 1 is ready. *)

Definition exit_demo_ops : list os_op :=
  [OSched (Create 1 90 0); OSched (Create 2 100 0); OSched (Create 3 150 0); OInit 16 0;
   OSched (Wake 1); OSched (Wake 3); OSem (Wait 16); OSched (Wake 2)].

Definition exit_demo : os_s := default (mk_os ∅ nx_start) (os_run (mk_os ∅ nx_start) exit_demo_ops).

Definition exit_demo_group : option task_group_s := Some (mk_group 1 16).

Lemma default_Some {X} (d x : X) (m : option X) : m = Some x → x = default d m.
Proof. by intros ->. Qed.

(** C37.  [_exit] of a task that others wait for can leave the CPU to a task although one of
    higher priority is ready: [nxtask_exit] raises the lock count of the next task while
    it wakes the waiting ones, so that these become pending, and lowers the count again
    without merging the pending tasks. *)
Theorem up_exit_leaves_pending :
  ∃ st', os_reach exit_demo ∧ up_exit exit_demo exit_demo_group = Some st' ∧
    current (sched st') = 1 ∧ lockcount (task_of (sched st') 1) = 0 ∧
    task_state (task_of (sched st') 3) = TSTATE_TASK_PENDING ∧
    sched_priority (task_of (sched st') 1) < sched_priority (task_of (sched st') 3).
Proof.
  destruct (up_exit exit_demo exit_demo_group) as [st'|] eqn:E; [|exfalso; revert E; by vm_compute].
  exists st'. split; [|split; [done|]].
  - apply (os_run_reach (mk_os ∅ nx_start) exit_demo_ops); [apply os_start|]. unfold exit_demo.
    destruct (os_run (mk_os ∅ nx_start) exit_demo_ops) eqn:E'; [done|]. exfalso. revert E'. by vm_compute.
  - rewrite (default_Some exit_demo st' _ E). clear. vm_compute. by repeat split.
Qed.

End TaskProps.
