(* ===== verification/MmSem.v ===== *)
(** * The heap semaphore (mm/mm_heap/mm_sem.c)

    [mm_takesemaphore], [mm_trysemaphore] and [mm_givesemaphore] make the heap exclusive to
    one task, which may take it several times.  They are not atomic: interrupts and other
    tasks run between any two accesses to shared data.  So each function is a program
    whose steps are single accesses, [pc] says where a task is in it, and the running task
    of the scheduler makes the next step.

    The theorems are about the interleavings of such steps of any number of tasks with each
    other and with the other operations on tasks and semaphores: all those that leave the
    semaphore alone, do not delete a task that uses the heap, and end a wait for it with a
    count or a signal ([env_may]).  The last theorem is about a wait that is cancelled.
    They rest on semaphores being
    counters with queues, SemOps.v, and not on how these are implemented. *)

From S2P Require Import Prelude Sched SchedSpec SchedView SchedOps SchedProps Sem SemSpec SemOps Task TaskOps SemProps.

Module MmSem.
Import Sched SchedSpec SchedView SchedOps SchedProps Sem SemSpec SemOps Task TaskOps SemProps.

Definition NO_HOLDER : Z := -1.
Definition INT_MAX : Z := 0x7fffffff.

(** The fields of [mm_heap_s] for the semaphore; [mm_semaphore] is its address. *)

Record mm_heap_s := mk_heap { mm_semaphore : Z; mm_holder : Z; mm_counts_held : Z }.

Definition set_holder (v : Z) (h : mm_heap_s) := mk_heap (mm_semaphore h) v (mm_counts_held h).
Definition set_counts (v : Z) (h : mm_heap_s) := mk_heap (mm_semaphore h) (mm_holder h) v.

(** Where a task is; [n] counts the references that it has been granted. *)

Inductive pc :=
  | Idle (n : Z)      (* in none of the functions *)
  | Count (n : Z)     (* before [mm_counts_held++] *)
  | TryWait (n : Z)   (* before [_SEM_TRYWAIT] *)
  | Wait (n : Z)      (* before [_SEM_WAIT] *)
  | Blocked (n : Z)   (* in [_SEM_WAIT] *)
  | Claim (n : Z)     (* before [mm_holder = my_pid] *)
  | Claimed (n : Z)   (* before [mm_counts_held = 1] *)
  | Uncount (n : Z)   (* before [mm_counts_held--] *)
  | Clear (n : Z)     (* before [mm_holder = NO_HOLDER] *)
  | Cleared (n : Z)   (* before [mm_counts_held = 0] *)
  | Post (n : Z).     (* before [_SEM_POST] *)

Record world := mk_world { os : os_s; heap : mm_heap_s; pcs : gmap Z pc }.

Definition pc_of (w : world) (p : Z) : pc := default (Idle 0) (pcs w !! p).
Definition goto (p : Z) (l : pc) (w : world) : world := mk_world (os w) (heap w) (<[p := l]> (pcs w)).
Definition on_heap (f : mm_heap_s → mm_heap_s) (w : world) : world := mk_world (os w) (f (heap w)) (pcs w).
Definition with_os (st : os_s) (w : world) : world := mk_world st (heap w) (pcs w).

Definition getpid (st : sched_s) : option Z :=
  match this_task st with
  | Some rtcb =>
      t ← tcbs st !! rtcb;
      Some (if decide (task_state t = TSTATE_TASK_RUNNING) then rtcb else - ESRCH)
  | None => Some 0
  end.

Definition mm_seminitialize (st : os_s) (sem : Z) : world :=
  mk_world (nxsem_init st sem 1).2 (mk_heap sem NO_HOLDER 0) ∅.

(** The step of the running task [p], which is also its [my_pid]. *)

Definition got (p n ret : Z) (w : world) : option world :=
  (if ret <? 0 then DEBUGASSERT ((ret =? - EINTR) || (ret =? - ECANCELED)) else Some ()) ;;
  Some (goto p (if ret =? - EINTR then Wait n else Claim n) w).

Definition claim (p : Z) (l : pc) (w : world) : option world :=
  match l with
  | Claim n => Some (goto p (Claimed n) (on_heap (set_holder p) w))
  | Claimed n => Some (goto p (Idle (n + 1)) (on_heap (set_counts 1) w))
  | Count n => Some (goto p (Idle (n + 1)) (on_heap (set_counts (s32 (mm_counts_held (heap w) + 1))) w))
  | _ => None
  end.

Definition mm_takesemaphore (p : Z) (l : pc) (w : world) : option world :=
  match l with
  | Idle n =>
      my_pid ← getpid (sched (os w));
      Some (goto p (if mm_holder (heap w) =? my_pid then Count n else Wait n) w)
  | Wait n =>
      '(ret, st) ← nxsem_wait (os w) (mm_semaphore (heap w));
      match ret with
      | None => Some (goto p (Blocked n) (with_os st w))
      | Some ret => got p n ret (with_os st w)
      end
  | Blocked n => ret ← nxsem_wait_result (os w) p; got p n ret w
  | l => claim p l w
  end.

Definition mm_trysemaphore (p : Z) (l : pc) (w : world) : option world :=
  match l with
  | Idle n =>
      my_pid ← getpid (sched (os w));
      if my_pid <? 0 then Some w
      else Some (goto p (if mm_holder (heap w) =? my_pid then Count n else TryWait n) w)
  | TryWait n =>
      '(ret, st) ← nxsem_trywait (os w) (mm_semaphore (heap w));
      Some (goto p (if ret <? 0 then Idle n else Claim n) (with_os st w))
  | l => claim p l w
  end.

Definition mm_givesemaphore (p : Z) (l : pc) (w : world) : option world :=
  match l with
  | Idle n =>
      my_pid ← getpid (sched (os w));
      DEBUGASSERT (mm_holder (heap w) =? my_pid) ;;
      Some (goto p (if 1 <? mm_counts_held (heap w) then Uncount n else Clear n) w)
  | Uncount n => Some (goto p (Idle (n - 1)) (on_heap (set_counts (s32 (mm_counts_held (heap w) - 1))) w))
  | Clear n => Some (goto p (Cleared n) (on_heap (set_holder NO_HOLDER) w))
  | Cleared n => Some (goto p (Post n) (on_heap (set_counts 0) w))
  | Post n =>
      '(ret, st) ← nxsem_post (os w) (mm_semaphore (heap w));
      DEBUGASSERT (0 <=? ret) ;;
      Some (goto p (Idle (n - 1)) (with_os st w))
  | _ => None
  end.

(** ** Interleavings *)

Inductive action :=
  | ATake
  | ATry
  | AGive
  | ARun              (* the running task goes on *)
  | AEnv (o : os_op). (* anything else happens in the system *)

Definition running (w : world) : Z := current (sched (os w)).

Definition step (w : world) (a : action) : option world :=
  let p := running w in
  let l := pc_of w p in
  match a with
  | ATake => mm_takesemaphore p l w
  | ATry => mm_trysemaphore p l w
  | AGive => mm_givesemaphore p l w
  | ARun =>
      match l with
      | Wait _ | Blocked _ | Count _ | Claim _ | Claimed _ => mm_takesemaphore p l w
      | TryWait _ => mm_trysemaphore p l w
      | Uncount _ | Clear _ | Cleared _ | Post _ => mm_givesemaphore p l w
      | Idle _ => Some w
      end
  | AEnv o => '(_, st) ← os_exec (os w) o; Some (with_os st w)
  end.

Definition may_take (l : pc) : bool := match l with Idle n => n <? INT_MAX | _ => false end.
Definition is_blocked (l : pc) : bool := match l with Blocked _ => true | _ => false end.
Definition is_out (l : pc) : bool := match l with Idle n => n =? 0 | _ => false end.

(** The functions are called by tasks that are in none of them, the idle task does not
    wait, the references fit an [int], and only who holds the heap gives it back.  Nothing
    else touches the semaphore; a wait for it ends with a count or with a signal; a task
    is not deleted while it uses the heap. *)

Definition env_may (w : world) (o : os_op) : bool :=
  let s := mm_semaphore (heap w) in
  os_may (os w) o &&
  match o with
  | OSched _ => true
  | OInit s' _ | OSem (SemOps.TryWait s') | OSem (SemOps.Post s') | OSem (Reset _ s' _) | OSem (Destroy s') => negb (s' =? s)
  | OSem (SemOps.Wait s') => negb (s' =? s) && match pc_of w (running w) with Idle _ => true | _ => false end
  | OSem (Irq p err) => negb (is_blocked (pc_of w p)) || (err =? EINTR)
  | OSem (Timeout p) => negb (is_blocked (pc_of w p))
  | OTerminate p _ => is_out (pc_of w p)
  | OExit _ => is_out (pc_of w (running w))
  end.

Definition may (w : world) (a : action) : bool :=
  match a with
  | ATake => may_take (pc_of w (running w)) && (0 <? running w)
  | ATry => may_take (pc_of w (running w)) && (0 <=? running w)
  | AGive => match pc_of w (running w) with Idle n => 0 <? n | _ => false end
  | ARun => true
  | AEnv o => env_may w o
  end.

Inductive reach : world → Prop :=
  | reach_init st s : os_reach st → sems st !! s = None → s ≠ NULL → reach (mm_seminitialize st s)
  | reach_next w a w' : reach w → may w a = true → step w a = Some w' → reach w'.

(** ** Invariant *)

Implicit Types (w : world) (p q : Z) (l : list Z) (A : pool).

(** The task has the count of the semaphore. *)

Definition owns w A p : Prop :=
  match pc_of w p with
  | Idle n => 0 < n
  | Wait _ | TryWait _ => False
  | Blocked _ => (p ∉ queue A wsem) ∧ code A p = Some OK
  | _ => True
  end.

Definition depth_ok p (c : pc) : Prop :=
  match c with
  | Idle n => 0 ≤ n ≤ INT_MAX
  | Count n => 0 < n < INT_MAX
  | Wait n | Blocked n => n = 0 ∧ 0 < p
  | TryWait n | Claim n | Claimed n => n = 0
  | Uncount n => 1 < n ≤ INT_MAX
  | Clear n | Cleared n | Post n => n = 1
  end.

(** What the owner has left in the fields of the heap. *)

Definition fields w (o : option Z) : Prop :=
  let h := heap w in
  match o with
  | None => mm_holder h = NO_HOLDER
  | Some p =>
      match pc_of w p with
      | Idle n | Count n | Uncount n | Clear n => mm_holder h = p ∧ mm_counts_held h = n
      | Claimed _ => mm_holder h = p
      | _ => mm_holder h = NO_HOLDER
      end
  end.

Record base w A (a : Z) l : Prop := {
  b_ok : sem_ok (os w) A;
  b_view : sview (sems (os w)) A (mm_semaphore (heap w)) = Some (a, l);
  b_depth : ∀ p, depth_ok p (pc_of w p);
  b_queue : ∀ p, p ∈ l → is_blocked (pc_of w p) = true;
  b_waits : ∀ p, is_blocked (pc_of w p) = true → p ∈ queue A wsem → p ∈ l;
  b_result : ∀ p, is_blocked (pc_of w p) = true → p ∉ queue A wsem → code A p = Some OK ∨ code A p = Some EINTR
}.

Record lock_inv w A (a : Z) l (o : option Z) : Prop := {
  li_base : base w A a l;
  li_avail : a = match o with Some _ => 0 | None => 1 end;
  li_owner : ∀ p, owns w A p ↔ o = Some p;
  li_fields : fields w o
}.

(** A task goes on as it was, or makes a step. *)

Definition kept (X : Z → Prop) w w' q : Prop :=
  pc_of w' q = pc_of w q ∧ (is_blocked (pc_of w q) = true → ¬ X q).

Definition moved A l w' q : Prop :=
  (q ∉ queue A wsem) ∧ depth_ok q (pc_of w' q) ∧ (is_blocked (pc_of w' q) = true ↔ q ∈ l).

Lemma view_waiters w A a l : sview (sems (os w)) A (mm_semaphore (heap w)) = Some (a, l) → l = waiters A (mm_semaphore (heap w)).
Proof. unfold sview. destruct (_ !! _); [|done]. by intros [= _ <-]. Qed.

Section Step.

Context (X : Z → Prop) (w w' : world) (A A' : pool) (a a' : Z) (l l' : list Z).
Context (Hb : base w A a l) (Hok : sem_ok (os w') A').
Context (Hsem : mm_semaphore (heap w') = mm_semaphore (heap w)).
Context (Hview : sview (sems (os w')) A' (mm_semaphore (heap w')) = Some (a', l')).
Context (Hframe : frame X A A').

Lemma kept_queue q : kept X w w' q → is_blocked (pc_of w q) = true → q ∈ queue A' wsem → q ∈ queue A wsem ∧ q ∈ l ∧ q ∈ l'.
Proof.
  intros [Hpc HX] Hbl Hq. destruct (decide (q ∈ queue A wsem)) as [Hin|Hout].
  - split; [done|]. pose proof (b_waits _ _ _ _ Hb q Hbl Hin) as Hl. split; [done|].
    rewrite (view_waiters w' A' a' l' Hview). rewrite (view_waiters w A a l (b_view _ _ _ _ Hb)) in Hl.
    apply list_elem_of_filter in Hl as [Hw _]. apply list_elem_of_filter. rewrite (fr_in _ _ _ Hframe q), Hsem by done. done.
  - destruct (fr_out _ _ _ Hframe q Hout (HX Hbl)) as [? _]. done.
Qed.

Lemma in_queue q : q ∈ l' → q ∈ queue A' wsem.
Proof. rewrite (view_waiters w' A' a' l' Hview). by intros [_ Hq]%list_elem_of_filter. Qed.

Lemma in_queue_before q : q ∈ l → q ∈ queue A wsem.
Proof. rewrite (view_waiters w A a l (b_view _ _ _ _ Hb)). by intros [_ Hq]%list_elem_of_filter. Qed.

Context (Hstep : ∀ q, kept X w w' q ∧ (q ∈ l' → q ∈ l) ∨ moved A l' w' q).
Context (Hends : ∀ q, q ∈ l → q ∈ l' ∨ code A' q = Some OK ∨ code A' q = Some EINTR).

Lemma base_step : base w' A' a' l'.
Proof.
  constructor; [done|done|..]; intros q.
  - destruct (Hstep q) as [[[-> _] _]|(_ & Hd & _)]; [|done]. by apply (b_depth _ _ _ _ Hb).
  - intros Hq. destruct (Hstep q) as [[[-> _] Hl]|(_ & _ & Hd)]; [|by apply Hd]. apply (b_queue _ _ _ _ Hb), Hl, Hq.
  - intros Hbl Hq. destruct (Hstep q) as [[Hk Hl]|(_ & _ & Hd)]; [|by apply Hd].
    pose proof Hk as [Hpc _]. rewrite Hpc in Hbl. by apply kept_queue.
  - intros Hbl Hq. destruct (Hstep q) as [[[Hpc HX] Hl]|(_ & _ & Hd)]; [|by apply Hd, in_queue in Hbl].
    rewrite Hpc in Hbl. destruct (decide (q ∈ queue A wsem)) as [Hin|Hout].
    + destruct (Hends q) as [Hl'|?]; [by apply (b_waits _ _ _ _ Hb)|by apply in_queue in Hl'|done].
    + destruct (fr_out _ _ _ Hframe q Hout (HX Hbl)) as [_ ->]. by apply (b_result _ _ _ _ Hb).
Qed.

Lemma kept_owns q : kept X w w' q → (owns w' A' q ↔ owns w A q ∨ (q ∈ l ∧ (q ∉ l') ∧ code A' q = Some OK)).
Proof.
  intros Hk. pose proof Hk as [Hpc HX]. unfold owns. rewrite Hpc.
  assert (Hnb : is_blocked (pc_of w q) = false → q ∉ l).
  { intros Hf Hq. pose proof (b_queue _ _ _ _ Hb q Hq). congruence. }
  destruct (pc_of w q) eqn:E; simpl in Hnb; try specialize (Hnb eq_refl); [tauto..| |tauto|tauto|tauto|tauto|tauto|tauto].
  pose proof (kept_queue q Hk) as Hkq. rewrite E in Hkq. pose proof (b_waits _ _ _ _ Hb q) as Hw. rewrite E in Hw.
  pose proof (in_queue q). pose proof (in_queue_before q). simpl in *.
  destruct (decide (q ∈ queue A wsem)) as [Hin|Hout]; [|destruct (fr_out _ _ _ Hframe q Hout (HX eq_refl)) as [? ->]; tauto].
  destruct (decide (q ∈ queue A' wsem)); tauto.
Qed.

End Step.

(** ** Steps of the running task *)

Lemma running_ok w A : sem_ok (os w) A → getpid (sched (os w)) = Some (running w) ∧ running w ∉ queue A wsem.
Proof.
  intros [Hs Hi]. destruct (head_tcb _ A Hs) as (t & H1 & H2 & H3 & _).
  assert (Hin : running w ∈ queue A rdy) by by apply head_Some_elem_of. split.
  - unfold getpid. rewrite H1, H2. cbn [mbind option_bind].
    rewrite decide_True; [done|]. rewrite (v_in _ A (ok_view _ _ Hs) (ok_pool _ _ Hs) rdy (running w) t Hin H2).
    unfold state_in. rewrite decide_True by done. by rewrite decide_True.
  - intros H. by pose proof (w_disj _ (ok_pool _ _ Hs) _ _ _ H Hin).
Qed.

Lemma pc_goto w q p c st h : pc_of (mk_world st h (<[p := c]> (pcs w))) q = if decide (q = p) then c else pc_of w q.
Proof. unfold pc_of. simpl. case_decide; [subst; by rewrite lookup_insert_eq|by rewrite lookup_insert_ne]. Qed.

Section Task.

Context (w : world) (A : pool) (a : Z) (l : list Z) (o : option Z) (Hinv : lock_inv w A a l o).

Let p := running w.

Lemma task_step X st' h' A' c' a' l' o' :
  let w' := mk_world st' h' (<[p := c']> (pcs w)) in
  sem_ok st' A' → mm_semaphore h' = mm_semaphore (heap w) → sview (sems st') A' (mm_semaphore h') = Some (a', l') →
  frame X A A' → (∀ q, q ≠ p → (¬ X q) ∧ (q ∈ l' → q ∈ l)) →
  (∀ q, q ∈ l → q ∈ l' ∨ code A' q = Some OK ∨ code A' q = Some EINTR) →
  depth_ok p c' → (is_blocked c' = true ↔ p ∈ l') → a' = match o' with Some _ => 0 | None => 1 end →
  (owns w' A' p ↔ o' = Some p) →
  (∀ q, q ≠ p → o = Some q ∨ (q ∈ l ∧ (q ∉ l') ∧ code A' q = Some OK) ↔ o' = Some q) →
  fields w' o' → lock_inv w' A' a' l' o'.
Proof.
  intros w' Hok Hh Hv Hf Hq He Hd Hbl Ha Hp Ho Hfl. destruct Hinv as [Hb Hav How Hfd].
  assert (Hk : ∀ q, q ≠ p → kept X w w' q) by (intros q Hne; split; [unfold w'; by rewrite pc_goto, decide_False|intros _; by apply Hq]).
  assert (Hpc : pc_of w' p = c') by (unfold w'; by rewrite pc_goto, decide_True).
  assert (Hst : ∀ q, kept X w w' q ∧ (q ∈ l' → q ∈ l) ∨ moved A l' w' q).
  { intros q. destruct (decide (q = p)) as [->|Hne]; [right|left; split; [by apply Hk|by apply Hq]].
    split; [apply (running_ok w A), Hb|]. by rewrite Hpc. }
  constructor; [by apply (base_step X w w' A A' a a' l l')|done| |done].
  intros q. destruct (decide (q = p)) as [->|Hne]; [done|].
  rewrite (kept_owns X w w' A A' a a' l l' Hb Hh Hv Hf q (Hk q Hne)), How. by apply Ho.
Qed.

(** Only the task's own position and the fields of the heap change. *)

Lemma local_step h' c' :
  let w' := mk_world (os w) h' (<[p := c']> (pcs w)) in
  mm_semaphore h' = mm_semaphore (heap w) → depth_ok p c' → is_blocked c' = false →
  (owns w' A p ↔ o = Some p) → fields w' o → lock_inv w' A a l o.
Proof.
  intros w' Hh Hd Hbl Hp Hfl. pose proof (li_base _ _ _ _ _ Hinv) as Hb.
  apply (task_step nobody); [apply Hb|done|rewrite Hh; apply Hb|done|intros q _; split; [by intros []|done]|by left|done| |apply Hinv|done| |done].
  - rewrite Hbl. split; [done|]. intros Hl. destruct (running_ok w A (b_ok _ _ _ _ Hb)) as [_ Hn].
    by apply (in_queue_before w A a l Hb) in Hl.
  - intros q _. split; [intros [?|(? & ? & _)]; done|by left].
Qed.

Lemma holder_other : 0 ≤ p → o ≠ Some p → mm_holder (heap w) ≠ p.
Proof.
  intros Hp Hne. pose proof (li_fields _ _ _ _ _ Hinv) as Hf. unfold fields, NO_HOLDER in Hf.
  destruct o as [q|]; [|lia]. assert (q ≠ p) by congruence. destruct (pc_of w q); intuition lia.
Qed.

(** The fields do not depend on what other tasks do. *)

Lemma fields_other st' c' : o ≠ Some p → fields (mk_world st' (heap w) (<[p := c']> (pcs w))) o.
Proof.
  intros Hne. pose proof (li_fields _ _ _ _ _ Hinv) as Hf. unfold fields in *. destruct o as [q|]; [|done].
  rewrite pc_goto, decide_False by congruence. exact Hf.
Qed.

Lemma fields_self h' st' c' :
  fields (mk_world st' h' (<[p := c']> (pcs w))) (Some p) ↔
  match c' with
  | Idle n | Count n | Uncount n | Clear n => mm_holder h' = p ∧ mm_counts_held h' = n
  | Claimed _ => mm_holder h' = p
  | _ => mm_holder h' = NO_HOLDER
  end.
Proof. unfold fields. by rewrite pc_goto, decide_True. Qed.

Lemma owns_self h' st' A' c' :
  owns (mk_world st' h' (<[p := c']> (pcs w))) A' p ↔
  match c' with
  | Idle n => 0 < n
  | Wait _ | TryWait _ => False
  | Blocked _ => (p ∉ queue A' wsem) ∧ code A' p = Some OK
  | _ => True
  end.
Proof. unfold owns. by rewrite pc_goto, decide_True. Qed.

Lemma owner_at : owns w A p ↔ o = Some p.
Proof. apply Hinv. Qed.

(** The calls *)

Lemma check_ok n c1 c2 :
  pc_of w p = Idle n → 0 ≤ p → (c1 = Count n ∧ n < INT_MAX) → (c2 = Wait n ∧ 0 < p ∨ c2 = TryWait n) →
  lock_inv (goto p (if mm_holder (heap w) =? p then c1 else c2) w) A a l o.
Proof.
  intros Hpc Hp [-> Hn] Hc2. pose proof owner_at as Ho. pose proof (li_fields _ _ _ _ _ Hinv) as Hf.
  pose proof (b_depth _ _ _ _ (li_base _ _ _ _ _ Hinv) p) as Hd. rewrite Hpc in Hd. simpl in Hd.
  unfold owns in Ho. rewrite Hpc in Ho. unfold goto. destruct (decide (o = Some p)) as [Hs|Hs].
  - assert (Hh : mm_holder (heap w) = p ∧ mm_counts_held (heap w) = n) by (rewrite Hs in Hf; unfold fields in Hf; by rewrite Hpc in Hf).
    assert (0 < n) by tauto. rewrite (proj2 (Z.eqb_eq _ _)) by apply Hh. apply local_step; [done|simpl; lia|done| |rewrite Hs; by apply fields_self].
    rewrite owns_self. tauto.
  - rewrite (proj2 (Z.eqb_neq _ _)) by by apply holder_other. assert (n = 0) by (destruct (decide (0 < n)); [tauto|lia]).
    apply local_step; [done|by destruct Hc2 as [[-> ?]| ->]|by destruct Hc2 as [[-> ?]| ->]| |by apply fields_other].
    rewrite owns_self. destruct Hc2 as [[-> ?]| ->]; tauto.
Qed.

Lemma give_ok n :
  pc_of w p = Idle n → 0 < n →
  ∃ w', mm_givesemaphore p (Idle n) w = Some w' ∧ lock_inv w' A a l o.
Proof.
  intros Hpc Hn. pose proof owner_at as Ho. pose proof (li_fields _ _ _ _ _ Hinv) as Hf.
  pose proof (li_base _ _ _ _ _ Hinv) as Hb. pose proof (b_depth _ _ _ _ Hb p) as Hd. rewrite Hpc in Hd. simpl in Hd.
  unfold owns in Ho. rewrite Hpc in Ho. assert (Hs : o = Some p) by tauto. rewrite Hs in Hf.
  unfold fields in Hf. rewrite Hpc in Hf. destruct Hf as [Hh Hc]. unfold mm_givesemaphore.
  destruct (running_ok w A (b_ok _ _ _ _ Hb)) as [-> _]. cbn [mbind option_bind]. fold p. rewrite (proj2 (Z.eqb_eq _ _)) by done.
  cbn [DEBUGASSERT mbind option_bind]. eexists. split; [done|]. unfold goto. rewrite Hc.
  apply local_step; [done| | | |rewrite Hs; apply fields_self]; destruct (Z.ltb_spec 1 n); simpl; try done; try lia.
  - rewrite owns_self. tauto.
  - rewrite owns_self. tauto.
Qed.

(** The steps of the owner on the fields *)

Lemma own_fields c :
  pc_of w p = c → (match c with Count _ | Claim _ | Claimed _ | Uncount _ | Clear _ | Cleared _ => True | _ => False end) →
  ∃ w', step w ARun = Some w' ∧ lock_inv w' A a l o.
Proof.
  intros Hpc Hc. pose proof owner_at as Ho. pose proof (li_fields _ _ _ _ _ Hinv) as Hf.
  pose proof (b_depth _ _ _ _ (li_base _ _ _ _ _ Hinv) p) as Hd. unfold owns in Ho. rewrite Hpc in Hd, Ho.
  assert (Hs : o = Some p) by (apply Ho; by destruct c). rewrite Hs in Hf. unfold fields in Hf. rewrite Hpc in Hf.
  unfold step. fold p. rewrite Hpc.
  destruct c; try done; simpl in Hd, Hf; unfold INT_MAX in Hd; simpl; eexists; (split; [done|]); unfold goto, on_heap, with_os; simpl;
    apply local_step; try done; try (rewrite owns_self; simpl; intuition lia); try (rewrite Hs; apply fields_self; simpl);
    try (simpl; unfold INT_MAX; lia).
  - rewrite s32_small by lia. intuition lia.
  - rewrite s32_small by lia. intuition lia.
Qed.

(** The wait is over: the task has the count, or a signal came. *)

Lemma resume_ok n : pc_of w p = Blocked n → ∃ w', step w ARun = Some w' ∧ lock_inv w' A a l o.
Proof.
  intros Hpc. pose proof owner_at as Ho. pose proof (li_base _ _ _ _ _ Hinv) as Hb. pose proof (li_fields _ _ _ _ _ Hinv) as Hf.
  pose proof (b_depth _ _ _ _ Hb p) as Hd. unfold owns in Ho. rewrite Hpc in Ho, Hd. simpl in Hd. destruct Hd as [-> Hp].
  destruct (running_ok w A (b_ok _ _ _ _ Hb)) as [_ Hn]. fold p in Hn.
  unfold step. fold p. rewrite Hpc. unfold mm_takesemaphore. rewrite (result_code _ A) by apply Hb.
  destruct (b_result _ _ _ _ Hb p) as [Hc|Hc]; [by rewrite Hpc|done| |]; rewrite Hc; cbn; eexists; (split; [done|]); unfold goto.
  - assert (Hs : o = Some p) by tauto. rewrite Hs in Hf. unfold fields in Hf. rewrite Hpc in Hf.
    apply local_step; [done..| |rewrite Hs; by apply fields_self]. rewrite owns_self. simpl. tauto.
  - assert (Hs : o ≠ Some p) by (rewrite <- Ho, Hc; intros [_ [=]]).
    apply local_step; [done..| |by apply fields_other]. rewrite owns_self. simpl. tauto.
Qed.

(** The view after an operation on the heap's semaphore *)

Lemma at_sem S S' v : becomes S S' (mm_semaphore (heap w)) v → S' (mm_semaphore (heap w)) = Some v.
Proof. intros Hbe. by rewrite Hbe, decide_True. Qed.

Lemma sem_there : is_Some (sems (os w) !! mm_semaphore (heap w)).
Proof.
  pose proof (b_view _ _ _ _ (li_base _ _ _ _ _ Hinv)) as Hv. unfold sview in Hv. by destruct (sems (os w) !! _).
Qed.

(** A count was available. *)

Lemma acquire_ok X st' A' c v :
  o ≠ Some p → sem_ok st' A' → frame X A A' → (∀ q, q ≠ p → ¬ X q) → c = Claim 0 → 0 < a → l = [] →
  becomes (sview (sems (os w)) A) (sview (sems st') A') (mm_semaphore (heap w)) (v, []) → v = a - 1 →
  lock_inv (mk_world st' (heap w) (<[p := c]> (pcs w))) A' v [] (Some p).
Proof.
  intros Hne Hok Hf HX -> Ha Hl Hbe ->. pose proof (li_avail _ _ _ _ _ Hinv) as Hav.
  assert (Ho : o = None) by (destruct o; [lia|done]). rewrite Ho in Hav.
  pose proof (li_fields _ _ _ _ _ Hinv) as Hfd. rewrite Ho in Hfd.
  apply (task_step X); [done|done|by eapply at_sem|done|intros q Hq; split; [by apply HX|set_solver]|rewrite Hl; set_solver|done| |lia| | |].
  - split; [done|set_solver].
  - by rewrite owns_self.
  - intros q Hq. rewrite Ho, Hl. set_solver.
  - by apply fields_self.
Qed.

End Task.

Definition good w : Prop := ∃ A a l o, lock_inv w A a l o.

Lemma trywait_step w A a l o n :
  lock_inv w A a l o → pc_of w (running w) = TryWait n → ∃ w', step w ARun = Some w' ∧ good w'.
Proof.
  intros Hinv Hpc. pose proof (owner_at w A a l o Hinv) as Ho. pose proof (li_base _ _ _ _ _ Hinv) as Hb.
  pose proof (b_depth _ _ _ _ Hb (running w)) as Hd. unfold owns in Ho. rewrite Hpc in Ho, Hd. simpl in Hd. subst n.
  assert (Hs : o ≠ Some (running w)) by tauto. unfold step. rewrite Hpc. unfold mm_trysemaphore.
  destruct (sem_there w A a l o Hinv) as [c Hc].
  destruct (trywait_ok (os w) A (b_ok _ _ _ _ Hb) _ c Hc) as (ret & st' & -> & Hok & _ & Hst).
  cbn [mbind option_bind]. pose proof (b_view _ _ _ _ Hb) as Hv. destruct (running_ok w A (b_ok _ _ _ _ Hb)) as [_ Hq].
  inversion Hst as [| |? a1 Hv1 Ha1 Hbe|? l1 Hv1 Hun| | | | | | | | |]; subst; rewrite Hv in Hv1; simplify_eq.
  - eexists. split; [done|]. exists A, (a1 - 1), [], (Some (running w)). unfold goto, with_os. simpl.
    by eapply (acquire_ok _ _ _ _ _ Hinv nobody); [| | |intros q _ []|..].
  - eexists. split; [done|]. exists A, 0, l1, o. unfold goto, with_os. simpl.
    apply (task_step _ _ _ _ _ Hinv nobody); [done|done|by rewrite Hun|done|intros q _; split; [by intros []|done]|by left|done| |apply Hinv| | |by apply (fields_other w A 0 l1)].
    + split; [done|]. by intros Hl%(in_queue_before w A _ _ Hb).
    + rewrite owns_self. simpl. naive_solver lia.
    + intros q _. split; [intros [?|(? & ? & _)]; done|by left].
Qed.

Lemma wait_step w A a l o n :
  lock_inv w A a l o → pc_of w (running w) = Wait n → ∃ w', step w ARun = Some w' ∧ good w'.
Proof.
  intros Hinv Hpc. pose proof (owner_at w A a l o Hinv) as Ho. pose proof (li_base _ _ _ _ _ Hinv) as Hb.
  pose proof (b_depth _ _ _ _ Hb (running w)) as Hd. unfold owns in Ho. rewrite Hpc in Ho, Hd. simpl in Hd. destruct Hd as [-> Hp].
  assert (Hs : o ≠ Some (running w)) by tauto. unfold step. rewrite Hpc. unfold mm_takesemaphore.
  destruct (sem_there w A a l o Hinv) as [c Hc].
  destruct (wait_ok (os w) A (b_ok _ _ _ _ Hb) _ c Hc) as (ret & st' & A' & -> & Hok & Hst & _ & Hf); [right; unfold running in Hp; lia|].
  cbn [mbind option_bind]. pose proof (b_view _ _ _ _ Hb) as Hv. destruct (running_ok w A (b_ok _ _ _ _ Hb)) as [_ Hq].
  inversion Hst as [? a1 Hv1 Ha1 Hbe|? l1 Hv1 Hbe| | | | | | | | | | |]; subst; rewrite Hv in Hv1; simplify_eq.
  - eexists. split; [done|]. exists A', (a1 - 1), [], (Some (running w)). unfold goto, with_os. simpl.
    by eapply (acquire_ok _ _ _ _ _ Hinv); [| |exact Hf|by intros q Hne <-|..].
  - eexists. split; [done|]. exists A', 0, (enqueue (prio A) (running w) l1), o. unfold goto, with_os. simpl.
    pose proof (at_sem w _ _ _ Hbe) as Hv'.
    apply (task_step _ _ _ _ _ Hinv (eq (running w))); [done|done|done|done| | |done| |apply Hinv| | |by apply (fields_other w A 0 l1)].
    + intros q Hne. split; [by intros <-|]. rewrite elem_enqueue. naive_solver.
    + intros q Hl. left. rewrite elem_enqueue. by right.
    + split; [|done]. intros _. rewrite elem_enqueue. by left.
    + rewrite owns_self. split; [|done]. intros [Hn _]. destruct Hn.
      apply (in_queue (mk_world st' (heap w) ∅) A' 0 (enqueue (prio A) (running w) l1) Hv'). rewrite elem_enqueue. by left.
    + intros q Hne. rewrite elem_enqueue. naive_solver.
Qed.

Lemma view_NoDup w A a l : base w A a l → NoDup l.
Proof.
  intros Hb. rewrite (view_waiters w A a l (b_view _ _ _ _ Hb)). apply NoDup_filter.
  apply (w_nodup _ (ok_pool _ _ (so_sched _ _ (b_ok _ _ _ _ Hb)))).
Qed.

Lemma post_step w A a l o n :
  lock_inv w A a l o → pc_of w (running w) = Post n → ∃ w', step w ARun = Some w' ∧ good w'.
Proof.
  intros Hinv Hpc. pose proof (owner_at w A a l o Hinv) as Ho. pose proof (li_base _ _ _ _ _ Hinv) as Hb.
  pose proof (b_depth _ _ _ _ Hb (running w)) as Hd. unfold owns in Ho. rewrite Hpc in Ho, Hd. simpl in Hd. subst n.
  assert (Hs : o = Some (running w)) by tauto. pose proof (li_avail _ _ _ _ _ Hinv) as Hav. rewrite Hs in Hav.
  pose proof (li_fields _ _ _ _ _ Hinv) as Hfd. rewrite Hs in Hfd. unfold fields in Hfd. rewrite Hpc in Hfd.
  unfold step. rewrite Hpc. unfold mm_givesemaphore. destruct (sem_there w A a l o Hinv) as [c Hc].
  destruct (post_ok (os w) A (b_ok _ _ _ _ Hb) _ c Hc) as (ret & st' & A' & -> & Hok & Hst & Hcode & _ & Hf).
  cbn [mbind option_bind]. pose proof (b_view _ _ _ _ Hb) as Hv. destruct (running_ok w A (b_ok _ _ _ _ Hb)) as [_ Hq].
  pose proof (view_NoDup w A a l Hb) as Hnd.
  assert (HA : pool_ok A) by apply (so_sched _ _ (b_ok _ _ _ _ Hb)).
  assert (Hin : ∀ q, q ∈ l → code A' q = Some OK).
  { intros q Hl%(in_queue_before w A a l Hb). by rewrite Hcode, (waiting_code _ A q (so_sems _ _ (b_ok _ _ _ _ Hb)) HA). }
  inversion Hst as [| | | |? x l1 Hv1 Hbe|? a1 Hv1 _ Hbe|? Hv1 _| | | | | |]; subst; rewrite Hv in Hv1; simplify_eq;
    eexists; (split; [done|]); unfold goto, with_os; simpl.
  - apply NoDup_cons in Hnd as [Hx _]. assert (Hxr : x ≠ running w) by (intros ->; apply Hq, (in_queue_before w A 0 (running w :: l1) Hb); set_solver).
    exists A', 0, l1, (Some x). pose proof (at_sem w _ _ _ Hbe) as Hv'.
    apply (task_step _ _ _ _ _ Hinv nobody); [done|done|done|done| | |done| |done| | |].
    + intros q _. split; [by intros []|set_solver].
    + intros q Hl. right; left. by apply Hin.
    + split; [done|]. intros Hl. destruct Hq. apply (in_queue_before w A 0 (x :: l1) Hb). set_solver.
    + rewrite owns_self. simpl. split; [lia|]. by intros [= ->].
    + intros q Hne. split; [|intros [= ->]; right; split; [set_solver|split; [done|apply Hin; set_solver]]].
      intros [[= <-]|(Hl & Hl' & _)]; [done|]. f_equal. set_solver.
    + unfold fields. rewrite pc_goto, decide_False by done. pose proof (b_queue _ _ _ _ Hb x) as Hbx.
      destruct (pc_of w x); try (by specialize (Hbx ltac:(set_solver))).
  - exists A', 1, [], None. pose proof (at_sem w _ _ _ Hbe) as Hv'.
    apply (task_step _ _ _ _ _ Hinv nobody); [done|done|done|done| |by left|done| |done| | |done].
    + intros q _. split; [by intros []|done].
    + split; [done|set_solver].
    + rewrite owns_self. simpl. split; [lia|done].
    + intros q Hne. split; [|done]. intros [[= <-]|(Hl & _)]; [done|set_solver].
Qed.

Lemma task_ok w a :
  good w → may w a = true → match a with AEnv _ => False | _ => True end → ∃ w', step w a = Some w' ∧ good w'.
Proof.
  intros (A & c & l & o & Hinv) Hm Ha. pose proof (running_ok w A (b_ok _ _ _ _ (li_base _ _ _ _ _ Hinv))) as [Hpid _].
  unfold may in Hm. destruct a as [| | | |]; try done.
  - apply andb_true_iff in Hm as [Hm Hp]. unfold step. destruct (pc_of w (running w)) as [n| | | | | | | | | |] eqn:Hpc; try done.
    simpl in Hm. unfold mm_takesemaphore. rewrite Hpid. cbn [mbind option_bind]. eexists. split; [done|]. exists A, c, l, o.
    apply (check_ok _ _ _ _ _ Hinv n); [done|lia|split; [done|lia]|left; split; [done|lia]].
  - apply andb_true_iff in Hm as [Hm Hp]. unfold step. destruct (pc_of w (running w)) as [n| | | | | | | | | |] eqn:Hpc; try done.
    simpl in Hm. unfold mm_trysemaphore. rewrite Hpid. cbn [mbind option_bind]. rewrite (proj2 (Z.ltb_ge _ _)) by lia.
    eexists. split; [done|]. exists A, c, l, o.
    apply (check_ok _ _ _ _ _ Hinv n); [done|lia|split; [done|lia]|by right].
  - unfold step. destruct (pc_of w (running w)) as [n| | | | | | | | | |] eqn:Hpc; try done.
    destruct (give_ok _ _ _ _ _ Hinv n Hpc) as (w' & E & Hw'); [lia|]. exists w'. split; [done|]. by exists A, c, l, o.
  - destruct (pc_of w (running w)) as [n| | | | | | | | | |] eqn:Hpc;
      try (destruct (own_fields _ _ _ _ _ Hinv _ Hpc I) as (w' & E & Hw'); exists w'; (split; [done|]); by exists A, c, l, o).
    + exists w. unfold step. rewrite Hpc. split; [done|]. by exists A, c, l, o.
    + by eapply trywait_step.
    + by eapply wait_step.
    + destruct (resume_ok _ _ _ _ _ Hinv _ Hpc) as (w' & E & Hw'). exists w'. split; [done|]. by exists A, c, l, o.
    + by eapply post_step.
Qed.

(** ** Everything else *)

Record outside w A (a : Z) l st' A' : Prop := {
  out_ok : sem_ok st' A';
  out_view : ∃ l', sview (sems st') A' (mm_semaphore (heap w)) = Some (a, l') ∧
    (∀ q, q ∈ l' → q ∈ l) ∧ ∀ q, q ∈ l → q ∈ l' ∨ code A' q = Some EINTR;
  out_frame : ∃ X, frame X A A' ∧ ∀ q, is_blocked (pc_of w q) = true → ¬ X q
}.

Lemma outside_step w A a l o st' A' : lock_inv w A a l o → outside w A a l st' A' → good (with_os st' w).
Proof.
  intros [Hb Hav How Hfd] [Hok (l' & Hv & Hsub & Hend) (X & Hf & HX)]. exists A', a, l', o.
  assert (Hk : ∀ q, kept X w (with_os st' w) q) by (intros q; split; [done|apply HX]).
  constructor; [|done| |done].
  - apply (base_step X w (with_os st' w) A A' a a l l'); [done..| |].
    + intros q. left. split; [apply Hk|apply Hsub].
    + intros q Hq. destruct (Hend q Hq); tauto.
  - intros q. rewrite (kept_owns X w (with_os st' w) A A' a a l l' Hb eq_refl Hv Hf q (Hk q)), How. split; [|by left].
    intros [?|(Hq & Hq' & Hc)]; [done|]. destruct (Hend q Hq) as [?|Hc']; [done|]. rewrite Hc in Hc'. done.
Qed.

(** A task in a wait exists. *)

Lemma blocked_known w A a l q : base w A a l → is_blocked (pc_of w q) = true → is_Some (core A !! q).
Proof.
  intros Hb Hq. destruct (decide (q ∈ queue A wsem)) as [Hin|Hout].
  - eapply w_known; [|exact Hin]. apply (so_sched _ _ (b_ok _ _ _ _ Hb)).
  - destruct (b_result _ _ _ _ Hb q Hq Hout) as [Hc|Hc]; unfold code in Hc; by destruct (core A !! q).
Qed.

Section Env.

Context (w : world) (A : pool) (a : Z) (l : list Z) (Hb : base w A a l).

Lemma env_sched op ret st' :
  env_may w (OSched op) = true → os_exec (os w) (OSched op) = Some (ret, st') → ∃ A', outside w A a l st' A'.
Proof.
  intros Hm E. unfold env_may in Hm. rewrite andb_true_r in Hm.
  destruct (sched_op_ok _ A op ret st' (b_ok _ _ _ _ Hb) Hm E) as (A' & Hok & Hs & Hf & Hw). exists A'.
  pose proof (b_view _ _ _ _ Hb) as Hv. pose proof (view_waiters w A a l Hv) as Hl.
  constructor; [done| |].
  - exists (waiters A' (mm_semaphore (heap w))). unfold sview in *. rewrite Hs. destruct (sems (os w) !! _) as [c|]; [|done].
    simplify_eq/=. split; [done|]. split; intros q; rewrite !Hw; [done|by left].
  - exists (created op). split; [done|]. intros q Hq. destruct op as [p n tt| | | | | | |]; try by intros []. simpl. intros ->.
    destruct (blocked_known w A a l q Hb Hq) as [t Ht]. unfold os_may, SchedProps.may in Hm.
    rewrite !andb_true_iff, bool_decide_eq_true in Hm. destruct Hm as [[[Hp _] _] _].
    rewrite <- (v_core _ _ (ok_view _ _ (so_sched _ _ (b_ok _ _ _ _ Hb)))), lookup_fmap, Hp in Ht. done.
Qed.

(** An operation on another semaphore *)

Lemma sstep_other pr r (S S' : Z → option (Z * list Z)) op ret s :
  sstep pr r S S' op ret →
  match op with
  | SemOps.Wait s' | SemOps.TryWait s' | SemOps.Post s' | Reset _ s' _ | Destroy s' => s' ≠ s
  | _ => False
  end → S' s = S s.
Proof.
  intros Hst Hne. destruct Hst as [? ? _ _ H|? ? _ H|? ? _ _ H|? ? _ H|? ? ? _ H|? ? _ _ H|? _ H| | |
    |? ? ? ? _ H|? ? _ H|? ? ? ? _ H]; try done; rewrite H; rewrite ?decide_False by congruence; done.
Qed.

(** A signal *)

Lemma env_irq p err (S' : Z → option (Z * list Z)) pr r ret :
  sstep pr r (sview (sems (os w)) A) S' (Irq p err) ret →
  ∃ l', S' (mm_semaphore (heap w)) = Some (a, l') ∧ (∀ q, q ∈ l' → q ∈ l) ∧ ∀ q, q ∈ l → q ∈ l' ∨ q = p.
Proof.
  intros Hst. pose proof (b_view _ _ _ _ Hb) as Hv.
  inversion Hst as [| | | | | | |? ? s l1 Hv1 Hp Hbe|? ? Hn Hun| | | |]; subst.
  - destruct (decide (mm_semaphore (heap w) = s)) as [Hs|Hs].
    + subst s. rewrite Hv in Hv1. simplify_eq. exists (dq_rem p l1). split; [by rewrite Hbe, decide_True|].
      split; intros q; rewrite elem_dq_rem; [tauto|]. destruct (decide (q = p)); tauto.
    + exists l. rewrite Hbe, decide_False by done. split; [done|]. split; [done|by left].
  - exists l. rewrite Hun. split; [done|]. split; [done|by left].
Qed.

Lemma env_sem op ret st' :
  env_may w (OSem op) = true → os_exec (os w) (OSem op) = Some (ret, st') → ∃ A', outside w A a l st' A'.
Proof.
  intros Hm E. apply andb_true_iff in Hm as [Hm Hx]. pose proof (b_view _ _ _ _ Hb) as Hv.
  destruct (sem_op_ok _ A op (b_ok _ _ _ _ Hb) Hm) as (ret' & st2 & A' & E' & Hok & Hst & Hw & Hf).
  simpl in E. rewrite E' in E. simplify_eq. exists A'.
  assert (Hin : ∀ l' q, sview (sems st') A' (mm_semaphore (heap w)) = Some (a, l') → q ∈ l → q ∉ l' →
    is_blocked (pc_of w q) = true ∧ (wakes_with op = - EINTR → code A' q = Some EINTR)).
  { intros l' q Hv' Hq Hq'. split; [by apply (b_queue _ _ _ _ Hb)|]. intros He.
    pose proof (in_queue_before w A a l Hb q Hq) as Hqq. assert (Hnq : q ∉ queue A' wsem).
    { intros Hn. apply Hq'. rewrite (view_waiters (with_os st' w) A' a l' Hv'). apply list_elem_of_filter. split; [|done].
      rewrite (fr_in _ _ _ Hf q) by done. rewrite (view_waiters w A a l Hv) in Hq. by apply list_elem_of_filter in Hq as [? _]. }
    specialize (Hw q Hqq Hnq). rewrite (result_code _ A') in Hw by done. rewrite He in Hw.
    destruct (code A' q) as [e|]; [|done]. unfold EINTR in *. simplify_eq/=. f_equal. lia. }
  constructor; [done| |].
  - assert (Hdef : sview (sems st') A' (mm_semaphore (heap w)) = sview (sems (os w)) A (mm_semaphore (heap w)) →
      ∃ l', sview (sems st') A' (mm_semaphore (heap w)) = Some (a, l') ∧
        (∀ q, q ∈ l' → q ∈ l) ∧ ∀ q, q ∈ l → q ∈ l' ∨ code A' q = Some EINTR).
    { intros ->. exists l. split; [done|]. split; [done|by left]. }
    destruct op as [s|s|s|p err|p|irq s n|s].
    1-3, 6-7: apply Hdef; eapply sstep_other; [exact Hst|]; try apply andb_true_iff in Hx as [Hx _]; simpl; lia.
    + destruct (env_irq p err _ _ _ _ Hst) as (l' & Hv' & Hs & Hl). exists l'. split; [done|]. split; [done|].
      intros q Hq. destruct (decide (q ∈ l')) as [?|Hn]; [by left|right]. destruct (Hl q Hq) as [?| ->]; [done|].
      destruct (Hin l' p Hv' Hq Hn) as [Hbl Hcode]. rewrite Hbl in Hx. simpl in Hx. apply Hcode. simpl. f_equal. lia.
    + inversion Hst; subst. destruct (env_irq p ETIMEDOUT _ _ _ _ ltac:(eassumption)) as (l' & Hv' & Hs & Hl).
      exists l'. split; [done|]. split; [done|]. intros q Hq. destruct (decide (q ∈ l')) as [?|Hn]; [by left|].
      destruct (Hl q Hq) as [?| ->]; [done|]. destruct (Hin l' p Hv' Hq Hn) as [Hbl _]. by rewrite Hbl in Hx.
  - eexists. split; [exact Hf|]. intros q Hq [s [-> Hr]]. apply andb_true_iff in Hx as [_ Hx].
    change (running w = q) in Hr. rewrite Hr in Hx. by destruct (pc_of w q).
Qed.

Lemma env_init s v ret st' :
  env_may w (OInit s v) = true → os_exec (os w) (OInit s v) = Some (ret, st') → ∃ A', outside w A a l st' A'.
Proof.
  intros Hm E. apply andb_true_iff in Hm as [Hm Hx]. exists A. pose proof (seminit_ok _ A s v (b_ok _ _ _ _ Hb) Hm) as Hok.
  pose proof (b_view _ _ _ _ Hb) as Hv. constructor.
  - simpl in E. destruct (nxsem_init (os w) s v). by simplify_eq.
  - exists l. split; [|split; [done|by left]]. rewrite <- Hv. simpl in E. unfold nxsem_init in E.
    destruct (negb (s =? NULL) && (v <=? SEM_VALUE_MAX)); simplify_eq; [|done]. unfold sview. simpl.
    by rewrite lookup_insert_ne by lia.
  - exists nobody. split; [done|]. by intros q _ [].
Qed.

Lemma gone_frame k p : p ∈ queue A k → frame (eq p) A (gone k p A).
Proof.
  intros Hp. split.
  - intros q Hq. simpl. intros Hq'. unfold gone. rewrite erase_for; [done|]. intros ->.
    assert (HA : pool_ok A) by apply (so_sched _ _ (b_ok _ _ _ _ Hb)).
    rewrite (w_disj _ HA _ _ _ Hp Hq) in Hq'. rewrite decide_True in Hq' by done. by apply elem_dq_rem in Hq' as [? _].
  - intros q Hq Hne. simpl. split; [case_decide; [rewrite elem_dq_rem; subst; tauto|done]|].
    unfold code. simpl. by rewrite lookup_delete_ne.
Qed.

Lemma env_terminate p group ret st' :
  env_may w (OTerminate p group) = true → os_exec (os w) (OTerminate p group) = Some (ret, st') →
  ∃ A', outside w A a l st' A'.
Proof.
  intros Hm E. apply andb_true_iff in Hm as [Hm Hx]. unfold os_may in Hm. rewrite !andb_true_iff in Hm.
  destruct Hm as [[[Hp0 Hpc] Hq] Ht]. destruct (tcbs (sched (os w)) !! p) as [t|] eqn:Et; [|done].
  rewrite andb_true_iff, bool_decide_eq_true in Ht. destruct Ht as [Hst Hfl]. pose proof (b_ok _ _ _ _ Hb) as Hok.
  pose proof (v_queued _ A (ok_view _ _ (so_sched _ _ Hok)) (ok_pool _ _ (so_sched _ _ Hok)) p t Et Hst) as Hin.
  destruct (terminate_ok (os w) A p t _ group Hok Hin) as (st2 & E' & Hok' & _ & Hv'); [lia|lia|done|lia|done|].
  simpl in E. rewrite E' in E. simplify_eq/=. exists (gone (norm (task_state t)) p A).
  assert (Hnb : is_blocked (pc_of w p) = false) by by destruct (pc_of w p). constructor; [done| |].
  - exists (dq_rem p l). rewrite Hv', (b_view _ _ _ _ Hb). split; [done|]. split; intros q; rewrite elem_dq_rem; [tauto|].
    intros Hl. left. split; [|done]. intros ->. pose proof (b_queue _ _ _ _ Hb p Hl). congruence.
  - exists (eq p). split; [by apply gone_frame|]. intros q Hbl <-. congruence.
Qed.

Lemma env_exit group ret st' :
  env_may w (OExit group) = true → os_exec (os w) (OExit group) = Some (ret, st') → ∃ A', outside w A a l st' A'.
Proof.
  intros Hm E. apply andb_true_iff in Hm as [Hm Hx]. unfold os_may in Hm. apply andb_true_iff in Hm as [H0 Hq].
  pose proof (b_ok _ _ _ _ Hb) as Hok. destruct (running_ok w A Hok) as [_ Hn].
  destruct (exit_ok (os w) A (running w) group Hok eq_refl) as (st2 & E' & Hs & Hok'); [unfold running; lia|done|].
  simpl in E. unfold SemOps.void in E. rewrite E' in E. simplify_eq/=.
  set (A' := erase (running w) (release (take rdy (running w) A))) in *. exists A'.
  assert (Hf : frame (eq (running w)) A A').
  { split; [intros q Hin _; unfold A'; rewrite erase_for; [done|by intros ->]|].
    intros q Hq' Hne. split; [done|]. unfold code. simpl. by rewrite lookup_delete_ne. }
  constructor; [done| |].
  - exists l. pose proof (b_view _ _ _ _ Hb) as Hv. rewrite <- Hv. split; [|split; [done|by left]].
    unfold sview. rewrite Hs. destruct (sems (os w) !! _); [|done]. simpl. do 2 f_equal. unfold waiters.
    apply filter_tasks. intros q Hin. by rewrite (fr_in _ _ _ Hf q).
  - exists (eq (running w)). split; [done|]. intros q Hbl <-. by destruct (pc_of w (running w)).
Qed.

End Env.

Lemma env_ok w o w' : good w → env_may w o = true → step w (AEnv o) = Some w' → good w'.
Proof.
  intros (A & a & l & ow & Hinv) Hm E. pose proof (li_base _ _ _ _ _ Hinv) as Hb. unfold step in E.
  destruct (os_exec (os w) o) as [[ret st']|] eqn:Ex; [|done]. simplify_eq/=.
  enough (∃ A', outside w A a l st' A') as [A' Ho] by by eapply outside_step.
  destruct o; [by eapply env_sched|by eapply env_init|by eapply env_sem|by eapply env_terminate|by eapply env_exit].
Qed.

Lemma init_good st s : os_reach st → sems st !! s = None → s ≠ NULL → good (mm_seminitialize st s).
Proof.
  intros Hr Hs Hs0. set (A := pool_of (sched st)). pose proof (os_reach_ok st Hr) as Hok.
  pose proof (seminit_ok st A s 1 Hok) as Hok'. unfold mm_seminitialize in *. unfold nxsem_init in *.
  rewrite (proj2 (Z.eqb_neq _ _)) in * by done. change (negb false && (1 <=? SEM_VALUE_MAX)) with true in *. cbn [snd] in *.
  assert (Hw : waiters A s = []).
  { destruct (waiters A s) as [|p l] eqn:Ew; [done|]. assert (Hp : p ∈ waiters A s) by (rewrite Ew; set_solver).
    apply list_elem_of_filter in Hp as [Hw Hp]. destruct (so_known _ _ (so_sems _ _ Hok) p Hp) as [c Hc]. fold A in Hc. congruence. }
  assert (Hpc : ∀ p, pc_of (mk_world (set_sem st s (s16 1)) (mk_heap s NO_HOLDER 0) ∅) p = Idle 0) by done.
  exists A, 1, [], None. constructor; [constructor| | |]; try done.
  - apply Hok'. unfold os_may. by rewrite Hs.
  - simpl. unfold sview. rewrite lookup_insert_eq. simpl. by rewrite Hw.
  - intros p Hp. set_solver.
Qed.

Lemma reach_good w : reach w → good w.
Proof.
  induction 1 as [st s Hr Hs H0|w a w' _ IH Hm E]; [by apply init_good|]. destruct a as [| | | |o]; [..|by eapply env_ok].
  all: edestruct (task_ok w) as (w2 & E2 & Hg); [exact IH|exact Hm|done|]; congruence.
Qed.

(** ** Theorems *)

(** The task has the heap to itself. *)

Definition inside (c : pc) : bool :=
  match c with Idle n => 0 <? n | Wait _ | TryWait _ | Blocked _ => false | _ => true end.

Lemma inside_owns w A p : inside (pc_of w p) = true → owns w A p.
Proof. unfold inside, owns. destruct (pc_of w p); [lia|done..]. Qed.

(** C28.  However tasks take and give the heap semaphore, and whatever the other operations on tasks
    and semaphores do in between, as long as these leave the semaphore alone, no wait for
    it is cancelled and no task is deleted while it uses the heap: no assertion of the three functions fails and
    no call of a semaphore operation in them goes wrong; at most one task is inside; the
    task that is inside is the recorded holder with the recorded number of references; and
    when nobody uses the heap, the semaphore is free. *)
Theorem mm_sem_exclusive w :
  reach w →
  (∀ a, may w a = true → match a with AEnv _ => False | _ => True end → is_Some (step w a)) ∧
  (∀ p q, inside (pc_of w p) = true → inside (pc_of w q) = true → p = q) ∧
  (∀ p n, pc_of w p = Idle n → 0 < n → mm_holder (heap w) = p ∧ mm_counts_held (heap w) = n) ∧
  ((∀ p, pc_of w p = Idle 0) → SemProps.sem_view (os w) (mm_semaphore (heap w)) = Some (1, []) ∧ mm_holder (heap w) = NO_HOLDER).
Proof.
  intros Hg%reach_good. split; [|destruct Hg as (A & a & l & o & Hinv); split; [|split]].
  - intros a Hm Ha. destruct (task_ok w a Hg Hm Ha) as (w' & E & _). by exists w'.
  - intros p q Hp%(inside_owns w A) Hq%(inside_owns w A). apply (li_owner _ _ _ _ _ Hinv) in Hp, Hq. congruence.
  - intros p n Hpc Hn. assert (Ho : o = Some p) by (apply (li_owner _ _ _ _ _ Hinv); unfold owns; by rewrite Hpc).
    pose proof (li_fields _ _ _ _ _ Hinv) as Hf. rewrite Ho in Hf. unfold fields in Hf. by rewrite Hpc in Hf.
  - intros Hidle. assert (Ho : o = None).
    { destruct o as [p|]; [|done]. pose proof (proj2 (li_owner _ _ _ _ _ Hinv p) eq_refl) as Hp. unfold owns in Hp. by rewrite Hidle in Hp. }
    pose proof (li_base _ _ _ _ _ Hinv) as Hb. pose proof (b_view _ _ _ _ Hb) as Hv.
    assert (Hl : l = []) by (destruct l as [|p l]; [done|]; pose proof (b_queue _ _ _ _ Hb p ltac:(set_solver)) as Hp; by rewrite Hidle in Hp).
    pose proof (li_fields _ _ _ _ _ Hinv) as Hf. rewrite Ho in Hf. split; [|done].
    rewrite (li_avail _ _ _ _ _ Hinv), Ho, Hl in Hv. rewrite <- Hv. unfold SemProps.sem_view.
    pose proof (b_ok _ _ _ _ Hb) as Hok.
    pose proof (view_pool_of _ A (ok_view _ _ (so_sched _ _ Hok)) (ok_pool _ _ (so_sched _ _ Hok))) as Heq.
    apply same_sview; [|symmetry; apply Heq]. split; [intros p; by rewrite (proj1 Heq)|by rewrite (proj2 Heq)].
Qed.

Fixpoint steps w (l : list action) : option world :=
  match l with [] => Some w | a :: l => w ← step w a; steps w l end.

Fixpoint steps_may w (l : list action) : bool :=
  match l with [] => true | a :: l => may w a && match step w a with Some w => steps_may w l | None => false end end.

Lemma steps_reach w (l : list action) w' : reach w → steps_may w l = true → steps w l = Some w' → reach w'.
Proof.
  revert w. induction l as [|a l IH]; intros w Hw; simpl; [by intros _ [= <-]|].
  intros [Ha Hl]%andb_true_iff E. destruct (step w a) as [w1|] eqn:E1; [|done]. by eapply IH; [eapply reach_next|..].
Qed.

(** Task 2 preempts task 1, which is about to count its reference, and waits; then task 1
    goes on. *)

Definition demo_start : os_s :=
  default (mk_os ∅ nx_start)
    (os_run (mk_os ∅ nx_start) [OSched (Create 1 100 0); OSched (Create 2 150 0); OSched (SchedProps.Wake 1)]).

Definition contend : list action :=
  [ATake; ARun; ARun; AEnv (OSched (SchedProps.Wake 2)); ATake; ARun; ARun].

Definition demo : world := default (mm_seminitialize demo_start 64) (steps (mm_seminitialize demo_start 64) contend).

Lemma default_steps w d (l : list action) : is_Some (steps w l) → steps w l = Some (default d (steps w l)).
Proof. by intros [w' ->]. Qed.

Lemma demo_start_reach : os_reach demo_start.
Proof.
  apply (os_run_reach (mk_os ∅ nx_start) [OSched (Create 1 100 0); OSched (Create 2 150 0); OSched (SchedProps.Wake 1)]); [apply os_start|].
  unfold demo_start. destruct (os_run _ _) eqn:E; [done|]. exfalso. revert E. by vm_compute.
Qed.

Lemma demo_reach : reach demo.
Proof.
  apply (steps_reach (mm_seminitialize demo_start 64) contend).
  - apply reach_init; [apply demo_start_reach|by vm_compute|done].
  - by vm_compute.
  - apply default_steps. destruct (steps _ _) eqn:E; [by eexists|]. exfalso. revert E. by vm_compute.
Qed.

Lemma mm_sem_exclusive_witness :
  (pc_of demo 1 = Idle 1 ∧ pc_of demo 2 = Blocked 0) ∧
  (∀ a, may demo a = true → match a with AEnv _ => False | _ => True end → is_Some (step demo a)) ∧
  (∀ p q, inside (pc_of demo p) = true → inside (pc_of demo q) = true → p = q) ∧
  (∀ p n, pc_of demo p = Idle n → 0 < n → mm_holder (heap demo) = p ∧ mm_counts_held (heap demo) = n) ∧
  ((∀ p, pc_of demo p = Idle 0) → SemProps.sem_view (os demo) (mm_semaphore (heap demo)) = Some (1, []) ∧ mm_holder (heap demo) = NO_HOLDER).
Proof. split; [split; by vm_compute|]. apply (mm_sem_exclusive demo), demo_reach. Defined.

(** *** Waits that are cancelled *)

(** The invariants of the scheduler and of the semaphores hold. *)

Definition consistent (st : os_s) : Prop := ∃ A, sem_ok st A.

Lemma irq_leaves st A p err :
  sem_ok st A → p ∈ queue A wsem →
  ∃ st', nxsem_wait_irq st p err = Some st' ∧ consistent st' ∧ nxsem_wait_result st' p = Some (- err).
Proof.
  intros Hok Hp. pose proof (so_sched _ _ Hok) as Hs. pose proof (so_sems _ _ Hok) as Hi.
  destruct (v_tcb _ A (ok_view _ _ Hs) p) as (t & Ht & _); [by eapply (w_known _ (ok_pool _ _ Hs))|].
  destruct (irq_ok st A Hok p t err Ht) as (st' & A' & E & Hok' & Hss & Hw & _). exists st'.
  split; [done|]. split; [by exists A'|]. apply (Hw p Hp). intros Hp'. pose proof (so_sems _ _ Hok') as Hi'.
  assert (Hv : ∀ m B s, sem_inv m B → p ∈ queue B wsem → waits_for B p = s → ∃ a, sview m B s = Some (a, waiters B s) ∧ p ∈ waiters B s).
  { intros m B s HB HpB <-. destruct (so_known _ _ HB p HpB) as [c Hc]. exists (Z.max 0 c). unfold sview. rewrite Hc.
    split; [done|]. by apply list_elem_of_filter. }
  destruct (Hv _ _ _ Hi Hp eq_refl) as (a & HS & Hin). destruct (Hv _ _ _ Hi' Hp' eq_refl) as (a' & HS' & Hin').
  inversion Hss as [| | | | | | |x e s l Hl Hx Hb|x e Hno _| | | |]; subst; [|by destruct (Hno _ _ _ HS)].
  assert (s = waits_for A p) as ->.
  { unfold sview in Hl. destruct (sems st !! s); simplify_eq/=. by apply list_elem_of_filter in Hx as [-> _]. }
  rewrite Hb in HS'. case_decide as Hd.
  - injection HS' as _ Hl'. rewrite <- Hl' in Hin'. by apply elem_dq_rem in Hin' as [? _].
  - unfold sview in HS'. destruct (sems st !! waits_for A' p); simplify_eq/=.
    match goal with H : waiters A _ = _ |- _ => rewrite <- H in Hin' end.
    by apply list_elem_of_filter in Hin' as [? _].
Qed.

(** The steps of a task whose wait has ended with [ECANCELED]. *)

Lemma pc_here w p c : pc_of (goto p c w) p = c.
Proof. unfold goto. by rewrite pc_goto, decide_True. Qed.

Lemma cancelled_run w p n :
  running w = p → pc_of w p = Blocked n → nxsem_wait_result (os w) p = Some (- ECANCELED) →
  ∃ w', steps w [ARun; ARun; ARun] = Some w' ∧ pc_of w' p = Idle (n + 1) ∧ mm_holder (heap w') = p ∧
    ∀ q, q ≠ p → pc_of w' q = pc_of w q.
Proof.
  intros Hr Hpc He. set (w1 := goto p (Claim n) w). set (w2 := goto p (Claimed n) (on_heap (set_holder p) w1)).
  set (w3 := goto p (Idle (n + 1)) (on_heap (set_counts 1) w2)).
  assert (E1 : step w ARun = Some w1) by (unfold step; rewrite Hr, Hpc; unfold mm_takesemaphore; by rewrite He).
  assert (E2 : step w1 ARun = Some w2).
  { unfold step. change (running w1) with (running w). by rewrite Hr, (pc_here w p (Claim n) : pc_of w1 p = _). }
  assert (E3 : step w2 ARun = Some w3).
  { unfold step. change (running w2) with (running w). by rewrite Hr, (pc_here _ p (Claimed n) : pc_of w2 p = _). }
  exists w3. split; [unfold steps; rewrite E1; cbn [mbind option_bind]; rewrite E2; cbn [mbind option_bind]; by rewrite E3|].
  split; [apply pc_here|]. split; [done|]. intros q Hq. unfold pc_of. simpl. by rewrite !lookup_insert_ne.
Qed.

(** C29.  A wait for the heap that is cancelled, with [ECANCELED], breaks the exclusion: whenever task
    [q] has the heap and task [p] waits for it, a cancellation of the wait gives [p] the
    result [-ECANCELED], and when [p] then runs with that result, it becomes the holder in
    three steps; both tasks are inside, and [q] fails the assertion of [mm_givesemaphore]
    when it gives the heap back while [p] is still inside. *)
Theorem mm_sem_cancelled w p q n m :
  reach w → pc_of w p = Blocked n → p ∈ g_waitingforsemaphore (sched (os w)) → pc_of w q = Idle m → 0 < m →
  ∃ w1, step w (AEnv (OSem (Irq p ECANCELED))) = Some w1 ∧ consistent (os w1) ∧
    nxsem_wait_result (os w1) p = Some (- ECANCELED) ∧
    ∀ st1, consistent st1 → current (sched st1) = p → nxsem_wait_result st1 p = Some (- ECANCELED) →
      ∃ w2, steps (with_os st1 w1) [ARun; ARun; ARun] = Some w2 ∧
        inside (pc_of w2 p) = true ∧ inside (pc_of w2 q) = true ∧ p ≠ q ∧ mm_holder (heap w2) = p ∧
        ∀ st2, consistent st2 → current (sched st2) = q → step (with_os st2 w2) AGive = None.
Proof.
  intros Hg%reach_good Hp Hpq Hq Hm. destruct Hg as (A & a & l & o & Hinv). pose proof (li_base _ _ _ _ _ Hinv) as Hb.
  pose proof (b_ok _ _ _ _ Hb) as Hok. pose proof (b_depth _ _ _ _ Hb p) as Hd. rewrite Hp in Hd. simpl in Hd.
  change (g_waitingforsemaphore (sched (os w))) with (TLIST_HEAD wsem (sched (os w))) in Hpq.
  rewrite (v_queue _ _ (ok_view _ _ (so_sched _ _ Hok))) in Hpq.
  destruct (irq_leaves (os w) A p ECANCELED Hok Hpq) as (st & E & Hc & He).
  exists (with_os st w). split; [simpl; unfold SemOps.void; by rewrite E|]. split; [done|]. split; [done|].
  intros st1 Hc1 Hr1 He1. assert (Hne : p ≠ q) by (intros ->; congruence).
  destruct (cancelled_run (with_os st1 (with_os st w)) p n Hr1 Hp He1) as (w2 & E2 & Hp2 & Hh & Hrest).
  exists w2. split; [done|]. rewrite Hp2, (Hrest q) by done. change (pc_of (with_os st1 (with_os st w)) q) with (pc_of w q).
  rewrite Hq. simpl. split; [lia|]. split; [lia|]. split; [done|]. split; [done|].
  intros st2 [A2 Hok2] Hr2. destruct (running_ok (with_os st2 w2) A2 Hok2) as [Hgp _].
  unfold step. unfold running in *. simpl os in *. rewrite Hr2 in *. change (pc_of (with_os st2 w2) q) with (pc_of w2 q).
  rewrite (Hrest q) by done. change (pc_of (with_os st1 (with_os st w)) q) with (pc_of w q). rewrite Hq.
  unfold mm_givesemaphore. simpl os. rewrite Hgp. cbn [mbind option_bind]. simpl heap. rewrite Hh.
  by rewrite (proj2 (Z.eqb_neq _ _)).
Qed.

Lemma mm_sem_cancelled_witness :
  ∃ w1, step demo (AEnv (OSem (Irq 2 ECANCELED))) = Some w1 ∧ consistent (os w1) ∧
    nxsem_wait_result (os w1) 2 = Some (- ECANCELED) ∧
    ∀ st1, consistent st1 → current (sched st1) = 2 → nxsem_wait_result st1 2 = Some (- ECANCELED) →
      ∃ w2, steps (with_os st1 w1) [ARun; ARun; ARun] = Some w2 ∧
        inside (pc_of w2 2) = true ∧ inside (pc_of w2 1) = true ∧ 2 ≠ 1 ∧ mm_holder (heap w2) = 2 ∧
        ∀ st2, consistent st2 → current (sched st2) = 1 → step (with_os st2 w2) AGive = None.
Proof.
  apply (mm_sem_cancelled demo 2 1 0 1); [apply demo_reach|by vm_compute| |by vm_compute|lia].
  apply (bool_decide_unpack _). by vm_compute.
Defined.

End MmSem.
