(* ===== verification/Iob.v ===== *)
(** * I/O buffers (mm/iob)

    A packet is a chain of fixed-size buffers.  The state is the pool: the store
    of buffers, the free and the committed list, and the counts of the two
    semaphores (the count is the number of free buffers; a negative count means
    waiting tasks).  The configuration values are the fields of a class.  What the
    other tasks do while a task waits for a buffer is a function argument of the
    allocations that can wait. *)

From S2P Require Import Prelude.
From S2P Require Import Queue.

Module Iob.

Definition ESPIPE : Z := 29.
Definition ENOSPC : Z := 28.

Record iob_s := mk_iob {
  io_flink : Z;
  io_len : Z;
  io_offset : Z;
  io_pktlen : Z;
  io_data : list Z
}.

Definition set_io_flink (v : Z) (b : iob_s) : iob_s :=
  mk_iob v (io_len b) (io_offset b) (io_pktlen b) (io_data b).
Definition set_io_len (v : Z) (b : iob_s) : iob_s :=
  mk_iob (io_flink b) v (io_offset b) (io_pktlen b) (io_data b).
Definition set_io_offset (v : Z) (b : iob_s) : iob_s :=
  mk_iob (io_flink b) (io_len b) v (io_pktlen b) (io_data b).
Definition set_io_pktlen (v : Z) (b : iob_s) : iob_s :=
  mk_iob (io_flink b) (io_len b) (io_offset b) v (io_data b).
Definition set_io_data (d : list Z) (b : iob_s) : iob_s :=
  mk_iob (io_flink b) (io_len b) (io_offset b) (io_pktlen b) d.

Record iob_state := mk_pool {
  iobs : gmap Z iob_s;
  g_iob_freelist : Z;
  g_iob_committed : Z;
  g_iob_sem : Z;
  g_throttle_sem : Z
}.

Definition set_iobs (st : iob_state) (m : gmap Z iob_s) : iob_state :=
  mk_pool m (g_iob_freelist st) (g_iob_committed st) (g_iob_sem st) (g_throttle_sem st).

(** The configuration. *)

Class IobConfig := mk_config {
  CONFIG_IOB_BUFSIZE : Z;
  CONFIG_IOB_NBUFFERS : Z;
  CONFIG_IOB_THROTTLE : Z
}.

Section Iob.
Context `{IobConfig}.

(** The lengths are [uint8_t] for small buffers, else [uint16_t]. *)

Definition ulen (z : Z) : Z := if CONFIG_IOB_BUFSIZE <? 256 then u8 z else u16 z.

(** ** Initialization *)

(** [pool]: the addresses of [g_iob_pool], whose entries are zero. *)

Fixpoint iob_init_loop (pool : list Z) (st : iob_state) : option iob_state :=
  match pool with
  | [] => Some st
  | iob :: pool =>
      m ← update (iobs st) iob (set_io_flink (g_iob_freelist st));
      iob_init_loop pool
        (mk_pool m iob (g_iob_committed st) (g_iob_sem st) (g_throttle_sem st))
  end.

Definition iob_initialize (pool : list Z) : option iob_state :=
  let zero := mk_iob 0 0 0 0 (replicate (Z.to_nat CONFIG_IOB_BUFSIZE) 0) in
  st ← iob_init_loop pool (mk_pool (list_to_map ((λ p, (p, zero)) <$> pool)) NULL NULL 0 0);
  Some (mk_pool (iobs st) (g_iob_freelist st) NULL CONFIG_IOB_NBUFFERS
          (CONFIG_IOB_NBUFFERS - CONFIG_IOB_THROTTLE)).

(** ** Allocation *)

(** Put the I/O buffer in a known state. *)

Definition iob_reset (b : iob_s) : iob_s := mk_iob NULL 0 0 0 (io_data b).

Definition iob_tryalloc (st : iob_state) (throttled : bool) : option (Z * iob_state) :=
  let sem := if throttled then g_throttle_sem st else g_iob_sem st in
  if (0 <? CONFIG_IOB_THROTTLE) && negb (0 <? sem) then Some (NULL, st)
  else
    let iob := g_iob_freelist st in
    if iob =? NULL then Some (NULL, st)
    else
      b ← deref (iobs st) iob;
      let sem := g_iob_sem st - 1 in
      DEBUGASSERT (0 <=? sem) ;;
      let tsem := if 0 <? CONFIG_IOB_THROTTLE then g_throttle_sem st - 1 else g_throttle_sem st in
      DEBUGASSERT (negb (0 <? CONFIG_IOB_THROTTLE) || (- CONFIG_IOB_THROTTLE <=? tsem)) ;;
      m ← update (iobs st) iob iob_reset;
      Some (iob, mk_pool m (io_flink b) (g_iob_committed st) sem tsem).

Definition iob_alloc_committed (st : iob_state) : option (Z * iob_state) :=
  let iob := g_iob_committed st in
  if iob =? NULL then Some (NULL, st)
  else
    b ← deref (iobs st) iob;
    m ← update (iobs st) iob iob_reset;
    Some (iob, mk_pool m (g_iob_freelist st) (io_flink b) (g_iob_sem st) (g_throttle_sem st)).

(** [nxsem_post] of one of the semaphores, and the count that
    [iob_allocwait] takes from the other one; [throttle]: [g_throttle_sem]. *)

Definition sem_add (st : iob_state) (throttle : bool) (d : Z) : iob_state :=
  if throttle
  then mk_pool (iobs st) (g_iob_freelist st) (g_iob_committed st) (g_iob_sem st) (g_throttle_sem st + d)
  else mk_pool (iobs st) (g_iob_freelist st) (g_iob_committed st) (g_iob_sem st + d) (g_throttle_sem st).

(** [wait throttle st]: the result of [nxsem_wait_uninterruptible] and the pool when
    the task runs again, after what the other tasks have done. *)

Definition waiter : Type := bool → iob_state → Z * iob_state.

Fixpoint iob_allocwait_loop (fuel : nat) (wait : waiter) (throttled : bool) (st : iob_state)
    (ret iob : Z) : option (Z * iob_state) :=
  match fuel with
  | O => None
  | S fuel =>
      if (ret =? OK) && (iob =? NULL) then
        let sem := throttled && (0 <? CONFIG_IOB_THROTTLE) in
        let '(ret, st) := wait sem st in
        if 0 <=? ret then
          '(iob, st) ← iob_alloc_committed st;
          if iob =? NULL then
            '(iob, st) ← iob_tryalloc (sem_add st sem 1) throttled;
            iob_allocwait_loop fuel wait throttled st ret iob
          else
            let st := if 0 <? CONFIG_IOB_THROTTLE then sem_add st (negb throttled) (-1) else st in
            iob_allocwait_loop fuel wait throttled st ret iob
        else iob_allocwait_loop fuel wait throttled st ret iob
      else Some (iob, st)
  end.

Definition iob_allocwait (fuel : nat) (wait : waiter) (st : iob_state) (throttled : bool) :
    option (Z * iob_state) :=
  '(iob, st) ← iob_tryalloc st throttled;
  iob_allocwait_loop fuel wait throttled st OK iob.

(** [nowait]: [up_interrupt_context () || sched_idletask ()]. *)

Definition iob_alloc (fuel : nat) (wait : waiter) (nowait : bool) (st : iob_state) (throttled : bool) :
    option (Z * iob_state) :=
  if nowait then iob_tryalloc st throttled else iob_allocwait fuel wait st throttled.

(** ** Freeing *)

(** The critical section of [iob_free]: the buffer goes to the head of the free
    or, when a task waits, of the committed list, and the counts go up. *)

Definition iob_release (st : iob_state) (iob : Z) : option iob_state :=
  st ← (if g_iob_sem st <? 0 then
          m ← update (iobs st) iob (set_io_flink (g_iob_committed st));
          Some (mk_pool m (g_iob_freelist st) iob (g_iob_sem st) (g_throttle_sem st))
        else
          m ← update (iobs st) iob (set_io_flink (g_iob_freelist st));
          Some (mk_pool m iob (g_iob_committed st) (g_iob_sem st) (g_throttle_sem st)));
  let sem := g_iob_sem st + 1 in
  DEBUGASSERT (sem <=? CONFIG_IOB_NBUFFERS) ;;
  let tsem := if 0 <? CONFIG_IOB_THROTTLE then g_throttle_sem st + 1 else g_throttle_sem st in
  DEBUGASSERT (negb (0 <? CONFIG_IOB_THROTTLE)
               || (tsem <=? CONFIG_IOB_NBUFFERS - CONFIG_IOB_THROTTLE)) ;;
  Some (mk_pool (iobs st) (g_iob_freelist st) (g_iob_committed st) sem tsem).

Definition iob_free (st : iob_state) (iob : Z) : option (Z * iob_state) :=
  b ← deref (iobs st) iob;
  let next := io_flink b in
  m ← (if next =? NULL then Some (iobs st)
       else if io_len b <? io_pktlen b then
         n ← deref (iobs st) next;
         let pktlen := u16 (io_pktlen b - io_len b) in
         m ← update (iobs st) next (set_io_pktlen pktlen);
         DEBUGASSERT (io_len n <=? pktlen) ;;
         Some m
       else update (iobs st) next (set_io_pktlen 0));
  st ← iob_release (set_iobs st m) iob;
  Some (next, st).

Fixpoint iob_free_chain_loop (fuel : nat) (st : iob_state) (iob : Z) : option iob_state :=
  match fuel with
  | O => None
  | S fuel =>
      if iob =? NULL then Some st
      else '(next, st) ← iob_free st iob; iob_free_chain_loop fuel st next
  end.

Definition iob_free_chain (st : iob_state) (iob : Z) : option iob_state :=
  iob_free_chain_loop (S (size (iobs st))) st iob.

(** ** Trimming *)

Fixpoint iob_trimhead_loop (fuel : nat) (st : iob_state) (iob pktlen trimlen : Z) :
    option (Z * Z * iob_state) :=
  match fuel with
  | O => None
  | S fuel =>
      if (0 <? trimlen) && negb (iob =? NULL) then
        b ← deref (iobs st) iob;
        if io_len b <=? trimlen then
          let pktlen := u16 (pktlen - io_len b) in
          let trimlen := u32 (trimlen - io_len b) in
          let next := io_flink b in
          if next =? NULL then
            DEBUGASSERT (pktlen =? 0) ;;
            m ← update (iobs st) iob (set_io_len 0);
            m ← update m iob (set_io_offset 0);
            Some (iob, pktlen, set_iobs st m)
          else
            '(_, st) ← iob_free st iob;
            iob_trimhead_loop fuel st next pktlen trimlen
        else
          m ← update (iobs st) iob (set_io_len (ulen (io_len b - trimlen)));
          m ← update m iob (set_io_offset (ulen (io_offset b + trimlen)));
          iob_trimhead_loop fuel (set_iobs st m) iob (u16 (pktlen - trimlen)) 0
      else Some (iob, pktlen, st)
  end.

Definition iob_trimhead (st : iob_state) (iob trimlen : Z) : option (Z * iob_state) :=
  if negb (iob =? NULL) && (0 <? trimlen) then
    b ← deref (iobs st) iob;
    '(iob, pktlen, st) ← iob_trimhead_loop (S (S (size (iobs st)))) st iob (io_pktlen b) trimlen;
    m ← update (iobs st) iob (set_io_pktlen pktlen);
    Some (iob, set_iobs st m)
  else Some (iob, st).

(** The last buffer of a chain and the one before it:
    [for (entry = iob; entry; entry = entry->io_flink)]. *)

Fixpoint iob_last (fuel : nat) (m : gmap Z iob_s) (entry penultimate last : Z) :
    option (Z * Z) :=
  match fuel with
  | O => None
  | S fuel =>
      if entry =? NULL then Some (penultimate, last)
      else b ← deref m entry; iob_last fuel m (io_flink b) last entry
  end.

Fixpoint iob_trimtail_loop (fuel : nat) (st : iob_state) (iob len : Z) :
    option (Z * iob_state) :=
  match fuel with
  | O => None
  | S fuel =>
      if 0 <? len then
        '(penultimate, last) ← iob_last (S (size (iobs st))) (iobs st) iob NULL NULL;
        l ← deref (iobs st) last;
        h ← deref (iobs st) iob;
        if io_len l <=? len then
          m ← update (iobs st) iob (set_io_pktlen (u16 (io_pktlen h - io_len l)));
          m ← update m last (set_io_len 0);
          '(_, st) ← iob_free (set_iobs st m) last;
          if penultimate =? NULL then Some (NULL, st)
          else
            m ← update (iobs st) penultimate (set_io_flink NULL);
            iob_trimtail_loop fuel (set_iobs st m) iob (len - io_len l)
        else
          m ← update (iobs st) iob (set_io_pktlen (u16 (io_pktlen h - len)));
          m ← update m last (set_io_len (ulen (io_len l - len)));
          iob_trimtail_loop fuel (set_iobs st m) iob 0
      else Some (iob, st)
  end.

(** [trimlen] is converted to [int]. *)

Definition iob_trimtail (st : iob_state) (iob trimlen : Z) : option (Z * iob_state) :=
  if negb (iob =? NULL) && (0 <? trimlen)
  then iob_trimtail_loop (S (S (size (iobs st)))) st iob (s32 trimlen)
  else Some (iob, st).

(** ** Concatenation *)

Fixpoint iob_concat_loop (fuel : nat) (m : gmap Z iob_s) (iob1 : Z) : option Z :=
  match fuel with
  | O => None
  | S fuel =>
      b ← deref m iob1;
      if io_flink b =? NULL then Some iob1 else iob_concat_loop fuel m (io_flink b)
  end.

Definition iob_concat (st : iob_state) (iob1 iob2 : Z) : option iob_state :=
  b1 ← deref (iobs st) iob1;
  b2 ← deref (iobs st) iob2;
  m ← update (iobs st) iob1 (set_io_pktlen (u16 (io_pktlen b1 + io_pktlen b2)));
  m ← update m iob2 (set_io_pktlen 0);
  last ← iob_concat_loop (S (size m)) m iob1;
  m ← update m last (set_io_flink iob2);
  Some (set_iobs st m).

(** ** Copying out

    [dest] are the bytes of the user buffer, written from [pos] on. *)

Fixpoint iob_copyout_skip (fuel : nat) (m : gmap Z iob_s) (iob offset : Z) :
    option (Z * Z) :=
  match fuel with
  | O => None
  | S fuel =>
      b ← deref m iob;
      if io_len b <=? offset then
        if io_flink b =? NULL then Some (NULL, u32 (offset - io_len b))
        else iob_copyout_skip fuel m (io_flink b) (u32 (offset - io_len b))
      else Some (iob, offset)
  end.

Fixpoint iob_copyout_loop (fuel : nat) (m : gmap Z iob_s) (dest : list Z)
    (pos iob remaining offset : Z) : option (Z * list Z) :=
  match fuel with
  | O => None
  | S fuel =>
      if negb (iob =? NULL) && (0 <? remaining) then
        b ← deref m iob;
        let avail := u32 (io_len b - offset) in
        let ncopy := if avail <? remaining then avail else remaining in
        d ← mem_read (io_data b) (io_offset b + offset) ncopy;
        dest ← mem_write dest pos d;
        iob_copyout_loop fuel m dest (pos + ncopy) (io_flink b) (u32 (remaining - ncopy)) 0
      else Some (remaining, dest)
  end.

Definition iob_copyout (st : iob_state) (dest : list Z) (iob len offset : Z) :
    option (Z * list Z) :=
  '(iob, offset) ← iob_copyout_skip (S (size (iobs st))) (iobs st) iob offset;
  if iob =? NULL then Some (0, dest)
  else
    '(remaining, dest) ← iob_copyout_loop (S (size (iobs st))) (iobs st) dest 0 iob len offset;
    Some (u32 (len - remaining), dest).

(** ** Copying in

    [src] are the bytes that are left to copy. *)

Fixpoint iob_copyin_skip (fuel : nat) (m : gmap Z iob_s) (iob offset : Z) : option (Z * Z) :=
  match fuel with
  | O => None
  | S fuel =>
      b ← deref m iob;
      if io_len b <? offset
      then iob_copyin_skip fuel m (io_flink b) (u32 (offset - io_len b))
      else Some (iob, offset)
  end.

(** The last buffer is extended: the store and the number of bytes to copy. *)

Definition iob_copyin_extend (m : gmap Z iob_s) (head iob len offset : Z) :
    option (Z * gmap Z iob_s) :=
  b ← deref m iob;
  let maxlen := u32 (CONFIG_IOB_BUFSIZE - io_offset b) in
  let newlen := u32 (len + offset) in
  let newlen := if maxlen <? newlen then maxlen else newlen in
  h ← deref m head;
  m ← update m head (set_io_pktlen (u16 (io_pktlen h + (newlen - io_len b))));
  m ← update m iob (set_io_len (ulen newlen));
  Some (u32 (newlen - offset), m).

(** The number of bytes to copy into one buffer. *)

Definition iob_copyin_ncopy (m : gmap Z iob_s) (head iob len offset : Z) :
    option (Z * gmap Z iob_s) :=
  b ← deref m iob;
  let avail := u32 (io_len b - offset) in
  if avail <? len then
    if io_flink b =? NULL then iob_copyin_extend m head iob len offset
    else Some (avail, m)
  else Some (len, m).

Definition iob_copyin_round (m : gmap Z iob_s) (head iob : Z) (src : list Z) (len offset : Z) :
    option (Z * gmap Z iob_s) :=
  '(ncopy, m) ← iob_copyin_ncopy m head iob len offset;
  b ← deref m iob;
  d ← mem_read src 0 ncopy;
  data ← mem_write (io_data b) (io_offset b + offset) d;
  m ← update m iob (set_io_data data);
  Some (ncopy, m).

(** [-ENOMEM] is the result when [alloc] gives no buffer. *)

Fixpoint iob_copyin_loop (fuel : nat) (st : iob_state) (alloc : iob_state → option (Z * iob_state))
    (head iob : Z) (src : list Z) (len offset : Z) : option (Z * iob_state) :=
  match fuel with
  | O => None
  | S fuel =>
      if 0 <? len then
        b ← deref (iobs st) iob;
        let next := io_flink b in
        '(ncopy, m) ← iob_copyin_round (iobs st) head iob src len offset;
        let st := set_iobs st m in
        let len := u32 (len - ncopy) in
        let src := drop (Z.to_nat ncopy) src in
        if (0 <? len) && (next =? NULL) then
          '(next, st) ← alloc st;
          if next =? NULL then Some (- ENOMEM, st)
          else
            m ← update (iobs st) iob (set_io_flink next);
            iob_copyin_loop fuel (set_iobs st m) alloc head next src len 0
        else iob_copyin_loop fuel st alloc head next src len 0
      else Some (OK, st)
  end.

(** [alloc] is the choice between [iob_alloc] and [iob_tryalloc] by [can_block]. *)

Definition iob_copyin_internal (st : iob_state) (iob : Z) (src : list Z) (len offset : Z)
    (alloc : iob_state → option (Z * iob_state)) : option (Z * iob_state) :=
  DEBUGASSERT (negb (iob =? NULL)) ;;
  b ← deref (iobs st) iob;
  if io_pktlen b <? offset then Some (- ESPIPE, st)
  else
    '(entry, offset) ← iob_copyin_skip (S (size (iobs st))) (iobs st) iob offset;
    '(ret, st) ← iob_copyin_loop (S (S (size (iobs st)))) st alloc iob entry src len offset;
    if ret <? 0 then Some (ret, st) else Some (s32 len, st).

Definition iob_copyin (fuel : nat) (wait : waiter) (nowait : bool) (st : iob_state) (iob : Z)
    (src : list Z) (len offset : Z) (throttled : bool) : option (Z * iob_state) :=
  iob_copyin_internal st iob src len offset (λ st, iob_alloc fuel wait nowait st throttled).

Definition iob_trycopyin (st : iob_state) (iob : Z) (src : list Z) (len offset : Z)
    (throttled : bool) : option (Z * iob_state) :=
  iob_copyin_internal st iob src len offset (λ st, iob_tryalloc st throttled).

(** ** Contiguous data *)

(** [memcpy (iob->io_data, &iob->io_data[iob->io_offset], iob->io_len)]; the copy
    runs forward (lib_memcpy.c), which is what a move to lower addresses needs. *)

Definition iob_align (m : gmap Z iob_s) (iob : Z) : option (gmap Z iob_s) :=
  b ← deref m iob;
  if 0 <? io_offset b then
    d ← mem_read (io_data b) (io_offset b) (io_len b);
    data ← mem_write (io_data b) 0 d;
    m ← update m iob (set_io_data data);
    update m iob (set_io_offset 0)
  else Some m.

(** [ncopy] bytes move from the front of [next] to the end of [iob]. *)

Definition iob_pull (m : gmap Z iob_s) (iob next ncopy : Z) : option (gmap Z iob_s) :=
  b ← deref m iob;
  n ← deref m next;
  d ← mem_read (io_data n) (io_offset n) ncopy;
  data ← mem_write (io_data b) (io_len b) d;
  m ← update m iob (set_io_data data);
  m ← update m iob (set_io_len (ulen (io_len b + ncopy)));
  m ← update m next (set_io_offset (ulen (io_offset n + ncopy)));
  update m next (set_io_len (ulen (io_len n - ncopy))).

Definition iob_contig_entry (st : iob_state) (iob len : Z) : option iob_state :=
  b ← deref (iobs st) iob;
  let next := io_flink b in
  DEBUGASSERT (negb (next =? NULL)) ;;
  n ← deref (iobs st) next;
  let ncopy := u32 (len - io_len b) in
  let ncopy := if ncopy <? io_len n then ncopy else io_len n in
  m ← iob_pull (iobs st) iob next ncopy;
  n ← deref m next;
  if io_len n =? 0 then
    '(flink, st) ← iob_free (set_iobs st m) next;
    m ← update (iobs st) iob (set_io_flink flink);
    Some (set_iobs st m)
  else Some (set_iobs st m).

Fixpoint iob_contig_loop (fuel : nat) (st : iob_state) (iob len : Z) : option iob_state :=
  match fuel with
  | O => None
  | S fuel =>
      st ← iob_contig_entry st iob len;
      b ← deref (iobs st) iob;
      if io_len b <? len then iob_contig_loop fuel st iob len else Some st
  end.

Definition iob_contig (st : iob_state) (iob len : Z) : option (Z * iob_state) :=
  DEBUGASSERT (len <=? CONFIG_IOB_BUFSIZE) ;;
  b ← deref (iobs st) iob;
  if len <=? io_len b then Some (0, st)
  else if len <=? io_pktlen b then
    m ← iob_align (iobs st) iob;
    st ← iob_contig_loop (S (size m)) (set_iobs st m) iob len;
    Some (0, st)
  else Some (- ENOSPC, st).

(** ** Packing *)

Fixpoint iob_pack_head (fuel : nat) (st : iob_state) (iob : Z) : option (Z * iob_state) :=
  match fuel with
  | O => None
  | S fuel =>
      b ← deref (iobs st) iob;
      if io_len b <=? 0 then
        '(iob, st) ← iob_free st iob;
        if iob =? NULL then Some (NULL, st) else iob_pack_head fuel st iob
      else Some (iob, st)
  end.

Definition iob_pack_entry (st : iob_state) (iob : Z) : option (Z * iob_state) :=
  b ← deref (iobs st) iob;
  let next := io_flink b in
  m ← iob_align (iobs st) iob;
  if next =? NULL then Some (next, set_iobs st m)
  else
    n ← deref m next;
    let navail := u32 (CONFIG_IOB_BUFSIZE - io_len b) in
    let ncopy := if navail <? io_len n then navail else io_len n in
    m ← (if 0 <? ncopy then iob_pull m iob next ncopy else Some m);
    n ← deref m next;
    if io_len n <=? 0 then
      '(next, st) ← iob_free (set_iobs st m) next;
      m ← update (iobs st) iob (set_io_flink next);
      Some (next, set_iobs st m)
    else Some (next, set_iobs st m).

Fixpoint iob_pack_loop (fuel : nat) (st : iob_state) (iob : Z) : option iob_state :=
  match fuel with
  | O => None
  | S fuel =>
      if iob =? NULL then Some st
      else '(next, st) ← iob_pack_entry st iob; iob_pack_loop fuel st next
  end.

Definition iob_pack (st : iob_state) (iob : Z) : option (Z * iob_state) :=
  '(head, st) ← iob_pack_head (S (size (iobs st))) st iob;
  if head =? NULL then Some (NULL, st)
  else st ← iob_pack_loop (S (size (iobs st))) st head; Some (head, st).

(** ** Duplication *)

(** The next source buffer that is not empty, from [iob1] on; the first search
    does not test for the end of the chain. *)

Fixpoint iob_clone_first (fuel : nat) (m : gmap Z iob_s) (iob1 : Z) : option Z :=
  match fuel with
  | O => None
  | S fuel =>
      b ← deref m iob1;
      if io_len b <=? 0 then iob_clone_first fuel m (io_flink b) else Some iob1
  end.

Fixpoint iob_clone_next (fuel : nat) (m : gmap Z iob_s) (iob1 : Z) : option Z :=
  match fuel with
  | O => None
  | S fuel =>
      b ← deref m iob1;
      let next := io_flink b in
      if next =? NULL then Some next
      else
        n ← deref m next;
        if io_len n <=? 0 then iob_clone_next fuel m next else Some next
  end.

Fixpoint iob_clone_loop (fuel : nat) (st : iob_state) (alloc : iob_state → option (Z * iob_state))
    (iob1 iob2 offset1 offset2 : Z) : option (Z * iob_state) :=
  match fuel with
  | O => None
  | S fuel =>
      if iob1 =? NULL then Some (0, st)
      else
        b1 ← deref (iobs st) iob1;
        b2 ← deref (iobs st) iob2;
        let avail1 := u32 (io_len b1 - offset1) in
        let avail2 := u32 (CONFIG_IOB_BUFSIZE - offset2) in
        let ncopy := if avail1 <? avail2 then avail1 else avail2 in
        d ← mem_read (io_data b1) (io_offset b1 + offset1) ncopy;
        data ← mem_write (io_data b2) offset2 d;
        m ← update (iobs st) iob2 (set_io_data data);
        let st := set_iobs st m in
        let offset1 := u32 (offset1 + ncopy) in
        let offset2 := u32 (offset2 + ncopy) in
        '(iob1, offset1) ←
          (if io_len b1 <=? offset1
           then next ← iob_clone_next (S (size m)) m iob1; Some (next, 0)
           else Some (iob1, offset1));
        if (CONFIG_IOB_BUFSIZE <=? offset2) && negb (iob1 =? NULL) then
          '(next, st) ← alloc st;
          if next =? NULL then Some (- ENOMEM, st)
          else
            m ← update (iobs st) iob2 (set_io_flink next);
            iob_clone_loop fuel (set_iobs st m) alloc iob1 next offset1 0
        else iob_clone_loop fuel st alloc iob1 iob2 offset1 offset2
  end.

Definition iob_clone (fuel : nat) (wait : waiter) (nowait : bool) (st : iob_state)
    (iob1 iob2 : Z) (throttled : bool) : option (Z * iob_state) :=
  b1 ← deref (iobs st) iob1;
  b2 ← deref (iobs st) iob2;
  DEBUGASSERT ((io_len b2 =? 0) && (io_offset b2 =? 0) && (io_pktlen b2 =? 0)
               && (io_flink b2 =? NULL)) ;;
  m ← update (iobs st) iob2 (set_io_pktlen (io_pktlen b1));
  iob1 ← iob_clone_first (S (size m)) m iob1;
  iob_clone_loop (2 * size m + 2) (set_iobs st m)
    (λ st, iob_alloc fuel wait nowait st throttled) iob1 iob2 0 0.
End Iob.
End Iob.
