(* ===== verification/IobSpec.v ===== *)
(** * I/O buffers: packets and the pool

    A packet is a chain of buffers, seen as the list of their addresses and the
    list of their contents; its bytes are the concatenation of the data parts.
    [pool_ok st F]: the free list of [st] is [F] and the semaphores count it. *)

From S2P Require Import Prelude.
From S2P Require Import Queue.
From S2P Require Import Iob.

Module IobSpec.
Import Iob.

(** ** Buffers and their bytes *)

Definition payload (b : iob_s) : list Z :=
  take (Z.to_nat (io_len b)) (drop (Z.to_nat (io_offset b)) (io_data b)).

Definition content (bs : list iob_s) : list Z := concat (payload <$> bs).

Definition clen (bs : list iob_s) : Z := Z.of_nat (length (content bs)).

(** The length of a buffer fits its length fields. *)

Class IobConfigOk `{IobConfig} : Prop := {
  bufsize_ok : 0 < CONFIG_IOB_BUFSIZE < 2 ^ 16
}.

Section Spec.
Context {cfg : IobConfig} {cfg_ok : IobConfigOk}.
Implicit Types (m : gmap Z iob_s) (st : iob_state) (b n : iob_s) (bs : list iob_s).

Record buf_ok (b : iob_s) : Prop := {
  ok_len : 0 ≤ io_len b;
  ok_offset : 0 ≤ io_offset b;
  ok_fit : io_offset b + io_len b ≤ CONFIG_IOB_BUFSIZE;
  ok_data : Z.of_nat (length (io_data b)) = CONFIG_IOB_BUFSIZE
}.

Lemma ulen_small z : 0 ≤ z ≤ CONFIG_IOB_BUFSIZE → ulen z = z.
Proof.
  intros. pose proof bufsize_ok. unfold ulen, u8, u16. case_if; apply Z.mod_small; lia.
Qed.

Lemma length_payload b : buf_ok b → Z.of_nat (length (payload b)) = io_len b.
Proof. intros []. unfold payload. rewrite length_take, length_drop. lia. Qed.

Lemma content_cons b bs : content (b :: bs) = payload b ++ content bs.
Proof. done. Qed.

Lemma content_app bs1 bs2 : content (bs1 ++ bs2) = content bs1 ++ content bs2.
Proof. unfold content. by rewrite fmap_app, concat_app. Qed.

Lemma clen_cons b bs : buf_ok b → clen (b :: bs) = io_len b + clen bs.
Proof.
  intros Hb. unfold clen. rewrite content_cons, length_app, Nat2Z.inj_add, length_payload by done.
  done.
Qed.

Lemma clen_app bs1 bs2 : clen (bs1 ++ bs2) = clen bs1 + clen bs2.
Proof. unfold clen. rewrite content_app, length_app. lia. Qed.

Lemma clen_nonneg bs : 0 ≤ clen bs.
Proof. unfold clen. lia. Qed.

(** ** Chains of buffers *)

Definition nodes m (l : list Z) bs : Prop := Forall2 (λ x b, m !! x = Some b) l bs.

Fixpoint linked (l : list Z) (bs : list iob_s) (e : Z) : Prop :=
  match l, bs with
  | [], [] => True
  | x :: l', b :: bs' => x ≠ NULL ∧ io_flink b = first l' e ∧ linked l' bs' e
  | _, _ => False
  end.

(** [io_pktlen] is the length of the packet in the first buffer and 0 in the
    others. *)

Definition pktlens bs : Prop :=
  io_pktlen <$> bs = clen bs :: replicate (length bs - 1) 0.

Record packet m (l : list Z) bs : Prop := {
  pk_nodup : NoDup l;
  pk_nodes : nodes m l bs;
  pk_linked : linked l bs NULL;
  pk_ok : Forall buf_ok bs;
  pk_lens : pktlens bs;
  pk_max : clen bs < 2 ^ 16
}.

Lemma packet_ne m l bs : packet m l bs → l ≠ [] ∧ bs ≠ [].
Proof.
  intros []. destruct bs; [by apply (f_equal length) in pk_lens0|].
  split; [|done]. intros ->. by inversion pk_nodes0.
Qed.

Lemma nodes_lookup m l bs x : nodes m l bs → x ∈ l → is_Some (m !! x).
Proof.
  intros Hn Hx. apply list_elem_of_lookup_1 in Hx as [i Hi].
  eapply Forall2_lookup_l in Hn as (b & _ & ?); [|done]. by eexists.
Qed.

Lemma nodes_ext m m' l bs : (∀ x, x ∈ l → m' !! x = m !! x) → nodes m l bs → nodes m' l bs.
Proof.
  intros Hx Hn. unfold nodes in *. induction Hn; constructor.
  - rewrite Hx by set_solver. done.
  - apply IHHn. set_solver.
Qed.

Lemma nodes_app m l1 l2 bs1 bs2 :
  nodes m l1 bs1 → nodes m l2 bs2 → nodes m (l1 ++ l2) (bs1 ++ bs2).
Proof. apply Forall2_app. Qed.

Lemma linked_app l1 bs1 l2 bs2 e :
  length l1 = length bs1 →
  linked (l1 ++ l2) (bs1 ++ bs2) e ↔ linked l1 bs1 (first l2 e) ∧ linked l2 bs2 e.
Proof.
  revert bs1. induction l1 as [|x l1 IH]; intros [|b bs1] Hl; simplify_eq/=; [tauto|].
  rewrite IH, first_app by done. tauto.
Qed.

Lemma linked_nonzero l bs e x : linked l bs e → x ∈ l → x ≠ NULL.
Proof.
  revert bs. induction l as [|y l IH]; intros [|b bs]; simpl; try done;
    [by intros _ ?%not_elem_of_nil|].
  intros (? & _ & ?) [->|?]%elem_of_cons; [done|by eapply IH].
Qed.

Lemma deref_Some {N} (m : gmap Z N) x (b : N) : x ≠ NULL → m !! x = Some b → deref m x = Some b.
Proof. intros Hx Hb. unfold deref. by rewrite (proj2 (Z.eqb_neq _ _) Hx). Qed.

Lemma update_Some {N} (m : gmap Z N) x (b : N) (f : N → N) :
  x ≠ NULL → m !! x = Some b → update m x f = Some (<[x := f b]> m).
Proof. intros Hx Hb. unfold update. by rewrite (deref_Some _ _ _ Hx Hb). Qed.

Lemma update_again {N} (m : gmap Z N) x (b : N) (f : N → N) :
  x ≠ NULL → update (<[x := b]> m) x f = Some (<[x := f b]> m).
Proof. intros Hx. rewrite (update_Some _ _ b) by (done || apply lookup_insert_eq). by rewrite insert_insert_eq. Qed.

(** ** The pool *)

Definition links m : gmap Z Z := io_flink <$> m.

Record pool_ok st (F : list Z) : Prop := {
  po_free : g_iob_freelist st = first F NULL;
  po_chain : chain (links (iobs st)) F NULL;
  po_nodup : NoDup F;
  po_data x b : x ∈ F → iobs st !! x = Some b →
    Z.of_nat (length (io_data b)) = CONFIG_IOB_BUFSIZE;
  po_size : Z.of_nat (size (iobs st)) ≤ CONFIG_IOB_NBUFFERS;
  po_sem : g_iob_sem st = Z.of_nat (length F);
  po_throttle : 0 < CONFIG_IOB_THROTTLE →
    g_throttle_sem st = Z.of_nat (length F) - CONFIG_IOB_THROTTLE
}.

(** Assignments to buffers that are not free leave the pool as it is. *)

Lemma pool_set st F x b :
  pool_ok st F → x ∉ F → is_Some (iobs st !! x) →
  pool_ok (set_iobs st (<[x := b]> (iobs st))) F.
Proof.
  intros [] Hx [b0 Hb0]. constructor; simpl; try done.
  - unfold links. rewrite fmap_insert. by apply chain_insert_ne.
  - intros y b' Hy. rewrite lookup_insert_ne by (by intros ->). eauto.
  - rewrite map_size_insert_Some by done. done.
Qed.

Lemma pool_set_again st F m x b :
  pool_ok (set_iobs st m) F → x ∉ F → is_Some (m !! x) →
  pool_ok (set_iobs st (<[x := b]> m)) F.
Proof. apply (pool_set (set_iobs st m) F x b). Qed.

(** ** Allocation *)

(** There is no buffer, or not one for throttled requests. *)

Definition refused (F : list Z) (throttled : bool) : Prop :=
  F = [] ∨ throttled = true ∧ 0 < CONFIG_IOB_THROTTLE ∧ Z.of_nat (length F) ≤ CONFIG_IOB_THROTTLE.

#[export] Instance refused_dec F throttled : Decision (refused F throttled).
Proof. unfold refused. apply _. Defined.

Lemma tryalloc_refused st F throttled :
  pool_ok st F → refused F throttled → iob_tryalloc st throttled = Some (NULL, st).
Proof.
  intros [] [->|(-> & Ht & Hl)]; unfold iob_tryalloc.
  - case_if; [done|]. by rewrite po_free0.
  - case_if; [done|]. rewrite po_throttle0 in * by done. lia.
Qed.

Lemma tryalloc_granted st F throttled :
  pool_ok st F → ¬ refused F throttled →
  ∃ y F' b st', F = y :: F' ∧ iob_tryalloc st throttled = Some (y, st') ∧ y ≠ NULL ∧
    pool_ok st' F' ∧ iobs st !! y = Some b ∧ iobs st' = <[y := iob_reset b]> (iobs st) ∧
    Z.of_nat (length (io_data b)) = CONFIG_IOB_BUFSIZE.
Proof.
  intros [Hfr Hch Hnd Hdat Hsz Hsem Hth] Hr. destruct F as [|y F]; [by destruct Hr; left|].
  destruct Hch as (Hy & Hfl & Hch). apply NoDup_cons in Hnd as [HyF Hnd].
  unfold links in Hfl. apply lookup_fmap_Some in Hfl as (b & Hbl & Hb).
  unfold iob_tryalloc. rewrite Hfr. simpl first. simpl length in *.
  replace (_ && _) with false.
  2: { symmetry. apply not_true_is_false. intros Hc. bool_to_prop. apply Hr. right. destruct throttled.
       - rewrite Hth in * by lia. simpl. lia.
       - lia. }
  rewrite (proj2 (Z.eqb_neq _ _) Hy), (deref_Some _ _ _ Hy Hb), (update_Some _ _ _ _ Hy Hb).
  cbn [mbind option_bind]. rewrite (proj2 (Z.leb_le 0 _)) by lia. cbn [mbind option_bind DEBUGASSERT].
  replace (negb (0 <? CONFIG_IOB_THROTTLE) || _) with true.
  2: { destruct (Z.ltb_spec 0 CONFIG_IOB_THROTTLE) as [Ht|]; simpl; [|done].
       symmetry. apply Z.leb_le. rewrite Hth by done. lia. }
  cbn [mbind option_bind DEBUGASSERT]. eexists y, F, b, _.
  split_and!; [done|done|done| |done|done|by eapply Hdat; [left|]]. constructor; simpl; try done.
  - unfold links. rewrite fmap_insert. by apply chain_insert_ne.
  - intros w b' Hw. rewrite lookup_insert_ne by (by intros ->). apply Hdat. by right.
  - by rewrite map_size_insert_Some.
  - lia.
  - intros Ht. rewrite (proj2 (Z.ltb_lt _ _) Ht), Hth by done. lia.
Qed.

(** ** Freeing one buffer *)

Lemma release_spec st F x b :
  pool_ok st F → x ≠ NULL → x ∉ F → iobs st !! x = Some b →
  Z.of_nat (length (io_data b)) = CONFIG_IOB_BUFSIZE →
  ∃ st', iob_release st x = Some st' ∧
    pool_ok st' (x :: F) ∧ iobs st' = <[x := set_io_flink (first F NULL) b]> (iobs st).
Proof.
  intros [Hfr Hch Hnd Hdat Hsz Hsem Hth] Hx HxF Hb Hd.
  assert (Hlen : Z.of_nat (length (x :: F)) ≤ CONFIG_IOB_NBUFFERS).
  { etrans; [|exact Hsz]. apply inj_le. rewrite <- size_dom, <- (size_list_to_set (C := gset Z)) by
      (by apply NoDup_cons). apply subseteq_size. intros y [->|Hy]%elem_of_list_to_set%elem_of_cons.
    - by eapply elem_of_dom_2.
    - apply (chain_dom _ _ _ Hch) in Hy. unfold links in Hy. by rewrite dom_fmap in Hy. }
  simpl in Hlen. unfold iob_release.
  rewrite Hsem, (proj2 (Z.ltb_ge _ 0)), (update_Some _ _ _ _ Hx Hb), Hfr by lia.
  cbn [mbind option_bind g_iob_sem g_throttle_sem iobs g_iob_freelist g_iob_committed]. cbv zeta.
  rewrite (proj2 (Z.leb_le _ CONFIG_IOB_NBUFFERS)) by lia. cbn [mbind option_bind DEBUGASSERT].
  replace (negb (0 <? CONFIG_IOB_THROTTLE) || _) with true.
  2: { destruct (Z.ltb_spec 0 CONFIG_IOB_THROTTLE); simpl; [|done].
       symmetry. apply Z.leb_le. specialize (Hth ltac:(lia)). lia. }
  cbn [mbind option_bind DEBUGASSERT]. eexists. split_and!; [done| |done]. constructor; simpl.
  - done.
  - unfold links. rewrite fmap_insert. split_and!; [done|by rewrite lookup_insert_eq|].
    by apply chain_insert_ne.
  - by apply NoDup_cons.
  - intros y b' [->|Hy]%elem_of_cons Hb'.
    + rewrite lookup_insert_eq in Hb'. by simplify_eq.
    + rewrite lookup_insert_ne in Hb' by (by intros ->). eauto.
  - by rewrite map_size_insert_Some.
  - lia.
  - intros Ht. rewrite (proj2 (Z.ltb_lt _ _) Ht). rewrite Hth by done. lia.
Qed.

(** [iob_free] of the last buffer of a chain. *)

Lemma free_last st F x b :
  pool_ok st F → x ≠ NULL → x ∉ F → iobs st !! x = Some b → io_flink b = NULL →
  Z.of_nat (length (io_data b)) = CONFIG_IOB_BUFSIZE →
  ∃ st', iob_free st x = Some (NULL, st') ∧
    pool_ok st' (x :: F) ∧ iobs st' = <[x := set_io_flink (first F NULL) b]> (iobs st).
Proof.
  intros Hp Hx HxF Hb Hn Hd. unfold iob_free. rewrite (deref_Some _ _ _ Hx Hb).
  cbn [mbind option_bind]. rewrite Hn, Z.eqb_refl. cbv zeta. cbn [mbind option_bind].
  replace (set_iobs st (iobs st)) with st by (by destruct st).
  destruct (release_spec st F x b) as (st' & -> & ? & ?); try done. by exists st'.
Qed.

(** [iob_free] of a buffer with a successor [y], which inherits what is left of
    the packet length. *)

Lemma free_next st F x b y n :
  pool_ok st F → x ≠ NULL → x ∉ F → iobs st !! x = Some b →
  Z.of_nat (length (io_data b)) = CONFIG_IOB_BUFSIZE →
  io_flink b = y → y ≠ NULL → y ≠ x → y ∉ F → iobs st !! y = Some n →
  0 ≤ io_len b → io_pktlen b < 2 ^ 16 →
  (io_len b < io_pktlen b → io_len n ≤ io_pktlen b - io_len b) →
  ∃ st', iob_free st x = Some (y, st') ∧
    pool_ok st' (x :: F) ∧
    iobs st' = <[x := set_io_flink (first F NULL) b]>
                 (<[y := set_io_pktlen (Z.max 0 (io_pktlen b - io_len b)) n]> (iobs st)).
Proof.
  intros Hp Hx HxF Hb Hd Hy Hynz Hyx HyF Hn Hl Hmax Hle. unfold iob_free.
  rewrite (deref_Some _ _ _ Hx Hb). cbn [mbind option_bind]. rewrite Hy. cbv zeta.
  rewrite (proj2 (Z.eqb_neq _ _) Hynz).
  assert (Hm : (if io_len b <? io_pktlen b then
      n0 ← deref (iobs st) y;
      m ← update (iobs st) y (set_io_pktlen (u16 (io_pktlen b - io_len b)));
      DEBUGASSERT (io_len n0 <=? u16 (io_pktlen b - io_len b)) ;; Some m
    else update (iobs st) y (set_io_pktlen 0)) =
    Some (<[y := set_io_pktlen (Z.max 0 (io_pktlen b - io_len b)) n]> (iobs st))).
  { case_if.
    - rewrite (deref_Some _ _ _ Hynz Hn), (update_Some _ _ _ _ Hynz Hn). cbn [mbind option_bind].
      unfold u16. rewrite Z.mod_small, (proj2 (Z.leb_le _ _)) by lia.
      cbn [mbind option_bind DEBUGASSERT]. do 4 f_equal. lia.
    - rewrite (update_Some _ _ _ _ Hynz Hn). do 4 f_equal. lia. }
  rewrite Hm. cbn [mbind option_bind].
  destruct (release_spec (set_iobs st (<[y := set_io_pktlen (Z.max 0 (io_pktlen b - io_len b)) n]> (iobs st)))
    F x b) as (st' & -> & ? & ?); try done.
  - by apply pool_set.
  - simpl. by rewrite lookup_insert_ne.
  - by exists st'.
Qed.

(** ** Packets under updates *)

(** A packet but for the packet length of its first buffer. *)

Record body m (l : list Z) bs : Prop := {
  bo_nodup : NoDup l;
  bo_nodes : nodes m l bs;
  bo_linked : linked l bs NULL;
  bo_ok : Forall buf_ok bs;
  bo_lens : Forall (λ c, io_pktlen c = 0) (tail bs);
  bo_max : clen bs < 2 ^ 16
}.

Lemma nodes_set m x l b bs b' :
  x ∉ l → nodes m (x :: l) (b :: bs) → nodes (<[x := b']> m) (x :: l) (b' :: bs).
Proof.
  intros Hx Hn. inversion Hn; subst. constructor; [by rewrite lookup_insert_eq|].
  eapply nodes_ext; [|done]. intros y Hy. rewrite lookup_insert_ne; [done|]. by intros ->.
Qed.

(** An assignment to the first buffer. *)

Lemma body_set m x l b bs b' :
  body m (x :: l) (b :: bs) → buf_ok b' → io_flink b' = io_flink b → clen (b' :: bs) < 2 ^ 16 →
  body (<[x := b']> m) (x :: l) (b' :: bs).
Proof.
  intros [Hnd Hn Hl Hok H0 Hmax] Hb' Hf Hmax'. constructor; try done.
  - apply NoDup_cons in Hnd as [Hx _]. by eapply nodes_set.
  - destruct Hl as (? & ? & ?). simpl. by rewrite Hf.
  - apply Forall_cons in Hok as [_ Hok]. by constructor.
Qed.

Lemma pktlens_inv b bs : pktlens (b :: bs) → io_pktlen b = clen (b :: bs) ∧ Forall (λ c, io_pktlen c = 0) bs.
Proof.
  unfold pktlens. simpl. intros [= Hb H0]. split; [done|]. rewrite Nat.sub_0_r in H0.
  clear Hb. induction bs as [|c bs IH]; simplify_eq/=; [constructor|]. constructor; auto.
Qed.

Lemma packet_body m l bs : packet m l bs → body m l bs.
Proof.
  intros []. constructor; try done. destruct bs; [constructor|]. by apply pktlens_inv in pk_lens0 as [].
Qed.

Lemma packet_pktlen m l b bs : packet m l (b :: bs) → io_pktlen b = clen (b :: bs).
Proof. intros []. by apply pktlens_inv in pk_lens0 as []. Qed.

(** Only the packet length of the first buffer has to be put right. *)

Lemma body_packet m l b bs : io_pktlen b = clen (b :: bs) → body m l (b :: bs) → packet m l (b :: bs).
Proof.
  intros Hc [Hnd Hn Hl Hok H0 Hmax]. constructor; try done.
  unfold pktlens. simpl in *. rewrite Nat.sub_0_r, Hc. f_equal. clear -H0.
  induction H0 as [|c bs Hc0 _ IH]; simpl; [done|]. by rewrite Hc0, IH.
Qed.

Lemma packet_head m x l b bs :
  body m (x :: l) (b :: bs) →
  packet (<[x := set_io_pktlen (clen (b :: bs)) b]> m) (x :: l)
    (set_io_pktlen (clen (b :: bs)) b :: bs).
Proof.
  intros Hb. apply body_packet; [done|]. pose proof Hb as [_ _ _ [Hok _]%Forall_cons _ Hmax].
  eapply body_set; try done. by destruct Hok; constructor.
Qed.

Lemma body_tail m x l b bs : body m (x :: l) (b :: bs) → body m l bs.
Proof.
  intros [Hnd Hn Hl Hok H0 Hmax]. apply NoDup_cons in Hnd as [_ Hnd]. inversion Hn; subst.
  destruct Hl as (_ & _ & Hl). apply Forall_cons in Hok as [Hb Hok]. constructor; try done.
  - destruct bs; [constructor|]. by apply Forall_cons in H0 as [].
  - rewrite clen_cons in Hmax by done. destruct Hb. lia.
Qed.

Lemma body_ext m m' l bs : (∀ x, x ∈ l → m' !! x = m !! x) → body m l bs → body m' l bs.
Proof. intros Hx []. constructor; try done. by eapply nodes_ext. Qed.

Lemma body_first m x l b bs :
  body m (x :: l) (b :: bs) → x ≠ NULL ∧ m !! x = Some b ∧ io_flink b = first l NULL ∧ buf_ok b.
Proof.
  intros [_ Hn (Hx & Hf & _) [Hb _]%Forall_cons _ _]. by inversion Hn.
Qed.

Lemma body_shape m x l b bs :
  body m (x :: l) (b :: bs) →
  (l = [] ∧ bs = []) ∨ ∃ y l' n bs', l = y :: l' ∧ bs = n :: bs'.
Proof.
  intros [_ Hn _ _ _ _]. inversion Hn as [|????? Hn']; subst.
  inversion Hn'; subst; [by left|]. right. eauto 6.
Qed.

Lemma body_length m l bs : body m l bs → (length l ≤ size m)%nat.
Proof.
  intros [Hnd Hn _ _ _ _]. rewrite <- size_dom, <- (size_list_to_set (C := gset Z)) by done.
  apply subseteq_size. intros y Hy%elem_of_list_to_set. apply elem_of_dom. by eapply nodes_lookup.
Qed.

(** What an operation on the packet [l] leaves behind: the buffers are the same
    ones, on the packet or on the free list, and no other buffer has changed. *)

Record outcome st (F l : list Z) st' (F' l' : list Z) : Prop := {
  oc_pool : pool_ok st' F';
  oc_perm : F' ++ l' ≡ₚ F ++ l;
  oc_frame y : y ∉ F ++ l → iobs st' !! y = iobs st !! y
}.

Lemma outcome_trans st F l st1 F1 l1 st2 F2 l2 :
  outcome st F l st1 F1 l1 → outcome st1 F1 l1 st2 F2 l2 → outcome st F l st2 F2 l2.
Proof.
  intros [_ Hp1 Hf1] [Hpo Hp2 Hf2]. constructor; [done|by rewrite Hp2|].
  intros y Hy. rewrite Hf2 by (by rewrite Hp1). by apply Hf1.
Qed.

Lemma outcome_set st F l x b :
  pool_ok st F → NoDup (F ++ l) → x ∈ l → is_Some (iobs st !! x) →
  outcome st F l (set_iobs st (<[x := b]> (iobs st))) F l.
Proof.
  intros Hp (_ & Hdis & _)%NoDup_app Hx Hb. constructor; [|done|].
  - apply pool_set; [done| |done]. by intros ?%Hdis.
  - intros y Hy. simpl. rewrite lookup_insert_ne by set_solver. done.
Qed.

Lemma outcome_nodup st F l st' F' l' :
  outcome st F l st' F' l' → NoDup (F ++ l) → NoDup (F' ++ l').
Proof. intros [_ Hp _]. by rewrite Hp. Qed.

Lemma outcome_set_again st F l st1 m F' l' x b :
  outcome st F l (set_iobs st1 m) F' l' → NoDup (F ++ l) → x ∈ l' → is_Some (m !! x) →
  outcome st F l (set_iobs st1 (<[x := b]> m)) F' l'.
Proof.
  intros Hoc HNd Hx Hm. eapply outcome_trans; [exact Hoc|].
  apply (outcome_set (set_iobs st1 m) F' l' x b); [apply Hoc|by eapply outcome_nodup|done|done].
Qed.

Lemma free_head st F x y l b n bs :
  pool_ok st F → packet (iobs st) (x :: y :: l) (b :: n :: bs) → NoDup (F ++ x :: y :: l) →
  ∃ st', iob_free st x = Some (y, st') ∧
    outcome st F (x :: y :: l) st' (x :: F) (y :: l) ∧
    packet (iobs st') (y :: l) (set_io_pktlen (clen (n :: bs)) n :: bs).
Proof.
  intros Hp Hpk HNd. pose proof Hpk as [Hnd Hn Hl Hok Hlens Hmax].
  apply NoDup_app in HNd as (HndF & Hdis & _). inversion Hn as [|???? Hbx Hn2]; subst.
  inversion Hn2 as [|???? Hny Hn3]; subst. destruct Hl as (Hx & Hfb & Hl2). simpl in Hfb.
  pose proof Hl2 as (Hy & _). apply Forall_cons in Hok as [Hb Hok2].
  pose proof Hok2 as [Hnok Hok3]%Forall_cons. apply NoDup_cons in Hnd as [Hxl Hnd2].
  apply pktlens_inv in Hlens as [Hpb [_ H0]%Forall_cons]. pose proof (clen_cons b (n :: bs) Hb) as Hc.
  pose proof (clen_cons n bs Hnok) as Hc2. pose proof (clen_nonneg bs). pose proof (ok_len _ Hnok).
  pose proof (ok_len _ Hb).
  destruct (free_next st F x b y n) as (st' & E & Hp' & Hm'); try done.
  - intros Hin%Hdis. set_solver.
  - apply Hb.
  - set_solver.
  - intros Hin%Hdis. set_solver.
  - lia.
  - lia.
  - exists st'. split; [done|].
    replace (Z.max 0 (io_pktlen b - io_len b)) with (clen (n :: bs)) in Hm' by lia.
    split; [constructor|].
    + done.
    + apply Permutation_middle.
    + intros z Hz. rewrite Hm', !lookup_insert_ne by set_solver. done.
    + rewrite Hm', insert_insert_ne by set_solver. apply packet_head.
      eapply body_ext; [|by eapply body_tail, packet_body].
      intros z Hz. apply lookup_insert_ne. set_solver.
Qed.

(** ** Assignments anywhere in a packet *)

Lemma packet_iff m l bs :
  packet m l bs ↔ body m l bs ∧ io_pktlen <$> head bs = Some (clen bs).
Proof.
  split.
  - intros Hpk. split; [by apply packet_body|]. destruct bs; [by apply packet_ne in Hpk as []|].
    simpl. by rewrite (packet_pktlen _ _ _ _ Hpk).
  - intros [Hb Hh]. destruct bs; simplify_eq/=. by apply body_packet.
Qed.

Lemma nodes_mid m l1 x l2 bs1 b bs2 :
  length l1 = length bs1 → nodes m (l1 ++ x :: l2) (bs1 ++ b :: bs2) ↔
  nodes m l1 bs1 ∧ m !! x = Some b ∧ nodes m l2 bs2.
Proof.
  intros Hl. unfold nodes. rewrite <- (Forall2_cons (λ x b, m !! x = Some b)). split.
  - by apply Forall2_app_inv.
  - intros []. by apply Forall2_app.
Qed.

Lemma body_mid m l1 x l2 bs1 b bs2 :
  length l1 = length bs1 → body m (l1 ++ x :: l2) (bs1 ++ b :: bs2) →
  x ≠ NULL ∧ m !! x = Some b ∧ io_flink b = first l2 NULL ∧ buf_ok b ∧ (x ∉ l1) ∧ (x ∉ l2).
Proof.
  intros Hl [Hnd Hn Hk Hok _ _]. apply nodes_mid in Hn as (_ & Hb & _); [|done].
  apply linked_app in Hk as (_ & Hx & Hf & _); [|done].
  apply Forall_app in Hok as [_ [Hbok _]%Forall_cons]. split_and!; try done.
  - intros Hin. apply NoDup_app in Hnd as (_ & Hd & _). by apply (Hd x); [|left].
  - by apply NoDup_app in Hnd as (_ & _ & [? _]%NoDup_cons).
Qed.

Lemma body_set_mid m l1 x l2 bs1 b bs2 b' :
  length l1 = length bs1 → body m (l1 ++ x :: l2) (bs1 ++ b :: bs2) →
  buf_ok b' → io_flink b' = io_flink b → io_pktlen b' = io_pktlen b →
  clen (bs1 ++ b' :: bs2) < 2 ^ 16 →
  body (<[x := b']> m) (l1 ++ x :: l2) (bs1 ++ b' :: bs2).
Proof.
  intros Hl Hbo Hb' Hf Hp Hmax. pose proof (body_mid _ _ _ _ _ _ _ Hl Hbo) as (Hx & Hb & Hfl & _ & H1 & H2).
  destruct Hbo as [Hnd Hn Hk Hok H0 _]. constructor; try done.
  - apply nodes_mid in Hn as (Hn1 & _ & Hn2); [|done]. apply nodes_mid; [done|].
    split_and!; [|by rewrite lookup_insert_eq|];
      (eapply nodes_ext; [|done]; intros y Hy; apply lookup_insert_ne; by intros ->).
  - apply linked_app in Hk as (? & ? & ? & ?); [|done]. apply linked_app; [done|]. simpl.
    by rewrite Hf.
  - apply Forall_app in Hok as [? [_ ?]%Forall_cons]. apply Forall_app. split; [done|]. by constructor.
  - destruct bs1; simpl in *; [done|]. apply Forall_app in H0 as [? [? ?]%Forall_cons].
    apply Forall_app. split; [done|]. constructor; congruence.
Qed.

Lemma pool_size st F l bs :
  pool_ok st F → NoDup (F ++ l) → body (iobs st) l bs → (length F + length l ≤ size (iobs st))%nat.
Proof.
  intros Hp HNd Hbo. rewrite <- length_app, <- size_dom, <- (size_list_to_set (C := gset Z)) by done.
  apply subseteq_size. intros y [Hy|Hy]%elem_of_list_to_set%elem_of_app.
  - apply (chain_dom _ _ _ (po_chain _ _ Hp)) in Hy. unfold links in Hy. by rewrite dom_fmap in Hy.
  - apply elem_of_dom. eapply nodes_lookup; [apply Hbo|done].
Qed.

(** A new, empty buffer at the end. *)

Lemma content_extend bp n z c :
  content ((bp ++ [set_io_flink z n]) ++ [iob_reset c]) = content (bp ++ [n]).
Proof. rewrite !content_app. unfold content at 3, payload. simpl. by rewrite app_nil_r. Qed.

Lemma packet_extend m lp y bp n z c :
  length lp = length bp → packet m (lp ++ [y]) (bp ++ [n]) → z ∉ lp ++ [y] → z ≠ NULL →
  m !! z = Some c → Z.of_nat (length (io_data c)) = CONFIG_IOB_BUFSIZE →
  packet (<[y := set_io_flink z n]> (<[z := iob_reset c]> m)) ((lp ++ [y]) ++ [z])
    ((bp ++ [set_io_flink z n]) ++ [iob_reset c]).
Proof.
  intros Hlen [Hbo Hhd]%packet_iff Hz Hz0 Hc Hd. pose proof bufsize_ok.
  pose proof (body_mid _ _ _ _ _ _ _ Hlen Hbo) as (Hy & Hn & Hf & Hok & Hyl & _).
  destruct Hbo as [Hnd Hns Hk Hoks H0 Hmax].
  pose proof (content_extend bp n z c) as Hc0.
  apply packet_iff. split; [constructor|].
  - apply NoDup_app. split_and!; [done|set_solver|apply NoDup_singleton].
  - apply nodes_mid in Hns as (Hn1 & _ & _); [|done]. apply nodes_mid; [rewrite !length_app; simpl; lia|].
    split_and!; [|rewrite lookup_insert_ne, lookup_insert_eq by set_solver; done|constructor].
    apply nodes_mid; [done|]. split_and!; [|by rewrite lookup_insert_eq|constructor].
    eapply nodes_ext; [|done]. intros w Hw. rewrite !lookup_insert_ne; [done|set_solver..].
  - apply linked_app in Hk as [Hk1 _]; [|done]. apply linked_app; [rewrite !length_app; simpl; lia|].
    split; [|done]. apply linked_app; [done|]. by split.
  - apply Forall_app in Hoks as [? [? _]%Forall_cons]. rewrite !Forall_app, !Forall_singleton. split_and!; [done|..].
    + by destruct Hok; constructor.
    + constructor; simpl; lia.
  - destruct bp; simpl in *; [by repeat constructor|]. rewrite !Forall_app, !Forall_singleton in *.
    by destruct H0.
  - unfold clen. rewrite Hc0. done.
  - unfold clen in *. rewrite Hc0. by destruct bp.
Qed.

(** ** The bytes of a trimmed buffer *)

Lemma payload_trim b t :
  buf_ok b → 0 ≤ t ≤ io_len b →
  payload (set_io_offset (io_offset b + t) (set_io_len (io_len b - t) b)) =
    drop (Z.to_nat t) (payload b).
Proof.
  intros [] Ht. unfold payload. simpl. rewrite skipn_firstn_comm, drop_drop.
  f_equal; [lia|]. f_equal. lia.
Qed.

Lemma buf_trim b t :
  buf_ok b → 0 ≤ t ≤ io_len b →
  buf_ok (set_io_offset (io_offset b + t) (set_io_len (io_len b - t) b)).
Proof. intros [] Ht. constructor; simpl; lia. Qed.

Lemma content_drop b bs t :
  buf_ok b → io_len b ≤ t →
  drop (Z.to_nat t) (content (b :: bs)) = drop (Z.to_nat (t - io_len b)) (content bs).
Proof.
  intros Hb Ht. pose proof (length_payload b Hb). destruct Hb.
  rewrite content_cons, drop_app_ge by lia. f_equal. lia.
Qed.
End Spec.
End IobSpec.
