(* ===== verification/IobTrim.v ===== *)
(** * I/O buffers: trimming and freeing packets

    [iob_trimhead] drops bytes from the front, [iob_trimtail] from the end, and
    [iob_free_chain] everything; the buffers that are no longer needed go back to
    the pool. *)

From S2P Require Import Prelude.
From S2P Require Import Queue.
From S2P Require Import Iob.
From S2P Require Import IobSpec.

Module IobTrim.
Import Iob IobSpec.

Section Trim.
Context {cfg : IobConfig} {cfg_ok : IobConfigOk}.
Implicit Types (m : gmap Z iob_s) (st : iob_state) (b n : iob_s) (bs : list iob_s).

(** ** From the head *)

Lemma trimhead_loop_spec fuel st F x l b bs t :
  pool_ok st F → NoDup (F ++ x :: l) → packet (iobs st) (x :: l) (b :: bs) →
  0 ≤ t < 2 ^ 32 → (S (length (x :: l)) < fuel)%nat →
  ∃ st' F' x' l' b' bs',
    iob_trimhead_loop fuel st x (clen (b :: bs)) t = Some (x', clen (b' :: bs'), st') ∧
    outcome st F (x :: l) st' F' (x' :: l') ∧ body (iobs st') (x' :: l') (b' :: bs') ∧
    content (b' :: bs') = drop (Z.to_nat t) (content (b :: bs)).
Proof.
  revert st F x l b bs t. induction fuel as [|fuel IH]; intros st F x l b bs t Hp HNd Hpk Ht Hf; [lia|].
  pose proof (packet_body _ _ _ Hpk) as Hbo. pose proof (body_first _ _ _ _ _ Hbo) as (Hx & Hb & Hfl & Hok).
  pose proof (clen_cons b bs Hok) as Hc. pose proof (clen_nonneg bs). pose proof (bo_max _ _ _ Hbo).
  pose proof (ok_len _ Hok). pose proof (ok_offset _ Hok). pose proof (ok_fit _ Hok).
  cbn [iob_trimhead_loop]. rewrite (proj2 (Z.eqb_neq _ _) Hx).
  destruct (Z.ltb_spec 0 t) as [Ht0|Ht0]; cbn [andb negb].
  2: { exists st, F, x, l, b, bs. split_and!; try done. by replace t with 0 by lia. }
  rewrite (deref_Some _ _ _ Hx Hb). cbn [mbind option_bind].
  destruct (Z.leb_spec (io_len b) t) as [Hle|Hgt].
  - unfold u16, u32. rewrite !Z.mod_small by lia. cbv zeta. rewrite Hfl.
    destruct (body_shape _ _ _ _ _ Hbo) as [[-> ->]|(y & l2 & n & bs2 & -> & ->)].
    + simpl first. rewrite Z.eqb_refl. change (clen []) with 0 in Hc.
      replace (_ - io_len b) with 0 by lia. cbn [mbind option_bind DEBUGASSERT Z.eqb].
      rewrite (update_Some _ _ _ _ Hx Hb). cbn [mbind option_bind]. rewrite update_again by done.
      cbn [mbind option_bind]. eexists _, F, x, [], (set_io_offset 0 (set_io_len 0 b)), [].
      split_and!; [done|..].
      * apply outcome_set; try done; set_solver.
      * eapply body_set; [done| |done|done]. destruct Hok. constructor; simpl; lia.
      * rewrite content_drop by done. unfold content, payload. simpl. by rewrite drop_nil.
    + pose proof (bo_linked _ _ _ Hbo) as (_ & _ & Hy & _). simpl first.
      rewrite (proj2 (Z.eqb_neq _ _) Hy).
      destruct (free_head st F x y l2 b n bs2) as (st1 & -> & Hoc & Hpk1); try done.
      cbn [mbind option_bind]. rewrite Hc.
      replace (io_len b + clen (n :: bs2) - io_len b) with (clen (n :: bs2)) by lia.
      destruct (IH st1 (x :: F) y l2 (set_io_pktlen (clen (n :: bs2)) n) bs2 (t - io_len b))
        as (st' & F' & x' & l' & b' & bs' & E & Hoc' & Hbo' & Hco); try done; [apply Hoc| |lia| |].
      * by eapply outcome_nodup.
      * simpl in *. lia.
      * exists st', F', x', l', b', bs'. split_and!; try done; [by eapply outcome_trans|].
        by rewrite Hco, (content_drop b).
  - rewrite (update_Some _ _ _ _ Hx Hb). cbn [mbind option_bind]. rewrite update_again by done.
    cbn [mbind option_bind]. rewrite !ulen_small by lia. unfold u16. rewrite Z.mod_small by lia.
    destruct fuel; [lia|]. cbn [iob_trimhead_loop Z.ltb Z.compare andb].
    pose proof (buf_trim b t Hok ltac:(lia)) as Hok'.
    pose proof (clen_cons _ bs Hok') as Hc'. simpl in Hc'.
    eexists _, F, x, l, (set_io_offset (io_offset b + t) (set_io_len (io_len b - t) b)), bs.
    split_and!; [do 3 f_equal; lia|..].
    + apply outcome_set; try done; set_solver.
    + eapply body_set; try done. lia.
    + rewrite !content_cons, payload_trim by (done || lia). rewrite drop_app_le; [done|].
      pose proof (length_payload b Hok). lia.
Qed.

Lemma trimhead_spec st F x l b bs t :
  pool_ok st F → NoDup (F ++ x :: l) → packet (iobs st) (x :: l) (b :: bs) → 0 ≤ t < 2 ^ 32 →
  ∃ st' F' l' bs', iob_trimhead st x t = Some (first l' NULL, st') ∧
    outcome st F (x :: l) st' F' l' ∧ packet (iobs st') l' bs' ∧
    content bs' = drop (Z.to_nat t) (content (b :: bs)).
Proof.
  intros Hp HNd Hpk Ht. pose proof (packet_body _ _ _ Hpk) as Hbo.
  pose proof (body_first _ _ _ _ _ Hbo) as (Hx & Hb & _ & _).
  unfold iob_trimhead. rewrite (proj2 (Z.eqb_neq _ _) Hx).
  destruct (Z.ltb_spec 0 t) as [Ht0|Ht0]; cbn [andb negb].
  2: { exists st, F, (x :: l), (b :: bs). replace t with 0 by lia. by split_and!. }
  rewrite (deref_Some _ _ _ Hx Hb). cbn [mbind option_bind]. rewrite (packet_pktlen _ _ _ _ Hpk).
  destruct (trimhead_loop_spec (S (S (size (iobs st)))) st F x l b bs t)
    as (st1 & F' & x' & l' & b' & bs' & -> & Hoc & Hbo' & Hco); try done.
  { pose proof (body_length _ _ _ Hbo). lia. }
  cbn [mbind option_bind]. pose proof (body_first _ _ _ _ _ Hbo') as (Hx' & Hb' & _ & _).
  rewrite (update_Some _ _ _ _ Hx' Hb'). cbn [mbind option_bind].
  eexists _, F', (x' :: l'), _. split_and!; [done| | |].
  - eapply outcome_trans; [done|]. apply outcome_set; [apply Hoc|by eapply outcome_nodup|set_solver|done].
  - simpl. by apply packet_head.
  - done.
Qed.

(** ** A whole packet *)

Lemma free_single st F x b :
  pool_ok st F → NoDup (F ++ [x]) → body (iobs st) [x] [b] →
  ∃ st', iob_free st x = Some (NULL, st') ∧ outcome st F [x] st' (x :: F) [].
Proof.
  intros Hp (_ & HxF & _)%NoDup_app Hbo. pose proof (body_first _ _ _ _ _ Hbo) as (Hx & Hb & Hf & Hok).
  destruct (free_last st F x b) as (st' & -> & Hp' & Hm); try done.
  - intros ?%HxF. set_solver.
  - apply Hok.
  - exists st'. split; [done|]. constructor; [done|by rewrite app_nil_r, Permutation_app_comm|].
    intros y Hy. rewrite Hm, lookup_insert_ne by set_solver. done.
Qed.

Lemma free_chain_loop_spec fuel st F x l b bs :
  pool_ok st F → NoDup (F ++ x :: l) → packet (iobs st) (x :: l) (b :: bs) →
  (S (length l) < fuel)%nat →
  ∃ st', iob_free_chain_loop fuel st x = Some st' ∧
    outcome st F (x :: l) st' (reverse (x :: l) ++ F) [].
Proof.
  revert st F x l b bs. induction fuel as [|fuel IH]; intros st F x l b bs Hp HNd Hpk Hf; [lia|].
  pose proof (packet_body _ _ _ Hpk) as Hbo. pose proof (body_first _ _ _ _ _ Hbo) as (Hx & Hb & _ & _).
  cbn [iob_free_chain_loop]. rewrite (proj2 (Z.eqb_neq _ _) Hx).
  destruct (body_shape _ _ _ _ _ Hbo) as [[-> ->]|(y & l2 & n & bs2 & -> & ->)].
  - destruct (free_single st F x b) as (st' & -> & Hoc); try done.
    cbn [mbind option_bind]. destruct fuel; [simpl in Hf; lia|]. simpl. by exists st'.
  - destruct (free_head st F x y l2 b n bs2) as (st1 & -> & Hoc & Hpk1); try done.
    cbn [mbind option_bind]. edestruct (IH st1 (x :: F) y l2) as (st' & E & Hoc'); [..|exact Hpk1| |].
    + apply Hoc.
    + by eapply outcome_nodup.
    + simpl in Hf. lia.
    + exists st'. split; [done|]. rewrite reverse_cons, <- app_assoc. by eapply outcome_trans.
Qed.

Lemma free_chain_spec st F x l b bs :
  pool_ok st F → NoDup (F ++ x :: l) → packet (iobs st) (x :: l) (b :: bs) →
  ∃ st', iob_free_chain st x = Some st' ∧ outcome st F (x :: l) st' (reverse (x :: l) ++ F) [].
Proof.
  intros Hp HNd Hpk. eapply free_chain_loop_spec; try done.
  pose proof (body_length _ _ _ (packet_body _ _ _ Hpk)). simpl in *. lia.
Qed.

(** ** From the tail *)

Fixpoint last2 (p q : Z) (l : list Z) : Z * Z :=
  match l with [] => (p, q) | x :: l => last2 q x l end.

Lemma last2_snoc p q l z : last2 p q (l ++ [z]) = (default q (last l), z).
Proof.
  revert p q. induction l as [|x l IH]; intros; simpl last2; [done|].
  rewrite IH, last_cons. by destruct (last l).
Qed.

Lemma last_spec fuel m l bs p q :
  nodes m l bs → linked l bs NULL → (length l < fuel)%nat →
  iob_last fuel m (first l NULL) p q = Some (last2 p q l).
Proof.
  revert l bs p q. induction fuel as [|fuel IH]; intros [|x l] [|b bs] p q Hn Hl Hf; try done;
    simpl in Hf; try lia.
  destruct Hl as (Hx & Hfl & Hl). inversion Hn; subst. cbn [iob_last first].
  rewrite (proj2 (Z.eqb_neq _ _) Hx), (deref_Some _ _ b) by done. cbn [mbind option_bind].
  rewrite Hfl. apply (IH l bs); [done|done|lia].
Qed.

(** The last buffer is cut off. *)

Lemma body_cut m l z bs c :
  body m (l ++ [z]) (bs ++ [c]) → l ≠ [] →
  ∃ y n, last l = Some y ∧ y ≠ NULL ∧ y ∈ l ∧ m !! y = Some n ∧
    ∀ m', (∀ x, x ∈ l → m' !! x = m !! x) →
    ∃ bs', body (<[y := set_io_flink NULL n]> m') l bs' ∧ content bs' = content bs ∧
      io_pktlen <$> bs' = io_pktlen <$> bs.
Proof.
  intros Hbo Hne. pose proof (Forall2_length _ _ _ (bo_nodes _ _ _ Hbo)) as Hlen.
  rewrite !length_app in Hlen. simpl in Hlen.
  destruct l as [|y l1 _] using rev_ind; [done|].
  destruct bs as [|n bs1 _] using rev_ind; rewrite !length_app in Hlen; simpl in Hlen; [lia|].
  exists y, n. rewrite <- app_assoc in Hbo. rewrite <- app_assoc in Hbo. simpl in Hbo.
  pose proof (body_mid _ l1 y [z] bs1 n [c] ltac:(lia) Hbo) as (Hy & Hn & Hf & Hok & Hy1 & _).
  rewrite last_snoc. split_and!; [done|done|set_solver|done|]. intros m' Hm'.
  exists (bs1 ++ [set_io_flink NULL n]). split_and!.
  2: by rewrite !content_app. 2: by rewrite !fmap_app.
  destruct Hbo as [Hnd Hns Hk Hoks H0 Hmax]. constructor.
  - rewrite (cons_middle y), app_assoc in Hnd. by apply NoDup_app in Hnd as [].
  - apply nodes_mid in Hns as (Hn1 & _ & _); [|lia]. apply nodes_mid; [lia|].
    split_and!; [|by rewrite lookup_insert_eq|constructor].
    eapply nodes_ext; [|done]. intros x Hx. rewrite lookup_insert_ne by (by intros ->). apply Hm'. set_solver.
  - apply linked_app in Hk as [Hk1 Hk2]; [|lia]. apply linked_app; [lia|]. by split.
  - apply Forall_app in Hoks as [? [? _]%Forall_cons]. apply Forall_app. split; [done|].
    constructor; [|done]. by destruct Hok; constructor.
  - destruct bs1; simpl in *; [done|]. apply Forall_app in H0 as [? [? _]%Forall_cons].
    apply Forall_app. split; [done|]. by constructor.
  - rewrite (cons_middle n), app_assoc, clen_app in Hmax. rewrite clen_app in *.
    pose proof (clen_nonneg [c]). change (clen [set_io_flink NULL n]) with (clen [n]). lia.
Qed.

(** One round of the loop that frees the last buffer, which is not the first:
    the buffer is emptied and freed, and the one before it becomes the last. *)

Lemma trimtail_free st F x l z b b' bs c :
  pool_ok st F → NoDup (F ++ x :: l ++ [z]) → body (iobs st) (x :: l ++ [z]) (b :: bs ++ [c]) →
  ∃ st1, iob_free (set_iobs st (<[z := set_io_len 0 c]> (<[x := b']> (iobs st)))) z = Some (NULL, st1) ∧
    pool_ok st1 (z :: F) ∧ (∀ w, w ≠ z → iobs st1 !! w = <[x := b']> (iobs st) !! w).
Proof.
  intros Hp HNd Hbo. pose proof (Forall2_length _ _ _ (bo_nodes _ _ _ Hbo)) as Hlen.
  simpl in Hlen. rewrite !length_app in Hlen. simpl in Hlen.
  pose proof (body_first _ _ _ _ _ Hbo) as (Hx & Hb & _ & _).
  pose proof (body_mid _ (x :: l) z [] (b :: bs) c [] ltac:(simpl; lia) Hbo)
    as (Hz & Hc & Hf & Hok & Hzl & _).
  apply NoDup_app in HNd as (_ & Hd & _).
  destruct (free_last (set_iobs st (<[z := set_io_len 0 c]> (<[x := b']> (iobs st)))) F z (set_io_len 0 c))
    as (st1 & E & Hp1 & Hm1); try done.
  - apply pool_set_again; [apply pool_set; [done| |done]| |].
    + intros ?%Hd. set_solver.
    + intros ?%Hd. set_solver.
    + rewrite lookup_insert_ne by set_solver. done.
  - intros ?%Hd. set_solver.
  - apply lookup_insert_eq.
  - apply Hok.
  - exists st1. split_and!; [done|done|]. intros w Hw. rewrite Hm1. simpl.
    by rewrite !(lookup_insert_ne _ z) by done.
Qed.

Lemma trimtail_drop st F x l z b bs c :
  pool_ok st F → NoDup (F ++ x :: l ++ [z]) →
  packet (iobs st) (x :: l ++ [z]) (b :: bs ++ [c]) →
  ∃ st1 y n bs',
    iob_free (set_iobs st (<[z := set_io_len 0 c]>
      (<[x := set_io_pktlen (clen (b :: bs)) b]> (iobs st)))) z = Some (NULL, st1) ∧
    last (x :: l) = Some y ∧ y ≠ NULL ∧ iobs st1 !! y = Some n ∧
    outcome st F (x :: l ++ [z]) (set_iobs st1 (<[y := set_io_flink NULL n]> (iobs st1))) (z :: F) (x :: l) ∧
    packet (<[y := set_io_flink NULL n]> (iobs st1)) (x :: l) bs' ∧ content bs' = content (b :: bs).
Proof.
  intros Hp HNd Hpk. pose proof (packet_body _ _ _ Hpk) as Hbo.
  pose proof (body_first _ _ _ _ _ Hbo) as (Hx & Hb & _ & [Hb1 Hb2 Hb3 Hb4]).
  destruct (trimtail_free st F x l z b (set_io_pktlen (clen (b :: bs)) b) bs c) as (st1 & E & Hp1 & Hag);
    try done.
  assert (Hbo1 : body (<[x := set_io_pktlen (clen (b :: bs)) b]> (iobs st)) ((x :: l) ++ [z])
    ((set_io_pktlen (clen (b :: bs)) b :: bs) ++ [c])).
  { simpl. eapply body_set; try done. apply (bo_max _ _ _ Hbo). }
  assert (Hzl : z ∉ x :: l).
  { apply bo_nodup, (NoDup_app (x :: l) [z]) in Hbo as (_ & Hd & _). intros ?%Hd. set_solver. }
  destruct (body_cut _ _ _ _ _ Hbo1) as (y & n & Hla & Hy & Hyl & Hn & Hcut); [done|].
  assert (Hyz : y ≠ z) by (by intros ->).
  destruct (Hcut (iobs st1)) as (bs' & Hbo' & Hco & Hpl); [intros w Hw; apply Hag; by intros ->|].
  exists st1, y, n, bs'. split_and!; [done|done|done|by rewrite Hag|constructor|apply packet_iff; split|];
    try done.
  - apply pool_set; [done| |by rewrite Hag].
    apply NoDup_app in HNd as (_ & Hd & _). intros [->|?%Hd]%elem_of_cons; set_solver.
  - rewrite (app_comm_cons l), (app_assoc F). apply Permutation_cons_append.
  - intros w Hw. simpl. rewrite lookup_insert_ne, Hag, lookup_insert_ne by set_solver. done.
  - destruct bs'; simplify_eq/=. f_equal. unfold clen in *. by rewrite Hco.
Qed.

(** The round that shortens the last buffer. *)

Lemma body_last m l bs z :
  body m l bs → last l = Some z →
  ∃ l0 bs0 c, l = l0 ++ [z] ∧ bs = bs0 ++ [c] ∧ length l0 = length bs0.
Proof.
  intros Hbo Hz. pose proof (Forall2_length _ _ _ (bo_nodes _ _ _ Hbo)) as Hlen.
  apply last_Some in Hz as [l0 ->]. rewrite length_app in Hlen.
  destruct bs as [|c bs0 _] using rev_ind; [simpl in Hlen; lia|].
  rewrite length_app in Hlen. simpl in Hlen. exists l0, bs0, c. split_and!; [done|done|lia].
Qed.

Lemma buf_shorten c t : buf_ok c → 0 ≤ t ≤ io_len c → buf_ok (set_io_len (io_len c - t) c).
Proof. intros [] Ht. constructor; simpl; lia. Qed.

Lemma content_shorten bs c t :
  buf_ok c → 0 ≤ t ≤ io_len c →
  content (bs ++ [set_io_len (io_len c - t) c]) =
    take (Z.to_nat (clen (bs ++ [c]) - t)) (content (bs ++ [c])).
Proof.
  intros Hok Ht. pose proof (length_payload c Hok). rewrite clen_app, (clen_cons c []) by done.
  change (clen []) with 0. unfold clen. rewrite !content_app, take_app_ge by lia. f_equal.
  rewrite !content_cons. change (content []) with (@nil Z). rewrite !app_nil_r. unfold payload. simpl.
  rewrite take_take. f_equal. destruct Hok. lia.
Qed.

Lemma trimtail_cut st F x l b bs t z c :
  pool_ok st F → NoDup (F ++ x :: l) → packet (iobs st) (x :: l) (b :: bs) →
  last (x :: l) = Some z → iobs st !! z = Some c → 0 < t < io_len c →
  ∃ m bs',
    (m ← update (iobs st) x (set_io_pktlen (clen (b :: bs) - t));
     update m z (set_io_len (io_len c - t))) = Some m ∧
    outcome st F (x :: l) (set_iobs st m) F (x :: l) ∧ packet m (x :: l) bs' ∧
    content bs' = take (Z.to_nat (clen (b :: bs) - t)) (content (b :: bs)).
Proof.
  intros Hp HNd Hpk Hz Hc Ht. pose proof (packet_body _ _ _ Hpk) as Hbo.
  pose proof (body_first _ _ _ _ _ Hbo) as (Hx & Hb & _ & [Hb1 Hb2 Hb3 Hb4]).
  set (b' := set_io_pktlen (clen (b :: bs) - t) b).
  assert (Hbo1 : body (<[x := b']> (iobs st)) (x :: l) (b' :: bs)).
  { eapply body_set; try done. apply (bo_max _ _ _ Hbo). }
  destruct (body_last _ _ _ _ Hbo1 Hz) as (l0 & bs0 & c1 & El & Ebs & Hlen).
  rewrite El, Ebs in Hbo1. pose proof (body_mid _ _ _ _ _ _ _ Hlen Hbo1) as (Hz0 & Hc1 & _ & Hok1 & _ & _).
  assert (Hlc : io_len c1 = io_len c).
  { destruct (decide (z = x)) as [->|]; [rewrite lookup_insert_eq in Hc1|rewrite lookup_insert_ne in Hc1 by done];
      by simplify_eq. }
  rewrite (update_Some _ _ _ _ Hx Hb). cbn [mbind option_bind].
  rewrite (update_Some _ _ _ _ Hz0 Hc1), <- Hlc.
  pose proof (content_shorten bs0 c1 t Hok1 ltac:(lia)) as Hco. rewrite <- Ebs in Hco at 1 2.
  eexists _, (bs0 ++ [set_io_len (io_len c1 - t) c1]). split_and!; [done| | |exact Hco].
  - apply outcome_set_again; [|done|rewrite El; set_solver|done].
    apply outcome_set; [done|done|set_solver|done].
  - assert (Hcl : clen (bs0 ++ [set_io_len (io_len c1 - t) c1]) = clen (bs0 ++ [c1]) - t).
    { rewrite !clen_app, !(clen_cons _ []) by (done || by apply buf_shorten; [|lia]). simpl. lia. }
    rewrite El. apply packet_iff. split.
    + eapply body_set_mid; try done; [by apply buf_shorten; [|lia]|].
      pose proof (bo_max _ _ _ Hbo1). lia.
    + rewrite Hcl, <- Ebs. change (clen (b' :: bs)) with (clen (b :: bs)).
      by destruct bs0; simplify_eq/=.
Qed.

Lemma content_take_snoc bs c t :
  buf_ok c → io_len c ≤ t →
  take (Z.to_nat (clen (bs ++ [c]) - t)) (content (bs ++ [c])) =
    take (Z.to_nat (clen bs - (t - io_len c))) (content bs).
Proof.
  intros Hok Ht. rewrite clen_app, (clen_cons c []) by done. change (clen []) with 0.
  unfold clen. rewrite content_app, take_app_le by lia. f_equal. lia.
Qed.

Lemma trimtail_all st F x b t :
  pool_ok st F → NoDup (F ++ [x]) → packet (iobs st) [x] [b] →
  ∃ st', iob_free (set_iobs st (<[x := set_io_len 0 (set_io_pktlen t b)]> (iobs st))) x = Some (NULL, st') ∧
    outcome st F [x] st' (x :: F) [].
Proof.
  intros Hp HNd Hpk. pose proof (packet_body _ _ _ Hpk) as Hbo.
  pose proof (body_first _ _ _ _ _ Hbo) as (Hx & Hb & _ & []).
  set (b' := set_io_len 0 (set_io_pktlen t b)).
  assert (Hoc : outcome st F [x] (set_iobs st (<[x := b']> (iobs st))) F [x])
    by (apply outcome_set; [done|done|set_solver|done]).
  assert (Hb' : buf_ok b') by (constructor; simpl; lia).
  destruct (free_single (set_iobs st (<[x := b']> (iobs st))) F x b') as (st' & -> & Hoc'); try done.
  - apply Hoc.
  - by eapply body_set.
  - exists st'. split; [done|]. by eapply outcome_trans.
Qed.

(** The search for the last buffer. *)

Lemma packet_last m x l b bs :
  body m (x :: l) (b :: bs) →
  ∃ l0 z bs0 c, x :: l = l0 ++ [z] ∧ b :: bs = bs0 ++ [c] ∧ last (x :: l) = Some z ∧
    iob_last (S (size m)) m x NULL NULL = Some (default NULL (last l0), z) ∧
    z ≠ NULL ∧ m !! z = Some c ∧ buf_ok c ∧ clen (b :: bs) = clen bs0 + io_len c ∧
    length l0 = length bs0.
Proof.
  intros Hbo.
  pose proof (last_spec (S (size m)) _ _ _ NULL NULL (bo_nodes _ _ _ Hbo) (bo_linked _ _ _ Hbo)) as Hlast.
  assert (∃ z, last (x :: l) = Some z) as [z Hz] by (by rewrite last_cons; destruct (last l); eexists).
  destruct (body_last _ _ _ _ Hbo Hz) as (l0 & bs0 & c & El & Ebs & Hlen).
  pose proof Hbo as Hbo'. rewrite El, Ebs in Hbo'.
  pose proof (body_mid _ _ _ _ _ _ _ Hlen Hbo') as (Hz0 & Hc & _ & Hcok & _ & _).
  exists l0, z, bs0, c. rewrite El in Hlast at 3. rewrite last2_snoc in Hlast.
  split_and!; try done.
  - apply Hlast. pose proof (body_length _ _ _ Hbo). lia.
  - rewrite Ebs, clen_app, (clen_cons c []) by done. change (clen []) with 0. lia.
Qed.

Definition trimmed_tail st F (l : list Z) bs (t : Z) (r : option (Z * iob_state)) : Prop :=
  ∃ st' F' l' bs', r = Some (first l' NULL, st') ∧ outcome st F l st' F' l' ∧
    (l' = [] ∧ bs' = [] ∨ packet (iobs st') l' bs') ∧
    content bs' = take (Z.to_nat (clen bs - t)) (content bs).

Lemma trimtail_loop_spec fuel st F x l b bs t :
  pool_ok st F → NoDup (F ++ x :: l) → packet (iobs st) (x :: l) (b :: bs) → 0 ≤ t →
  (S (length (x :: l)) < fuel)%nat →
  trimmed_tail st F (x :: l) (b :: bs) t (iob_trimtail_loop fuel st x t).
Proof.
  revert st l b bs t F. induction fuel as [|fuel IH]; intros st l b bs t F Hp HNd Hpk Ht Hf; [lia|].
  pose proof (packet_body _ _ _ Hpk) as Hbo. pose proof (bo_max _ _ _ Hbo).
  pose proof (body_first _ _ _ _ _ Hbo) as (Hx & Hb & _ & Hbok). pose proof (packet_pktlen _ _ _ _ Hpk) as Hpl.
  cbn [iob_trimtail_loop].
  destruct (Z.ltb_spec 0 t) as [Ht0|Ht0].
  2: { exists st, F, (x :: l), (b :: bs). split_and!; try done; [by right|]. symmetry. apply take_ge.
       unfold clen. lia. }
  destruct (packet_last _ _ _ _ _ Hbo) as (l0 & z & bs0 & c & El & Ebs & Hz & -> & Hz0 & Hc & Hcok & Hcl & Hlen).
  pose proof (ok_len _ Hcok). pose proof (clen_nonneg bs0). cbn [mbind option_bind].
  rewrite (deref_Some _ _ _ Hz0 Hc), (deref_Some _ _ _ Hx Hb). cbn [mbind option_bind].
  destruct (Z.leb_spec (io_len c) t) as [Hle|Hgt].
  - unfold u16. rewrite Hpl, Z.mod_small by lia. replace (clen (b :: bs) - io_len c) with (clen bs0) by lia.
    rewrite (update_Some _ _ _ _ Hx Hb). cbn [mbind option_bind]. destruct l0 as [|x0 l1], bs0 as [|b0 bs1]; simplify_eq/=.
    + rewrite update_again by done. cbn [mbind option_bind].
      destruct (trimtail_all st F z c (clen [])) as (st' & -> & Hoc); try done.
      exists st', (z :: F), [], []. split_and!; try done; [by left|].
      symmetry. etrans; [by apply (content_take_snoc [] c t)|]. apply take_nil.
    + assert (z ≠ x0) by (apply bo_nodup, NoDup_cons in Hbo as [Hxl _]; set_solver).
      rewrite (update_Some _ z c) by (by rewrite ?lookup_insert_ne). cbn [mbind option_bind].
      destruct (trimtail_drop st F x0 l1 z b0 bs1 c) as (st1 & y & n & bs' & -> & Hla & Hy & Hn & Hoc & Hpk' & Hco);
        try done.
      rewrite Hla. cbn [mbind option_bind from_option]. unfold id. rewrite (proj2 (Z.eqb_neq _ _) Hy), (update_Some _ _ _ _ Hy Hn).
      cbn [mbind option_bind]. destruct bs' as [|b2 bs2]; [by apply packet_ne in Hpk' as []|].
      destruct (IH _ _ _ _ (t - io_len c) _ (oc_pool _ _ _ _ _ _ Hoc) (outcome_nodup _ _ _ _ _ _ Hoc HNd) Hpk')
        as (st' & F' & l' & bs' & -> & Hoc' & Hpk2 & Hco2); [lia|simpl in *; rewrite length_app in Hf; simpl in Hf; lia|].
      exists st', F', l', bs'. split_and!; try done; [by eapply outcome_trans|].
      rewrite Hco2, app_comm_cons, content_take_snoc by done. unfold clen. by rewrite Hco.
  - unfold u16. rewrite Hpl, Z.mod_small, ulen_small by (destruct Hcok; lia).
    destruct (trimtail_cut st F x l b bs t z c) as (m & bs' & E & Hoc & Hpk' & Hco); try done.
    apply bind_Some in E as (m1 & -> & E). cbn [mbind option_bind]. rewrite E. cbn [mbind option_bind].
    destruct fuel; [simpl in *; lia|]. cbn [iob_trimtail_loop Z.ltb Z.compare].
    exists (set_iobs st m), F, (x :: l), bs'. split_and!; try done. by right.
Qed.

Lemma trimtail_spec st F x l b bs t :
  pool_ok st F → NoDup (F ++ x :: l) → packet (iobs st) (x :: l) (b :: bs) → 0 ≤ t < 2 ^ 31 →
  trimmed_tail st F (x :: l) (b :: bs) t (iob_trimtail st x t).
Proof.
  intros Hp HNd Hpk Ht. pose proof (packet_body _ _ _ Hpk) as Hbo.
  pose proof (body_first _ _ _ _ _ Hbo) as (Hx & _). pose proof (body_length _ _ _ Hbo).
  unfold iob_trimtail. rewrite (proj2 (Z.eqb_neq _ _) Hx).
  destruct (Z.ltb_spec 0 t) as [Ht0|Ht0]; cbn [andb negb].
  - replace (s32 t) with t by (unfold s32; dlia). apply trimtail_loop_spec; try done; lia.
  - exists st, F, (x :: l), (b :: bs). split_and!; try done; [by right|].
    symmetry. apply take_ge. unfold clen. lia.
Qed.
End Trim.
End IobTrim.
