(* ===== verification/IobCopy.v ===== *)
(** * I/O buffers: copying bytes out of and into packets

    [iob_copyout] reads a range of the bytes of a packet.  [iob_trycopyin]
    overwrites a range and lets the packet grow at its end, into the room of the
    last buffer first and into new buffers then. *)

From S2P Require Import Prelude.
From S2P Require Import Queue.
From S2P Require Import Iob.
From S2P Require Import IobSpec.

Module IobCopy.
Import Iob IobSpec.

Section Copy.
Context {cfg : IobConfig} {cfg_ok : IobConfigOk}.
Implicit Types (m : gmap Z iob_s) (st : iob_state) (b n : iob_s) (bs : list iob_s).

(** ** Copying out *)

Definition in_head (bs : list iob_s) (o : Z) : Prop :=
  0 ≤ o ∧ match bs with [] => True | b :: _ => o ≤ io_len b end.

Lemma in_head_0 m l bs : body m l bs → in_head bs 0.
Proof.
  intros [_ _ _ Hok _ _]. split; [done|]. destruct bs; [done|]. by apply Forall_cons in Hok as [[] _].
Qed.

Lemma copyout_skip_spec fuel m x l b bs o :
  body m (x :: l) (b :: bs) → 0 ≤ o < 2 ^ 32 → (length l < fuel)%nat →
  ∃ l2 bs2 o', iob_copyout_skip fuel m x o = Some (first l2 NULL, o') ∧ body m l2 bs2 ∧
    in_head bs2 o' ∧ (length l2 ≤ length (x :: l))%nat ∧
    drop (Z.to_nat o) (content (b :: bs)) = drop (Z.to_nat o') (content bs2).
Proof.
  revert x l b bs o. induction fuel as [|fuel IH]; intros x l b bs o Hbo Ho Hf; [lia|].
  pose proof (body_first _ _ _ _ _ Hbo) as (Hx & Hb & Hfl & Hok).
  pose proof (ok_len _ Hok). pose proof (body_tail _ _ _ _ _ Hbo) as Hbt.
  cbn [iob_copyout_skip]. rewrite (deref_Some _ _ _ Hx Hb). cbn [mbind option_bind].
  destruct (Z.leb_spec (io_len b) o) as [Hle|Hgt].
  - unfold u32. rewrite Z.mod_small by lia. rewrite Hfl, content_drop by done.
    destruct (body_shape _ _ _ _ _ Hbo) as [[-> ->]|(y & l2 & n & bs2 & -> & ->)].
    + simpl. exists [], [], (o - io_len b). split_and!; try done; [|simpl; lia]. split; [lia|done].
    + pose proof (body_first _ _ _ _ _ Hbt) as (Hy & _). simpl first. rewrite (proj2 (Z.eqb_neq _ _) Hy).
      destruct (IH y l2 n bs2 (o - io_len b)) as (l' & bs' & o' & E & Hb' & Ho' & Hl & Hco);
        [done|lia|simpl in Hf; lia|].
      exists l', bs', o'. split_and!; try done. simpl in *. lia.
  - exists (x :: l), (b :: bs), o. split_and!; try done. split; lia.
Qed.

Lemma take_drop_content b bs o (r : nat) :
  buf_ok b → 0 ≤ o ≤ io_len b →
  take r (drop (Z.to_nat o) (content (b :: bs))) =
    take r (drop (Z.to_nat o) (payload b)) ++ take (r - Z.to_nat (io_len b - o)) (content bs).
Proof.
  intros Hok Ho. pose proof (length_payload b Hok).
  rewrite content_cons, drop_app_le, take_app by lia. f_equal.
  rewrite length_drop. f_equal. lia.
Qed.

Lemma copyout_loop_spec fuel m dest pos l bs rem o :
  body m l bs → in_head bs o → 0 ≤ rem < 2 ^ 32 → 0 ≤ pos → (length l < fuel)%nat →
  pos + Z.of_nat (length (take (Z.to_nat rem) (drop (Z.to_nat o) (content bs)))) ≤
    Z.of_nat (length dest) →
  iob_copyout_loop fuel m dest pos (first l NULL) rem o =
    Some (rem - Z.of_nat (length (take (Z.to_nat rem) (drop (Z.to_nat o) (content bs)))),
          list_inserts (Z.to_nat pos) (take (Z.to_nat rem) (drop (Z.to_nat o) (content bs))) dest).
Proof.
  revert dest pos l bs rem o.
  induction fuel as [|fuel IH]; intros dest pos l bs rem o Hbo [Ho Hh] Hr Hp Hf Hd; [lia|].
  cbn [iob_copyout_loop]. destruct l as [|x l].
  { pose proof (bo_nodes _ _ _ Hbo) as Hn. inversion Hn; subst. simpl first.
    change (content []) with (@nil Z). rewrite drop_nil, take_nil. simpl. by rewrite Z.sub_0_r. }
  destruct bs as [|b bs]; [pose proof (bo_nodes _ _ _ Hbo) as Hn; inversion Hn|].
  pose proof (body_first _ _ _ _ _ Hbo) as (Hx & Hb & Hfl & Hok).
  simpl first. rewrite (proj2 (Z.eqb_neq _ _) Hx). cbn [negb andb].
  destruct (Z.ltb_spec 0 rem) as [Hr0|Hr0]; cbn [andb].
  2: { replace rem with 0 by lia. simpl. done. }
  rewrite (deref_Some _ _ _ Hx Hb). cbn [mbind option_bind].
  pose proof Hok as [Hl0 Ho0 Hfit Hdat]. pose proof bufsize_ok. unfold u32. rewrite (Z.mod_small (_ - o)) by lia.
  set (nc := if _ <? _ then _ else _). assert (Hnc : nc = Z.min (io_len b - o) rem).
  { unfold nc. case_if; lia. }
  rewrite mem_read_Some by lia. cbn [mbind option_bind].
  assert (Hrd : take (Z.to_nat nc) (drop (Z.to_nat (io_offset b + o)) (io_data b)) =
    take (Z.to_nat rem) (drop (Z.to_nat o) (payload b))).
  { unfold payload. rewrite skipn_firstn_comm, drop_drop, take_take. f_equal; [lia|]. f_equal. lia. }
  rewrite Hrd. rewrite take_drop_content in * by (done || lia).
  set (d1 := take (Z.to_nat rem) (drop (Z.to_nat o) (payload b))) in *.
  assert (Hd1 : Z.of_nat (length d1) = nc).
  { unfold d1. rewrite length_take, length_drop. pose proof (length_payload b Hok). lia. }
  rewrite length_app in *.
  replace (Z.to_nat rem - Z.to_nat (io_len b - o))%nat with (Z.to_nat (rem - nc)) in * by lia.
  rewrite mem_write_Some by lia. cbn [mbind option_bind]. rewrite Z.mod_small, Hfl by lia.
  pose proof (body_tail _ _ _ _ _ Hbo) as Hbt.
  rewrite (IH _ _ l bs (rem - nc) 0); [|done|by eapply in_head_0|lia|lia|simpl in Hf; lia|].
  - rewrite drop_0. f_equal. f_equal; [lia|].
    rewrite <- inserts_app. f_equal. lia.
  - rewrite length_inserts, drop_0. lia.
Qed.

Lemma copyout_spec st dest x l b bs len o :
  let out := take (Z.to_nat len) (drop (Z.to_nat o) (content (b :: bs))) in
  body (iobs st) (x :: l) (b :: bs) → 0 ≤ len < 2 ^ 32 → 0 ≤ o < 2 ^ 32 →
  (length out ≤ length dest)%nat →
  iob_copyout st dest x len o =
    Some (Z.of_nat (length out), out ++ drop (length out) dest).
Proof.
  intros out Hbo Hlen Ho Hd. pose proof (body_length _ _ _ Hbo) as Hsz. unfold iob_copyout.
  destruct (copyout_skip_spec (S (size (iobs st))) (iobs st) x l b bs o)
    as (l2 & bs2 & o' & -> & Hb2 & Ho' & Hl2 & Hco); [done|done|simpl in *; lia|].
  cbn [mbind option_bind]. unfold out in *. rewrite Hco in *.
  destruct l2 as [|y l2].
  - pose proof (bo_nodes _ _ _ Hb2) as Hn. inversion Hn; subst. simpl first. rewrite Z.eqb_refl.
    change (content []) with (@nil Z). by rewrite drop_nil, take_nil.
  - destruct bs2 as [|b2 bs2]; [pose proof (bo_nodes _ _ _ Hb2) as Hn; inversion Hn|].
    pose proof (body_first _ _ _ _ _ Hb2) as (Hy & _). simpl first. rewrite (proj2 (Z.eqb_neq _ _) Hy).
    change y with (first (y :: l2) NULL). rewrite copyout_loop_spec with (bs := b2 :: bs2); try done; [|lia|lia].
    cbn [mbind option_bind]. rewrite inserts_split by lia. simpl.
    unfold u32. rewrite Z.mod_small; [do 2 f_equal; lia|]. rewrite length_take. lia.
Qed.

(** ** Copying in *)

(** [k] bytes of [s] in the place of those of [c] from [p] on. *)

Definition spliced (c : list Z) (p : nat) (s : list Z) (k : nat) : list Z :=
  take p c ++ take k s ++ drop (p + k) c.

Lemma spliced_0 c p s : spliced c p s 0 = c.
Proof. unfold spliced. rewrite take_0, Nat.add_0_r. apply take_drop. Qed.

Lemma spliced_app c p s k1 k2 :
  (p ≤ length c)%nat → (k1 ≤ length s)%nat →
  spliced (spliced c p s k1) (p + k1) (drop k1 s) k2 = spliced c p s (k1 + k2).
Proof.
  intros Hp Hk. unfold spliced.
  assert (Hl : length (take p c ++ take k1 s) = (p + k1)%nat) by (rewrite length_app, !length_take; lia).
  rewrite (app_assoc (take p c)), take_app_length' by done.
  rewrite drop_app_add' by done. rewrite drop_drop, <- (take_take_drop s k1 k2), <- !app_assoc.
  by rewrite (Nat.add_assoc p).
Qed.

(** Bytes written into one buffer, which may grow. *)

Definition buf_put (n : iob_s) (o : Z) (d : list Z) : iob_s :=
  set_io_data (list_inserts (Z.to_nat (io_offset n + o)) d (io_data n))
    (set_io_len (Z.max (io_len n) (o + Z.of_nat (length d))) n).

Lemma buf_put_ok n o d :
  buf_ok n → 0 ≤ o ≤ io_len n → io_offset n + o + Z.of_nat (length d) ≤ CONFIG_IOB_BUFSIZE →
  buf_ok (buf_put n o d).
Proof. intros [] Ho Hd. constructor; simpl; rewrite ?length_inserts; lia. Qed.

Lemma payload_put n o d :
  buf_ok n → 0 ≤ o ≤ io_len n → io_offset n + o + Z.of_nat (length d) ≤ CONFIG_IOB_BUFSIZE →
  payload (buf_put n o d) = spliced (payload n) (Z.to_nat o) d (length d).
Proof.
  intros [] Ho Hd. unfold payload, spliced. simpl. rewrite inserts_split by lia.
  rewrite drop_app_le by (rewrite length_take; lia). rewrite skipn_firstn_comm.
  rewrite take_app_ge by (rewrite length_take, length_drop; lia).
  rewrite take_app_ge by (rewrite length_take, length_drop; lia).
  rewrite !length_take, length_drop, take_take, (take_ge d) by lia.
  rewrite skipn_firstn_comm, drop_drop.
  f_equal; [f_equal; lia|]. f_equal. f_equal; [lia|]. f_equal. lia.
Qed.

(** The room for bytes in a buffer from [o] on: only the last one can grow. *)

Definition room (l2 : list Z) (n : iob_s) (o : Z) : Z :=
  match l2 with [] => CONFIG_IOB_BUFSIZE - io_offset n | _ :: _ => io_len n end - o.

Lemma insert_pktlen m x h : m !! x = Some h → <[x := set_io_pktlen (io_pktlen h) h]> m = m.
Proof. intros Hh. destruct h. by apply insert_id. Qed.

Lemma extend_eval m x h y n n1 len o P :
  x ≠ NULL → y ≠ NULL → m !! x = Some h → m !! y = Some n → buf_ok n → 0 ≤ o ≤ io_len n →
  0 < len < 2 ^ 31 → P = io_pktlen h + (o + Z.min len (room [] n o) - io_len n) → 0 ≤ P < 2 ^ 16 →
  <[x := set_io_pktlen P h]> m !! y = Some n1 →
  iob_copyin_extend m x y len o =
    Some (Z.min len (room [] n o),
          <[y := set_io_len (o + Z.min len (room [] n o)) n1]> (<[x := set_io_pktlen P h]> m)).
Proof.
  intros Hx Hy Hh Hn [] Ho Hlen HP HP' Hn1. pose proof bufsize_ok. unfold room in *. unfold iob_copyin_extend.
  rewrite (deref_Some _ _ _ Hy Hn), (deref_Some _ _ _ Hx Hh). cbn [mbind option_bind].
  rewrite (update_Some _ _ _ _ Hx Hh). cbn [mbind option_bind]. unfold u32. rewrite !(Z.mod_small (_ - io_offset n)), !(Z.mod_small (len + o)) by lia.
  set (nl := if _ <? _ then _ else _).
  assert (Hnl : nl = o + Z.min len (CONFIG_IOB_BUFSIZE - io_offset n - o)) by (unfold nl; case_if; lia).
  unfold u16. rewrite Hnl, <- HP, !Z.mod_small, (update_Some _ _ _ _ Hy Hn1), ulen_small by lia.
  cbn [mbind option_bind]. do 2 f_equal. lia.
Qed.

Lemma head_set m x h y n n1 P :
  m !! x = Some h → m !! y = Some n → <[x := set_io_pktlen P h]> m !! y = Some n1 →
  n1 = set_io_pktlen (io_pktlen n1) n.
Proof.
  intros Hh Hn Hn1.
  destruct (decide (y = x)) as [->|]; [rewrite lookup_insert_eq in Hn1|rewrite lookup_insert_ne in Hn1 by done];
    simplify_eq; [done|]. by destruct n.
Qed.

Lemma ncopy_eval m x h y n n1 l2 len o P :
  x ≠ NULL → y ≠ NULL → m !! x = Some h → m !! y = Some n → buf_ok n → 0 ≤ o ≤ io_len n →
  io_flink n = first l2 NULL → first l2 1 ≠ NULL → 0 < len < 2 ^ 31 →
  P = io_pktlen h + (Z.max (io_len n) (o + Z.min len (room l2 n o)) - io_len n) → 0 ≤ P < 2 ^ 16 →
  <[x := set_io_pktlen P h]> m !! y = Some n1 →
  iob_copyin_ncopy m x y len o =
    Some (Z.min len (room l2 n o),
      <[y := set_io_len (Z.max (io_len n) (o + Z.min len (room l2 n o))) n1]> (<[x := set_io_pktlen P h]> m)).
Proof.
  intros Hx Hy Hh Hn Hok Ho Hf Hf1 Hlen HP HP' Hn1. pose proof Hok as []. pose proof bufsize_ok.
  pose proof (head_set _ _ _ _ _ _ _ Hh Hn Hn1) as En1.
  unfold iob_copyin_ncopy. rewrite (deref_Some _ _ _ Hy Hn). cbn [mbind option_bind].
  unfold u32. rewrite Z.mod_small, Hf by lia.
  assert (Hid : Z.min len (room l2 n o) ≤ io_len n - o →
    <[y := set_io_len (Z.max (io_len n) (o + Z.min len (room l2 n o))) n1]> (<[x := set_io_pktlen P h]> m) = m).
  { intros Hle. replace (Z.max _ _) with (io_len n1) by (rewrite En1; simpl; lia).
    replace (set_io_len (io_len n1) n1) with n1 by (by destruct n1).
    rewrite insert_id by done. replace P with (io_pktlen h) by lia. by apply insert_pktlen. }
  destruct (Z.ltb_spec (io_len n - o) len) as [Hlt|Hge].
  - destruct l2 as [|z l2]; simpl first in *.
    + rewrite Z.eqb_refl, (extend_eval m x h y n n1 len o P) by (done || unfold room in *; lia).
      do 4 f_equal. unfold room. lia.
    + rewrite (proj2 (Z.eqb_neq _ _) Hf1), Hid by (unfold room; lia). do 2 f_equal. unfold room. lia.
  - assert (len ≤ room l2 n o) by (unfold room; destruct l2; lia). rewrite Hid by lia. do 2 f_equal. lia.
Qed.

Lemma round_eval m x h y n n1 l2 s len o P :
  x ≠ NULL → y ≠ NULL → m !! x = Some h → m !! y = Some n → buf_ok n → 0 ≤ o ≤ io_len n →
  io_flink n = first l2 NULL → first l2 1 ≠ NULL →
  len = Z.of_nat (length s) → 0 < len < 2 ^ 31 →
  P = io_pktlen h + (Z.max (io_len n) (o + Z.min len (room l2 n o)) - io_len n) → 0 ≤ P < 2 ^ 16 →
  <[x := set_io_pktlen P h]> m !! y = Some n1 →
  iob_copyin_round m x y s len o =
    Some (Z.min len (room l2 n o),
          <[y := buf_put n1 o (take (Z.to_nat (Z.min len (room l2 n o))) s)]>
            (<[x := set_io_pktlen P h]> m)).
Proof.
  intros Hx Hy Hh Hn Hok Ho Hf Hf1 Hs Hlen HP HP' Hn1. pose proof Hok as [].
  pose proof (head_set _ _ _ _ _ _ _ Hh Hn Hn1) as En1.
  assert (0 ≤ room l2 n o ≤ CONFIG_IOB_BUFSIZE - io_offset n - o) by (unfold room; destruct l2; lia).
  unfold iob_copyin_round. erewrite ncopy_eval by done. cbn [mbind option_bind].
  rewrite (deref_Some _ y _ Hy (lookup_insert_eq _ _ _)).
  cbn [mbind option_bind]. rewrite mem_read_Some, drop_0 by lia. cbn [mbind option_bind].
  rewrite En1. simpl. set (k := Z.min len _) in *.
  assert (Hk : Z.of_nat (length (take (Z.to_nat k) s)) = k) by (rewrite length_take; lia).
  rewrite mem_write_Some by lia. cbn [mbind option_bind]. rewrite update_again by done.
  cbn [mbind option_bind]. unfold buf_put. by rewrite Hk.
Qed.

(** A new packet length in the first buffer of a chain that is split at [n]. *)

Lemma head_split x l h bs lp y l2 bp n bs2 P m :
  body m (x :: l) (h :: bs) → x :: l = lp ++ y :: l2 → h :: bs = bp ++ n :: bs2 →
  length lp = length bp → P < 2 ^ 16 →
  ∃ bp1 n1, body (<[x := set_io_pktlen P h]> m) (lp ++ y :: l2) (bp1 ++ n1 :: bs2) ∧
    set_io_pktlen P h :: bs = bp1 ++ n1 :: bs2 ∧ length bp1 = length bp ∧ content bp1 = content bp ∧
    n1 = set_io_pktlen (io_pktlen n1) n.
Proof.
  intros Hbo El Ebs Hlen HP. pose proof (body_first _ _ _ _ _ Hbo) as (_ & _ & _ & []).
  assert (Hbo1 : body (<[x := set_io_pktlen P h]> m) (x :: l) (set_io_pktlen P h :: bs)).
  { eapply body_set; try done. apply (bo_max _ _ _ Hbo). }
  rewrite El in Hbo1. destruct bp as [|h0 bp]; simplify_eq/=.
  - by exists [], (set_io_pktlen P n).
  - exists (set_io_pktlen P h0 :: bp), n. split_and!; try done. by destruct n.
Qed.

Lemma grown_max m lp y l2 bp n bs2 len o :
  length lp = length bp → body m (lp ++ y :: l2) (bp ++ n :: bs2) → 0 ≤ o ≤ io_len n →
  clen bp + o + len < 2 ^ 16 →
  clen bp + Z.max (io_len n) (o + Z.min len (room l2 n o)) + clen bs2 < 2 ^ 16.
Proof.
  intros Hlen Hbo Ho Hmax. pose proof (body_mid _ _ _ _ _ _ _ Hlen Hbo) as (_ & _ & _ & Hok & _ & _).
  pose proof (bo_max _ _ _ Hbo) as Hmax0. rewrite clen_app, clen_cons in Hmax0 by done.
  pose proof (Forall2_length _ _ _ (bo_nodes _ _ _ Hbo)) as Hlen2. rewrite !length_app in Hlen2.
  unfold room. destruct l2, bs2; simpl in Hlen2; try lia. change (clen []) with 0 in *. lia.
Qed.

Lemma copyin_round_spec st F lp y l2 bp n bs2 s len o :
  pool_ok st F → NoDup (F ++ lp ++ y :: l2) → packet (iobs st) (lp ++ y :: l2) (bp ++ n :: bs2) →
  length lp = length bp → 0 ≤ o ≤ io_len n →
  len = Z.of_nat (length s) → 0 < len < 2 ^ 31 → clen bp + o + len < 2 ^ 16 →
  ∃ m' bp' n',
    iob_copyin_round (iobs st) (first (lp ++ y :: l2) NULL) y s len o =
      Some (Z.min len (room l2 n o), m') ∧
    outcome st F (lp ++ y :: l2) (set_iobs st m') F (lp ++ y :: l2) ∧
    packet m' (lp ++ y :: l2) (bp' ++ n' :: bs2) ∧ length bp' = length bp ∧ content bp' = content bp ∧
    payload n' = spliced (payload n) (Z.to_nat o) s (Z.to_nat (Z.min len (room l2 n o))) ∧
    io_len n' = Z.max (io_len n) (o + Z.min len (room l2 n o)).
Proof.
  destruct (lp ++ y :: l2) as [|x l] eqn:El; [by destruct lp|].
  destruct (bp ++ n :: bs2) as [|h bs] eqn:Ebs; [by destruct bp|]. symmetry in El, Ebs.
  intros Hp HNd Hpk Hlen Ho Hs Hl Hmax. simpl first. set (k := Z.min len (room l2 n o)).
  pose proof (packet_body _ _ _ Hpk) as Hbo. pose proof (body_first _ _ _ _ _ Hbo) as (Hx & Hh & _ & _).
  pose proof Hbo as Hbo0. rewrite El, Ebs in Hbo0.
  pose proof (body_mid _ _ _ _ _ _ _ Hlen Hbo0) as (Hy & Hn & Hf & Hok & _ & _). pose proof Hok as [].
  assert (Hk : 0 ≤ k ∧ io_offset n + o + k ≤ CONFIG_IOB_BUFSIZE) by (unfold k, room; destruct l2; lia).
  set (P := clen bp + Z.max (io_len n) (o + k) + clen bs2).
  assert (HP : P < 2 ^ 16) by (by eapply grown_max).
  destruct (head_split x l h bs lp y l2 bp n bs2 P (iobs st))
    as (bp1 & n1 & Hbo1 & Eb1 & Hlen1 & Hco1 & En1); try done.
  pose proof (body_mid _ _ _ _ _ _ _ (eq_trans Hlen (eq_sym Hlen1)) Hbo1) as (_ & Hn1 & Hf1 & Hok1 & _ & _).
  assert (Htk : Z.of_nat (length (take (Z.to_nat k) s)) = k) by (rewrite length_take; lia).
  assert (Hpl : io_pktlen h = clen bp + io_len n + clen bs2).
  { rewrite (packet_pktlen _ _ _ _ Hpk), Ebs, clen_app, clen_cons by done. lia. }
  assert (Hput : buf_ok (buf_put n1 o (take (Z.to_nat k) s))).
  { apply buf_put_ok; [done|rewrite En1; simpl; lia..]. }
  exists (<[y := buf_put n1 o (take (Z.to_nat k) s)]> (<[x := set_io_pktlen P h]> (iobs st))),
    bp1, (buf_put n1 o (take (Z.to_nat k) s)).
  assert (Hcl : clen (bp1 ++ buf_put n1 o (take (Z.to_nat k) s) :: bs2) = P).
  { rewrite clen_app, clen_cons by done. simpl. rewrite Htk, En1. simpl.
    unfold P, clen. rewrite Hco1. lia. }
  split_and!; try done.
  - eapply (round_eval (iobs st) x h y n n1 l2 s len o P); try done.
    + apply bo_linked, linked_app in Hbo0 as (_ & _ & _ & Hlk); [|done].
      destruct l2, bs2; try done. by destruct Hlk.
    + unfold P, k in *. lia.
    + pose proof (clen_nonneg bp). pose proof (clen_nonneg bs2). lia.
  - apply outcome_set_again; [|done|rewrite El; set_solver|done].
    apply outcome_set; [done|done|set_solver|done].
  - rewrite El. apply packet_iff. split.
    + eapply body_set_mid; try done; lia.
    + rewrite Hcl. destruct bp1; simplify_eq/=; done.
  - rewrite payload_put by (try rewrite En1; simpl; done || lia).
    rewrite En1. unfold spliced. replace (length (take _ s)) with (Z.to_nat k) by lia.
    by rewrite take_take, Nat.min_id.
  - simpl. rewrite Htk, En1. done.
Qed.

Lemma content_splice bp bp' n n' bs2 o s (k : nat) :
  buf_ok n → 0 ≤ o ≤ io_len n → content bp' = content bp →
  payload n' = spliced (payload n) (Z.to_nat o) s k →
  (o + Z.of_nat k ≤ io_len n ∨ bs2 = []) →
  content (bp' ++ n' :: bs2) = spliced (content (bp ++ n :: bs2)) (Z.to_nat (clen bp + o)) s k.
Proof.
  intros Hok Ho Hbp Hn' Hk. pose proof (length_payload n Hok). pose proof (clen_nonneg bp).
  rewrite !content_app, !content_cons, Hbp, Hn'. unfold spliced.
  replace (Z.to_nat (clen bp + o)) with (length (content bp) + Z.to_nat o)%nat by (unfold clen; lia).
  rewrite take_app_add, <- Nat.add_assoc, drop_app_add. rewrite take_app_le by lia.
  rewrite <- !app_assoc. do 3 f_equal. destruct Hk as [Hk| ->].
  - by rewrite drop_app_le by lia.
  - change (content []) with (@nil Z). by rewrite !app_nil_r.
Qed.

Definition copied st F (l : list Z) bs (p : Z) (s : list Z) (throttled : bool) (ok : Z)
    (r : option (Z * iob_state)) : Prop :=
  ∃ ret st' F' l' bs' k, r = Some (ret, st') ∧ outcome st F l st' F' (l ++ l') ∧
    packet (iobs st') (l ++ l') bs' ∧ content bs' = spliced (content bs) (Z.to_nat p) s k ∧
    (ret = ok ∧ k = length s ∨ ret = - ENOMEM ∧ (k < length s)%nat ∧ refused F' throttled).

Lemma copied_step st F l bs st1 F1 l1 bs1 p s k throttled ok r :
  outcome st F l st1 F1 (l ++ l1) → content bs1 = spliced (content bs) (Z.to_nat p) s k →
  0 ≤ p ≤ clen bs → (k ≤ length s)%nat →
  copied st1 F1 (l ++ l1) bs1 (p + Z.of_nat k) (drop k s) throttled ok r →
  copied st F l bs p s throttled ok r.
Proof.
  intros Hoc Hco Hp Hk (ret & st' & F' & l' & bs' & k2 & -> & Hoc' & Hpk & Hco' & Hr).
  unfold clen in Hp. exists ret, st', F', (l1 ++ l'), bs', (k + k2)%nat. rewrite app_assoc.
  split_and!; [done|by eapply outcome_trans|done| |].
  - rewrite Hco', Hco, Z2Nat.inj_add, Nat2Z.id by lia. by rewrite spliced_app by lia.
  - rewrite length_drop in Hr. destruct Hr as [[-> ?]|(-> & ? & ?)]; [left|right]; split_and!; try done; lia.
Qed.

(** The chain gets a buffer. *)

Lemma copyin_grow st F lp y bp n throttled :
  pool_ok st F → NoDup (F ++ lp ++ [y]) → packet (iobs st) (lp ++ [y]) (bp ++ [n]) →
  length lp = length bp → ¬ refused F throttled →
  ∃ z F' c st1, iob_tryalloc st throttled = Some (z, st1) ∧ z ≠ NULL ∧ F = z :: F' ∧
    update (iobs st1) y (set_io_flink z) = Some (<[y := set_io_flink z n]> (iobs st1)) ∧
    outcome st F (lp ++ [y]) (set_iobs st1 (<[y := set_io_flink z n]> (iobs st1))) F' ((lp ++ [y]) ++ [z]) ∧
    packet (<[y := set_io_flink z n]> (iobs st1)) ((lp ++ [y]) ++ [z])
      ((bp ++ [set_io_flink z n]) ++ [iob_reset c]).
Proof.
  intros Hp HNd Hpk Hlen Hr.
  pose proof (body_mid _ _ _ _ _ _ _ Hlen (packet_body _ _ _ Hpk)) as (Hy & Hn & _).
  destruct (tryalloc_granted st F throttled Hp Hr) as (z & F' & c & st1 & -> & E & Hz & Hp1 & Hc & Hm1 & Hd).
  pose proof HNd as (_ & Hdis & _)%NoDup_app. assert (Hzl : z ∉ lp ++ [y]) by (apply Hdis; by left).
  assert (Hn1 : iobs st1 !! y = Some n) by (rewrite Hm1, lookup_insert_ne by set_solver; done).
  exists z, F', c, st1. split_and!; [done|done|done|by apply update_Some|constructor|].
  - apply pool_set; [done| |done]. intros Hy'. apply (Hdis y); [by right|set_solver].
  - rewrite app_assoc, <- Permutation_cons_append. done.
  - intros w Hw. simpl. rewrite lookup_insert_ne, Hm1, lookup_insert_ne by set_solver. done.
  - rewrite Hm1. by apply packet_extend.
Qed.

(** The copy is at offset [o] of the buffer [n] at [y], which is byte [p] of the
    packet, and [s] is what is left. *)

Record copy_at st (F lp : list Z) (y : Z) (l2 : list Z) (bp : list iob_s) (n : iob_s)
    (bs2 : list iob_s) (s : list Z) (o p : Z) : Prop := {
  ca_pool : pool_ok st F;
  ca_nodup : NoDup (F ++ lp ++ y :: l2);
  ca_packet : packet (iobs st) (lp ++ y :: l2) (bp ++ n :: bs2);
  ca_split : length lp = length bp;
  ca_offset : 0 ≤ o ≤ io_len n;
  ca_pos : p = clen bp + o;
  ca_max : p + Z.of_nat (length s) < 2 ^ 16
}.

Lemma copy_at_mid st F lp y l2 bp n bs2 s o p :
  copy_at st F lp y l2 bp n bs2 s o p →
  y ≠ NULL ∧ iobs st !! y = Some n ∧ io_flink n = first l2 NULL ∧ buf_ok n ∧
  length l2 = length bs2 ∧ 0 ≤ p ≤ clen (bp ++ n :: bs2).
Proof.
  intros [_ _ Hpk Hlen Ho Hpos _]. pose proof (packet_body _ _ _ Hpk) as Hbo.
  pose proof (body_mid _ _ _ _ _ _ _ Hlen Hbo) as (? & ? & ? & Hok & _ & _). split_and!; try done.
  - pose proof (Forall2_length _ _ _ (bo_nodes _ _ _ Hbo)) as Hl2. rewrite !length_app in Hl2.
    simpl in Hl2. lia.
  - pose proof (clen_nonneg bp). lia.
  - rewrite clen_app, clen_cons by done. pose proof (clen_nonneg bs2). lia.
Qed.

Lemma copyin_round_bytes st F lp y l2 bp n bs2 s o p :
  copy_at st F lp y l2 bp n bs2 s o p → s ≠ [] →
  ∃ m' bp' n' k,
    iob_copyin_round (iobs st) (first (lp ++ y :: l2) NULL) y s (Z.of_nat (length s)) o =
      Some (Z.of_nat k, m') ∧
    outcome st F (lp ++ y :: l2) (set_iobs st m') F (lp ++ y :: l2) ∧
    packet m' (lp ++ y :: l2) (bp' ++ n' :: bs2) ∧ length lp = length bp' ∧ (k ≤ length s)%nat ∧
    content (bp' ++ n' :: bs2) = spliced (content (bp ++ n :: bs2)) (Z.to_nat p) s k ∧
    (k ≠ length s → clen (bp' ++ [n']) = p + Z.of_nat k).
Proof.
  intros Hca Hs. pose proof (copy_at_mid _ _ _ _ _ _ _ _ _ _ _ Hca) as (_ & _ & _ & Hok & Hl2 & Hp).
  destruct Hca as [Hpo HNd Hpk Hlen Ho Hpos Hmax]. pose proof Hok as [].
  assert (0 < Z.of_nat (length s)) by (destruct s; simpl; [done|lia]).
  destruct (copyin_round_spec st F lp y l2 bp n bs2 s (Z.of_nat (length s)) o)
    as (m' & bp' & n' & E & Hoc & Hpk' & Hlen' & Hbp' & Hn' & Hln'); try done; [lia|lia|].
  assert (Hr : 0 ≤ room l2 n o) by (unfold room; destruct l2; lia).
  exists m', bp', n', (Z.to_nat (Z.min (Z.of_nat (length s)) (room l2 n o))). rewrite Z2Nat.id by lia.
  split_and!; try done; try lia.
  - rewrite Hpos. apply content_splice; try done. rewrite Z2Nat.id by lia. unfold room in *.
    destruct l2; [right; by destruct bs2|left; lia].
  - intros Hk. pose proof (body_mid _ _ _ _ _ _ _ (eq_trans Hlen (eq_sym Hlen')) (packet_body _ _ _ Hpk'))
      as (_ & _ & _ & Hok' & _ & _).
    rewrite clen_app, (clen_cons n' []), Hln' by done. change (clen []) with 0. unfold clen at 1.
    rewrite Hbp'. fold (clen bp). unfold room in *. destruct l2; lia.
Qed.

(** On to the next buffer of the chain, or to a new one. *)

Lemma copy_at_next st F lp y z l3 bp n n3 bs3 s p :
  pool_ok st F → NoDup (F ++ lp ++ y :: z :: l3) →
  packet (iobs st) (lp ++ y :: z :: l3) (bp ++ n :: n3 :: bs3) →
  length lp = length bp → p = clen (bp ++ [n]) → p + Z.of_nat (length s) < 2 ^ 16 →
  copy_at st F (lp ++ [y]) z l3 (bp ++ [n]) n3 bs3 s 0 p.
Proof.
  intros Hp HNd Hpk Hlen Hpos Hmax. pose proof (pk_ok _ _ _ Hpk) as [_ [_ [Hn3 _]%Forall_cons]%Forall_cons]%Forall_app.
  rewrite (cons_middle y lp), (cons_middle n bp), !app_assoc in Hpk. rewrite (cons_middle y lp), (app_assoc lp) in HNd.
  constructor; try done; try lia.
  - rewrite !length_app. simpl. lia.
  - by destruct Hn3.
Qed.

Lemma copyin_loop_spec fuel st F lp y l2 bp n bs2 s o p throttled :
  copy_at st F lp y l2 bp n bs2 s o p → (S (length l2 + length F) < fuel)%nat →
  copied st F (lp ++ y :: l2) (bp ++ n :: bs2) p s throttled OK
    (iob_copyin_loop fuel st (λ st, iob_tryalloc st throttled) (first (lp ++ y :: l2) NULL) y s (Z.of_nat (length s)) o).
Proof.
  revert st F lp y l2 bp n bs2 s o p.
  induction fuel as [|fuel IH]; intros st F lp y l2 bp n bs2 s o p Hca Hf; [lia|].
  pose proof (copy_at_mid _ _ _ _ _ _ _ _ _ _ _ Hca) as (Hy & Hn & Hfl & Hok & Hl2 & Hp).
  cbn [iob_copyin_loop]. destruct (decide (s = [])) as [->|Hs].
  { exists OK, st, F, [], (bp ++ n :: bs2), 0%nat. rewrite app_nil_r, spliced_0.
    split_and!; try done; [by constructor; [apply Hca|..]|apply Hca|by left]. }
  rewrite (proj2 (Z.ltb_lt _ _)) by (destruct s; simpl; [done|lia]).
  rewrite (deref_Some _ _ _ Hy Hn). cbn [mbind option_bind].
  destruct (copyin_round_bytes st F lp y l2 bp n bs2 s o p)
    as (m' & bp' & n' & k & -> & Hoc & Hpk' & Hlen' & Hk & Hco & Hnext); try done.
  pose proof Hca as [_ HNd _ _ _ _ Hmax]. cbn [mbind option_bind]. unfold u32.
  rewrite Z.mod_small, Hfl, Nat2Z.id, <- Nat2Z.inj_sub, <- length_drop by lia.
  destruct (decide (k = length s)) as [->|Hks].
  { rewrite drop_all. cbn [length Z.of_nat Z.ltb Z.compare andb]. destruct fuel; [lia|].
    exists OK, (set_iobs st m'), F, [], (bp' ++ n' :: bs2), (length s). rewrite app_nil_r.
    split_and!; try done. by left. }
  rewrite (proj2 (Z.ltb_lt _ _)) by (rewrite length_drop; lia). cbn [andb]. specialize (Hnext Hks).
  assert (Hmax' : p + Z.of_nat k + Z.of_nat (length (drop k s)) < 2 ^ 16) by (rewrite length_drop; lia).
  destruct l2 as [|z l3], bs2 as [|n3 bs3]; try done; simpl first.
  - rewrite Z.eqb_refl. destruct (decide (refused F throttled)) as [Hr|Hr].
    + rewrite (tryalloc_refused _ F) by (apply Hoc || done). cbn [mbind option_bind]. rewrite Z.eqb_refl.
      exists (- ENOMEM), (set_iobs st m'), F, [], (bp' ++ [n']), k. rewrite app_nil_r.
      split_and!; try done. right. split_and!; [done|lia|done].
    + destruct (copyin_grow (set_iobs st m') F lp y bp' n' throttled)
        as (z & F' & c & st1 & -> & Hz & -> & Hup & Hoc2 & Hpk2); [apply Hoc|done|done|lia|done|].
      cbn [mbind option_bind]. rewrite (proj2 (Z.eqb_neq _ _) Hz), Hup. cbn [mbind option_bind].
      pose proof (outcome_trans _ _ _ _ _ _ _ _ _ Hoc Hoc2) as Hoc3.
      eapply (copied_step _ _ _ _ _ _ [z] ((bp' ++ [set_io_flink z n']) ++ [iob_reset c]) _ _ k);
        [done|by rewrite content_extend|done|lia|].
      replace (first (lp ++ [y]) NULL) with (first ((lp ++ [y]) ++ [z]) NULL) by (by destruct lp).
      apply (IH _ _ (lp ++ [y]) z [] (bp' ++ [set_io_flink z n']) (iob_reset c) []); [|simpl in *; lia].
      rewrite <- !app_assoc in Hpk2. apply copy_at_next; try done; [apply Hoc3| |].
      * pose proof (outcome_nodup _ _ _ _ _ _ Hoc3 HNd) as HN. by rewrite <- (app_assoc lp) in HN.
      * rewrite <- Hnext, !clen_app. done.
  - assert (Hz : z ≠ NULL) by (by pose proof (pk_linked _ _ _ Hpk') as (_ & _ & _ & ? & _)%linked_app).
    rewrite (proj2 (Z.eqb_neq _ _) Hz).
    eapply (copied_step _ _ _ _ _ _ [] (bp' ++ n' :: n3 :: bs3) _ _ k);
      [by rewrite app_nil_r|done|done|lia|]. rewrite app_nil_r.
    rewrite (cons_middle y lp), (cons_middle n' bp'), !app_assoc.
    apply IH; [|simpl in *; lia]. apply copy_at_next; try done. apply Hoc.
Qed.

(** The search for the buffer that holds the offset. *)

Lemma copyin_skip_spec fuel m lp y l2 bp n bs2 p o :
  body m (lp ++ y :: l2) (bp ++ n :: bs2) → length lp = length bp →
  0 ≤ o → p = clen bp + o → p ≤ clen (bp ++ n :: bs2) → (length l2 < fuel)%nat →
  ∃ lp' y' l2' bp' n' bs2' o', iob_copyin_skip fuel m y o = Some (y', o') ∧
    lp ++ y :: l2 = lp' ++ y' :: l2' ∧ bp ++ n :: bs2 = bp' ++ n' :: bs2' ∧ length lp' = length bp' ∧
    0 ≤ o' ≤ io_len n' ∧ p = clen bp' + o'.
Proof.
  revert lp y l2 bp n bs2 o. induction fuel as [|fuel IH]; intros lp y l2 bp n bs2 o Hbo Hlen Ho Hp Hc Hf; [lia|].
  pose proof (body_mid _ _ _ _ _ _ _ Hlen Hbo) as (Hy & Hn & Hfl & Hok & _ & _).
  pose proof (bo_max _ _ _ Hbo). pose proof (ok_len _ Hok). pose proof (clen_nonneg bp).
  cbn [iob_copyin_skip]. rewrite (deref_Some _ _ _ Hy Hn). cbn [mbind option_bind].
  destruct (Z.ltb_spec (io_len n) o) as [Hlt|Hge].
  - unfold u32. rewrite Z.mod_small, Hfl by lia. rewrite clen_app, clen_cons in * by done.
    pose proof (Forall2_length _ _ _ (bo_nodes _ _ _ Hbo)) as Hl2. rewrite !length_app in Hl2.
    destruct l2 as [|z l3], bs2 as [|n3 bs3]; simpl in Hl2; try lia.
    + change (clen []) with 0 in Hc. lia.
    + simpl first. rewrite (cons_middle y lp), (cons_middle n bp), !app_assoc in *.
      apply IH; try done; rewrite ?length_app, ?clen_app, ?(clen_cons n []) by done;
        change (clen []) with 0; simpl in *; lia.
  - by exists lp, y, l2, bp, n, bs2, o.
Qed.

Lemma trycopyin_spec st F x l h bs s o throttled :
  pool_ok st F → NoDup (F ++ x :: l) → packet (iobs st) (x :: l) (h :: bs) →
  0 ≤ o → o + Z.of_nat (length s) < 2 ^ 16 →
  if decide (o ≤ clen (h :: bs))
  then copied st F (x :: l) (h :: bs) o s throttled (Z.of_nat (length s))
         (iob_trycopyin st x s (Z.of_nat (length s)) o throttled)
  else iob_trycopyin st x s (Z.of_nat (length s)) o throttled = Some (- ESPIPE, st).
Proof.
  intros Hp HNd Hpk Ho Hmax. pose proof (packet_body _ _ _ Hpk) as Hbo.
  pose proof (body_first _ _ _ _ _ Hbo) as (Hx & Hh & _). pose proof (pool_size _ _ _ _ Hp HNd Hbo) as Hsz.
  unfold iob_trycopyin, iob_copyin_internal. rewrite (proj2 (Z.eqb_neq _ _) Hx). cbn [negb mbind option_bind DEBUGASSERT].
  rewrite (deref_Some _ _ _ Hx Hh). cbn [mbind option_bind]. rewrite (packet_pktlen _ _ _ _ Hpk).
  destruct (decide _) as [Hle|Hgt]; [rewrite (proj2 (Z.ltb_ge _ _)) by lia|by rewrite (proj2 (Z.ltb_lt _ _)) by lia].
  destruct (copyin_skip_spec (S (size (iobs st))) (iobs st) [] x l [] h bs o o)
    as (lp & y & l2 & bp & n & bs2 & o' & -> & El & Ebs & Hlen & Ho' & Hpos); try done; [simpl in *; lia|].
  cbn [mbind option_bind]. simpl in El, Ebs.
  assert (Hca : copy_at st F lp y l2 bp n bs2 s o' o) by (rewrite El, Ebs in *; by constructor).
  destruct (copyin_loop_spec (S (S (size (iobs st)))) st F lp y l2 bp n bs2 s o' o throttled Hca)
    as (ret & st' & F' & l' & bs' & k & E & Hoc & Hpk' & Hco & Hr).
  { apply (f_equal length) in El. rewrite length_app in El. simpl in *. lia. }
  rewrite <- El in *. rewrite <- Ebs in *. simpl first in E. rewrite E. cbn [mbind option_bind].
  exists (if ret <? 0 then ret else Z.of_nat (length s)), st', F', l', bs', k. split_and!; try done.
  - case_if; [done|]. by rewrite s32_small by lia.
  - destruct Hr as [[-> ?]|(-> & ? & ?)]; [by left|by right].
Qed.
End Copy.
End IobCopy.
