(* ===== verification/IobMove.v ===== *)
(** * I/O buffers: moving bytes between buffers

    [iob_contig], [iob_pack] and [iob_concat] rearrange the bytes of packets
    without changing them. *)

From S2P Require Import Prelude.
From S2P Require Import Queue.
From S2P Require Import Iob.
From S2P Require Import IobSpec.
From S2P Require Import IobTrim.
From S2P Require Import IobCopy.

Module IobMove.
Import Iob IobSpec IobTrim IobCopy.

Section Move.
Context {cfg : IobConfig} {cfg_ok : IobConfigOk}.
Implicit Types (m : gmap Z iob_s) (st : iob_state) (b n : iob_s) (bs bp : list iob_s) (l lp : list Z).

(** ** Moving the bytes of a buffer to its front *)

Definition aligned (b : iob_s) : iob_s :=
  if 0 <? io_offset b then set_io_offset 0 (set_io_data (list_inserts 0 (payload b) (io_data b)) b)
  else b.

Lemma payload_aligned b : buf_ok b → payload (aligned b) = payload b.
Proof.
  intros Hok. pose proof (length_payload b Hok). pose proof Hok as []. unfold aligned. case_if; [|done].
  unfold payload at 1. simpl. rewrite inserts_split, drop_0, take_0 by lia. simpl app.
  rewrite take_app_length'; [done|lia].
Qed.

Lemma aligned_fields b :
  buf_ok b → buf_ok (aligned b) ∧ io_offset (aligned b) = 0 ∧ io_len (aligned b) = io_len b ∧
  io_flink (aligned b) = io_flink b ∧ io_pktlen (aligned b) = io_pktlen b.
Proof.
  intros Hok. pose proof Hok as []. unfold aligned. case_if; simpl; split_and!; try done; [|lia].
  constructor; simpl; rewrite ?length_inserts; lia.
Qed.

Lemma align_spec m x b :
  x ≠ NULL → m !! x = Some b → buf_ok b →
  iob_align m x = Some (<[x := aligned b]> m).
Proof.
  intros Hx Hb Hok. pose proof Hok as []. unfold iob_align, aligned.
  rewrite (deref_Some _ _ _ Hx Hb). cbn [mbind option_bind]. case_if; [|by rewrite insert_id].
  rewrite mem_read_Some by lia. cbn [mbind option_bind]. fold (payload b).
  pose proof (length_payload b Hok). rewrite mem_write_Some by lia. cbn [mbind option_bind].
  rewrite (update_Some _ _ _ _ Hx Hb). cbn [mbind option_bind]. by apply update_again.
Qed.

(** ** Pulling bytes from the next buffer *)

Definition pulled (b n : iob_s) (k : Z) : iob_s := buf_put b (io_len b) (take (Z.to_nat k) (payload n)).
Definition rest (n : iob_s) (k : Z) : iob_s :=
  set_io_len (io_len n - k) (set_io_offset (io_offset n + k) n).

Lemma pull_eval m x y b n k :
  x ≠ NULL → y ≠ NULL → y ≠ x → m !! x = Some b → m !! y = Some n → buf_ok b → buf_ok n →
  io_offset b = 0 → 0 ≤ k ≤ io_len n → io_len b + k ≤ CONFIG_IOB_BUFSIZE →
  iob_pull m x y k = Some (<[y := rest n k]> (<[x := pulled b n k]> m)).
Proof.
  intros Hx Hy Hyx Hb Hn Hob Hon Ho Hk Hfit. pose proof Hob as []. pose proof Hon as [].
  pose proof (length_payload n Hon). unfold iob_pull.
  rewrite (deref_Some _ _ _ Hx Hb), (deref_Some _ _ _ Hy Hn). cbn [mbind option_bind].
  rewrite mem_read_Some by lia. cbn [mbind option_bind].
  replace (take (Z.to_nat k) (drop _ (io_data n))) with (take (Z.to_nat k) (payload n)).
  2: { unfold payload. rewrite take_take. f_equal. lia. }
  assert (Ht : Z.of_nat (length (take (Z.to_nat k) (payload n))) = k) by (rewrite length_take; lia).
  rewrite mem_write_Some by lia. cbn [mbind option_bind].
  rewrite (update_Some _ _ _ _ Hx Hb). cbn [mbind option_bind]. rewrite update_again by done.
  cbn [mbind option_bind]. rewrite (update_Some _ y n) by (by rewrite ?lookup_insert_ne).
  cbn [mbind option_bind]. rewrite update_again, !ulen_small by (done || lia).
  unfold pulled, buf_put. rewrite Ht, Ho, Z.max_r by lia. done.
Qed.

Lemma pulled_ok b n k :
  buf_ok b → buf_ok n → io_offset b = 0 → 0 ≤ k ≤ io_len n → io_len b + k ≤ CONFIG_IOB_BUFSIZE →
  buf_ok (pulled b n k) ∧ payload (pulled b n k) = payload b ++ take (Z.to_nat k) (payload n) ∧
  io_len (pulled b n k) = io_len b + k.
Proof.
  intros Hb Hn Ho Hk Hfit. pose proof (length_payload b Hb). pose proof (length_payload n Hn). pose proof Hb as [].
  assert (Ht : Z.of_nat (length (take (Z.to_nat k) (payload n))) = k) by (rewrite length_take; lia).
  unfold pulled. split_and!; [apply buf_put_ok; try done; lia| |simpl; lia].
  rewrite payload_put by (done || lia). unfold spliced.
  rewrite (take_ge (payload b)), (drop_ge (payload b)), app_nil_r by lia. f_equal. by rewrite (take_ge (take _ _)).
Qed.

Lemma rest_ok n k :
  buf_ok n → 0 ≤ k ≤ io_len n → buf_ok (rest n k) ∧ payload (rest n k) = drop (Z.to_nat k) (payload n).
Proof.
  intros Hn Hk. split; [destruct Hn; constructor; simpl; lia|]. by rewrite <- payload_trim.
Qed.

(** Bytes move inside the packet: the chain stays. *)

Lemma pull_body m lp x y l bp b n bs k :
  length lp = length bp → body m (lp ++ x :: y :: l) (bp ++ b :: n :: bs) →
  io_offset b = 0 → 0 ≤ k ≤ io_len n → io_len b + k ≤ CONFIG_IOB_BUFSIZE →
  ∃ m', iob_pull m x y k = Some m' ∧ m' = <[y := rest n k]> (<[x := pulled b n k]> m) ∧
    body m' (lp ++ x :: y :: l) (bp ++ pulled b n k :: rest n k :: bs) ∧
    content (bp ++ pulled b n k :: rest n k :: bs) = content (bp ++ b :: n :: bs).
Proof.
  intros Hlen Hbo Ho Hk Hfit.
  pose proof (body_mid _ _ _ _ _ _ _ Hlen Hbo) as (Hx & Hb & _ & Hob & _ & Hxl).
  pose proof Hbo as Hbo'. rewrite (cons_middle x lp), (cons_middle b bp), !app_assoc in Hbo'.
  assert (Hlen' : length (lp ++ [x]) = length (bp ++ [b])) by (rewrite !length_app; simpl; lia).
  pose proof (body_mid _ _ _ _ _ _ _ Hlen' Hbo') as (Hy & Hn & _ & Hon & _ & _).
  destruct (pulled_ok b n k Hob Hon Ho Hk Hfit) as (Hpok & Hpp & _). destruct (rest_ok n k Hon Hk) as (Hrok & Hrp).
  assert (Hco : content (bp ++ pulled b n k :: rest n k :: bs) = content (bp ++ b :: n :: bs)).
  { rewrite !content_app, !content_cons, Hpp, Hrp, <- !app_assoc. do 2 f_equal. by rewrite app_assoc, take_drop. }
  assert (Hmax : clen (bp ++ pulled b n k :: rest n k :: bs) < 2 ^ 16).
  { unfold clen. rewrite Hco. apply (bo_max _ _ _ Hbo). }
  exists (<[y := rest n k]> (<[x := pulled b n k]> m)).
  split_and!; [by rewrite (pull_eval m x y b n k) by (done || set_solver)|done| |done].
  rewrite insert_insert_ne by set_solver. apply (body_set_mid _ lp x (y :: l) bp b); try done.
  rewrite (cons_middle x lp), (cons_middle b bp), !app_assoc. eapply body_set_mid; try done.
  pose proof (bo_max _ _ _ Hbo') as Hmax'. pose proof (clen_cons n bs Hon). pose proof (clen_cons _ bs Hrok) as Hr.
  simpl in Hr. rewrite (clen_app (bp ++ [b])) in *. lia.
Qed.

(** ** Taking a buffer out of the chain *)

Lemma free_inner st F lp x y l bp b n bs :
  pool_ok st F → NoDup (F ++ lp ++ x :: y :: l) → length lp = length bp →
  body (iobs st) (lp ++ x :: y :: l) (bp ++ b :: n :: bs) → io_len n = 0 →
  ∃ st1, iob_free st y = Some (first l NULL, st1) ∧ pool_ok st1 (y :: F) ∧
    ∀ w, w ≠ y → iobs st1 !! w = iobs st !! w.
Proof.
  intros Hp HNd Hlen Hbo Hl0. rewrite (cons_middle x lp), (cons_middle b bp), !(app_assoc lp), !(app_assoc bp) in *.
  assert (Hlen' : length (lp ++ [x]) = length (bp ++ [b])) by (rewrite !length_app; simpl; lia).
  pose proof (body_mid _ _ _ _ _ _ _ Hlen' Hbo) as (Hy & Hn & Hf & Hon & _ & Hyl).
  pose proof HNd as (_ & Hdis & _)%NoDup_app. assert (HyF : y ∉ F) by (intros ?%Hdis; set_solver).
  assert (Hpk0 : io_pktlen n = 0 ∧ Forall (λ c, io_pktlen c = 0) bs).
  { pose proof (bo_lens _ _ _ Hbo) as H0. destruct bp; simpl in H0; rewrite ?Forall_app, ?Forall_cons in H0; tauto. }
  destruct Hpk0 as [Hn0 Hbs0].
  pose proof (bo_nodes _ _ _ Hbo) as (_ & _ & Hns)%nodes_mid; [|done].
  inversion Hns as [|z n3 l3 bs3 Hz Hns3]; subst.
  - destruct (free_last st F y n) as (st1 & E & Hp1 & Hm); try done; [apply Hon|].
    exists st1. split_and!; try done. intros w Hw. by rewrite Hm, lookup_insert_ne.
  - apply Forall_cons in Hbs0 as [H30 _]. pose proof (bo_linked _ _ _ Hbo) as [_ (_ & _ & Hz0 & _)]%linked_app; [|done].
    destruct (free_next st F y n z n3) as (st1 & E & Hp1 & Hm); try done; try lia; [apply Hon|set_solver|..].
    { intros ?%Hdis. set_solver. }
    exists st1. split_and!; try done. intros w Hw. rewrite Hm, lookup_insert_ne by done.
    replace (Z.max _ _) with (io_pktlen n3) by lia. by rewrite insert_pktlen.
Qed.

Lemma body_unlink m m' lp x y l bp b n bs :
  length lp = length bp → body m (lp ++ x :: y :: l) (bp ++ b :: n :: bs) →
  (∀ w, w ≠ y → m' !! w = m !! w) →
  body (<[x := set_io_flink (first l NULL) b]> m') (lp ++ x :: l)
    (bp ++ set_io_flink (first l NULL) b :: bs).
Proof.
  intros Hlen Hbo Hm. pose proof (body_mid _ _ _ _ _ _ _ Hlen Hbo) as (Hx & Hb & Hf & Hob & Hxp & Hxl).
  destruct Hbo as [Hnd Hns Hk Hoks H0 Hmax]. rewrite NoDup_app, !NoDup_cons in Hnd.
  destruct Hnd as (Hnd1 & Hdis & _ & Hyl & Hnd2).
  apply nodes_mid in Hns as (Hn1 & _ & Hn2); [|done]. inversion Hn2; subst. constructor.
  - rewrite NoDup_app, NoDup_cons. split_and!; [done|set_solver|set_solver|done].
  - apply nodes_mid; [done|]. split_and!; [|by rewrite lookup_insert_eq|];
      (eapply nodes_ext; [|done]; intros w Hw; rewrite lookup_insert_ne, Hm; [done|set_solver..]).
  - apply linked_app in Hk as (Hk1 & _ & _ & _ & _ & Hk2); [|done]. apply linked_app; [done|]. by split_and!.
  - rewrite Forall_app, !Forall_cons in *. destruct Hoks as (? & ? & _ & ?). split_and!; try done.
    by destruct Hob; constructor.
  - destruct bp; simpl in *; rewrite ?Forall_app, ?Forall_cons in *; naive_solver.
  - rewrite clen_app in *. change (clen (set_io_flink (first l NULL) b :: bs)) with (clen (b :: bs)).
    rewrite Forall_app, !Forall_cons in Hoks. destruct Hoks as (_ & _ & Hn & _).
    rewrite !(clen_cons b), (clen_cons n) in * by done. destruct Hn. lia.
Qed.

Lemma unlink_spec st F lp x y l bp b n bs :
  pool_ok st F → NoDup (F ++ lp ++ x :: y :: l) → length lp = length bp →
  body (iobs st) (lp ++ x :: y :: l) (bp ++ b :: n :: bs) → io_len n = 0 →
  ∃ st1, iob_free st y = Some (first l NULL, st1) ∧
    update (iobs st1) x (set_io_flink (first l NULL)) =
      Some (<[x := set_io_flink (first l NULL) b]> (iobs st1)) ∧
    outcome st F (lp ++ x :: y :: l)
      (set_iobs st1 (<[x := set_io_flink (first l NULL) b]> (iobs st1))) (y :: F) (lp ++ x :: l) ∧
    body (<[x := set_io_flink (first l NULL) b]> (iobs st1)) (lp ++ x :: l)
      (bp ++ set_io_flink (first l NULL) b :: bs).
Proof.
  intros Hp HNd Hlen Hbo Hl0. pose proof (body_mid _ _ _ _ _ _ _ Hlen Hbo) as (Hx & Hb & Hf & Hob & Hxp & Hxl).
  destruct (free_inner st F lp x y l bp b n bs) as (st1 & E & Hp1 & Hm); try done.
  assert (Hb1 : iobs st1 !! x = Some b) by (rewrite Hm; [done|set_solver]).
  exists st1. split_and!; [done|by apply update_Some|constructor|by eapply body_unlink].
  - apply pool_set; [done| |done]. apply NoDup_app in HNd as (_ & Hd & _).
    intros [->|?%Hd]%elem_of_cons; set_solver.
  - rewrite (cons_middle x lp (y :: l)), (cons_middle x lp l), !app_assoc.
    etrans; [|apply Permutation_middle]. done.
  - intros w Hw. simpl. rewrite lookup_insert_ne, Hm by set_solver. done.
Qed.

(** ** Packing *)

Lemma pull_0 b n m x y :
  m !! x = Some b → m !! y = Some n → <[y := rest n 0]> (<[x := pulled b n 0]> m) = m.
Proof.
  intros Hb Hn. replace (rest n 0) with n by (unfold rest; rewrite Z.sub_0_r, Z.add_0_r; by destruct n).
  replace (pulled b n 0) with b
    by (unfold pulled, buf_put; rewrite take_0, Z.max_l by (simpl; lia); by destruct b).
  rewrite (insert_id m) by done. by apply insert_id.
Qed.

(** One round for a buffer [b] with a successor [n]: [b] is aligned, and [k] bytes
    move, where [k] is what fits. *)

Definition fits (b n : iob_s) : Z := Z.min (io_len n) (CONFIG_IOB_BUFSIZE - io_len b).

Lemma pull_round st F lp x y l bp b n bs k :
  pool_ok st F → NoDup (F ++ lp ++ x :: y :: l) → length lp = length bp →
  body (iobs st) (lp ++ x :: y :: l) (bp ++ b :: n :: bs) → io_offset b = 0 →
  0 ≤ k ≤ io_len n → io_len b + k ≤ CONFIG_IOB_BUFSIZE →
  ∃ m', iob_pull (iobs st) x y k = Some m' ∧ (k = 0 → m' = iobs st) ∧
    y ≠ NULL ∧ iobs st !! y = Some n ∧ m' !! y = Some (rest n k) ∧
    outcome st F (lp ++ x :: y :: l) (set_iobs st m') F (lp ++ x :: y :: l) ∧
    body m' (lp ++ x :: y :: l) (bp ++ pulled b n k :: rest n k :: bs) ∧
    content (pulled b n k :: rest n k :: bs) = content (b :: n :: bs).
Proof.
  intros Hp HNd Hlen Hbo Ho Hk Hfit. pose proof (body_mid _ _ _ _ _ _ _ Hlen Hbo) as (Hx & Hb & _).
  destruct (pull_body (iobs st) lp x y l bp b n bs k) as (m' & E & Em & Hbo' & Hco); try done.
  assert (Hn : y ≠ NULL ∧ iobs st !! y = Some n).
  { rewrite (cons_middle x lp), (cons_middle _ bp), !app_assoc in Hbo.
    apply body_mid in Hbo as (? & ? & _); [done|]. rewrite !length_app. simpl. lia. }
  destruct Hn as [Hy Hn]. exists m'. split_and!; try done.
  - intros ->. rewrite Em. by apply pull_0.
  - rewrite Em. apply lookup_insert_eq.
  - rewrite Em. apply outcome_set_again; [apply outcome_set; try done; set_solver|done|set_solver|].
    destruct (decide (y = x)) as [->|]; [by rewrite lookup_insert_eq|by rewrite lookup_insert_ne].
  - rewrite !content_app in Hco. by apply app_inv_head in Hco.
Qed.

Lemma align_round st F lp x l bp b bs :
  pool_ok st F → NoDup (F ++ lp ++ x :: l) → length lp = length bp →
  body (iobs st) (lp ++ x :: l) (bp ++ b :: bs) →
  iob_align (iobs st) x = Some (<[x := aligned b]> (iobs st)) ∧
  outcome st F (lp ++ x :: l) (set_iobs st (<[x := aligned b]> (iobs st))) F (lp ++ x :: l) ∧
  body (<[x := aligned b]> (iobs st)) (lp ++ x :: l) (bp ++ aligned b :: bs) ∧
  content (bp ++ aligned b :: bs) = content (bp ++ b :: bs).
Proof.
  intros Hp HNd Hlen Hbo. pose proof (body_mid _ _ _ _ _ _ _ Hlen Hbo) as (Hx & Hb & _ & Hok & _).
  destruct (aligned_fields b Hok) as (Hok' & _ & _ & Hf & Hpl).
  assert (Hco : content (bp ++ aligned b :: bs) = content (bp ++ b :: bs))
    by (by rewrite !content_app, !content_cons, payload_aligned).
  split_and!; [by apply align_spec|apply outcome_set; try done; set_solver| |done].
  eapply body_set_mid; try done. unfold clen. rewrite Hco. apply (bo_max _ _ _ Hbo).
Qed.

Definition packed st F lp l bp bs (r : option iob_state) : Prop :=
  ∃ st' F' l' bs', r = Some st' ∧ outcome st F (lp ++ l) st' F' (lp ++ l') ∧
    body (iobs st') (lp ++ l') (bp ++ bs') ∧ content bs' = content bs ∧
    Forall (λ b, io_offset b = 0) bs' ∧ first l' NULL = first l NULL ∧
    io_pktlen <$> head (bp ++ bs') = io_pktlen <$> head (bp ++ bs).

Lemma packed_step st F lp x l bp b bs st1 F1 l1 b1 bs1 r :
  outcome st F (lp ++ x :: l) st1 F1 (lp ++ x :: l1) →
  content (b1 :: bs1) = content (b :: bs) → io_offset b1 = 0 → io_pktlen b1 = io_pktlen b →
  packed st1 F1 (lp ++ [x]) l1 (bp ++ [b1]) bs1 r →
  packed st F lp (x :: l) bp (b :: bs) r.
Proof.
  intros Hoc Hco Ho Hpl (st' & F' & l' & bs' & -> & Hoc' & Hbo & Hco' & Hoff & _ & Hh).
  exists st', F', (x :: l'), (b1 :: bs'). rewrite <- !app_assoc in *. simpl in *. split_and!; try done.
  - by eapply outcome_trans.
  - rewrite content_cons, Hco', <- content_cons. done.
  - by constructor.
  - destruct bp; simpl in *; by rewrite ?Hpl.
Qed.

Lemma pack_entry_spec st F lp x l bp b bs :
  pool_ok st F → NoDup (F ++ lp ++ x :: l) → length lp = length bp →
  body (iobs st) (lp ++ x :: l) (bp ++ b :: bs) →
  ∃ st1 F1 l1 b1 bs1, iob_pack_entry st x = Some (first l1 NULL, st1) ∧
    outcome st F (lp ++ x :: l) st1 F1 (lp ++ x :: l1) ∧
    body (iobs st1) (lp ++ x :: l1) (bp ++ b1 :: bs1) ∧ content (b1 :: bs1) = content (b :: bs) ∧
    io_offset b1 = 0 ∧ io_pktlen b1 = io_pktlen b ∧ (length l1 ≤ length l)%nat.
Proof.
  intros Hp HNd Hlen Hbo. pose proof (Forall2_length _ _ _ (bo_nodes _ _ _ Hbo)) as Hl2.
  rewrite !length_app in Hl2. pose proof (body_mid _ _ _ _ _ _ _ Hlen Hbo) as (Hx & Hb & Hfl & Hok & _).
  destruct (aligned_fields b Hok) as (Hok' & Ho' & Hl' & Hf' & Hpl').
  unfold iob_pack_entry. rewrite (deref_Some _ _ _ Hx Hb). cbn [mbind option_bind].
  destruct (align_round st F lp x l bp b bs) as (-> & Hoc1 & Hbo1 & Hco1); try done.
  cbn [mbind option_bind]. rewrite Hfl. rewrite !content_app in Hco1. apply app_inv_head in Hco1.
  set (m1 := <[x := aligned b]> (iobs st)) in *.
  destruct l as [|y l], bs as [|n bs]; simpl in Hl2; try lia; simpl first.
  { rewrite Z.eqb_refl. exists (set_iobs st m1), F, [], (aligned b), []. by split_and!. }
  pose proof (bo_linked _ _ _ Hbo) as (_ & _ & _ & Hy & _)%linked_app; [|done].
  rewrite (proj2 (Z.eqb_neq _ _) Hy).
  assert (Hnok : buf_ok n) by (apply bo_ok in Hbo as [_ [_ [? _]%Forall_cons]%Forall_cons]%Forall_app; done).
  set (k := fits (aligned b) n). destruct Hok, Hnok. pose proof bufsize_ok.
  destruct (pull_round (set_iobs st m1) F lp x y l bp (aligned b) n bs k)
    as (m2 & E2 & E20 & _ & Hn & Hn2 & Hoc2 & Hbo2 & Hco2); try done; try (unfold k, fits; lia); [apply Hoc1|].
  simpl in Hn, E2, E20. rewrite (deref_Some _ _ _ Hy Hn). cbn [mbind option_bind].
  unfold u32. rewrite Z.mod_small by lia.
  replace (if _ <? io_len n then _ else _) with k by (unfold k, fits; case_if; lia).
  replace (if 0 <? k then _ else _) with (Some m2) by (case_if; [done|]; rewrite E20; [done|unfold k, fits in *; lia]).
  cbn [mbind option_bind]. rewrite (deref_Some _ _ _ Hy Hn2). cbn [mbind option_bind].
  pose proof (outcome_trans _ _ _ _ _ _ _ _ _ Hoc1 Hoc2) as Hoc3. rewrite Hco1 in Hco2.
  destruct (Z.leb_spec (io_len (rest n k)) 0) as [Hle|Hgt].
  - assert (Hr0 : io_len (rest n k) = 0) by (unfold k, fits in *; simpl in *; lia).
    destruct (unlink_spec (set_iobs st m2) F lp x y l bp (pulled (aligned b) n k) (rest n k) bs)
      as (st3 & -> & Hup & Hoc4 & Hbo4); try done; [apply Hoc3|].
    cbn [mbind option_bind]. rewrite Hup. cbn [mbind option_bind].
    eexists _, (y :: F), l, _, bs. split_and!; [done|by eapply outcome_trans|exact Hbo4| |done|done|simpl; lia].
    rewrite <- Hco2, !content_cons. replace (payload (rest n k)) with (@nil Z); [done|].
    unfold payload. by rewrite Hr0.
  - exists (set_iobs st m2), F, (y :: l), (pulled (aligned b) n k), (rest n k :: bs). by split_and!.
Qed.

Lemma pack_loop_spec fuel st F lp l bp bs :
  pool_ok st F → NoDup (F ++ lp ++ l) → length lp = length bp → body (iobs st) (lp ++ l) (bp ++ bs) →
  (length l < fuel)%nat → packed st F lp l bp bs (iob_pack_loop fuel st (first l NULL)).
Proof.
  revert st F lp l bp bs. induction fuel as [|fuel IH]; intros st F lp l bp bs Hp HNd Hlen Hbo Hf; [lia|].
  pose proof (Forall2_length _ _ _ (bo_nodes _ _ _ Hbo)) as Hl2. rewrite !length_app in Hl2.
  cbn [iob_pack_loop]. destruct l as [|x l], bs as [|b bs]; simpl in Hl2; try lia.
  { exists st, F, [], []. by split_and!. }
  pose proof (body_mid _ _ _ _ _ _ _ Hlen Hbo) as (Hx & _). simpl first. rewrite (proj2 (Z.eqb_neq _ _) Hx).
  destruct (pack_entry_spec st F lp x l bp b bs)
    as (st1 & F1 & l1 & b1 & bs1 & -> & Hoc & Hbo1 & Hco & Ho & Hpl & Hl1); try done.
  cbn [mbind option_bind]. eapply packed_step; [done|done|done|done|].
  apply IH; [apply Hoc|rewrite <- app_assoc; by eapply outcome_nodup|rewrite !length_app; simpl; lia
            |by rewrite <- !app_assoc|simpl in *; lia].
Qed.

(** The result of an operation that keeps the bytes: a packet, or no buffer at all
    when there are no bytes. *)

Definition repacked st F l bs (P : iob_s → Prop) (r : option (Z * iob_state)) : Prop :=
  ∃ st' F' l' bs', r = Some (first l' NULL, st') ∧ outcome st F l st' F' l' ∧
    (l' = [] ∧ bs' = [] ∨ packet (iobs st') l' bs') ∧ content bs' = content bs ∧ Forall P bs'.

Lemma pack_head_spec fuel st F x l b bs :
  pool_ok st F → NoDup (F ++ x :: l) → packet (iobs st) (x :: l) (b :: bs) → (length l < fuel)%nat →
  repacked st F (x :: l) (b :: bs) (λ _, True) (iob_pack_head fuel st x).
Proof.
  revert st F x l b bs. induction fuel as [|fuel IH]; intros st F x l b bs Hp HNd Hpk Hf; [lia|].
  pose proof (packet_body _ _ _ Hpk) as Hbo. pose proof (body_first _ _ _ _ _ Hbo) as (Hx & Hb & _ & Hok).
  cbn [iob_pack_head]. rewrite (deref_Some _ _ _ Hx Hb). cbn [mbind option_bind].
  destruct (Z.leb_spec (io_len b) 0) as [Hle|Hgt].
  2: { exists st, F, (x :: l), (b :: bs). split_and!; try done; [by right|by apply Forall_true]. }
  assert (Hpb : payload b = []) by (unfold payload; destruct Hok; by replace (io_len b) with 0 by lia).
  destruct (body_shape _ _ _ _ _ Hbo) as [[-> ->]|(y & l2 & n & bs2 & -> & ->)].
  - destruct (free_single st F x b) as (st' & -> & Hoc); try done. cbn [mbind option_bind]. rewrite Z.eqb_refl.
    exists st', (x :: F), [], []. split_and!; try done; [by left|]. by rewrite content_cons, Hpb.
  - destruct (free_head st F x y l2 b n bs2) as (st1 & -> & Hoc & Hpk1); try done. cbn [mbind option_bind].
    pose proof (body_first _ _ _ _ _ (packet_body _ _ _ Hpk1)) as (Hy & _). rewrite (proj2 (Z.eqb_neq _ _) Hy).
    edestruct (IH st1 (x :: F) y l2) as (st' & F' & l' & bs' & -> & Hoc' & Hpk' & Hco & Hall);
      [apply Hoc|by eapply outcome_nodup|exact Hpk1|simpl in Hf; lia|].
    exists st', F', l', bs'. split_and!; try done; [by eapply outcome_trans|].
    rewrite (content_cons b), Hpb, Hco. done.
Qed.

Lemma pack_spec st F x l b bs :
  pool_ok st F → NoDup (F ++ x :: l) → packet (iobs st) (x :: l) (b :: bs) →
  repacked st F (x :: l) (b :: bs) (λ c, io_offset c = 0) (iob_pack st x).
Proof.
  intros Hp HNd Hpk. pose proof (body_length _ _ _ (packet_body _ _ _ Hpk)) as Hsz. unfold iob_pack.
  destruct (pack_head_spec (S (size (iobs st))) st F x l b bs)
    as (st1 & F1 & l1 & bs1 & -> & Hoc1 & Hpk1 & Hco1 & _); try done; [simpl in *; lia|].
  cbn [mbind option_bind]. destruct Hpk1 as [[-> ->]|Hpk1].
  { simpl. exists st1, F1, [], []. split_and!; try done. by left. }
  destruct l1 as [|y l1]; [by apply packet_ne in Hpk1 as []|].
  destruct bs1 as [|c bs1]; [by apply packet_ne in Hpk1 as []|].
  apply packet_iff in Hpk1 as [Hbo1 Hh1]. pose proof (body_first _ _ _ _ _ Hbo1) as (Hy & _).
  simpl first. rewrite (proj2 (Z.eqb_neq _ _) Hy).
  pose proof (body_length _ _ _ Hbo1) as Hsz1.
  destruct (pack_loop_spec (S (size (iobs st1))) st1 F1 [] (y :: l1) [] (c :: bs1))
    as (st' & F' & l' & bs' & E & Hoc' & Hbo' & Hco' & Hoff & Hfirst & Hh'); try done;
    [apply Hoc1|by eapply outcome_nodup|lia|].
  simpl first in E. rewrite E. cbn [mbind option_bind]. simpl in Hoc', Hbo', Hh'.
  exists st', F', l', bs'. simpl first in Hfirst. rewrite Hfirst. split_and!; try done.
  - by eapply outcome_trans.
  - right. apply packet_iff. split; [done|]. unfold clen. rewrite Hco'. rewrite Hh'. done.
  - by rewrite Hco'.
Qed.

(** ** Contiguous bytes *)

Lemma contig_entry_spec st F x y l b n bs len :
  pool_ok st F → NoDup (F ++ x :: y :: l) → body (iobs st) (x :: y :: l) (b :: n :: bs) →
  io_offset b = 0 → io_len b < len ≤ CONFIG_IOB_BUFSIZE →
  ∃ st1 F1 l1 b1 bs1, iob_contig_entry st x len = Some st1 ∧
    outcome st F (x :: y :: l) st1 F1 (x :: l1) ∧ body (iobs st1) (x :: l1) (b1 :: bs1) ∧
    content (b1 :: bs1) = content (b :: n :: bs) ∧ io_offset b1 = 0 ∧ io_pktlen b1 = io_pktlen b ∧
    io_len b1 ≤ len ∧ (io_len b1 = len ∨ (length l1 < length (y :: l))%nat).
Proof.
  intros Hp HNd Hbo Ho Hlen. pose proof (body_first _ _ _ _ _ Hbo) as (Hx & Hb & Hfl & Hok).
  pose proof (bo_ok _ _ _ Hbo) as [_ [Hnok _]%Forall_cons]%Forall_cons. pose proof Hok as []. pose proof Hnok as [].
  pose proof bufsize_ok. remember (Z.min (len - io_len b) (io_len n)) as k eqn:Hk.
  destruct (pull_round st F [] x y l [] b n bs k)
    as (m2 & E2 & _ & Hy & Hn & Hn2 & Hoc2 & Hbo2 & Hco2); try done; try lia.
  destruct (pulled_ok b n k) as (_ & _ & Hpl); try done; try lia.
  unfold iob_contig_entry. rewrite (deref_Some _ _ _ Hx Hb). cbn [mbind option_bind]. rewrite Hfl. simpl first.
  rewrite (proj2 (Z.eqb_neq _ _) Hy). cbn [negb mbind option_bind DEBUGASSERT].
  rewrite (deref_Some _ _ _ Hy Hn). cbn [mbind option_bind]. unfold u32. rewrite Z.mod_small by lia.
  replace (if _ <? io_len n then _ else _) with k by (case_if; lia).
  rewrite E2. cbn [mbind option_bind]. rewrite (deref_Some _ _ _ Hy Hn2). cbn [mbind option_bind]. simpl in Hbo2, Hoc2.
  destruct (Z.eqb_spec (io_len (rest n k)) 0) as [H0|H0].
  - destruct (unlink_spec (set_iobs st m2) F [] x y l [] (pulled b n k) (rest n k) bs)
      as (st3 & -> & Hup & Hoc4 & Hbo4); try done; [apply Hoc2|].
    cbn [mbind option_bind]. rewrite Hup. cbn [mbind option_bind].
    eexists _, (y :: F), l, _, bs.
    split_and!; [done|by eapply outcome_trans|exact Hbo4| |done|done|simpl in *; lia|right; simpl; lia].
    rewrite <- Hco2, !content_cons. replace (payload (rest n k)) with (@nil Z); [done|].
    unfold payload. by rewrite H0.
  - exists (set_iobs st m2), F, (y :: l), (pulled b n k), (rest n k :: bs). split_and!; try done; [lia|].
    left. simpl in H0. lia.
Qed.

Lemma contig_loop_spec fuel st F x l b bs len :
  pool_ok st F → NoDup (F ++ x :: l) → body (iobs st) (x :: l) (b :: bs) →
  io_offset b = 0 → io_len b < len ≤ CONFIG_IOB_BUFSIZE → len ≤ clen (b :: bs) → (length l < fuel)%nat →
  ∃ st1 F1 l1 b1 bs1, iob_contig_loop fuel st x len = Some st1 ∧
    outcome st F (x :: l) st1 F1 (x :: l1) ∧ body (iobs st1) (x :: l1) (b1 :: bs1) ∧
    content (b1 :: bs1) = content (b :: bs) ∧ io_pktlen b1 = io_pktlen b ∧ io_len b1 = len.
Proof.
  revert st F l b bs. induction fuel as [|fuel IH]; intros st F l b bs Hp HNd Hbo Ho Hlen Hc Hf; [lia|].
  pose proof (body_first _ _ _ _ _ Hbo) as (_ & _ & _ & Hok). rewrite clen_cons in Hc by done.
  destruct (body_shape _ _ _ _ _ Hbo) as [[-> ->]|(y & l2 & n & bs2 & -> & ->)]; [change (clen []) with 0 in Hc; lia|].
  destruct (contig_entry_spec st F x y l2 b n bs2 len)
    as (st1 & F1 & l1 & b1 & bs1 & E1 & Hoc1 & Hbo1 & Hco1 & Ho1 & Hpl1 & Hle1 & Hd1); try done.
  pose proof (body_first _ _ _ _ _ Hbo1) as (Hx & Hb1 & _ & Hok1).
  cbn [iob_contig_loop]. rewrite E1. cbn [mbind option_bind]. rewrite (deref_Some _ _ _ Hx Hb1). cbn [mbind option_bind].
  destruct (Z.ltb_spec (io_len b1) len) as [Hlt|Hge].
  - destruct (IH st1 F1 l1 b1 bs1) as (st2 & F2 & l2' & b2 & bs2' & -> & Hoc2 & Hbo2 & Hco2 & Hpl2 & Hl2);
      try done; [apply Hoc1|by eapply outcome_nodup|lia| |simpl in *; lia|].
    + unfold clen. rewrite Hco1. fold (clen (b :: n :: bs2)). rewrite clen_cons by done. lia.
    + exists st2, F2, l2', b2, bs2'. split_and!; [done|by eapply outcome_trans|done|congruence|congruence|done].
  - exists st1, F1, l1, b1, bs1. split_and!; try done. lia.
Qed.

Lemma contig_spec st F x l b bs len :
  pool_ok st F → NoDup (F ++ x :: l) → packet (iobs st) (x :: l) (b :: bs) →
  0 ≤ len ≤ CONFIG_IOB_BUFSIZE →
  if decide (len ≤ clen (b :: bs))
  then ∃ st' F' l' b' bs', iob_contig st x len = Some (0, st') ∧ outcome st F (x :: l) st' F' (x :: l') ∧
    packet (iobs st') (x :: l') (b' :: bs') ∧ content (b' :: bs') = content (b :: bs) ∧ len ≤ io_len b'
  else iob_contig st x len = Some (- ENOSPC, st).
Proof.
  intros Hp HNd Hpk Hlen. pose proof (packet_body _ _ _ Hpk) as Hbo.
  pose proof (body_first _ _ _ _ _ Hbo) as (Hx & Hb & _ & Hok). pose proof (clen_cons b bs Hok) as Hc.
  pose proof (clen_nonneg bs). unfold iob_contig.
  rewrite (proj2 (Z.leb_le len _)) by lia. cbn [mbind option_bind DEBUGASSERT].
  rewrite (deref_Some _ _ _ Hx Hb). cbn [mbind option_bind]. rewrite (packet_pktlen _ _ _ _ Hpk).
  destruct (decide _) as [Hle|Hgt].
  2: { by rewrite (proj2 (Z.leb_gt len (io_len b))), (proj2 (Z.leb_gt len _)) by lia. }
  destruct (Z.leb_spec len (io_len b)) as [Hl|Hl].
  { exists st, F, l, b, bs. by split_and!. }
  rewrite (proj2 (Z.leb_le len _)) by lia.
  destruct (align_round st F [] x l [] b bs) as (-> & Hoc1 & Hbo1 & Hco1); try done.
  destruct (aligned_fields b Hok) as (Hok' & Ho' & Hl' & Hf' & Hpl'). cbn [mbind option_bind].
  set (m1 := <[x := aligned b]> (iobs st)) in *. simpl in Hoc1, Hbo1, Hco1.
  pose proof (body_length _ _ _ Hbo1) as Hsz.
  destruct (contig_loop_spec (S (size m1)) (set_iobs st m1) F x l (aligned b) bs len)
    as (st2 & F2 & l2 & b2 & bs2 & -> & Hoc2 & Hbo2 & Hco2 & Hpl2 & Hl2); try done;
    [apply Hoc1|lia|by unfold clen; rewrite Hco1|simpl in *; lia|].
  cbn [mbind option_bind]. exists st2, F2, l2, b2, bs2. split_and!; try done.
  - by eapply outcome_trans.
  - apply packet_iff. split; [done|]. unfold clen. rewrite Hco2, Hco1. simpl.
    by rewrite Hpl2, Hpl', (packet_pktlen _ _ _ _ Hpk).
  - by rewrite Hco2.
  - lia.
Qed.

(** ** Concatenation *)

Lemma concat_loop_spec fuel m lp y l bp n bs :
  length lp = length bp → body m (lp ++ y :: l) (bp ++ n :: bs) → (length l < fuel)%nat →
  iob_concat_loop fuel m y = last (y :: l).
Proof.
  revert lp y l bp n bs. induction fuel as [|fuel IH]; intros lp y l bp n bs Hlen Hbo Hf; [lia|].
  pose proof (body_mid _ _ _ _ _ _ _ Hlen Hbo) as (Hy & Hn & Hfl & _).
  cbn [iob_concat_loop]. rewrite (deref_Some _ _ _ Hy Hn). cbn [mbind option_bind]. rewrite Hfl.
  pose proof (Forall2_length _ _ _ (bo_nodes _ _ _ Hbo)) as Hl2. rewrite !length_app in Hl2.
  destruct l as [|z l], bs as [|n3 bs]; simpl in Hl2; try lia; simpl first; [done|].
  pose proof (bo_linked _ _ _ Hbo) as (_ & _ & _ & Hz & _)%linked_app; [|done].
  rewrite (proj2 (Z.eqb_neq _ _) Hz). rewrite (cons_middle y lp), (cons_middle n bp), !app_assoc in Hbo.
  eapply (IH (lp ++ [y]) z l (bp ++ [n])); [rewrite !length_app; simpl; lia|done|simpl in *; lia].
Qed.

Lemma body_join m l0 z bs0 c l2 b2 bs2 :
  length l0 = length bs0 → body m (l0 ++ [z]) (bs0 ++ [c]) → body m l2 (b2 :: bs2) →
  NoDup ((l0 ++ [z]) ++ l2) → io_pktlen b2 = 0 → clen (bs0 ++ [c]) + clen (b2 :: bs2) < 2 ^ 16 →
  body (<[z := set_io_flink (first l2 NULL) c]> m) ((l0 ++ [z]) ++ l2)
    ((bs0 ++ [set_io_flink (first l2 NULL) c]) ++ b2 :: bs2).
Proof.
  intros Hlen Hb1 Hb2 HNd H0 Hmax. pose proof (body_mid _ _ _ _ _ _ _ Hlen Hb1) as (Hz & Hc & _ & Hok & Hzl & _).
  pose proof HNd as (_ & Hdis & _)%NoDup_app. assert (Hz2 : z ∉ l2) by (apply Hdis; set_solver).
  destruct Hb1 as [Hnd1 Hn1 Hk1 Hok1 Hl1 _], Hb2 as [Hnd2 Hn2 Hk2 Hok2 Hl2 _]. constructor.
  - done.
  - apply nodes_mid in Hn1 as (Hn1 & _ & _); [|done]. apply nodes_app.
    + apply nodes_mid; [done|]. split_and!; [|by rewrite lookup_insert_eq|constructor].
      eapply nodes_ext; [|done]. intros w Hw. apply lookup_insert_ne. set_solver.
    + eapply nodes_ext; [|done]. intros w Hw. apply lookup_insert_ne. set_solver.
  - apply linked_app; [rewrite !length_app; simpl; lia|]. split; [|done].
    apply linked_app in Hk1 as [Hk1 _]; [|done]. apply linked_app; [done|]. by split_and!.
  - rewrite !Forall_app, Forall_singleton in *. destruct Hok1. split_and!; try done. by destruct Hok; constructor.
  - destruct bs0; simpl in *; [by constructor|].
    rewrite !Forall_app, !Forall_cons in *. simpl. tauto.
  - rewrite !clen_app in *. done.
Qed.

Lemma concat_heads m x1 l1 b1 bs1 x2 l2 b2 bs2 P :
  body m (x1 :: l1) (b1 :: bs1) → body m (x2 :: l2) (b2 :: bs2) → NoDup ((x1 :: l1) ++ x2 :: l2) →
  let m2 := <[x2 := set_io_pktlen 0 b2]> (<[x1 := set_io_pktlen P b1]> m) in
  body m2 (x1 :: l1) (set_io_pktlen P b1 :: bs1) ∧ body m2 (x2 :: l2) (set_io_pktlen 0 b2 :: bs2).
Proof.
  intros Hbo1 Hbo2 (_ & Hdis & _)%NoDup_app.
  pose proof (body_first _ _ _ _ _ Hbo1) as (_ & _ & _ & Hok1).
  pose proof (body_first _ _ _ _ _ Hbo2) as (_ & _ & _ & Hok2). split.
  - eapply body_ext; [intros w Hw; apply lookup_insert_ne; intros <-; by apply (Hdis x2); [|left]|].
    eapply body_set; try done; [by destruct Hok1; constructor|]. apply (bo_max _ _ _ Hbo1).
  - apply (body_set _ _ _ b2); [|by destruct Hok2; constructor|done|apply (bo_max _ _ _ Hbo2)].
    eapply body_ext; [|exact Hbo2]. intros w Hw. apply lookup_insert_ne. intros ->. apply (Hdis w); [by left|done].
Qed.

Lemma concat_spec st F x1 l1 b1 bs1 x2 l2 b2 bs2 :
  pool_ok st F → NoDup (F ++ (x1 :: l1) ++ x2 :: l2) →
  packet (iobs st) (x1 :: l1) (b1 :: bs1) → packet (iobs st) (x2 :: l2) (b2 :: bs2) →
  clen (b1 :: bs1) + clen (b2 :: bs2) < 2 ^ 16 →
  ∃ st' bs', iob_concat st x1 x2 = Some st' ∧
    outcome st F ((x1 :: l1) ++ x2 :: l2) st' F ((x1 :: l1) ++ x2 :: l2) ∧
    packet (iobs st') ((x1 :: l1) ++ x2 :: l2) bs' ∧
    content bs' = content (b1 :: bs1) ++ content (b2 :: bs2).
Proof.
  intros Hp HNd Hpk1 Hpk2 Hmax. pose proof (packet_body _ _ _ Hpk1) as Hbo1. pose proof (packet_body _ _ _ Hpk2) as Hbo2.
  pose proof (body_first _ _ _ _ _ Hbo1) as (Hx1 & Hb1 & _ & Hok1).
  pose proof (body_first _ _ _ _ _ Hbo2) as (Hx2 & Hb2 & _ & Hok2).
  pose proof HNd as (_ & _ & HNd2)%NoDup_app. pose proof HNd2 as (_ & Hdis & _)%NoDup_app.
  assert (Hx12 : x2 ∉ x1 :: l1) by (intros ?%Hdis; set_solver).
  pose proof (clen_nonneg (b1 :: bs1)). pose proof (clen_nonneg (b2 :: bs2)).
  set (P := clen (b1 :: bs1) + clen (b2 :: bs2)) in *.
  set (m2 := <[x2 := set_io_pktlen 0 b2]> (<[x1 := set_io_pktlen P b1]> (iobs st))).
  destruct (concat_heads _ _ _ _ _ _ _ _ _ P Hbo1 Hbo2 HNd2) as [Hc1 Hc2]. fold m2 in Hc1, Hc2.
  unfold iob_concat. rewrite (deref_Some _ _ _ Hx1 Hb1), (deref_Some _ _ _ Hx2 Hb2). cbn [mbind option_bind].
  rewrite (packet_pktlen _ _ _ _ Hpk1), (packet_pktlen _ _ _ _ Hpk2). unfold u16. rewrite Z.mod_small by (fold P; lia).
  fold P. rewrite (update_Some _ _ _ _ Hx1 Hb1). cbn [mbind option_bind].
  rewrite (update_Some _ x2 b2) by (by rewrite ?lookup_insert_ne by set_solver). cbn [mbind option_bind]. fold m2.
  rewrite (concat_loop_spec _ m2 [] x1 l1 [] (set_io_pktlen P b1) bs1) by (try done; apply body_length in Hc1; simpl in *; lia).
  assert (∃ z, last (x1 :: l1) = Some z) as [z Hz] by (by rewrite last_cons; destruct (last l1); eexists).
  destruct (body_last _ _ _ _ Hc1 Hz) as (l0 & bs0 & c & El & Ebs & Hlen). rewrite Hz. cbn [mbind option_bind].
  rewrite El, Ebs in Hc1. pose proof (body_mid _ _ _ _ _ _ _ Hlen Hc1) as (Hz0 & Hc & _).
  rewrite (update_Some _ _ _ _ Hz0 Hc). cbn [mbind option_bind].
  assert (Hcl : clen (bs0 ++ [c]) = clen (b1 :: bs1)) by (by rewrite <- Ebs).
  pose proof (body_join m2 l0 z bs0 c (x2 :: l2) (set_io_pktlen 0 b2) bs2 Hlen Hc1 Hc2) as Hj.
  rewrite <- El in Hj. specialize (Hj HNd2 eq_refl). rewrite Hcl in Hj. specialize (Hj Hmax). simpl first in Hj.
  assert (Hcon : content ((bs0 ++ [set_io_flink x2 c]) ++ set_io_pktlen 0 b2 :: bs2) = content (b1 :: bs1) ++ content (b2 :: bs2)).
  { rewrite content_app. f_equal. transitivity (content (bs0 ++ [c])); [by rewrite !content_app|by rewrite <- Ebs]. }
  eexists _, _. split_and!; [done| |apply packet_iff; split; [exact Hj|]|done].
  - apply outcome_set_again; [|done|rewrite El; set_solver|done].
    apply outcome_set_again; [|done|set_solver|by rewrite lookup_insert_ne by set_solver].
    apply outcome_set; [done|done|set_solver|done].
  - unfold clen. rewrite Hcon, length_app, Nat2Z.inj_add. fold (clen (b1 :: bs1)) (clen (b2 :: bs2)). fold P.
    by destruct bs0; simplify_eq/=.
Qed.
End Move.
End IobMove.
