(* ===== verification/IobProps.v ===== *)
(** * I/O buffers: what the operations promise

    Packets are lists of bytes: each operation is stated by its effect on the bytes
    of the packet it is applied to and by what it leaves of the pool ([outcome]):
    the buffers of the packet and the free list are the same ones before and after,
    and no other buffer changes. *)

From S2P Require Import Prelude.
From S2P Require Import Queue.
From S2P Require Import Iob.
From S2P Require Import IobSpec.
From S2P Require Import IobTrim.
From S2P Require Import IobCopy.
From S2P Require Import IobMove.

Module IobProps.
Import Iob IobSpec IobTrim IobCopy IobMove.

Section Props.
Context {cfg : IobConfig} {cfg_ok : IobConfigOk}.
Implicit Types (m : gmap Z iob_s) (st : iob_state) (bs : list iob_s) (F l : list Z).

(** ** The initial pool *)

Lemma init_loop_spec pool st F :
  g_iob_freelist st = first F NULL → chain (links (iobs st)) F NULL → NoDup (pool ++ F) →
  (∀ x, x ∈ pool → x ≠ NULL ∧ is_Some (iobs st !! x)) →
  (∀ x b, iobs st !! x = Some b → Z.of_nat (length (io_data b)) = CONFIG_IOB_BUFSIZE) →
  ∃ st', iob_init_loop pool st = Some st' ∧ g_iob_freelist st' = first (reverse pool ++ F) NULL ∧
    chain (links (iobs st')) (reverse pool ++ F) NULL ∧ dom (iobs st') = dom (iobs st) ∧
    (∀ x b, iobs st' !! x = Some b → Z.of_nat (length (io_data b)) = CONFIG_IOB_BUFSIZE).
Proof.
  revert st F. induction pool as [|x pool IH]; intros st F Hfr Hch HNd Hin Hd.
  { exists st. by rewrite reverse_nil. }
  simpl in HNd. apply NoDup_cons in HNd as [Hx HNd]. destruct (Hin x) as [Hx0 [b Hb]]; [by left|].
  simpl. rewrite (update_Some _ _ _ _ Hx0 Hb). cbn [mbind option_bind].
  destruct (IH (mk_pool (<[x := set_io_flink (g_iob_freelist st) b]> (iobs st)) x (g_iob_committed st)
    (g_iob_sem st) (g_throttle_sem st)) (x :: F)) as (st' & E & Hfr' & Hch' & Hdom & Hd'); simpl.
  - done.
  - unfold links. rewrite fmap_insert, Hfr. split_and!; [done|by rewrite lookup_insert_eq|].
    apply chain_insert_ne; [set_solver|done].
  - apply NoDup_app in HNd as (? & Hdis & ?). apply NoDup_app. rewrite NoDup_cons. set_solver.
  - intros y Hy. split; [apply Hin; by right|]. destruct (decide (y = x)) as [->|]; [by rewrite lookup_insert_eq|].
    rewrite lookup_insert_ne by done. apply Hin. by right.
  - intros y c. destruct (decide (y = x)) as [->|]; [rewrite lookup_insert_eq|rewrite lookup_insert_ne by done; apply Hd].
    intros [= <-]. exact (Hd x b Hb).
  - exists st'. rewrite reverse_cons, <- app_assoc. split_and!; try done.
    rewrite Hdom. simpl. apply dom_insert_lookup_L. by rewrite Hb.
Qed.

(** [iob_initialize] makes a pool of all buffers: the free list holds each buffer of
    [g_iob_pool] once, and the semaphores count them. *)

Lemma iob_init_spec pool :
  NoDup pool → NULL ∉ pool → Z.of_nat (length pool) = CONFIG_IOB_NBUFFERS →
  ∃ st, iob_initialize pool = Some st ∧ pool_ok st (reverse pool).
Proof.
  intros HNd H0 Hlen. pose proof bufsize_ok. unfold iob_initialize.
  set (zero := mk_iob 0 0 0 0 (replicate (Z.to_nat CONFIG_IOB_BUFSIZE) 0)).
  set (m0 := list_to_map ((λ p, (p, zero)) <$> pool) : gmap Z iob_s).
  assert (Hdom : dom m0 = list_to_set pool).
  { unfold m0. rewrite dom_list_to_map_L. f_equal. rewrite <- list_fmap_compose. apply list_fmap_id. }
  assert (Hm0 : ∀ x b, m0 !! x = Some b → b = zero).
  { intros x b Hb%elem_of_list_to_map_2. apply list_elem_of_fmap in Hb as (? & ? & _). by simplify_eq. }
  destruct (init_loop_spec pool (mk_pool m0 NULL NULL 0 0) []) as (st & -> & Hfr & Hch & Hd & Hdat); try done.
  - by rewrite app_nil_r.
  - intros x Hx. split; [by intros ->|]. apply elem_of_dom. simpl. rewrite Hdom. by apply elem_of_list_to_set.
  - intros x b Hb%Hm0. subst b. unfold zero. simpl. rewrite length_replicate. lia.
  - cbn [mbind option_bind]. rewrite app_nil_r in *. eexists. split; [done|]. constructor; simpl; try done.
    + by apply NoDup_reverse.
    + intros x b _. apply Hdat.
    + rewrite <- size_dom, Hd. simpl. rewrite Hdom, size_list_to_set by done. lia.
    + by rewrite length_reverse.
    + intros _. rewrite length_reverse. lia.
Qed.

Lemma reset_packet st F x F' b st' :
  F = x :: F' → NoDup F → pool_ok st' F' → x ≠ NULL → iobs st' = <[x := iob_reset b]> (iobs st) →
  Z.of_nat (length (io_data b)) = CONFIG_IOB_BUFSIZE →
  outcome st F [] st' F' [x] ∧ packet (iobs st') [x] [iob_reset b].
Proof.
  intros -> HNd Hp Hx Hm Hd. pose proof bufsize_ok. split; [constructor|].
  - done.
  - by rewrite app_nil_r, <- Permutation_cons_append.
  - intros y Hy. rewrite Hm, lookup_insert_ne by set_solver. done.
  - apply packet_iff. split; [constructor|done].
    + apply NoDup_singleton.
    + constructor; [|constructor]. by rewrite Hm, lookup_insert_eq.
    + done.
    + constructor; [|constructor]. constructor; simpl; lia.
    + constructor.
    + done.
Qed.

(** ** The operations *)

(** [iob_tryalloc] never faults.  It fails, leaving the pool alone, exactly
    when no buffer is free or when the request is throttled and no more than
    [CONFIG_IOB_THROTTLE] buffers are free; otherwise it takes a buffer off the
    free list, which is then an empty packet, and [iob_alloc] returns the same
    buffer without waiting, whatever the context. *)
Lemma iob_tryalloc_spec st F throttled :
  pool_ok st F →
  if decide (refused F throttled)
  then iob_tryalloc st throttled = Some (NULL, st)
  else ∃ x F' b st', F = x :: F' ∧ iob_tryalloc st throttled = Some (x, st') ∧
    outcome st F [] st' F' [x] ∧ packet (iobs st') [x] [b] ∧ content [b] = [] ∧
    ∀ fuel wait nowait, iob_alloc (S fuel) wait nowait st throttled = Some (x, st').
Proof.
  intros Hp. destruct (decide _) as [Hr|Hr]; [by eapply tryalloc_refused|].
  destruct (tryalloc_granted st F throttled Hp Hr) as (x & F' & b & st' & HF & E & Hx & Hp' & _ & Hm & Hd).
  destruct (reset_packet st F x F' b st') as [Hoc Hpk]; try done; [apply Hp|].
  exists x, F', (iob_reset b), st'. split_and!; try done. intros fuel wait nowait.
  unfold iob_alloc, iob_allocwait. rewrite E. destruct nowait; [done|]. cbn [mbind option_bind iob_allocwait_loop].
  by rewrite (proj2 (Z.eqb_neq _ _) Hx).
Qed.

(** [iob_trimhead] removes the first [t] bytes of a packet, or all of them
    when there are fewer: it never faults, returns a packet with the other bytes,
    and the buffers it no longer needs are free again. *)
Lemma iob_trimhead_spec st F l bs t :
  pool_ok st F → NoDup (F ++ l) → packet (iobs st) l bs → 0 ≤ t < 2 ^ 32 →
  ∃ st' F' l' bs', iob_trimhead st (first l NULL) t = Some (first l' NULL, st') ∧
    outcome st F l st' F' l' ∧ packet (iobs st') l' bs' ∧
    content bs' = drop (Z.to_nat t) (content bs).
Proof.
  intros Hp HNd Hpk Ht. pose proof (packet_ne _ _ _ Hpk) as []. destruct l, bs; try done.
  by apply trimhead_spec.
Qed.

(** [iob_trimtail] removes the last [t] bytes of a packet: it never faults and
    returns a packet with the other bytes, or [NULL] when it has freed all buffers;
    [t] is below 2^31, since the code holds it in an [int]. *)
Lemma iob_trimtail_spec st F l bs t :
  pool_ok st F → NoDup (F ++ l) → packet (iobs st) l bs → 0 ≤ t < 2 ^ 31 →
  ∃ st' F' l' bs', iob_trimtail st (first l NULL) t = Some (first l' NULL, st') ∧
    outcome st F l st' F' l' ∧ (l' = [] ∧ bs' = [] ∨ packet (iobs st') l' bs') ∧
    content bs' = take (Z.to_nat (clen bs - t)) (content bs).
Proof.
  intros Hp HNd Hpk Ht. pose proof (packet_ne _ _ _ Hpk) as []. destruct l, bs; try done.
  by apply trimtail_spec.
Qed.

(** [iob_copyout] copies the bytes of the packet from [o] on, at most [len], to
    the user buffer and returns their number; the rest of the user buffer is not
    written, and the copy succeeds whenever those bytes fit it. *)
Lemma iob_copyout_spec st dest l bs len o :
  let out := take (Z.to_nat len) (drop (Z.to_nat o) (content bs)) in
  packet (iobs st) l bs → 0 ≤ len < 2 ^ 32 → 0 ≤ o < 2 ^ 32 → (length out ≤ length dest)%nat →
  iob_copyout st dest (first l NULL) len o =
    Some (Z.of_nat (length out), out ++ drop (length out) dest).
Proof.
  intros out Hpk. pose proof (packet_ne _ _ _ Hpk) as []. destruct l as [|x l], bs; try done.
  eapply copyout_spec, packet_body, Hpk.
Qed.

(** [iob_trycopyin] refuses an offset past the end with [-ESPIPE] and changes
    nothing then.  Otherwise it never faults: it puts the bytes [s] in the place of
    the ones from [o] on, the packet growing at its end as far as it has to, into
    buffers from the pool.  It returns the length of [s]; or [-ENOMEM] when the
    pool refuses a buffer, and then a proper prefix of [s] has been copied.
    [iob_copyin] does the same where it cannot wait. *)
Lemma iob_trycopyin_spec st F l bs s o throttled :
  pool_ok st F → NoDup (F ++ l) → packet (iobs st) l bs → 0 ≤ o → o + Z.of_nat (length s) < 2 ^ 16 →
  (∀ fuel wait, iob_copyin fuel wait true st (first l NULL) s (Z.of_nat (length s)) o throttled =
    iob_trycopyin st (first l NULL) s (Z.of_nat (length s)) o throttled) ∧
  if decide (o ≤ clen bs) then
    ∃ ret st' F' l' bs' k,
      iob_trycopyin st (first l NULL) s (Z.of_nat (length s)) o throttled = Some (ret, st') ∧
      outcome st F l st' F' (l ++ l') ∧ packet (iobs st') (l ++ l') bs' ∧
      content bs' = take (Z.to_nat o) (content bs) ++ take k s ++ drop (Z.to_nat o + k) (content bs) ∧
      (ret = Z.of_nat (length s) ∧ k = length s ∨
       ret = - ENOMEM ∧ (k < length s)%nat ∧ refused F' throttled)
  else iob_trycopyin st (first l NULL) s (Z.of_nat (length s)) o throttled = Some (- ESPIPE, st).
Proof.
  intros Hp HNd Hpk Ho Hmax. pose proof (packet_ne _ _ _ Hpk) as []. destruct l as [|x l], bs; try done.
  split; [done|]. by apply trycopyin_spec.
Qed.

(** [iob_contig] of at most one buffer size either finds the packet shorter and
    returns [-ENOSPC], changing nothing, or returns 0 with the first [len] bytes in
    the first buffer; the bytes of the packet and its head are the same, and its
    loop always ends. *)
Lemma iob_contig_spec st F l bs len :
  pool_ok st F → NoDup (F ++ l) → packet (iobs st) l bs → 0 ≤ len ≤ CONFIG_IOB_BUFSIZE →
  if decide (len ≤ clen bs) then
    ∃ st' F' l' b' bs', iob_contig st (first l NULL) len = Some (0, st') ∧
      outcome st F l st' F' (first l NULL :: l') ∧ packet (iobs st') (first l NULL :: l') (b' :: bs') ∧
      content (b' :: bs') = content bs ∧ len ≤ io_len b'
  else iob_contig st (first l NULL) len = Some (- ENOSPC, st).
Proof.
  intros Hp HNd Hpk Hlen. pose proof (packet_ne _ _ _ Hpk) as []. destruct l as [|x l], bs; try done.
  by apply contig_spec.
Qed.

(** [iob_pack] keeps the bytes of the packet and moves them to the front of
    their buffers; it returns [NULL] only when there are no bytes, and buffers it
    empties are free again. *)
Lemma iob_pack_spec st F l bs :
  pool_ok st F → NoDup (F ++ l) → packet (iobs st) l bs →
  ∃ st' F' l' bs', iob_pack st (first l NULL) = Some (first l' NULL, st') ∧ outcome st F l st' F' l' ∧
    (l' = [] ∧ bs' = [] ∨ packet (iobs st') l' bs') ∧ content bs' = content bs ∧
    Forall (λ b, io_offset b = 0) bs'.
Proof.
  intros Hp HNd Hpk. pose proof (packet_ne _ _ _ Hpk) as []. destruct l as [|x l], bs; try done.
  by apply pack_spec.
Qed.

(** [iob_concat] appends the bytes of one packet to those of another. *)
Lemma iob_concat_spec st F l1 bs1 l2 bs2 :
  pool_ok st F → NoDup (F ++ l1 ++ l2) → packet (iobs st) l1 bs1 → packet (iobs st) l2 bs2 →
  clen bs1 + clen bs2 < 2 ^ 16 →
  ∃ st' bs', iob_concat st (first l1 NULL) (first l2 NULL) = Some st' ∧
    outcome st F (l1 ++ l2) st' F (l1 ++ l2) ∧ packet (iobs st') (l1 ++ l2) bs' ∧
    content bs' = content bs1 ++ content bs2.
Proof.
  intros Hp HNd Hpk1 Hpk2. pose proof (packet_ne _ _ _ Hpk1) as []. pose proof (packet_ne _ _ _ Hpk2) as [].
  destruct l1 as [|x1 l1], bs1, l2 as [|x2 l2], bs2; try done. by apply concat_spec.
Qed.

(** [iob_free_chain] returns all buffers of a packet to the pool, the last one
    first on the free list, and stops. *)
Lemma iob_free_chain_spec st F l bs :
  pool_ok st F → NoDup (F ++ l) → packet (iobs st) l bs →
  ∃ st', iob_free_chain st (first l NULL) = Some st' ∧ outcome st F l st' (reverse l ++ F) [].
Proof.
  intros Hp HNd Hpk. pose proof (packet_ne _ _ _ Hpk) as []. destruct l as [|x l], bs; try done.
  by eapply free_chain_spec.
Qed.
End Props.

(** ** Concrete packets

    Buffers of 4 bytes, 6 of them, 1 kept back from throttled requests: a packet of
    10 bytes in three buffers, and one of 3 bytes. *)

#[local] Instance demo_cfg : IobConfig := mk_config 4 6 1.

Lemma demo_cfg_ok : IobConfigOk.
Proof. constructor. simpl. lia. Defined.

#[local] Existing Instance demo_cfg_ok.

Definition demo_pool : list Z := [0x100; 0x200; 0x300; 0x400; 0x500; 0x600].

Definition demo_run : option iob_state :=
  st ← iob_initialize demo_pool;
  '(x, st) ← iob_tryalloc st false;
  '(_, st) ← iob_trycopyin st x [1; 2; 3; 4; 5; 6; 7; 8; 9; 10] 10 0 false;
  '(y, st) ← iob_tryalloc st false;
  '(_, st) ← iob_trycopyin st y [11; 12; 13] 3 0 false;
  Some st.

Definition demo_st : iob_state :=
  Eval vm_compute in default (mk_pool ∅ 0 0 0 0) demo_run.

Definition demo_F : list Z := [0x200; 0x100].
Definition demo_l1 : list Z := [0x600; 0x500; 0x400].
Definition demo_l2 : list Z := [0x300].
Definition demo_bs (l : list Z) : list iob_s := omap (λ x, iobs demo_st !! x) l.

Lemma demo_reached : demo_run = Some demo_st.
Proof. vm_compute. reflexivity. Qed.

Lemma demo_pool_ok : pool_ok demo_st demo_F.
Proof.
  constructor; try done.
  - by apply (bool_decide_unpack _).
  - intros x b Hx. unfold demo_F in Hx. rewrite !elem_of_cons in Hx.
    destruct Hx as [->|[->|[]%not_elem_of_nil]]; vm_compute; by intros [= <-].
Qed.

Ltac demo_packet :=
  constructor; [by apply (bool_decide_unpack _)|repeat constructor|vm_compute; by repeat constructor|
    repeat constructor; vm_compute; by try intros [=]|done|done].

Lemma demo_packet1 : packet (iobs demo_st) demo_l1 (demo_bs demo_l1).
Proof. demo_packet. Qed.

Lemma demo_packet2 : packet (iobs demo_st) demo_l2 (demo_bs demo_l2).
Proof. demo_packet. Qed.

Lemma demo_nodup : NoDup (demo_F ++ demo_l1 ++ demo_l2).
Proof. by apply (bool_decide_unpack _). Qed.

Lemma demo_nodup1 : NoDup (demo_F ++ demo_l1).
Proof. by apply (bool_decide_unpack _). Qed.

Lemma demo_content : content (demo_bs demo_l1) = [1; 2; 3; 4; 5; 6; 7; 8; 9; 10].
Proof. reflexivity. Qed.

Lemma iob_tryalloc_spec_witness :
  pool_ok demo_st demo_F ∧
  if decide (refused demo_F true)
  then iob_tryalloc demo_st true = Some (NULL, demo_st)
  else ∃ x F' b st', demo_F = x :: F' ∧ iob_tryalloc demo_st true = Some (x, st') ∧
    outcome demo_st demo_F [] st' F' [x] ∧ packet (iobs st') [x] [b] ∧ content [b] = [] ∧
    ∀ fuel wait nowait, iob_alloc (S fuel) wait nowait demo_st true = Some (x, st').
Proof. split; [apply demo_pool_ok|]. apply (iob_tryalloc_spec demo_st demo_F true). apply demo_pool_ok. Defined.

Lemma iob_trimhead_spec_witness :
  ∃ st' F' l' bs', iob_trimhead demo_st 0x600 5 = Some (first l' NULL, st') ∧
    outcome demo_st demo_F demo_l1 st' F' l' ∧ packet (iobs st') l' bs' ∧ content bs' = [6; 7; 8; 9; 10].
Proof.
  apply (iob_trimhead_spec demo_st demo_F demo_l1 (demo_bs demo_l1) 5);
    [apply demo_pool_ok|apply demo_nodup1|apply demo_packet1|lia].
Defined.

Lemma iob_trimtail_spec_witness :
  ∃ st' F' l' bs', iob_trimtail demo_st 0x600 7 = Some (first l' NULL, st') ∧
    outcome demo_st demo_F demo_l1 st' F' l' ∧ (l' = [] ∧ bs' = [] ∨ packet (iobs st') l' bs') ∧
    content bs' = [1; 2; 3].
Proof.
  apply (iob_trimtail_spec demo_st demo_F demo_l1 (demo_bs demo_l1) 7);
    [apply demo_pool_ok|apply demo_nodup1|apply demo_packet1|lia].
Defined.

Lemma iob_copyout_spec_witness :
  iob_copyout demo_st [0; 0; 0; 0; 0; 0] 0x600 5 3 = Some (5, [4; 5; 6; 7; 8; 0]).
Proof.
  apply (iob_copyout_spec demo_st [0; 0; 0; 0; 0; 0] demo_l1 (demo_bs demo_l1) 5 3);
    [apply demo_packet1|lia|lia|vm_compute; lia].
Defined.

(** The pool keeps one buffer back: of 12 bytes at the end only some are copied. *)

Lemma iob_trycopyin_spec_witness :
  (∃ st, iob_trycopyin demo_st 0x600 (replicate 12 7) 12 10 true = Some (- ENOMEM, st)) ∧
  ∃ ret st' F' l' bs' k, iob_trycopyin demo_st 0x600 (replicate 12 7) 12 10 true = Some (ret, st') ∧
    outcome demo_st demo_F demo_l1 st' F' (demo_l1 ++ l') ∧ packet (iobs st') (demo_l1 ++ l') bs' ∧
    content bs' = take 10 (content (demo_bs demo_l1)) ++ take k (replicate 12 7) ++
      drop (10 + k) (content (demo_bs demo_l1)) ∧
    (ret = 12 ∧ k = 12%nat ∨ ret = - ENOMEM ∧ (k < 12)%nat ∧ refused F' true).
Proof.
  split; [eexists; vm_compute; reflexivity|].
  apply (iob_trycopyin_spec demo_st demo_F demo_l1 (demo_bs demo_l1) (replicate 12 7) 10 true);
    [apply demo_pool_ok|apply demo_nodup1|apply demo_packet1|lia|vm_compute; done].
Defined.

Lemma iob_contig_spec_witness :
  (∃ st, iob_contig demo_st 0x300 4 = Some (- ENOSPC, st)) ∧
  if decide (4 ≤ clen (demo_bs demo_l1)) then
    ∃ st' F' l' b' bs', iob_contig demo_st 0x600 4 = Some (0, st') ∧
      outcome demo_st demo_F demo_l1 st' F' (0x600 :: l') ∧ packet (iobs st') (0x600 :: l') (b' :: bs') ∧
      content (b' :: bs') = content (demo_bs demo_l1) ∧ 4 ≤ io_len b'
  else iob_contig demo_st 0x600 4 = Some (- ENOSPC, demo_st).
Proof.
  split; [eexists; vm_compute; reflexivity|].
  apply (iob_contig_spec demo_st demo_F demo_l1 (demo_bs demo_l1) 4);
    [apply demo_pool_ok|apply demo_nodup1|apply demo_packet1|simpl; lia].
Defined.

Lemma iob_pack_spec_witness :
  ∃ st' F' l' bs', iob_pack demo_st 0x600 = Some (first l' NULL, st') ∧
    outcome demo_st demo_F demo_l1 st' F' l' ∧ (l' = [] ∧ bs' = [] ∨ packet (iobs st') l' bs') ∧
    content bs' = [1; 2; 3; 4; 5; 6; 7; 8; 9; 10] ∧ Forall (λ b, io_offset b = 0) bs'.
Proof.
  apply (iob_pack_spec demo_st demo_F demo_l1 (demo_bs demo_l1));
    [apply demo_pool_ok|apply demo_nodup1|apply demo_packet1].
Defined.

Lemma iob_concat_spec_witness :
  ∃ st' bs', iob_concat demo_st 0x600 0x300 = Some st' ∧
    outcome demo_st demo_F (demo_l1 ++ demo_l2) st' demo_F (demo_l1 ++ demo_l2) ∧
    packet (iobs st') (demo_l1 ++ demo_l2) bs' ∧
    content bs' = [1; 2; 3; 4; 5; 6; 7; 8; 9; 10; 11; 12; 13].
Proof.
  apply (iob_concat_spec demo_st demo_F demo_l1 (demo_bs demo_l1) demo_l2 (demo_bs demo_l2));
    [apply demo_pool_ok|apply demo_nodup|apply demo_packet1|apply demo_packet2|vm_compute; done].
Defined.

Lemma iob_free_chain_spec_witness :
  ∃ st', iob_free_chain demo_st 0x600 = Some st' ∧
    outcome demo_st demo_F demo_l1 st' [0x400; 0x500; 0x600; 0x200; 0x100] [].
Proof.
  apply (iob_free_chain_spec demo_st demo_F demo_l1 (demo_bs demo_l1));
    [apply demo_pool_ok|apply demo_nodup1|apply demo_packet1].
Defined.

(** ** Where the code falls short of its documentation *)

(** [iob_clone] copies the data and the packet length but never sets [io_len] of the
    destination: the clone of a packet of 3 bytes has a packet length of 3 and a
    buffer of length 0, so that no reader finds the bytes. *)

Lemma iob_clone_sets_no_length :
  ∃ y st st' b, iob_tryalloc demo_st false = Some (y, st) ∧ iob_clone 0 (λ _ st, (OK, st)) true st 0x300 y false = Some (0, st') ∧
    iobs st' !! y = Some b ∧ io_pktlen b = 3 ∧ io_len b = 0 ∧ take 3 (io_data b) = [11; 12; 13].
Proof. eexists _, _, _, _. split; [vm_compute; reflexivity|]. split; [vm_compute; reflexivity|]. by vm_compute. Qed.

(** The clone of a packet without bytes follows the chain past its end. *)

Lemma iob_clone_empty_faults :
  ∃ x y st, iob_tryalloc demo_st false = Some (x, st) ∧
    ∃ st', iob_tryalloc st false = Some (y, st') ∧ iob_clone 0 (λ _ st, (OK, st)) true st' x y false = None.
Proof.
  eexists _, _, _. split; [vm_compute; reflexivity|].
  eexists. split; [vm_compute; reflexivity|]. vm_compute. reflexivity.
Qed.

(** [iob_pack] moves on to the buffer after the one it has emptied without filling
    the current one: buffers of 2, 1 and 4 bytes are packed to 3 and 4, though the
    first one has room for a fourth byte. *)

Definition gaps : iob_state :=
  mk_pool (list_to_map [(0x100, mk_iob 0x200 2 0 7 [1; 2; 0; 0]); (0x200, mk_iob 0x300 1 0 0 [3; 0; 0; 0]);
                        (0x300, mk_iob 0 4 0 0 [4; 5; 6; 7])]) 0 0 0 (-1).

Lemma iob_pack_leaves_room :
  ∃ st, iob_pack gaps 0x100 = Some (0x100, st) ∧
    iobs st !! 0x100 = Some (mk_iob 0x300 3 0 7 [1; 2; 3; 0]) ∧
    iobs st !! 0x300 = Some (mk_iob 0 4 0 0 [4; 5; 6; 7]).
Proof. eexists. split; [vm_compute; reflexivity|]. by vm_compute. Qed.
End IobProps.
