(* ===== verification/IobQueue.v ===== *)
(** * Queues of packets (mm/iob: the queue containers)

    A queue of packets is a list of containers, each of which points to the first buffer
    of a packet.  Containers come from a pool of their own, which works like the one for
    buffers: a free list, a list for tasks that wait, and a semaphore that counts. *)

From S2P Require Import Prelude Queue Iob.

Module IobQueue.
Import Iob.

Record iob_qentry_s := mk_qentry { qe_flink : Z; qe_head : Z }.
Record iob_queue_s := mk_queue { qh_head : Z; qh_tail : Z }.

Definition set_qe_flink (v : Z) (e : iob_qentry_s) : iob_qentry_s := mk_qentry v (qe_head e).
Definition set_qe_head (v : Z) (e : iob_qentry_s) : iob_qentry_s := mk_qentry (qe_flink e) v.

(** The pool of containers, and all of I/O buffering; [queues] are the queue heads by
    their addresses. *)

Record qpool_s := mk_qpool {
  qentries : gmap Z iob_qentry_s;
  g_iob_freeqlist : Z;
  g_iob_qcommitted : Z;
  g_qentry_sem : Z
}.

Record io_state := mk_io { bufs : iob_state; conts : qpool_s; queues : gmap Z iob_queue_s }.

Definition set_qentries (q : qpool_s) (m : gmap Z iob_qentry_s) : qpool_s :=
  mk_qpool m (g_iob_freeqlist q) (g_iob_qcommitted q) (g_qentry_sem q).
Definition set_bufs (st : io_state) (b : iob_state) : io_state := mk_io b (conts st) (queues st).
Definition set_conts (st : io_state) (q : qpool_s) : io_state := mk_io (bufs st) q (queues st).
Definition set_queue (st : io_state) (iobq : Z) (h : iob_queue_s) : io_state :=
  mk_io (bufs st) (conts st) (<[iobq := h]> (queues st)).

(** ** Containers *)

Definition iob_tryalloc_qentry (q : qpool_s) : option (Z * qpool_s) :=
  let iobq := g_iob_freeqlist q in
  if iobq =? NULL then Some (NULL, q)
  else
    e ← deref (qentries q) iobq;
    let sem := g_qentry_sem q - 1 in
    DEBUGASSERT (0 <=? sem) ;;
    m ← update (qentries q) iobq (set_qe_head NULL);
    Some (iobq, mk_qpool m (qe_flink e) (g_iob_qcommitted q) sem).

Definition iob_alloc_qcommitted (q : qpool_s) : option (Z * qpool_s) :=
  let iobq := g_iob_qcommitted q in
  if iobq =? NULL then Some (NULL, q)
  else
    e ← deref (qentries q) iobq;
    m ← update (qentries q) iobq (set_qe_head NULL);
    Some (iobq, mk_qpool m (g_iob_freeqlist q) (qe_flink e) (g_qentry_sem q)).

(** [wait q]: the result of [nxsem_wait_uninterruptible] and the containers when the task
    runs again, after what the other tasks have done. *)

Fixpoint iob_allocwait_qentry_loop (fuel : nat) (wait : qpool_s → Z * qpool_s) (q : qpool_s) (ret qentry : Z) :
    option (Z * qpool_s) :=
  match fuel with
  | O => None
  | S fuel =>
      if (ret =? OK) && (qentry =? NULL) then
        let '(ret, q) := wait q in
        if 0 <=? ret then
          '(qentry, q) ← iob_alloc_qcommitted q;
          DEBUGASSERT (negb (qentry =? NULL)) ;;
          iob_allocwait_qentry_loop fuel wait q ret qentry
        else iob_allocwait_qentry_loop fuel wait q ret qentry
      else Some (qentry, q)
  end.

Definition iob_allocwait_qentry (fuel : nat) (wait : qpool_s → Z * qpool_s) (q : qpool_s) : option (Z * qpool_s) :=
  '(qentry, q) ← iob_tryalloc_qentry q;
  iob_allocwait_qentry_loop fuel wait q OK qentry.

Definition iob_alloc_qentry (fuel : nat) (wait : qpool_s → Z * qpool_s) (nowait : bool) (q : qpool_s) :
    option (Z * qpool_s) :=
  if nowait then iob_tryalloc_qentry q else iob_allocwait_qentry fuel wait q.

Definition iob_free_qentry (q : qpool_s) (iobq : Z) : option (Z * qpool_s) :=
  e ← deref (qentries q) iobq;
  let nextq := qe_flink e in
  q ← (if g_qentry_sem q <? 0 then
         m ← update (qentries q) iobq (set_qe_flink (g_iob_qcommitted q));
         Some (mk_qpool m (g_iob_freeqlist q) iobq (g_qentry_sem q))
       else
         m ← update (qentries q) iobq (set_qe_flink (g_iob_freeqlist q));
         Some (mk_qpool m iobq (g_iob_qcommitted q) (g_qentry_sem q)));
  Some (nextq, mk_qpool (qentries q) (g_iob_freeqlist q) (g_iob_qcommitted q) (g_qentry_sem q + 1)).

(** ** Queues *)

Definition iob_add_queue_internal (st : io_state) (iob iobq qentry : Z) : option (Z * io_state) :=
  h ← queues st !! iobq;
  m ← update (qentries (conts st)) qentry (set_qe_head iob);
  m ← update m qentry (set_qe_flink NULL);
  if qh_head h =? NULL then
    Some (0, set_queue (set_conts st (set_qentries (conts st) m)) iobq (mk_queue qentry qentry))
  else
    DEBUGASSERT (negb (qh_tail h =? NULL)) ;;
    m ← update m (qh_tail h) (set_qe_flink qentry);
    Some (0, set_queue (set_conts st (set_qentries (conts st) m)) iobq (mk_queue (qh_head h) qentry)).

Definition iob_add_queue (fuel : nat) (wait : qpool_s → Z * qpool_s) (nowait : bool) (st : io_state) (iob iobq : Z) :
    option (Z * io_state) :=
  '(qentry, q) ← iob_alloc_qentry fuel wait nowait (conts st);
  let st := set_conts st q in
  if qentry =? NULL then Some (- ENOMEM, st) else iob_add_queue_internal st iob iobq qentry.

Definition iob_tryadd_queue (st : io_state) (iob iobq : Z) : option (Z * io_state) :=
  '(qentry, q) ← iob_tryalloc_qentry (conts st);
  let st := set_conts st q in
  if qentry =? NULL then Some (- ENOMEM, st) else iob_add_queue_internal st iob iobq qentry.

Definition iob_remove_queue (st : io_state) (iobq : Z) : option (Z * io_state) :=
  h ← queues st !! iobq;
  let qentry := qh_head h in
  if negb (qentry =? NULL) then
    e ← deref (qentries (conts st)) qentry;
    let st := set_queue st iobq (mk_queue (qe_flink e) (if qe_flink e =? NULL then NULL else qh_tail h)) in
    '(_, q) ← iob_free_qentry (conts st) qentry;
    Some (qe_head e, set_conts st q)
  else Some (NULL, st).

Definition iob_peek_queue (st : io_state) (iobq : Z) : option Z :=
  h ← queues st !! iobq;
  if negb (qh_head h =? NULL) then e ← deref (qentries (conts st)) (qh_head h); Some (qe_head e) else Some NULL.

Fixpoint iob_free_queue_loop `{IobConfig} (fuel : nat) (b : iob_state) (q : qpool_s) (iobq : Z) : option (iob_state * qpool_s) :=
  match fuel with
  | O => None
  | S fuel =>
      if negb (iobq =? NULL) then
        e ← deref (qentries q) iobq;
        DEBUGASSERT (negb (qe_head e =? NULL)) ;;
        '(_, q) ← iob_free_qentry q iobq;
        b ← iob_free_chain b (qe_head e);
        iob_free_queue_loop fuel b q (qe_flink e)
      else Some (b, q)
  end.

(** [qh_tail] is left as it is. *)

Definition iob_free_queue `{IobConfig} (st : io_state) (qhead : Z) : option io_state :=
  h ← queues st !! qhead;
  let st := set_queue st qhead (mk_queue NULL (qh_tail h)) in
  '(b, q) ← iob_free_queue_loop (S (size (qentries (conts st)))) (bufs st) (conts st) (qh_head h);
  Some (mk_io b q (queues st)).

Definition iob_trimhead_queue `{IobConfig} (st : io_state) (qhead trimlen : Z) : option (Z * io_state) :=
  h ← queues st !! qhead;
  if negb (qh_head h =? NULL) then
    e ← deref (qentries (conts st)) (qh_head h);
    if negb (qe_head e =? NULL) then
      '(iob, b) ← iob_trimhead (bufs st) (qe_head e) trimlen;
      m ← update (qentries (conts st)) (qh_head h) (set_qe_head iob);
      Some (iob, mk_io b (set_qentries (conts st) m) (queues st))
    else Some (qe_head e, st)
  else Some (NULL, st).

(** ** The numbers of free buffers and containers *)

Definition iob_navail `{IobConfig} (b : iob_state) (throttled : bool) : Z :=
  let ret := g_iob_sem b in
  let ret := if (0 <? CONFIG_IOB_THROTTLE) && throttled then ret - CONFIG_IOB_THROTTLE else ret in
  if ret <? 0 then 0 else ret.

Definition iob_qentry_navail (q : qpool_s) : Z := if g_qentry_sem q <? 0 then 0 else g_qentry_sem q.

(** ** Initialization

    [qpool]: the addresses of [g_iob_qpool], whose entries are zero. *)

Fixpoint iob_init_qloop (qpool : list Z) (q : qpool_s) : option qpool_s :=
  match qpool with
  | [] => Some q
  | iobq :: qpool =>
      m ← update (qentries q) iobq (set_qe_flink (g_iob_freeqlist q));
      iob_init_qloop qpool (mk_qpool m iobq (g_iob_qcommitted q) (g_qentry_sem q))
  end.

Definition iob_initialize_queues (qpool : list Z) : option qpool_s :=
  q ← iob_init_qloop qpool (mk_qpool (list_to_map ((λ p, (p, mk_qentry NULL NULL)) <$> qpool)) NULL NULL 0);
  Some (mk_qpool (qentries q) (g_iob_freeqlist q) NULL (Z.of_nat (length qpool))).

(** All of it, with the queue heads that clients have set to zero ([IOB_QINIT]). *)

Definition io_initialize `{IobConfig} (pool qpool heads : list Z) : option io_state :=
  b ← iob_initialize pool;
  q ← iob_initialize_queues qpool;
  Some (mk_io b q (list_to_map ((λ h, (h, mk_queue NULL NULL)) <$> heads))).

End IobQueue.
