(* ===== verification/IobSession.v ===== *)
(** * I/O buffers: packets and queues as a whole

    The state of I/O buffering seen as a set of packets, each with its bytes, and queues
    of them; [rep] and [qrep] relate it to the buffers and the containers.  Every operation
    keeps the relation, so that a client who follows the rules sees only packets and
    queues. *)

From S2P Require Import Prelude Queue Iob IobSpec IobTrim IobCopy IobMove IobProps IobQueue.

Module IobSession.
Import Iob IobSpec IobTrim IobCopy IobMove IobProps IobQueue.

Section Packets.
Context {cfg : IobConfig} {cfg_ok : IobConfigOk}.
Implicit Types (st : iob_state) (F l : list Z) (bs : list iob_s) (R : gmap Z (list Z * list iob_s)).

(** ** Packets

    [R]: the packets by the addresses of their first buffers. *)

Record rep st F R : Prop := {
  r_pool : pool_ok st F;
  r_packet h l bs : R !! h = Some (l, bs) → packet (iobs st) l bs ∧ first l NULL = h;
  r_used h l bs x : R !! h = Some (l, bs) → x ∈ l → x ∉ F;
  r_apart h1 l1 bs1 h2 l2 bs2 x : R !! h1 = Some (l1, bs1) → R !! h2 = Some (l2, bs2) → x ∈ l1 → x ∈ l2 → h1 = h2
}.

Definition apart R l : Prop := ∀ h l0 bs0 x, R !! h = Some (l0, bs0) → x ∈ l0 → x ∉ l.

Lemma packet_ext m m' l bs : (∀ x, x ∈ l → m' !! x = m !! x) → packet m l bs → packet m' l bs.
Proof. rewrite !packet_iff. intros Hx [Hb Hh]. split; [by eapply body_ext|done]. Qed.

Lemma rep_nodup st F R h l bs : rep st F R → R !! h = Some (l, bs) → NoDup (F ++ l).
Proof.
  intros HR Hh. apply NoDup_app. split; [apply (po_nodup _ _ (r_pool _ _ _ HR))|]. split.
  - intros x HF Hl. by apply (r_used _ _ _ HR _ _ _ _ Hh Hl).
  - apply (pk_nodup _ _ _ (proj1 (r_packet _ _ _ HR _ _ _ Hh))).
Qed.

(** An operation changes its own packets only. *)

Lemma rep_frame st F R R0 l st' F' l' :
  rep st F R → R0 ⊆ R → apart R0 l → outcome st F l st' F' l' → rep st' F' R0 ∧ apart R0 l'.
Proof.
  intros HR Hsub Hap [Hp Hperm Hfr]. pose proof (λ h lb (H : R0 !! h = Some lb), lookup_weaken R0 R h lb H Hsub) as Hw.
  assert (Hout : ∀ h l0 bs0 x, R0 !! h = Some (l0, bs0) → x ∈ l0 → x ∉ F' ++ l').
  { intros h l0 bs0 x Hh Hx. rewrite Hperm, elem_of_app. intros [HF|Hl]; [|by eapply Hap].
    by apply (r_used _ _ _ HR _ _ _ _ (Hw _ _ Hh) Hx). }
  split; [constructor|].
  - done.
  - intros h l0 bs0 Hh. destruct (r_packet _ _ _ HR _ _ _ (Hw _ _ Hh)) as [Hpk ?]. split; [|done].
    eapply packet_ext; [|exact Hpk]. intros x Hx. apply Hfr. rewrite <- Hperm. by eapply Hout.
  - intros h l0 bs0 x Hh Hx HF. eapply Hout; [exact Hh|exact Hx|]. apply elem_of_app. by left.
  - intros. eapply (r_apart _ _ _ HR); eauto.
  - intros h l0 bs0 x Hh Hx Hl. eapply Hout; [exact Hh|exact Hx|]. apply elem_of_app. by right.
Qed.

Lemma rep_add st F R l bs :
  rep st F R → packet (iobs st) l bs → apart R l → NoDup (F ++ l) → rep st F (<[first l NULL := (l, bs)]> R).
Proof.
  intros [H1 H2 H3 H4] Hpk Hap (_ & Hnd & _)%NoDup_app. constructor; [done|..].
  - intros h l0 bs0 [[<- [= <- <-]]|[_ Hh]]%lookup_insert_Some; [done|by apply H2].
  - intros h l0 bs0 x [[<- [= <- <-]]|[_ Hh]]%lookup_insert_Some Hx; [intros HF; by apply (Hnd x)|by eapply H3].
  - intros h1 l1 bs1 h2 l2 bs2 x [[<- [= <- <-]]|[_ Hh1]]%lookup_insert_Some [[<- [= <- <-]]|[_ Hh2]]%lookup_insert_Some Hx1 Hx2;
      [done|by destruct (Hap _ _ _ _ Hh2 Hx2)|by destruct (Hap _ _ _ _ Hh1 Hx1)|by eapply H4].
Qed.

Lemma apart_delete st F R h l bs : rep st F R → R !! h = Some (l, bs) → apart (delete h R) l.
Proof.
  intros HR Hh h0 l0 bs0 x [Hne Hh0]%lookup_delete_Some Hx Hl. apply Hne. by eapply (r_apart _ _ _ HR).
Qed.

Lemma apart_fresh st F R l bs : rep st F R → packet (iobs st) l bs → apart R l → R !! first l NULL = None.
Proof.
  intros HR Hpk Hap. destruct (R !! first l NULL) as [[l0 bs0]|] eqn:E; [|done]. exfalso.
  destruct (r_packet _ _ _ HR _ _ _ E) as [Hpk0 Hf]. destruct (packet_ne _ _ _ Hpk0) as [H0 _]. destruct (packet_ne _ _ _ Hpk) as [H1 _].
  destruct l0 as [|x0 l0], l as [|x1 l1]; try done. simpl in Hf. subst x0. eapply Hap; [exact E|by left|by left].
Qed.

(** A packet is replaced, dropped, or made. *)

Lemma rep_replace st F R h l bs st' F' l' bs' :
  rep st F R → R !! h = Some (l, bs) → outcome st F l st' F' l' → packet (iobs st') l' bs' →
  rep st' F' (<[first l' NULL := (l', bs')]> (delete h R)) ∧ delete h R !! first l' NULL = None.
Proof.
  intros HR Hh Ho Hpk. destruct (rep_frame st F R (delete h R) l st' F' l' HR) as [HR' Hap]; [apply delete_subseteq|by eapply apart_delete|done|].
  split; [apply rep_add; [done..|]; eapply outcome_nodup; [exact Ho|by eapply rep_nodup]|].
  by eapply apart_fresh.
Qed.

Lemma rep_drop st F R h l bs st' F' :
  rep st F R → R !! h = Some (l, bs) → outcome st F l st' F' [] → rep st' F' (delete h R).
Proof.
  intros HR Hh Ho. destruct (rep_frame st F R (delete h R) l st' F' [] HR) as [HR' Hap]; [apply delete_subseteq|by eapply apart_delete|done|done].
Qed.

Lemma rep_make st F R st' F' l' bs' :
  rep st F R → outcome st F [] st' F' l' → packet (iobs st') l' bs' →
  rep st' F' (<[first l' NULL := (l', bs')]> R) ∧ R !! first l' NULL = None.
Proof.
  intros HR Ho Hpk. destruct (rep_frame st F R R [] st' F' l' HR) as [HR' Hap]; [done|by intros ???? _ _ ?%not_elem_of_nil|done|].
  split; [apply rep_add; [done..|]; eapply outcome_nodup; [exact Ho|rewrite app_nil_r; apply (po_nodup _ _ (r_pool _ _ _ HR))]|].
  by eapply apart_fresh.
Qed.

End Packets.
(** ** Queues of containers

    [C]: for each queue its containers and the packets in them, in order; [FQ]: the free
    containers. *)

Section Containers.
Implicit Types (q : qpool_s) (H : gmap Z iob_queue_s) (FQ : list Z) (C : gmap Z (list (Z * Z))) (cs : list (Z * Z)).

Definition qlinks (m : gmap Z iob_qentry_s) : gmap Z Z := qe_flink <$> m.

(** The containers [cs] in a row. *)

Record row (m : gmap Z iob_qentry_s) cs : Prop := {
  w_chain : chain (qlinks m) cs.*1 NULL;
  w_nodup : NoDup cs.*1;
  w_heads c h : (c, h) ∈ cs → qe_head <$> m !! c = Some h
}.

Record qhead_is (h : iob_queue_s) cs : Prop := {
  k_head : qh_head h = first cs.*1 NULL;
  k_tail : cs ≠ [] → qh_tail h = first (reverse cs.*1) NULL
}.

Record qrep q H FQ C : Prop := {
  q_free : g_iob_freeqlist q = first FQ NULL;
  q_chain : chain (qlinks (qentries q)) FQ NULL;
  q_nodup : NoDup FQ;
  q_sem : g_qentry_sem q = Z.of_nat (length FQ);
  q_row k cs : C !! k = Some cs → row (qentries q) cs;
  q_head k cs : C !! k = Some cs → ∃ h, H !! k = Some h ∧ qhead_is h cs;
  q_used k cs c : C !! k = Some cs → c ∈ cs.*1 → c ∉ FQ;
  q_apart k1 cs1 k2 cs2 c : C !! k1 = Some cs1 → C !! k2 = Some cs2 → c ∈ cs1.*1 → c ∈ cs2.*1 → k1 = k2
}.

Definition unused C (c : Z) : Prop := ∀ k cs, C !! k = Some cs → c ∉ cs.*1.

Lemma row_ext m m' cs : (∀ c, c ∈ cs.*1 → m' !! c = m !! c) → row m cs → row m' cs.
Proof.
  intros Hx [H1 H2 H3]. constructor; [|done|].
  - eapply chain_ext; [|exact H1]. intros c Hc. unfold qlinks. by rewrite !lookup_fmap, Hx.
  - intros c h Hc. rewrite Hx; [by apply H3|]. by apply (list_elem_of_fmap_2 fst _ _ Hc).
Qed.

(** A container that is in no queue and not free changes. *)

Lemma qrep_set q H FQ C c e :
  qrep q H FQ C → c ∉ FQ → unused C c → qrep (set_qentries q (<[c := e]> (qentries q))) H FQ C.
Proof.
  intros [H1 H2 H3 H4 H5 H6 H7 H8] Hf Hu. constructor; simpl; try done.
  - unfold qlinks. rewrite fmap_insert. by apply chain_insert_ne.
  - intros k cs Hk. eapply row_ext; [|by eapply H5]. intros x Hx. rewrite lookup_insert_ne; [done|].
    intros ->. by eapply Hu.
Qed.

Lemma tryalloc_q q H FQ C :
  qrep q H FQ C →
  match FQ with
  | [] => iob_tryalloc_qentry q = Some (NULL, q)
  | c :: FQ' => ∃ q', iob_tryalloc_qentry q = Some (c, q') ∧ qrep q' H FQ' C ∧ c ≠ NULL ∧ (c ∉ FQ') ∧ unused C c ∧
      is_Some (qentries q' !! c)
  end.
Proof.
  intros HQ. pose proof HQ as [H1 H2 H3 H4 H5 H6 H7 H8]. unfold iob_tryalloc_qentry. rewrite H1.
  destruct FQ as [|c FQ]; [done|]. simpl in H2. destruct H2 as (Hc & Hl & H2). apply NoDup_cons in H3 as [Hn H3]. simpl first.
  rewrite (proj2 (Z.eqb_neq _ _) Hc). unfold qlinks in Hl. apply lookup_fmap_Some in Hl as (e & He & Hce).
  rewrite (deref_Some _ _ _ Hc Hce). cbn [mbind option_bind]. rewrite H4. simpl length.
  rewrite (proj2 (Z.leb_le _ _)) by lia. cbn [DEBUGASSERT mbind option_bind]. rewrite (update_Some _ _ _ _ Hc Hce).
  cbn [mbind option_bind]. eexists. split; [done|].
  assert (Hu : unused C c) by (intros k cs Hk Hin; apply (H7 k cs c Hk Hin); by left).
  split; [|split; [done|split; [done|split; [done|simpl; rewrite lookup_insert_eq; by eexists]]]].
  assert (HQ' : qrep (mk_qpool (qentries q) (qe_flink e) (g_iob_qcommitted q) (Z.of_nat (length (c :: FQ)) - 1)) H FQ C).
  { constructor; simpl; try done; [lia|]. intros k cs x Hk Hx. specialize (H7 k cs x Hk Hx). set_solver. }
  by apply (qrep_set _ _ _ _ c _ HQ').
Qed.

Lemma free_q q H FQ C c e :
  qrep q H FQ C → c ≠ NULL → qentries q !! c = Some e → c ∉ FQ → unused C c →
  ∃ q', iob_free_qentry q c = Some (qe_flink e, q') ∧ qrep q' H (c :: FQ) C ∧
    ∀ x, x ≠ c → qentries q' !! x = qentries q !! x.
Proof.
  intros HQ Hc He Hf Hu. unfold iob_free_qentry. rewrite (deref_Some _ _ _ Hc He). cbn [mbind option_bind].
  rewrite (q_sem _ _ _ _ HQ), (proj2 (Z.ltb_ge _ _)) by lia. rewrite (update_Some _ _ _ _ Hc He). cbn [mbind option_bind].
  eexists. split; [done|]. simpl. split; [|intros x Hx; by rewrite lookup_insert_ne].
  pose proof (qrep_set q H FQ C c (set_qe_flink (g_iob_freeqlist q) e) HQ Hf Hu) as [H1 H2 H3 H4 H5 H6 H7 H8].
  simpl in *. constructor; simpl; try done.
  - split; [done|]. split; [|done]. unfold qlinks. rewrite fmap_insert, lookup_insert_eq. simpl. by rewrite (q_free _ _ _ _ HQ).
  - by apply NoDup_cons.
  - lia.
  - intros k cs x Hk Hx [->|Hx']%elem_of_cons; [by eapply Hu|by eapply H7].
Qed.

(** One queue changes. *)

Lemma qrep_update q q' H FQ C k cs cs' h' :
  qrep q H FQ C → C !! k = Some cs → g_iob_freeqlist q' = g_iob_freeqlist q → g_qentry_sem q' = g_qentry_sem q →
  (∀ x, x ∉ cs.*1 → x ∉ cs'.*1 → qentries q' !! x = qentries q !! x) → row (qentries q') cs' → qhead_is h' cs' →
  (∀ c, c ∈ cs'.*1 → c ∈ cs.*1 ∨ (c ∉ FQ) ∧ unused C c) → qrep q' (<[k := h']> H) FQ (<[k := cs']> C).
Proof.
  intros [H1 H2 H3 H4 H5 H6 H7 H8] Hk Hf Hs Hx Hrow Hh Hin.
  assert (Hnew : ∀ c, c ∈ cs'.*1 → c ∉ FQ) by (intros c [Hc|[Hc _]]%Hin; [by eapply H7|done]).
  assert (Hold : ∀ k2 cs2 c, k2 ≠ k → C !! k2 = Some cs2 → c ∈ cs2.*1 → (c ∉ cs'.*1) ∧ (c ∉ cs.*1)).
  { intros k2 cs2 c Hne Hk2 Hc. assert (Hcs : c ∉ cs.*1) by (intros Hc'; apply Hne; by eapply H8).
    split; [|done]. intros [?|[_ Hu]]%Hin; [done|by eapply Hu]. }
  constructor; [congruence| |done|congruence|..].
  - eapply chain_ext; [|exact H2]. intros x HF. unfold qlinks. rewrite !lookup_fmap, Hx; [done| |]; intros Hc; [by eapply H7|by eapply Hnew].
  - intros k2 cs2 [[<- <-]|[Hne Hk2]]%lookup_insert_Some; [done|]. eapply row_ext; [|by eapply H5].
    intros c Hc. destruct (Hold k2 cs2 c); auto.
  - intros k2 cs2 [[<- <-]|[Hne Hk2]]%lookup_insert_Some; [exists h'; by rewrite lookup_insert_eq|].
    rewrite lookup_insert_ne by done. by apply H6.
  - intros k2 cs2 c [[<- <-]|[Hne Hk2]]%lookup_insert_Some Hc; [by apply Hnew|by eapply H7].
  - intros k1 cs1 k2 cs2 c [[<- <-]|[Hne1 Hk1]]%lookup_insert_Some [[<- <-]|[Hne2 Hk2]]%lookup_insert_Some Hc1 Hc2;
      [done|by destruct (Hold k2 cs2 c)|by destruct (Hold k1 cs1 c)|by eapply H8].
Qed.

Lemma row_tail m c h cs : row m ((c, h) :: cs) → row m cs ∧ (c ∉ cs.*1) ∧ (c ≠ NULL) ∧
  ∃ e, m !! c = Some e ∧ qe_flink e = first cs.*1 NULL ∧ qe_head e = h.
Proof.
  intros [H1 H2 H3]. simpl in *. destruct H1 as (Hc & Hl & H1). apply NoDup_cons in H2 as [Hn H2].
  split; [constructor; [done..|]; intros x hx Hx; apply H3; by right|]. split; [done|]. split; [done|].
  unfold qlinks in Hl. apply lookup_fmap_Some in Hl as (e & He & Hce). exists e. split; [done|]. split; [done|].
  specialize (H3 c h (list_elem_of_here _ _)). rewrite Hce in H3. by simplify_eq/=.
Qed.

Lemma row_one m c e : c ≠ NULL → m !! c = Some e → qe_flink e = NULL → row m [(c, qe_head e)].
Proof.
  intros Hc He Hf. constructor; simpl; [|apply NoDup_singleton|].
  - unfold qlinks. rewrite lookup_fmap, He. simpl. by rewrite Hf.
  - intros x h [[= -> ->]|[]%not_elem_of_nil]%elem_of_cons. by rewrite He.
Qed.

Lemma row_snoc m cs t ht c e :
  row m (cs ++ [(t, ht)]) → c ≠ NULL → c ∉ (cs ++ [(t, ht)]).*1 → m !! c = Some e → qe_flink e = NULL →
  ∃ et, m !! t = Some et ∧ t ≠ NULL ∧ row (<[t := set_qe_flink c et]> m) ((cs ++ [(t, ht)]) ++ [(c, qe_head e)]).
Proof.
  intros [H1 H2 H3] Hc Hn He Hf. rewrite fmap_app in *. simpl in *. apply chain_app in H1 as Hs. destruct Hs as [_ (Ht & Hl & _)].
  unfold qlinks in Hl. apply lookup_fmap_Some in Hl as (et & Hfe & Het). exists et. split; [done|]. split; [done|].
  assert (Htc : t ≠ c) by set_solver. apply NoDup_app in H2 as Hnd. destruct Hnd as (_ & Hnd & _).
  assert (Htn : t ∉ cs.*1) by (intros Hin; apply (Hnd t Hin); by left).
  constructor; rewrite ?fmap_app; simpl.
  - apply chain_app. simpl. split; [|split; [done|split; [|done]]].
    + unfold qlinks. rewrite fmap_insert. simpl. by eapply chain_set_last.
    + unfold qlinks. rewrite lookup_fmap, lookup_insert_ne, He by done. simpl. by rewrite Hf.
  - apply NoDup_app. split; [done|]. split; [|apply NoDup_singleton]. set_solver.
  - intros x h [Hx|[[= -> ->]|[]%not_elem_of_nil]%elem_of_cons]%elem_of_app; [|by rewrite lookup_insert_ne, He].
    specialize (H3 x h Hx). destruct (decide (x = t)) as [->|]; [|by rewrite lookup_insert_ne].
    rewrite lookup_insert_eq. by rewrite Het in H3.
Qed.

(** A container goes to the end of a queue, and the first one leaves it. *)

Lemma add_q (st : io_state) FQ C k cs c e hd :
  qrep (conts st) (queues st) FQ C → C !! k = Some cs → c ≠ NULL → qentries (conts st) !! c = Some e → c ∉ FQ → unused C c →
  ∃ q' h', iob_add_queue_internal st hd k c = Some (0, mk_io (bufs st) q' (<[k := h']> (queues st))) ∧
    qrep q' (<[k := h']> (queues st)) FQ (<[k := cs ++ [(c, hd)]]> C).
Proof.
  intros HQ Hk Hc He Hf Hu. destruct (q_head _ _ _ _ HQ k cs Hk) as (h & Hh & [Hhd Htl]).
  unfold iob_add_queue_internal. rewrite Hh. cbn [mbind option_bind]. rewrite (update_Some _ _ _ _ Hc He). cbn [mbind option_bind].
  rewrite update_again by done. cbn [mbind option_bind]. set (e1 := set_qe_flink NULL (set_qe_head hd e)). set (m1 := <[c := e1]> _).
  pose proof (qrep_set _ _ _ _ c e1 HQ Hf Hu) as HQ1. assert (Hm1 : m1 !! c = Some e1) by apply lookup_insert_eq.
  assert (Hcs : c ∉ cs.*1) by by eapply Hu. rewrite Hhd. destruct cs as [|[t ht] cs _] using rev_ind.
  - eexists _, _. split; [done|]. apply (qrep_update _ _ _ _ _ k [] _ _ HQ1 Hk); try done.
    + by apply (row_one m1 c e1).
    + intros x [->|[]%not_elem_of_nil]%elem_of_cons. by right.
  - destruct (row_snoc m1 cs t ht c e1) as (et & Het & Ht & Hrow); [by apply (q_row _ _ _ _ HQ1 k)|done..|].
    assert (Htail : qh_tail h = t) by (rewrite Htl by (by destruct cs); rewrite fmap_app, reverse_app; done).
    rewrite fmap_app, first_app. simpl. assert (Hfst : first cs.*1 t ≠ NULL).
    { destruct cs as [|[y hy] cs]; [done|]. simpl. apply (chain_nonzero _ _ _ y (w_chain _ _ (q_row _ _ _ _ HQ k _ Hk))).
      simpl. by left. }
    rewrite (proj2 (Z.eqb_neq _ _) Hfst), Htail, (proj2 (Z.eqb_neq _ _) Ht). cbn [negb DEBUGASSERT mbind option_bind].
    rewrite (update_Some _ _ _ _ Ht Het). cbn [mbind option_bind]. eexists _, _. split; [done|].
    apply (qrep_update _ _ _ _ _ k (cs ++ [(t, ht)]) _ _ HQ1 Hk); try done.
    + intros x Hx _. simpl. rewrite lookup_insert_ne; [done|]. intros ->. apply Hx. rewrite fmap_app. simpl. set_solver.
    + constructor; simpl; [by rewrite !fmap_app, !first_app|]. intros _. by rewrite !fmap_app, reverse_app.
    + intros x. rewrite fmap_app. intros [Hx|[->|[]%not_elem_of_nil]%elem_of_cons]%elem_of_app; [by left|by right].
Qed.

Lemma detach_q q H FQ C k c h cs hd :
  qrep q H FQ C → C !! k = Some ((c, h) :: cs) → qhead_is hd cs →
  qrep q (<[k := hd]> H) FQ (<[k := cs]> C) ∧ (c ∉ FQ) ∧ unused (<[k := cs]> C) c.
Proof.
  intros HQ Hk Hhd. destruct (row_tail _ _ _ _ (q_row _ _ _ _ HQ k _ Hk)) as (Hrow & Hn & Hc & _). split; [|split].
  - apply (qrep_update q q H FQ C k ((c, h) :: cs)); try done. intros x Hx. left. by right.
  - apply (q_used _ _ _ _ HQ k _ c Hk). by left.
  - intros k2 cs2 [[<- <-]|[Hne Hk2]]%lookup_insert_Some; [done|]. intros Hin.
    apply Hne. apply (q_apart _ _ _ _ HQ k ((c, h) :: cs) k2 cs2 c); [done|done|by left|done].
Qed.

End Containers.
(** ** What a client sees *)

(** The bytes of each packet by its address, and the packets in each queue. *)

Record packets := mk_packets { bytes : gmap Z (list Z); line : gmap Z (list Z) }.

Inductive op :=
  | Alloc (throttled : bool)
  | CopyIn (h : Z) (src : list Z) (o : Z) (throttled : bool)
  | CopyOut (h : Z) (dest : list Z) (len o : Z)
  | TrimHead (h t : Z)
  | TrimTail (h t : Z)
  | Contig (h len : Z)
  | Pack (h : Z)
  | Concat (h1 h2 : Z)
  | FreeChain (h : Z)
  | Enqueue (h k : Z)
  | Dequeue (k : Z)
  | Peek (k : Z)
  | TrimQueue (k t : Z)
  | FreeQueue (k : Z).

Section Session.
Context {cfg : IobConfig} {cfg_ok : IobConfigOk}.
Implicit Types (st : io_state) (b : iob_state) (S : packets) (h k : Z) (d : list Z).

(** The result of the call, and the data that the client has then: the user buffer after
    a copy, and the first bytes of the first buffer after [iob_contig]. *)

Definition on_bufs st (m : option (Z * iob_state)) : option (Z * list Z * io_state) :=
  '(r, b) ← m; Some (r, [], set_bufs st b).

Definition no_data (m : option (Z * io_state)) : option (Z * list Z * io_state) := '(r, st) ← m; Some (r, [], st).

Definition exec st (o : op) : option (Z * list Z * io_state) :=
  match o with
  | Alloc t => on_bufs st (iob_tryalloc (bufs st) t)
  | CopyIn h s o t => on_bufs st (iob_trycopyin (bufs st) h s (Z.of_nat (length s)) o t)
  | CopyOut h dest len o => '(r, d) ← iob_copyout (bufs st) dest h len o; Some (r, d, st)
  | TrimHead h t => on_bufs st (iob_trimhead (bufs st) h t)
  | TrimTail h t => on_bufs st (iob_trimtail (bufs st) h t)
  | Contig h len =>
      '(r, b) ← iob_contig (bufs st) h len;
      if r =? 0 then
        x ← deref (iobs b) h;
        d ← mem_read (io_data x) (io_offset x) len;
        Some (r, d, set_bufs st b)
      else Some (r, [], set_bufs st b)
  | Pack h => on_bufs st (iob_pack (bufs st) h)
  | Concat h1 h2 => b ← iob_concat (bufs st) h1 h2; Some (0, [], set_bufs st b)
  | FreeChain h => b ← iob_free_chain (bufs st) h; Some (0, [], set_bufs st b)
  | Enqueue h k => no_data (iob_tryadd_queue st h k)
  | Dequeue k => no_data (iob_remove_queue st k)
  | Peek k => r ← iob_peek_queue st k; Some (r, [], st)
  | TrimQueue k t => no_data (iob_trimhead_queue st k t)
  | FreeQueue k => st ← iob_free_queue st k; Some (0, [], st)
  end.

(** The rules: lengths are in range, and a packet in a queue is not freed, moved or queued
    again. *)

Definition in_line S h : Prop := map_Exists (λ _ hs, h ∈ hs) (line S).

#[export] Instance in_line_dec S h : Decision (in_line S h).
Proof. unfold in_line. apply _. Defined.

Definition len (d : list Z) : Z := Z.of_nat (length d).
Definition between (x lo hi : Z) : bool := (lo <=? x) && (x <? hi).
Definition loose S h : bool := bool_decide (is_Some (bytes S !! h)) && negb (bool_decide (in_line S h)).

Definition may S (o : op) : bool :=
  match o with
  | Alloc _ => true
  | CopyIn h s o _ => bool_decide (is_Some (bytes S !! h)) && (0 <=? o) && (o + len s <? 2 ^ 16)
  | CopyOut h dest n o =>
      match bytes S !! h with
      | Some d => between n 0 (2 ^ 32) && between o 0 (2 ^ 32) && (len (take (Z.to_nat n) (drop (Z.to_nat o) d)) <=? len dest)
      | None => false
      end
  | TrimHead h t => loose S h && between t 0 (2 ^ 32)
  | TrimTail h t => loose S h && between t 0 (2 ^ 31)
  | Contig h n => bool_decide (is_Some (bytes S !! h)) && between n 0 (CONFIG_IOB_BUFSIZE + 1)
  | Pack h | FreeChain h => loose S h
  | Concat h1 h2 =>
      loose S h2 && negb (h1 =? h2) &&
      match bytes S !! h1, bytes S !! h2 with Some d1, Some d2 => len d1 + len d2 <? 2 ^ 16 | _, _ => false end
  | Enqueue h k => loose S h && bool_decide (is_Some (line S !! k))
  | Dequeue k | Peek k | FreeQueue k => bool_decide (is_Some (line S !! k))
  | TrimQueue k t => bool_decide (is_Some (line S !! k)) && between t 0 (2 ^ 32)
  end.

(** What each operation does; [free] and [cfree] are the numbers of free buffers and
    containers after it. *)

Definition put h d S : packets := mk_packets (<[h := d]> (bytes S)) (line S).
Definition drop_packet h S : packets := mk_packets (delete h (bytes S)) (line S).
Definition set_line k hs S : packets := mk_packets (bytes S) (<[k := hs]> (line S)).

(** The packet [h] is at [h'] now. *)

Definition moves S h h' : Prop := h' ≠ NULL ∧ delete h (bytes S) !! h' = None.

Inductive pstep (free : bool → Z) (cfree : Z) S : op → Z → list Z → packets → Prop :=
  | p_alloc t h : bytes S !! h = None → h ≠ NULL → pstep free cfree S (Alloc t) h [] (put h [] S)
  | p_alloc_fails t : free t = 0 → pstep free cfree S (Alloc t) NULL [] S
  | p_copyin h d s o t : bytes S !! h = Some d → 0 ≤ o ≤ len d →
      pstep free cfree S (CopyIn h s o t) (len s) [] (put h (spliced d (Z.to_nat o) s (length s)) S)
  | p_copyin_part h d s o t j : bytes S !! h = Some d → 0 ≤ o ≤ len d → (j < length s)%nat → free t = 0 →
      pstep free cfree S (CopyIn h s o t) (- ENOMEM) [] (put h (spliced d (Z.to_nat o) s j) S)
  | p_copyin_past h d s o t : bytes S !! h = Some d → len d < o → pstep free cfree S (CopyIn h s o t) (- ESPIPE) [] S
  | p_copyout h d dest n o : bytes S !! h = Some d →
      let out := take (Z.to_nat n) (drop (Z.to_nat o) d) in
      pstep free cfree S (CopyOut h dest n o) (len out) (out ++ drop (length out) dest) S
  | p_trimhead h d t h' : bytes S !! h = Some d → moves S h h' →
      pstep free cfree S (TrimHead h t) h' [] (put h' (drop (Z.to_nat t) d) (drop_packet h S))
  | p_trimtail h d t h' : bytes S !! h = Some d → moves S h h' →
      pstep free cfree S (TrimTail h t) h' [] (put h' (take (Z.to_nat (len d - t)) d) (drop_packet h S))
  | p_trimtail_all h d t : bytes S !! h = Some d → take (Z.to_nat (len d - t)) d = [] →
      pstep free cfree S (TrimTail h t) NULL [] (drop_packet h S)
  | p_contig h d n : bytes S !! h = Some d → n ≤ len d → pstep free cfree S (Contig h n) 0 (take (Z.to_nat n) d) S
  | p_contig_short h d n : bytes S !! h = Some d → len d < n → pstep free cfree S (Contig h n) (- ENOSPC) [] S
  | p_pack h d h' : bytes S !! h = Some d → moves S h h' → pstep free cfree S (Pack h) h' [] (put h' d (drop_packet h S))
  | p_pack_empty h : bytes S !! h = Some [] → pstep free cfree S (Pack h) NULL [] (drop_packet h S)
  | p_concat h1 h2 d1 d2 : bytes S !! h1 = Some d1 → bytes S !! h2 = Some d2 →
      pstep free cfree S (Concat h1 h2) 0 [] (put h1 (d1 ++ d2) (drop_packet h2 S))
  | p_free h : pstep free cfree S (FreeChain h) 0 [] (drop_packet h S)
  | p_enqueue h k hs : line S !! k = Some hs → pstep free cfree S (Enqueue h k) 0 [] (set_line k (hs ++ [h]) S)
  | p_enqueue_fails h k : cfree = 0 → pstep free cfree S (Enqueue h k) (- ENOMEM) [] S
  | p_dequeue k h hs : line S !! k = Some (h :: hs) → pstep free cfree S (Dequeue k) h [] (set_line k hs S)
  | p_dequeue_none k : line S !! k = Some [] → pstep free cfree S (Dequeue k) NULL [] S
  | p_peek k hs : line S !! k = Some hs → pstep free cfree S (Peek k) (first hs NULL) [] S
  | p_trimqueue k h hs d t h' : line S !! k = Some (h :: hs) → bytes S !! h = Some d → moves S h h' →
      pstep free cfree S (TrimQueue k t) h' [] (set_line k (h' :: hs) (put h' (drop (Z.to_nat t) d) (drop_packet h S)))
  | p_trimqueue_none k t : line S !! k = Some [] → pstep free cfree S (TrimQueue k t) NULL [] S
  | p_freequeue k hs : line S !! k = Some hs →
      pstep free cfree S (FreeQueue k) 0 [] (set_line k [] (foldr drop_packet S hs)).

(** A client that follows the rules, from a state that it sees as [S]. *)

Fixpoint behaves st S (ops : list op) : Prop :=
  match ops with
  | [] => True
  | o :: ops =>
      may S o = true →
      ∃ r d st' S', exec st o = Some (r, d, st') ∧
        pstep (iob_navail (bufs st')) (iob_qentry_navail (conts st')) S o r d S' ∧ behaves st' S' ops
  end.

Definition start (heads : list Z) : packets := mk_packets ∅ (list_to_map ((λ k, (k, [])) <$> heads)).

End Session.
End IobSession.
