(* ===== verification/IobRefine.v ===== *)
(** * I/O buffers implement packets and queues

    The relation between the state of I/O buffering and what its client sees, and that
    every operation keeps it. *)

From S2P Require Import Prelude Queue Iob IobSpec IobTrim IobCopy IobMove IobProps IobQueue IobSession.

Module IobRefine.
Import Iob IobSpec IobTrim IobCopy IobMove IobProps IobQueue IobSession.

Section Refine.
Context {cfg : IobConfig} {cfg_ok : IobConfigOk}.
Implicit Types (st : io_state) (b : iob_state) (S : packets) (h k : Z) (d l F : list Z) (bs : list iob_s)
  (R : gmap Z (list Z * list iob_s)) (C : gmap Z (list (Z * Z))).

Definition seen R : gmap Z (list Z) := (λ p, content p.2) <$> R.

(** Packets are in at most one place of one queue. *)

Record line_ok S : Prop := {
  ln_known k hs h : line S !! k = Some hs → h ∈ hs → is_Some (bytes S !! h);
  ln_nodup k hs : line S !! k = Some hs → NoDup hs;
  ln_apart k1 hs1 k2 hs2 h : line S !! k1 = Some hs1 → line S !! k2 = Some hs2 → h ∈ hs1 → h ∈ hs2 → k1 = k2
}.

Record io_rep st S F R (FQ : list Z) C : Prop := {
  i_rep : rep (bufs st) F R;
  i_qrep : qrep (conts st) (queues st) FQ C;
  i_bytes : bytes S = seen R;
  i_line : line S = (λ cs, cs.*2) <$> C;
  i_ok : line_ok S
}.

Lemma seen_lookup R h d : seen R !! h = Some d ↔ ∃ l bs, R !! h = Some (l, bs) ∧ content bs = d.
Proof.
  unfold seen. rewrite lookup_fmap_Some. split; [intros ([l bs] & <- & Hh); by exists l, bs|].
  intros (l & bs & Hh & <-). by exists (l, bs).
Qed.

Lemma navail_zero b F throttled : pool_ok b F → refused F throttled → iob_navail b throttled = 0.
Proof.
  intros Hp Hr. unfold iob_navail. rewrite (po_sem _ _ Hp). destruct Hr as [->|(-> & Ht & Hl)].
  - cbn [length Z.of_nat]. destruct ((0 <? CONFIG_IOB_THROTTLE) && throttled) eqn:E; [|done].
    rewrite (proj2 (Z.ltb_lt _ _)); [done|]. bool_to_prop. lia.
  - rewrite (proj2 (Z.ltb_lt _ _) Ht). simpl. case_if; lia.
Qed.

(** A packet that keeps its address changes its bytes. *)

Lemma line_put S h d : line_ok S → line_ok (put h d S).
Proof.
  intros [H1 H2 H3]. constructor; simpl; [|done|done]. intros k hs h' Hk Hh.
  destruct (decide (h' = h)) as [->|]; [rewrite lookup_insert_eq; by eexists|rewrite lookup_insert_ne by done; by eapply H1].
Qed.

Lemma line_drop S h : line_ok S → (¬ in_line S h) → line_ok (drop_packet h S).
Proof.
  intros [H1 H2 H3] Hn. constructor; simpl; [|done|done]. intros k hs h' Hk Hh.
  rewrite lookup_delete_ne; [by eapply H1|]. intros ->. apply Hn. exists k, hs. done.
Qed.

Lemma rep_same_head b F R h l bs b' F' l' bs' :
  rep b F R → R !! h = Some (l, bs) → outcome b F l b' F' (h :: l') → packet (iobs b') (h :: l') bs' →
  rep b' F' (<[h := (h :: l', bs')]> R).
Proof.
  intros HR Hh Ho Hpk. destruct (rep_replace b F R h l bs b' F' (h :: l') bs' HR Hh Ho Hpk) as [HR' _].
  simpl in HR'. by rewrite insert_delete_eq in HR'.
Qed.

(** The first packet of a queue moves. *)

Lemma line_rename S k h hs h' d :
  line_ok S → line S !! k = Some (h :: hs) → moves S h h' → line_ok (set_line k (h' :: hs) (put h' d (drop_packet h S))).
Proof.
  intros [H1 H2 H3] Hk [_ Hm]. pose proof (H2 k _ Hk) as Hnd. apply NoDup_cons in Hnd as [Hh Hnd].
  assert (Hne : ∀ k2 hs2 y, line S !! k2 = Some hs2 → y ∈ hs2 → y ≠ h → y ≠ h').
  { intros k2 hs2 y Hk2 Hy Hyh ->. destruct (H1 k2 hs2 h' Hk2 Hy) as [d0 Hd]. by rewrite lookup_delete_ne, Hd in Hm. }
  assert (Hhs : ∀ y, y ∈ hs → y ≠ h ∧ y ≠ h').
  { intros y Hy. assert (y ≠ h) by (by intros ->). split; [done|]. eapply Hne; [exact Hk|by right|done]. }
  assert (Hoth : ∀ k2 hs2 y, k2 ≠ k → line S !! k2 = Some hs2 → y ∈ hs2 → (y ∉ h' :: hs) ∧ y ≠ h ∧ y ≠ h').
  { intros k2 hs2 y Hk2 Hl2 Hy. assert (Hx : y ∉ h :: hs) by (intros Hin; apply Hk2; by eapply H3).
    apply not_elem_of_cons in Hx as [Hx1 Hx2]. assert (y ≠ h') by by eapply Hne. split; [|done]. by apply not_elem_of_cons. }
  constructor; simpl.
  - intros k2 hs2 y [[<- <-]|[Hn Hk2]]%lookup_insert_Some Hy.
    + apply elem_of_cons in Hy as [->|Hy]; [rewrite lookup_insert_eq; by eexists|]. destruct (Hhs y Hy).
      rewrite lookup_insert_ne, lookup_delete_ne by done. eapply H1; [exact Hk|by right].
    + destruct (Hoth k2 hs2 y ltac:(done) Hk2 Hy) as (_ & ? & ?). rewrite lookup_insert_ne, lookup_delete_ne by done. by eapply H1.
  - intros k2 hs2 [[<- <-]|[Hn Hk2]]%lookup_insert_Some; [|by eapply H2]. apply NoDup_cons. split; [|done].
    intros Hin. by destruct (Hhs h' Hin).
  - intros k1 hs1 k2 hs2 y [[<- <-]|[Hn1 Hk1]]%lookup_insert_Some [[<- <-]|[Hn2 Hk2]]%lookup_insert_Some Hy1 Hy2;
      [done|by destruct (Hoth k2 hs2 y)|by destruct (Hoth k1 hs1 y)|by eapply H3].
Qed.

Lemma row_set_head m c h cs e h' :
  row m ((c, h) :: cs) → m !! c = Some e → row (<[c := set_qe_head h' e]> m) ((c, h') :: cs).
Proof.
  intros Hr He. destruct (row_tail _ _ _ _ Hr) as (Hr' & Hn & Hc & e0 & He0 & Hfl & _). simplify_eq.
  assert (Hr2 : row (<[c := set_qe_head h' e]> m) cs).
  { eapply row_ext; [|exact Hr']. intros x Hx. rewrite lookup_insert_ne; [done|]. by intros ->. }
  destruct Hr2 as [H1 H2 H3]. constructor; simpl.
  - split; [done|]. split; [|done]. unfold qlinks. rewrite lookup_fmap, lookup_insert_eq. simpl. by rewrite Hfl.
  - by apply NoDup_cons.
  - intros x y [[= -> ->]|Hx]%elem_of_cons; [by rewrite lookup_insert_eq|by apply H3].
Qed.

Lemma free_queue_loop_ok fuel b q F R FQ C H (cs : list (Z * Z)) :
  rep b F R → qrep q H FQ C → row (qentries q) cs → (∀ c, c ∈ cs.*1 → (c ∉ FQ) ∧ unused C c) →
  (∀ h, h ∈ cs.*2 → is_Some (R !! h)) → NoDup cs.*2 → (length cs < fuel)%nat →
  ∃ b' q' F' FQ', iob_free_queue_loop fuel b q (first cs.*1 NULL) = Some (b', q') ∧
    rep b' F' (foldr delete R cs.*2) ∧ qrep q' H FQ' C.
Proof.
  revert b q F R FQ cs. induction fuel as [|fuel IH]; intros b q F R FQ cs HR HQ Hrow Hcs Hhs Hnd Hfuel; [lia|].
  destruct cs as [|[c h] cs]; [by exists b, q, F, FQ|]. simpl in Hfuel, Hnd. apply NoDup_cons in Hnd as [Hh Hnd].
  destruct (row_tail _ _ _ _ Hrow) as (Hrow' & Hn & Hc & e & He & Hfl & Heh). cbn [iob_free_queue_loop fmap list_fmap fst snd first].
  rewrite (proj2 (Z.eqb_neq _ _) Hc). cbn [negb]. rewrite (deref_Some _ _ _ Hc He). cbn [mbind option_bind]. rewrite Heh.
  destruct (Hhs h) as [[l bs] Hl]; [by left|]. destruct (r_packet _ _ _ HR _ _ _ Hl) as [Hpk Hf].
  assert (Hh0 : h ≠ NULL).
  { destruct (packet_ne _ _ _ Hpk). destruct l as [|x l]; [done|]. simpl in Hf. subst x.
    apply (linked_nonzero _ _ _ h (pk_linked _ _ _ Hpk)). by left. }
  rewrite (proj2 (Z.eqb_neq _ _) Hh0). cbn [negb DEBUGASSERT mbind option_bind].
  destruct (Hcs c) as [Hf' Hu]; [by left|]. destruct (free_q q H FQ C c e HQ Hc He Hf' Hu) as (q1 & -> & HQ1 & Hx). cbn [mbind option_bind].
  destruct (iob_free_chain_spec b F l bs (r_pool _ _ _ HR) (rep_nodup _ _ _ _ _ _ HR Hl) Hpk) as (b1 & E & Ho).
  rewrite Hf in E. rewrite E. cbn [mbind option_bind]. rewrite Hfl.
  destruct (IH b1 q1 (reverse l ++ F) (delete h R) (c :: FQ) cs) as (b' & q' & F' & FQ' & -> & HR' & HQ').
  - by eapply rep_drop.
  - done.
  - eapply row_ext; [|exact Hrow']. intros x Hin. apply Hx. by intros ->.
  - intros x Hin. destruct (Hcs x) as [? ?]; [by right|]. split; [|done]. apply not_elem_of_cons. split; [|done]. by intros ->.
  - intros y Hy. rewrite lookup_delete_ne by (by intros ->). apply Hhs. by right.
  - done.
  - lia.
  - exists b', q', F', FQ'. split; [done|]. split; [|done]. by rewrite <- delete_foldr_delete in HR'.
Qed.

Lemma bytes_dropped S hs : bytes (foldr drop_packet S hs) = foldr delete (bytes S) hs ∧ line (foldr drop_packet S hs) = line S.
Proof. induction hs as [|h hs [IH1 IH2]]; [done|]. simpl. by rewrite IH1. Qed.

Lemma line_emptied S k hs : line_ok S → line S !! k = Some hs → line_ok (set_line k [] (foldr drop_packet S hs)).
Proof.
  intros [H1 H2 H3] Hk. destruct (bytes_dropped S hs) as [Hb Hl]. constructor; simpl; rewrite ?Hb, ?Hl.
  - intros k2 hs2 h [[<- <-]|[Hn Hk2]]%lookup_insert_Some Hh; [by apply not_elem_of_nil in Hh|].
    rewrite lookup_foldr_delete_not_elem_of; [by eapply H1|]. intros Hin. apply Hn. by eapply H3.
  - intros k2 hs2 [[<- <-]|[Hn Hk2]]%lookup_insert_Some; [apply NoDup_nil_2|by eapply H2].
  - intros k1 hs1 k2 hs2 h [[<- <-]|[_ Hk1]]%lookup_insert_Some [[<- <-]|[_ Hk2]]%lookup_insert_Some Hh1 Hh2;
      [done|by apply not_elem_of_nil in Hh1|by apply not_elem_of_nil in Hh2|by eapply H3].
Qed.

Lemma seen_dropped R hs : seen (foldr delete R hs) = foldr delete (seen R) hs.
Proof. unfold seen. induction hs as [|h hs IH]; [done|]. simpl. by rewrite fmap_delete, IH. Qed.

Section Ops.
Context (st : io_state) (S : packets) (F : list Z) (R : gmap Z (list Z * list iob_s)) (FQ : list Z) (C : gmap Z (list (Z * Z))).
Context (HI : io_rep st S F R FQ C).

Lemma known h d : bytes S !! h = Some d →
  ∃ x l n bs, R !! h = Some (x :: l, n :: bs) ∧ content (n :: bs) = d ∧ h = x ∧ x ≠ NULL ∧
    packet (iobs (bufs st)) (x :: l) (n :: bs) ∧ NoDup (F ++ x :: l).
Proof.
  rewrite (i_bytes _ _ _ _ _ _ HI), seen_lookup. intros (l & bs & Hh & Hc).
  destruct (r_packet _ _ _ (i_rep _ _ _ _ _ _ HI) _ _ _ Hh) as [Hpk Hf]. destruct (packet_ne _ _ _ Hpk).
  pose proof (rep_nodup _ _ _ _ _ _ (i_rep _ _ _ _ _ _ HI) Hh) as Hnd.
  destruct l as [|x l], bs as [|n bs]; try done. exists x, l, n, bs. simpl in Hf.
  split; [done|]. split; [done|]. split; [done|]. split; [|done].
  apply (linked_nonzero _ _ _ x (pk_linked _ _ _ Hpk)). by left.
Qed.

(** The buffers change, the queues do not. *)

Lemma bufs_change b' S' F' R' :
  rep b' F' R' → bytes S' = seen R' → line S' = line S → line_ok S' → io_rep (set_bufs st b') S' F' R' FQ C.
Proof. intros HR Hb Hl Hok. destruct HI as [_ HQ _ HL _]. constructor; [done|done|done|congruence|done]. Qed.

Lemma put_change b' F' h l' bs' d' :
  rep b' F' (<[h := (l', bs')]> R) → content bs' = d' →
  io_rep (set_bufs st b') (put h d' S) F' (<[h := (l', bs')]> R) FQ C.
Proof.
  intros HR <-. apply bufs_change; [done| |done|by apply line_put, HI].
  simpl. rewrite (i_bytes _ _ _ _ _ _ HI). unfold seen. by rewrite fmap_insert.
Qed.

Lemma move_change b' F' h l bs l' bs' d' :
  R !! h = Some (l, bs) → (¬ in_line S h) → outcome (bufs st) F l b' F' l' → packet (iobs b') l' bs' → content bs' = d' →
  moves S h (first l' NULL) ∧
  io_rep (set_bufs st b') (put (first l' NULL) d' (drop_packet h S)) F' (<[first l' NULL := (l', bs')]> (delete h R)) FQ C.
Proof.
  intros Hh Hn Ho Hpk <-. destruct (rep_replace _ F R h l bs b' F' l' bs' (i_rep _ _ _ _ _ _ HI) Hh Ho Hpk) as [HR' Hfr]. split.
  - destruct (packet_ne _ _ _ Hpk) as [Hl _]. split.
    + destruct l' as [|x l']; [done|]. apply (linked_nonzero _ _ _ x (pk_linked _ _ _ Hpk)). by left.
    + rewrite (i_bytes _ _ _ _ _ _ HI). unfold seen. by rewrite <- fmap_delete, lookup_fmap, Hfr.
  - apply bufs_change; [done| |done|apply line_put, line_drop; [apply HI|done]].
    simpl. rewrite (i_bytes _ _ _ _ _ _ HI). unfold seen. by rewrite fmap_insert, fmap_delete.
Qed.

Lemma drop_change b' F' h l bs :
  R !! h = Some (l, bs) → (¬ in_line S h) → outcome (bufs st) F l b' F' [] →
  io_rep (set_bufs st b') (drop_packet h S) F' (delete h R) FQ C.
Proof.
  intros Hh Hn Ho. pose proof (rep_drop _ F R h l bs b' F' (i_rep _ _ _ _ _ _ HI) Hh Ho) as HR'.
  apply bufs_change; [done| |done|apply line_drop; [apply HI|done]].
  simpl. rewrite (i_bytes _ _ _ _ _ _ HI). unfold seen. by rewrite fmap_delete.
Qed.

Definition good st' S' : Prop := ∃ F R FQ C, io_rep st' S' F R FQ C.

Definition does (o : op) : Prop :=
  ∃ r d st' S', exec st o = Some (r, d, st') ∧
    pstep (iob_navail (bufs st')) (iob_qentry_navail (conts st')) S o r d S' ∧ good st' S'.

Lemma here : good st S.
Proof. by exists F, R, FQ, C. Qed.

Lemma here_bufs : set_bufs st (bufs st) = st.
Proof. by destruct st. Qed.

Lemma pool_here : pool_ok (bufs st) F.
Proof. apply (r_pool _ _ _ (i_rep _ _ _ _ _ _ HI)). Qed.

Lemma loose_inv h : loose S h = true → ∃ d, bytes S !! h = Some d ∧ ¬ in_line S h.
Proof.
  unfold loose. intros [[d Hd]%bool_decide_eq_true Hn%negb_true_iff%bool_decide_eq_false]%andb_true_iff. by exists d.
Qed.

Lemma does_alloc t : does (Alloc t).
Proof.
  pose proof (iob_tryalloc_spec (bufs st) F t pool_here) as Ha. destruct (decide (refused F t)) as [Hr|Hr].
  - exists NULL, [], st, S. simpl. rewrite Ha. cbn [on_bufs mbind option_bind]. rewrite here_bufs. split; [done|].
    split; [|apply here]. apply p_alloc_fails. by eapply navail_zero; [apply pool_here|].
  - destruct Ha as (x & F' & n & b' & HF & E & Ho & Hpk & Hc & _). simpl. unfold does. simpl. rewrite E.
    destruct (rep_make _ F R b' F' [x] [n] (i_rep _ _ _ _ _ _ HI) Ho Hpk) as [HR' Hfr]. simpl in HR', Hfr.
    eexists _, _, _, (put x [] S). split; [done|]. split.
    + apply p_alloc; [rewrite (i_bytes _ _ _ _ _ _ HI); unfold seen; by rewrite lookup_fmap, Hfr|].
      apply (linked_nonzero _ _ _ x (pk_linked _ _ _ Hpk)). by left.
    + eexists _, _, _, _. by apply put_change.
Qed.

Lemma does_copyin h s o t : may S (CopyIn h s o t) = true → does (CopyIn h s o t).
Proof.
  unfold may. rewrite !andb_true_iff, bool_decide_eq_true. intros [[[d Hd] Ho] Hmax]. unfold len in Hmax.
  destruct (known h d Hd) as (x & l & n & bs & Hh & <- & -> & Hx & Hpk & Hnd). unfold does. simpl.
  destruct (iob_trycopyin_spec (bufs st) F (x :: l) (n :: bs) s o t pool_here Hnd Hpk) as [_ Hc]; [lia|lia|].
  simpl first in Hc. destruct (decide (o ≤ clen (n :: bs))) as [Hle|Hgt].
  - destruct Hc as (ret & b' & F' & l' & bs' & j & -> & Hoc & Hpk' & Hct & Hret).
    eexists _, _, _, (put x (spliced (content (n :: bs)) (Z.to_nat o) s j) S). split; [done|].
    pose proof (rep_same_head _ F R x (x :: l) (n :: bs) b' F' (l ++ l') bs' (i_rep _ _ _ _ _ _ HI) Hh Hoc Hpk') as HR'. split.
    + destruct Hret as [[-> ->]|(-> & Hj & Hr)].
      * by apply (p_copyin _ _ _ x (content (n :: bs)) s o t); [|unfold clen, len in *; lia].
      * apply (p_copyin_part _ _ _ x (content (n :: bs)) s o t j); [done|unfold clen, len in *; lia|done|].
        simpl. by eapply navail_zero; [apply (oc_pool _ _ _ _ _ _ Hoc)|].
    + eexists _, _, _, _. by apply put_change.
  - rewrite Hc. eexists _, _, _, S. split; [done|]. rewrite here_bufs. split; [|apply here].
    eapply p_copyin_past; [done|]. unfold clen, len in *. lia.
Qed.

Lemma does_copyout h dest n o : may S (CopyOut h dest n o) = true → does (CopyOut h dest n o).
Proof.
  unfold may, between. destruct (bytes S !! h) as [d|] eqn:Hd; [|done]. rewrite !andb_true_iff. intros [[[H1 H2] [H3 H4]] H5].
  destruct (known h d Hd) as (x & l & c & bs & Hh & Hc & -> & Hx & Hpk & Hnd). unfold does. simpl. unfold len in H5.
  pose proof (iob_copyout_spec (bufs st) dest (x :: l) (c :: bs) n o Hpk) as Ho. rewrite Hc in Ho. simpl first in Ho.
  rewrite Ho by lia. eexists _, _, _, S. split; [done|]. split; [by apply p_copyout|apply here].
Qed.

Lemma does_trimhead h t : may S (TrimHead h t) = true → does (TrimHead h t).
Proof.
  unfold may, between. rewrite !andb_true_iff. intros [(d & Hd & Hn)%loose_inv [H1 H2]].
  destruct (known h d Hd) as (x & l & c & bs & Hh & <- & -> & Hx & Hpk & Hnd). unfold does. simpl.
  destruct (iob_trimhead_spec (bufs st) F (x :: l) (c :: bs) t pool_here Hnd Hpk) as (b' & F' & l' & bs' & E & Ho & Hpk' & Hc); [lia|].
  simpl first in E. rewrite E. destruct (move_change b' F' x _ _ l' bs' _ Hh Hn Ho Hpk' Hc) as [Hm HI'].
  eexists _, _, _, _. split; [done|]. split; [by apply p_trimhead|by eexists _, _, _, _].
Qed.

Lemma does_trimtail h t : may S (TrimTail h t) = true → does (TrimTail h t).
Proof.
  unfold may, between. rewrite !andb_true_iff. intros [(d & Hd & Hn)%loose_inv [H1 H2]].
  destruct (known h d Hd) as (x & l & c & bs & Hh & <- & -> & Hx & Hpk & Hnd). unfold does. simpl.
  destruct (iob_trimtail_spec (bufs st) F (x :: l) (c :: bs) t pool_here Hnd Hpk) as (b' & F' & l' & bs' & E & Ho & Hpk' & Hc); [lia|].
  simpl first in E. rewrite E. destruct Hpk' as [[-> ->]|Hpk'].
  - eexists _, _, _, _. split; [done|]. split; [by apply (p_trimtail_all _ _ _ x (content (c :: bs)))|].
    eexists _, _, _, _. by eapply drop_change.
  - destruct (move_change b' F' x _ _ l' bs' _ Hh Hn Ho Hpk' Hc) as [Hm HI'].
    eexists _, _, _, _. split; [done|]. split; [by apply (p_trimtail _ _ _ x (content (c :: bs)))|by eexists _, _, _, _].
Qed.

Lemma does_pack h : may S (Pack h) = true → does (Pack h).
Proof.
  unfold may. intros (d & Hd & Hn)%loose_inv.
  destruct (known h d Hd) as (x & l & c & bs & Hh & <- & -> & Hx & Hpk & Hnd). unfold does. simpl.
  destruct (iob_pack_spec (bufs st) F (x :: l) (c :: bs) pool_here Hnd Hpk) as (b' & F' & l' & bs' & E & Ho & Hpk' & Hc & _).
  simpl first in E. rewrite E. destruct Hpk' as [[-> ->]|Hpk'].
  - eexists _, _, _, _. split; [done|]. split; [apply p_pack_empty; by rewrite Hd, <- Hc|].
    eexists _, _, _, _. by eapply drop_change.
  - destruct (move_change b' F' x _ _ l' bs' _ Hh Hn Ho Hpk' Hc) as [Hm HI'].
    eexists _, _, _, _. split; [done|]. split; [by apply p_pack|by eexists _, _, _, _].
Qed.

Lemma does_free h : may S (FreeChain h) = true → does (FreeChain h).
Proof.
  unfold may. intros (d & Hd & Hn)%loose_inv.
  destruct (known h d Hd) as (x & l & c & bs & Hh & <- & -> & Hx & Hpk & Hnd). unfold does. simpl.
  destruct (iob_free_chain_spec (bufs st) F (x :: l) (c :: bs) pool_here Hnd Hpk) as (b' & E & Ho).
  simpl first in E. rewrite E. eexists _, _, _, _. split; [done|]. split; [apply p_free|].
  eexists _, _, _, _. by eapply drop_change.
Qed.

Lemma does_contig h n : may S (Contig h n) = true → does (Contig h n).
Proof.
  unfold may, between. rewrite !andb_true_iff, bool_decide_eq_true. intros [[d Hd] [H1 H2]].
  destruct (known h d Hd) as (x & l & c & bs & Hh & <- & -> & Hx & Hpk & Hnd). unfold does. simpl.
  pose proof (iob_contig_spec (bufs st) F (x :: l) (c :: bs) n pool_here Hnd Hpk ltac:(lia)) as Hc. simpl first in Hc.
  destruct (decide (n ≤ clen (c :: bs))) as [Hle|Hgt].
  - destruct Hc as (b' & F' & l' & c' & bs' & -> & Ho & Hpk' & Hct & Hlen). cbn [mbind option_bind Z.eqb].
    pose proof (pk_nodes _ _ _ Hpk') as Hnodes. apply Forall2_cons in Hnodes as [Hb' _]. rewrite (deref_Some _ _ _ Hx Hb').
    cbn [mbind option_bind]. pose proof (pk_ok _ _ _ Hpk') as Hok. apply Forall_cons in Hok as [[O1 O2 O3 O4] _].
    unfold mem_read. rewrite (proj2 (Z.leb_le 0 (io_offset c'))), (proj2 (Z.leb_le 0 n)), (proj2 (Z.leb_le _ _)) by lia.
    cbn [mbind option_bind andb]. eexists _, _, _, S. split; [done|]. split.
    + replace (take (Z.to_nat n) _) with (take (Z.to_nat n) (content (c :: bs))); [apply p_contig; [done|exact Hle]|].
      rewrite <- Hct, content_cons. unfold payload. rewrite take_app_le by (rewrite length_take, length_drop; lia).
      rewrite take_take. f_equal. lia.
    + eexists _, _, _, _. pose proof (rep_same_head _ F R x _ _ b' F' l' _ (i_rep _ _ _ _ _ _ HI) Hh Ho Hpk') as HR'.
      apply bufs_change; [exact HR'| |done|apply HI]. unfold seen. rewrite fmap_insert. cbn [snd]. rewrite Hct, insert_id; [apply HI|].
      by rewrite lookup_fmap, Hh.
  - rewrite Hc. cbn [mbind option_bind]. eexists _, _, _, S. split; [done|]. rewrite here_bufs. split; [|apply here].
    eapply p_contig_short; [done|]. unfold clen, len in *. lia.
Qed.

Lemma does_concat h1 h2 : may S (Concat h1 h2) = true → does (Concat h1 h2).
Proof.
  unfold may. rewrite !andb_true_iff. intros [[(d2 & Hd2 & Hn)%loose_inv Hne] Hmax]. rewrite Hd2 in Hmax.
  destruct (bytes S !! h1) as [d1|] eqn:Hd1; [|done].
  destruct (known h1 d1 Hd1) as (x1 & l1 & c1 & bs1 & Hh1 & <- & -> & Hx1 & Hpk1 & Hnd1).
  destruct (known h2 d2 Hd2) as (x2 & l2 & c2 & bs2 & Hh2 & <- & -> & Hx2 & Hpk2 & Hnd2). unfold does. simpl.
  pose proof (i_rep _ _ _ _ _ _ HI) as HR. assert (Hx : x1 ≠ x2) by lia.
  assert (Hnd : NoDup (F ++ (x1 :: l1) ++ x2 :: l2)).
  { rewrite app_assoc. apply NoDup_app. split; [done|]. apply NoDup_app in Hnd2 as (_ & HF & ?). split; [|done].
    intros y [Hy|Hy]%elem_of_app Hy2; [by apply (HF y)|]. by apply Hx, (r_apart _ _ _ HR _ _ _ _ _ _ y Hh1 Hh2). }
  destruct (iob_concat_spec (bufs st) F (x1 :: l1) (c1 :: bs1) (x2 :: l2) (c2 :: bs2) pool_here Hnd Hpk1 Hpk2) as (b' & bs' & E & Ho & Hpk' & Hc);
    [unfold clen, len in *; lia|].
  simpl first in E. rewrite E. cbn [mbind option_bind].
  set (R0 := delete x1 (delete x2 R)).
  destruct (rep_frame _ F R R0 ((x1 :: l1) ++ x2 :: l2) b' F ((x1 :: l1) ++ x2 :: l2) HR) as [HR0 Hap]; [..|exact Ho|].
  { etransitivity; apply delete_subseteq. }
  { intros y l0 b0 z [Hy1 [Hy2 Hy]%lookup_delete_Some]%lookup_delete_Some Hz [Hz1|Hz2]%elem_of_app;
      [by apply Hy1, (r_apart _ _ _ HR _ _ _ _ _ _ z Hh1 Hy)|by apply Hy2, (r_apart _ _ _ HR _ _ _ _ _ _ z Hh2 Hy)]. }
  pose proof (rep_add b' F R0 _ bs' HR0 Hpk' Hap Hnd) as HR'. unfold R0 in HR'. simpl first in HR'. rewrite insert_delete_eq in HR'.
  eexists _, _, _, _. split; [done|]. split; [by apply p_concat|]. eexists _, _, _, _.
  apply bufs_change; [exact HR'| |done|apply line_put, line_drop; [apply HI|done]].
  simpl. rewrite (i_bytes _ _ _ _ _ _ HI). unfold seen. by rewrite fmap_insert, fmap_delete, <- Hc.
Qed.

(** ** Queues *)

Lemma line_known k hs : line S !! k = Some hs → ∃ cs hd, C !! k = Some cs ∧ hs = cs.*2 ∧ queues st !! k = Some hd ∧
  qhead_is hd cs ∧ row (qentries (conts st)) cs.
Proof.
  rewrite (i_line _ _ _ _ _ _ HI), lookup_fmap. destruct (C !! k) as [cs|] eqn:E; [|done]. intros [= <-].
  destruct (q_head _ _ _ _ (i_qrep _ _ _ _ _ _ HI) k cs E) as (hd & Hk & Hh). exists cs, hd.
  split_and!; [done..|]. by apply (q_row _ _ _ _ (i_qrep _ _ _ _ _ _ HI) k).
Qed.

Lemma does_peek k : may S (Peek k) = true → does (Peek k).
Proof.
  intros [hs Hk]%bool_decide_eq_true. destruct (line_known k hs Hk) as (cs & hd & HC & -> & Hq & [Hh _] & Hrow).
  unfold does. simpl. unfold iob_peek_queue. rewrite Hq. cbn [mbind option_bind]. rewrite Hh. destruct cs as [|[c h] cs].
  - eexists _, _, _, S. split; [done|]. split; [by apply (p_peek _ _ _ k [])|apply here].
  - destruct (row_tail _ _ _ _ Hrow) as (_ & _ & Hc & e & He & _ & Heh). simpl first. rewrite (proj2 (Z.eqb_neq _ _) Hc).
    cbn [negb]. rewrite (deref_Some _ _ _ Hc He). cbn [mbind option_bind]. rewrite Heh.
    eexists _, _, _, S. split; [done|]. split; [by apply (p_peek _ _ _ k (h :: cs.*2))|apply here].
Qed.

Lemma line_set k hs hs' :
  line S !! k = Some hs → NoDup hs' → (∀ h, h ∈ hs' → is_Some (bytes S !! h) ∧ (h ∈ hs ∨ ¬ in_line S h)) →
  line_ok (set_line k hs' S).
Proof.
  intros Hk Hnd Hin. destruct (i_ok _ _ _ _ _ _ HI) as [H1 H2 H3].
  assert (Hold : ∀ k2 hs2 h, k2 ≠ k → line S !! k2 = Some hs2 → h ∈ hs2 → h ∉ hs').
  { intros k2 hs2 h Hne Hk2 Hh Hh'. destruct (Hin h Hh') as [_ [Hx|Hx]]; [apply Hne; by eapply H3|]. apply Hx. by exists k2, hs2. }
  constructor; simpl.
  - intros k2 hs2 h [[<- <-]|[_ Hk2]]%lookup_insert_Some Hh; [by apply Hin|by eapply H1].
  - intros k2 hs2 [[<- <-]|[_ Hk2]]%lookup_insert_Some; [done|by eapply H2].
  - intros k1 hs1 k2 hs2 h [[<- <-]|[Hn1 Hk1]]%lookup_insert_Some [[<- <-]|[Hn2 Hk2]]%lookup_insert_Some Hh1 Hh2;
      [done|by destruct (Hold k2 hs2 h)|by destruct (Hold k1 hs1 h)|by eapply H3].
Qed.

(** The queues change, the buffers do not. *)

Lemma queue_change q' H' FQ' k hs cs' :
  line S !! k = Some hs → qrep q' H' FQ' (<[k := cs']> C) → line_ok (set_line k cs'.*2 S) →
  good (mk_io (bufs st) q' H') (set_line k cs'.*2 S).
Proof.
  intros Hk HQ Hok. exists F, R, FQ', (<[k := cs']> C). destruct HI as [HR _ Hb Hl _]. constructor; [done|done|done| |done].
  simpl. by rewrite Hl, fmap_insert.
Qed.

Lemma does_enqueue h k : may S (Enqueue h k) = true → does (Enqueue h k).
Proof.
  unfold may. rewrite andb_true_iff, bool_decide_eq_true. intros [(d & Hd & Hn)%loose_inv [hs Hk]].
  destruct (line_known k hs Hk) as (cs & hd & HC & -> & Hq & Hhd & Hrow). pose proof (i_qrep _ _ _ _ _ _ HI) as HQ.
  unfold does. simpl. unfold iob_tryadd_queue. pose proof (tryalloc_q _ _ _ _ HQ) as Ha.
  assert (Hcase : FQ = [] ∨ ∃ c FQ', FQ = c :: FQ') by (destruct FQ as [|c FQ']; [by left|right; by exists c, FQ']).
  destruct Hcase as [Hnil|(c & FQ' & Hcons)].
  - rewrite Hnil in Ha. rewrite Ha. cbn. eexists _, _, _, S. split; [done|]. replace (set_conts st (conts st)) with st by by destruct st.
    split; [|apply here]. apply p_enqueue_fails. unfold iob_qentry_navail. by rewrite (q_sem _ _ _ _ HQ), Hnil.
  - rewrite Hcons in Ha. destruct Ha as (q' & -> & HQ' & Hc & Hf & Hu & [e He]). cbn [mbind option_bind]. rewrite (proj2 (Z.eqb_neq _ _) Hc).
    destruct (add_q (set_conts st q') FQ' C k cs c e h HQ' HC Hc He Hf Hu) as (q2 & h2 & -> & HQ2). cbn [no_data mbind option_bind].
    eexists _, _, _, (set_line k (cs.*2 ++ [h]) S). split; [done|]. split; [by apply p_enqueue|]. simpl bufs.
    pose proof (queue_change q2 _ FQ' k cs.*2 (cs ++ [(c, h)]) Hk HQ2) as Hg. rewrite fmap_app in Hg. apply Hg.
    apply (line_set k cs.*2); [done| |].
    + apply NoDup_app. split; [by apply (ln_nodup _ (i_ok _ _ _ _ _ _ HI) k)|]. split; [|apply NoDup_singleton].
      intros y Hy Hyh%list_elem_of_singleton. subst y. apply Hn. by exists k, cs.*2.
    + intros y [Hy|Hyh%list_elem_of_singleton]%elem_of_app.
      * split; [by eapply (ln_known _ (i_ok _ _ _ _ _ _ HI))|by left].
      * subst y. split; [by eexists|by right].
Qed.

Lemma does_dequeue k : may S (Dequeue k) = true → does (Dequeue k).
Proof.
  intros [hs Hk]%bool_decide_eq_true. destruct (line_known k hs Hk) as (cs & hd & HC & -> & Hq & [Hh Ht] & Hrow).
  unfold does. simpl. unfold iob_remove_queue. rewrite Hq. cbn [mbind option_bind]. rewrite Hh. destruct cs as [|[c h] cs].
  - eexists _, _, _, S. split; [done|]. split; [by apply p_dequeue_none|apply here].
  - destruct (row_tail _ _ _ _ Hrow) as (Hrow' & _ & Hc & e & He & Hfl & Heh). simpl first. rewrite (proj2 (Z.eqb_neq _ _) Hc).
    cbn [negb]. rewrite (deref_Some _ _ _ Hc He). cbn [mbind option_bind]. rewrite Heh.
    set (hd' := mk_queue (qe_flink e) _). assert (Hhd' : qhead_is hd' cs).
    { constructor; simpl; [done|]. intros Hne. rewrite Hfl. destruct cs as [|[y hy] cs]; [done|]. simpl.
      rewrite (proj2 (Z.eqb_neq _ _)) by (by destruct (row_tail _ _ _ _ Hrow') as (_ & _ & ? & _)).
      rewrite Ht by done. cbn [fmap list_fmap fst]. rewrite (reverse_cons (y :: cs.*1) c), first_app. by apply last_any. }
    destruct (detach_q _ _ _ _ k c h cs hd' (i_qrep _ _ _ _ _ _ HI) HC Hhd') as (HQ & Hf & Hu).
    destruct (free_q (conts st) _ FQ _ c e HQ Hc He Hf Hu) as (q' & E & HQ' & _). simpl conts. rewrite E. cbn [mbind option_bind no_data].
    eexists _, _, _, (set_line k cs.*2 S). split; [done|]. split; [by apply p_dequeue|].
    apply (queue_change q' (<[k := hd']> (queues st)) (c :: FQ) k (h :: cs.*2) cs Hk HQ').
    pose proof (ln_nodup _ (i_ok _ _ _ _ _ _ HI) k _ Hk) as Hnd. simpl in Hnd. apply NoDup_cons in Hnd as [_ Hnd].
    apply (line_set k (h :: cs.*2)); [done|done|]. intros y Hy.
    split; [eapply (ln_known _ (i_ok _ _ _ _ _ _ HI)); [exact Hk|by right]|left; by right].
Qed.

Lemma does_trimqueue k t : may S (TrimQueue k t) = true → does (TrimQueue k t).
Proof.
  unfold may, between. rewrite !andb_true_iff, bool_decide_eq_true. intros [[hs Hk] [H1 H2]].
  destruct (line_known k hs Hk) as (cs & hd & HC & -> & Hq & [Hh Ht] & Hrow).
  unfold does. simpl. unfold iob_trimhead_queue. rewrite Hq. cbn [mbind option_bind]. rewrite Hh. destruct cs as [|[c h] cs].
  - eexists _, _, _, S. split; [done|]. split; [by apply p_trimqueue_none|apply here].
  - destruct (row_tail _ _ _ _ Hrow) as (Hrow' & _ & Hc & e & He & Hfl & Heh). simpl first. rewrite (proj2 (Z.eqb_neq _ _) Hc).
    cbn [negb]. rewrite (deref_Some _ _ _ Hc He). cbn [mbind option_bind]. rewrite Heh. simpl in Hk.
    destruct (ln_known _ (i_ok _ _ _ _ _ _ HI) k _ h Hk) as [d Hd]; [by left|].
    destruct (known h d Hd) as (x & l & n & bs & Hl & Hct & -> & Hx & Hpk & Hnd). rewrite (proj2 (Z.eqb_neq _ _) Hx). cbn [negb].
    destruct (iob_trimhead_spec (bufs st) F (x :: l) (n :: bs) t pool_here Hnd Hpk) as (b' & F' & l' & bs' & E & Ho & Hpk' & Hc'); [lia|].
    simpl first in E. rewrite E. cbn [mbind option_bind]. rewrite (update_Some _ _ _ _ Hc He). cbn [mbind option_bind no_data].
    destruct (rep_replace _ F R x _ _ b' F' l' bs' (i_rep _ _ _ _ _ _ HI) Hl Ho Hpk') as [HR' Hfr].
    assert (Hm : moves S x (first l' NULL)).
    { destruct (packet_ne _ _ _ Hpk') as [Hl' _]. split; [destruct l' as [|z l']; [done|]; apply (linked_nonzero _ _ _ z (pk_linked _ _ _ Hpk')); by left|].
      rewrite (i_bytes _ _ _ _ _ _ HI). unfold seen. by rewrite <- fmap_delete, lookup_fmap, Hfr. }
    eexists _, _, _, (set_line k (first l' NULL :: cs.*2) (put (first l' NULL) (drop (Z.to_nat t) d) (drop_packet x S))).
    split; [done|]. split; [by eapply p_trimqueue|].
    exists F', (<[first l' NULL := (l', bs')]> (delete x R)), FQ, (<[k := (c, first l' NULL) :: cs]> C). constructor; [done| | | |].
    + rewrite <- (insert_id (queues st) k hd Hq).
      apply (qrep_update (conts st) _ _ _ _ k ((c, x) :: cs) _ _ (i_qrep _ _ _ _ _ _ HI) HC); try done.
      * intros y Hy _. simpl. rewrite lookup_insert_ne; [done|]. intros ->. apply Hy. by left.
      * by eapply row_set_head.
      * constructor; [done|]. intros _. by apply Ht.
      * intros y Hy. by left.
    + simpl. rewrite (i_bytes _ _ _ _ _ _ HI). unfold seen. by rewrite fmap_insert, fmap_delete, <- Hct, <- Hc'.
    + simpl. by rewrite (i_line _ _ _ _ _ _ HI), fmap_insert.
    + by apply line_rename; [apply HI| |].
Qed.

Lemma does_freequeue k : may S (FreeQueue k) = true → does (FreeQueue k).
Proof.
  intros [hs Hk]%bool_decide_eq_true. destruct (line_known k hs Hk) as (cs & hd & HC & -> & Hq & [Hh Ht] & Hrow).
  pose proof (i_qrep _ _ _ _ _ _ HI) as HQ. unfold does. simpl. unfold iob_free_queue. rewrite Hq. cbn [mbind option_bind]. rewrite Hh.
  set (hd' := mk_queue NULL (qh_tail hd)).
  assert (HQ' : qrep (conts st) (<[k := hd']> (queues st)) FQ (<[k := []]> C)).
  { apply (qrep_update (conts st) _ _ _ _ k cs _ _ HQ HC); try done; [constructor; [done|apply NoDup_nil_2|by intros ?? ?%not_elem_of_nil]|].
    by intros x ?%not_elem_of_nil. }
  simpl conts. simpl bufs.
  destruct (free_queue_loop_ok (Datatypes.S (base.size (qentries (conts st)))) (bufs st) (conts st) F R FQ (<[k := []]> C) (<[k := hd']> (queues st)) cs)
    as (b' & q' & F' & FQ' & -> & HR' & HQ2); [apply HI|done|done| | | | |].
  - intros c Hc. split; [by apply (q_used _ _ _ _ HQ k cs)|].
    intros k2 cs2 [[<- <-]|[Hne Hk2]]%lookup_insert_Some; [by intros ?%not_elem_of_nil|].
    intros Hc2. apply Hne. by eapply (q_apart _ _ _ _ HQ).
  - intros h Hin. destruct (ln_known _ (i_ok _ _ _ _ _ _ HI) k _ h Hk Hin) as [d Hd].
    destruct (known h d Hd) as (x & l & n & bs & Hl & _). by eexists.
  - by apply (ln_nodup _ (i_ok _ _ _ _ _ _ HI) k).
  - pose proof (chain_length _ _ _ (w_nodup _ _ Hrow) (w_chain _ _ Hrow)) as Hlen. unfold qlinks in Hlen.
    rewrite map_size_fmap, length_fmap in Hlen. lia.
  - cbn [mbind option_bind]. eexists _, _, _, (set_line k [] (foldr drop_packet S cs.*2)). split; [done|].
    split; [by apply p_freequeue|]. destruct (bytes_dropped S cs.*2) as [Hb Hl].
    exists F', (foldr delete R cs.*2), FQ', (<[k := []]> C). constructor; [done|done| | |].
    + simpl. by rewrite Hb, seen_dropped, (i_bytes _ _ _ _ _ _ HI).
    + simpl. by rewrite Hl, (i_line _ _ _ _ _ _ HI), fmap_insert.
    + by apply line_emptied; [apply HI|].
Qed.

Lemma does_all o : may S o = true → does o.
Proof.
  destruct o; eauto using does_copyin, does_copyout, does_trimhead, does_trimtail, does_contig, does_pack, does_concat, does_free,
    does_enqueue, does_dequeue, does_peek, does_trimqueue, does_freequeue. intros _. apply does_alloc.
Qed.

End Ops.

Lemma good_behaves st S ops : good st S → behaves st S ops.
Proof.
  revert st S. induction ops as [|o ops IH]; [done|]. intros st S (F & R & FQ & C & HI) Hm.
  destruct (does_all st S F R FQ C HI o Hm) as (r & d & st' & S' & E & Hp & Hg). exists r, d, st', S'. auto.
Qed.

(** ** The start *)

Lemma init_qloop_spec (qpool : list Z) q FQ :
  g_iob_freeqlist q = first FQ NULL → chain (qlinks (qentries q)) FQ NULL → NoDup (qpool ++ FQ) →
  (∀ x, x ∈ qpool → x ≠ NULL ∧ is_Some (qentries q !! x)) →
  ∃ q', iob_init_qloop qpool q = Some q' ∧ g_iob_freeqlist q' = first (reverse qpool ++ FQ) NULL ∧
    chain (qlinks (qentries q')) (reverse qpool ++ FQ) NULL.
Proof.
  revert q FQ. induction qpool as [|x qpool IH]; intros q FQ Hf Hch Hnd Hin; [by exists q|].
  simpl in Hnd. apply NoDup_cons in Hnd as [Hx Hnd]. destruct (Hin x) as [Hx0 [e He]]; [by left|].
  simpl. rewrite (update_Some _ _ _ _ Hx0 He). cbn [mbind option_bind]. rewrite reverse_cons, <- app_assoc.
  apply (IH _ (x :: FQ)); simpl; [done| | |].
  - unfold qlinks. rewrite fmap_insert, Hf. split_and!; [done|by rewrite lookup_insert_eq|]. apply chain_insert_ne; [set_solver|done].
  - apply NoDup_app in Hnd as (? & ? & ?). apply NoDup_app. rewrite NoDup_cons. set_solver.
  - intros y Hy. split; [apply Hin; by right|]. destruct (decide (y = x)) as [->|]; [by rewrite lookup_insert_eq|].
    rewrite lookup_insert_ne by done. apply Hin. by right.
Qed.

Lemma init_queues (qpool heads : list Z) :
  NoDup qpool → NULL ∉ qpool →
  ∃ q, iob_initialize_queues qpool = Some q ∧
    qrep q (list_to_map ((λ h, (h, mk_queue NULL NULL)) <$> heads)) (reverse qpool) (list_to_map ((λ h, (h, [])) <$> heads)).
Proof.
  intros Hnd H0. unfold iob_initialize_queues. set (m0 := list_to_map _ : gmap Z iob_qentry_s).
  destruct (init_qloop_spec qpool (mk_qpool m0 NULL NULL 0) []) as (q & -> & Hf & Hch); [done|done|by rewrite app_nil_r| |].
  { intros x Hx. split; [by intros ->|]. apply elem_of_dom. unfold m0. simpl. rewrite dom_list_to_map_L, <- list_fmap_compose.
    apply elem_of_list_to_set, list_elem_of_fmap. by exists x. }
  cbn [mbind option_bind]. rewrite app_nil_r in *. eexists. split; [done|].
  assert (Hnil : ∀ k (cs : list (Z * Z)), (list_to_map ((λ h, (h, [])) <$> heads) : gmap Z (list (Z * Z))) !! k = Some cs → cs = [] ∧ k ∈ heads).
  { intros k cs Hk%elem_of_list_to_map_2. apply list_elem_of_fmap in Hk as (y & ? & ?). by simplify_eq. }
  constructor; simpl; [done|done|by apply NoDup_reverse|by rewrite length_reverse|..].
  - intros k cs [-> _]%Hnil. constructor; [done|apply NoDup_nil_2|by intros ?? ?%not_elem_of_nil].
  - intros k cs [-> Hk]%Hnil. exists (mk_queue NULL NULL). split; [|done]. apply elem_of_list_to_map_1'.
    + intros h [y [[= -> ->] _]]%list_elem_of_fmap. done.
    + apply list_elem_of_fmap. by exists k.
  - intros k cs c [-> _]%Hnil. by intros ?%not_elem_of_nil.
  - intros k1 cs1 k2 cs2 c [-> _]%Hnil _. by intros ?%not_elem_of_nil.
Qed.

(** C27.  I/O buffering is a set of packets, each a string of bytes, and queues of them: from
    [iob_initialize] on, for every sequence of operations that follows the rules, each
    operation of mm/iob returns, no assertion in it fails, and it does to the packets and
    the queues what the specification says.  It runs out of memory only when no buffer,
    or no container, is free. *)
Theorem iob_refines_packets (pool qpool heads : list Z) ops :
  NoDup pool → NULL ∉ pool → Z.of_nat (length pool) = CONFIG_IOB_NBUFFERS → NoDup qpool → NULL ∉ qpool →
  ∃ st, io_initialize pool qpool heads = Some st ∧ behaves st (start heads) ops.
Proof.
  intros H1 H2 H3 H4 H5. unfold io_initialize. destruct (iob_init_spec pool H1 H2 H3) as (b & -> & Hb).
  destruct (init_queues qpool heads H4 H5) as (q & -> & HQ). cbn [mbind option_bind]. eexists. split; [done|].
  apply good_behaves. exists (reverse pool), ∅, (reverse qpool), (list_to_map ((λ h, (h, [])) <$> heads)).
  assert (Hl : line (start heads) = (λ cs, cs.*2) <$> (list_to_map ((λ h, (h, [])) <$> heads) : gmap Z (list (Z * Z)))).
  { simpl. rewrite <- list_to_map_fmap, <- list_fmap_compose. done. }
  assert (Hnil : ∀ k hs, line (start heads) !! k = Some hs → hs = []).
  { intros k hs Hk%elem_of_list_to_map_2. apply list_elem_of_fmap in Hk as (y & ? & ?). by simplify_eq. }
  constructor; [|done| |done|]; simpl.
  - constructor; [done|..]; by intros *; rewrite lookup_empty.
  - unfold seen. by rewrite fmap_empty.
  - constructor; [intros k hs h Hk%Hnil|intros k hs Hk%Hnil|intros k1 hs1 k2 hs2 h Hk%Hnil _]; subst;
      [by intros ?%not_elem_of_nil|apply NoDup_nil_2|by intros ?%not_elem_of_nil].
Qed.

End Refine.

(** Six buffers of 4 bytes, two containers and one queue at 0x1000. *)

#[local] Instance queue_cfg : IobConfig := mk_config 4 6 1.

Lemma queue_cfg_ok : IobConfigOk.
Proof. constructor. simpl. lia. Defined.

#[local] Existing Instance queue_cfg_ok.

Definition queue_ops : list op :=
  [Alloc false; CopyIn 0x600 [1; 2; 3; 4; 5; 6; 7; 8; 9; 10] 0 false; Alloc false; Enqueue 0x600 0x1000; Enqueue 0x300 0x1000;
   TrimQueue 0x1000 5; Dequeue 0x1000; Contig 0x500 4; FreeQueue 0x1000].

Fixpoint results (st : io_state) (ops : list op) : option (list (Z * list Z)) :=
  match ops with
  | [] => Some []
  | o :: ops => '(r, d, st) ← exec st o; rs ← results st ops; Some ((r, d) :: rs)
  end.

Lemma iob_refines_packets_witness :
  (st ← io_initialize [0x100; 0x200; 0x300; 0x400; 0x500; 0x600] [0x10; 0x20] [0x1000]; results st queue_ops) =
    Some [(0x600, []); (10, []); (0x300, []); (0, []); (0, []); (0x500, []); (0x500, []); (0, [6; 7; 8; 9]); (0, [])] ∧
  ∃ st, io_initialize [0x100; 0x200; 0x300; 0x400; 0x500; 0x600] [0x10; 0x20] [0x1000] = Some st ∧
    behaves st (start [0x1000]) queue_ops.
Proof.
  split; [by vm_compute|].
  apply (iob_refines_packets [0x100; 0x200; 0x300; 0x400; 0x500; 0x600] [0x10; 0x20] [0x1000] queue_ops);
    by apply (bool_decide_unpack _).
Defined.

End IobRefine.
