(* ===== verification/MmHeap.v ===== *)
(** * The memory manager (mm/mm_heap)

    The heap is one region of memory, tiled by chunks that begin with a header
    (size of the chunk, size of the preceding one with the allocation bit on top).
    The free chunks are on one doubly linked list, ordered by size, into which the
    array [mm_nodelist] is threaded as a row of entry points.

    Memory is a map from the addresses of the 32-bit words to their values; an
    access outside of it is a fault.  The words of the array are in it too.  The
    build has one region (CONFIG_MM_REGIONS = 1) and the large chunk header (no
    CONFIG_MM_SMALL).  The semaphore, which makes the operations atomic, is not
    modelled; [defer] says that [mm_free] runs where it cannot take it. *)

From S2P Require Import Prelude.

Module MmHeap.

Definition MM_MIN_SHIFT : Z := 4.
Definition MM_MAX_SHIFT : Z := 22.
Definition MM_MIN_CHUNK : Z := Z.shiftl 1 MM_MIN_SHIFT.
Definition MM_MAX_CHUNK : Z := Z.shiftl 1 MM_MAX_SHIFT.
Definition MM_NNODES : Z := MM_MAX_SHIFT - MM_MIN_SHIFT + 1.
Definition MM_GRAN_MASK : Z := MM_MIN_CHUNK - 1.
Definition MM_ALIGN_UP (a : Z) : Z := Z.land (u32 (a + MM_GRAN_MASK)) (Z.lnot MM_GRAN_MASK).
Definition MM_ALIGN_DOWN (a : Z) : Z := Z.land a (Z.lnot MM_GRAN_MASK).
Definition MM_ALLOC_BIT : Z := 0x80000000.
Definition SIZEOF_MM_ALLOCNODE : Z := 8.
Definition SIZEOF_MM_FREENODE : Z := 16.
Definition SIZE_MAX : Z := 2 ^ 32 - 1.
Definition NULL : Z := 0.

(** The byte offsets of the fields of [mm_freenode_s]; [mm_allocnode_s] has the first
    two, and [mm_delaynode_s], which lies in the user part of a chunk, one at 0. *)

Inductive field := size | preceding | flink | blink.

Definition offset (f : field) : Z :=
  match f with size => 0 | preceding => 4 | flink => 8 | blink => 12 end.

Record mm_heap_s := mk_heap {
  mem : gmap Z Z;
  mm_heapsize : Z;
  mm_heapstart : Z;
  mm_heapend : Z;
  mm_nodelist : Z;
  mm_delaylist : Z
}.

Definition set_mem (h : mm_heap_s) (m : gmap Z Z) : mm_heap_s :=
  mk_heap m (mm_heapsize h) (mm_heapstart h) (mm_heapend h) (mm_nodelist h) (mm_delaylist h).
Definition set_delaylist (h : mm_heap_s) (v : Z) : mm_heap_s :=
  mk_heap (mem h) (mm_heapsize h) (mm_heapstart h) (mm_heapend h) (mm_nodelist h) v.
Definition set_heapend (h : mm_heap_s) (v : Z) : mm_heap_s :=
  mk_heap (mem h) (mm_heapsize h) (mm_heapstart h) v (mm_nodelist h) (mm_delaylist h).

(** Words of memory: [p->f] and [p->f = v]. *)

Definition word (m : gmap Z Z) (a : Z) : option Z := if a =? NULL then None else m !! a.

Definition set_word (m : gmap Z Z) (a v : Z) : option (gmap Z Z) :=
  _ ← word m a; Some (<[a := v]> m).

Definition get (m : gmap Z Z) (p : Z) (f : field) : option Z :=
  if p =? NULL then None else word m (p + offset f).

Definition put (m : gmap Z Z) (p : Z) (f : field) (v : Z) : option (gmap Z Z) :=
  if p =? NULL then None else set_word m (p + offset f) v.

(** The header of a chunk: is it allocated, and how long is the preceding chunk. *)

Definition allocated (prec : Z) : bool := negb (Z.land prec MM_ALLOC_BIT =? 0).
Definition prec_size (prec : Z) : Z := Z.ldiff prec MM_ALLOC_BIT.

(** [p->preceding = v | (p->preceding & MM_ALLOC_BIT)] *)

Definition set_preceding (m : gmap Z Z) (p v : Z) : option (gmap Z Z) :=
  w ← get m p preceding;
  put m p preceding (Z.lor v (Z.land w MM_ALLOC_BIT)).

(** ** The list of free chunks *)

Fixpoint mm_size2ndx_loop (fuel : nat) (sz ndx : Z) : Z :=
  match fuel with
  | O => ndx
  | S fuel => if 1 <? sz then mm_size2ndx_loop fuel (Z.shiftr sz 1) (ndx + 1) else ndx
  end.

Definition mm_size2ndx (sz : Z) : Z :=
  if MM_MAX_CHUNK <=? sz then MM_NNODES - 1
  else mm_size2ndx_loop 32 (Z.shiftr sz MM_MIN_SHIFT) 0.

(** [&heap->mm_nodelist[ndx]] *)

Definition nodelist (h : mm_heap_s) (ndx : Z) : Z := mm_nodelist h + SIZEOF_MM_FREENODE * ndx.

(** [for (...; next && next->size && next->size < node->size; ...)] *)

Fixpoint mm_findplace (fuel : nat) (m : gmap Z Z) (sz prev next : Z) : option (Z * Z) :=
  match fuel with
  | O => None
  | S fuel =>
      if next =? NULL then Some (prev, next)
      else
        s ← get m next size;
        if negb (s =? 0) && (s <? sz) then
          n ← get m next flink;
          mm_findplace fuel m sz next n
        else Some (prev, next)
  end.

Definition mm_addfreechunk (h : mm_heap_s) (node : Z) : option mm_heap_s :=
  let m := mem h in
  sz ← get m node size;
  DEBUGASSERT (SIZEOF_MM_FREENODE <=? sz) ;;
  p ← get m node preceding;
  DEBUGASSERT (negb (allocated p)) ;;
  let prev := nodelist h (mm_size2ndx sz) in
  next ← get m prev flink;
  '(prev, next) ← mm_findplace (S (base.size m)) m sz prev next;
  m ← put m prev flink node;
  m ← put m node blink prev;
  m ← put m node flink next;
  m ← (if next =? NULL then Some m else put m next blink node);
  Some (set_mem h m).

(** A chunk leaves the list: [DEBUGASSERT (p->blink)] and
    [p->blink->flink = p->flink; if (p->flink) p->flink->blink = p->blink;] *)

Definition mm_unlink (m : gmap Z Z) (p : Z) : option (gmap Z Z) :=
  b ← get m p blink;
  DEBUGASSERT (negb (b =? NULL)) ;;
  f ← get m p flink;
  m ← put m b flink f;
  f ← get m p flink;
  if f =? NULL then Some m
  else b ← get m p blink; put m f blink b.

(** ** Initialization *)

(** The memory of the region is in [mem] already. *)

Definition mm_addregion (h : mm_heap_s) (heapstart heapsize : Z) : option mm_heap_s :=
  let heapbase := MM_ALIGN_UP heapstart in
  let heapend := MM_ALIGN_DOWN (u32 (heapstart + heapsize)) in
  let heapsize := u32 (heapend - heapbase) in
  let node := u32 (heapbase + SIZEOF_MM_ALLOCNODE) in
  let tail := u32 (heapend - SIZEOF_MM_ALLOCNODE) in
  let nodesize := u32 (heapsize - 2 * SIZEOF_MM_ALLOCNODE) in
  m ← put (mem h) heapbase size SIZEOF_MM_ALLOCNODE;
  m ← put m heapbase preceding MM_ALLOC_BIT;
  m ← put m node size nodesize;
  m ← put m node preceding SIZEOF_MM_ALLOCNODE;
  m ← put m tail size SIZEOF_MM_ALLOCNODE;
  m ← put m tail preceding (Z.lor nodesize MM_ALLOC_BIT);
  mm_addfreechunk
    (mk_heap m (u32 (mm_heapsize h + heapsize)) heapbase tail (mm_nodelist h) (mm_delaylist h)) node.

(** [memset (heap->mm_nodelist, 0, ...)] *)

Fixpoint clear (n : nat) (m : gmap Z Z) (a : Z) : option (gmap Z Z) :=
  match n with
  | O => Some m
  | S n => m ← set_word m a 0; clear n m (a + 4)
  end.

Fixpoint link_nodelist (n : nat) (h : mm_heap_s) (i : Z) : option mm_heap_s :=
  match n with
  | O => Some h
  | S n =>
      m ← put (mem h) (nodelist h (i - 1)) flink (nodelist h i);
      m ← put m (nodelist h i) blink (nodelist h (i - 1));
      link_nodelist n (set_mem h m) (i + 1)
  end.

(** [m]: the memory, with the words of [mm_nodelist] at [nodes] and those of the region. *)

Definition mm_initialize (m : gmap Z Z) (nodes heapstart heapsize : Z) : option mm_heap_s :=
  m ← clear (Z.to_nat (MM_NNODES * 4)) m nodes;
  h ← link_nodelist (Z.to_nat (MM_NNODES - 1)) (mk_heap m 0 0 0 nodes NULL) 1;
  mm_addregion h heapstart heapsize.

Definition mm_heapmember (h : mm_heap_s) (p : Z) : bool :=
  (mm_heapstart h <? p) && (p <? mm_heapend h).

(** ** Freeing *)

Definition mm_add_delaylist (h : mm_heap_s) (p : Z) : option mm_heap_s :=
  m ← set_word (mem h) p (mm_delaylist h);
  Some (set_delaylist (set_mem h m) p).

(** The next chunk is free and joins [node]; the chunk after it. *)

Definition mm_merge_next (m : gmap Z Z) (node next : Z) : option (Z * gmap Z Z) :=
  nsize ← get m next size;
  let andbeyond := u32 (next + nsize) in
  m ← mm_unlink m next;
  s ← get m node size;
  nsize ← get m next size;
  m ← put m node size (u32 (s + nsize));
  s ← get m node size;
  m ← set_preceding m andbeyond s;
  Some (andbeyond, m).

(** [node] joins the preceding chunk, which is free. *)

Definition mm_merge_prev (m : gmap Z Z) (prev node next : Z) : option (gmap Z Z) :=
  m ← mm_unlink m prev;
  ps ← get m prev size;
  s ← get m node size;
  m ← put m prev size (u32 (ps + s));
  ps ← get m prev size;
  set_preceding m next ps.

Definition mm_free (defer : bool) (h : mm_heap_s) (p : Z) : option mm_heap_s :=
  if p =? NULL then Some h
  else if defer then mm_add_delaylist h p
  else
    DEBUGASSERT (mm_heapmember h p) ;;
    let m := mem h in
    let node := u32 (p - SIZEOF_MM_ALLOCNODE) in
    prec ← get m node preceding;
    DEBUGASSERT (allocated prec) ;;
    m ← put m node preceding (prec_size prec);
    s ← get m node size;
    let next := u32 (node + s) in
    np ← get m next preceding;
    DEBUGASSERT (prec_size np =? s) ;;
    '(next, m) ← (if allocated np then Some (next, m) else mm_merge_next m node next);
    prec ← get m node preceding;
    let prev := u32 (node - prec) in
    ps ← get m prev size;
    DEBUGASSERT (prec_size prec =? ps) ;;
    pp ← get m prev preceding;
    '(node, m) ← (if allocated pp then Some (node, m)
                  else m ← mm_merge_prev m prev node next; Some (prev, m));
    mm_addfreechunk (set_mem h m) node.

Fixpoint mm_free_delayed (fuel : nat) (defer : bool) (h : mm_heap_s) (tmp : Z) : option mm_heap_s :=
  match fuel with
  | O => None
  | S fuel =>
      if tmp =? NULL then Some h
      else
        next ← word (mem h) tmp;
        h ← mm_free defer h tmp;
        mm_free_delayed fuel defer h next
  end.

Definition mm_free_delaylist (defer : bool) (h : mm_heap_s) : option mm_heap_s :=
  mm_free_delayed (S (base.size (mem h))) defer (set_delaylist h NULL) (mm_delaylist h).

(** ** Allocation *)

(** [for (...; node && node->size < alignsize; node = node->flink)] *)

Fixpoint mm_search (fuel : nat) (m : gmap Z Z) (alignsize node : Z) : option Z :=
  match fuel with
  | O => None
  | S fuel =>
      if node =? NULL then Some node
      else
        s ← get m node size;
        if s <? alignsize then
          b ← get m node blink;
          bf ← get m b flink;
          DEBUGASSERT (bf =? node) ;;
          n ← get m node flink;
          mm_search fuel m alignsize n
        else Some node
  end.

(** The chunk [node] gives its first [alignsize] bytes; the rest is free again when it
    is long enough. *)

Definition mm_split (h : mm_heap_s) (node alignsize : Z) : option mm_heap_s :=
  let m := mem h in
  s ← get m node size;
  let remaining := u32 (s - alignsize) in
  if SIZEOF_MM_FREENODE <=? remaining then
    let next := u32 (node + s) in
    let remainder := u32 (node + alignsize) in
    m ← put m remainder size remaining;
    m ← put m remainder preceding alignsize;
    m ← put m node size alignsize;
    m ← set_preceding m next remaining;
    mm_addfreechunk (set_mem h m) remainder
  else Some h.

(** [mm_malloc] after the delayed chunks are free. *)

Definition mm_alloc (h : mm_heap_s) (sz : Z) : option (Z * mm_heap_s) :=
  if sz <? 1 then Some (NULL, h)
  else
    let alignsize := MM_ALIGN_UP (u32 (sz + SIZEOF_MM_ALLOCNODE)) in
    DEBUGASSERT (sz <=? alignsize) ;;
    DEBUGASSERT (MM_MIN_CHUNK <=? alignsize) ;;
    DEBUGASSERT (SIZEOF_MM_FREENODE <=? alignsize) ;;
    let ndx := if MM_MAX_CHUNK <=? alignsize then MM_NNODES - 1 else mm_size2ndx alignsize in
    first ← get (mem h) (nodelist h ndx) flink;
    node ← mm_search (S (base.size (mem h))) (mem h) alignsize first;
    if node =? NULL then Some (NULL, h)
    else
      m ← mm_unlink (mem h) node;
      h ← mm_split (set_mem h m) node alignsize;
      prec ← get (mem h) node preceding;
      m ← put (mem h) node preceding (Z.lor prec MM_ALLOC_BIT);
      let h := set_mem h m in
      let ret := u32 (node + SIZEOF_MM_ALLOCNODE) in
      DEBUGASSERT ((ret =? NULL) || mm_heapmember h ret) ;;
      Some (ret, h).

Definition mm_malloc (defer : bool) (h : mm_heap_s) (sz : Z) : option (Z * mm_heap_s) :=
  h ← mm_free_delaylist defer h;
  mm_alloc h sz.

(** [memset (p, 0, n)]; the last word may be cleared in part (little endian). *)

Definition memset0 (m : gmap Z Z) (p n : Z) : option (gmap Z Z) :=
  m ← clear (Z.to_nat (n / 4)) m p;
  let r := n mod 4 in
  if r =? 0 then Some m
  else
    let a := p + 4 * (n / 4) in
    w ← word m a;
    set_word m a (Z.shiftl (Z.shiftr w (8 * r)) (8 * r)).

Definition mm_zalloc (defer : bool) (h : mm_heap_s) (sz : Z) : option (Z * mm_heap_s) :=
  '(alloc, h) ← mm_malloc defer h sz;
  if alloc =? NULL then Some (alloc, h)
  else m ← memset0 (mem h) alloc sz; Some (alloc, set_mem h m).

Definition mm_calloc (defer : bool) (h : mm_heap_s) (n elem_size : Z) : option (Z * mm_heap_s) :=
  if (0 <? n) && (0 <? elem_size) then
    if n <=? SIZE_MAX / elem_size then mm_zalloc defer h (u32 (n * elem_size))
    else Some (NULL, h)
  else Some (NULL, h).

(** ** Resizing *)

Definition mm_shrinkchunk (h : mm_heap_s) (node sz : Z) : option mm_heap_s :=
  let m := mem h in
  DEBUGASSERT (Z.land sz MM_GRAN_MASK =? 0) ;;
  s ← get m node size;
  let next := u32 (node + s) in
  np ← get m next preceding;
  if negb (allocated np) then
    ns ← get m next size;
    let andbeyond := u32 (next + ns) in
    m ← mm_unlink m next;
    let newnode := u32 (node + sz) in
    ns ← get m next size;
    s ← get m node size;
    m ← put m newnode size (u32 (ns + s - sz));
    m ← put m newnode preceding sz;
    m ← put m node size sz;
    w ← get m newnode size;
    m ← set_preceding m andbeyond w;
    mm_addfreechunk (set_mem h m) newnode
  else if u32 (sz + SIZEOF_MM_FREENODE) <=? s then
    let newnode := u32 (node + sz) in
    m ← put m newnode size (u32 (s - sz));
    m ← put m newnode preceding sz;
    m ← put m node size sz;
    w ← get m newnode size;
    m ← put m next preceding (Z.lor w MM_ALLOC_BIT);
    mm_addfreechunk (set_mem h m) newnode
  else Some h.

(** [memcpy] of [n] words, low addresses first. *)

Fixpoint copy_words (n : nat) (m : gmap Z Z) (dst src : Z) : option (gmap Z Z) :=
  match n with
  | O => Some m
  | S n =>
      w ← word m src;
      m ← set_word m dst w;
      copy_words n m (dst + 4) (src + 4)
  end.

(** How much [mm_realloc] takes from the free neighbours. *)

Definition mm_take (needed prevsize nextsize : Z) : Z * Z :=
  let '(needed', takeprev, takenext) :=
    if (0 <? prevsize) && ((prevsize <=? nextsize) || (nextsize <? 1)) then
      if prevsize <? needed then (0, prevsize, u32 (needed - prevsize)) else (0, needed, 0)
    else (needed, 0, 0) in
  if (0 <? nextsize) && negb (needed' =? 0) then
    if nextsize <? needed' then (u32 (needed' - nextsize), nextsize) else (0, needed')
  else (takeprev, takenext).

(** The chunk [oldnode] begins [takeprev] bytes earlier, in the preceding one. *)

Definition mm_take_prev (h : mm_heap_s) (prev oldnode next oldsize takeprev prevsize : Z) :
    option mm_heap_s :=
  m ← mm_unlink (mem h) prev;
  let newnode := u32 (oldnode - takeprev) in
  if takeprev <? prevsize then
    ps ← get m prev size;
    let ps := u32 (ps - takeprev) in
    m ← put m prev size ps;
    DEBUGASSERT (SIZEOF_MM_FREENODE <=? ps) ;;
    m ← put m newnode size (u32 (oldsize + takeprev));
    m ← put m newnode preceding (Z.lor ps MM_ALLOC_BIT);
    m ← set_preceding m next (u32 (oldsize + takeprev));
    mm_addfreechunk (set_mem h m) prev
  else
    s ← get m newnode size;
    m ← put m newnode size (u32 (s + oldsize));
    p ← get m newnode preceding;
    m ← put m newnode preceding (Z.lor p MM_ALLOC_BIT);
    m ← set_preceding m next (u32 (s + oldsize));
    Some (set_mem h m).

(** The same, with the contents moved; the chunk and its size. *)

Definition mm_grow_prev (h : mm_heap_s) (prev oldnode next oldsize takeprev prevsize : Z) :
    option (Z * Z * mm_heap_s) :=
  h ← mm_take_prev h prev oldnode next oldsize takeprev prevsize;
  let newnode := u32 (oldnode - takeprev) in
  m ← copy_words (Z.to_nat ((oldsize - SIZEOF_MM_ALLOCNODE) / 4)) (mem h)
        (u32 (newnode + SIZEOF_MM_ALLOCNODE)) (u32 (oldnode + SIZEOF_MM_ALLOCNODE));
  s ← get m newnode size;
  Some (newnode, s, set_mem h m).

(** The chunk [oldnode] grows into the next one. *)

Definition mm_grow_next (h : mm_heap_s) (oldnode next oldsize takenext nextsize : Z) :
    option mm_heap_s :=
  let andbeyond := u32 (next + nextsize) in
  m ← mm_unlink (mem h) next;
  let s := u32 (oldsize + takenext) in
  m ← put m oldnode size s;
  let newnode := u32 (oldnode + s) in
  if takenext <? nextsize then
    let ns := u32 (nextsize - takenext) in
    m ← put m newnode size ns;
    DEBUGASSERT (SIZEOF_MM_FREENODE <=? ns) ;;
    m ← put m newnode preceding s;
    m ← set_preceding m andbeyond ns;
    mm_addfreechunk (set_mem h m) newnode
  else
    m ← set_preceding m andbeyond s;
    Some (set_mem h m).

(** The chunk grows on both sides; the address of its user part. *)

Definition mm_grow (h : mm_heap_s) (prev oldnode next oldsize takeprev prevsize takenext nextsize : Z) :
    option (Z * mm_heap_s) :=
  '(node, s, h) ← (if takeprev =? 0 then Some (oldnode, oldsize, h)
                   else mm_grow_prev h prev oldnode next oldsize takeprev prevsize);
  h ← (if takenext =? 0 then Some h else mm_grow_next h node next s takenext nextsize);
  Some (u32 (node + SIZEOF_MM_ALLOCNODE), h).

(** The chunk cannot be extended: a new one takes its contents. *)

Definition mm_realloc_copy (defer : bool) (h : mm_heap_s) (oldmem oldsize sz : Z) :
    option (Z * mm_heap_s) :=
  '(newmem, h) ← mm_malloc defer h sz;
  if newmem =? NULL then Some (NULL, h)
  else
    m ← copy_words (Z.to_nat (oldsize / 4)) (mem h) newmem oldmem;
    h ← mm_free defer (set_mem h m) oldmem;
    Some (newmem, h).

(** The chunk is too small: what the neighbours offer decides. *)

Definition mm_realloc_up (defer : bool) (h : mm_heap_s) (oldmem sz oldnode prec oldsize newsize : Z) :
    option (Z * mm_heap_s) :=
  let next := u32 (oldnode + oldsize) in
  np ← get (mem h) next preceding;
  nextsize ← (if allocated np then Some 0 else get (mem h) next size);
  let prev := u32 (oldnode - prec_size prec) in
  pp ← get (mem h) prev preceding;
  prevsize ← (if allocated pp then Some 0 else get (mem h) prev size);
  if newsize <=? u32 (nextsize + prevsize + oldsize) then
    let '(takeprev, takenext) := mm_take (u32 (newsize - oldsize)) prevsize nextsize in
    mm_grow h prev oldnode next oldsize takeprev prevsize takenext nextsize
  else
    mm_realloc_copy defer h oldmem oldsize sz.

Definition mm_realloc (defer : bool) (h : mm_heap_s) (oldmem sz : Z) : option (Z * mm_heap_s) :=
  if oldmem =? NULL then mm_malloc defer h sz
  else if sz <? 1 then h ← mm_free defer h oldmem; Some (NULL, h)
  else
    let newsize := MM_ALIGN_UP (u32 (sz + SIZEOF_MM_ALLOCNODE)) in
    let oldnode := u32 (oldmem - SIZEOF_MM_ALLOCNODE) in
    prec ← get (mem h) oldnode preceding;
    DEBUGASSERT (allocated prec) ;;
    DEBUGASSERT (mm_heapmember h oldmem) ;;
    oldsize ← get (mem h) oldnode size;
    if newsize <=? oldsize then
      h ← (if newsize <? oldsize then mm_shrinkchunk h oldnode newsize else Some h);
      Some (oldmem, h)
    else mm_realloc_up defer h oldmem sz oldnode prec oldsize newsize.

(** [~mask] of the unsigned type. *)

Definition mm_alignchunk (rawchunk mask : Z) : Z := Z.ldiff (u32 (rawchunk + mask)) mask.

(** The allocated chunk [node], with the user part at [rawchunk], is cut before the
    first alignment point that leaves room for a free chunk: the aligned address, its
    chunk and the size that the chunk offers. *)

Definition mm_cut_front (h : mm_heap_s) (rawchunk alignment node alignedchunk : Z) :
    option (Z * Z * Z * mm_heap_s) :=
  let m := mem h in
  s ← get m node size;
  let next := u32 (node + s) in
  DEBUGASSERT (u32 (rawchunk + 8) <=? alignedchunk) ;;
  let newnode := u32 (alignedchunk - SIZEOF_MM_ALLOCNODE) in
  let precedingsize := u32 (newnode - node) in
  let '(alignedchunk, newnode, precedingsize) :=
    if precedingsize <? SIZEOF_MM_FREENODE then
      let alignedchunk := u32 (alignedchunk + alignment) in
      let newnode := u32 (alignedchunk - SIZEOF_MM_ALLOCNODE) in
      (alignedchunk, newnode, u32 (newnode - node))
    else (alignedchunk, newnode, precedingsize) in
  m ← put m newnode size (u32 (next - newnode));
  m ← put m newnode preceding (Z.lor precedingsize MM_ALLOC_BIT);
  m ← put m node size precedingsize;
  p ← get m node preceding;
  m ← put m node preceding (prec_size p);
  ns ← get m newnode size;
  m ← set_preceding m next ns;
  ns ← get m newnode size;
  h ← mm_addfreechunk (set_mem h m) node;
  Some (alignedchunk, newnode, u32 (ns - SIZEOF_MM_ALLOCNODE), h).

Definition mm_memalign (defer : bool) (h : mm_heap_s) (alignment sz : Z) :
    option (Z * mm_heap_s) :=
  let mask := u32 (alignment - 1) in
  if alignment <=? MM_MIN_CHUNK then mm_malloc defer h sz
  else
    let sz := MM_ALIGN_UP sz in
    let allocsize := u32 (sz + 2 * alignment) in
    '(rawchunk, h) ← mm_malloc defer h allocsize;
    if rawchunk =? 0 then Some (NULL, h)
    else
      let node := u32 (rawchunk - SIZEOF_MM_ALLOCNODE) in
      let alignedchunk := mm_alignchunk rawchunk mask in
      '(alignedchunk, node, allocsize, h) ←
        (if negb (alignedchunk =? rawchunk) then
           mm_cut_front h rawchunk alignment node alignedchunk
         else Some (alignedchunk, node, allocsize, h));
      let sz := MM_ALIGN_UP (u32 (sz + SIZEOF_MM_ALLOCNODE)) in
      h ← (if sz <? allocsize then mm_shrinkchunk h node sz else Some h);
      Some (alignedchunk, h).

(** The words of the new block are in memory already. *)

Definition MIN_EXTEND : Z := 2 * SIZEOF_MM_ALLOCNODE.

Definition mm_extend (defer : bool) (h : mm_heap_s) (block sz region : Z) : option mm_heap_s :=
  DEBUGASSERT (negb (block =? NULL)) ;;
  DEBUGASSERT ((MIN_EXTEND <=? sz) && (region =? 0)) ;;
  let blockend := u32 (block + sz) in
  DEBUGASSERT (MM_ALIGN_UP block =? block) ;;
  DEBUGASSERT (MM_ALIGN_DOWN blockend =? blockend) ;;
  let oldnode := mm_heapend h in
  DEBUGASSERT (u32 (oldnode + SIZEOF_MM_ALLOCNODE) =? block) ;;
  m ← put (mem h) oldnode size sz;
  p ← get m oldnode preceding;
  DEBUGASSERT (allocated p) ;;
  let newnode := u32 (blockend - SIZEOF_MM_ALLOCNODE) in
  m ← put m newnode size SIZEOF_MM_ALLOCNODE;
  s ← get m oldnode size;
  m ← put m newnode preceding (Z.lor s MM_ALLOC_BIT);
  mm_free defer (set_heapend (set_mem h m) newnode) block.

(** ** Inspection *)

Record mallinfo := mk_mallinfo {
  arena : Z;
  ordblks : Z;
  mxordblk : Z;
  uordblks : Z;
  fordblks : Z
}.

(** The assertions on a free chunk. *)

Definition mm_check_free (m : gmap Z Z) (node s : Z) : option unit :=
  DEBUGASSERT (SIZEOF_MM_FREENODE <=? s) ;;
  b ← get m node blink;
  bf ← get m b flink;
  DEBUGASSERT (bf =? node) ;;
  bs ← get m b size;
  DEBUGASSERT (bs <=? s) ;;
  f ← get m node flink;
  if f =? NULL then Some tt
  else
    fb ← get m f blink;
    DEBUGASSERT (fb =? node) ;;
    fs ← get m f size;
    DEBUGASSERT ((fs =? 0) || (s <=? fs)).

(** The chunks from [node] on, after a chunk of size [prev]; the last address. *)

Fixpoint mm_visit (fuel : nat) (m : gmap Z Z) (heapend node : Z) (prev : option Z)
    (info : mallinfo) : option (Z * mallinfo) :=
  match fuel with
  | O => None
  | S fuel =>
      if node <? heapend then
        s ← get m node size;
        p ← get m node preceding;
        info ← (if allocated p then
                  DEBUGASSERT (SIZEOF_MM_ALLOCNODE <=? s) ;;
                  Some (mk_mallinfo (arena info) (ordblks info) (mxordblk info)
                          (u32 (uordblks info + s)) (fordblks info))
                else
                  mm_check_free m node s ;;
                  Some (mk_mallinfo (arena info) (s32 (ordblks info + 1))
                          (if mxordblk info <? s then s else mxordblk info)
                          (uordblks info) (u32 (fordblks info + s))));
        DEBUGASSERT (match prev with None => true | Some ps => ps =? prec_size p end) ;;
        mm_visit fuel m heapend (u32 (node + s)) (Some s) info
      else Some (node, info)
  end.

Definition mm_mallinfo (h : mm_heap_s) : option mallinfo :=
  '(node, info) ← mm_visit (S (base.size (mem h))) (mem h) (mm_heapend h) (mm_heapstart h) None
                    (mk_mallinfo 0 0 0 0 0);
  DEBUGASSERT (node =? mm_heapend h) ;;
  let used := u32 (uordblks info + SIZEOF_MM_ALLOCNODE) in
  DEBUGASSERT (u32 (used + fordblks info) =? mm_heapsize h) ;;
  Some (mk_mallinfo (s32 (mm_heapsize h)) (ordblks info) (s32 (mxordblk info)) (s32 used)
          (s32 (fordblks info))).

Definition malloc_usable_size (h : mm_heap_s) (p : Z) : option Z :=
  if p =? NULL then Some 0
  else
    let node := u32 (p - SIZEOF_MM_ALLOCNODE) in
    prec ← get (mem h) node preceding;
    DEBUGASSERT (allocated prec) ;;
    s ← get (mem h) node size;
    Some (u32 (s - SIZEOF_MM_ALLOCNODE)).

Definition mm_brkaddr (h : mm_heap_s) (region : Z) : option Z :=
  DEBUGASSERT (region =? 0) ;;
  let brkaddr := mm_heapend h in
  Some (if brkaddr =? 0 then 0 else u32 (brkaddr + SIZEOF_MM_ALLOCNODE)).

End MmHeap.
