(* ===== verification/MmList.v ===== *)
(** * The heap's list of free chunks

    The fields of the nodes seen as separate stores, the geometry of the heap that
    makes this view correct, and the list itself: every [mm_nodelist] entry and every
    free chunk is on it once, in the order of the sizes.  What [mm_unlink],
    [mm_addfreechunk] and the search of [mm_malloc] do to it. *)

From S2P Require Import Prelude MmHeap.

Module MmList.
Import MmHeap.

#[global] Instance field_eq_dec : EqDecision field.
Proof. solve_decision. Defined.

(** ** Fields *)

Definition fld (m : gmap Z Z) (x : Z) (f : field) : option Z := m !! (x + offset f).
Definition upd (m : gmap Z Z) (x : Z) (f : field) (v : Z) : gmap Z Z := <[x + offset f := v]> m.

Lemma get_fld m x f : 0 < x → get m x f = fld m x f.
Proof.
  intros Hx. unfold get, word, fld. assert (0 ≤ offset f) by by destruct f.
  unfold NULL. by rewrite !(proj2 (Z.eqb_neq _ _)) by lia.
Qed.

Lemma put_upd m x f v : 0 < x → is_Some (fld m x f) → put m x f v = Some (upd m x f v).
Proof.
  intros Hx [w Hw]. unfold put, set_word, word, upd. assert (0 ≤ offset f) by by destruct f.
  unfold NULL. rewrite !(proj2 (Z.eqb_neq _ _)) by lia. unfold fld in Hw. by rewrite Hw.
Qed.

Lemma fld_upd m x f v : fld (upd m x f v) x f = Some v.
Proof. unfold fld, upd. by rewrite lookup_insert_eq. Qed.

(** ** Geometry

    A chunk other than the first guard is at an address that is 8 modulo 16, so that
    the user part is aligned. *)

Definition caddr (h : mm_heap_s) (x : Z) : Prop :=
  (x - mm_heapstart h) mod 16 = 8 ∧ mm_heapstart h + 8 ≤ x ≤ mm_heapend h.

Definition sentinel (h : mm_heap_s) (x : Z) : Prop := ∃ i, 0 ≤ i < MM_NNODES ∧ x = nodelist h i.

Definition is_node (h : mm_heap_s) (x : Z) : Prop := caddr h x ∨ sentinel h x.

(** The region is aligned and shorter than 2 Gb.  The struct of the heap, in which the
    array of nodes has at least 8 bytes before it, is outside of it. *)

Record place (h : mm_heap_s) : Prop := {
  pl_start : 0 < mm_heapstart h;
  pl_align : mm_heapstart h mod 16 = 0;
  pl_end : (mm_heapend h - mm_heapstart h) mod 16 = 8;
  pl_order : mm_heapstart h + 24 ≤ mm_heapend h;
  pl_small : mm_heapend h - mm_heapstart h < 2 ^ 31 - 8;
  pl_top : mm_heapend h + 8 < 2 ^ 32;
  pl_nodes : 0 < mm_nodelist h;
  pl_nodes_top : mm_nodelist h + 304 < 2 ^ 32;
  pl_apart : mm_heapend h + 16 ≤ mm_nodelist h ∨ mm_nodelist h + 304 ≤ mm_heapstart h
}.

(** Every word of the region and of the array of nodes is in memory. *)

Definition words (h : mm_heap_s) (m : gmap Z Z) : Prop :=
  ∀ x f, is_node h x → (x = mm_heapend h → f = size ∨ f = preceding) → is_Some (fld m x f).

Lemma words_upd h m x f v : words h m → words h (upd m x f v).
Proof.
  intros Hw y g Hy Hg. unfold fld, upd. destruct (decide (x + offset f = y + offset g)) as [->|].
  - rewrite lookup_insert_eq. eauto.
  - rewrite lookup_insert_ne by done. by apply Hw.
Qed.

Section Geometry.

Context (h : mm_heap_s) (Hpl : place h).

Lemma node_pos x : is_node h x → 0 < x < 2 ^ 32.
Proof.
  destruct Hpl. unfold is_node, caddr, sentinel, nodelist, SIZEOF_MM_FREENODE, MM_NNODES,
    MM_MAX_SHIFT, MM_MIN_SHIFT.
  intros [?|(i & ? & ->)]; lia.
Qed.

Lemma node_inj x y f g :
  is_node h x → is_node h y → x + offset f = y + offset g → x = y ∧ f = g.
Proof.
  destruct Hpl. unfold is_node, caddr, sentinel, nodelist, SIZEOF_MM_FREENODE, MM_NNODES,
    MM_MAX_SHIFT, MM_MIN_SHIFT.
  intros [?|(i & ? & ->)] [?|(j & ? & ->)]; destruct f, g; simpl; intros ?;
    try (exfalso; dlia); (split; [dlia|done]).
Qed.

Lemma fld_upd_ne m x y f g v :
  is_node h x → is_node h y → x ≠ y ∨ f ≠ g → fld (upd m x f v) y g = fld m y g.
Proof.
  intros Hx Hy Hne. unfold fld, upd. rewrite lookup_insert_ne; [done|].
  intros He. destruct (node_inj _ _ _ _ Hx Hy He). by destruct Hne.
Qed.

Lemma node_get m x f : is_node h x → get m x f = fld m x f.
Proof. intros Hx. apply get_fld. apply node_pos in Hx. lia. Qed.

Lemma node_put m x f v :
  words h m → is_node h x → (x = mm_heapend h → f = size ∨ f = preceding) →
  put m x f v = Some (upd m x f v).
Proof. intros Hw Hx Hf. apply put_upd; [apply node_pos in Hx; lia|by apply Hw]. Qed.

Lemma node_eqb_null x : is_node h x → (x =? NULL) = false.
Proof. intros Hx%node_pos. apply Z.eqb_neq. unfold NULL. lia. Qed.

Lemma sentinel_end x : sentinel h x → x ≠ mm_heapend h.
Proof.
  destruct Hpl. intros (i & Hi & ->). unfold nodelist, SIZEOF_MM_FREENODE.
  unfold MM_NNODES, MM_MAX_SHIFT, MM_MIN_SHIFT in Hi. lia.
Qed.

Lemma sentinel_not_caddr x : sentinel h x → caddr h x → False.
Proof.
  destruct Hpl. intros (i & Hi & ->) []. unfold nodelist, SIZEOF_MM_FREENODE in *.
  unfold MM_NNODES, MM_MAX_SHIFT, MM_MIN_SHIFT in Hi. lia.
Qed.

End Geometry.

(** ** The index of a size *)

Lemma size2ndx_loop_spec fuel sz ndx :
  1 ≤ sz < 2 ^ Z.of_nat fuel →
  ∃ k, 0 ≤ k ∧ mm_size2ndx_loop fuel sz ndx = ndx + k ∧ 2 ^ k ≤ sz < 2 ^ (k + 1).
Proof.
  revert sz ndx. induction fuel as [|fuel IH]; intros sz ndx Hsz; [simpl in Hsz; lia|].
  cbn [mm_size2ndx_loop]. destruct (Z.ltb_spec 1 sz).
  - rewrite Z.shiftr_div_pow2 by lia. change (2 ^ 1) with 2.
    rewrite Nat2Z.inj_succ, Z.pow_succ_r in Hsz by lia.
    destruct (IH (sz / 2) (ndx + 1)) as (k & ? & -> & Hk); [dlia|].
    exists (k + 1). split; [lia|]. split; [lia|].
    rewrite !Z.pow_add_r in * by lia. change (2 ^ 1) with 2 in *. dlia.
  - exists 0. split; [lia|]. split; [lia|]. simpl. lia.
Qed.

(** The sizes of the bucket [i] are those from [2 ^ (i + 4)] to the next power of two;
    the last bucket has no upper end. *)

Lemma size2ndx_spec sz :
  16 ≤ sz < 2 ^ 32 →
  0 ≤ mm_size2ndx sz < MM_NNODES ∧ 2 ^ (mm_size2ndx sz + 4) ≤ sz ∧
  (mm_size2ndx sz = MM_NNODES - 1 ∨ sz < 2 ^ (mm_size2ndx sz + 5)).
Proof.
  intros Hsz. unfold mm_size2ndx. change MM_MAX_CHUNK with (2 ^ 22).
  change MM_NNODES with 19. change MM_MIN_SHIFT with 4.
  destruct (Z.leb_spec (2 ^ 22) sz); [split; [lia|]; split; [simpl; lia|by left]|].
  rewrite Z.shiftr_div_pow2 by lia. change (2 ^ 4) with 16.
  destruct (size2ndx_loop_spec 32 (sz / 16) 0) as (k & ? & -> & Hk); [simpl; dlia|].
  rewrite Z.add_0_l. assert (k < 18).
  { apply (Z.pow_lt_mono_r_iff 2); [lia|lia|]. apply Z.le_lt_trans with (sz / 16); [lia|dlia]. }
  change 5 with (1 + 4). rewrite (Z.add_assoc k 1 4), !Z.pow_add_r in * by lia.
  change (2 ^ 4) with 16. dlia.
Qed.

(** ** The doubly linked list *)

Definition edge (m : gmap Z Z) (a b : Z) : Prop :=
  fld m a flink = Some b ∧ (b ≠ NULL → fld m b blink = Some a).

(** The nodes [L] are linked in this order, and the last one to [q]. *)

Fixpoint chain (m : gmap Z Z) (L : list Z) (q : Z) : Prop :=
  match L with
  | [] => True
  | a :: L => edge m a (List.hd q L) ∧ chain m L q
  end.

Lemma hd_app (L1 L2 : list Z) q : List.hd q (L1 ++ L2) = List.hd (List.hd q L2) L1.
Proof. by destruct L1. Qed.

Lemma links_app m L1 L2 q :
  chain m (L1 ++ L2) q ↔ chain m L1 (List.hd q L2) ∧ chain m L2 q.
Proof.
  induction L1 as [|a L1 IH]; simpl; [tauto|]. rewrite hd_app, IH. tauto.
Qed.

Lemma edge_frame m m' a b :
  fld m' a flink = fld m a flink → (b ≠ NULL → fld m' b blink = fld m b blink) →
  edge m a b → edge m' a b.
Proof. intros Hf Hb [??]. split; [by rewrite Hf|]. intros. rewrite Hb by done. auto. Qed.

Lemma chain_frame m m' L q :
  (∀ x, x ∈ L → fld m' x flink = fld m x flink) →
  (∀ x, x ∈ tail L ++ [q] → x ≠ NULL → fld m' x blink = fld m x blink) →
  chain m L q → chain m' L q.
Proof.
  induction L as [|a L IH]; simpl; [done|]. intros Hf Hb [He Hc]. split.
  - eapply edge_frame, He; [apply Hf; set_solver|]. intros Hq. apply Hb; [|done].
    destruct L; set_solver.
  - apply IH; [set_solver| |done]. intros x Hx. apply Hb. destruct L; set_solver.
Qed.

Lemma chain_flink m L q x : chain m L q → x ∈ L → is_Some (fld m x flink).
Proof.
  intros Hc [L1 [L2 ->]]%list_elem_of_split. apply links_app in Hc as [_ [[-> _] _]]. eauto.
Qed.

(** ** The list of the free chunks

    The key of a node is twice its size; a sentinel lies just before the smallest size
    of its bucket. *)

Definition key (h : mm_heap_s) (m : gmap Z Z) (x : Z) : Z :=
  if (mm_nodelist h <=? x) && (x <? mm_nodelist h + 304)
  then 2 ^ ((x - mm_nodelist h) / 16 + 5) - 1
  else 2 * default 0 (fld m x size).

Definition sentinels (h : mm_heap_s) : list Z := nodelist h <$> seqZ 0 MM_NNODES.

(** A chunk that can be on the list. *)

Definition free_node (h : mm_heap_s) (m : gmap Z Z) (x : Z) : Prop :=
  caddr h x ∧ x < mm_heapend h ∧ ∃ s, fld m x size = Some s ∧ 16 ≤ s < 2 ^ 31.

Record flist (h : mm_heap_s) (m : gmap Z Z) (F L : list Z) : Prop := {
  fl_chain : chain m L NULL;
  fl_perm : L ≡ₚ sentinels h ++ F;
  fl_nodup : NoDup L;
  fl_sorted : StronglySorted (λ x y, key h m x ≤ key h m y) L;
  fl_zero : ∀ x, sentinel h x → fld m x size = Some 0;
  fl_free : ∀ x, x ∈ F → free_node h m x
}.

Lemma elem_of_sentinels h x : x ∈ sentinels h ↔ sentinel h x.
Proof.
  unfold sentinels, sentinel. rewrite list_elem_of_fmap.
  split; intros (i & H1 & H2); exists i; rewrite ?elem_of_seqZ in *;
    change MM_NNODES with 19 in *; split; done || lia.
Qed.

Lemma key_sentinel h m i : 0 ≤ i < MM_NNODES → key h m (nodelist h i) = 2 ^ (i + 5) - 1.
Proof.
  change MM_NNODES with 19. intros Hi. unfold key, nodelist, SIZEOF_MM_FREENODE.
  case_if; [|lia]. do 3 f_equal. dlia.
Qed.

Lemma key_chunk h m x s :
  place h → caddr h x → fld m x size = Some s → key h m x = 2 * s.
Proof.
  intros [] [] Hs. unfold key. case_if; [lia|]. by rewrite Hs.
Qed.

(** What the operations on the list leave alone: all words but the links of its nodes. *)

Definition links_only (h : mm_heap_s) (F : list Z) (m m' : gmap Z Z) : Prop :=
  ∀ k, (∀ x, sentinel h x ∨ x ∈ F → k ≠ x + 8 ∧ k ≠ x + 12) → m' !! k = m !! k.

Lemma links_only_refl h F m : links_only h F m m.
Proof. done. Qed.

Lemma links_only_trans h F m1 m2 m3 :
  links_only h F m1 m2 → links_only h F m2 m3 → links_only h F m1 m3.
Proof. intros H1 H2 k Hk. by rewrite H2, H1. Qed.

Lemma links_only_upd h F m x f v :
  sentinel h x ∨ x ∈ F → f = flink ∨ f = blink → links_only h F m (upd m x f v).
Proof.
  intros Hx Hf k Hk. apply Hk in Hx. unfold upd. apply lookup_insert_ne.
  destruct Hf as [->| ->]; simpl; lia.
Qed.

Lemma links_only_mono h F F' m m' :
  (∀ x, x ∈ F → x ∈ F') → links_only h F m m' → links_only h F' m m'.
Proof. intros HF Hl k Hk. apply Hl. intros x [?|?]; apply Hk; auto. Qed.

Section FreeList.

Context (h : mm_heap_s) (Hpl : place h).
Implicit Types (m : gmap Z Z) (F L : list Z).

Lemma links_only_header F m m' x f :
  (∀ y, y ∈ F → caddr h y) → links_only h F m m' → is_node h x → f = size ∨ f = preceding →
  fld m' x f = fld m x f.
Proof.
  intros HF Hl Hx Hf. apply Hl. intros y Hy.
  assert (is_node h y) by (destruct Hy; [by right|left; auto]).
  split; intros He.
  - destruct (node_inj h Hpl x y f flink) as [_ ?]; [done..|]. by destruct Hf; simplify_eq.
  - destruct (node_inj h Hpl x y f blink) as [_ ?]; [done..|]. by destruct Hf; simplify_eq.
Qed.

Lemma free_node_node m x : free_node h m x → is_node h x.
Proof. intros [? _]. by left. Qed.

Lemma flist_node m F L x : flist h m F L → x ∈ L → is_node h x ∧ x ≠ mm_heapend h.
Proof.
  intros Hl Hx. rewrite (fl_perm _ _ _ _ Hl) in Hx. apply elem_of_app in Hx as [Hx|Hx].
  - apply elem_of_sentinels in Hx. split; [by right|by apply sentinel_end].
  - apply (fl_free _ _ _ _ Hl) in Hx as (? & ? & _). split; [by left|lia].
Qed.

(** Words that are not fields of the listed nodes can change. *)

Lemma key_frame m m' x : fld m' x size = fld m x size → key h m' x = key h m x.
Proof. intros Hs. unfold key. by rewrite Hs. Qed.

Lemma sorted_frame m m' L :
  (∀ x, x ∈ L → key h m' x = key h m x) →
  StronglySorted (λ x y, key h m x ≤ key h m y) L →
  StronglySorted (λ x y, key h m' x ≤ key h m' y) L.
Proof.
  intros Hk. induction 1 as [|a L Hs IH Ha]; constructor.
  - apply IH. intros x Hx. apply Hk. set_solver.
  - rewrite Forall_forall in *. intros x Hx. rewrite !Hk by set_solver. auto.
Qed.

Lemma sorted_sublist (R : relation Z) L1 L2 :
  L1 `sublist_of` L2 → StronglySorted R L2 → StronglySorted R L1.
Proof.
  induction 1 as [|a L1 L2 Hs IH|a L1 L2 Hs IH]; [done|intros [? Ha]%StronglySorted_inv..]; [|auto].
  constructor; [auto|]. rewrite Forall_forall in *. intros x Hx. apply Ha.
  by eapply elem_of_sublist.
Qed.

Lemma flist_frame m m' F L :
  (∀ x f, sentinel h x ∨ x ∈ F → f ≠ preceding → fld m' x f = fld m x f) →
  flist h m F L → flist h m' F L.
Proof.
  intros Hf Hl.
  assert (HL : ∀ x, x ∈ L → sentinel h x ∨ x ∈ F).
  { intros x Hx. rewrite (fl_perm _ _ _ _ Hl) in Hx.
    apply elem_of_app in Hx as [?%elem_of_sentinels|?]; auto. }
  destruct Hl as [Hc Hp Hn Hs Hz Hfr]. constructor; try done.
  - eapply chain_frame, Hc; [intros x Hx; by apply Hf; auto|].
    intros x Hx Hx0. apply elem_of_app in Hx as [Hx|Hx%list_elem_of_singleton]; [|done].
    apply Hf; [|done]. apply HL. destruct L; set_solver.
  - eapply sorted_frame, Hs. intros x Hx. apply key_frame, Hf; auto.
  - intros x Hx. rewrite Hf; auto.
  - intros x Hx. destruct (Hfr x Hx) as (? & ? & s & ? & ?). split; [done|]. split; [done|].
    exists s. rewrite Hf; auto.
Qed.

Lemma flist_perm m F F' L : F' ≡ₚ F → flist h m F L → flist h m F' L.
Proof.
  intros HF [Hc Hp Hn Hs Hz Hfr]. constructor; try done; [by rewrite HF|].
  intros x Hx. apply Hfr. by rewrite <- HF.
Qed.

Lemma flist_upd m F L x f v :
  flist h m F L → caddr h x → x ∉ F → flist h (upd m x f v) F L.
Proof.
  intros Hl Hx HxF. eapply flist_frame, Hl. intros y g Hy Hg. apply (fld_upd_ne h Hpl).
  - by left.
  - destruct Hy as [?|Hy]; [by right|]. left. by apply (fl_free _ _ _ _ Hl).
  - left. intros ->. destruct Hy as [Hy|?]; [|done]. by eapply sentinel_not_caddr.
Qed.

Lemma flist_upd_prec m F L x v :
  flist h m F L → is_node h x → flist h (upd m x preceding v) F L.
Proof.
  intros Hl Hx. eapply flist_frame, Hl. intros y g Hy Hg. apply (fld_upd_ne h Hpl); [done| |auto].
  destruct Hy as [?|Hy]; [by right|]. left. by apply (fl_free _ _ _ _ Hl).
Qed.

(** ** Linking two nodes *)

Definition relink (m : gmap Z Z) (a b : Z) : gmap Z Z :=
  let m := upd m a flink b in if b =? NULL then m else upd m b blink a.

Lemma relink_words m a b : words h m → words h (relink m a b).
Proof. intros Hw. unfold relink. case_if; eauto using words_upd. Qed.

Lemma relink_flink_ne m a b x :
  is_node h a → is_node h x → (b ≠ NULL → is_node h b) → x ≠ a →
  fld (relink m a b) x flink = fld m x flink.
Proof.
  intros Ha Hx Hb Hne. unfold relink. case_if; rewrite ?(fld_upd_ne h Hpl); auto.
Qed.

Lemma relink_blink_ne m a b x :
  is_node h a → is_node h x → (b ≠ NULL → is_node h b) → x ≠ b →
  fld (relink m a b) x blink = fld m x blink.
Proof.
  intros Ha Hx Hb Hne. unfold relink. case_if; rewrite ?(fld_upd_ne h Hpl); auto.
Qed.

Lemma relink_edge m a b :
  is_node h a → (b ≠ NULL → is_node h b) → edge (relink m a b) a b.
Proof.
  intros Ha Hb. unfold relink, edge. case_if.
  - rewrite fld_upd. split; [done|]. congruence.
  - rewrite (fld_upd_ne h Hpl), !fld_upd by auto. done.
Qed.

Lemma relink_chain_l m L a b :
  (∀ x, x ∈ L ++ [a] → is_node h x) → (b ≠ NULL → is_node h b) →
  a ∉ L → b ∉ L → b ≠ a → chain m L a → chain (relink m a b) (L ++ [a]) b.
Proof.
  intros HL Hb HaL HbL Hba Hc. apply links_app. split; simpl.
  - eapply chain_frame, Hc.
    + intros x Hx. apply relink_flink_ne; set_solver.
    + intros x Hx Hx0. apply relink_blink_ne; [set_solver| |done|].
      * apply HL. destruct L; set_solver.
      * intros ->. destruct L; set_solver.
  - split; [|done]. apply relink_edge; set_solver.
Qed.

Lemma relink_chain_r m L a b :
  (∀ x, x ∈ a :: L → is_node h x) → (b ≠ NULL → is_node h b) →
  a ∉ L → b ∉ tail L → chain m L NULL → chain (relink m a b) L NULL.
Proof.
  intros HL Hb HaL HbL Hc. eapply chain_frame, Hc.
  - intros x Hx. apply relink_flink_ne; set_solver.
  - intros x Hx Hx0. apply elem_of_app in Hx as [Hx|Hx%list_elem_of_singleton]; [|done].
    apply relink_blink_ne; [set_solver| |done|]; destruct L; set_solver.
Qed.

Lemma hd_fresh L1 L2 :
  (∀ x, x ∈ L1 ++ L2 → is_node h x) → NoDup (L1 ++ L2) → List.hd NULL L2 ∉ L1.
Proof.
  intros HL Hnd Hin. destruct L2 as [|b L2]; simpl in Hin.
  - destruct (node_pos h Hpl NULL) as [? _]; [apply HL; set_solver|]. done.
  - apply NoDup_app in Hnd as (_ & Hnd & _). destruct (Hnd b); set_solver.
Qed.

(** [a] is put in front of [L2], after [L1]. *)

Lemma relink_chain m L1 a L2 :
  (∀ x, x ∈ L1 ++ a :: L2 → is_node h x) → NoDup (L1 ++ a :: L2) →
  chain m L1 a → chain m L2 NULL →
  chain (relink m a (List.hd NULL L2)) (L1 ++ a :: L2) NULL.
Proof.
  intros HL Hnd Hc1 Hc2. change (a :: L2) with ([a] ++ L2) in *. rewrite app_assoc in *.
  assert (Hb : List.hd NULL L2 ≠ NULL → is_node h (List.hd NULL L2)).
  { intros ?. apply HL. destruct L2; set_solver. }
  pose proof (hd_fresh _ _ HL Hnd) as Hhd. apply NoDup_app in Hnd as (Hnd1 & Hd & Hnd2).
  apply NoDup_app in Hnd1 as (_ & Hd1 & _). apply links_app. split.
  - apply relink_chain_l; set_solver.
  - apply relink_chain_r; [set_solver|done|set_solver| |done].
    destruct L2; simpl; [set_solver|]. by apply NoDup_cons in Hnd2 as [? _].
Qed.

Lemma relink_links_only m F a b :
  sentinel h a ∨ a ∈ F → (b ≠ NULL → sentinel h b ∨ b ∈ F) → links_only h F m (relink m a b).
Proof.
  intros Ha Hb. unfold relink. case_if; [by apply links_only_upd; auto|].
  apply (links_only_trans _ _ _ (upd m a flink b)); apply links_only_upd; auto.
Qed.

(** The two pointers around [x] are turned to each other. *)

Lemma unlink_relink m L1 a x L2 :
  words h m → (∀ y, y ∈ L1 ++ a :: x :: L2 → is_node h y ∧ y ≠ mm_heapend h) →
  NoDup (L1 ++ a :: x :: L2) → chain m (L1 ++ a :: x :: L2) NULL →
  mm_unlink m x = Some (relink m a (List.hd NULL L2)).
Proof.
  intros Hw HL Hnd Hc. apply links_app in Hc as [_ [[Ha1 Ha2] [[Hx1 Hx2] _]]].
  apply NoDup_app in Hnd as (_ & _ & Hnd). cbn [List.hd] in *.
  assert (Hna : is_node h a) by (apply HL; set_solver).
  assert (Hnx : is_node h x) by (apply HL; set_solver).
  assert (Hne : a ≠ x) by (inversion Hnd; set_solver).
  assert (He : a ≠ mm_heapend h) by (apply HL; set_solver).
  assert (x ≠ NULL) by (apply node_pos in Hnx; [|done]; unfold NULL; lia).
  unfold mm_unlink. rewrite !(node_get h Hpl) by done. rewrite Ha2, Hx1 by done.
  cbn [mbind option_bind]. rewrite (node_eqb_null h Hpl) by done. cbn [negb DEBUGASSERT mbind option_bind].
  rewrite (node_put h Hpl) by (done || by intros). cbn [mbind option_bind].
  rewrite !(node_get h Hpl), !(fld_upd_ne h Hpl), Hx1, Ha2 by auto. cbn [mbind option_bind].
  unfold relink. destruct L2 as [|b L2]; cbn [List.hd] in *; [done|].
  assert (Hnb : is_node h b) by (apply HL; set_solver).
  assert (b ≠ mm_heapend h) by (apply HL; set_solver).
  rewrite (node_eqb_null h Hpl) by done. apply (node_put h Hpl); [by apply words_upd|done|by intros].
Qed.

Lemma flist_elem m F L x : flist h m F L → x ∈ L ↔ sentinel h x ∨ x ∈ F.
Proof. intros Hl. by rewrite (fl_perm _ _ _ _ Hl), elem_of_app, elem_of_sentinels. Qed.

Lemma flist_links m m' F G L :
  flist h m F L → (∀ x, x ∈ G → caddr h x) → links_only h G m m' →
  (∀ x, x ∈ L → key h m' x = key h m x) ∧ (∀ x, sentinel h x → fld m' x size = Some 0) ∧
  (∀ x, free_node h m x → free_node h m' x).
Proof.
  intros Hl HG Hlo. split; [|split].
  - intros x Hx. apply key_frame. eapply links_only_header; eauto. by eapply flist_node.
  - intros x Hx. rewrite <- (fl_zero _ _ _ _ Hl x Hx). eapply links_only_header; eauto. by right.
  - intros x (? & ? & s & Hs & ?). split; [done|]. split; [done|]. exists s. split; [|done].
    rewrite <- Hs. eapply links_only_header; eauto. by left.
Qed.

(** ** A chunk leaves the list *)

Lemma flist_pred m F L0 x L2 :
  flist h m F (L0 ++ x :: L2) → x ∈ F → ∃ L1 a, L0 = L1 ++ [a].
Proof.
  intros Hl HxF. destruct (exists_last (l := L0)) as (L1 & a & ->); [|eauto]. intros ->.
  assert (H0 : nodelist h 0 ∈ x :: L2) by (apply (flist_elem _ _ _ _ Hl); left; by exists 0).
  destruct (fl_free _ _ _ _ Hl x HxF) as (Hcx & _ & s & Hs & ?).
  apply elem_of_cons in H0 as [H0|H0].
  - destruct (sentinel_not_caddr h Hpl x); [by exists 0|done].
  - pose proof (fl_sorted _ _ _ _ Hl) as Hso. apply StronglySorted_inv in Hso as [_ Hso].
    rewrite Forall_forall in Hso. specialize (Hso _ H0).
    rewrite (key_chunk h m x s), key_sentinel in Hso by done. simpl in Hso. lia.
Qed.

Lemma flist_unlink m F F' L x :
  words h m → flist h m F L → F ≡ₚ x :: F' →
  ∃ m' L', mm_unlink m x = Some m' ∧ flist h m' F' L' ∧ words h m' ∧ links_only h F m m'.
Proof.
  intros Hw Hl HF. assert (HxF : x ∈ F) by (rewrite HF; set_solver).
  assert (HxL : x ∈ L) by (apply (flist_elem _ _ _ _ Hl); auto).
  apply list_elem_of_split in HxL as (L0 & L2 & ->).
  destruct (flist_pred _ _ _ _ _ Hl HxF) as (L1 & a & ->).
  rewrite <- app_assoc in Hl. simpl in Hl.
  pose proof (fl_nodup _ _ _ _ Hl) as Hnd. pose proof (fl_chain _ _ _ _ Hl) as Hc.
  assert (HL : ∀ y, y ∈ L1 ++ a :: x :: L2 → is_node h y ∧ y ≠ mm_heapend h)
    by (intros; by eapply flist_node).
  assert (Hlo : links_only h F m (relink m a (List.hd NULL L2))).
  { apply relink_links_only; [|intros Hb]; apply (flist_elem _ _ _ _ Hl); [set_solver|].
    destruct L2; set_solver. }
  assert (Hsub : L1 ++ a :: L2 `sublist_of` L1 ++ a :: x :: L2)
    by (apply sublist_app; [done|]; by apply sublist_skip, sublist_cons).
  exists (relink m a (List.hd NULL L2)), (L1 ++ a :: L2).
  split; [by apply (unlink_relink m L1 a x L2)|]. split; [|split; [by apply relink_words|done]].
  destruct (flist_links m _ F F _ Hl (λ y Hy, proj1 (fl_free _ _ _ _ Hl y Hy)) Hlo)
    as (Hk & Hz & Hfr).
  apply links_app in Hc as [Hc1 [_ [_ Hc2]]]. constructor.
  - apply relink_chain; [intros; apply HL; set_solver| |done..]. by eapply sublist_NoDup.
  - apply (Permutation_cons_inv (a := x)). rewrite (Permutation_middle (sentinels h)), <- HF,
      <- (fl_perm _ _ _ _ Hl). change (a :: L2) with ([a] ++ L2).
    change (a :: x :: L2) with ([a] ++ x :: L2). rewrite !app_assoc. by apply Permutation_middle.
  - by eapply sublist_NoDup.
  - apply (sorted_frame m); [intros; apply Hk; set_solver|].
    by eapply sorted_sublist, (fl_sorted _ _ _ _ Hl).
  - done.
  - intros y Hy. apply Hfr, (fl_free _ _ _ _ Hl). rewrite HF. set_solver.
Qed.

(** ** A chunk joins the list *)

Lemma flist_size m F L x :
  flist h m F L → x ∈ L →
  (∃ i, 0 ≤ i < MM_NNODES ∧ x = nodelist h i ∧ fld m x size = Some 0) ∨
  (x ∈ F ∧ ∃ s, fld m x size = Some s ∧ 16 ≤ s < 2 ^ 31 ∧ key h m x = 2 * s).
Proof.
  intros Hl [Hx|Hx]%(flist_elem _ _ _ _ Hl).
  - left. pose proof (fl_zero _ _ _ _ Hl x Hx). destruct Hx as (i & ? & ->). eauto.
  - right. split; [done|]. destruct (fl_free _ _ _ _ Hl x Hx) as (? & _ & s & ? & ?).
    exists s. split; [done|]. split; [done|]. by apply key_chunk.
Qed.

Lemma flist_length m F L : flist h m F L → (length L < S (base.size m))%nat.
Proof.
  intros Hl. apply Nat.lt_succ_r. rewrite <- (size_dom (D := gset Z)).
  rewrite <- (length_fmap (λ x, x + 8)), <- (size_list_to_set (C := gset Z)).
  - apply subseteq_size. intros k Hk. apply elem_of_list_to_set, list_elem_of_fmap in Hk as (x & -> & Hx).
    apply elem_of_dom. exact (chain_flink _ _ _ x (fl_chain _ _ _ _ Hl) Hx).
  - apply NoDup_fmap_2; [intros ???; lia|]. apply (fl_nodup _ _ _ _ Hl).
Qed.

Lemma last_cons (L : list Z) a b : List.last (b :: L) a = List.last L b.
Proof.
  revert a b. induction L as [|c L IH]; intros a b; [done|].
  change (List.last (c :: L) a = List.last (c :: L) b). by rewrite !IH.
Qed.

Lemma findplace_spec m sz L prev fuel :
  (∀ x, x ∈ L → is_node h x ∧ is_Some (fld m x size)) → chain m L NULL →
  (length L < fuel)%nat →
  ∃ La Lb, L = La ++ Lb ∧
    mm_findplace fuel m sz prev (List.hd NULL L) = Some (List.last La prev, List.hd NULL Lb) ∧
    (∀ x, x ∈ La → ∃ s, fld m x size = Some s ∧ s ≠ 0 ∧ s < sz) ∧
    (∀ x Lb', Lb = x :: Lb' → fld m x size = Some 0 ∨ ∃ s, fld m x size = Some s ∧ sz ≤ s).
Proof.
  revert prev fuel. induction L as [|x L IH]; intros prev [|fuel] HL Hc Hf;
    cbn [length] in Hf; try lia; cbn [mm_findplace List.hd].
  - exists [], []. split; [done|]. split; [done|]. split; intros; [set_solver|done].
  - destruct (HL x) as [Hx [s Hs]]; [set_solver|].
    rewrite (node_eqb_null h Hpl), !(node_get h Hpl), Hs by done. cbn [mbind option_bind].
    destruct Hc as [[Hfl _] Hc]. case_if.
    + rewrite Hfl. cbn [mbind option_bind].
      destruct (IH x fuel) as (La & Lb & -> & -> & Ha & Hb); [set_solver|done|lia|].
      exists (x :: La), Lb. split; [done|]. split; [|split; [|done]].
      * by rewrite last_cons.
      * intros y [->|Hy]%elem_of_cons; [eauto|auto].
    + exists [], (x :: L). split; [done|]. split; [done|]. split; [set_solver|].
      intros y L' [= <- <-]. apply andb_false_iff in E as [E|E]; bool_to_prop.
      * left. by subst.
      * right. exists s. split; [done|lia].
Qed.

Lemma insert_chain m L1 a x L2 :
  (∀ y, y ∈ L1 ++ a :: x :: L2 → is_node h y) → NoDup (L1 ++ a :: x :: L2) →
  chain m (L1 ++ a :: L2) NULL →
  chain (relink (relink m a x) x (List.hd NULL L2)) (L1 ++ a :: x :: L2) NULL.
Proof.
  intros HL Hnd [Hc1 [_ Hc2]]%links_app. change (a :: x :: L2) with ([a] ++ x :: L2) in *.
  rewrite app_assoc in *. pose proof Hnd as (Hnd1 & Hd & Hnd2)%NoDup_app.
  apply NoDup_app in Hnd1 as (_ & Hd1 & _). apply NoDup_cons in Hnd2 as [HxL2 Hnd2].
  apply relink_chain; [done|done| |].
  - apply relink_chain_l; set_solver.
  - apply relink_chain_r; [set_solver..| |done]. destruct L2; set_solver.
Qed.

Lemma insert_sorted (R : relation Z) L1 x L2 :
  StronglySorted R (L1 ++ L2) → (∀ y, y ∈ L1 → R y x) → (∀ y, y ∈ L2 → R x y) →
  StronglySorted R (L1 ++ x :: L2).
Proof.
  intros (H12 & H1 & H2)%StronglySorted_app Hl Hr. apply StronglySorted_app. split; [|split; [done|]].
  - intros y z Hy [->|Hz]%elem_of_cons; auto.
  - constructor; [done|]. by apply Forall_forall.
Qed.

Lemma flist_insert m F L1 a L2 x s :
  words h m → flist h m F (L1 ++ a :: L2) → caddr h x → x < mm_heapend h → x ∉ F →
  fld m x size = Some s → 16 ≤ s < 2 ^ 31 →
  (∀ y, y ∈ L1 ++ [a] → key h m y ≤ 2 * s) → (∀ y, y ∈ L2 → 2 * s ≤ key h m y) →
  let m' := relink (relink m a x) x (List.hd NULL L2) in
  flist h m' (x :: F) (L1 ++ a :: x :: L2) ∧ links_only h (x :: F) m m'.
Proof.
  intros Hw Hl Hcx Hxe HxF Hs Hsz Hle Hge m'.
  assert (Hxn : is_node h x) by by left.
  assert (HxL : x ∉ L1 ++ a :: L2).
  { intros Hx. apply (flist_elem _ _ _ _ Hl) in Hx as [Hx|Hx]; [|done].
    by eapply sentinel_not_caddr. }
  assert (HL : ∀ y, y ∈ L1 ++ a :: x :: L2 → is_node h y).
  { intros y Hy. destruct (decide (y = x)) as [->|]; [done|]. apply (flist_node _ _ _ y Hl). set_solver. }
  assert (Hnd : NoDup (L1 ++ a :: x :: L2)).
  { change (a :: x :: L2) with ([a] ++ x :: L2). rewrite app_assoc, <- Permutation_middle.
    rewrite <- app_assoc. apply NoDup_cons. split; [done|apply (fl_nodup _ _ _ _ Hl)]. }
  assert (Hlo : links_only h (x :: F) m m').
  { apply (links_only_trans _ _ _ (relink m a x)); apply relink_links_only; [|set_solver..|].
    - destruct (flist_elem _ _ _ a Hl) as [[?|?] _]; set_solver.
    - intros Hn. destruct L2 as [|b L2]; [done|].
      destruct (flist_elem _ _ _ b Hl) as [[?|?] _]; set_solver. }
  destruct (flist_links m m' F (x :: F) _ Hl) as (Hk & Hz & Hfr); [|done|].
  { intros y [->|Hy]%elem_of_cons; [done|]. by apply (fl_free _ _ _ _ Hl). }
  assert (Hfx : free_node h m x) by (split; [done|]; split; [done|]; eauto).
  assert (Hkx : key h m' x = 2 * s).
  { destruct (Hfr x Hfx) as (_ & _ & s' & Hs' & _). rewrite (key_chunk h m' x s') by done.
    assert (Some s' = Some s); [|congruence]. rewrite <- Hs, <- Hs'.
    eapply links_only_header; [|done..|auto].
    intros y [->|Hy]%elem_of_cons; [done|]. by apply (fl_free _ _ _ _ Hl). }
  split; [|done]. constructor.
  - apply insert_chain; [done..|]. apply (fl_chain _ _ _ _ Hl).
  - rewrite <- (Permutation_middle (sentinels h)), <- (fl_perm _ _ _ _ Hl).
    change (a :: x :: L2) with ([a] ++ x :: L2). rewrite app_assoc, <- Permutation_middle.
    by rewrite <- app_assoc.
  - done.
  - change (a :: x :: L2) with ([a] ++ x :: L2). rewrite app_assoc. apply insert_sorted.
    + rewrite <- app_assoc. by apply (sorted_frame m), (fl_sorted _ _ _ _ Hl).
    + intros y Hy. rewrite Hkx, (Hk y) by set_solver. auto.
    + intros y Hy. rewrite Hkx, (Hk y) by set_solver. auto.
  - done.
  - intros y [->|Hy]%elem_of_cons; [auto|]. apply Hfr. by apply (fl_free _ _ _ _ Hl).
Qed.

Lemma list_split_last (L : list Z) a : ∃ L', a :: L = L' ++ [List.last L a].
Proof.
  revert a. induction L as [|b L IH]; intros a; [by exists []|].
  destruct (IH b) as [L' HL]. exists (a :: L'). by rewrite last_cons, HL.
Qed.

(** Where the walk from the bucket of the size [s] stops, the larger keys begin. *)

Lemma flist_above m F L0 i La Lb s :
  flist h m F (L0 ++ nodelist h i :: La ++ Lb) → 0 ≤ i < MM_NNODES →
  (i = MM_NNODES - 1 ∨ s < 2 ^ (i + 5)) →
  (∀ x Lb', Lb = x :: Lb' → fld m x size = Some 0 ∨ ∃ t, fld m x size = Some t ∧ s ≤ t) →
  ∀ y, y ∈ Lb → 2 * s ≤ key h m y.
Proof.
  intros Hl Hi Hhi Hb y Hy. destruct Lb as [|b Lb]; [set_solver|].
  pose proof (fl_sorted _ _ _ _ Hl) as (_ & _ & [Hs1 Hs2]%StronglySorted_inv)%StronglySorted_app.
  rewrite Forall_forall in Hs2. apply StronglySorted_app in Hs1 as (_ & _ & [_ Hs3]%StronglySorted_inv).
  rewrite Forall_forall in Hs3.
  assert (2 * s ≤ key h m b) as Hkb; [|apply elem_of_cons in Hy as [->|Hy]; [done|etrans; eauto]].
  destruct (flist_size _ _ _ b Hl) as [(j & Hj & -> & Hz)|(_ & t & Ht & Htr & ->)]; [set_solver| |].
  - assert (Hle : key h m (nodelist h i) ≤ key h m (nodelist h j)) by (apply Hs2; set_solver).
    rewrite !key_sentinel in * by done.
    assert (i ≤ j).
    { apply Z.le_ngt. intros Hlt. pose proof (Z.pow_lt_mono_r 2 (j + 5) (i + 5)). lia. }
    assert (i ≠ j).
    { intros <-. pose proof (fl_nodup _ _ _ _ Hl) as (_ & _ & [Hni _]%NoDup_cons)%NoDup_app.
      set_solver. }
    destruct Hhi as [->|Hhi]; [lia|].
    assert (Hp : 2 ^ (i + 6) ≤ 2 ^ (j + 5)) by (apply Z.pow_le_mono_r; lia).
    replace (i + 6) with (i + 5 + 1) in Hp by lia. rewrite Z.pow_add_r in Hp by lia. lia.
  - destruct (Hb b Lb eq_refl) as [?|(t' & ? & ?)]; simplify_eq; lia.
Qed.

(** The place that [mm_addfreechunk] finds. *)

Lemma flist_place m F L s :
  flist h m F L → 16 ≤ s < 2 ^ 31 →
  ∃ L1 a L2 n, L = L1 ++ a :: L2 ∧
    fld m (nodelist h (mm_size2ndx s)) flink = Some n ∧
    mm_findplace (S (base.size m)) m s (nodelist h (mm_size2ndx s)) n = Some (a, List.hd NULL L2) ∧
    (∀ y, y ∈ L1 ++ [a] → key h m y ≤ 2 * s) ∧ (∀ y, y ∈ L2 → 2 * s ≤ key h m y).
Proof.
  intros Hl Hs. destruct (size2ndx_spec s) as (Hi & Hlo & Hhi); [lia|].
  set (i := mm_size2ndx s) in *.
  assert (HS : nodelist h i ∈ L) by (apply (flist_elem _ _ _ _ Hl); left; by exists i).
  apply list_elem_of_split in HS as (L0 & L3 & ->).
  pose proof (fl_sorted _ _ _ _ Hl) as Hso. pose proof (fl_chain _ _ _ _ Hl) as Hc.
  apply links_app in Hc as [_ [[Hfl _] Hc]].
  destruct (findplace_spec m s L3 (nodelist h i) (S (base.size m))) as (La & Lb & -> & Hfp & Ha & Hb).
  { intros x Hx. assert (x ∈ L0 ++ nodelist h i :: L3) as Hx' by set_solver.
    split; [by apply (flist_node _ _ _ x Hl)|].
    destruct (flist_size _ _ _ x Hl Hx') as [(? & _ & _ & ?)|(_ & ? & ? & _)]; eauto. }
  { done. }
  { pose proof (flist_length _ _ _ Hl) as Hlen. rewrite length_app in Hlen. simpl in Hlen. lia. }
  destruct (list_split_last La (nodelist h i)) as [L1 HL1].
  exists (L0 ++ L1), (List.last La (nodelist h i)), Lb, (List.hd NULL (La ++ Lb)).
  assert (Heq : L0 ++ nodelist h i :: La ++ Lb = (L0 ++ L1) ++ List.last La (nodelist h i) :: Lb).
  { change (nodelist h i :: La ++ Lb) with ((nodelist h i :: La) ++ Lb). rewrite HL1.
    by rewrite <- !app_assoc. }
  split; [done|]. split; [done|]. split; [done|].
  assert (Hki : key h m (nodelist h i) ≤ 2 * s).
  { rewrite key_sentinel by done. replace (i + 5) with (i + 4 + 1) by lia.
    rewrite Z.pow_add_r by lia. lia. }
  split.
  - intros y Hy. rewrite <- app_assoc, <- HL1 in Hy. apply elem_of_app in Hy as [Hy|Hy].
    + etrans; [|exact Hki]. eapply (StronglySorted_app_1_elem_of _ _ _ _ _ Hso); set_solver.
    + apply elem_of_cons in Hy as [->|Hy]; [done|]. destruct (Ha y Hy) as (t & Ht & ? & ?).
      destruct (flist_size _ _ _ y Hl) as [(? & _ & _ & ?)|(_ & ? & ? & _ & ->)];
        [set_solver|congruence|]. simplify_eq. lia.
  - apply (flist_above m F L0 i La Lb s Hl); [done..|].
    by destruct Hhi.
Qed.

Lemma addfreechunk_spec m F L x s p :
  words h m → flist h m F L → caddr h x → x < mm_heapend h → x ∉ F →
  fld m x size = Some s → 16 ≤ s < 2 ^ 31 → fld m x preceding = Some p → allocated p = false →
  ∃ m' L', mm_addfreechunk (set_mem h m) x = Some (set_mem h m') ∧
    flist h m' (x :: F) L' ∧ words h m' ∧ links_only h (x :: F) m m'.
Proof.
  intros Hw Hl Hcx Hxe HxF Hs Hsz Hp Hal.
  destruct (flist_place m F L s Hl Hsz) as (L1 & a & L2 & n & -> & Hn & Hfp & Hle & Hge).
  destruct (flist_insert m F L1 a L2 x s) as [Hl' Hlo]; [done..|].
  eexists _, (L1 ++ a :: x :: L2). split; [|split; [exact Hl'|split; [|done]]].
  2: { by do 2 apply relink_words. }
  assert (Hxn : is_node h x) by by left.
  destruct (size2ndx_spec s) as [Hi _]; [lia|].
  unfold mm_addfreechunk. cbn [mem set_mem].
  rewrite !(node_get h Hpl _ x), Hs, Hp by done. cbn [mbind option_bind].
  change (nodelist (set_mem h m)) with (nodelist h). change SIZEOF_MM_FREENODE with 16.
  rewrite (proj2 (Z.leb_le 16 s)), Hal by lia. cbn [mbind option_bind DEBUGASSERT negb].
  rewrite (node_get h Hpl), Hn by (right; eexists; eauto). cbn [mbind option_bind].
  rewrite Hfp. cbn [mbind option_bind].
  assert (Ha : is_node h a ∧ a ≠ mm_heapend h) by (apply (flist_node _ _ _ a Hl); set_solver).
  assert (a ≠ x).
  { intros ->. pose proof (fl_nodup _ _ _ _ Hl') as (_ & _ & [? _]%NoDup_cons)%NoDup_app. set_solver. }
  rewrite (node_put h Hpl) by (done || tauto). cbn [mbind option_bind].
  rewrite (node_put h Hpl) by (eauto using words_upd || lia). cbn [mbind option_bind].
  rewrite (node_put h Hpl) by (eauto using words_upd || lia). cbn [mbind option_bind].
  unfold relink at 1 2. rewrite (node_eqb_null h Hpl x Hxn).
  destruct L2 as [|b L2]; cbn [List.hd]; [done|].
  assert (Hb : is_node h b ∧ b ≠ mm_heapend h) by (apply (flist_node _ _ _ b Hl); set_solver).
  rewrite (node_eqb_null h Hpl b) by tauto.
  rewrite (node_put h Hpl) by (eauto using words_upd || tauto). done.
Qed.

(** ** The search of [mm_malloc] *)

Lemma search_walk m sz L prev fuel :
  (∀ x, x ∈ prev :: L → is_node h x ∧ is_Some (fld m x size)) → chain m (prev :: L) NULL →
  (length L < fuel)%nat →
  ∃ La Lb, L = La ++ Lb ∧ mm_search fuel m sz (List.hd NULL L) = Some (List.hd NULL Lb) ∧
    (∀ x, x ∈ La → ∃ s, fld m x size = Some s ∧ s < sz) ∧
    (∀ x Lb', Lb = x :: Lb' → ∃ s, fld m x size = Some s ∧ sz ≤ s).
Proof.
  revert prev fuel. induction L as [|x L IH]; intros prev [|fuel] HL Hc Hf;
    cbn [length] in Hf; try lia; cbn [mm_search List.hd].
  - exists [], []. split; [done|]. split; [done|]. split; intros; [set_solver|done].
  - destruct (HL x) as [Hx [s Hs]]; [set_solver|]. destruct (HL prev) as [Hpr _]; [set_solver|].
    rewrite (node_eqb_null h Hpl), !(node_get h Hpl), Hs by done. cbn [mbind option_bind].
    destruct Hc as [[Hfp Hbl] Hc]. cbn [List.hd] in *.
    assert (x ≠ NULL) by (apply node_pos in Hx; [|done]; unfold NULL; lia). case_if.
    + rewrite Hbl by done. cbn [mbind option_bind]. rewrite (node_get h Hpl), Hfp by done.
      cbn [mbind option_bind]. rewrite Z.eqb_refl. cbn [mbind option_bind DEBUGASSERT].
      rewrite (proj1 (proj1 Hc)). cbn [mbind option_bind].
      destruct (IH x fuel) as (La & Lb & -> & -> & Ha & Hb); [set_solver|done|lia|].
      exists (x :: La), Lb. split; [done|]. split; [done|]. split; [|done].
      intros y [->|Hy]%elem_of_cons; [eauto|auto].
    + exists [], (x :: L). split; [done|]. split; [done|]. split; [set_solver|].
      intros y L' [= <- <-]. eauto.
Qed.

Lemma flist_low m F L0 i L3 a y t :
  flist h m F (L0 ++ nodelist h i :: L3) → 0 ≤ i < MM_NNODES → 2 ^ (i + 4) ≤ a → y ∈ L0 →
  fld m y size = Some t → y ∈ F → t < a.
Proof.
  intros Hl Hi Ha Hy Ht HyF.
  pose proof (StronglySorted_app_1_elem_of _ _ _ y (nodelist h i) (fl_sorted _ _ _ _ Hl) Hy) as Hk.
  destruct (fl_free _ _ _ _ Hl y HyF) as (Hc & _). simpl in Hk.
  rewrite (key_chunk h m y t), key_sentinel in Hk by (done || set_solver).
  replace (i + 5) with (i + 4 + 1) in Hk by lia. rewrite Z.pow_add_r in Hk by lia.
  assert (2 * t ≤ 2 ^ (i + 4) * 2 ^ 1 - 1) by (apply Hk; set_solver). lia.
Qed.

(** The search finds a smallest chunk that is large enough, if there is one. *)

Lemma flist_search m F L a :
  flist h m F L → 16 ≤ a < 2 ^ 32 →
  ∃ first x, fld m (nodelist h (mm_size2ndx a)) flink = Some first ∧
    mm_search (S (base.size m)) m a first = Some x ∧
    ((x = NULL ∧ ∀ y t, y ∈ F → fld m y size = Some t → t < a) ∨
     (x ∈ F ∧ ∃ s, fld m x size = Some s ∧ a ≤ s ∧
        ∀ y t, y ∈ F → fld m y size = Some t → a ≤ t → s ≤ t)).
Proof.
  intros Hl Ha. destruct (size2ndx_spec a Ha) as (Hi & Hlo & _). set (i := mm_size2ndx a) in *.
  assert (HS : nodelist h i ∈ L) by (apply (flist_elem _ _ _ _ Hl); left; by exists i).
  apply list_elem_of_split in HS as (L0 & L3 & ->).
  pose proof (fl_chain _ _ _ _ Hl) as [_ Hc]%links_app.
  destruct (search_walk m a L3 (nodelist h i) (S (base.size m))) as (La & Lb & -> & Hse & HLa & HLb).
  { intros x Hx. assert (x ∈ L0 ++ nodelist h i :: L3) as Hx' by set_solver.
    split; [by apply (flist_node _ _ _ x Hl)|].
    destruct (flist_size _ _ _ x Hl Hx') as [(? & _ & _ & ?)|(_ & ? & ? & _)]; eauto. }
  { done. }
  { pose proof (flist_length _ _ _ Hl) as Hlen. rewrite length_app in Hlen. simpl in Hlen. lia. }
  exists (List.hd NULL (La ++ Lb)), (List.hd NULL Lb). split; [apply Hc|]. split; [done|].
  assert (Hsmall : ∀ y t, y ∈ F → y ∉ Lb → fld m y size = Some t → t < a).
  { intros y t HyF Hy Ht. assert (HyL : y ∈ L0 ++ nodelist h i :: La ++ Lb)
      by (apply (flist_elem _ _ _ _ Hl); auto).
    apply elem_of_app in HyL as [?|[->|[Hya|?]%elem_of_app]%elem_of_cons]; [|exfalso| |done].
    - by eapply flist_low.
    - destruct (fl_free _ _ _ _ Hl _ HyF) as [? _]. eapply sentinel_not_caddr; [done| |done]. by exists i.
    - destruct (HLa y Hya) as (? & ? & ?). by simplify_eq. }
  destruct Lb as [|x Lb]; simpl.
  - left. split; [done|]. intros. eapply Hsmall; [done| |done]. set_solver.
  - right. destruct (HLb x Lb eq_refl) as (s & Hs & Has).
    destruct (flist_size _ _ _ x Hl) as [(? & _ & _ & ?)|(HxF & ? & ? & _ & Hkx)];
      [set_solver|simplify_eq; lia|]. simplify_eq.
    split; [done|]. exists s. split; [done|]. split; [done|]. intros y t HyF Ht Hat.
    destruct (decide (y ∈ x :: Lb)) as [[->|Hy]%elem_of_cons|Hy];
      [by simplify_eq| |pose proof (Hsmall y t HyF Hy Ht); lia].
    pose proof (fl_sorted _ _ _ _ Hl) as (_ & _ & [Hso _]%StronglySorted_inv)%StronglySorted_app.
    apply StronglySorted_app in Hso as (_ & _ & [_ Hso]%StronglySorted_inv).
    rewrite Forall_forall in Hso. specialize (Hso y Hy). destruct (fl_free _ _ _ _ Hl y HyF) as [? _].
    rewrite Hkx, (key_chunk h m y t) in Hso by done. lia.
Qed.

End FreeList.

End MmList.
