(* ===== verification/MmLayout.v ===== *)
(** * The chunks of the heap

    The region is tiled by the chunks: a list of sizes and allocation flags describes
    it.  How the headers in memory describe the same list, and what changes of the
    list a few writes to the headers make. *)

From S2P Require Import Prelude MmHeap MmList.

Module MmLayout.
Import MmHeap MmList.

(** ** The word with the size of the preceding chunk *)

Definition prec_word (p : Z) (b : bool) : Z := Z.lor p (if b then MM_ALLOC_BIT else 0).

Lemma alloc_bit_spec i : Z.testbit MM_ALLOC_BIT i = (i =? 31).
Proof.
  change MM_ALLOC_BIT with (2 ^ 31). destruct (Z.eqb_spec i 31) as [->|].
  - by apply Z.pow2_bits_true.
  - apply Z.pow2_bits_false. done.
Qed.

Lemma small_bit_31 p : 0 ≤ p < 2 ^ 31 → Z.testbit p 31 = false.
Proof.
  intros Hp. destruct (decide (p = 0)) as [->|]; [apply Z.bits_0|].
  apply Z.bits_above_log2; [lia|]. apply Z.log2_lt_pow2; lia.
Qed.

Lemma prec_word_bit p b i :
  0 ≤ p < 2 ^ 31 → Z.testbit (prec_word p b) i = if i =? 31 then b else Z.testbit p i.
Proof.
  intros Hp. unfold prec_word. rewrite Z.lor_spec. destruct b; rewrite ?Z.bits_0, ?alloc_bit_spec.
  all: destruct (Z.eqb_spec i 31) as [->|]; rewrite ?small_bit_31, ?orb_false_r by done; done.
Qed.

Lemma allocated_prec p b : 0 ≤ p < 2 ^ 31 → allocated (prec_word p b) = b.
Proof.
  intros Hp. unfold allocated. destruct b.
  - apply negb_true_iff, Z.eqb_neq. intros H0. apply (f_equal (λ z, Z.testbit z 31)) in H0.
    by rewrite Z.land_spec, prec_word_bit, alloc_bit_spec, Z.bits_0 in H0.
  - apply negb_false_iff, Z.eqb_eq, Z.bits_inj'. intros i _.
    rewrite Z.land_spec, prec_word_bit, alloc_bit_spec, Z.bits_0 by done.
    destruct (i =? 31); [done|]. by rewrite andb_false_r.
Qed.

Lemma prec_size_prec p b : 0 ≤ p < 2 ^ 31 → prec_size (prec_word p b) = p.
Proof.
  intros Hp. apply Z.bits_inj'. intros i _. unfold prec_size.
  rewrite Z.ldiff_spec, prec_word_bit, alloc_bit_spec by done.
  destruct (Z.eqb_spec i 31) as [->|]; [by rewrite andb_false_r, small_bit_31|].
  apply andb_true_r.
Qed.

Lemma prec_word_keep v p b :
  0 ≤ p < 2 ^ 31 → Z.lor v (Z.land (prec_word p b) MM_ALLOC_BIT) = prec_word v b.
Proof.
  intros Hp. unfold prec_word at 2. f_equal. apply Z.bits_inj'. intros i _.
  rewrite Z.land_spec, prec_word_bit, alloc_bit_spec by done.
  destruct b; rewrite ?alloc_bit_spec, ?Z.bits_0; destruct (i =? 31); rewrite ?andb_false_r; done.
Qed.

Lemma prec_word_alloc p b : Z.lor (prec_word p b) MM_ALLOC_BIT = prec_word p true.
Proof.
  unfold prec_word. destruct b; [|by rewrite Z.lor_0_r]. by rewrite <- Z.lor_assoc, Z.lor_diag.
Qed.

Lemma prec_word_free p : prec_word p false = p.
Proof. apply Z.lor_0_r. Qed.

(** ** The list of chunks: their sizes and states

    A chunk in use has the allocation bit.  The others are on the list of free chunks,
    except for the loose ones inside of an operation. *)

Inductive cstate := Used | Free | Loose.

Definition used (b : cstate) : bool := match b with Used => true | _ => false end.

Abbreviation chunk := (Z * cstate)%type.

Implicit Types (cs l r : list chunk) (m : gmap Z Z).

Definition total cs : Z := foldr (λ c z, c.1 + z) 0 cs.

(** The size of the last chunk, [p] when there is none. *)

Definition psize (p : Z) cs : Z := List.last (cs.*1) p.

Fixpoint chunks m (a p : Z) cs : Prop :=
  match cs with
  | [] => True
  | (s, b) :: cs =>
      fld m a size = Some s ∧ fld m a preceding = Some (prec_word p (used b)) ∧ chunks m (a + s) s cs
  end.

(** The addresses of the free chunks. *)

Fixpoint frees (a : Z) cs : list Z :=
  match cs with
  | [] => []
  | (s, b) :: cs => (match b with Free => [a] | _ => [] end) ++ frees (a + s) cs
  end.

(** No two neighbours are both free. *)

Fixpoint coalesced cs : bool :=
  match cs with
  | (_, b1) :: ((_, b2) :: _) as cs => (used b1 || used b2) && coalesced cs
  | _ => true
  end.

Lemma total_app l r : total (l ++ r) = total l + total r.
Proof. induction l as [|c l IH]; simpl; [done|]. rewrite IH. lia. Qed.

Lemma psize_app p l r : psize p (l ++ r) = psize (psize p l) r.
Proof.
  unfold psize. rewrite fmap_app. generalize (r.*1). clear r. intros r.
  revert p. induction (l.*1) as [|c cs IH]; intros p; [done|].
  simpl app. by rewrite !last_cons, IH.
Qed.

Lemma psize_cons p s b cs : psize p ((s, b) :: cs) = psize s cs.
Proof. unfold psize. rewrite fmap_cons. apply last_cons. Qed.

Lemma psize_snoc p l s b : psize p (l ++ [(s, b)]) = s.
Proof. by rewrite psize_app. Qed.

Lemma chunks_app m a p l r :
  chunks m a p (l ++ r) ↔ chunks m a p l ∧ chunks m (a + total l) (psize p l) r.
Proof.
  revert a p. induction l as [|[s b] l IH]; intros a p; simpl.
  - rewrite Z.add_0_r. tauto.
  - rewrite IH, psize_cons, <- Z.add_assoc. tauto.
Qed.

Lemma frees_app a l r : frees a (l ++ r) = frees a l ++ frees (a + total l) r.
Proof.
  revert a. induction l as [|[s b] l IH]; intros a; simpl.
  - by rewrite Z.add_0_r.
  - by rewrite IH, <- app_assoc, <- Z.add_assoc.
Qed.

Lemma coalesced_cons2 s b t d r :
  coalesced ((s, b) :: (t, d) :: r) = (used b || used d) && coalesced ((t, d) :: r).
Proof. done. Qed.

Lemma coalesced_mid l c r : coalesced (l ++ c :: r) = coalesced (l ++ [c]) && coalesced (c :: r).
Proof.
  destruct c as [t d]. induction l as [|[s b] l IH]; [done|]. destruct l as [|[s' b'] l].
  - simpl app. by rewrite !coalesced_cons2, andb_true_r.
  - rewrite <- !app_comm_cons in *. by rewrite !coalesced_cons2, IH, andb_assoc.
Qed.

Lemma coalesced_cons_used s r : coalesced ((s, Used) :: r) = coalesced r.
Proof. by destruct r as [|[]]. Qed.

Lemma coalesced_cons_size s t b r : coalesced ((s, b) :: r) = coalesced ((t, b) :: r).
Proof. done. Qed.

Lemma coalesced_snoc_size s t b l : coalesced (l ++ [(s, b)]) = coalesced (l ++ [(t, b)]).
Proof.
  induction l as [|[u c] l IH]; [done|]. destruct l as [|[u' c'] l]; [done|].
  rewrite <- !app_comm_cons in *. by rewrite !coalesced_cons2, IH.
Qed.

Lemma coalesced_snoc_used s l : coalesced (l ++ [(s, Used)]) = coalesced l.
Proof.
  induction l as [|[u c] l IH]; [done|]. destruct l as [|[u' c'] l].
  - simpl. by rewrite orb_true_r.
  - rewrite <- !app_comm_cons in *. by rewrite !coalesced_cons2, IH.
Qed.

(** ** Well-formed lists: a guard at each end, and aligned chunks between them *)

Definition guard : chunk := (8, Used).
Definition uchunk (c : chunk) : Prop := 16 ≤ c.1 ∧ c.1 mod 16 = 0.

Definition wfl l : Prop := ∃ l', l = guard :: l' ∧ Forall uchunk l'.
Definition wfr r : Prop := ∃ r', r = r' ++ [guard] ∧ Forall uchunk r'.
Definition wf cs : Prop := ∃ mid, cs = guard :: mid ++ [guard] ∧ Forall uchunk mid.

Lemma wf_app l r : wfl l → wfr r → wf (l ++ r).
Proof.
  intros (l' & -> & ?) (r' & -> & ?). exists (l' ++ r'). split; [|by apply Forall_app].
  simpl. by rewrite app_assoc.
Qed.

Lemma wfl_snoc l c : wfl l → uchunk c → wfl (l ++ [c]).
Proof. intros (l' & -> & ?) ?. exists (l' ++ [c]). split; [done|]. apply Forall_app. auto. Qed.

Lemma wfr_cons r c : wfr r → uchunk c → wfr (c :: r).
Proof. intros (r' & -> & ?) ?. exists (c :: r'). split; [done|]. by constructor. Qed.

Lemma guard_not_uchunk : ¬ uchunk guard.
Proof. by intros [? _]. Qed.

Lemma wf_split l c r : wf (l ++ c :: r) → uchunk c → wfl l ∧ wfr r.
Proof.
  intros (mid & Heq & Hm) Hc. destruct l as [|g l]; simpl in Heq.
  - simplify_eq. by apply guard_not_uchunk in Hc.
  - injection Heq as -> Heq. destruct (exists_last (l := r)) as (r' & g & ->).
    + intros ->. apply app_inj_tail in Heq as [_ ->]. by apply guard_not_uchunk in Hc.
    + rewrite app_comm_cons, app_assoc in Heq. apply app_inj_tail in Heq as [<- ->].
      apply Forall_app in Hm as [? [_ ?]%Forall_cons]. split; [by exists l|by exists r'].
Qed.

Lemma wf_free l s b r : wf (l ++ (s, b) :: r) → b ≠ Used → uchunk (s, b).
Proof.
  intros (mid & Heq & Hm) Hb. assert (Hin : (s, b) ∈ guard :: mid ++ [guard])
    by (rewrite <- Heq; set_solver). unfold guard in *.
  apply elem_of_cons in Hin as [?|Hin]; [by simplify_eq|].
  apply elem_of_app in Hin as [Hin|Hin%list_elem_of_singleton]; [|by simplify_eq].
  by eapply Forall_forall in Hm.
Qed.

Lemma uchunks_total l : Forall uchunk l → 0 ≤ total l ∧ total l mod 16 = 0.
Proof.
  induction 1 as [|[s b] l [] _ [IH1 IH2]]; simpl in *; [done|]. split; [lia|].
  by rewrite Z.add_mod, IH2, H0.
Qed.

Lemma wfl_total l : wfl l → 8 ≤ total l ∧ total l mod 16 = 8.
Proof. intros (l' & -> & []%uchunks_total). simpl. split; [lia|dlia]. Qed.

Lemma wfr_total r : wfr r → 8 ≤ total r ∧ total r mod 16 = 8.
Proof.
  intros (r' & -> & []%uchunks_total). rewrite total_app. change (total [guard]) with 8.
  split; [lia|dlia].
Qed.

(** The neighbours of a chunk. *)

Lemma wfl_last l :
  wfl l → ∃ l' s b, l = l' ++ [(s, b)] ∧
    (l' = [] ∧ s = 8 ∧ b = Used ∨ wfl l' ∧ uchunk (s, b)).
Proof.
  intros (l' & -> & Hl). destruct (exists_last (l := guard :: l')) as (l1 & [s b] & Heq); [done|].
  exists l1, s, b. split; [done|]. unfold guard in Heq.
  destruct l1 as [|g l1]; simpl in Heq; simplify_eq; [by left|].
  apply Forall_app in Hl as [? [? _]%Forall_cons]. right. split; [|done]. by exists l1.
Qed.

Lemma wfr_head r :
  wfr r → ∃ s b r', r = (s, b) :: r' ∧
    (r' = [] ∧ s = 8 ∧ b = Used ∨ uchunk (s, b) ∧ wfr r').
Proof.
  intros ([|[s b] r'] & -> & Hr).
  - exists 8, Used, []. split; [done|]. by left.
  - exists s, b, (r' ++ [guard]). split; [done|]. apply Forall_cons in Hr as [? ?].
    right. split; [done|]. by exists r'.
Qed.

Definition big8 (c : chunk) : Prop := 8 ≤ c.1.

Lemma wfl_big l : wfl l → Forall big8 l.
Proof.
  intros (l' & -> & Hl). constructor; [done|]. eapply Forall_impl; [done|].
  intros c [? _]. unfold big8. lia.
Qed.

Lemma wfr_big r : wfr r → Forall big8 r.
Proof.
  intros (r' & -> & Hr). apply Forall_app. split; [|by constructor].
  eapply Forall_impl; [done|]. intros c [? _]. unfold big8. lia.
Qed.

Lemma big_total l : Forall big8 l → 0 ≤ total l.
Proof. induction 1 as [|c l Hc _ IH]; simpl; [done|]. unfold big8 in Hc. lia. Qed.

(** ** Changes of memory that keep the headers *)

Lemma chunks_range m m' a p cs :
  Forall big8 cs → (∀ k, a ≤ k < a + total cs → m' !! k = m !! k) →
  chunks m a p cs → chunks m' a p cs.
Proof.
  revert a p. induction cs as [|[s b] cs IH]; intros a p Hb Hm; simpl in *; [done|].
  apply Forall_cons in Hb as [Hs Hb]. unfold big8 in Hs. simpl in Hs.
  pose proof (big_total _ Hb). intros (H1 & H2 & H3). unfold fld in *. simpl in *.
  rewrite !Hm by lia. split; [done|]. split; [done|]. apply IH; [done| |done].
  intros k Hk. apply Hm. lia.
Qed.

(** The chunks [old] are replaced by [new], of the same length. *)

Lemma chunks_retile m m' a p l old new s b r :
  Forall big8 l → Forall big8 ((s, b) :: r) → 8 ≤ total old → total new = total old →
  (∀ k, a ≤ k < a + total l ∨ a + total l + total old ≤ k ∧ k ≠ a + total l + total old + 4 →
     m' !! k = m !! k) →
  chunks m a p (l ++ old ++ (s, b) :: r) →
  chunks m' (a + total l) (psize p l) new →
  fld m' (a + total l + total old) preceding = Some (prec_word (psize (psize p l) new) (used b)) →
  chunks m' a p (l ++ new ++ (s, b) :: r).
Proof.
  intros Hl [Hs Hr]%Forall_cons Hold Htot Hm Hc Hnew Hprec. unfold big8 in Hs. simpl in Hs.
  pose proof (big_total _ Hl). apply chunks_app in Hc as [Hc1 Hc2].
  apply chunks_app in Hc2 as [_ Hc2]. apply chunks_app. split.
  - eapply chunks_range; [done| |done]. intros k Hk. apply Hm. lia.
  - apply chunks_app. split; [done|]. rewrite Htot. destruct Hc2 as (H1 & _ & H3).
    split; [|split; [done|]].
    + rewrite <- H1. apply Hm. simpl. lia.
    + eapply chunks_range; [done| |done]. intros k Hk. apply Hm. lia.
Qed.

End MmLayout.
