(* ===== verification/MmState.v ===== *)
(** * The state of the heap between two writes

    The memory holds the headers of a list of chunks, and the list of the free ones.
    How unlinking, listing, cutting and joining chunks change the list. *)

From S2P Require Import Prelude MmHeap MmList MmLayout.

Module MmState.
Import MmHeap MmList MmLayout.

Lemma fld_ne m x y f g v :
  x + offset f ≠ y + offset g → fld (upd m x f v) y g = fld m y g.
Proof. apply lookup_insert_ne. Qed.

(** Equal lists of chunks and equal addresses; one access to a field in the code. *)

Ltac tiles := rewrite <- ?app_assoc, ?total_app; simpl; solve [done | lia].
Ltac mget H :=
  match type of H with
  | fld ?m ?x ?f = _ => rewrite (get_fld m x f), H by lia; cbn [mbind option_bind]
  end.
Ltac fields := repeat first [rewrite fld_upd | rewrite fld_ne by (simpl; lia)].
Ltac mput := rewrite put_upd by (lia || eauto); cbn [mbind option_bind].

Implicit Types (cs l r : list chunk) (m : gmap Z Z).

Record hstate (h : mm_heap_s) (m : gmap Z Z) (cs : list chunk) : Prop := {
  hs_wf : wf cs;
  hs_end : mm_heapend h = mm_heapstart h + total cs - 8;
  hs_words : words h m;
  hs_chunks : chunks m (mm_heapstart h) 0 cs;
  hs_list : ∃ L, flist h m (frees (mm_heapstart h) cs) L
}.

(** Words that are no part of a header or of a chunk that is not in use ([quiet]), or of
    a header ([plain]); the words of the region that belong to a user. *)

Fixpoint quiet (a : Z) cs (k : Z) : Prop :=
  match cs with
  | [] => True
  | (s, b) :: cs => ¬ (a ≤ k < a + if used b then 8 else s) ∧ quiet (a + s) cs k
  end.

Fixpoint plain (a : Z) cs (k : Z) : Prop :=
  match cs with
  | [] => True
  | (s, b) :: cs => ¬ (a ≤ k < a + 8) ∧ plain (a + s) cs k
  end.

Definition not_free (c : chunk) : Prop := c.2 ≠ Free.

Definition user (h : mm_heap_s) cs (k : Z) : Prop :=
  mm_heapstart h ≤ k < mm_heapend h ∧ quiet (mm_heapstart h) cs k.

Definition keeps (h : mm_heap_s) cs (m m' : gmap Z Z) : Prop :=
  ∀ k, user h cs k → m' !! k = m !! k.

Lemma keeps_refl h cs m : keeps h cs m m.
Proof. done. Qed.

Lemma keeps_trans h cs cs' m1 m2 m3 :
  (∀ k, user h cs k → user h cs' k) → keeps h cs m1 m2 → keeps h cs' m2 m3 → keeps h cs m1 m3.
Proof. intros Hu H1 H2 k Hk. rewrite H2 by auto. auto. Qed.

Lemma quiet_app a l r k : quiet a (l ++ r) k ↔ quiet a l k ∧ quiet (a + total l) r k.
Proof.
  revert a. induction l as [|[s b] l IH]; intros a; simpl.
  - rewrite Z.add_0_r. tauto.
  - rewrite IH, <- Z.add_assoc. tauto.
Qed.

Lemma frees_split a cs x :
  x ∈ frees a cs → ∃ l s r, cs = l ++ (s, Free) :: r ∧ x = a + total l.
Proof.
  revert a. induction cs as [|[s b] cs IH]; intros a; simpl; [set_solver|].
  intros [Hx|Hx]%elem_of_app.
  - destruct b; try (set_solver). apply list_elem_of_singleton in Hx as ->.
    exists [], s, cs. simpl. split; [done|lia].
  - destruct (IH _ Hx) as (l & s' & r & -> & ->). exists ((s, b) :: l), s', r.
    simpl. split; [done|lia].
Qed.

Lemma elem_of_frees l t r a : a + total l ∈ frees a (l ++ (t, Free) :: r).
Proof. rewrite frees_app. simpl. set_solver. Qed.

Lemma frees_range a cs x : Forall big8 cs → x ∈ frees a cs → a ≤ x < a + total cs.
Proof.
  intros Hb (l & s & r & -> & ->)%frees_split. apply Forall_app in Hb as [Hl [Hs Hr]%Forall_cons].
  unfold big8 in Hs. pose proof (big_total _ Hl). pose proof (big_total _ Hr).
  rewrite total_app. simpl in *. lia.
Qed.

Lemma wf_big cs : wf cs → Forall big8 cs.
Proof.
  intros (mid & -> & Hm). constructor; [done|]. apply wfr_big. by exists mid.
Qed.

Section Steps.

Context (h : mm_heap_s) (Hpl : place h).

(** The addresses of the chunks. *)

Lemma chunk_caddr cs l c r :
  wf cs → mm_heapend h = mm_heapstart h + total cs - 8 → cs = l ++ c :: r → uchunk c →
  caddr h (mm_heapstart h + total l) ∧ mm_heapstart h + total l + c.1 ≤ mm_heapend h.
Proof.
  intros Hwf He -> Hc. destruct (wf_split _ _ _ Hwf Hc) as [Hl Hr].
  pose proof (wfl_total _ Hl). pose proof (wfr_total _ Hr). rewrite total_app in He. simpl in He.
  destruct Hc as [Hc _]. unfold caddr. split; [|lia].
  replace (mm_heapstart h + total l - mm_heapstart h) with (total l) by lia. lia.
Qed.

Lemma next_caddr cs l r :
  wf cs → mm_heapend h = mm_heapstart h + total cs - 8 → cs = l ++ r → wfl l → wfr r →
  caddr h (mm_heapstart h + total l).
Proof.
  intros Hwf He -> Hl Hr. pose proof (wfl_total _ Hl). pose proof (wfr_total _ Hr).
  rewrite total_app in He. unfold caddr.
  replace (mm_heapstart h + total l - mm_heapstart h) with (total l) by lia. lia.
Qed.

Lemma total_bound cs : mm_heapend h = mm_heapstart h + total cs - 8 → total cs < 2 ^ 31.
Proof. intros He. destruct Hpl. lia. Qed.

(** Writes to the links leave the headers alone. *)

Lemma chunks_links_r F m m' a p r :
  (∀ x, x ∈ F → caddr h x) → links_only h F m m' → wfr r →
  (a - mm_heapstart h) mod 16 = 8 → mm_heapstart h + 8 ≤ a → a + total r = mm_heapend h + 8 →
  chunks m a p r → chunks m' a p r.
Proof.
  intros HF Hlo. revert a p. induction r as [|[s b] r IH]; intros a p Hr Ham Ha Hend Hc; [done|].
  destruct Hc as (H1 & H2 & H3). pose proof (wfr_total _ Hr) as [Htot _].
  assert (Hn : is_node h a) by (left; unfold caddr; lia).
  split; [|split].
  - rewrite <- H1. eapply links_only_header; eauto.
  - rewrite <- H2. eapply links_only_header; eauto.
  - destruct (wfr_head _ Hr) as (s' & b' & r' & [= <- <- <-] & [(-> & _)|[[Hs1 Hs2] Hr']]); [done|].
    simpl in *. apply IH; [done| |lia|lia|done].
    replace (a + s - mm_heapstart h) with ((a - mm_heapstart h) + s) by lia.
    by rewrite Z.add_mod, Ham, Hs2.
Qed.

Lemma chunks_links F m m' cs :
  (∀ x, x ∈ F → caddr h x) → links_only h F m m' → wf cs →
  mm_heapend h = mm_heapstart h + total cs - 8 →
  chunks m (mm_heapstart h) 0 cs → chunks m' (mm_heapstart h) 0 cs.
Proof.
  intros HF Hlo (mid & -> & Hm) He Hc. destruct Hc as (H1 & H2 & H3). simpl in He.
  assert (Hk : ∀ k, mm_heapstart h ≤ k < mm_heapstart h + 8 → m' !! k = m !! k).
  { intros k Hk. apply Hlo. intros x [(i & Hi & ->)|Hx%HF].
    - change MM_NNODES with 19 in Hi. unfold nodelist, SIZEOF_MM_FREENODE. destruct Hpl. lia.
    - unfold caddr in Hx. lia. }
  simpl in *. unfold fld in *. simpl in *. rewrite !Hk by lia. split; [done|]. split; [done|].
  eapply chunks_links_r; [done|done|by exists mid|dlia|lia|lia|done].
Qed.

Lemma keeps_links F m m' cs :
  hstate h m cs → (∀ x, x ∈ F → ∃ l s b r, cs = l ++ (s, b) :: r ∧ b ≠ Used ∧
                                 x = mm_heapstart h + total l) →
  links_only h F m m' → keeps h cs m m'.
Proof.
  intros Hs HF Hlo k [Hk Hq]. apply Hlo. intros x [(i & Hi & ->)|Hx].
  - change MM_NNODES with 19 in Hi. unfold nodelist, SIZEOF_MM_FREENODE. destruct Hpl. lia.
  - destruct (HF x Hx) as (l & s & b & r & Hcs & Hb & ->).
    destruct (wf_free l s b r) as [Hs1 _]; [rewrite <- Hcs; apply Hs|done|].
    rewrite Hcs in Hq. apply quiet_app in Hq as [_ [Hq _]]. simpl in *. destruct b; simpl in Hq; [done|lia..].
Qed.

(** ** Unlinking and listing a chunk *)

Lemma wf_relabel l s b b' r : wf (l ++ (s, b) :: r) → uchunk (s, b) → wf (l ++ (s, b') :: r).
Proof.
  intros Hwf Hu. destruct (wf_split _ _ _ Hwf Hu). apply wf_app; [done|]. by apply wfr_cons.
Qed.

Lemma total_relabel l s b b' r : total (l ++ (s, b) :: r) = total (l ++ (s, b') :: r).
Proof. by rewrite !total_app. Qed.

Lemma chunks_relabel m a p l s b b' r :
  used b = used b' → chunks m a p (l ++ (s, b) :: r) → chunks m a p (l ++ (s, b') :: r).
Proof. rewrite !chunks_app. simpl. by intros ->. Qed.

Lemma quiet_relabel a l s b b' r k :
  used b = used b' → quiet a (l ++ (s, b) :: r) k → quiet a (l ++ (s, b') :: r) k.
Proof. rewrite !quiet_app. simpl. by intros ->. Qed.

Lemma user_relabel l s b b' r k :
  used b = used b' → user h (l ++ (s, b) :: r) k → user h (l ++ (s, b') :: r) k.
Proof. intros Hb [??]. split; [done|]. by eapply quiet_relabel. Qed.

Lemma frees_caddr cs x :
  wf cs → mm_heapend h = mm_heapstart h + total cs - 8 → x ∈ frees (mm_heapstart h) cs → caddr h x.
Proof.
  intros Hwf He (l & s & r & -> & ->)%frees_split.
  eapply chunk_caddr; [done..|]. by eapply wf_free.
Qed.

Lemma st_unlink m l s r :
  hstate h m (l ++ (s, Free) :: r) →
  ∃ m', mm_unlink m (mm_heapstart h + total l) = Some m' ∧
    hstate h m' (l ++ (s, Loose) :: r) ∧ keeps h (l ++ (s, Free) :: r) m m'.
Proof.
  intros Hs. pose proof Hs as [Hwf He Hw Hc [L Hl]].
  assert (Hu : uchunk (s, Free)) by by eapply wf_free.
  set (x := mm_heapstart h + total l).
  assert (HF : frees (mm_heapstart h) (l ++ (s, Free) :: r) ≡ₚ
               x :: frees (mm_heapstart h) (l ++ (s, Loose) :: r)).
  { rewrite !frees_app. simpl. by rewrite <- Permutation_middle. }
  destruct (flist_unlink h Hpl m _ _ L x Hw Hl HF) as (m' & L' & Hun & Hl' & Hw' & Hlo).
  exists m'. split; [done|]. split; [constructor|].
  - by eapply wf_relabel.
  - by rewrite (total_relabel l s Loose Free).
  - done.
  - apply (chunks_relabel _ _ _ l s Free); [done|].
    eapply chunks_links; [|done..]. intros y Hy. by eapply frees_caddr.
  - by exists L'.
  - eapply keeps_links; [done| |done]. intros y (l' & s' & r' & -> & ->)%frees_split.
    by exists l', s', Free, r'.
Qed.

Lemma frees_loose l s r : wf (l ++ (s, Loose) :: r) →
  mm_heapstart h + total l ∉ frees (mm_heapstart h) (l ++ (s, Loose) :: r).
Proof.
  intros Hwf. destruct (wf_free _ _ _ _ Hwf) as [Hs _]; [done|]. apply wf_big in Hwf.
  apply Forall_app in Hwf as [Hbl [_ Hbr]%Forall_cons]. simpl in Hs.
  rewrite frees_app. simpl. intros [?%frees_range|?%frees_range]%elem_of_app; [lia|done|lia|done].
Qed.

Lemma chunks_mid m l s b r :
  chunks m (mm_heapstart h) 0 (l ++ (s, b) :: r) →
  fld m (mm_heapstart h + total l) size = Some s ∧
  fld m (mm_heapstart h + total l) preceding = Some (prec_word (psize 0 l) (used b)).
Proof. intros [_ (? & ? & _)]%chunks_app. done. Qed.

Lemma psize_bound l : Forall big8 l → 0 ≤ psize 0 l ≤ total l.
Proof.
  intros Hl. destruct l as [|[s b] l _] using rev_ind; [done|].
  apply Forall_app in Hl as [Hl [Hs _]%Forall_cons]. pose proof (big_total _ Hl).
  rewrite psize_snoc, total_app. unfold big8 in Hs. simpl in *. lia.
Qed.

Lemma st_list m l s r :
  hstate h m (l ++ (s, Loose) :: r) →
  ∃ m', mm_addfreechunk (set_mem h m) (mm_heapstart h + total l) = Some (set_mem h m') ∧
    hstate h m' (l ++ (s, Free) :: r) ∧ keeps h (l ++ (s, Loose) :: r) m m'.
Proof.
  intros Hs. pose proof Hs as [Hwf He Hw Hc [L Hl]].
  assert (Hu : uchunk (s, Loose)) by by eapply wf_free.
  destruct (chunk_caddr _ l (s, Loose) r Hwf He eq_refl Hu) as [Hca Hce].
  destruct (chunks_mid _ _ _ _ _ Hc) as [Hsz Hpr]. simpl in *.
  pose proof (total_bound _ He) as Htb. destruct Hu as [Hu _]. simpl in Hu.
  pose proof (wf_big _ Hwf) as [Hbl [_ Hbr]%Forall_cons]%Forall_app.
  pose proof (psize_bound _ Hbl). pose proof (big_total _ Hbr). rewrite total_app in Htb. simpl in Htb.
  destruct (addfreechunk_spec h Hpl m (frees (mm_heapstart h) (l ++ (s, Loose) :: r)) L
              (mm_heapstart h + total l) s (prec_word (psize 0 l) false))
    as (m' & L' & Hadd & Hl' & Hw' & Hlo); [done|done|done|lia|by apply frees_loose|done|lia|done| |].
  { apply allocated_prec. lia. }
  assert (HF : ∀ y, y ∈ (mm_heapstart h + total l) :: frees (mm_heapstart h) (l ++ (s, Loose) :: r) →
     ∃ l0 s0 b0 r0, l ++ (s, Loose) :: r = l0 ++ (s0, b0) :: r0 ∧ b0 ≠ Used ∧
       y = mm_heapstart h + total l0).
  { intros y [->|(l' & s' & r' & -> & ->)%frees_split]%elem_of_cons; [by exists l, s, Loose, r|].
    by exists l', s', Free, r'. }
  exists m'. split; [done|]. split; [constructor|].
  - eapply wf_relabel; [done|]. by eapply wf_free.
  - by rewrite (total_relabel l s Free Loose).
  - done.
  - apply (chunks_relabel _ _ _ l s Loose); [done|]. eapply chunks_links; [|done..].
    intros y Hy. destruct (HF y Hy) as (l0 & s0 & b0 & r0 & Heq & Hb0 & ->).
    eapply chunk_caddr; [done..|]. rewrite Heq in Hwf. by eapply wf_free.
  - exists L'. assert (frees (mm_heapstart h) (l ++ (s, Free) :: r) ≡ₚ
      (mm_heapstart h + total l) :: frees (mm_heapstart h) (l ++ (s, Loose) :: r)) as HP.
    { rewrite !frees_app. simpl. by rewrite <- Permutation_middle. }
    by apply (flist_perm h m' _ _ _ HP).
  - by eapply keeps_links.
Qed.

(** ** Rewriting headers *)

Lemma plain_outside a cs k : Forall big8 cs → (k < a ∨ a + total cs ≤ k) → plain a cs k.
Proof.
  revert a. induction cs as [|[s b] cs IH]; intros a; [done|]. intros [Hs Hb]%Forall_cons Hk.
  pose proof (big_total _ Hb). unfold big8 in Hs. simpl in *. split; [lia|]. apply IH; [done|lia].
Qed.

Lemma quiet_plain a cs k : Forall big8 cs → quiet a cs k → plain a cs k.
Proof.
  revert a. induction cs as [|[s b] cs IH]; intros a; [done|]. intros [Hs Hb]%Forall_cons [Hk Hq].
  unfold big8 in Hs. simpl in *. split; [destruct (used b); lia|]. by apply IH.
Qed.

Lemma not_free_frees a cs : Forall not_free cs → frees a cs = [].
Proof.
  intros Hn. revert a. induction Hn as [|[s b] cs Hb _ IH]; intros a; [done|]. simpl.
  rewrite IH. by destruct b.
Qed.

Lemma frees_skip a l old r :
  Forall not_free old → frees a (l ++ old ++ r) = frees a l ++ frees (a + total l + total old) r.
Proof. intros Ho. by rewrite !frees_app, (not_free_frees _ old). Qed.

Lemma uchunks_big cs : Forall uchunk cs → Forall big8 cs.
Proof. intros H. eapply Forall_impl; [done|]. intros c [? _]. unfold big8. lia. Qed.

(** The listed nodes are outside of the tiles that change. *)

Lemma retile_flist m m' l old new s b r L :
  wf (l ++ old ++ (s, b) :: r) → wfl l → wfr ((s, b) :: r) →
  mm_heapend h = mm_heapstart h + total (l ++ old ++ (s, b) :: r) - 8 →
  Forall not_free old → Forall not_free new →
  total new = total old → 16 ≤ total old →
  (∀ k, k < mm_heapstart h + total l ∨ mm_heapstart h + total l + total old ≤ k →
     k ≠ mm_heapstart h + total l + total old + 4 → m' !! k = m !! k) →
  flist h m (frees (mm_heapstart h) (l ++ old ++ (s, b) :: r)) L →
  flist h m' (frees (mm_heapstart h) (l ++ new ++ (s, b) :: r)) L.
Proof.
  intros Hwf Hl Hr He Ho Hn Htot H16 Hm HL. set (a := mm_heapstart h) in *.
  pose proof (frees_skip a l old ((s, b) :: r) Ho) as Hfo.
  rewrite (frees_skip a l new), Htot, <- Hfo by done. eapply flist_frame; [done| |exact HL]. intros x f Hx Hf.
  pose proof (wfl_total _ Hl). pose proof (wfr_total _ Hr). rewrite !total_app in He.
  unfold fld. destruct Hx as [(i & Hi & ->)|Hx].
  - change MM_NNODES with 19 in Hi. unfold nodelist, SIZEOF_MM_FREENODE. destruct Hpl.
    apply Hm; destruct f; simpl; lia.
  - assert (Hxn : caddr h x) by (eapply frees_caddr; [exact Hwf|by rewrite !total_app|done]).
    rewrite Hfo in Hx. apply elem_of_app in Hx as [Hx|Hx].
    + apply frees_split in Hx as (l1 & t & l2 & -> & ->).
      destruct (wf_free l1 t Free (l2 ++ old ++ (s, b) :: r)) as [Ht _];
        [by rewrite <- app_assoc in Hwf|done|].
      destruct Hl as (l' & Hg & Hl%uchunks_big).
      assert (Hb2 : Forall big8 l2).
      { assert (Hbb : Forall big8 (l1 ++ (t, Free) :: l2)) by (rewrite Hg; by constructor).
        by apply Forall_app in Hbb as [_ [_ ?]%Forall_cons]. }
      pose proof (big_total _ Hb2). rewrite total_app in *. simpl in *.
      apply Hm; destruct f; simpl; lia.
    + apply frees_range in Hx; [|by apply wfr_big].
      destruct Hxn as [Hxm _]. pose proof (pl_end h Hpl).
      apply Hm; destruct f; simpl; try done; try lia. dlia.
Qed.

Lemma st_retile m m' l old new s b r :
  hstate h m (l ++ old ++ (s, b) :: r) → wfl l → wfr ((s, b) :: r) → Forall uchunk new →
  Forall not_free old → Forall not_free new → total new = total old → 16 ≤ total old →
  words h m' →
  (∀ k, plain (mm_heapstart h + total l) new k → k ≠ mm_heapstart h + total l + total old + 4 →
     m' !! k = m !! k) →
  chunks m' (mm_heapstart h + total l) (psize 0 l) new →
  fld m' (mm_heapstart h + total l + total old) preceding =
    Some (prec_word (psize (psize 0 l) new) (used b)) →
  hstate h m' (l ++ new ++ (s, b) :: r) ∧ keeps h (l ++ new ++ (s, b) :: r) m m'.
Proof.
  intros [Hwf He _ Hc [L HL]] Hl Hr Hu Ho Hn Htot H16 Hw Hm Hnew Hprec.
  assert (Hout : ∀ k, k < mm_heapstart h + total l ∨ mm_heapstart h + total l + total old ≤ k →
     k ≠ mm_heapstart h + total l + total old + 4 → m' !! k = m !! k).
  { intros k Hk. apply Hm. apply plain_outside; [by apply uchunks_big|]. rewrite Htot. lia. }
  split; [constructor|].
  - apply wf_app; [done|]. clear - Hu Hr. induction Hu; [done|]. simpl. by apply wfr_cons.
  - rewrite !total_app in *. lia.
  - done.
  - eapply (chunks_retile m m' _ _ l old); [by apply wfl_big|by apply wfr_big|lia|done| |done..].
    intros k Hk. pose proof (wfl_total _ Hl). apply Hout; lia.
  - exists L. by eapply (retile_flist m m' l old).
  - intros k [Hk Hq]. apply quiet_app in Hq as [_ Hq]. apply quiet_app in Hq as [Hq1 [Hq2 _]].
    apply Hm; [by apply quiet_plain; [apply uchunks_big|]|]. rewrite Htot in Hq2.
    apply wfr_big, Forall_cons in Hr as [Hs8 _]. unfold big8 in Hs8. simpl in Hs8.
    destruct (used b); lia.
Qed.

(** The state of a chunk in its header. *)

Lemma st_flip m l s b b' r :
  hstate h m (l ++ (s, b) :: r) → uchunk (s, b) → b ≠ Free → b' ≠ Free →
  let m' := upd m (mm_heapstart h + total l) preceding (prec_word (psize 0 l) (used b')) in
  hstate h m' (l ++ (s, b') :: r) ∧ keeps h (l ++ (s, b') :: r) m m'.
Proof.
  intros Hs Hu Hb Hb' m'. pose proof Hs as [Hwf He Hw Hc _].
  destruct (wf_split _ _ _ Hwf Hu) as [Hl Hr]. destruct (wfr_head _ Hr) as (t & d & r' & -> & _).
  pose proof Hu as [Hs16 _]. simpl in Hs16.
  apply chunks_app in Hc as [_ (H1 & _ & (_ & H3 & _))]. unfold fld in *. simpl offset in *.
  apply (st_retile m m' l [(s, b)] [(s, b')] t d r'); try done; try (by constructor); simpl.
  - lia.
  - by apply words_upd.
  - intros k [Hk _] _. unfold m', upd. simpl. apply lookup_insert_ne. lia.
  - unfold m', upd, fld. simpl. rewrite lookup_insert_ne, lookup_insert_eq by lia.
    by rewrite Z.add_0_r in *.
  - unfold m', upd, fld. simpl. rewrite lookup_insert_ne by lia. etrans; [|exact H3].
    f_equal. lia.
Qed.

(** A chunk and the loose one after it become one. *)

Lemma st_merge m l s b t u d r :
  hstate h m (l ++ (s, b) :: (t, Loose) :: (u, d) :: r) → uchunk (s, b) → b ≠ Free →
  let m' := upd (upd m (mm_heapstart h + total l) size (s + t))
                (mm_heapstart h + total l + s + t) preceding (prec_word (s + t) (used d)) in
  hstate h m' (l ++ (s + t, b) :: (u, d) :: r) ∧ keeps h (l ++ (s + t, b) :: (u, d) :: r) m m'.
Proof.
  intros Hs Hu Hb m'. pose proof Hs as [Hwf He Hw Hc _].
  destruct (wf_split _ _ _ Hwf Hu) as [Hl Hr].
  destruct (wf_free (l ++ [(s, b)]) t Loose ((u, d) :: r)) as [Ht1 Ht2];
    [by rewrite <- app_assoc|done|].
  destruct (wf_split (l ++ [(s, b)]) (t, Loose) ((u, d) :: r)) as [_ Hr'];
    [by rewrite <- app_assoc|done|].
  destruct Hu as [Hs1 Hs2]. simpl in *.
  apply chunks_app in Hc as [_ (_ & H2 & _)]. unfold fld in *. simpl offset in *.
  apply (st_retile m m' l [(s, b); (t, Loose)] [(s + t, b)] u d r); try done; simpl; try lia.
  - constructor; [|done]. split; simpl; [lia|dlia].
  - by repeat constructor.
  - by constructor.
  - by do 2 apply words_upd.
  - intros k [Hk _] Hk'. unfold m', upd. simpl. rewrite !lookup_insert_ne by lia. done.
  - unfold m', upd, fld. simpl. rewrite (lookup_insert_ne _ _ (_ + 0)), lookup_insert_eq by lia.
    rewrite !lookup_insert_ne by lia. done.
  - unfold m', upd, fld. simpl.
    replace (mm_heapstart h + total l + s + t + 4) with (mm_heapstart h + total l + (s + (t + 0)) + 4) by lia.
    by rewrite lookup_insert_eq.
Qed.

(** The tiles [old] become two chunks. *)

Lemma st_cut m m' l s b old s1 s2 b2 u d r :
  hstate h m (l ++ ((s, b) :: old) ++ (u, d) :: r) → wfl l → wfr ((u, d) :: r) →
  Forall not_free ((s, b) :: old) → b2 ≠ Free → uchunk (s1, b) → uchunk (s2, b2) →
  s + total old = s1 + s2 → words h m' →
  let a := mm_heapstart h + total l in
  (∀ k, k ≠ a → k ≠ a + s1 → k ≠ a + s1 + 4 → k ≠ a + s1 + s2 + 4 → m' !! k = m !! k) →
  fld m' a size = Some s1 → fld m' (a + s1) size = Some s2 →
  fld m' (a + s1) preceding = Some (prec_word s1 (used b2)) →
  fld m' (a + s1 + s2) preceding = Some (prec_word s2 (used d)) →
  hstate h m' (l ++ (s1, b) :: (s2, b2) :: (u, d) :: r) ∧
  keeps h (l ++ (s1, b) :: (s2, b2) :: (u, d) :: r) m m'.
Proof.
  intros Hs Hl Hr Hno Hb2 Hu1 Hu2 Htot Hw a Hm F1 F2 F3 F4.
  pose proof Hs as [_ _ _ Hc _]. apply chunks_app in Hc as [_ (_ & H2 & _)].
  pose proof (proj1 (proj1 (Forall_cons _ _ _) Hno)) as Hb.
  destruct Hu1 as [Hs1 Hm1] eqn:E1, Hu2 as [Hs2 Hm2] eqn:E2. simpl in *.
  apply (st_retile m m' l ((s, b) :: old) [(s1, b); (s2, b2)] u d r); try done; simpl; try lia.
  - by repeat constructor.
  - by repeat constructor.
  - intros k (Hk1 & Hk2 & _) Hk. apply Hm; unfold a; lia.
  - split; [done|]. split; [|done]. rewrite <- H2. apply Hm; simpl; unfold a; lia.
  - rewrite Htot, Z.add_assoc. done.
Qed.

(** ** Access to headers *)

Lemma get_upd m x f v : 0 < x → get (upd m x f v) x f = Some v.
Proof. intros. by rewrite get_fld, fld_upd. Qed.

Lemma setprec_fld m x p b v :
  0 < x → fld m x preceding = Some (prec_word p b) → 0 ≤ p < 2 ^ 31 →
  set_preceding m x v = Some (upd m x preceding (prec_word v b)).
Proof.
  intros Hx Hf Hp. unfold set_preceding. rewrite get_fld, Hf by done. cbn [mbind option_bind].
  by rewrite put_upd, prec_word_keep by eauto.
Qed.

Lemma hs_total m cs : hstate h m cs → total cs < 2 ^ 31 ∧ mm_heapstart h + total cs < 2 ^ 32.
Proof. intros [_ He _ _ _]. destruct Hpl. lia. Qed.

(** The chunk at the address [x]. *)

Lemma hs_hdr m cs l s b r x :
  hstate h m cs → cs = l ++ (s, b) :: r → x = mm_heapstart h + total l →
  fld m x size = Some s ∧ fld m x preceding = Some (prec_word (psize 0 l) (used b)) ∧
  0 < mm_heapstart h ∧ 8 ≤ s ∧ 0 ≤ psize 0 l ≤ total l ∧ 0 ≤ total r ∧
  total l + s + total r < 2 ^ 31 ∧ mm_heapstart h + (total l + s + total r) < 2 ^ 32.
Proof.
  intros Hs -> ->. pose proof (hs_total _ _ Hs) as [H1 H2]. rewrite total_app in H1, H2.
  pose proof (wf_big _ (hs_wf _ _ _ Hs)) as [Hbl [Hbs Hbr]%Forall_cons]%Forall_app.
  pose proof (psize_bound _ Hbl). pose proof (big_total _ Hbr). unfold big8 in Hbs.
  destruct (chunks_mid m l s b r (hs_chunks _ _ _ Hs)) as [? ?].
  destruct Hpl. simpl in *. split; [done|]. split; [done|]. lia.
Qed.

(** ** Joining chunks *)

Lemma merge_next_spec m l s t u d r x :
  hstate h m (l ++ (s, Loose) :: (t, Free) :: (u, d) :: r) → x = mm_heapstart h + total l →
  ∃ m', mm_merge_next m x (x + s) = Some (x + s + t, m') ∧
    hstate h m' (l ++ (s + t, Loose) :: (u, d) :: r) ∧
    keeps h (l ++ (s, Loose) :: (t, Free) :: (u, d) :: r) m m'.
Proof.
  intros Hs Hx.
  destruct (hs_hdr m _ (l ++ [(s, Loose)]) t Free ((u, d) :: r) (x + s) Hs) as (T1 & _ & ? & ? & _); [tiles..|].
  destruct (st_unlink m (l ++ [(s, Loose)]) t ((u, d) :: r)) as (m1 & Hun & Hs1 & Hk1); [by tiles|].
  replace (mm_heapstart h + total (l ++ [(s, Loose)])) with (x + s) in Hun by tiles.
  rewrite <- app_assoc in Hs1, Hk1. cbn [app] in Hs1, Hk1.
  destruct (hs_hdr m1 _ l s Loose ((t, Loose) :: (u, d) :: r) x Hs1) as (X1 & _ & Hr); [tiles..|].
  destruct (hs_hdr m1 _ (l ++ [(s, Loose)]) t Loose ((u, d) :: r) (x + s) Hs1) as (T2 & _); [tiles..|].
  destruct (hs_hdr m1 _ (l ++ [(s, Loose); (t, Loose)]) u d r (x + s + t) Hs1) as (_ & U & Hr'); [tiles..|].
  rewrite psize_app in U. change (psize _ [(s, Loose); (t, Loose)]) with t in U. simpl total in *.
  rewrite total_app in Hr'. simpl in Hr'.
  assert (Hu : uchunk (s, Loose)) by (eapply wf_free; [apply Hs|done]).
  destruct (st_merge m1 l s Loose t u d r Hs1 Hu) as [Hs2 Hk2]; [done|]. rewrite <- Hx in Hs2, Hk2.
  eexists. split; [|split; [exact Hs2|]].
  - unfold mm_merge_next. mget T1. rewrite Hun. cbn [mbind option_bind]. mget X1. mget T2.
    rewrite !u32_small by lia. mput. rewrite get_upd by lia; cbn [mbind option_bind].
    rewrite (setprec_fld _ _ t (used d)); [done|lia| |lia]. by rewrite fld_ne by (simpl; lia).
  - eapply keeps_trans; [|exact Hk1|exact Hk2]. intros k [Hk Hq]. split; [done|].
    apply quiet_app in Hq as [Hq1 Hq2]. apply quiet_app. split; [done|]. simpl in *.
    rewrite Z.add_assoc. split; [lia|]. apply Hq2.
Qed.

Lemma merge_prev_spec m l p s u d r x :
  hstate h m (l ++ (p, Free) :: (s, Loose) :: (u, d) :: r) → x = mm_heapstart h + total l →
  ∃ m', mm_merge_prev m x (x + p) (x + p + s) = Some m' ∧
    hstate h m' (l ++ (p + s, Loose) :: (u, d) :: r) ∧
    keeps h (l ++ (p, Free) :: (s, Loose) :: (u, d) :: r) m m'.
Proof.
  intros Hs Hx.
  destruct (st_unlink m l p ((s, Loose) :: (u, d) :: r) Hs) as (m1 & Hun & Hs1 & Hk1).
  rewrite <- Hx in Hun.
  destruct (hs_hdr m1 _ l p Loose ((s, Loose) :: (u, d) :: r) x Hs1) as (X1 & _ & Hr); [tiles..|].
  destruct (hs_hdr m1 _ (l ++ [(p, Loose)]) s Loose ((u, d) :: r) (x + p) Hs1) as (T2 & _ & Hr2); [tiles..|].
  destruct (hs_hdr m1 _ (l ++ [(p, Loose); (s, Loose)]) u d r (x + p + s) Hs1) as (_ & U & Hr'); [tiles..|].
  rewrite psize_app in U. change (psize _ [(p, Loose); (s, Loose)]) with s in U. simpl total in *.
  rewrite total_app in Hr'. simpl in Hr'.
  assert (Hu : uchunk (p, Loose)) by (eapply wf_free; [apply Hs1|done]).
  destruct (st_merge m1 l p Loose s u d r Hs1 Hu) as [Hs2 Hk2]; [done|]. rewrite <- Hx in Hs2, Hk2.
  eexists. split; [|split; [exact Hs2|]].
  - unfold mm_merge_prev. rewrite Hun. cbn [mbind option_bind]. mget X1. mget T2.
    rewrite !u32_small by lia. mput. rewrite get_upd by lia; cbn [mbind option_bind].
    rewrite (setprec_fld _ _ s (used d)); [done|lia| |lia]. by rewrite fld_ne by (simpl; lia).
  - eapply keeps_trans; [|exact Hk1|exact Hk2]. intros k [Hk Hq]. split; [done|].
    apply quiet_app in Hq as [Hq1 Hq2]. apply quiet_app. split; [done|]. simpl in *.
    rewrite Z.add_assoc. split; [lia|]. apply Hq2.
Qed.

End Steps.

End MmState.
