(* ===== verification/MmFree.v ===== *)
(** * The heap's invariant, and freeing

    [heap_ok] is the invariant of a heap between two operations.  [mm_free] marks a
    chunk as free and merges it with its free neighbours. *)

From S2P Require Import Prelude MmHeap MmList MmLayout MmState.

Module MmFree.
Import MmHeap MmList MmLayout MmState.

Implicit Types (cs l r : list chunk) (m : gmap Z Z).

Definition settled (c : chunk) : Prop := c.2 ≠ Loose.

Record heap_ok (h : mm_heap_s) cs : Prop := {
  ho_place : place h;
  ho_state : hstate h (mem h) cs;
  ho_size : mm_heapsize h = total cs;
  ho_coalesced : coalesced cs = true;
  ho_settled : Forall settled cs
}.

(** Only the geometry of a heap matters to the invariant, not the memory in it. *)

Lemma place_set h m : place h → place (set_mem h m).
Proof. intros []. by constructor. Qed.

Lemma flist_set h m0 m F L : flist h m F L → flist (set_mem h m0) m F L.
Proof. intros []. by constructor. Qed.

Lemma hstate_set h m0 m cs : hstate h m cs → hstate (set_mem h m0) m cs.
Proof. intros [?? ?? [L ?%(flist_set h m0)]]. constructor; try done. by exists L. Qed.

Lemma heap_ok_set h m cs :
  place h → hstate h m cs → mm_heapsize h = total cs → coalesced cs = true → Forall settled cs →
  heap_ok (set_mem h m) cs.
Proof. intros. constructor; [by apply place_set|by apply hstate_set|done..]. Qed.

(** Neighbours that are both free become one chunk. *)

Fixpoint merge cs : list chunk :=
  match cs with
  | [] => []
  | (s, Free) :: cs =>
      match merge cs with
      | (t, Free) :: r => (s + t, Free) :: r
      | r => (s, Free) :: r
      end
  | c :: cs => c :: merge cs
  end.

Lemma merge_coalesced cs : coalesced cs = true → merge cs = cs.
Proof.
  induction cs as [|[s b] cs IH]; [done|]. intros Hc.
  assert (coalesced cs = true).
  { destruct cs as [|[t d] cs]; [done|]. rewrite coalesced_cons2 in Hc. by apply andb_true_iff in Hc as [_ ?]. }
  simpl. rewrite IH by done. destruct b; try done. destruct cs as [|[t d] cs]; [done|].
  by destruct d.
Qed.

Lemma merge_settled cs :
  Forall settled cs → Forall settled (merge cs) ∧ coalesced (merge cs) = true ∧ total (merge cs) = total cs.
Proof.
  induction 1 as [|[s b] cs Hb _ (IH1 & IH2 & IH3)]; [done|]. simpl.
  destruct b; [| |done].
  - split; [by constructor|]. rewrite coalesced_cons_used. split; [done|].
    unfold total in *. simpl. lia.
  - destruct (merge cs) as [|[t d] r].
    + split; [by repeat constructor|]. simpl in *. split; [done|lia].
    + destruct d; simpl in IH3.
      * split; [by constructor|]. rewrite coalesced_cons2. split; [done|]. simpl. lia.
      * apply Forall_cons in IH1 as [_ ?]. split; [by constructor|]. split; [done|]. simpl. lia.
      * by apply Forall_cons in IH1 as [? _].
Qed.

Definition ends_used l : Prop := ∃ l' p, l = l' ++ [(p, Used)].
Definition starts_used r : Prop := ∃ t r', r = (t, Used) :: r'.

Lemma merge_app l x : ends_used l → coalesced l = true → merge (l ++ x) = l ++ merge x.
Proof.
  intros (l' & p & ->). induction l' as [|[s b] l' IH]; intros Hc; [done|].
  simpl app in *. assert (Hc' : coalesced (l' ++ [(p, Used)]) = true).
  { destruct (l' ++ [(p, Used)]) as [|[t d] k]; [done|].
    rewrite coalesced_cons2 in Hc. by apply andb_true_iff in Hc as [_ ?]. }
  simpl. rewrite IH by done. destruct b; try done.
  destruct l' as [|[t d] l']; [done|]. simpl app in *. rewrite coalesced_cons2 in Hc.
  by destruct d.
Qed.

Lemma coalesced_around l s r :
  ends_used l → starts_used r → coalesced l = true → coalesced r = true →
  coalesced (l ++ (s, Free) :: r) = true.
Proof.
  intros (l' & p & ->) (t & r' & ->) Hl Hr. rewrite <- app_assoc. cbn [app].
  rewrite coalesced_mid, Hl, !coalesced_cons2. by rewrite Hr.
Qed.

Lemma coalesced_split l c r :
  coalesced (l ++ c :: r) = true → coalesced l = true ∧ coalesced r = true.
Proof.
  rewrite coalesced_mid. intros [H1 H2]%andb_true_iff. destruct c as [s b]. split.
  - destruct l as [|[t d] l _] using rev_ind; [done|]. rewrite <- app_assoc in H1. cbn [app] in H1.
    rewrite coalesced_mid in H1. by apply andb_true_iff in H1 as [? _].
  - destruct r as [|[t d] r]; [done|]. rewrite coalesced_cons2 in H2. by apply andb_true_iff in H2 as [_ ?].
Qed.

(** ** [mm_free] *)

Section Free.

Context (h : mm_heap_s) (Hpl : place h).

Lemma user_merge l s b t d r k :
  used b = false → used d = false →
  user h (l ++ (s, b) :: (t, d) :: r) k → user h (l ++ (s + t, Loose) :: r) k.
Proof.
  intros Hb Hd [Hk [Hq1 Hq2]%quiet_app]. split; [done|]. apply quiet_app. split; [done|].
  simpl in *. rewrite Hb, Hd in Hq2. rewrite Z.add_assoc. split; [lia|]. apply Hq2.
Qed.

(** The chunk takes in a free successor. *)

Lemma join_next m l s r x :
  hstate h m (l ++ (s, Loose) :: r) → Forall settled r → coalesced r = true →
  x = mm_heapstart h + total l →
  ∃ np s' r' m',
    get m (x + s) preceding = Some np ∧ prec_size np = s ∧
    (if allocated np then Some (x + s, m) else mm_merge_next m x (x + s)) = Some (x + s', m') ∧
    hstate h m' (l ++ (s', Loose) :: r') ∧ starts_used r' ∧ coalesced r' = true ∧ Forall settled r' ∧
    merge ((s, Free) :: r) = (s', Free) :: r' ∧ keeps h (l ++ (s, Loose) :: r) m m' ∧
    (∀ k, user h (l ++ (s, Loose) :: r) k → user h (l ++ (s', Loose) :: r') k).
Proof.
  intros Hs Hset Hco Hx.
  assert (Hu : uchunk (s, Loose)) by (eapply wf_free; [apply Hs|done]).
  destruct (wf_split _ _ _ (hs_wf _ _ _ Hs) Hu) as [_ Hr].
  destruct (wfr_head _ Hr) as (t & d & r' & -> & Hd).
  destruct (hs_hdr h Hpl m _ (l ++ [(s, Loose)]) t d r' (x + s) Hs) as (_ & T & Hb); [tiles..|].
  rewrite psize_snoc in *. rewrite total_app in Hb. simpl in Hb.
  destruct (hs_hdr h Hpl m _ l s Loose ((t, d) :: r') x Hs) as (_ & _ & Hb'); [tiles..|].
  apply Forall_cons in Hset as [Hset1 Hset].
  exists (prec_word s (used d)). destruct d.
  - exists s, ((t, Used) :: r'), m. mget T. rewrite prec_size_prec, allocated_prec by lia.
    split_and!; try done; [by eexists _, _|by constructor|].
    simpl. by rewrite merge_coalesced by by rewrite coalesced_cons_used in Hco.
  - destruct Hd as [(_ & _ & ?)|[Hut Hr']]; [done|].
    destruct (wfr_head _ Hr') as (u & d & r'' & -> & _).
    destruct (merge_next_spec h Hpl m l s t u d r'' x Hs Hx) as (m' & Hm & Hs' & Hk).
    exists (s + t), ((u, d) :: r''), m'. mget T. rewrite prec_size_prec, allocated_prec by lia.
    rewrite coalesced_cons2 in Hco. apply andb_true_iff in Hco as [Hd Hco].
    assert (d = Used) as -> by by destruct d.
    split_and!; try done; [by rewrite Hm, Z.add_assoc|by eexists _, _| |intros k; by apply user_merge].
    simpl. by rewrite (merge_coalesced r'') by by rewrite coalesced_cons_used in Hco.
  - done.
Qed.

(** A free predecessor takes in the chunk. *)

Lemma join_prev m l s r x :
  hstate h m (l ++ (s, Loose) :: r) → Forall settled l → coalesced l = true →
  x = mm_heapstart h + total l →
  ∃ pp l' s' m',
    get m (x - psize 0 l) size = Some (psize 0 l) ∧
    get m (x - psize 0 l) preceding = Some pp ∧
    (if allocated pp then Some (x, m)
     else m ← mm_merge_prev m (x - psize 0 l) x (x + s); Some (x - psize 0 l, m)) =
      Some (mm_heapstart h + total l', m') ∧
    hstate h m' (l' ++ (s', Loose) :: r) ∧ ends_used l' ∧ coalesced l' = true ∧ Forall settled l' ∧
    (∀ k, merge k = (s, Free) :: r → merge (l ++ k) = l' ++ (s', Free) :: r) ∧
    keeps h (l ++ (s, Loose) :: r) m m' ∧
    (∀ k, user h (l ++ (s, Loose) :: r) k → user h (l' ++ (s', Loose) :: r) k).
Proof.
  intros Hs Hset Hco Hx.
  assert (Hu : uchunk (s, Loose)) by (eapply wf_free; [apply Hs|done]).
  destruct (wf_split _ _ _ (hs_wf _ _ _ Hs) Hu) as [Hl Hr].
  destruct (wfl_last _ Hl) as (l' & p & e & -> & He). rewrite total_app in Hx. simpl in Hx.
  assert (Hs0 : hstate h m (l' ++ (p, e) :: (s, Loose) :: r)) by by rewrite <- app_assoc in Hs.
  destruct (hs_hdr h Hpl m _ l' p e ((s, Loose) :: r) (x - p) Hs0) as (P1 & P2 & Hb); [tiles..|].
  simpl in Hb. rewrite psize_snoc. apply Forall_app in Hset as [Hset1 [Hset _]%Forall_cons].
  exists (prec_word (psize 0 l') (used e)).
  rewrite (get_fld m (x - p) size), (get_fld m (x - p) preceding), P1, P2 by lia.
  rewrite allocated_prec by lia. destruct e; simpl used.
  - exists (l' ++ [(p, Used)]), s, m. split_and!; try done; [|by exists l', p| |].
    + do 2 f_equal. rewrite Hx. tiles.
    + apply Forall_app. split; [done|]. by constructor.
    + intros k Hk. rewrite merge_app by (by exists l', p || done). by rewrite Hk.
  - destruct He as [(_ & _ & ?)|[Hl' Hup]]; [done|].
    destruct (wfr_head _ Hr) as (u & d & r' & -> & _).
    destruct (merge_prev_spec h Hpl m l' p s u d r' (x - p) Hs0) as (m' & Hm & Hs' & Hk); [tiles|].
    replace (x - p + p) with x in Hm by lia.
    destruct (wfl_last _ Hl') as (l0 & q & e & -> & _).
    rewrite <- app_assoc in Hco. cbn [app] in Hco. rewrite coalesced_mid, coalesced_cons2 in Hco.
    apply andb_true_iff in Hco as [Hc1 [Hc2 _]%andb_true_iff]. assert (e = Used) as -> by by destruct e.
    exists (l0 ++ [(q, Used)]), (p + s), m'. split_and!; try done.
    + rewrite Hm. cbn [mbind option_bind]. do 2 f_equal. rewrite Hx. tiles.
    + by exists l0, q.
    + intros k Hk'. rewrite <- app_assoc. cbn [app]. rewrite merge_app by (by exists l0, q || done).
      simpl. by rewrite Hk'.
    + by rewrite <- app_assoc.
    + intros k Hk'. rewrite <- app_assoc in Hk'. revert Hk'. by apply user_merge.
  - done.
Qed.

Lemma free_ok l s r :
  hstate h (mem h) (l ++ (s, Used) :: r) → uchunk (s, Used) →
  coalesced (l ++ (s, Used) :: r) = true → Forall settled (l ++ (s, Used) :: r) →
  ∃ m' cs', mm_free false h (mm_heapstart h + total l + 8) = Some (set_mem h m') ∧
    cs' = merge (l ++ (s, Free) :: r) ∧ hstate h m' cs' ∧ coalesced cs' = true ∧
    Forall settled cs' ∧ keeps h (l ++ (s, Free) :: r) (mem h) m'.
Proof.
  intros Hs Hu Hco Hset. remember (mm_heapstart h + total l) as x eqn:Hxd.
  destruct (coalesced_split _ _ _ Hco) as [Hcl Hcr].
  apply Forall_app in Hset as [Hsl [_ Hsr]%Forall_cons].
  destruct (chunk_caddr h _ l (s, Used) r (hs_wf _ _ _ Hs) (hs_end _ _ _ Hs) eq_refl Hu) as [Hca Hce].
  pose proof Hu as [Hs16 _]. simpl in Hce, Hs16.
  destruct (hs_hdr h Hpl (mem h) _ l s Used r x Hs) as (X1 & X2 & Hb); [tiles..|].
  destruct (st_flip h Hpl (mem h) l s Used Loose r Hs Hu) as [Hs1 Hk1]; [done..|].
  rewrite <- Hxd in Hs1, Hk1. simpl used in *. set (m1 := upd (mem h) x preceding (prec_word (psize 0 l) false)) in *.
  destruct (join_next m1 l s r x Hs1 Hsr Hcr Hxd)
    as (np & s' & r' & m2 & Hnp & Hps & Hif & Hs2 & Hst & Hcr' & Hsr' & Hmn & Hk2 & Hu2).
  destruct (join_prev m2 l s' r' x Hs2 Hsl Hcl Hxd)
    as (pp & l' & s'' & m3 & Hp1 & Hp2 & Hif2 & Hs3 & Hen & Hcl' & Hsl' & Hmp & Hk3 & Hu3).
  destruct (st_list h Hpl m3 l' s'' r' Hs3) as (m4 & Hadd & Hs4 & Hk4).
  destruct (hs_hdr h Hpl m1 _ l s Loose r x Hs1) as (Y1 & _ & _); [tiles..|].
  destruct (hs_hdr h Hpl m2 _ l s' Loose r' x Hs2) as (_ & Y2 & Hb'); [tiles..|].
  assert (Hx : 0 < x) by lia.
  exists m4, (l' ++ (s'', Free) :: r'). split_and!.
  - unfold mm_free, SIZEOF_MM_ALLOCNODE. rewrite (proj2 (Z.eqb_neq _ _)) by (unfold NULL; lia).
    unfold mm_heapmember. rewrite !(proj2 (Z.ltb_lt _ _)) by lia. cbn [andb DEBUGASSERT mbind option_bind].
    replace (x + 8 - 8) with x by lia. rewrite u32_small by lia.
    mget X2. rewrite allocated_prec, prec_size_prec by lia. cbn [DEBUGASSERT mbind option_bind].
    rewrite <- (prec_word_free (psize 0 l)). mput. fold m1. mget Y1.
    rewrite u32_small, Hnp by lia. cbn [mbind option_bind].
    rewrite Hps, Z.eqb_refl. cbn [DEBUGASSERT mbind option_bind]. rewrite Hif. cbn [mbind option_bind].
    mget Y2. rewrite prec_word_free, u32_small, Hp1 by lia. cbn [mbind option_bind].
    rewrite <- (prec_word_free (psize 0 l)) at 1. rewrite prec_size_prec, Z.eqb_refl by lia.
    cbn [DEBUGASSERT mbind option_bind]. rewrite Hp2. cbn [mbind option_bind].
    rewrite Hif2. cbn [mbind option_bind]. exact Hadd.
  - symmetry. auto.
  - done.
  - by apply coalesced_around.
  - apply Forall_app. split; [done|]. by constructor.
  - intros k Hk. apply (user_relabel h l s Free Loose r) in Hk; [|done].
    rewrite (Hk4 k), (Hk3 k), (Hk2 k), (Hk1 k) by auto. done.
Qed.

End Free.

End MmFree.
