(* ===== verification/MmMalloc.v ===== *)
(** * Allocation from the heap

    [mm_malloc] takes a smallest chunk that is large enough, and gives back the rest of
    it.  The sizes it computes, and the search and the split that it does. *)

From S2P Require Import Prelude MmHeap MmList MmLayout MmState MmFree.

Module MmMalloc.
Import MmHeap MmList MmLayout MmState MmFree.

Implicit Types (cs l r : list chunk) (m : gmap Z Z).

(** ** Sizes *)

Lemma align_up_spec n : 0 ≤ n → n + 15 < 2 ^ 32 → MM_ALIGN_UP n = 16 * ((n + 15) / 16).
Proof.
  intros H0 Hn. unfold MM_ALIGN_UP. change MM_GRAN_MASK with (Z.ones 4).
  change (n + Z.ones 4) with (n + 15).
  rewrite u32_small by lia. rewrite <- Z.ldiff_land, Z.ldiff_ones_r by lia.
  rewrite Z.shiftr_div_pow2, Z.shiftl_mul_pow2 by lia. change (2 ^ 4) with 16. lia.
Qed.

(** The size of the chunk for a request. *)

Definition chunk_size (sz : Z) : Z := 16 * ((sz + 23) / 16).

Lemma chunk_size_spec sz :
  1 ≤ sz → sz + 23 < 2 ^ 32 →
  MM_ALIGN_UP (u32 (sz + SIZEOF_MM_ALLOCNODE)) = chunk_size sz ∧
  16 ≤ chunk_size sz < 2 ^ 32 ∧ chunk_size sz mod 16 = 0 ∧ sz + 8 ≤ chunk_size sz < sz + 24.
Proof.
  intros H1 H2. unfold SIZEOF_MM_ALLOCNODE, chunk_size. rewrite u32_small by lia.
  rewrite align_up_spec by lia. replace (sz + 8 + 15) with (sz + 23) by lia.
  split; [done|]. dlia.
Qed.

(** What is left of a chunk of [s] bytes when [a] of them are taken. *)

Definition carve (a s : Z) (b : cstate) : list chunk :=
  if 16 <=? s - a then [(a, b); (s - a, Free)] else [(s, b)].

Section Malloc.

Context (h : mm_heap_s) (Hpl : place h).

(** The header of a new chunk can be written: it is in the region. *)

Lemma put_inside m0 m l s b r a x f v :
  hstate h m0 (l ++ (s, b) :: r) → uchunk (s, b) → words h m → x = mm_heapstart h + total l →
  a mod 16 = 0 → 0 ≤ a → a + 16 ≤ s → put m (x + a) f v = Some (upd m (x + a) f v).
Proof.
  intros Hs Hu Hw Hx Ha1 Ha2 Ha3.
  destruct (chunk_caddr h _ l (s, b) r (hs_wf _ _ _ Hs) (hs_end _ _ _ Hs) eq_refl Hu) as [Hca Hce].
  simpl in Hce. rewrite <- Hx in *. destruct Hca as [Hc1 Hc2].
  apply (node_put h Hpl); [done| |lia]. left. split; [|lia]. dlia.
Qed.

Lemma user_cut l s a r k :
  0 ≤ a ≤ s → user h (l ++ (s, Loose) :: r) k → user h (l ++ (a, Loose) :: (s - a, Loose) :: r) k.
Proof.
  intros Ha [? [Hq1 [Hq2 Hq3]]%quiet_app]. split; [done|]. apply quiet_app. split; [done|].
  simpl in *. replace (mm_heapstart h + total l + a + (s - a)) with (mm_heapstart h + total l + s) by lia.
  split; [lia|]. split; [lia|]. done.
Qed.

Lemma split_spec m l s r a x :
  hstate h m (l ++ (s, Loose) :: r) → uchunk (a, Loose) → a ≤ s → x = mm_heapstart h + total l →
  ∃ m', mm_split (set_mem h m) x a = Some (set_mem h m') ∧
    hstate h m' (l ++ carve a s Loose ++ r) ∧ keeps h (l ++ (s, Loose) :: r) m m'.
Proof.
  intros Hs Hua Has Hx.
  assert (Hu : uchunk (s, Loose)) by (eapply wf_free; [apply Hs|done]).
  destruct (wf_split _ _ _ (hs_wf _ _ _ Hs) Hu) as [Hl Hr].
  destruct (hs_hdr h Hpl m _ l s Loose r x Hs) as (X1 & X2 & Hb); [tiles..|].
  destruct (wfr_head _ Hr) as (u & d & r' & -> & _). simpl in Hb.
  destruct (hs_hdr h Hpl m _ (l ++ [(s, Loose)]) u d r' (x + s) Hs) as (_ & U & Hb'); [tiles..|].
  rewrite psize_snoc in *. rewrite total_app in Hb'. simpl in Hb'.
  pose proof Hua as [Ha16 Ham]. pose proof Hu as [Hs16 Hsm]. simpl in *.
  unfold mm_split, carve, SIZEOF_MM_FREENODE. cbn [mem set_mem]. mget X1.
  rewrite (u32_small (s - a)) by lia.
  destruct (Z.leb_spec 16 (s - a)); [|by exists m].
  rewrite !u32_small by lia. pose proof (hs_words _ _ _ Hs) as Hw.
  rewrite !(put_inside m _ l s Loose ((u, d) :: r')) by (done || lia). cbn [mbind option_bind].
  rewrite !(put_inside m _ l s Loose ((u, d) :: r')) by (eauto using words_upd || lia).
  cbn [mbind option_bind]. rewrite put_upd by (lia || (fields; eauto)). cbn [mbind option_bind].
  rewrite (setprec_fld _ _ s (used d)) by (lia || by fields). cbn [mbind option_bind].
  match goal with |- context [mm_addfreechunk (set_mem _ ?m') _] => set (m1 := m') end.
  destruct (st_cut h Hpl m m1 l s Loose [] a (s - a) Loose u d r') as [Hs1 Hk1]; try done.
  - by constructor.
  - split; simpl; [lia|dlia].
  - simpl. lia.
  - unfold m1. eauto using words_upd.
  - intros k ????. unfold m1, upd. rewrite !lookup_insert_ne by (simpl; lia). done.
  - unfold m1. rewrite <- Hx. by fields.
  - unfold m1. rewrite <- Hx. by fields.
  - unfold m1. rewrite <- Hx, prec_word_free. by fields.
  - unfold m1. rewrite <- Hx. replace (x + a + (s - a)) with (x + s) by lia. by fields.
  - destruct (st_list h Hpl m1 (l ++ [(a, Loose)]) (s - a) ((u, d) :: r')) as (m2 & Hadd & Hs2 & Hk2);
      [by rewrite <- app_assoc|].
    replace (mm_heapstart h + total (l ++ [(a, Loose)])) with (x + a) in Hadd by tiles.
    rewrite <- app_assoc in Hs2, Hk2. exists m2. split; [exact Hadd|]. split; [done|].
    intros k Hk. apply (user_cut l s a) in Hk; [|lia]. rewrite (Hk2 k), (Hk1 k) by done. done.
Qed.

(** ** [mm_malloc] *)

(** No free chunk has the size [a]; [s] is the smallest one that has. *)

Definition none_fits cs (a : Z) : Prop := ∀ t, (t, Free) ∈ cs → t < a.
Definition best_fit cs (a s : Z) : Prop := a ≤ s ∧ ∀ t, (t, Free) ∈ cs → a ≤ t → s ≤ t.

Lemma free_elem cs t : (t, Free) ∈ cs → ∃ l r, cs = l ++ (t, Free) :: r.
Proof. apply list_elem_of_split. Qed.

Lemma fit_search cs a :
  hstate h (mem h) cs → 16 ≤ a < 2 ^ 32 →
  ∃ first x, get (mem h) (nodelist h (mm_size2ndx a)) flink = Some first ∧
    mm_search (S (base.size (mem h))) (mem h) a first = Some x ∧
    ((x = NULL ∧ none_fits cs a) ∨
     ∃ l s r, cs = l ++ (s, Free) :: r ∧ x = mm_heapstart h + total l ∧ best_fit cs a s).
Proof.
  intros Hs Ha. pose proof Hs as [_ _ _ _ [L HL]].
  destruct (flist_search h Hpl (mem h) _ L a HL Ha) as (first & x & Hf & Hse & Hx).
  exists first, x. split; [|split; [done|]].
  { destruct (size2ndx_spec a Ha) as [Hi _]. rewrite (node_get h Hpl); [done|].
    right. by exists (mm_size2ndx a). }
  assert (Hall : ∀ t, (t, Free) ∈ cs →
    ∃ y, y ∈ frees (mm_heapstart h) cs ∧ fld (mem h) y size = Some t).
  { intros t (l & r & Hcs)%free_elem. exists (mm_heapstart h + total l).
    split; [rewrite Hcs; apply elem_of_frees|]. by destruct (hs_hdr h Hpl (mem h) cs l t Free r _ Hs Hcs eq_refl). }
  destruct Hx as [[-> Hno]|(HxF & s & Hsz & Has & Hmin)]; [left|right].
  - split; [done|]. intros t (y & Hy & Ht)%Hall. eauto.
  - destruct (frees_split _ _ _ HxF) as (l & s' & r & Hcs & Hx).
    destruct (hs_hdr h Hpl (mem h) cs l s' Free r x) as (Hs' & _); [done..|]. simplify_eq.
    exists l, s, r. split; [done|]. split; [done|]. split; [done|].
    intros t (y & Hy & Ht)%Hall. eauto.
Qed.

Lemma carve_total a s b : total (carve a s b) = s.
Proof. unfold carve. case_if; simpl; lia. Qed.

(** The allocated chunk begins where the free one did. *)

Lemma carve_head a s b : uchunk (a, b) → uchunk (s, b) → a ≤ s →
  ∃ r, carve a s b = (a, b) :: r ∧ ∀ b', carve a s b' = (a, b') :: r.
Proof.
  intros [H1 H2] [H3 H4] Has. simpl in *. unfold carve. case_if; [eauto|].
  assert (s = a) as -> by dlia. eauto.
Qed.

Lemma user_carve l s b a b' r k :
  used b = false → 8 ≤ a ≤ s → user h (l ++ (s, b) :: r) k → user h (l ++ carve a s b' ++ r) k.
Proof.
  intros Hb Ha [? [Hq1 [Hq2 Hq3]]%quiet_app]. split; [done|]. apply quiet_app. split; [done|].
  rewrite Hb in Hq2. unfold carve. case_if; simpl.
  - replace (mm_heapstart h + total l + a + (s - a)) with (mm_heapstart h + total l + s) by lia.
    split; [destruct (used b'); lia|]. split; [lia|done].
  - split; [destruct (used b'); lia|done].
Qed.

Lemma take_ok l s r a x :
  hstate h (mem h) (l ++ (s, Free) :: r) → uchunk (a, Used) → a ≤ s → x = mm_heapstart h + total l →
  ∃ m1 m2 m3,
    mm_unlink (mem h) x = Some m1 ∧ mm_split (set_mem h m1) x a = Some (set_mem h m2) ∧
    m3 = upd m2 x preceding (prec_word (psize 0 l) true) ∧
    get m2 x preceding = Some (prec_word (psize 0 l) false) ∧
    hstate h m3 (l ++ carve a s Used ++ r) ∧ keeps h (l ++ (s, Free) :: r) (mem h) m3.
Proof.
  intros Hs Hua Has Hx. assert (Hu : uchunk (s, Free)) by (eapply wf_free; [apply Hs|done]).
  destruct (st_unlink h Hpl (mem h) l s r Hs) as (m1 & Hun & Hs1 & Hk1). rewrite <- Hx in Hun.
  destruct (split_spec m1 l s r a x Hs1 Hua Has Hx) as (m2 & Hsp & Hs2 & Hk2).
  destruct (carve_head a s Loose Hua Hu Has) as (k & Hc1 & Hc2).
  rewrite Hc1 in Hs2. cbn [app] in Hs2.
  destruct (hs_hdr h Hpl m2 _ l a Loose (k ++ r) x Hs2) as (_ & X2 & Hb); [done..|].
  destruct (st_flip h Hpl m2 l a Loose Used (k ++ r) Hs2 Hua) as [Hs3 Hk3]; [done..|].
  rewrite <- Hx in Hs3, Hk3. rewrite Hc2. cbn [app].
  exists m1, m2, (upd m2 x preceding (prec_word (psize 0 l) true)).
  split; [done|]. split; [done|]. split; [done|]. split; [by mget X2|]. split; [done|].
  intros y Hy. rewrite <- (Hk1 y Hy). apply (user_relabel h l s Free Loose) in Hy; [|done].
  rewrite <- (Hk2 y Hy). apply Hk3. apply (user_carve l s Loose a Used) in Hy; [|done|].
  - by rewrite Hc2 in Hy.
  - destruct Hua. simpl in *. lia.
Qed.

Lemma carve_settled l s a r :
  Forall settled (l ++ (s, Free) :: r) → Forall settled (l ++ carve a s Used ++ r).
Proof.
  intros [Hl [_ Hr]%Forall_cons]%Forall_app. apply Forall_app. split; [done|].
  apply Forall_app. split; [|done]. unfold carve. case_if; by repeat constructor.
Qed.

Lemma carve_coalesced l s a r :
  coalesced (l ++ (s, Free) :: r) = true → coalesced (l ++ carve a s Used ++ r) = true.
Proof.
  rewrite coalesced_mid. intros [Hl Hr]%andb_true_iff.
  destruct (coalesced_split l (s, Free) [] Hl) as [Hl' _]. unfold carve. case_if; cbn [app].
  - rewrite coalesced_mid, coalesced_snoc_used, Hl', coalesced_cons_used. done.
  - rewrite coalesced_mid, coalesced_snoc_used, Hl', coalesced_cons_used.
    by destruct (coalesced_split [] (s, Free) r Hr).
Qed.

(** A request is met by a smallest chunk that is large enough, or fails when there is none. *)

Lemma alloc_ok cs sz :
  heap_ok h cs → 1 ≤ sz → sz + 23 < 2 ^ 32 →
  (none_fits cs (chunk_size sz) ∧ mm_alloc h sz = Some (NULL, h)) ∨
  ∃ l s r m', cs = l ++ (s, Free) :: r ∧ best_fit cs (chunk_size sz) s ∧
    mm_alloc h sz = Some (mm_heapstart h + total l + 8, set_mem h m') ∧
    heap_ok (set_mem h m') (l ++ carve (chunk_size sz) s Used ++ r) ∧
    keeps h cs (mem h) m'.
Proof.
  intros [_ Hs Htot Hco Hset] H1 H2. destruct (chunk_size_spec sz H1 H2) as (Hsz & Ha & Ham & Ha2).
  destruct (fit_search cs (chunk_size sz) Hs Ha) as (first & x & Hf & Hse & Hx).
  unfold mm_alloc. rewrite Hsz, (proj2 (Z.ltb_ge sz 1)) by lia.
  change MM_MIN_CHUNK with 16. change SIZEOF_MM_FREENODE with 16.
  rewrite (proj2 (Z.leb_le sz _)), (proj2 (Z.leb_le 16 _)) by lia. cbn [DEBUGASSERT mbind option_bind].
  replace (if MM_MAX_CHUNK <=? chunk_size sz then MM_NNODES - 1 else mm_size2ndx (chunk_size sz))
    with (mm_size2ndx (chunk_size sz)) by (unfold mm_size2ndx; by case_if).
  rewrite Hf. cbn [mbind option_bind]. rewrite Hse. cbn [mbind option_bind].
  destruct Hx as [[-> Hno]|(l & s & r & -> & Hxl & Hbf)]; [by left|right].
  assert (Hua : uchunk (chunk_size sz, Used)) by (split; simpl; lia).
  destruct (take_ok l s r (chunk_size sz) x Hs Hua (proj1 Hbf) Hxl)
    as (m1 & m2 & m3 & Hun & Hsp & Hm3 & Hpr & Hs3 & Hk).
  destruct (hs_hdr h Hpl (mem h) _ l s Free r x Hs) as (_ & _ & Hb); [done..|].
  exists l, s, r, m3. split; [done|]. split; [done|]. split; [|split; [|done]].
  - rewrite (proj2 (Z.eqb_neq x NULL)) by (unfold NULL; lia).
    rewrite Hun. cbn [mbind option_bind]. rewrite Hsp. cbn [mbind option_bind mem set_mem].
    rewrite Hpr. cbn [mbind option_bind]. rewrite prec_word_alloc.
    rewrite put_upd by (lia || (rewrite get_fld in Hpr by lia; eauto)). cbn [mbind option_bind].
    unfold SIZEOF_MM_ALLOCNODE, mm_heapmember. rewrite u32_small by lia. cbn [mm_heapstart mm_heapend set_mem].
    destruct (chunk_caddr h _ l (s, Free) r (hs_wf _ _ _ Hs) (hs_end _ _ _ Hs) eq_refl) as [_ Hce];
      [eapply wf_free; [apply Hs|done]|]. simpl in Hce. destruct Hbf as [Hbf _].
    rewrite !(proj2 (Z.ltb_lt _ _)) by lia. rewrite orb_true_r. cbn [DEBUGASSERT mbind option_bind].
    by rewrite Hm3, Hxl.
  - apply heap_ok_set; [done|done| |by apply carve_coalesced|by apply carve_settled].
    rewrite Htot, !total_app, carve_total. done.
Qed.

End Malloc.

End MmMalloc.
