(* ===== verification/MmInit.v ===== *)
(** * Initialization of the heap

    [mm_initialize] builds a heap of one free chunk between the two guards. *)

From S2P Require Import Prelude MmHeap MmList MmLayout MmState MmFree MmMalloc.

Module MmInit.
Import MmHeap MmList MmLayout MmState MmFree MmMalloc.

Implicit Types (cs l r : list chunk) (m : gmap Z Z).

(** ** The array of nodes *)

Definition in_words (a : Z) (n : nat) (k : Z) : Prop := a ≤ k < a + 4 * Z.of_nat n ∧ (k - a) mod 4 = 0.

Lemma clear_spec n m a :
  0 < a → (∀ k, in_words a n k → is_Some (m !! k)) →
  ∃ m', clear n m a = Some m' ∧ (∀ k, in_words a n k → m' !! k = Some 0) ∧
    (∀ k, ¬ in_words a n k → m' !! k = m !! k).
Proof.
  unfold in_words. revert m a. induction n as [|n IH]; intros m a Ha Hm.
  - exists m. split; [done|]. split; intros; [lia|done].
  - cbn [clear]. unfold set_word, word. rewrite (proj2 (Z.eqb_neq a NULL)) by (unfold NULL; lia).
    destruct (Hm a) as [v Hv]; [split; [lia|by rewrite Z.sub_diag]|]. rewrite Hv. cbn [mbind option_bind].
    destruct (IH (<[a := 0]> m) (a + 4)) as (m' & -> & H1 & H2); [lia| |].
    { intros k [Hk1 Hk2]. rewrite lookup_insert_ne by lia. apply Hm. split; [lia|].
      replace (k - a) with (k - (a + 4) + 1 * 4) by lia. by rewrite Z.mod_add. }
    exists m'. split; [done|]. split; intros k Hk.
    + destruct (decide (k = a)) as [->|Hne].
      * rewrite H2 by lia. apply lookup_insert_eq.
      * apply H1. split; [dlia|]. dlia.
    + rewrite H2; [|intros [Hk1 Hk2]; apply Hk; split; [lia|dlia]].
      apply lookup_insert_ne. intros <-. apply Hk. split; [lia|]. by rewrite Z.sub_diag.
Qed.

Section Init.

(** The heap that initialization ends with. *)

Context (H : mm_heap_s) (Hpl : place H).

Lemma sentinel_node i : 0 ≤ i < MM_NNODES → is_node H (nodelist H i).
Proof. intros Hi. right. by exists i. Qed.

Lemma nodelist_inj i j : nodelist H i = nodelist H j → i = j.
Proof. unfold nodelist, SIZEOF_MM_FREENODE. lia. Qed.

Lemma elem_of_nodes x n : x ∈ nodelist H <$> seqZ 0 n ↔ ∃ i, 0 ≤ i < n ∧ x = nodelist H i.
Proof.
  rewrite list_elem_of_fmap. split.
  - intros (i & -> & Hi%elem_of_seqZ). exists i. split; [lia|done].
  - intros (i & Hi & ->). exists i. split; [done|]. apply elem_of_seqZ. lia.
Qed.

Lemma nodes_snoc i :
  0 ≤ i → nodelist H <$> seqZ 0 (i + 1) = (nodelist H <$> seqZ 0 i) ++ [nodelist H i].
Proof.
  intros Hi. rewrite seqZ_app, fmap_app by lia.
  by rewrite (seqZ_cons _ 1), (seqZ_nil _ (Z.pred 1)) by lia.
Qed.

Lemma link_spec n h i :
  mm_nodelist h = mm_nodelist H → 1 ≤ i → i + Z.of_nat n = MM_NNODES → words H (mem h) →
  chain (mem h) (nodelist H <$> seqZ 0 (i - 1)) (nodelist H (i - 1)) →
  (∀ j, i - 1 ≤ j < MM_NNODES → fld (mem h) (nodelist H j) flink = Some NULL) →
  ∃ m', link_nodelist n h i = Some (set_mem h m') ∧ chain m' (sentinels H) NULL ∧
    words H m' ∧ links_only H [] (mem h) m'.
Proof.
  assert (HNN : MM_NNODES = 19) by done.
  revert h i. induction n as [|n IH]; intros h i Hn Hi Hin Hw Hc Hz; cbn [link_nodelist].
  - exists (mem h). split; [by destruct h|]. split; [|done]. unfold sentinels.
    replace MM_NNODES with ((i - 1) + 1) by lia. rewrite nodes_snoc by lia. apply links_app. split; [done|]. simpl.
    split; [|done]. split; [apply Hz; lia|done].
  - assert (Hnl : ∀ j, nodelist h j = nodelist H j) by (intros j; unfold nodelist; by rewrite Hn).
    rewrite !Hnl. assert (Hs1 : is_node H (nodelist H (i - 1))) by (apply sentinel_node; lia).
    assert (Hs2 : is_node H (nodelist H i)) by (apply sentinel_node; lia).
    assert (He : ∀ j, 0 ≤ j < MM_NNODES → nodelist H j ≠ mm_heapend H).
    { intros j Hj. apply sentinel_end; [done|]. by exists j. }
    assert (He1 := He (i - 1)). assert (He2 := He i).
    rewrite (node_put H Hpl) by (done || lia). cbn [mbind option_bind].
    rewrite (node_put H Hpl) by (eauto using words_upd || lia). cbn [mbind option_bind].
    set (m1 := relink (mem h) (nodelist H (i - 1)) (nodelist H i)).
    assert (Hm1 : upd (upd (mem h) (nodelist H (i - 1)) flink (nodelist H i)) (nodelist H i) blink
                    (nodelist H (i - 1)) = m1)
      by (unfold m1, relink; by rewrite (node_eqb_null H Hpl)).
    rewrite Hm1.
    destruct (IH (set_mem h m1) (i + 1)) as (m' & Hl & Hc' & Hw' & Hlo); [done|lia|lia| | | |].
    + by apply relink_words.
    + simpl. replace (i + 1 - 1) with ((i - 1) + 1) by lia. rewrite nodes_snoc by lia.
      replace (i - 1 + 1) with i by lia.
      apply (relink_chain_l H Hpl); try done.
      * intros x [(j & ? & ->)%elem_of_nodes|Hx%list_elem_of_singleton]%elem_of_app; [|by subst].
        apply sentinel_node. lia.
      * intros (j & ? & ?%nodelist_inj)%elem_of_nodes. lia.
      * intros (j & ? & ?%nodelist_inj)%elem_of_nodes. lia.
      * intros ?%nodelist_inj. lia.
    + intros j Hj. simpl. unfold m1. rewrite (relink_flink_ne H Hpl); [apply Hz; lia|done| |done|].
      * apply sentinel_node. lia.
      * intros ?%nodelist_inj. lia.
    + exists m'. split; [exact Hl|]. split; [done|]. split; [done|].
      eapply links_only_trans; [|exact Hlo]. unfold m1.
      apply relink_links_only; [left; exists (i - 1); split; [lia|done]|].
      intros _. left. exists i. split; [lia|done].
Qed.

Lemma sentinels_nodup : NoDup (sentinels H).
Proof. apply NoDup_fmap_2; [intros i j; apply nodelist_inj|apply NoDup_seqZ]. Qed.

Lemma sentinels_sorted m n :
  0 ≤ n ≤ MM_NNODES →
  StronglySorted (λ x y, key H m x ≤ key H m y) (nodelist H <$> seqZ 0 n).
Proof.
  intros [Hn Hle]. revert n Hn Hle. refine (natlike_ind _ _ _); [constructor|].
  intros n Hn IH Hle. change (Z.succ n) with (n + 1). rewrite nodes_snoc by lia.
  apply StronglySorted_app. split; [|split; [apply IH; lia|by repeat constructor]].
  intros x y (i & Hi & ->)%elem_of_nodes ->%list_elem_of_singleton.
  rewrite !key_sentinel by lia. pose proof (Z.pow_le_mono_r 2 (i + 5) (n + 5)). lia.
Qed.

Lemma flist_empty m :
  chain m (sentinels H) NULL → (∀ x, sentinel H x → fld m x size = Some 0) →
  flist H m [] (sentinels H).
Proof.
  intros Hc Hz. constructor; [done|by rewrite app_nil_r|apply sentinels_nodup| |done|set_solver].
  by apply sentinels_sorted.
Qed.

End Init.

(** ** [mm_initialize] *)

(** The region, without the bytes that its alignment costs. *)

Definition region_base (heapstart : Z) : Z := 16 * ((heapstart + 15) / 16).
Definition region_top (heapstart heapsize : Z) : Z := 16 * ((heapstart + heapsize) / 16).

(** What [mm_initialize] is given: the words of the array of nodes and, apart from it,
    of a region that is large enough for one chunk and smaller than 2 Gb. *)

Record region_ok (m : gmap Z Z) (nodes heapstart heapsize : Z) : Prop := {
  rg_start : 0 < heapstart;
  rg_end : heapstart + heapsize < 2 ^ 32;
  rg_large : region_base heapstart + 32 ≤ region_top heapstart heapsize;
  rg_small : region_top heapstart heapsize - region_base heapstart < 2 ^ 31;
  rg_nodes : 0 < nodes ∧ nodes + 304 < 2 ^ 32;
  rg_apart : region_top heapstart heapsize + 8 ≤ nodes ∨ nodes + 304 ≤ region_base heapstart;
  rg_words_nodes : ∀ k, in_words nodes 76 k → is_Some (m !! k);
  rg_words : ∀ k, region_base heapstart ≤ k < region_top heapstart heapsize →
               k mod 4 = 0 → is_Some (m !! k)
}.

Lemma align_down_spec n : MM_ALIGN_DOWN n = 16 * (n / 16).
Proof.
  unfold MM_ALIGN_DOWN. change MM_GRAN_MASK with (Z.ones 4).
  rewrite <- Z.ldiff_land, Z.ldiff_ones_r by lia.
  rewrite Z.shiftr_div_pow2, Z.shiftl_mul_pow2 by lia. change (2 ^ 4) with 16. lia.
Qed.

Definition new_heap (nodes heapstart heapsize : Z) (m : gmap Z Z) : mm_heap_s :=
  mk_heap m (region_top heapstart heapsize - region_base heapstart) (region_base heapstart)
    (region_top heapstart heapsize - 8) nodes NULL.

Definition new_chunks (heapstart heapsize : Z) (b : cstate) : list chunk :=
  [guard; (region_top heapstart heapsize - region_base heapstart - 16, b); guard].

Section Initialize.

Context (m : gmap Z Z) (nodes heapstart heapsize : Z) (Hrg : region_ok m nodes heapstart heapsize).

Let H0 := new_heap nodes heapstart heapsize m.

Lemma new_place : place H0.
Proof.
  destruct Hrg. unfold region_base, region_top in *.
  constructor; unfold H0; simpl; unfold region_base, region_top; try lia; dlia.
Qed.

Lemma new_words : words H0 m.
Proof.
  pose proof new_place as Hp. destruct Hrg. intros x f [[Hx1 Hx2]|(i & Hi & ->)] Hf; simpl in *; unfold fld.
  - apply rg_words0.
    + assert (x = region_top heapstart heapsize - 8 ∨ x ≤ region_top heapstart heapsize - 24).
      { unfold region_top, region_base in *. dlia. }
      destruct f; simpl; try lia; destruct H as [->|?]; try lia; by destruct Hf.
    + unfold region_base in *. destruct f; simpl; dlia.
  - change MM_NNODES with 19 in Hi. apply rg_words_nodes0. unfold nodelist, in_words, SIZEOF_MM_FREENODE.
    simpl. destruct f; simpl; (split; [lia|dlia]).
Qed.

Let base := region_base heapstart.
Let top := region_top heapstart heapsize.

Lemma region_sizes :
  0 < base ∧ base mod 16 = 0 ∧ top mod 16 = 0 ∧ base + 32 ≤ top ∧ top - base < 2 ^ 31 ∧ top < 2 ^ 32 ∧
  MM_ALIGN_UP heapstart = base ∧ MM_ALIGN_DOWN (u32 (heapstart + heapsize)) = top.
Proof.
  destruct Hrg. assert (heapstart ≤ region_base heapstart) by (unfold region_base; dlia).
  assert (region_top heapstart heapsize ≤ heapstart + heapsize) by (unfold region_top; dlia).
  unfold base, top. rewrite align_up_spec, u32_small, align_down_spec by lia.
  unfold region_base, region_top in *. split_and!; lia || dlia || done.
Qed.

(** The array of nodes after the loop that links it. *)

Lemma init_nodes :
  ∃ m1 m2, clear 76 m nodes = Some m1 ∧
    link_nodelist 18 (mk_heap m1 0 0 0 nodes NULL) 1 = Some (mk_heap m2 0 0 0 nodes NULL) ∧
    words H0 m2 ∧ flist H0 m2 [] (sentinels H0) ∧ (∀ k, base ≤ k < top → m2 !! k = m !! k).
Proof.
  pose proof new_place as Hp. pose proof new_words as Hw. destruct Hrg.
  destruct (clear_spec 76 m nodes) as (m1 & Hcl & Hc0 & Hc1); [lia|done|].
  assert (Hzero : ∀ j f, 0 ≤ j < MM_NNODES → fld m1 (nodelist H0 j) f = Some 0).
  { intros j f Hj. change MM_NNODES with 19 in Hj. apply Hc0. unfold nodelist, in_words, SIZEOF_MM_FREENODE.
    simpl. destruct f; simpl; (split; [lia|dlia]). }
  assert (Hw1 : words H0 m1).
  { intros x f Hx Hf. unfold fld. destruct (decide (nodes ≤ x + offset f < nodes + 304 ∧ (x + offset f - nodes) mod 4 = 0)).
    - rewrite Hc0; [eauto|]. unfold in_words. simpl. lia.
    - rewrite Hc1 by (unfold in_words; simpl; lia). by apply Hw. }
  destruct (link_spec H0 Hp 18 (mk_heap m1 0 0 0 nodes NULL) 1) as (m2 & Hl & Hch & Hw2 & Hlo);
    [done|lia|done|done|done| |].
  { intros j Hj. apply Hzero. lia. }
  exists m1, m2. split; [done|]. split; [exact Hl|]. split; [done|]. split.
  - apply flist_empty; [done..|]. intros x Hx.
    assert (Hsz : fld m2 x size = fld m1 x size).
    { apply (links_only_header H0 Hp []); [|exact Hlo|by right|by left].
      intros y Hy. by apply not_elem_of_nil in Hy. }
    rewrite Hsz. destruct Hx as (j & Hj & ->). by apply Hzero.
  - intros k Hk. rewrite Hlo, Hc1; [done| |].
    + unfold in_words, base, top in *. simpl. lia.
    + intros x [(j & Hj & ->)|Hx]; [|by apply not_elem_of_nil in Hx]. change MM_NNODES with 19 in Hj.
      unfold nodelist, SIZEOF_MM_FREENODE, base, top in *. simpl. lia.
Qed.

(** The three headers. *)

Lemma init_chunks m2 :
  words H0 m2 → flist H0 m2 [] (sentinels H0) → (∀ k, base ≤ k < top → m2 !! k = m !! k) →
  ∃ m3, (∀ k : gmap Z Z → option mm_heap_s,
           (m ← put m2 base size 8; m ← put m base preceding MM_ALLOC_BIT;
            m ← put m (base + 8) size (top - base - 16); m ← put m (base + 8) preceding 8;
            m ← put m (top - 8) size 8;
            m ← put m (top - 8) preceding (prec_word (top - base - 16) true); k m) = k m3) ∧
        hstate H0 m3 (new_chunks heapstart heapsize Loose).
Proof.
  intros Hw Hl Hm. pose proof region_sizes as Hsz. pose proof new_place as Hp.
  assert (Hs : ∀ x f, base ≤ x + offset f < top → (x + offset f) mod 4 = 0 → is_Some (fld m2 x f)).
  { intros x f Hx1 Hx2. unfold fld. rewrite Hm by done. by apply (rg_words _ _ _ _ Hrg). }
  assert (Hdb : base mod 4 = 0) by dlia. assert (Hdt : top mod 4 = 0) by dlia.
  eexists. split.
  { intros k. rewrite put_upd by (lia || (apply Hs; simpl; (lia || dlia))). cbn [mbind option_bind].
    do 5 (rewrite put_upd by (lia || (fields; apply Hs; simpl; (lia || dlia))); cbn [mbind option_bind]).
    done. }
  constructor.
  - exists [(top - base - 16, Loose)]. split; [done|]. constructor; [|done]. split; simpl; [lia|dlia].
  - simpl. unfold base, top. lia.
  - by do 6 apply words_upd.
  - simpl. fold base top. replace (base + 8 + (top - base - 16)) with (top - 8) by lia.
    split_and!; by fields.
  - exists (sentinels H0). eapply (flist_frame H0 Hp); [|exact Hl]. intros x f [Hx|Hx] _;
      [|by apply not_elem_of_nil in Hx]. destruct Hx as (j & Hj & ->).
    pose proof (rg_apart _ _ _ _ Hrg) as Hap. change MM_NNODES with 19 in Hj. fold base top in Hap.
    unfold nodelist, SIZEOF_MM_FREENODE. simpl. by destruct f; fields.
Qed.

Lemma init_ok :
  ∃ m', mm_initialize m nodes heapstart heapsize = Some (new_heap nodes heapstart heapsize m') ∧
    heap_ok (new_heap nodes heapstart heapsize m') (new_chunks heapstart heapsize Free).
Proof.
  destruct init_nodes as (m1 & m2 & Hcl & Hli & Hw & Hl & Hm). pose proof region_sizes as Hsz.
  destruct (init_chunks m2 Hw Hl Hm) as (m3 & Hpu & Hs). pose proof new_place as Hp.
  destruct (st_list H0 Hp m3 [guard] (top - base - 16) [guard] Hs) as (m4 & Hadd & Hs4 & _).
  exists m4. split.
  - unfold mm_initialize, mm_addregion. change (Z.to_nat (MM_NNODES * 4)) with 76%nat.
    change (Z.to_nat (MM_NNODES - 1)) with 18%nat. rewrite Hcl. cbn [mbind option_bind].
    rewrite Hli. cbn [mbind option_bind mem mm_heapsize mm_nodelist mm_delaylist].
    unfold SIZEOF_MM_ALLOCNODE. destruct Hsz as (? & ? & ? & ? & ? & ? & -> & ->).
    rewrite !u32_small by (rewrite ?u32_small by lia; lia).
    exact (eq_trans (Hpu _) Hadd).
  - apply (heap_ok_set H0); [done|exact Hs4| |done|by repeat constructor].
    simpl. unfold top, base. lia.
Qed.

End Initialize.


End MmInit.
