(* ===== verification/MmBlocks.v ===== *)
(** * The blocks of the users

    The user's view of a heap: the blocks that are allocated, and the words in them.
    [mm_malloc] adds a block, [mm_free] takes one away, and a store into a block changes
    nothing that the heap relies on. *)

From S2P Require Import Prelude MmHeap MmList MmLayout MmState MmFree MmMalloc.

Module MmBlocks.
Import MmHeap MmList MmLayout MmState MmFree MmMalloc.

Implicit Types (cs l r : list chunk) (m : gmap Z Z).

(** ** Stores by the user *)

Lemma quiet_chunks m a p cs k v :
  Forall big8 cs → quiet a cs k → chunks m a p cs → chunks (<[k := v]> m) a p cs.
Proof.
  revert a p. induction cs as [|[s b] cs IH]; intros a p Hb Hq Hc; [done|].
  apply Forall_cons in Hb as [Hs Hb]. destruct Hq as [Hq1 Hq2], Hc as (H1 & H2 & H3).
  unfold big8 in Hs. simpl in Hs. assert (¬ (a ≤ k < a + 8)) by (destruct (used b); lia).
  simpl. unfold fld in *. simpl in *. rewrite !lookup_insert_ne by lia. auto.
Qed.

Lemma quiet_free a cs k x :
  Forall big8 cs → quiet a cs k → x ∈ frees a cs →
  ∃ l s r, cs = l ++ (s, Free) :: r ∧ x = a + total l ∧ ¬ (x ≤ k < x + s).
Proof.
  intros Hb Hq (l & s & r & -> & ->)%frees_split. apply quiet_app in Hq as [_ [Hq _]].
  by exists l, s, r.
Qed.

Lemma hstate_user h m cs k v :
  place h → hstate h m cs → user h cs k → hstate h (<[k := v]> m) cs.
Proof.
  intros Hpl [Hwf He Hw Hc [L Hl]] [Hk Hq]. pose proof (wf_big _ Hwf) as Hb. constructor; try done.
  - intros x f Hx Hf. unfold fld. destruct (decide (k = x + offset f)) as [->|].
    + rewrite lookup_insert_eq. eauto.
    + rewrite lookup_insert_ne by done. by apply Hw.
  - by apply quiet_chunks.
  - exists L. eapply (flist_frame h Hpl); [|exact Hl]. intros x f Hx Hf. unfold fld.
    apply lookup_insert_ne. destruct Hx as [(i & Hi & ->)|Hx].
    + change MM_NNODES with 19 in Hi. unfold nodelist, SIZEOF_MM_FREENODE. destruct Hpl.
      destruct f; simpl; lia.
    + destruct (quiet_free _ _ _ _ Hb Hq Hx) as (l & s & r & -> & -> & Hn).
      destruct (wf_free _ _ _ _ Hwf) as [Hs _]; [done|]. simpl in Hs. destruct f; simpl; lia.
Qed.

(** ** Blocks *)

Fixpoint blocks (a : Z) cs : list (Z * Z) :=
  match cs with
  | [] => []
  | (s, b) :: cs => (if used b && negb (s =? 8) then [(a + 8, s - 8)] else []) ++ blocks (a + s) cs
  end.

(** The chunk at the address [x] is marked as free. *)

Fixpoint mark (a : Z) cs (x : Z) : list chunk :=
  match cs with
  | [] => []
  | (s, b) :: cs => if a =? x then (s, Free) :: cs else (s, b) :: mark (a + s) cs x
  end.

Lemma blocks_app a l r : blocks a (l ++ r) = blocks a l ++ blocks (a + total l) r.
Proof.
  revert a. induction l as [|[s b] l IH]; intros a; simpl.
  - by rewrite Z.add_0_r.
  - by rewrite IH, <- app_assoc, <- Z.add_assoc.
Qed.

Lemma blocks_cons a s b r : blocks a ((s, b) :: r) = blocks a [(s, b)] ++ blocks (a + s) r.
Proof. simpl. by rewrite app_nil_r. Qed.

Lemma blocks_used a s : s ≠ 8 → blocks a [(s, Used)] = [(a + 8, s - 8)].
Proof. intros Hs. simpl. by rewrite (proj2 (Z.eqb_neq s 8)). Qed.

Lemma blocks_merge a cs : blocks a (merge cs) = blocks a cs.
Proof.
  revert a. induction cs as [|[s b] cs IH]; intros a; [done|]. simpl.
  destruct b; simpl; [by rewrite IH| |by rewrite IH].
  rewrite <- IH. destruct (merge cs) as [|[t d] r]; [done|]. destruct d; [done| |done].
  simpl. by rewrite Z.add_assoc.
Qed.

Lemma mark_mid a l s b r :
  Forall big8 l → mark a (l ++ (s, b) :: r) (a + total l) = l ++ (s, Free) :: r.
Proof.
  revert a. induction l as [|[t d] l IH]; intros a Hb; simpl.
  - by rewrite Z.add_0_r, Z.eqb_refl.
  - apply Forall_cons in Hb as [Ht Hb]. unfold big8 in Ht. simpl in Ht.
    pose proof (big_total _ Hb). rewrite (proj2 (Z.eqb_neq _ _)) by lia. rewrite Z.add_assoc. by rewrite IH.
Qed.

Lemma blocks_split a cs p n :
  (p, n) ∈ blocks a cs → ∃ l s r, cs = l ++ (s, Used) :: r ∧ s ≠ 8 ∧ p = a + total l + 8 ∧ n = s - 8.
Proof.
  revert a. induction cs as [|[s b] cs IH]; intros a; simpl; [set_solver|].
  intros [Hp|Hp]%elem_of_app.
  - case_if_in Hp; [|set_solver]. apply list_elem_of_singleton in Hp. simplify_eq.
    exists [], s, cs. simpl. destruct b; try done. split; [done|]. split; [done|]. lia.
  - destruct (IH _ Hp) as (l & t & r & -> & ? & -> & ->). exists ((s, b) :: l), t, r. simpl.
    split; [done|]. split; [done|]. lia.
Qed.

Lemma block_uchunk cs l s r : wf cs → cs = l ++ (s, Used) :: r → s ≠ 8 → uchunk (s, Used).
Proof.
  intros (mid & Heq & Hm) -> Hs. assert (Hin : (s, Used) ∈ guard :: mid ++ [guard])
    by (rewrite <- Heq; set_solver). unfold guard in *.
  apply elem_of_cons in Hin as [?|Hin]; [by simplify_eq|].
  apply elem_of_app in Hin as [Hin|Hin%list_elem_of_singleton]; [|by simplify_eq].
  by eapply Forall_forall in Hm.
Qed.

Lemma quiet_outside a cs k : Forall big8 cs → (k < a ∨ a + total cs ≤ k) → quiet a cs k.
Proof.
  revert a. induction cs as [|[s b] cs IH]; intros a; [done|]. intros [Hs Hb]%Forall_cons Hk.
  pose proof (big_total _ Hb). unfold big8 in Hs. simpl in *.
  split; [destruct (used b); lia|]. apply IH; [done|lia].
Qed.

Lemma blocks_range a cs p n : Forall big8 cs → (p, n) ∈ blocks a cs → a + 8 ≤ p ∧ p + n ≤ a + total cs ∧ 0 ≤ n.
Proof.
  intros Hb (l & s & r & -> & Hs & -> & ->)%blocks_split.
  apply Forall_app in Hb as [Hl [Hs8 Hr]%Forall_cons]. pose proof (big_total _ Hl).
  pose proof (big_total _ Hr). unfold big8 in Hs8. rewrite total_app. simpl in *. lia.
Qed.

Lemma blocks_nodup a cs : Forall big8 cs → NoDup (blocks a cs).*1.
Proof.
  revert a. induction cs as [|[s b] cs IH]; intros a Hb; simpl; [constructor|].
  apply Forall_cons in Hb as [Hs Hb]. unfold big8 in Hs. simpl in Hs. rewrite fmap_app.
  apply NoDup_app. split; [case_if; [apply NoDup_singleton|constructor]|]. split; [|by apply IH].
  intros x Hx ([q k] & -> & Hq)%list_elem_of_fmap. apply blocks_range in Hq; [|done].
  case_if_in Hx; simpl in Hx; [|set_solver]. apply list_elem_of_singleton in Hx. simpl in Hx. lia.
Qed.

Section Blocks.

Context (h : mm_heap_s).
Local Abbreviation start := (mm_heapstart h).

(** The words of a block belong to its user. *)

Lemma block_user cs p n k :
  wf cs → mm_heapend h = start + total cs - 8 → (p, n) ∈ blocks start cs → p ≤ k < p + n →
  user h cs k.
Proof.
  intros Hwf He (l & s & r & -> & Hs8 & -> & ->)%blocks_split Hk.
  pose proof (block_uchunk _ _ _ _ Hwf eq_refl Hs8) as Hu.
  destruct (chunk_caddr h _ l (s, Used) r Hwf He eq_refl Hu) as [_ Hce].
  pose proof (wf_big _ Hwf) as [Hbl [_ Hbr]%Forall_cons]%Forall_app.
  pose proof (big_total _ Hbl). simpl in Hce.
  split; [lia|]. apply quiet_app. split; [apply quiet_outside; [done|lia]|].
  simpl. split; [lia|]. apply quiet_outside; [done|lia].
Qed.

Lemma block_align m cs p n :
  place h → hstate h m cs → (p, n) ∈ blocks start cs →
  p mod 16 = 0 ∧ 8 ≤ n ∧ start + 16 ≤ p ∧ p + n ≤ mm_heapend h.
Proof.
  intros Hpl Hs (l & s & r & -> & Hs8 & -> & ->)%blocks_split.
  pose proof (block_uchunk _ _ _ _ (hs_wf _ _ _ Hs) eq_refl Hs8) as Hu.
  destruct (chunk_caddr h _ l (s, Used) r (hs_wf _ _ _ Hs) (hs_end _ _ _ Hs) eq_refl Hu) as [[Hc1 Hc2] Hce].
  destruct Hu as [Hu1 Hu2]. simpl in *. pose proof (pl_align h Hpl). split_and!; [dlia|lia..].
Qed.

Lemma block_first m cs p n :
  place h → hstate h m cs → (p, n) ∈ blocks start cs → is_Some (m !! p) ∧ 0 < p.
Proof.
  intros Hpl Hs Hp. pose proof Hp as (l & s & r & Hcs & Hs8 & Heq & ->)%blocks_split.
  pose proof (block_uchunk _ _ _ _ (hs_wf _ _ _ Hs) Hcs Hs8) as Hu.
  destruct (chunk_caddr h _ l (s, Used) r (hs_wf _ _ _ Hs) (hs_end _ _ _ Hs) Hcs Hu) as [Hca Hce].
  destruct (block_align _ _ _ _ Hpl Hs Hp) as (_ & Hn & ? & ?). destruct Hpl. split; [|lia].
  rewrite Heq. apply (hs_words _ _ _ Hs _ flink); [by left|]. simpl in Hce. lia.
Qed.

(** Blocks do not overlap. *)

Lemma blocks_apart a cs B p n q k :
  Forall big8 cs → blocks a cs ≡ₚ (p, n) :: B → (q, k) ∈ B → p + n ≤ q ∨ q + k ≤ p.
Proof.
  intros Hb HB Hq. assert (Hp : (p, n) ∈ blocks a cs) by (rewrite HB; set_solver).
  apply blocks_split in Hp as (l & s & r & -> & Hs8 & -> & ->).
  apply Forall_app in Hb as [Hbl [Hs Hbr]%Forall_cons]. unfold big8 in Hs. simpl in Hs.
  rewrite blocks_app in HB. simpl in HB. rewrite (proj2 (Z.eqb_neq s 8)) in HB by done.
  simpl in HB. rewrite <- Permutation_middle in HB. apply Permutation_cons_inv in HB.
  rewrite <- HB in Hq. apply elem_of_app in Hq as [Hq|Hq].
  - apply blocks_range in Hq; [|done]. lia.
  - apply blocks_range in Hq; [|done]. lia.
Qed.

(** ** [mm_free] takes a block away *)

Lemma free_block cs B p n :
  heap_ok h cs → blocks start cs ≡ₚ (p, n) :: B →
  ∃ m' cs', mm_free false h p = Some (set_mem h m') ∧
    cs' = merge (mark start cs (p - 8)) ∧ heap_ok (set_mem h m') cs' ∧ blocks start cs' ≡ₚ B ∧
    (∀ q k w, (q, k) ∈ B → q ≤ w < q + k → m' !! w = mem h !! w).
Proof.
  intros [Hpl Hs Hsz Hco Hset] HB. assert (Hp : (p, n) ∈ blocks start cs) by (rewrite HB; set_solver).
  apply blocks_split in Hp as (l & s & r & -> & Hs8 & -> & ->).
  pose proof (block_uchunk _ _ _ _ (hs_wf _ _ _ Hs) eq_refl Hs8) as Hu.
  pose proof (wf_big _ (hs_wf _ _ _ Hs)) as [Hbl [_ Hbr]%Forall_cons]%Forall_app.
  destruct (free_ok h Hpl l s r Hs Hu Hco Hset) as (m' & cs' & Hf & Hcs & Hs' & Hco' & Hset' & Hk).
  exists m', cs'. replace (start + total l + 8 - 8) with (start + total l) by lia.
  rewrite mark_mid by done. split; [done|]. split; [done|].
  assert (HB' : blocks start (l ++ (s, Free) :: r) ≡ₚ B).
  { rewrite blocks_app in *. simpl in *. rewrite (proj2 (Z.eqb_neq s 8)) in HB by done.
    simpl in HB. rewrite <- Permutation_middle in HB. by apply Permutation_cons_inv in HB. }
  split; [|split].
  - apply heap_ok_set; try done. rewrite Hsz.
    pose proof (hs_end _ _ _ Hs). pose proof (hs_end _ _ _ Hs'). lia.
  - by rewrite Hcs, blocks_merge.
  - intros q k w Hq Hw. apply Hk. rewrite <- HB' in Hq.
    eapply block_user; [|rewrite (total_relabel l s Free Used); apply Hs|done|done].
    by eapply wf_relabel; [apply Hs|].
Qed.

(** ** [mm_malloc] adds a block

    A chunk is carved from the front of a free one, so that no free chunk is before it. *)

Definition fresh_at cs (p n : Z) : Prop :=
  ∃ l r, cs = l ++ (n + 8, Used) :: r ∧ ends_used l ∧ p = start + total l + 8.

Lemma before_free cs l s r :
  wf cs → coalesced cs = true → Forall settled cs → cs = l ++ (s, Free) :: r → ends_used l.
Proof.
  intros Hwf Hco Hset ->. destruct (wf_split _ _ _ Hwf) as [Hl _]; [by eapply wf_free|].
  destruct (wfl_last _ Hl) as (l' & p & e & -> & _). exists l', p.
  rewrite <- app_assoc in Hco. cbn [app] in Hco. rewrite coalesced_mid in Hco. apply andb_true_iff in Hco as [_ Hco].
  apply Forall_app in Hset as [[_ [He _]%Forall_cons]%Forall_app _].
  by destruct e.
Qed.

Lemma alloc_block cs sz :
  heap_ok h cs → 1 ≤ sz → sz + 23 < 2 ^ 32 →
  (none_fits cs (chunk_size sz) ∧ mm_alloc h sz = Some (NULL, h)) ∨
  ∃ p n m' cs', mm_alloc h sz = Some (p, set_mem h m') ∧ p ≠ NULL ∧ sz ≤ n ∧
    heap_ok (set_mem h m') cs' ∧ blocks start cs' ≡ₚ (p, n) :: blocks start cs ∧ fresh_at cs' p n ∧
    (∀ q k w, (q, k) ∈ blocks start cs → q ≤ w < q + k → m' !! w = mem h !! w).
Proof.
  intros Hok H1 H2. pose proof Hok as [Hpl Hs _ Hco Hset].
  destruct (alloc_ok h Hpl cs sz Hok H1 H2) as [?|(l & s & r & m' & Hcs & Hbf & Ha & Hok' & Hk)];
    [by left|right].
  destruct (chunk_size_spec sz H1 H2) as (_ & Hc16 & Hcm & Hc2). set (a := chunk_size sz) in *.
  assert (Hu : uchunk (s, Free)) by (eapply wf_free; [rewrite <- Hcs; apply Hs|done]).
  destruct (carve_head a s Used) as (t & Hct & _); [by split; simpl; lia|done|apply Hbf|].
  exists (start + total l + 8), (a - 8), m', (l ++ carve a s Used ++ r).
  destruct (hs_hdr h Hpl (mem h) cs l s Free r _ Hs Hcs eq_refl) as (_ & _ & Hb).
  split; [done|]. split; [unfold NULL; lia|]. split; [lia|]. split; [done|]. split.
  - rewrite Hcs, !blocks_app. assert (Hcv : blocks (start + total l) (carve a s Used) = [(start + total l + 8, a - 8)]).
    { destruct Hu as [Hu1 Hu2], Hbf as [Hbf _]. simpl in *. unfold carve. case_if; simpl.
      - by rewrite (proj2 (Z.eqb_neq a 8)) by lia.
      - assert (s = a) as -> by dlia. by rewrite (proj2 (Z.eqb_neq a 8)) by lia. }
    rewrite Hcv, carve_total. simpl. by rewrite <- Permutation_middle.
  - split.
    { exists l, (t ++ r). rewrite Hct, Z.sub_add. split; [done|]. split; [|done]. by eapply before_free; [apply Hs|..]. }
    intros q k w Hq Hw. apply Hk. eapply block_user; [apply Hs|apply Hs|done|done].
Qed.

End Blocks.

End MmBlocks.
