(* ===== verification/MmClient.v ===== *)
(** * The heap as its clients see it

    The blocks that a client holds, next to those whose release was put off: what
    [mm_malloc], [mm_free] and stores into a block do to this view. *)

From S2P Require Import Prelude MmHeap MmList MmLayout MmState MmFree MmMalloc MmBlocks.

Module MmClient.
Import MmHeap MmList MmLayout MmState MmFree MmMalloc MmBlocks.

Implicit Types (cs l r : list chunk) (m : gmap Z Z) (B Bd : list (Z * Z)).

(** ** Deferred releases *)

(** The blocks [Bd] are linked from [p] on, each by its first word. *)

Fixpoint delayed m (p : Z) Bd : Prop :=
  match Bd with
  | [] => p = NULL
  | (d, _) :: Bd => p = d ∧ ∃ n, m !! d = Some n ∧ delayed m n Bd
  end.

Definition same_words B m m' : Prop :=
  ∀ q k w, (q, k) ∈ B → q ≤ w < q + k → m' !! w = m !! w.

Lemma same_words_trans B m1 m2 m3 :
  same_words B m1 m2 → same_words B m2 m3 → same_words B m1 m3.
Proof. intros H1 H2 q k w Hq Hw. by rewrite (H2 q k w), (H1 q k w). Qed.

Lemma same_words_sub B B' m m' :
  (∀ b, b ∈ B' → b ∈ B) → same_words B m m' → same_words B' m m'.
Proof. intros HB Hs q k w Hq. apply Hs. auto. Qed.

Lemma delayed_frame m m' p Bd :
  (∀ d n, (d, n) ∈ Bd → m' !! d = m !! d) → delayed m p Bd → delayed m' p Bd.
Proof.
  revert p. induction Bd as [|[d k] Bd IH]; intros p Hm; simpl; [done|].
  intros (-> & n & Hn & Hd). split; [done|]. exists n.
  rewrite (Hm d k) by set_solver. split; [done|]. apply IH; [|done]. intros e j He. apply (Hm e j). set_solver.
Qed.

Lemma heap_ok_delay h v cs : heap_ok h cs → heap_ok (set_delaylist h v) cs.
Proof.
  intros [[] [?? ?? [L []]] ? ? ?]. constructor; [by constructor| |done..].
  constructor; [done..|]. exists L. by constructor.
Qed.

Lemma free_delayed_ok Bd B fuel h cs p :
  heap_ok h cs → blocks (mm_heapstart h) cs ≡ₚ Bd ++ B → delayed (mem h) p Bd →
  (length Bd < fuel)%nat →
  ∃ m' cs', mm_free_delayed fuel false h p = Some (set_mem h m') ∧
    heap_ok (set_mem h m') cs' ∧ blocks (mm_heapstart h) cs' ≡ₚ B ∧ same_words B (mem h) m'.
Proof.
  revert fuel h cs p. induction Bd as [|[d k] Bd IH]; intros [|fuel] h cs p Hok HB Hd Hf;
    simpl in Hf; try lia; cbn [mm_free_delayed].
  - rewrite Hd. exists (mem h), cs. simpl. destruct h. done.
  - destruct Hd as (-> & n & Hn & Hd). simpl in HB.
    assert (Hin : (d, k) ∈ blocks (mm_heapstart h) cs) by (rewrite HB; set_solver).
    pose proof Hok as [Hpl Hs _ _ _]. destruct (block_first h _ _ _ _ Hpl Hs Hin) as [_ Hd0].
    unfold word, NULL. rewrite (proj2 (Z.eqb_neq d 0)), Hn by lia. cbn [mbind option_bind].
    destruct (free_block h cs (Bd ++ B) d k Hok HB) as (m1 & cs1 & -> & _ & Hok1 & HB1 & Hw1).
    cbn [mbind option_bind].
    destruct (IH fuel (set_mem h m1) cs1 n) as (m2 & cs2 & Hf2 & Hok2 & HB2 & Hw2); [done|done| |lia|].
    { simpl. eapply delayed_frame; [|done]. intros e j He. apply (Hw1 e j e); [set_solver|].
      destruct (block_align h (mem h) cs e j Hpl Hs) as (_ & ? & _); [rewrite HB; set_solver|lia]. }
    exists m2, cs2. split; [exact Hf2|]. split; [exact Hok2|]. split; [exact HB2|].
    eapply same_words_trans; [|exact Hw2]. eapply same_words_sub; [|exact Hw1]. set_solver.
Qed.

(** The words of the delayed blocks bound their number. *)

Lemma delayed_length h cs Bd B :
  heap_ok h cs → blocks (mm_heapstart h) cs ≡ₚ Bd ++ B → (length Bd < S (base.size (mem h)))%nat.
Proof.
  intros [Hpl Hs _ _ _] HB. apply Nat.lt_succ_r.
  pose proof (blocks_nodup (mm_heapstart h) cs (wf_big _ (hs_wf _ _ _ Hs))) as Hnd.
  rewrite HB, fmap_app in Hnd. apply NoDup_app in Hnd as [Hnd _].
  rewrite <- (length_fmap fst), <- (size_dom (D := gset Z)), <- (size_list_to_set (C := gset Z)) by done.
  apply subseteq_size. intros d Hd. apply elem_of_list_to_set, list_elem_of_fmap in Hd as ([e k] & -> & He).
  apply elem_of_dom. eapply (block_first h (mem h) cs e k); [done..|]. rewrite HB. set_solver.
Qed.

(** ** Views *)

(** A new block [(p, n)] for a request of [sz] bytes, next to the blocks [B]. *)

Record granted (lo hi : Z) B (sz p n : Z) : Prop := {
  gr_size : 1 ≤ sz ≤ n;
  gr_align : p mod 16 = 0;
  gr_inside : lo ≤ p ∧ p + n ≤ hi;
  gr_apart : ∀ q k, (q, k) ∈ B → p + n ≤ q ∨ q + k ≤ p
}.

Definition same_geometry (h h' : mm_heap_s) : Prop :=
  mm_heapstart h' = mm_heapstart h ∧ mm_heapend h' = mm_heapend h.

(** The heap behind the blocks [B]; some others may wait for their release. *)

Definition heap_view (h : mm_heap_s) B : Prop :=
  ∃ cs Bd, heap_ok h cs ∧ delayed (mem h) (mm_delaylist h) Bd ∧
    blocks (mm_heapstart h) cs ≡ₚ Bd ++ B.

(** The words of the region are all there. *)

Lemma region_word h m k :
  place h → words h m → k mod 4 = 0 → mm_heapstart h + 8 ≤ k < mm_heapend h → is_Some (m !! k).
Proof.
  intros Hpl Hw Hk4 Hk. destruct Hpl.
  remember (k - (k - mm_heapstart h - 8) mod 16) as x eqn:Hxe.
  assert (Hx : caddr h x ∧ x < mm_heapend h) by (unfold caddr; dlia).
  assert (Hf : ∃ f, k = x + offset f).
  { assert (Hm : k = x ∨ k = x + 4 ∨ k = x + 8 ∨ k = x + 12) by dlia.
    destruct Hm as [->|[->|[->| ->]]];
      [exists size|exists preceding|exists flink|exists blink]; simpl; lia. }
  destruct Hf as [f ->]. apply (Hw x f); [left; apply Hx|lia].
Qed.

Lemma usable_block h m cs p n :
  place h → hstate h m cs → mem h = m → (p, n) ∈ blocks (mm_heapstart h) cs →
  malloc_usable_size h p = Some n.
Proof.
  intros Hpl Hs Hm Hp. destruct (block_first _ _ _ _ _ Hpl Hs Hp) as [_ Hp0].
  apply blocks_split in Hp as (l & s & r & -> & Hs8 & -> & ->). rewrite <- Hm in Hs.
  destruct (hs_hdr h Hpl (mem h) _ l s Used r (mm_heapstart h + total l) Hs) as (X1 & X2 & Hb); [done..|].
  unfold malloc_usable_size, SIZEOF_MM_ALLOCNODE. rewrite (proj2 (Z.eqb_neq _ NULL)) by (unfold NULL; lia).
  replace (mm_heapstart h + total l + 8 - 8) with (mm_heapstart h + total l) by lia.
  rewrite (u32_small (_ + _)) by lia. mget X2. rewrite allocated_prec by lia.
  cbn [DEBUGASSERT mbind option_bind used]. mget X1. rewrite u32_small by lia. done.
Qed.

Lemma filter_all B p : (∀ b, b ∈ B → b.1 ≠ p) → filter (λ b, b.1 ≠ p) B = B.
Proof.
  induction B as [|b B IH]; intros Hb; [done|].
  rewrite filter_cons_True, IH; [done|..]; intros; apply Hb; set_solver.
Qed.

Lemma remove_block B p n :
  NoDup B.*1 → (p, n) ∈ B → B ≡ₚ (p, n) :: filter (λ b, b.1 ≠ p) B.
Proof.
  induction B as [|[q k] B IH]; [set_solver|]. intros [Hq Hnd]%NoDup_cons Hp. simpl in Hq.
  apply elem_of_cons in Hp as [[= -> ->]|Hp].
  - rewrite filter_cons_False by (simpl; auto). f_equiv.
    rewrite filter_all; [done|]. intros [x j] Hx Heq. simpl in Heq. subst. apply Hq.
    apply list_elem_of_fmap. by exists (q, j).
  - rewrite filter_cons_True.
    + rewrite IH at 1 by done. apply perm_swap.
    + simpl. intros ->. apply Hq. apply list_elem_of_fmap. by exists (p, n).
Qed.

(** [mm_malloc] frees the delayed blocks first. *)

Lemma malloc_state h B sz :
  heap_view h B → 0 ≤ sz → sz + 23 < 2 ^ 32 →
  ∃ res h', mm_malloc false h sz = Some (res, h') ∧ same_words B (mem h) (mem h') ∧
    same_geometry h h' ∧ mm_delaylist h' = NULL ∧
    ((res = NULL ∧ heap_view h' B) ∨
     (res ≠ NULL ∧ ∃ n cs', granted (mm_heapstart h) (mm_heapend h) B sz res n ∧
        heap_ok h' cs' ∧ blocks (mm_heapstart h) cs' ≡ₚ (res, n) :: B ∧ fresh_at h' cs' res n)).
Proof.
  intros (cs & Bd & Hok & Hd & HB) H0 H1. unfold mm_malloc, mm_free_delaylist.
  destruct (free_delayed_ok Bd B (S (base.size (mem h))) (set_delaylist h NULL) cs (mm_delaylist h))
    as (m1 & cs1 & -> & Hok1 & HB1 & Hw1);
    [by apply heap_ok_delay|done|done|by eapply delayed_length|].
  cbn [mbind option_bind]. set (h1 := set_mem (set_delaylist h NULL) m1) in *. simpl in HB1.
  assert (Hdef : heap_view h1 B) by by exists cs1, [].
  destruct (decide (sz = 0)) as [->|Hz].
  { exists NULL, h1. unfold mm_alloc. simpl. split_and!; try done. by left. }
  destruct (alloc_block h1 cs1 sz Hok1)
    as [[_ Ha]|(p & n & m2 & cs2 & Ha & Hp & Hn & Hok2 & HB2 & Hfr & Hw2)]; [lia|done| |].
  { exists NULL, h1. split_and!; try done. by left. }
  exists p, (set_mem h1 m2). simpl in HB2. pose proof Hok2 as [Hpl2 Hs2 _ _ _].
  assert (Hin : (p, n) ∈ blocks (mm_heapstart h) cs2) by (rewrite HB2; set_solver).
  destruct (block_align _ _ cs2 p n Hpl2 Hs2 Hin) as (Hal & _ & Hlo & Hhi). simpl in Hlo, Hhi.
  split; [done|]. split; [|split; [done|split; [done|]]].
  - eapply same_words_trans; [exact Hw1|]. intros q k w Hq. apply Hw2. simpl. by rewrite HB1.
  - right. split; [done|]. exists n, cs2. split; [|by rewrite HB2, HB1].
    constructor; [lia|done|lia|]. intros q k Hq. eapply (blocks_apart (mm_heapstart h) cs2 B p n);
        [apply wf_big; apply Hs2|by rewrite HB2, HB1|done].
Qed.

Lemma malloc_view h B sz :
  heap_view h B → 0 ≤ sz → sz + 23 < 2 ^ 32 →
  ∃ res h', mm_malloc false h sz = Some (res, h') ∧ same_words B (mem h) (mem h') ∧
    same_geometry h h' ∧ mm_delaylist h' = NULL ∧
    ((res = NULL ∧ heap_view h' B) ∨
     (res ≠ NULL ∧ ∃ n, granted (mm_heapstart h) (mm_heapend h) B sz res n ∧
        heap_view h' ((res, n) :: B))).
Proof.
  intros Hv H0 H1. destruct (malloc_state h B sz Hv H0 H1) as (p & h' & Hm & Hw & Hg & Hd & Hr).
  exists p, h'. split_and!; try done. destruct Hr as [Hr|(Hp & n & cs & Hgr & Hok & HB & _)]; [by left|right].
  split; [done|]. exists n. split; [done|]. exists cs, []. split; [done|]. destruct Hg as [-> _].
  by rewrite Hd.
Qed.

(** A store into a block keeps the rest of the heap. *)

Lemma store_view h cs p n k v :
  heap_ok h cs → (p, n) ∈ blocks (mm_heapstart h) cs → p ≤ k < p + n → k mod 4 = 0 →
  set_word (mem h) k v = Some (<[k := v]> (mem h)) ∧ heap_ok (set_mem h (<[k := v]> (mem h))) cs.
Proof.
  intros [Hpl Hs Hsz Hco Hset] Hp Hk Hk4.
  destruct (block_align h (mem h) cs p n Hpl Hs Hp) as (_ & _ & Hlo & Hhi). split.
  - unfold set_word, word, NULL. pose proof (pl_start h Hpl). rewrite (proj2 (Z.eqb_neq k 0)) by lia.
    destruct (region_word h (mem h) k Hpl) as [w ->]; [apply Hs|done|lia|done].
  - apply heap_ok_set; try done. apply hstate_user; try done. eapply block_user; [apply (hs_wf _ _ _ Hs)|apply (hs_end _ _ _ Hs)|done|done].
Qed.

Lemma release_view h B defer p n B' :
  heap_view h B → B ≡ₚ (p, n) :: B' →
  ∃ h', mm_free defer h p = Some h' ∧ heap_view h' B' ∧ same_words B' (mem h) (mem h') ∧
    same_geometry h h'.
Proof.
  intros (cs & Bd & Hok & Hd & HB) HB'. rewrite HB', <- Permutation_middle in HB.
  assert (Hp : (p, n) ∈ blocks (mm_heapstart h) cs) by (rewrite HB; set_solver).
  pose proof Hok as [Hpl Hs _ _ _]. destruct (block_first h _ _ _ _ Hpl Hs Hp) as [_ Hp0].
  assert (Hb8 : ∀ d k, (d, k) ∈ blocks (mm_heapstart h) cs → 8 ≤ k)
    by (intros d k Hdk; by destruct (block_align h _ _ _ _ Hpl Hs Hdk) as (_ & ? & _)).
  assert (Hap : ∀ q k, (q, k) ∈ Bd ++ B' → p + n ≤ q ∨ q + k ≤ p).
  { intros q k. apply (blocks_apart (mm_heapstart h) cs); [apply wf_big; apply Hs|done]. }
  destruct defer.
  - destruct (block_align h (mem h) cs p n Hpl Hs Hp) as (Hal & Hn & _).
    destruct (store_view h cs p n p (mm_delaylist h) Hok Hp) as [Hst Hok']; [lia|dlia|].
    exists (set_delaylist (set_mem h (<[p := mm_delaylist h]> (mem h))) p).
    unfold mm_free, mm_add_delaylist. rewrite (proj2 (Z.eqb_neq p NULL)) by (unfold NULL; lia).
    rewrite Hst. cbn [mbind option_bind]. split; [done|]. split; [|split; [|done]].
    + exists cs, ((p, n) :: Bd). split; [by apply heap_ok_delay|]. split; [|done]. simpl.
      split; [done|]. exists (mm_delaylist h). rewrite lookup_insert_eq. split; [done|].
      eapply delayed_frame; [|done]. intros d k Hdk. apply lookup_insert_ne.
      intros <-. assert (8 ≤ k) by (apply (Hb8 p); rewrite HB; set_solver).
      assert (p + n ≤ p ∨ p + k ≤ p) by (apply Hap; set_solver). lia.
    + intros q k w Hq Hw. simpl. apply lookup_insert_ne. intros <-.
      assert (p + n ≤ q ∨ q + k ≤ p) by (apply Hap; set_solver). lia.
  - destruct (free_block h cs (Bd ++ B') p n Hok HB) as (m' & cs' & -> & _ & Hok' & HB2 & Hw).
    exists (set_mem h m'). split; [done|]. split; [|split; [|done]].
    + exists cs', Bd. split; [done|]. split; [|done]. simpl. eapply delayed_frame; [|done].
      intros d k Hdk. apply (Hw d k d); [set_solver|].
      assert (8 ≤ k) by (apply (Hb8 d); rewrite HB; set_solver). lia.
    + eapply same_words_sub; [|exact Hw]. set_solver.
Qed.

(** The blocks of a view. *)

Lemma view_block h B p n :
  heap_view h B → (p, n) ∈ B →
  p mod 16 = 0 ∧ (n + 8) mod 16 = 0 ∧ 8 ≤ n ∧ 0 < mm_heapstart h ∧ mm_heapstart h + 16 ≤ p ∧
  p + n ≤ mm_heapend h ∧ mm_heapend h + 8 < 2 ^ 32.
Proof.
  intros (cs & Bd & [Hpl Hs _ _ _] & _ & HB) Hp.
  assert (Hin : (p, n) ∈ blocks (mm_heapstart h) cs) by (rewrite HB; set_solver).
  destruct (block_align h _ _ _ _ Hpl Hs Hin) as (? & ? & ? & ?).
  apply blocks_split in Hin as (l & s & r & Hcs & Hs8 & -> & ->).
  destruct (block_uchunk _ _ _ _ (hs_wf _ _ _ Hs) Hcs Hs8) as [_ Hm]. simpl in Hm.
  rewrite Z.sub_add. destruct Hpl. split_and!; done || lia.
Qed.

Lemma view_apart h B p n B' q k :
  heap_view h B → B ≡ₚ (p, n) :: B' → (q, k) ∈ B' → p + n ≤ q ∨ q + k ≤ p.
Proof.
  intros (cs & Bd & [Hpl Hs _ _ _] & _ & HB) HB' Hq. rewrite HB', <- Permutation_middle in HB.
  eapply (blocks_apart (mm_heapstart h) cs); [apply wf_big, (hs_wf _ _ _ Hs)|done|set_solver].
Qed.

(** ** Stores into a block *)

Definition stores (U : Z → Prop) : relation (gmap Z Z) :=
  rtc (λ m m', ∃ k v, U k ∧ m' = <[k := v]> m).

Lemma stores_set U m k v m' : U k → set_word m k v = Some m' → stores U m m'.
Proof.
  unfold set_word. intros Hk. destruct (word m k); [|done]. intros [= <-].
  apply rtc_once. by exists k, v.
Qed.

Lemma stores_frame U m m' k : stores U m m' → ¬ U k → m' !! k = m !! k.
Proof.
  induction 1 as [|m1 m2 m3 (j & v & Hj & ->) _ IH]; intros Hk; [done|].
  rewrite IH by done. apply lookup_insert_ne. by intros ->.
Qed.

Lemma stores_hstate U h m m' cs :
  place h → (∀ k, U k → user h cs k) → stores U m m' → hstate h m cs → hstate h m' cs.
Proof.
  intros Hpl HU. induction 1 as [|m1 m2 m3 (j & v & Hj & ->) _ IH]; intros Hs; [done|].
  apply IH, hstate_user; [done..|]. by apply HU.
Qed.

Lemma stores_clear U n m a m' :
  (∀ i, 0 ≤ i < Z.of_nat n → U (a + 4 * i)) → clear n m a = Some m' → stores U m m'.
Proof.
  revert m a. induction n as [|n IH]; intros m a HU Hc; cbn [clear] in Hc; [by simplify_eq|].
  destruct (set_word m a 0) as [m1|] eqn:Hm1; [|done]. cbn [mbind option_bind] in Hc. etrans.
  - eapply stores_set; [|exact Hm1]. replace a with (a + 4 * 0) by lia. apply HU. lia.
  - eapply IH, Hc. intros i Hi. replace (a + 4 + 4 * i) with (a + 4 * (i + 1)) by lia. apply HU. lia.
Qed.

Lemma stores_copy U n m m' dst src :
  (∀ i, 0 ≤ i < Z.of_nat n → U (dst + 4 * i)) → copy_words n m dst src = Some m' → stores U m m'.
Proof.
  revert m dst src. induction n as [|n IH]; intros m dst src HU Hc; cbn [copy_words] in Hc; [by simplify_eq|].
  destruct (word m src) as [v|]; [|done]. cbn [mbind option_bind] in Hc.
  destruct (set_word m dst v) as [m1|] eqn:Hm1; [|done]. cbn [mbind option_bind] in Hc. etrans.
  - eapply stores_set; [|exact Hm1]. replace dst with (dst + 4 * 0) by lia. apply HU. lia.
  - eapply IH, Hc. intros i Hi. replace (dst + 4 + 4 * i) with (dst + 4 * (i + 1)) by lia. apply HU. lia.
Qed.

(** Stores into a block keep the view, and the words of the other blocks. *)

Lemma stores_view h B p n B' m' :
  heap_view h B → B ≡ₚ (p, n) :: B' → stores (λ k, p ≤ k < p + n) (mem h) m' →
  heap_view (set_mem h m') B ∧ same_words B' (mem h) m'.
Proof.
  intros (cs & Bd & Hok & Hd & HB) HB' Hst. pose proof Hok as [Hpl Hs Hsz Hco Hset].
  pose proof HB as HB2. rewrite HB', <- Permutation_middle in HB2.
  assert (Hp : (p, n) ∈ blocks (mm_heapstart h) cs) by (rewrite HB2; set_solver).
  assert (Hf : same_words (Bd ++ B') (mem h) m').
  { intros q k w Hq Hw. eapply stores_frame; [exact Hst|].
    destruct (blocks_apart (mm_heapstart h) cs (Bd ++ B') p n q k) as [|];
      [apply wf_big, (hs_wf _ _ _ Hs)|done|done|lia..]. }
  split; [|eapply same_words_sub; [|exact Hf]; set_solver].
  exists cs, Bd. split; [|split; [|done]].
  - apply heap_ok_set; [done| |done..]. eapply stores_hstate; [done| |exact Hst|done].
    intros k Hk. by eapply block_user; [apply (hs_wf _ _ _ Hs)|apply (hs_end _ _ _ Hs)| |].
  - simpl. eapply delayed_frame; [|done]. intros d k Hdk. apply (Hf d k d); [set_solver|].
    assert (Hin : (d, k) ∈ blocks (mm_heapstart h) cs) by (rewrite HB2; set_solver).
    destruct (block_align h _ _ _ _ Hpl Hs Hin) as (_ & ? & _). lia.
Qed.

Lemma view_perm h B B' : B ≡ₚ B' → heap_view h B → heap_view h B'.
Proof. intros HB (cs & Bd & ? & ? & ?). exists cs, Bd. by rewrite <- HB. Qed.

End MmClient.
