(* ===== verification/MmInfo.v ===== *)
(** * Inspection of the heap

    [mm_mallinfo] walks over the chunks: its assertions hold, and its totals are those of
    the list of chunks. *)

From S2P Require Import Prelude MmHeap MmList MmLayout MmState MmFree.

Module MmInfo.
Import MmHeap MmList MmLayout MmState MmFree.

Implicit Types (cs l r : list chunk) (m : gmap Z Z).

(** ** The totals *)

Definition used_bytes cs : Z := foldr (λ c z, (if used c.2 then c.1 else 0) + z) 0 cs.
Definition free_bytes cs : Z := foldr (λ c z, (if used c.2 then 0 else c.1) + z) 0 cs.
Definition free_count cs : Z := foldr (λ c z, (if used c.2 then 0 else 1) + z) 0 cs.
Definition free_max (mx : Z) cs : Z := foldl (λ z c, if used c.2 then z else Z.max z c.1) mx cs.

Lemma bytes_total cs : used_bytes cs + free_bytes cs = total cs.
Proof. induction cs as [|[s b] cs IH]; simpl; [done|]. destruct (used b); lia. Qed.

Lemma bytes_bounds cs :
  Forall big8 cs →
  0 ≤ used_bytes cs ∧ 0 ≤ free_bytes cs ∧ 0 ≤ free_count cs ≤ total cs.
Proof.
  induction 1 as [|[s b] cs Hs _ IH]; simpl; [done|]. unfold big8 in Hs. simpl in Hs.
  destruct (used b); lia.
Qed.

Lemma used_bytes_app l r : used_bytes (l ++ r) = used_bytes l + used_bytes r.
Proof. induction l as [|c l IH]; simpl; [done|]. rewrite IH. lia. Qed.

Lemma free_bytes_app l r : free_bytes (l ++ r) = free_bytes l + free_bytes r.
Proof. induction l as [|c l IH]; simpl; [done|]. rewrite IH. lia. Qed.

Lemma free_count_app l r : free_count (l ++ r) = free_count l + free_count r.
Proof. induction l as [|c l IH]; simpl; [done|]. rewrite IH. lia. Qed.

Lemma free_max_app mx l r : free_max mx (l ++ r) = free_max (free_max mx l) r.
Proof. apply foldl_app. Qed.

Lemma free_max_bounds mx cs :
  Forall big8 cs → 0 ≤ mx → 0 ≤ free_max mx cs ≤ Z.max mx (total cs).
Proof.
  intros Hb. revert mx. induction Hb as [|[s b] cs Hs Hb IH]; intros mx Hmx; simpl; [lia|].
  unfold big8 in Hs. simpl in Hs. pose proof (big_total _ Hb).
  destruct (used b); [pose proof (IH mx)|pose proof (IH (Z.max mx s))]; lia.
Qed.

Section Info.

Context (h : mm_heap_s) (Hpl : place h).

(** ** The assertions on a free chunk *)

Lemma flist_around m F L x s :
  flist h m F L → x ∈ F → fld m x size = Some s →
  (∃ a t, is_node h a ∧ fld m x blink = Some a ∧ fld m a flink = Some x ∧
     fld m a size = Some t ∧ t ≤ s) ∧
  (fld m x flink = Some NULL ∨
   ∃ b t, is_node h b ∧ fld m x flink = Some b ∧ fld m b blink = Some x ∧
     fld m b size = Some t ∧ (t = 0 ∨ s ≤ t)).
Proof.
  intros Hl HxF Hs. assert (HxL : x ∈ L) by (apply (flist_elem h _ _ _ _ Hl); auto).
  apply list_elem_of_split in HxL as (L0 & L2 & ->).
  destruct (flist_pred h Hpl _ _ _ _ _ Hl HxF) as (L1 & a & ->).
  rewrite <- app_assoc in Hl. cbn [app] in Hl.
  destruct (fl_free _ _ _ _ Hl x HxF) as (Hcx & _).
  pose proof (fl_chain _ _ _ _ Hl) as [_ [[Ha1 Ha2] [[Hx1 Hx2] _]]]%links_app. cbn [List.hd] in *.
  assert (x ≠ NULL) by (pose proof (node_pos h Hpl x (or_introl Hcx)); unfold NULL; lia).
  pose proof (fl_sorted _ _ _ _ Hl) as (_ & _ & Hso)%StronglySorted_app.
  apply StronglySorted_inv in Hso as [Hso Hsa]. apply StronglySorted_inv in Hso as [_ Hsx].
  rewrite Forall_forall in Hsa, Hsx. pose proof (key_chunk h m x s Hpl Hcx Hs) as Hkx. split.
  - exists a. assert (HaL : a ∈ L1 ++ a :: x :: L2) by set_solver.
    destruct (flist_node h Hpl _ _ _ a Hl HaL) as [Han _].
    assert (Hk : key h m a ≤ key h m x) by (apply Hsa; set_solver). rewrite Hkx in Hk.
    destruct (fl_free _ _ _ _ Hl x HxF) as (_ & _ & s' & Hs' & Hs16). simplify_eq.
    destruct (flist_size h Hpl _ _ _ a Hl HaL) as [(i & _ & _ & Hz)|(_ & t & Ht & _ & Hka)];
      [exists 0|exists t]; split_and!; auto; lia.
  - destruct L2 as [|b L2]; cbn [List.hd] in *; [by left|right; exists b].
    assert (HbL : b ∈ L1 ++ a :: x :: b :: L2) by set_solver.
    destruct (flist_node h Hpl _ _ _ b Hl HbL) as [Hbn _].
    assert (b ≠ NULL) by (pose proof (node_pos h Hpl b Hbn); unfold NULL; lia).
    assert (Hk : key h m x ≤ key h m b) by (apply Hsx; set_solver). rewrite Hkx in Hk.
    destruct (flist_size h Hpl _ _ _ b Hl HbL) as [(i & _ & _ & Hz)|(_ & t & Ht & _ & Hkb)];
      [exists 0|exists t]; split_and!; auto; right; lia.
Qed.

Lemma check_free_ok m F L x s :
  flist h m F L → x ∈ F → fld m x size = Some s → mm_check_free m x s = Some tt.
Proof.
  intros Hl HxF Hs.
  destruct (flist_around m F L x s Hl HxF Hs) as [(a & t & Han & Hxb & Haf & Hat & Hts) Hn].
  destruct (fl_free _ _ _ _ Hl x HxF) as (Hcx & _ & s' & Hs' & Hs16). simplify_eq.
  assert (Hxn : is_node h x) by by left.
  unfold mm_check_free. change SIZEOF_MM_FREENODE with 16. rewrite (proj2 (Z.leb_le 16 s)) by lia.
  cbn [DEBUGASSERT mbind option_bind]. rewrite !(node_get h Hpl _ x), Hxb by done.
  cbn [mbind option_bind]. rewrite !(node_get h Hpl _ a), Haf by done. cbn [mbind option_bind].
  rewrite Z.eqb_refl. cbn [DEBUGASSERT mbind option_bind]. rewrite Hat. cbn [mbind option_bind].
  rewrite (proj2 (Z.leb_le t s)) by done. cbn [DEBUGASSERT mbind option_bind].
  destruct Hn as [->|(b & u & Hbn & -> & Hbb & Hbt & Hu)]; [done|]. cbn [mbind option_bind].
  rewrite (node_eqb_null h Hpl b) by done. rewrite !(node_get h Hpl _ b), Hbb by done.
  cbn [mbind option_bind]. rewrite Z.eqb_refl. cbn [DEBUGASSERT mbind option_bind].
  rewrite Hbt. cbn [mbind option_bind]. destruct Hu as [->|Hu]; [done|].
  by rewrite (proj2 (Z.leb_le s u)), orb_true_r by done.
Qed.

(** ** The walk *)

Definition sum_info (arena : Z) l : mallinfo :=
  mk_mallinfo arena (free_count l) (free_max 0 l) (used_bytes l) (free_bytes l).

Lemma sum_used a l s :
  0 ≤ used_bytes l + s < 2 ^ 32 →
  mk_mallinfo a (free_count l) (free_max 0 l) (u32 (used_bytes l + s)) (free_bytes l) =
  sum_info a (l ++ [(s, Used)]).
Proof.
  intros Hs. unfold sum_info. rewrite free_count_app, free_max_app, used_bytes_app, free_bytes_app.
  rewrite u32_small by done. simpl. f_equal; lia.
Qed.

Lemma sum_free a l s b :
  used b = false → 0 ≤ free_count l < 2 ^ 31 - 1 → 0 ≤ free_bytes l + s < 2 ^ 32 →
  mk_mallinfo a (s32 (free_count l + 1)) (if free_max 0 l <? s then s else free_max 0 l)
    (used_bytes l) (u32 (free_bytes l + s)) = sum_info a (l ++ [(s, b)]).
Proof.
  intros Hb Hc Hs. unfold sum_info. rewrite free_count_app, free_max_app, used_bytes_app, free_bytes_app.
  rewrite u32_small, s32_small by lia. simpl. rewrite Hb. f_equal; try lia.
  destruct (Z.ltb_spec (free_max 0 l) s); lia.
Qed.

Lemma visit_info m l s b r cs :
  hstate h m (cs) → Forall settled cs → cs = l ++ (s, b) :: r →
  let I := sum_info 0 l in
  (if used b
   then DEBUGASSERT (SIZEOF_MM_ALLOCNODE <=? s) ;;
        Some (mk_mallinfo (arena I) (ordblks I) (mxordblk I) (u32 (uordblks I + s)) (fordblks I))
   else mm_check_free m (mm_heapstart h + total l) s ;;
        Some (mk_mallinfo (arena I) (s32 (ordblks I + 1)) (if mxordblk I <? s then s else mxordblk I)
                (uordblks I) (u32 (fordblks I + s)))) = Some (sum_info 0 (l ++ [(s, b)])).
Proof.
  intros Hs Hset Hcs I. destruct (hs_hdr h Hpl m cs l s b r _ Hs Hcs eq_refl) as (X1 & _ & Hb).
  pose proof (wf_big _ (hs_wf _ _ _ Hs)) as Hbig. rewrite Hcs in Hbig.
  apply Forall_app in Hbig as [Hbl _]. pose proof (bytes_bounds _ Hbl). pose proof (bytes_total l).
  unfold I. destruct b; cbn [used arena ordblks mxordblk uordblks fordblks sum_info].
  - rewrite sum_used by lia. unfold SIZEOF_MM_ALLOCNODE. by rewrite (proj2 (Z.leb_le 8 s)) by lia.
  - destruct (hs_list _ _ _ Hs) as [L HL].
    rewrite (check_free_ok m _ L _ s HL), (sum_free _ _ _ Free)
      by (done || lia || (rewrite Hcs; apply elem_of_frees)). done.
  - rewrite Hcs in Hset. by apply Forall_app in Hset as [_ [? _]%Forall_cons].
Qed.

Lemma visit_ok m l k cs fuel :
  hstate h m cs → cs = l ++ k ++ [guard] → Forall settled cs → (length k < fuel)%nat →
  mm_visit fuel m (mm_heapend h) (mm_heapstart h + total l)
    (match l with [] => None | _ => Some (psize 0 l) end) (sum_info 0 l) =
  Some (mm_heapend h, sum_info 0 (l ++ k)).
Proof.
  intros Hs Hcs Hset. revert l fuel Hcs. induction k as [|[s b] k IH]; intros l fuel Hcs Hf;
    (destruct fuel as [|fuel]; [simpl in Hf; lia|]); cbn [mm_visit].
  - pose proof (hs_end _ _ _ Hs) as He. rewrite Hcs, total_app in He. simpl in He.
    rewrite (proj2 (Z.ltb_ge _ _)) by lia. rewrite app_nil_r. do 2 f_equal. lia.
  - assert (Hcs' : cs = l ++ (s, b) :: (k ++ [guard])) by by rewrite Hcs.
    destruct (hs_hdr h Hpl m cs l s b (k ++ [guard]) _ Hs Hcs' eq_refl) as (X1 & X2 & Hb).
    pose proof (hs_end _ _ _ Hs) as He. rewrite Hcs', total_app in He. simpl in He, Hf.
    rewrite total_app in Hb, He. simpl in Hb, He.
    pose proof (wf_big _ (hs_wf _ _ _ Hs)) as Hbig. rewrite Hcs' in Hbig.
    apply Forall_app in Hbig as [Hbl [_ Hbk]%Forall_cons]. apply Forall_app in Hbk as [Hbk _].
    pose proof (big_total _ Hbk). pose proof (bytes_bounds _ Hbl). pose proof (bytes_total l).
    rewrite (proj2 (Z.ltb_lt _ _)) by lia. mget X1. mget X2. rewrite allocated_prec by lia.
    specialize (IH (l ++ [(s, b)]) fuel). rewrite total_app, psize_snoc, <- !app_assoc in IH.
    cbn [app total foldr fst] in IH. rewrite u32_small by lia.
    pose proof (visit_info m l s b _ cs Hs Hset Hcs') as Hinfo. cbv zeta in Hinfo.
    rewrite Hinfo. cbn [mbind option_bind]. rewrite prec_size_prec by lia.
    replace (match match l with [] => None | _ => Some (psize 0 l) end with
             | Some ps => ps =? psize 0 l | None => true end) with true
      by (destruct l; [done|]; by rewrite Z.eqb_refl).
    cbn [DEBUGASSERT mbind option_bind].
    rewrite <- IH; [|by rewrite Hcs'|lia]. f_equal; [lia|]. by destruct l.
Qed.

(** Each chunk has a header of its own in memory. *)

Fixpoint heads (a : Z) cs : list Z :=
  match cs with [] => [] | (s, _) :: cs => a :: heads (a + s) cs end.

Lemma heads_range a cs x : Forall big8 cs → x ∈ heads a cs → a ≤ x.
Proof.
  revert a. induction cs as [|[s b] cs IH]; intros a Hb Hx; simpl in Hx; [set_solver|].
  apply Forall_cons in Hb as [Hs Hb]. unfold big8 in Hs. simpl in Hs.
  apply elem_of_cons in Hx as [->|Hx]; [lia|]. apply IH in Hx; [lia|done].
Qed.

Lemma chunks_length m a p cs : Forall big8 cs → chunks m a p cs → (length cs ≤ base.size m)%nat.
Proof.
  intros Hb Hc. assert (Hlen : length (heads a cs) = length cs).
  { clear. revert a. induction cs as [|[s b] cs IH]; intros a; simpl; [done|]. by rewrite IH. }
  rewrite <- Hlen, <- (size_dom (D := gset Z)), <- (size_list_to_set (C := gset Z)).
  - apply subseteq_size. intros x Hx. apply elem_of_list_to_set in Hx. apply elem_of_dom.
    clear Hlen. revert a p Hc Hx. induction cs as [|[s b] cs IH]; intros a p Hc Hx; simpl in Hx; [set_solver|].
    apply Forall_cons in Hb as [_ Hb]. destruct Hc as (H1 & _ & H3).
    apply elem_of_cons in Hx as [->|Hx]; [|by eapply IH].
    unfold fld in H1. simpl in H1. rewrite Z.add_0_r in H1. eauto.
  - clear Hlen Hc. revert a. induction cs as [|[s b] cs IH]; intros a; simpl; [constructor|].
    apply Forall_cons in Hb as [Hs Hb]. constructor; [|by apply IH].
    intros Hx%heads_range; [|done]. unfold big8 in Hs. simpl in Hs. lia.
Qed.

Lemma mallinfo_cases cs :
  hstate h (mem h) cs → Forall settled cs →
  mm_mallinfo h =
    if mm_heapsize h =? total cs then
      Some (mk_mallinfo (total cs) (free_count cs) (free_max 0 cs) (used_bytes cs) (free_bytes cs))
    else None.
Proof.
  intros Hs Hset. pose proof (hs_wf _ _ _ Hs) as (mid & Hcs & Hm).
  pose proof (chunks_length _ _ _ _ (wf_big _ (hs_wf _ _ _ Hs)) (hs_chunks _ _ _ Hs)) as Hlen.
  rewrite Hcs in Hlen. rewrite app_comm_cons, length_app in Hlen. simpl in Hlen.
  pose proof (visit_ok (mem h) [] (guard :: mid) cs (S (base.size (mem h))) Hs Hcs Hset) as Hv.
  rewrite Z.add_0_r in Hv. unfold mm_mallinfo.
  change (mk_mallinfo 0 0 0 0 0) with (sum_info 0 []). rewrite Hv by (simpl; lia).
  cbn [mbind option_bind]. rewrite Z.eqb_refl. cbn [DEBUGASSERT mbind option_bind].
  cbn [app sum_info uordblks fordblks ordblks mxordblk].
  rewrite app_comm_cons in Hcs. pose proof (wf_big _ (hs_wf _ _ _ Hs)) as Hb.
  pose proof (bytes_bounds _ Hb). pose proof (bytes_total cs). destruct (hs_total h Hpl _ _ Hs) as [Ht _].
  pose proof (free_max_bounds 0 cs Hb).
  rewrite Hcs, used_bytes_app, free_bytes_app, free_count_app, free_max_app in *.
  change (used_bytes [guard]) with 8 in *. change (free_bytes [guard]) with 0 in *.
  change (free_count [guard]) with 0 in *. change (free_max ?x [guard]) with x in *.
  unfold SIZEOF_MM_ALLOCNODE. rewrite !Z.add_0_r in *. rewrite !u32_small by (rewrite ?u32_small by lia; lia).
  rewrite (Z.eqb_sym (mm_heapsize h)).
  replace (used_bytes (guard :: mid) + 8 + free_bytes (guard :: mid)) with (total ((guard :: mid) ++ [guard])) by lia.
  destruct (Z.eqb_spec (total ((guard :: mid) ++ [guard])) (mm_heapsize h)) as [<-|]; [|done].
  cbn [DEBUGASSERT mbind option_bind]. by rewrite !s32_small by lia.
Qed.

Lemma mallinfo_ok cs :
  heap_ok h cs →
  mm_mallinfo h = Some (mk_mallinfo (total cs) (free_count cs) (free_max 0 cs) (used_bytes cs) (free_bytes cs)).
Proof. intros [_ Hs Hsz _ Hset]. by rewrite (mallinfo_cases cs), Hsz, Z.eqb_refl. Qed.

End Info.

End MmInfo.
