(* ===== verification/MmResize.v ===== *)
(** * Resizing chunks

    [mm_shrinkchunk] gives back the end of a chunk; the two ways in which [mm_realloc]
    extends a chunk in place. *)

From S2P Require Import Prelude MmHeap MmList MmLayout MmState MmFree MmMalloc MmBlocks.

Module MmResize.
Import MmHeap MmList MmLayout MmState MmFree MmMalloc MmBlocks.

Implicit Types (cs l r : list chunk) (m : gmap Z Z).

Section Resize.

Context (h : mm_heap_s) (Hpl : place h).

(** ** Cutting and listing

    The header of a new chunk is written inside of the tiles of [old]. *)

Lemma new_header m0 m l old r a x f v :
  hstate h m0 (l ++ old ++ r) → wfl l → wfr r → words h m → x = mm_heapstart h + total l →
  a mod 16 = 0 → 0 ≤ a → a + 16 ≤ total old → put m (x + a) f v = Some (upd m (x + a) f v).
Proof.
  intros Hs Hl Hr Hw Hx Ha1 Ha2 Ha3. pose proof (hs_end _ _ _ Hs) as He. rewrite !total_app in He.
  pose proof (wfl_total _ Hl). pose proof (wfr_total _ Hr).
  apply (node_put h Hpl); [done| |lia]. left. unfold caddr. split; [|lia]. dlia.
Qed.

(** The second of two tiles, which is loose, joins the list. *)

Lemma cut_list m m' l s b old s1 s2 u d r x :
  hstate h m (l ++ ((s, b) :: old) ++ (u, d) :: r) → wfl l → wfr ((u, d) :: r) →
  Forall not_free ((s, b) :: old) → uchunk (s1, b) → uchunk (s2, Loose) →
  s + total old = s1 + s2 → words h m' → x = mm_heapstart h + total l →
  (∀ k, k ≠ x → k ≠ x + s1 → k ≠ x + s1 + 4 → k ≠ x + s1 + s2 + 4 → m' !! k = m !! k) →
  fld m' x size = Some s1 → fld m' (x + s1) size = Some s2 →
  fld m' (x + s1) preceding = Some s1 →
  fld m' (x + s1 + s2) preceding = Some (prec_word s2 (used d)) →
  ∃ m2, mm_addfreechunk (set_mem h m') (x + s1) = Some (set_mem h m2) ∧
    hstate h m2 (l ++ (s1, b) :: (s2, Free) :: (u, d) :: r) ∧
    keeps h (l ++ (s1, b) :: (s2, Free) :: (u, d) :: r) m m2.
Proof.
  intros Hs Hl Hr Hno Hu1 Hu2 Htot Hw Hx Hm F1 F2 F3 F4. rewrite Hx in *.
  destruct (st_cut h Hpl m m' l s b old s1 s2 Loose u d r) as [Hs1 Hk1]; try done.
  { by rewrite prec_word_free. }
  destruct (st_list h Hpl m' (l ++ [(s1, b)]) s2 ((u, d) :: r)) as (m2 & Hadd & Hs2 & Hk2); [by tiles|].
  replace (mm_heapstart h + total (l ++ [(s1, b)])) with (mm_heapstart h + total l + s1) in Hadd by tiles.
  rewrite <- app_assoc in Hs2, Hk2. exists m2. split; [done|]. split; [done|].
  intros k Hk. assert (Hk' : user h (l ++ (s1, b) :: (s2, Loose) :: (u, d) :: r) k).
  { pose proof (user_relabel h (l ++ [(s1, b)]) s2 Free Loose ((u, d) :: r) k eq_refl) as Hrel.
    rewrite <- !app_assoc in Hrel. auto. }
  by rewrite (Hk2 k), (Hk1 k).
Qed.

(** ** A chunk with a free successor

    The successor leaves the list; what the headers hold then. *)

Lemma detach_next m l s b t u d r x :
  hstate h m (l ++ (s, b) :: (t, Free) :: (u, d) :: r) → uchunk (s, b) → x = mm_heapstart h + total l →
  ∃ m1, mm_unlink m (x + s) = Some m1 ∧
    hstate h m1 (l ++ ((s, b) :: [(t, Loose)]) ++ (u, d) :: r) ∧
    keeps h (l ++ (s, b) :: (t, Free) :: (u, d) :: r) m m1 ∧
    (fld m x size = Some s ∧ fld m (x + s) size = Some t ∧
     fld m (x + s) preceding = Some (prec_word s false)) ∧
    (fld m1 x size = Some s ∧ fld m1 (x + s) size = Some t ∧
     fld m1 (x + s + t) preceding = Some (prec_word t (used d))) ∧
    uchunk (t, Free) ∧ wfl l ∧ wfr ((u, d) :: r) ∧ 0 < x ∧ s + t < 2 ^ 31 ∧ x + s + t + 8 < 2 ^ 32.
Proof.
  intros Hs Hu Hx. destruct (wf_split _ _ _ (hs_wf _ _ _ Hs) Hu) as [Hl Hr].
  destruct (hs_hdr h Hpl m _ l s b ((t, Free) :: (u, d) :: r) x Hs) as (X1 & _ & Hb); [done..|].
  destruct (hs_hdr h Hpl m _ (l ++ [(s, b)]) t Free ((u, d) :: r) (x + s) Hs) as (T1 & T2 & _); [tiles..|].
  rewrite psize_snoc in T2.
  destruct (st_unlink h Hpl m (l ++ [(s, b)]) t ((u, d) :: r)) as (m1 & Hun & Hs1 & Hk1); [by tiles|].
  replace (mm_heapstart h + total (l ++ [(s, b)])) with (x + s) in Hun by tiles.
  rewrite <- app_assoc in Hs1, Hk1. cbn [app] in Hs1, Hk1.
  destruct (hs_hdr h Hpl m1 _ l s b ((t, Loose) :: (u, d) :: r) x Hs1) as (Y1 & _); [done..|].
  destruct (hs_hdr h Hpl m1 _ (l ++ [(s, b)]) t Loose ((u, d) :: r) (x + s) Hs1) as (Y2 & _); [tiles..|].
  destruct (hs_hdr h Hpl m1 _ (l ++ [(s, b); (t, Loose)]) u d r (x + s + t) Hs1) as (_ & U & Hbu); [tiles..|].
  rewrite psize_app in U. change (psize _ [(s, b); (t, Loose)]) with t in U.
  assert (Hut : uchunk (t, Free)) by (eapply (wf_free (l ++ [(s, b)])); [rewrite <- app_assoc; apply Hs|done]).
  destruct (wf_split (l ++ [(s, b)]) (t, Free) ((u, d) :: r)) as [_ Hr'];
    [rewrite <- app_assoc; apply Hs|done|].
  rewrite total_app in Hbu. simpl in Hbu, Hb.
  exists m1. split_and!; try done; lia.
Qed.

(** ** [mm_shrinkchunk] *)

Lemma gran_mask sz : sz mod 16 = 0 → (Z.land sz MM_GRAN_MASK =? 0) = true.
Proof.
  intros Hz. apply Z.eqb_eq. change MM_GRAN_MASK with (Z.ones 4). by rewrite Z.land_ones.
Qed.

(** A free chunk that begins further to the left leaves less to the user before it. *)

Lemma user_shift l s1 s2 s t r k :
  s1 ≤ s → s1 + s2 = s + t →
  user h (l ++ (s1, Used) :: (s2, Free) :: r) k → user h (l ++ (s, Used) :: (t, Free) :: r) k.
Proof.
  intros Hle Heq [? [Hq1 (Hq2 & Hq3 & Hq4)]%quiet_app]. split; [done|]. apply quiet_app. split; [done|].
  simpl in *. rewrite <- !Z.add_assoc, Heq in *. split; [done|]. split; [lia|]. by rewrite Z.add_assoc in *.
Qed.

Lemma shrink_next_free m l s sz t u d r x :
  hstate h m (l ++ (s, Used) :: (t, Free) :: (u, d) :: r) → uchunk (s, Used) → uchunk (sz, Used) →
  sz ≤ s → x = mm_heapstart h + total l →
  ∃ m', mm_shrinkchunk (set_mem h m) x sz = Some (set_mem h m') ∧
    hstate h m' (l ++ (sz, Used) :: (s + t - sz, Free) :: (u, d) :: r) ∧
    keeps h (l ++ (sz, Used) :: (s + t - sz, Free) :: (u, d) :: r) m m'.
Proof.
  intros Hs Hu Hz Hle Hx.
  destruct (detach_next m l s Used t u d r x Hs Hu Hx)
    as (m1 & Hun & Hs1 & Hk1 & (X1 & T1 & T2) & (Y1 & Y2 & U) & Hut & Hl & Hr & Hx0 & Hst & Hxb).
  pose proof Hu as [Hu1 Hu2]. pose proof Hz as [Hz1 Hz2]. pose proof Hut as [Ht1 Ht2]. simpl in *.
  set (m2 := upd (upd (upd (upd m1 (x + sz) size (s + t - sz)) (x + sz) preceding sz) x size sz)
               (x + s + t) preceding (prec_word (s + t - sz) (used d))).
  destruct (cut_list m1 m2 l s Used [(t, Loose)] sz (s + t - sz) u d r x) as (m3 & Hadd & Hs3 & Hk3);
    try done; try (unfold m2; by fields).
  - by repeat constructor.
  - split; simpl; [lia|dlia].
  - simpl. lia.
  - unfold m2. pose proof (hs_words _ _ _ Hs1). eauto using words_upd.
  - intros k ????. unfold m2, upd. rewrite !lookup_insert_ne by (simpl; lia). done.
  - unfold m2. replace (x + sz + (s + t - sz)) with (x + s + t) by lia. by fields.
  - exists m3. split; [|split; [done|]].
    + unfold mm_shrinkchunk. cbn [mem set_mem]. rewrite gran_mask by done.
      cbn [DEBUGASSERT mbind option_bind]. mget X1. rewrite (u32_small (x + s)) by lia. mget T2.
      rewrite allocated_prec by lia. cbn [negb]. mget T1. rewrite Hun. cbn [mbind option_bind].
      mget Y2. mget Y1. replace (t + s - sz) with (s + t - sz) by lia. rewrite !u32_small by lia.
      pose proof (hs_words _ _ _ Hs1) as Hw1.
      rewrite (new_header m1 _ l [(s, Used); (t, Loose)] ((u, d) :: r)) by (done || simpl; lia).
      cbn [mbind option_bind].
      rewrite (new_header m1 _ l [(s, Used); (t, Loose)] ((u, d) :: r))
        by (eauto using words_upd || simpl; lia).
      cbn [mbind option_bind]. rewrite put_upd by (lia || (fields; eauto)). cbn [mbind option_bind].
      rewrite get_fld by lia. fields. cbn [mbind option_bind].
      rewrite (setprec_fld _ _ t (used d)) by (lia || by fields). exact Hadd.
    + intros k Hk. rewrite (Hk3 k Hk). apply Hk1. revert Hk. apply user_shift; lia.
Qed.

Lemma shrink_next_used m l s sz u r x :
  hstate h m (l ++ (s, Used) :: (u, Used) :: r) → uchunk (s, Used) → uchunk (sz, Used) →
  sz < s → x = mm_heapstart h + total l →
  ∃ m', mm_shrinkchunk (set_mem h m) x sz = Some (set_mem h m') ∧
    hstate h m' (l ++ (sz, Used) :: (s - sz, Free) :: (u, Used) :: r) ∧
    keeps h (l ++ (sz, Used) :: (s - sz, Free) :: (u, Used) :: r) m m'.
Proof.
  intros Hs Hu Hz Hlt Hx. destruct (wf_split _ _ _ (hs_wf _ _ _ Hs) Hu) as [Hl Hr].
  destruct (hs_hdr h Hpl m _ l s Used ((u, Used) :: r) x Hs) as (X1 & X2 & Hb); [done..|].
  destruct (hs_hdr h Hpl m _ (l ++ [(s, Used)]) u Used r (x + s) Hs) as (_ & U & Hbu); [tiles..|].
  rewrite psize_snoc in *. rewrite total_app in Hbu. simpl in Hb, Hbu.
  pose proof Hu as [Hu1 Hu2]. pose proof Hz as [Hz1 Hz2]. simpl in *. pose proof (hs_words _ _ _ Hs) as Hw.
  set (m2 := upd (upd (upd (upd m (x + sz) size (s - sz)) (x + sz) preceding sz) x size sz)
               (x + s) preceding (prec_word (s - sz) true)).
  destruct (cut_list m m2 l s Used [] sz (s - sz) u Used r x) as (m3 & Hadd & Hs3 & Hk3);
    try done; try (unfold m2; by fields).
  - by repeat constructor.
  - split; simpl; dlia.
  - simpl. lia.
  - unfold m2. eauto using words_upd.
  - intros k ????. unfold m2, upd. rewrite !lookup_insert_ne by (simpl; lia). done.
  - unfold m2. replace (x + sz + (s - sz)) with (x + s) by lia. by fields.
  - exists m3. split; [|done].
    unfold mm_shrinkchunk. cbn [mem set_mem]. rewrite gran_mask by done.
    cbn [DEBUGASSERT mbind option_bind]. mget X1. rewrite (u32_small (x + s)) by lia. mget U.
    rewrite allocated_prec by lia. cbn [negb]. change SIZEOF_MM_FREENODE with 16.
    rewrite !u32_small by lia. rewrite (proj2 (Z.leb_le (sz + 16) s)) by dlia.
    rewrite (new_header m _ l [(s, Used)] ((u, Used) :: r)) by (done || simpl; dlia).
    cbn [mbind option_bind].
    rewrite (new_header m _ l [(s, Used)] ((u, Used) :: r)) by (eauto using words_upd || simpl; dlia).
    cbn [mbind option_bind]. rewrite put_upd by (lia || (fields; eauto)). cbn [mbind option_bind].
    rewrite get_fld by lia. fields. cbn [mbind option_bind].
    rewrite put_upd by (lia || (fields; eauto)). exact Hadd.
Qed.

(** The end of the chunk becomes free, and merges with a free chunk after it. *)

Lemma shrink_ok m l s sz r x :
  hstate h m (l ++ (s, Used) :: r) → uchunk (s, Used) → uchunk (sz, Used) → sz < s →
  coalesced r = true → Forall settled r → x = mm_heapstart h + total l →
  ∃ m', mm_shrinkchunk (set_mem h m) x sz = Some (set_mem h m') ∧
    hstate h m' (l ++ (sz, Used) :: merge ((s - sz, Free) :: r)) ∧
    keeps h (l ++ (sz, Used) :: (s - sz, Free) :: r) m m'.
Proof.
  intros Hs Hu Hz Hlt Hco Hset Hx. destruct (wf_split _ _ _ (hs_wf _ _ _ Hs) Hu) as [Hl Hr].
  destruct (wfr_head _ Hr) as (t & d & r' & -> & Hd). apply Forall_cons in Hset as [Hst Hset].
  destruct d; [| |done].
  - cbn [merge]. rewrite merge_coalesced by by rewrite coalesced_cons_used in Hco.
    by apply shrink_next_used.
  - destruct Hd as [(_ & _ & ?)|[_ Hr']]; [done|]. destruct (wfr_head _ Hr') as (u & d & r'' & -> & _).
    destruct (shrink_next_free m l s sz t u d r'' x) as (m' & Hsh & Hs' & Hk); [done..|lia|done|].
    exists m'. split; [done|]. rewrite coalesced_cons2 in Hco. apply andb_true_iff in Hco as [Hdu Hco].
    assert (d = Used) as -> by by destruct d. rewrite coalesced_cons_used in Hco.
    replace (s + t - sz) with (s - sz + t) in * by lia. split.
    + cbn [merge]. by rewrite merge_coalesced.
    + intros k Hk'. apply Hk. destruct Hk' as [? [Hq1 (Hq2 & Hq3 & Hq4 & Hq5)]%quiet_app].
      split; [done|]. apply quiet_app. split; [done|]. simpl in *. split; [done|].
      rewrite !Z.add_assoc in *. split; [lia|done].
Qed.

(** ** Extending a chunk *)

(** What is left of a free neighbour of [t] bytes when [n] of them are taken. *)

Definition left_over (t n : Z) : list chunk := if n <? t then [(t - n, Free)] else [].

Lemma user_grow l s t n r k :
  0 ≤ n ≤ t →
  user h (l ++ (s, Used) :: (t, Free) :: r) k → user h (l ++ (s + n, Used) :: (t - n, Free) :: r) k.
Proof.
  intros Hn [? [Hq1 (Hq2 & Hq3 & Hq4)]%quiet_app]. split; [done|]. apply quiet_app. split; [done|].
  simpl in *. split; [done|]. replace (mm_heapstart h + total l + (s + n) + (t - n))
    with (mm_heapstart h + total l + s + t) by lia. split; [lia|done].
Qed.

Lemma grow_next_ok m l s t u d r x n :
  hstate h m (l ++ (s, Used) :: (t, Free) :: (u, d) :: r) → uchunk (s, Used) →
  n mod 16 = 0 → 0 < n ≤ t → x = mm_heapstart h + total l →
  ∃ m', mm_grow_next (set_mem h m) x (x + s) s n t = Some (set_mem h m') ∧
    hstate h m' (l ++ (s + n, Used) :: left_over t n ++ (u, d) :: r) ∧
    keeps h (l ++ (s, Used) :: (t, Free) :: (u, d) :: r) m m'.
Proof.
  intros Hs Hu Hn Hnt Hx.
  destruct (detach_next m l s Used t u d r x Hs Hu Hx)
    as (m1 & Hun & Hs1 & Hk1 & _ & (Y1 & Y2 & U) & Hut & Hl & Hr & Hx0 & Hst & Hxb).
  pose proof Hu as [Hu1 Hu2]. pose proof Hut as [Ht1 Ht2]. pose proof (hs_words _ _ _ Hs1) as Hw1. simpl in *.
  unfold mm_grow_next, left_over. cbn [mem set_mem]. rewrite Hun. cbn [mbind option_bind].
  rewrite !(u32_small (s + n)), (u32_small (x + s + t)) by lia. mput.
  rewrite (u32_small (x + (s + n))) by lia. destruct (Z.ltb_spec n t) as [Hlt|Hge].
  - rewrite (u32_small (t - n)) by lia.
    set (m2 := upd (upd (upd (upd m1 x size (s + n)) (x + s + n) size (t - n)) (x + s + n) preceding (s + n))
                 (x + s + t) preceding (prec_word (t - n) (used d))).
    destruct (cut_list m1 m2 l s Used [(t, Loose)] (s + n) (t - n) u d r x) as (m3 & Hadd & Hs3 & Hk3);
      try done; try (unfold m2; rewrite ?Z.add_assoc; by fields).
    + by repeat constructor.
    + split; simpl; [lia|dlia].
    + split; simpl; dlia.
    + simpl. lia.
    + unfold m2. eauto using words_upd.
    + intros k ????. unfold m2, upd. rewrite !lookup_insert_ne by (simpl; lia). done.
    + unfold m2. replace (x + (s + n) + (t - n)) with (x + s + t) by lia. by fields.
    + exists m3. split; [|split; [done|]].
      * rewrite !(new_header m1 _ l [(s, Used); (t, Loose)] ((u, d) :: r))
          by (eauto using words_upd || simpl; dlia).
        change SIZEOF_MM_FREENODE with 16. rewrite (proj2 (Z.leb_le 16 (t - n))) by dlia.
        cbn [DEBUGASSERT mbind option_bind].
        rewrite !(new_header m1 _ l [(s, Used); (t, Loose)] ((u, d) :: r))
          by (eauto using words_upd || simpl; dlia).
        cbn [mbind option_bind]. rewrite (setprec_fld _ _ t (used d)) by (lia || by fields).
        rewrite <- Hadd. unfold m2. by rewrite !Z.add_assoc.
      * intros k Hk. rewrite (Hk3 k) by (apply user_grow; [lia|done]). by apply Hk1.
  - assert (n = t) as -> by lia. rewrite (setprec_fld _ _ t (used d)) by (lia || by fields).
    destruct (st_merge h Hpl m1 l s Used t u d r Hs1 Hu) as [Hs2 Hk2]; [done|].
    rewrite <- Hx in *. eexists. split; [done|]. split; [done|].
    intros k Hk. rewrite (Hk2 k); [by apply Hk1|].
    destruct Hk as [? [Hq1 (Hq2 & Hq3 & Hq4)]%quiet_app]. split; [done|]. apply quiet_app.
    split; [done|]. simpl in *. rewrite Z.add_assoc. done.
Qed.

(** A chunk with a free predecessor, which leaves the list. *)

Lemma detach_prev m l p s u d r y :
  hstate h m (l ++ (p, Free) :: (s, Used) :: (u, d) :: r) → uchunk (s, Used) →
  y = mm_heapstart h + total l →
  ∃ m1, mm_unlink m y = Some m1 ∧
    hstate h m1 (l ++ ((p, Loose) :: [(s, Used)]) ++ (u, d) :: r) ∧
    keeps h (l ++ (p, Free) :: (s, Used) :: (u, d) :: r) m m1 ∧
    fld m1 y size = Some p ∧ fld m1 y preceding = Some (prec_word (psize 0 l) false) ∧
    fld m1 (y + p + s) preceding = Some (prec_word s (used d)) ∧
    uchunk (p, Free) ∧ wfl l ∧ wfr ((u, d) :: r) ∧ 0 < y ∧ p + s < 2 ^ 31 ∧ y + p + s + 8 < 2 ^ 32.
Proof.
  intros Hs Hu Hy. assert (Hup : uchunk (p, Free)) by (eapply wf_free; [apply Hs|done]).
  destruct (wf_split _ _ _ (hs_wf _ _ _ Hs) Hup) as [Hl _].
  destruct (wf_split (l ++ [(p, Free)]) (s, Used) ((u, d) :: r)) as [_ Hr];
    [rewrite <- app_assoc; apply Hs|done|].
  destruct (st_unlink h Hpl m l p ((s, Used) :: (u, d) :: r) Hs) as (m1 & Hun & Hs1 & Hk1).
  destruct (hs_hdr h Hpl m1 _ l p Loose ((s, Used) :: (u, d) :: r) y Hs1) as (Y1 & Y2 & Hb); [done..|].
  destruct (hs_hdr h Hpl m1 _ (l ++ [(p, Loose); (s, Used)]) u d r (y + p + s) Hs1) as (_ & U & Hbu); [tiles..|].
  rewrite psize_app in U. change (psize _ [(p, Loose); (s, Used)]) with s in U.
  rewrite total_app in Hbu. simpl in Hb, Hbu. rewrite <- Hy in Hun.
  exists m1. split_and!; try done; lia.
Qed.

(** What belongs to users before belongs to them afterwards. *)

Lemma user_prev l p b s n r k :
  used b = false → 8 ≤ n ≤ p →
  user h (l ++ (p, Free) :: (s, Used) :: r) k → user h (l ++ (p - n, b) :: (s + n, Used) :: r) k.
Proof.
  intros Hb Hn [? [Hq1 (Hq2 & Hq3 & Hq4)]%quiet_app]. split; [done|]. apply quiet_app. split; [done|].
  simpl in *. rewrite Hb. replace (mm_heapstart h + total l + (p - n) + (s + n))
    with (mm_heapstart h + total l + p + s) by lia. split; [lia|]. split; [lia|done].
Qed.

Lemma take_prev_part m l p s u d r y n :
  hstate h m (l ++ (p, Free) :: (s, Used) :: (u, d) :: r) → uchunk (s, Used) →
  n mod 16 = 0 → 0 < n < p → y = mm_heapstart h + total l →
  ∃ m', mm_take_prev (set_mem h m) y (y + p) (y + p + s) s n p = Some (set_mem h m') ∧
    hstate h m' (l ++ (p - n, Free) :: (s + n, Used) :: (u, d) :: r) ∧
    keeps h (l ++ (p, Free) :: (s, Used) :: (u, d) :: r) m m'.
Proof.
  intros Hs Hu Hn Hnp Hy. destruct (detach_prev m l p s u d r y Hs Hu Hy)
    as (m1 & Hun & Hs1 & Hk1 & Y1 & _ & U & Hup & Hl & Hr & Hy0 & Hps & Hyb).
  pose proof Hu as [Hu1 Hu2]. pose proof Hup as [Hp1 Hp2]. pose proof (hs_words _ _ _ Hs1) as Hw1. simpl in *.
  set (m2 := upd (upd (upd (upd m1 y size (p - n)) (y + (p - n)) size (s + n)) (y + (p - n)) preceding
               (prec_word (p - n) true)) (y + p + s) preceding (prec_word (s + n) (used d))).
  destruct (st_cut h Hpl m1 m2 l p Loose [(s, Used)] (p - n) (s + n) Used u d r) as [Hs2 Hk2];
    try done; try (rewrite <- Hy; unfold m2; by fields).
  - by repeat constructor.
  - split; simpl; dlia.
  - split; simpl; dlia.
  - simpl. lia.
  - unfold m2. eauto using words_upd.
  - rewrite <- Hy. intros k ????. unfold m2, upd. rewrite !lookup_insert_ne by (simpl; lia). done.
  - rewrite <- Hy. unfold m2. replace (y + (p - n) + (s + n)) with (y + p + s) by lia. by fields.
  - destruct (st_list h Hpl m2 l (p - n) ((s + n, Used) :: (u, d) :: r) Hs2) as (m3 & Hadd & Hs3 & Hk3).
    rewrite <- Hy in Hadd. exists m3. split; [|split; [done|]].
    + unfold mm_take_prev. cbn [mem set_mem]. rewrite Hun. cbn [mbind option_bind].
      rewrite (proj2 (Z.ltb_lt n p)) by lia. mget Y1. replace (y + p - n) with (y + (p - n)) by lia.
      rewrite !u32_small by lia. mput. change SIZEOF_MM_FREENODE with 16.
      rewrite (proj2 (Z.leb_le 16 (p - n))) by dlia. cbn [DEBUGASSERT mbind option_bind].
      do 2 (rewrite !(new_header m1 _ l [(p, Loose); (s, Used)] ((u, d) :: r))
        by (eauto using words_upd || simpl; dlia); cbn [mbind option_bind]).
      rewrite (setprec_fld _ _ s (used d)) by (lia || by fields). exact Hadd.
    + intros k Hk. apply (user_prev l p Loose s n) in Hk as Hk'; [|done|dlia].
      by rewrite (Hk3 k), (Hk2 k), (Hk1 k).
Qed.

Lemma take_prev_whole m l p s u d r y :
  hstate h m (l ++ (p, Free) :: (s, Used) :: (u, d) :: r) → uchunk (s, Used) →
  y = mm_heapstart h + total l →
  ∃ m', mm_take_prev (set_mem h m) y (y + p) (y + p + s) s p p = Some (set_mem h m') ∧
    hstate h m' (l ++ (s + p, Used) :: (u, d) :: r) ∧
    keeps h (l ++ (p, Free) :: (s, Used) :: (u, d) :: r) m m'.
Proof.
  intros Hs Hu Hy. destruct (detach_prev m l p s u d r y Hs Hu Hy)
    as (m1 & Hun & Hs1 & Hk1 & Y1 & Y2 & U & Hup & Hl & Hr & Hy0 & Hps & Hyb).
  pose proof Hu as [Hu1 Hu2]. pose proof Hup as [Hp1 Hp2]. pose proof (hs_words _ _ _ Hs1) as Hw1. simpl in *.
  set (m2 := upd (upd (upd m1 y size (s + p)) y preceding (prec_word (psize 0 l) true))
               (y + p + s) preceding (prec_word (s + p) (used d))).
  destruct (st_retile h Hpl m1 m2 l ((p, Loose) :: [(s, Used)]) [(s + p, Used)] u d r) as [Hs2 Hk2];
    try done; simpl; try lia.
  - constructor; [|done]. split; simpl; dlia.
  - by repeat constructor.
  - by repeat constructor.
  - unfold m2. eauto using words_upd.
  - rewrite <- Hy. intros k [Hk _] Hk'. unfold m2, upd. rewrite !lookup_insert_ne by (simpl; lia). done.
  - rewrite <- Hy. unfold m2. split_and!; by fields.
  - rewrite <- Hy. unfold m2. rewrite Z.add_0_r, Z.add_assoc. by fields.
  - exists m2. split; [|split; [done|]].
    + unfold mm_take_prev. cbn [mem set_mem]. rewrite Hun. cbn [mbind option_bind].
      rewrite Z.ltb_irrefl. replace (y + p - p) with y by lia. rewrite (u32_small y) by lia. mget Y1.
      rewrite !u32_small by lia. mput. rewrite get_fld by lia. fields. rewrite Y2. cbn [mbind option_bind].
      rewrite prec_word_alloc. rewrite put_upd by (lia || (fields; eauto)). cbn [mbind option_bind].
      rewrite (setprec_fld _ _ s (used d)) by (lia || by fields). unfold m2.
      by replace (p + s) with (s + p) by lia.
    + intros k Hk. rewrite <- (Hk1 k Hk). apply Hk2.
      destruct Hk as [? [Hq1 (Hq2 & Hq3 & Hq4)]%quiet_app]. split; [done|]. apply quiet_app.
      split; [done|]. simpl in *. replace (mm_heapstart h + total l + (s + p))
        with (mm_heapstart h + total l + p + s) by lia. split; [lia|done].
Qed.

End Resize.

End MmResize.
