(* ===== verification/MmRealloc.v ===== *)
(** * Reallocation

    [mm_realloc] keeps the contents of a block: it shrinks or extends the chunk in
    place, moves it to the front of a free predecessor, or copies it to a new chunk. *)

From S2P Require Import Prelude MmHeap MmList MmLayout MmState MmFree MmMalloc MmBlocks MmClient MmResize.

Module MmRealloc.
Import MmHeap MmList MmLayout MmState MmFree MmMalloc MmBlocks MmClient MmResize.

Implicit Types (cs l r : list chunk) (m : gmap Z Z) (B : list (Z * Z)).

(** ** Copying words *)

Lemma copy_words_spec n m dst src :
  0 < dst → 0 < src → (dst < src ∨ src + 4 * Z.of_nat n ≤ dst) →
  (∀ i, 0 ≤ i < Z.of_nat n → is_Some (m !! (src + 4 * i)) ∧ is_Some (m !! (dst + 4 * i))) →
  ∃ m', copy_words n m dst src = Some m' ∧
    (∀ i, 0 ≤ i < Z.of_nat n → m' !! (dst + 4 * i) = m !! (src + 4 * i)) ∧
    (∀ k, (∀ i, 0 ≤ i < Z.of_nat n → k ≠ dst + 4 * i) → m' !! k = m !! k).
Proof.
  revert m dst src. induction n as [|n IH]; intros m dst src Hd Hs Hov Hw.
  { exists m. split; [done|]. split; [lia|done]. }
  cbn [copy_words]. destruct (Hw 0) as [[v Hv] [w Hw']]; [lia|]. rewrite Z.add_0_r in Hv, Hw'.
  unfold set_word, word, NULL. rewrite !(proj2 (Z.eqb_neq _ 0)), Hv by lia. cbn [mbind option_bind].
  rewrite Hw'. cbn [mbind option_bind].
  destruct (IH (<[dst := v]> m) (dst + 4) (src + 4)) as (m' & -> & H1 & H2); [lia..| |].
  { intros i Hi. destruct (Hw (i + 1)) as [Hw1 Hw2]; [lia|].
    replace (src + 4 + 4 * i) with (src + 4 * (i + 1)) by lia.
    replace (dst + 4 + 4 * i) with (dst + 4 * (i + 1)) by lia.
    by rewrite !lookup_insert_ne by lia. }
  exists m'. split; [done|]. split.
  - intros i Hi. destruct (decide (i = 0)) as [->|].
    + rewrite H2 by (intros; lia). rewrite !Z.add_0_r, lookup_insert_eq. done.
    + replace (dst + 4 * i) with (dst + 4 + 4 * (i - 1)) by lia. rewrite H1 by lia.
      rewrite lookup_insert_ne by lia. f_equal. lia.
  - intros k Hk. rewrite H2, lookup_insert_ne; [done| |].
    + specialize (Hk 0). lia.
    + intros i Hi He. apply (Hk (i + 1)); lia.
Qed.

(** ** How much is taken from the neighbours *)

Lemma mod16_sub a b : a mod 16 = 0 → b mod 16 = 0 → (a - b) mod 16 = 0.
Proof. intros Ha Hb. by rewrite Zminus_mod, Ha, Hb. Qed.

Lemma take_spec needed p t :
  0 < needed → 0 ≤ p → 0 ≤ t → needed ≤ p + t → p + t < 2 ^ 31 →
  ∃ tp tn, mm_take needed p t = (tp, tn) ∧ tp + tn = needed ∧ 0 ≤ tp ≤ p ∧ 0 ≤ tn ≤ t ∧
    (needed mod 16 = 0 → p mod 16 = 0 → t mod 16 = 0 → tp mod 16 = 0 ∧ tn mod 16 = 0).
Proof.
  intros Hn Hp Ht Hle Hb. unfold mm_take.
  assert (Hz : 0 mod 16 = 0) by done.
  destruct (Z.ltb_spec 0 p), (Z.leb_spec p t), (Z.ltb_spec t 1); simpl;
    try (destruct (Z.ltb_spec p needed)); rewrite ?u32_small, ?andb_false_r by lia; simpl;
    try rewrite (proj2 (Z.ltb_lt 0 t)) by lia; try rewrite (proj2 (Z.eqb_neq needed 0)) by lia; simpl;
    try (destruct (Z.ltb_spec t needed)); rewrite ?u32_small by lia;
    eexists _, _; (split; [reflexivity|]); split_and!; try lia; eauto using mod16_sub.
Qed.

Section Realloc.

Context (h : mm_heap_s) (Hpl : place h).

(** ** Extending a chunk in place *)

Lemma take_prev_ok m l p s u d r y n :
  hstate h m (l ++ (p, Free) :: (s, Used) :: (u, d) :: r) → uchunk (s, Used) →
  n mod 16 = 0 → 0 < n ≤ p → y = mm_heapstart h + total l →
  ∃ m', mm_take_prev (set_mem h m) y (y + p) (y + p + s) s n p = Some (set_mem h m') ∧
    hstate h m' ((l ++ left_over p n) ++ (s + n, Used) :: (u, d) :: r) ∧
    keeps h (l ++ (p, Free) :: (s, Used) :: (u, d) :: r) m m'.
Proof.
  intros Hs Hu Hn Hnp Hy. unfold left_over. destruct (Z.ltb_spec n p).
  - rewrite <- app_assoc. apply take_prev_part; (done || lia).
  - assert (n = p) as -> by lia. rewrite app_nil_r. by apply take_prev_whole.
Qed.

(** The words of a chunk that is in use can be written. *)

Lemma used_words m l s r k :
  hstate h m (l ++ (s, Used) :: r) → uchunk (s, Used) →
  mm_heapstart h + total l + 8 ≤ k < mm_heapstart h + total l + s →
  user h (l ++ (s, Used) :: r) k ∧ (k mod 4 = 0 → is_Some (m !! k)).
Proof.
  intros Hs Hu Hk. pose proof Hu as [Hu1 _]. simpl in Hu1.
  assert (Hb : (mm_heapstart h + total l + 8, s - 8) ∈ blocks (mm_heapstart h) (l ++ (s, Used) :: r)).
  { rewrite blocks_app. simpl. rewrite (proj2 (Z.eqb_neq s 8)) by lia. set_solver. }
  split.
  - eapply block_user; [apply (hs_wf _ _ _ Hs)|apply (hs_end _ _ _ Hs)|done|lia].
  - destruct (block_align h m _ _ _ Hpl Hs Hb) as (_ & _ & ? & ?). intros Hk4.
    apply (region_word h m); [done|apply Hs|done|lia].
Qed.

Lemma used_align m l s r :
  hstate h m (l ++ (s, Used) :: r) → uchunk (s, Used) → (mm_heapstart h + total l + 8) mod 16 = 0.
Proof.
  intros Hs Hu. pose proof (pl_align h Hpl).
  destruct (chunk_caddr h _ l (s, Used) r (hs_wf _ _ _ Hs) (hs_end _ _ _ Hs) eq_refl Hu) as [[Hc _] _]. dlia.
Qed.

Lemma grow_prev_ok m l p s u d r x n :
  hstate h m (l ++ (p, Free) :: (s, Used) :: (u, d) :: r) → uchunk (s, Used) →
  n mod 16 = 0 → 0 < n ≤ p → x = mm_heapstart h + total l + p →
  ∃ m', mm_grow_prev (set_mem h m) (x - p) x (x + s) s n p = Some (x - n, s + n, set_mem h m') ∧
    hstate h m' ((l ++ left_over p n) ++ (s + n, Used) :: (u, d) :: r) ∧
    (∀ k, x + 8 ≤ k < x + s → k mod 4 = 0 → m' !! (k - n) = m !! k) ∧
    (∀ k, user h (l ++ (p, Free) :: (s, Used) :: (u, d) :: r) k → ¬ (x + 8 ≤ k < x + s) →
       m' !! k = m !! k).
Proof.
  intros Hs Hu Hn Hnp Hx.
  destruct (take_prev_ok m l p s u d r (x - p) n Hs Hu Hn Hnp) as (m1 & Htk & Hs1 & Hk1); [lia|].
  replace (x - p + p) with x in Htk by lia.
  assert (Htot : total (l ++ left_over p n) = total l + p - n).
  { rewrite total_app. unfold left_over. case_if; simpl; lia. }
  destruct (hs_hdr h Hpl m1 _ (l ++ left_over p n) (s + n) Used ((u, d) :: r) (x - n) Hs1) as (X1 & _ & Hb);
    [done|lia|]. simpl in Hb. rewrite Htot in Hb.
  pose proof Hu as [Hu1 Hu2]. simpl in Hu1, Hu2.
  assert (Hu' : uchunk (s + n, Used)) by (split; simpl; dlia).
  pose proof (used_words m1 (l ++ left_over p n) (s + n) ((u, d) :: r)) as Huw. rewrite Htot in Huw.
  pose proof (used_align m1 (l ++ left_over p n) (s + n) _ Hs1 Hu') as Hx16. rewrite Htot in Hx16.
  set (c := Z.to_nat ((s - 8) / 4)). assert (Hc : Z.of_nat c = (s - 8) / 4) by (unfold c; dlia).
  destruct (copy_words_spec c m1 (x - n + 8) (x + 8)) as (m2 & Hcp & Hm1 & Hm2); [lia..| |].
  { intros i Hi. split; apply Huw; try done; try dlia. }
  exists m2. split; [|split].
  - unfold mm_grow_prev. rewrite Htk. cbn [mbind option_bind mem set_mem]. unfold SIZEOF_MM_ALLOCNODE.
    rewrite !u32_small by (rewrite ?u32_small by lia; lia). fold c. rewrite Hcp. cbn [mbind option_bind].
    rewrite get_fld by lia. unfold fld in *. rewrite Hm2, X1 by (simpl; intros; lia). done.
  - eapply stores_hstate; [done| |eapply stores_copy, Hcp|done]; [intros k Hk; exact Hk|].
    intros i Hi. apply Huw; [done..|]. dlia.
  - split; intros k Hk.
    + intros Hk4. replace (k - n) with (x - n + 8 + 4 * ((k - x - 8) / 4)) by dlia. rewrite Hm1 by dlia.
      replace (x + 8 + 4 * ((k - x - 8) / 4)) with k by dlia. apply Hk1.
      destruct (used_words m (l ++ [(p, Free)]) s ((u, d) :: r) k) as [Hus _];
        [by rewrite <- app_assoc|done|rewrite total_app; simpl; lia|]. by rewrite <- app_assoc in Hus.
    + intros Hk'. rewrite Hm2; [by apply Hk1|]. intros i Hi ->.
      destruct Hk as [_ [_ (Hq1 & Hq2 & _)]%quiet_app]. simpl in Hq1, Hq2. dlia.
Qed.

(** A neighbour that [n] bytes are taken from. *)

Definition side (t : Z) (d : cstate) (n : Z) : list chunk :=
  if used d then [(t, d)] else left_over t n.

Definition room (t : Z) (d : cstate) : Z := if used d then 0 else t.

Lemma side_total t d n : d ≠ Loose → 0 ≤ n ≤ room t d → total (side t d n) = t - n.
Proof.
  unfold side, room, left_over. intros Hd Hn. destruct (used d); simpl; [lia|].
  case_if; simpl; lia.
Qed.

Lemma side_zero t d : 0 < t → d ≠ Loose → side t d 0 = [(t, d)].
Proof.
  intros Ht Hd. unfold side, left_over. destruct d; simpl; [done| |done].
  rewrite (proj2 (Z.ltb_lt 0 t)) by done. by rewrite Z.sub_0_r.
Qed.

Lemma user_side l p e s tp r k :
  0 < p → e ≠ Loose → 0 ≤ tp ≤ room p e → tp mod 16 = 0 →
  user h (l ++ (p, e) :: (s, Used) :: r) k → user h ((l ++ side p e tp) ++ (s + tp, Used) :: r) k.
Proof.
  intros Hp He Htp Hm Hk. destruct (decide (tp = 0)) as [->|Hne].
  { rewrite side_zero, Z.add_0_r, <- app_assoc by done. done. }
  unfold side, room, left_over in *. destruct e; simpl in *; [lia| |done].
  rewrite <- app_assoc. case_if; cbn [app].
  - eapply user_prev; [done| |done]. dlia.
  - assert (tp = p) as -> by lia.
    destruct Hk as [? [Hq1 (Hq2 & Hq3 & Hq4)]%quiet_app]. split; [done|]. apply quiet_app.
    split; [done|]. simpl in *. replace (mm_heapstart h + total l + (s + p))
      with (mm_heapstart h + total l + p + s) by lia. split; [dlia|done].
Qed.

Lemma grow_left m l p e s t d r x tp :
  hstate h m (l ++ (p, e) :: (s, Used) :: (t, d) :: r) → uchunk (s, Used) → e ≠ Loose →
  tp mod 16 = 0 → 0 ≤ tp ≤ room p e → x = mm_heapstart h + total l + p →
  ∃ m1, (if tp =? 0 then Some (x, s, set_mem h m)
         else mm_grow_prev (set_mem h m) (x - p) x (x + s) s tp (room p e)) =
        Some (x - tp, s + tp, set_mem h m1) ∧
    hstate h m1 ((l ++ side p e tp) ++ (s + tp, Used) :: (t, d) :: r) ∧
    (∀ k, x + 8 ≤ k < x + s → k mod 4 = 0 → m1 !! (k - tp) = m !! k) ∧
    (∀ k, user h (l ++ (p, e) :: (s, Used) :: (t, d) :: r) k → ¬ (x + 8 ≤ k < x + s) →
       m1 !! k = m !! k).
Proof.
  intros Hs Hu He Htp Hp Hx. destruct (hs_hdr h Hpl m _ l p e _ _ Hs eq_refl eq_refl) as (_ & _ & Hb).
  destruct (Z.eqb_spec tp 0) as [->|Hne].
  - exists m. rewrite side_zero, Z.sub_0_r, Z.add_0_r, <- app_assoc by (done || lia).
    split; [done|]. split; [done|]. split; [|done]. intros k _ _. by rewrite Z.sub_0_r.
  - unfold side, room in *. destruct e; simpl in *; [lia| |done].
    apply grow_prev_ok; (done || lia).
Qed.

Lemma grow_ok m l p e s t d r x tp tn :
  hstate h m (l ++ (p, e) :: (s, Used) :: (t, d) :: r) → uchunk (s, Used) → e ≠ Loose → d ≠ Loose →
  tp mod 16 = 0 → tn mod 16 = 0 → 0 ≤ tp ≤ room p e → 0 ≤ tn ≤ room t d →
  x = mm_heapstart h + total l + p →
  ∃ m', mm_grow (set_mem h m) (x - p) x (x + s) s tp (room p e) tn (room t d) =
          Some (x - tp + 8, set_mem h m') ∧
    hstate h m' ((l ++ side p e tp) ++ (s + tp + tn, Used) :: side t d tn ++ r) ∧
    (∀ k, x + 8 ≤ k < x + s → k mod 4 = 0 → m' !! (k - tp) = m !! k) ∧
    (∀ k, user h (l ++ (p, e) :: (s, Used) :: (t, d) :: r) k → ¬ (x + 8 ≤ k < x + s) →
       m' !! k = m !! k).
Proof.
  intros Hs Hu He Hd Htp Htn Hp Hn Hx.
  destruct (grow_left m l p e s t d r x tp Hs Hu He Htp Hp Hx) as (m1 & Hgl & Hs1 & Hc1 & Hk1).
  destruct (hs_hdr h Hpl m _ l p e _ _ Hs eq_refl eq_refl) as (_ & _ & Hb).
  assert (Htot : total (l ++ side p e tp) = total l + p - tp) by (rewrite total_app, side_total by done; lia).
  destruct (hs_hdr h Hpl m1 _ _ (s + tp) Used _ _ Hs1 eq_refl eq_refl) as (_ & _ & Hb1).
  rewrite Htot in Hb1. pose proof Hu as [Hu1 Hu2]. simpl in Hb, Hb1, Hu1, Hu2.
  assert (Hu' : uchunk (s + tp, Used)) by (split; simpl; [lia|dlia]).
  unfold mm_grow. rewrite Hgl. cbn [mbind option_bind]. unfold SIZEOF_MM_ALLOCNODE.
  destruct (Z.eqb_spec tn 0) as [->|Hne]; cbn [mbind option_bind]; rewrite u32_small by lia.
  { exists m1. split; [done|]. rewrite Z.add_0_r.
    pose proof (wf_big _ (hs_wf _ _ _ Hs)) as [_ [_ [_ [Ht _]%Forall_cons]%Forall_cons]%Forall_cons]%Forall_app.
    unfold big8 in Ht. simpl in Ht. by rewrite (side_zero t d) by (done || lia). }
  unfold room in Hn. destruct d; simpl in Hn; [lia| |done].
  destruct (wf_split _ _ _ (hs_wf _ _ _ Hs1) Hu') as [_ Hr].
  destruct (wfr_head _ Hr) as (t' & d' & r1 & [= <- <- <-] & [(_ & _ & ?)|[Hut Hr1]]); [done|].
  destruct (wfr_head _ Hr1) as (u & d' & r2 & -> & _).
  destruct (grow_next_ok h Hpl m1 _ (s + tp) t u d' r2 (x - tp) tn Hs1 Hu') as (m2 & Hgn & Hs2 & Hk2);
    [done|lia|lia|].
  replace (x - tp + (s + tp)) with (x + s) in Hgn by lia. change (room t Free) with t.
  rewrite Hgn. cbn [mbind option_bind].
  exists m2. split; [done|]. split; [done|].
  assert (Hp0 : 0 < p) by lia. split; intros k Hk.
  - intros Hk4. rewrite <- (Hc1 k Hk Hk4). apply Hk2.
    apply (used_words m1); [done|done|]. rewrite Htot. lia.
  - intros Hk'. rewrite <- (Hk1 k Hk Hk'). apply Hk2. by apply user_side.
Qed.

(** ** The results, as blocks *)

(** The block [(p, n)] became [(p', n')] and kept its contents; the blocks [B] are as before. *)

Definition moved (cs' : list chunk) B (p n p' n' : Z) (m m' : gmap Z Z) : Prop :=
  heap_ok (set_mem h m') cs' ∧ blocks (mm_heapstart h) cs' ≡ₚ (p', n') :: B ∧
  (∀ i, 0 ≤ i < Z.min n n' → i mod 4 = 0 → m' !! (p' + i) = m !! (p + i)) ∧ same_words B m m'.

Lemma shrink_block cs B p n c :
  heap_ok h cs → blocks (mm_heapstart h) cs ≡ₚ (p, n) :: B → uchunk (c, Used) → c < n + 8 →
  ∃ m' cs', mm_shrinkchunk h (p - 8) c = Some (set_mem h m') ∧
    moved cs' B p n p (c - 8) (mem h) m'.
Proof.
  intros [_ Hs Hsz Hco Hset] HB Hc Hlt.
  assert (Hp : (p, n) ∈ blocks (mm_heapstart h) cs) by (rewrite HB; set_solver).
  apply blocks_split in Hp as (l & s & r & -> & Hs8 & -> & ->).
  pose proof (block_uchunk _ _ _ _ (hs_wf _ _ _ Hs) eq_refl Hs8) as Hu.
  destruct (coalesced_split _ _ _ Hco) as [Hcl Hcr].
  apply Forall_app in Hset as [Hsl [_ Hsr]%Forall_cons].
  destruct (shrink_ok h Hpl (mem h) l s c r (mm_heapstart h + total l)) as (m' & Hsh & Hs' & Hk);
    [done|done|done|lia|done..|].
  replace (set_mem h (mem h)) with h in Hsh by by destruct h.
  replace (mm_heapstart h + total l + 8 - 8) with (mm_heapstart h + total l) by lia.
  exists m', (l ++ (c, Used) :: merge ((s - c, Free) :: r)). split; [done|].
  destruct (merge_settled ((s - c, Free) :: r)) as (Hm1 & Hm2 & Hm3); [by constructor|].
  simpl in Hm3. assert (Hbl : blocks (mm_heapstart h) (l ++ (c, Used) :: (s - c, Free) :: r) ≡ₚ
    (mm_heapstart h + total l + 8, c - 8) :: B).
  { rewrite blocks_app in *. simpl in *. destruct Hc as [Hc _]. simpl in Hc.
    rewrite (proj2 (Z.eqb_neq s 8)) in HB by done. rewrite (proj2 (Z.eqb_neq c 8)) by lia. simpl in *.
    rewrite <- Permutation_middle in *. f_equiv. apply Permutation_cons_inv in HB.
    replace (mm_heapstart h + total l + c + (s - c)) with (mm_heapstart h + total l + s) by lia. done. }
  assert (Hku : ∀ q k w, (q, k) ∈ blocks (mm_heapstart h) (l ++ (c, Used) :: (s - c, Free) :: r) →
    q ≤ w < q + k → m' !! w = mem h !! w).
  { intros q k w Hq Hw. apply Hk. eapply block_user; [| |exact Hq|exact Hw].
    - destruct (wf_split _ _ _ (hs_wf _ _ _ Hs) Hu) as [Hwl Hwr].
      apply wf_app; [done|]. apply wfr_cons; [|done]. apply wfr_cons; [done|].
      destruct Hu, Hc. split; simpl in *; dlia.
    - pose proof (hs_end _ _ _ Hs) as He. rewrite total_app in *. simpl in *. lia. }
  split; [|split; [|split]].
  - apply heap_ok_set; [done..| | |].
    + rewrite Hsz, !total_app. simpl. unfold total in *. simpl in *. lia.
    + rewrite coalesced_mid, coalesced_snoc_used, coalesced_cons_used, Hcl. done.
    + apply Forall_app. split; [done|]. by constructor.
  - rewrite <- Hbl, !blocks_app. cbn [blocks]. by rewrite blocks_merge.
  - intros i Hi _. apply (Hku (mm_heapstart h + total l + 8) (c - 8)); [rewrite Hbl; set_solver|lia].
  - intros q k w Hq Hw. apply (Hku q k); [rewrite Hbl; set_solver|done].
Qed.

Lemma side_blocks a t d n : blocks a (side t d n) = blocks a [(t, d)].
Proof. unfold side, left_over. destruct d; simpl; [done|by case_if..]. Qed.

Lemma side_blocks_shift a t d n :
  0 ≤ n ≤ room t d → blocks (a + n) (side t d n) = blocks a [(t, d)].
Proof.
  intros Hn. rewrite side_blocks. unfold room in Hn. simpl. destruct (used d); [|done].
  by replace (a + n) with a by lia.
Qed.

(** The list of chunks after [tp] and [tn] bytes were taken from the neighbours. *)

Lemma grown_blocks l p e s t d r B a tp tn :
  e ≠ Loose → d ≠ Loose → 0 ≤ tp ≤ room p e → 0 ≤ tn ≤ room t d → 16 ≤ s →
  blocks a (l ++ (p, e) :: (s, Used) :: (t, d) :: r) ≡ₚ (a + total l + p + 8, s - 8) :: B →
  blocks a ((l ++ side p e tp) ++ (s + tp + tn, Used) :: side t d tn ++ r) ≡ₚ
    (a + total l + p - tp + 8, s + tp + tn - 8) :: B.
Proof.
  intros He Hd Htp Htn Hs HB.
  rewrite (blocks_app _ l), !(blocks_cons _ _ _ (_ :: _)), (blocks_cons _ t d r) in HB.
  rewrite (blocks_app _ (l ++ side p e tp)), (blocks_app _ l), (blocks_cons _ _ Used).
  rewrite (blocks_app _ (side t d tn)), !total_app, !side_total, side_blocks by done.
  rewrite !blocks_used in * by lia.
  replace (a + (total l + (p - tp)) + (s + tp + tn)) with (a + total l + p + s + tn) by lia.
  rewrite side_blocks_shift by done.
  replace (a + total l + p + s + tn + (t - tn)) with (a + total l + p + s + t) by lia.
  replace (a + (total l + (p - tp))) with (a + total l + p - tp) by lia.
  assert (Hmid : ∀ b (X Y W : list (Z * Z)), X ++ Y ++ [b] ++ W ≡ₚ b :: X ++ Y ++ W).
  { intros b X Y W. rewrite (app_assoc X Y ([b] ++ W)), (app_assoc X Y W). symmetry.
    apply Permutation_middle. }
  rewrite <- !app_assoc in *. rewrite Hmid in HB. rewrite Hmid. f_equiv.
  by apply Permutation_cons_inv in HB.
Qed.

Lemma side_settled t d n : d ≠ Loose → Forall settled (side t d n).
Proof. unfold side, left_over. intros Hd. destruct d; simpl; [by constructor| |done]. case_if; by repeat constructor. Qed.

Lemma side_coalesced_l l p e n :
  e ≠ Loose → coalesced (l ++ [(p, e)]) = true → coalesced (l ++ side p e n) = true.
Proof.
  intros He Hc. unfold side, left_over. destruct (used e) eqn:E; [done|].
  destruct (coalesced_split _ _ [] Hc) as [Hl _]. case_if; [|by rewrite app_nil_r].
  destruct e; [done| |done]. by rewrite (coalesced_snoc_size _ p).
Qed.

Lemma side_coalesced_r t d n r : coalesced ((t, d) :: r) = true → coalesced (side t d n ++ r) = true.
Proof.
  intros Hc. unfold side, left_over. destruct (used d) eqn:E; [done|].
  destruct (coalesced_split [] _ r Hc) as [_ Hr]. case_if; [|done]. by destruct d.
Qed.

Lemma room_mod l s b r :
  wf (l ++ (s, b) :: r) → 0 ≤ room s b ∧ room s b mod 16 = 0.
Proof.
  intros Hwf. unfold room. destruct b; simpl; [done|..];
    (destruct (wf_free _ _ _ _ Hwf) as [H1 H2]; [done|]; simpl in *; split; [lia|done]).
Qed.

Lemma grow_block l p e s t d r B c x :
  let cs := l ++ (p, e) :: (s, Used) :: (t, d) :: r in
  heap_ok h cs → uchunk (s, Used) → x = mm_heapstart h + total l + p →
  blocks (mm_heapstart h) cs ≡ₚ (x + 8, s - 8) :: B → c mod 16 = 0 →
  s < c → c ≤ room t d + room p e + s →
  ∃ tp tn m' cs', mm_take (c - s) (room p e) (room t d) = (tp, tn) ∧
    mm_grow h (x - p) x (x + s) s tp (room p e) tn (room t d) = Some (x - tp + 8, set_mem h m') ∧
    moved cs' B (x + 8) (s - 8) (x - tp + 8) (c - 8) (mem h) m'.
Proof.
  intros cs [_ Hs Hsz Hco Hset] Hu Hx HB Hc Hlt Hle. subst cs.
  assert (He : e ≠ Loose ∧ d ≠ Loose ∧ Forall settled l ∧ Forall settled r).
  { apply Forall_app in Hset as [? [? [_ [? ?]%Forall_cons]%Forall_cons]%Forall_cons]. done. }
  destruct He as (He & Hd & Hsl & Hsr).
  destruct (room_mod _ _ _ _ (hs_wf _ _ _ Hs)) as [Hrp Hrpm].
  destruct (room_mod (l ++ [(p, e); (s, Used)]) t d r) as [Hrt Hrtm];
    [rewrite <- app_assoc; apply (hs_wf _ _ _ Hs)|].
  destruct (hs_hdr h Hpl (mem h) _ l p e _ _ Hs eq_refl eq_refl) as (_ & _ & Hb). simpl in Hb.
  pose proof (wf_big _ (hs_wf _ _ _ Hs)) as [_ [_ [_ [Ht Hbr]%Forall_cons]%Forall_cons]%Forall_cons]%Forall_app.
  pose proof (big_total _ Hbr).
  unfold big8 in Ht. simpl in Ht. pose proof Hu as [Hu1 Hu2]. simpl in Hu1, Hu2.
  assert (Hrb : room p e ≤ p ∧ room t d ≤ t) by (unfold room; destruct (used e), (used d); lia).
  destruct (take_spec (c - s) (room p e) (room t d)) as (tp & tn & Htk & Hsum & Htp & Htn & Hmod); [lia..|].
  destruct Hmod as [Hm1 Hm2]; [by apply mod16_sub|done|done|].
  destruct (grow_ok (mem h) l p e s t d r x tp tn) as (m' & Hg & Hs' & Hcp & Hkk); [done..|].
  replace (set_mem h (mem h)) with h in Hg by by destruct h.
  exists tp, tn, m', ((l ++ side p e tp) ++ (s + tp + tn, Used) :: side t d tn ++ r).
  split; [done|]. split; [done|]. split; [|split; [|split]].
  - apply heap_ok_set; [done..| | |].
    + rewrite Hsz. rewrite !total_app, side_total by done. simpl.
      rewrite total_app, side_total by done. lia.
    + change ((p, e) :: (s, Used) :: (t, d) :: r) with ([(p, e)] ++ (s, Used) :: (t, d) :: r) in Hco.
      rewrite app_assoc in Hco. destruct (coalesced_split _ _ _ Hco) as [Hc1 Hc2].
      rewrite coalesced_mid, coalesced_snoc_used, coalesced_cons_used, side_coalesced_l by done.
      by apply side_coalesced_r.
    + repeat (apply Forall_app; split); auto using side_settled. constructor; [done|].
      apply Forall_app. auto using side_settled.
  - replace (c - 8) with (s + tp + tn - 8) by lia. rewrite Hx. apply grown_blocks; try done. by rewrite <- Hx.
  - intros i Hi Hi4. replace (x - tp + 8 + i) with (x + 8 + i - tp) by lia.
    apply Hcp; [lia|]. pose proof (used_align (mem h) (l ++ [(p, e)]) s ((t, d) :: r)) as Hal.
    rewrite <- app_assoc, total_app in Hal. specialize (Hal Hs Hu). simpl in Hal. dlia.
  - intros q k w Hq Hw. apply Hkk.
    + apply (block_user h _ q k); [apply (hs_wf _ _ _ Hs)|apply (hs_end _ _ _ Hs)|rewrite HB; set_solver|done].
    + destruct (blocks_apart _ _ B _ (s - 8) q k (wf_big _ (hs_wf _ _ _ Hs)) HB Hq); lia.
Qed.

(** ** [mm_realloc] *)

(** The free bytes on both sides of a chunk, as the code reads them. *)

Lemma neighbours cs l s r x :
  hstate h (mem h) cs → cs = l ++ (s, Used) :: r → uchunk (s, Used) → x = mm_heapstart h + total l →
  ∃ l0 p e t d r0 np pp, l = l0 ++ [(p, e)] ∧ r = (t, d) :: r0 ∧ psize 0 l = p ∧
    get (mem h) (x + s) preceding = Some np ∧
    (if allocated np then Some 0 else get (mem h) (x + s) size) = Some (room t d) ∧
    get (mem h) (x - p) preceding = Some pp ∧
    (if allocated pp then Some 0 else get (mem h) (x - p) size) = Some (room p e).
Proof.
  intros Hs Hcs Hu Hx. pose proof (hs_wf _ _ _ Hs) as Hwf. rewrite Hcs in Hwf.
  destruct (wf_split _ _ _ Hwf Hu) as [Hl Hr].
  destruct (wfl_last _ Hl) as (l0 & p & e & -> & _). destruct (wfr_head _ Hr) as (t & d & r0 & -> & _).
  rewrite total_app in Hx. simpl in Hx.
  destruct (hs_hdr h Hpl (mem h) cs l0 p e ((s, Used) :: (t, d) :: r0) (x - p) Hs) as (P1 & P2 & Hb);
    [by rewrite Hcs, <- app_assoc|lia|].
  destruct (hs_hdr h Hpl (mem h) cs ((l0 ++ [(p, e)]) ++ [(s, Used)]) t d r0 (x + s) Hs) as (T1 & T2 & Hbt);
    [by rewrite Hcs, <- !app_assoc|tiles|]. rewrite psize_snoc in *.
  rewrite !total_app in Hbt. simpl in Hb, Hbt.
  exists l0, p, e, t, d, r0, (prec_word s (used d)), (prec_word (psize 0 l0) (used e)).
  rewrite !get_fld, T1, T2, P1, P2, !allocated_prec by lia. unfold room.
  split_and!; try done; [by destruct (used d)|by destruct (used e)].
Qed.

Lemma realloc_up_cases cs B l s r x sz c defer :
  heap_ok h cs → cs = l ++ (s, Used) :: r → uchunk (s, Used) → x = mm_heapstart h + total l →
  blocks (mm_heapstart h) cs ≡ₚ (x + 8, s - 8) :: B → c mod 16 = 0 → s < c < 2 ^ 32 →
  let up := mm_realloc_up defer h (x + 8) sz x (prec_word (psize 0 l) true) s c in
  (∃ p' m' cs', up = Some (p', set_mem h m') ∧ moved cs' B (x + 8) (s - 8) p' (c - 8) (mem h) m') ∨
  up = mm_realloc_copy defer h (x + 8) s sz.
Proof.
  intros Hok Heq Hu Hx HB Hcm Hc. pose proof Hok as [_ Hs _ _ _].
  destruct (hs_hdr h Hpl (mem h) cs l s Used r x Hs Heq Hx) as (_ & _ & Hb).
  destruct (neighbours cs l s r x Hs Heq Hu Hx) as
    (l0 & p0 & e & t & d & r0 & np & pp & -> & -> & Hps & Hnp & Hnx & Hpp & Hpv).
  rewrite total_app in *. simpl in Hb, Hx. rewrite <- app_assoc in Heq. cbn [app] in Heq.
  pose proof (wf_big _ (hs_wf _ _ _ Hs)) as Hbig. rewrite Heq in Hbig.
  apply Forall_app in Hbig as [Hbl0 [Hbp [_ [Hbt Hbr]%Forall_cons]%Forall_cons]%Forall_cons].
  pose proof (big_total _ Hbl0). pose proof (big_total _ Hbr). unfold big8 in Hbp, Hbt. simpl in Hbp, Hbt.
  assert (Hrb : 0 ≤ room p0 e ≤ p0 ∧ 0 ≤ room t d ≤ t) by (unfold room; destruct (used e), (used d); lia).
  unfold mm_realloc_up. rewrite (u32_small (x + s)), Hnp by lia. cbn [mbind option_bind].
  rewrite Hnx. cbn [mbind option_bind].
  rewrite prec_size_prec, Hps, (u32_small (x - p0)), Hpp by lia. cbn [mbind option_bind].
  rewrite Hpv. cbn [mbind option_bind]. rewrite (u32_small (room t d + _ + _)) by lia.
  destruct (Z.leb_spec c (room t d + room p0 e + s)) as [Hin|Hout]; [left|by right].
  rewrite (u32_small (c - s)) by lia.
  destruct (grow_block l0 p0 e s t d r0 B c x) as (tp & tn & m' & cs' & -> & Hg & Hmv);
    [by rewrite <- Heq|done|lia|by rewrite <- Heq|done|lia|lia|].
  rewrite Hg. by exists (x - tp + 8), m', cs'.
Qed.

Lemma realloc_cases cs B p n sz defer :
  heap_ok h cs → blocks (mm_heapstart h) cs ≡ₚ (p, n) :: B → 1 ≤ sz → sz + 23 < 2 ^ 32 →
  (∃ p' n' m' cs', mm_realloc defer h p sz = Some (p', set_mem h m') ∧ sz ≤ n' ∧
     moved cs' B p n p' n' (mem h) m') ∨
  (n + 8 < chunk_size sz ∧ mm_realloc defer h p sz = mm_realloc_copy defer h p (n + 8) sz).
Proof.
  intros Hok HB H1 H2. destruct (chunk_size_spec sz H1 H2) as (Hcs & Hc16 & Hcm & Hc2).
  pose proof Hok as [_ Hs Hsz Hco Hset].
  assert (Hp : (p, n) ∈ blocks (mm_heapstart h) cs) by (rewrite HB; set_solver).
  destruct (block_first h _ _ _ _ Hpl Hs Hp) as [_ Hp0].
  destruct (block_align h _ _ _ _ Hpl Hs Hp) as (_ & _ & Hlo & Hhi).
  pose proof Hp as (l & s & r & Heq & Hs8 & Hpe & Hne)%blocks_split.
  pose proof (block_uchunk _ _ _ _ (hs_wf _ _ _ Hs) Heq Hs8) as Hu.
  destruct (hs_hdr h Hpl (mem h) cs l s Used r (p - 8) Hs Heq) as (X1 & X2 & Hb); [lia|].
  unfold mm_realloc. rewrite Hcs. unfold SIZEOF_MM_ALLOCNODE.
  rewrite (proj2 (Z.eqb_neq p NULL)) by (unfold NULL; lia).
  rewrite (proj2 (Z.ltb_ge sz 1)), (u32_small (p - 8)) by lia. mget X2.
  rewrite allocated_prec by lia. cbn [used DEBUGASSERT mbind option_bind].
  unfold mm_heapmember. rewrite !(proj2 (Z.ltb_lt _ _)) by lia. cbn [andb DEBUGASSERT mbind option_bind].
  mget X1. destruct (Z.leb_spec (chunk_size sz) s) as [Hle|Hgt].
  - left. destruct (Z.ltb_spec (chunk_size sz) s) as [Hlt|Hge].
    + destruct (shrink_block cs B p n (chunk_size sz) Hok HB) as (m' & cs' & -> & Hmv);
        [by split; simpl; lia|lia|]. cbn [mbind option_bind].
      exists p, (chunk_size sz - 8), m', cs'. split; [done|]. split; [lia|done].
    + cbn [mbind option_bind]. exists p, n, (mem h), cs. split; [by destruct h|]. split; [lia|].
      split; [by destruct h|]. split; [done|]. split; [done|]. by intros q k w.
  - destruct (realloc_up_cases cs B l s r (p - 8) sz (chunk_size sz) defer Hok Heq Hu) as [Hin|Hout];
      [lia|by rewrite Z.sub_add, <- Hne|done|lia| |]; rewrite Z.sub_add in *.
    + left. destruct Hin as (p' & m' & cs' & Hup & Hmv). exists p', (chunk_size sz - 8), m', cs'.
      split; [done|]. split; [lia|]. by rewrite <- Hne in Hmv.
    + right. split; [lia|]. by rewrite Hne, Z.sub_add.
Qed.

End Realloc.

(** ** Reallocation of a block *)

(** The first bytes of the blocks at [p] and [p']. *)

Definition same_contents (p p' n : Z) m m' : Prop :=
  ∀ i, 0 ≤ i < n → i mod 4 = 0 → m' !! (p' + i) = m !! (p + i).

Lemma realloc_place_view h B p n B' sz p' n' m' cs cs' Bd :
  heap_ok h cs → delayed (mem h) (mm_delaylist h) Bd → blocks (mm_heapstart h) cs ≡ₚ Bd ++ B →
  B ≡ₚ (p, n) :: B' → moved h cs' (Bd ++ B') p n p' n' (mem h) m' → 1 ≤ sz ≤ n' →
  heap_view (set_mem h m') ((p', n') :: B') ∧
  granted (mm_heapstart h) (mm_heapend h) B' sz p' n' ∧
  same_contents p p' (Z.min n n') (mem h) m' ∧ same_words B' (mem h) m'.
Proof.
  intros Hok Hd HB HB' (Hok' & HB2 & Hcp & Hw) Hsz.
  rewrite HB', <- Permutation_middle in HB. pose proof Hok as [Hpl Hs _ _ _].
  pose proof Hok' as [Hpl' Hs' _ _ _].
  assert (Hv : heap_view (set_mem h m') ((p', n') :: B')).
  { exists cs', Bd. split; [done|]. split; [|simpl; by rewrite HB2, Permutation_middle].
    simpl. eapply delayed_frame; [|done]. intros d k Hdk. apply (Hw d k d); [set_solver|].
    assert (Hin : (d, k) ∈ blocks (mm_heapstart h) cs) by (rewrite HB; set_solver).
    destruct (block_align h _ _ _ _ Hpl Hs Hin) as (_ & ? & _). lia. }
  split; [done|]. split; [|split; [done|]].
  - destruct (view_block _ _ p' n' Hv) as (Hal & _ & _ & _ & Hlo & Hhi & _); [set_solver|]. simpl in *.
    constructor; [done|done|lia|]. intros q k. by apply (view_apart _ _ _ _ B' q k Hv).
  - eapply same_words_sub; [|exact Hw]. set_solver.
Qed.

(** The words that [mm_realloc] copies: those of the block, and the next header. *)

Lemma old_words h B p n k :
  heap_view h B → (p, n) ∈ B → p ≤ k < p + n + 8 → k mod 4 = 0 → is_Some (mem h !! k).
Proof.
  intros (cs & Bd & [Hpl Hs _ _ _] & _ & HB) Hp Hk Hk4.
  assert (Hin : (p, n) ∈ blocks (mm_heapstart h) cs) by (rewrite HB; set_solver).
  destruct (block_align h _ _ _ _ Hpl Hs Hin) as (Hp16 & Hn & Hlo & Hhi).
  destruct (decide (k < mm_heapend h)); [apply (region_word h); [done|apply Hs|done|lia]|].
  assert (Hend : k = mm_heapend h + offset size ∨ k = mm_heapend h + offset preceding).
  { pose proof (pl_end h Hpl). pose proof (pl_align h Hpl). simpl. dlia. }
  assert (is_node h (mm_heapend h)).
  { left. unfold caddr. pose proof (pl_end h Hpl). pose proof (pl_order h Hpl). lia. }
  destruct Hend as [->| ->]; apply (hs_words _ _ _ Hs); auto.
Qed.

Lemma copy_view h B p n q k B' :
  heap_view h B → B ≡ₚ (q, k) :: (p, n) :: B' → n + 16 ≤ k →
  ∃ m', copy_words (Z.to_nat ((n + 8) / 4)) (mem h) q p = Some m' ∧
    heap_view (set_mem h m') B ∧ same_words B' (mem h) m' ∧ same_contents p q n (mem h) m'.
Proof.
  intros Hv HB Hk. destruct (view_block h B p n Hv) as (Hp16 & Hn16 & Hn8 & H0 & Hp & _); [rewrite HB; set_solver|].
  destruct (view_block h B q k Hv) as (Hq16 & _ & _ & _ & Hq & _); [rewrite HB; set_solver|].
  pose proof (view_apart h B q k ((p, n) :: B') p n Hv HB) as Hap. specialize (Hap ltac:(set_solver)).
  assert (Hap' : q < p ∨ p + (n + 8) ≤ q) by dlia.
  assert (Hlen : 4 * Z.of_nat (Z.to_nat ((n + 8) / 4)) = n + 8) by dlia.
  destruct (copy_words_spec (Z.to_nat ((n + 8) / 4)) (mem h) q p) as (m' & Hc & Hin & _); [lia..| |].
  { intros i Hi. split.
    - eapply (old_words h B p n); [done|rewrite HB; set_solver|lia|dlia].
    - eapply (old_words h B q k); [done|rewrite HB; set_solver|lia|dlia]. }
  exists m'. split; [done|].
  destruct (stores_view h B q k ((p, n) :: B') m' Hv HB) as [Hv' Hw].
  { eapply stores_copy, Hc. intros i Hi. lia. }
  split; [done|]. split; [eapply same_words_sub, Hw; set_solver|].
  intros i Hi Hi4. specialize (Hin (i / 4)). replace (4 * (i / 4)) with i in Hin by dlia.
  apply Hin. dlia.
Qed.

Lemma same_contents_words p n q k m m' m1 m2 :
  same_contents p q n m m' → n ≤ k → same_words [(p, n)] m1 m → same_words [(q, k)] m' m2 →
  same_contents p q n m1 m2.
Proof.
  intros Hc Hk H1 H2 i Hi Hi4. rewrite (H2 q k) by (set_solver || lia). rewrite Hc by done.
  apply (H1 p n); [set_solver|lia].
Qed.

(** What [mm_realloc] promises to the owner of [(p, n)], next to the blocks [B']: a block
    with the old contents; or none and the old one is kept, if it is too small and
    [mm_malloc] has no other. *)

Definition resized (h h' : mm_heap_s) (p n : Z) B' (sz res : Z) : Prop :=
  same_words B' (mem h) (mem h') ∧ same_geometry h h' ∧
  ((res = NULL ∧ n + 8 < chunk_size sz ∧ mm_malloc false h sz = Some (NULL, h') ∧
      heap_view h' ((p, n) :: B') ∧ same_words [(p, n)] (mem h) (mem h')) ∨
   (res ≠ NULL ∧ ∃ n', granted (mm_heapstart h) (mm_heapend h) B' sz res n' ∧
      heap_view h' ((res, n') :: B') ∧ same_contents p res (Z.min n n') (mem h) (mem h'))).

Lemma realloc_copy_view h p n B' sz :
  heap_view h ((p, n) :: B') → 1 ≤ sz → sz + 23 < 2 ^ 32 → n + 8 < chunk_size sz →
  ∃ res h', mm_realloc_copy false h p (n + 8) sz = Some (res, h') ∧ resized h h' p n B' sz res.
Proof.
  intros Hv H1 H2 Hlt.
  unfold mm_realloc_copy. destruct (chunk_size_spec sz H1 H2) as (_ & _ & Hcm & _).
  destruct (malloc_view h _ sz Hv) as (q & h1 & Hm & Hw1 & [Hg1 Hg2] & Hdl & Hr); [lia|done|].
  rewrite Hm.
  cbn [mbind option_bind]. destruct Hr as [[-> Hv1]|(Hq0 & k & Hgr & Hv1)].
  { exists NULL, h1. split; [done|]. split; [eapply same_words_sub, Hw1; set_solver|].
    split; [done|]. left. split_and!; try done. eapply same_words_sub, Hw1. set_solver. }
  rewrite (proj2 (Z.eqb_neq q NULL)) by done.
  assert (Hk : n + 16 ≤ k).
  { destruct (view_block _ _ q k Hv1) as (_ & Hk16 & _); [set_solver|].
    destruct (view_block _ _ p n Hv) as (_ & Hn16 & _); [set_solver|].
    destruct (gr_size _ _ _ _ _ _ Hgr). unfold chunk_size in *. dlia. }
  destruct (copy_view h1 _ p n q k B' Hv1) as (m2 & -> & Hv2 & Hw2 & Hc2); [done..|]. cbn [mbind option_bind].
  destruct (release_view (set_mem h1 m2) _ false p n ((q, k) :: B') Hv2) as (h3 & -> & Hv3 & Hw3 & [Hg3 Hg4]);
    [apply perm_swap|].
  simpl in *. exists q, h3. split; [done|]. split; [|split; [split; congruence|]].
  - eapply same_words_trans; [eapply same_words_sub, Hw1; set_solver|].
    eapply same_words_trans; [exact Hw2|]. eapply same_words_sub, Hw3. set_solver.
  - right. split; [done|]. exists k. destruct Hgr as [G1 G2 G3 G4]. split; [constructor; try done|].
    + intros q' k' Hq'. apply G4. set_solver.
    + split; [done|]. rewrite Z.min_l by lia.
      apply (same_contents_words p n q k (mem h1) m2); [done|lia|eapply same_words_sub, Hw1|eapply same_words_sub, Hw3];
        set_solver.
Qed.

Lemma realloc_view h p n B' sz :
  heap_view h ((p, n) :: B') → 1 ≤ sz → sz + 23 < 2 ^ 32 →
  ∃ res h', mm_realloc false h p sz = Some (res, h') ∧ resized h h' p n B' sz res.
Proof.
  intros Hv H1 H2. pose proof Hv as (cs & Bd & Hok & Hd & HB). pose proof (ho_place _ _ Hok) as Hpl.
  pose proof HB as HB2. rewrite <- Permutation_middle in HB2.
  destruct (realloc_cases h Hpl cs (Bd ++ B') p n sz false Hok HB2 H1 H2)
    as [(p' & n' & m' & cs' & -> & Hn' & Hmv)|[Hlt ->]]; [|by apply realloc_copy_view].
  destruct (realloc_place_view h ((p, n) :: B') p n B' sz p' n' m' cs cs' Bd) as (Hv' & Hg & Hc & Hw); [done..|lia|].
  exists p', (set_mem h m'). split; [done|]. split; [done|]. split; [done|]. right. split; [|by exists n'].
  destruct Hg. pose proof (pl_start h Hpl). unfold NULL. lia.
Qed.

End MmRealloc.
