(* ===== verification/MmZalloc.v ===== *)
(** * Cleared memory

    [mm_zalloc] and [mm_calloc]: the bytes of the new block are zero, and the product
    of the two arguments of [mm_calloc] does not overflow. *)

From S2P Require Import Prelude MmHeap MmList MmLayout MmState MmFree MmMalloc MmInit MmBlocks MmClient.

Module MmZalloc.
Import MmHeap MmList MmLayout MmState MmFree MmMalloc MmInit MmBlocks MmClient.

Implicit Types (m : gmap Z Z) (B : list (Z * Z)).

(** ** Bytes *)

(** The byte at [a]; a word holds four of them, the first one lowest. *)

Definition byte_of m (a : Z) : option Z :=
  w ← m !! (4 * (a / 4)); Some (Z.land (Z.shiftr w (8 * (a mod 4))) 255).

Lemma low_byte_zero w r j :
  0 ≤ j < r → Z.land (Z.shiftr (Z.shiftl (Z.shiftr w (8 * r)) (8 * r)) (8 * j)) 255 = 0.
Proof.
  intros Hj. change 255 with (Z.ones 8). apply Z.bits_inj'. intros i Hi.
  rewrite Z.land_spec, Z.shiftr_spec, Z.bits_0 by lia. destruct (decide (i < 8)).
  - rewrite Z.shiftl_spec_low by lia. done.
  - rewrite Z.ones_spec_high by lia. apply andb_false_r.
Qed.

Lemma memset0_spec m p n :
  0 < p → p mod 4 = 0 → 0 ≤ n → (∀ k, p ≤ k < p + n → k mod 4 = 0 → is_Some (m !! k)) →
  ∃ m', memset0 m p n = Some m' ∧ stores (λ k, p ≤ k < p + n) m m' ∧
    (∀ i, 0 ≤ i < n → byte_of m' (p + i) = Some 0).
Proof.
  intros Hp Hp4 Hn Hw. unfold memset0.
  destruct (clear_spec (Z.to_nat (n / 4)) m p Hp) as (m1 & Hc & Hz & Hf).
  { intros k [Hk1 Hk2]. apply Hw; dlia. }
  assert (Hst : stores (λ k, p ≤ k < p + n) m m1) by (eapply stores_clear, Hc; intros i Hi; dlia).
  assert (Hlow : ∀ i, 0 ≤ i < 4 * (n / 4) → m1 !! (4 * ((p + i) / 4)) = Some 0).
  { intros i Hi. apply Hz. split; [dlia|]. dlia. }
  rewrite Hc. cbn [mbind option_bind]. destruct (Z.eqb_spec (n mod 4) 0) as [Hr|Hr].
  - exists m1. split; [done|]. split; [done|]. intros i Hi. unfold byte_of. rewrite Hlow by dlia.
    cbn [mbind option_bind]. by rewrite Z.shiftr_0_l.
  - remember (p + 4 * (n / 4)) as a eqn:Ha. destruct (Hw a) as [w Hwa]; [dlia..|].
    unfold set_word, word, NULL. rewrite (proj2 (Z.eqb_neq a 0)) by dlia.
    rewrite Hf, Hwa by (unfold in_words; dlia). cbn [mbind option_bind].
    eexists. split; [reflexivity|]. split.
    + etrans; [exact Hst|]. apply rtc_once. eexists _, _. split; [|reflexivity]. dlia.
    + intros i Hi. unfold byte_of. destruct (decide (i < 4 * (n / 4))).
      * rewrite lookup_insert_ne, Hlow by dlia. cbn [mbind option_bind]. by rewrite Z.shiftr_0_l.
      * replace (4 * ((p + i) / 4)) with a by dlia. rewrite lookup_insert_eq. cbn [mbind option_bind].
        f_equal. apply low_byte_zero. dlia.
Qed.

(** ** Allocation of cleared memory *)

Definition zeroed m (p n : Z) : Prop := ∀ i, 0 ≤ i < n → byte_of m (p + i) = Some 0.

Lemma zalloc_view h B sz :
  heap_view h B → 0 ≤ sz → sz + 23 < 2 ^ 32 →
  ∃ res h', mm_zalloc false h sz = Some (res, h') ∧ same_words B (mem h) (mem h') ∧
    same_geometry h h' ∧
    ((res = NULL ∧ heap_view h' B ∧ mm_malloc false h sz = Some (NULL, h')) ∨
     (res ≠ NULL ∧ ∃ n, granted (mm_heapstart h) (mm_heapend h) B sz res n ∧
        heap_view h' ((res, n) :: B) ∧ zeroed (mem h') res sz)).
Proof.
  intros Hv H0 H1. unfold mm_zalloc.
  destruct (malloc_view h B sz Hv H0 H1) as (p & h1 & Hm & Hw & Hg & _ & Hr).
  rewrite Hm. cbn [mbind option_bind].
  destruct Hr as [[-> Hv1]|(Hp & n & Hgr & Hv1)].
  { exists NULL, h1. split_and!; try done. by left. }
  rewrite (proj2 (Z.eqb_neq p NULL)) by done. pose proof Hgr as [[_ Hn] Hp16 _ _].
  destruct (view_block h1 _ p n Hv1) as (_ & _ & _ & Hh & Hlo & Hhi & _); [set_solver|].
  destruct (memset0_spec (mem h1) p sz) as (m' & -> & Hst & Hz); [lia|dlia|lia| |].
  { destruct Hv1 as (cs & Bd & [Hpl Hs _ _ _] & _). intros k Hk Hk4.
    apply (region_word h1); [done|apply (hs_words _ _ _ Hs)|done|lia]. }
  cbn [mbind option_bind]. exists p, (set_mem h1 m'). split; [done|].
  assert (Hst' : stores (λ k, p ≤ k < p + n) (mem h1) m').
  { eapply rtc_subrel, Hst. intros x y (k & v & Hk & ->). exists k, v. split; [lia|done]. }
  destruct (stores_view h1 _ p n B m' Hv1) as [Hv2 Hw2]; [done..|].
  split; [by eapply same_words_trans|]. split; [done|]. right. split; [done|]. by exists n.
Qed.

Lemma calloc_view h B n sz :
  heap_view h B → 0 ≤ n < 2 ^ 32 → 0 ≤ sz < 2 ^ 32 → n * sz + 23 < 2 ^ 32 ∨ 2 ^ 32 ≤ n * sz →
  ∃ res h', mm_calloc false h n sz = Some (res, h') ∧ same_words B (mem h) (mem h') ∧
    same_geometry h h' ∧
    ((res = NULL ∧ heap_view h' B ∧
       (2 ^ 32 ≤ n * sz ∨ ∃ h1, mm_malloc false h (n * sz) = Some (NULL, h1))) ∨
     (res ≠ NULL ∧ n * sz < 2 ^ 32 ∧ ∃ k, granted (mm_heapstart h) (mm_heapend h) B (n * sz) res k ∧
        heap_view h' ((res, k) :: B) ∧ zeroed (mem h') res (n * sz))).
Proof.
  intros Hv Hn Hsz Hov. unfold mm_calloc.
  destruct (decide (0 < n ∧ 0 < sz)) as [[Hn0 Hsz0]|Hz].
  2: { destruct (malloc_view h B 0 Hv) as (p & h1 & Hm & _ & _ & _ & Hr); [lia|done|].
       destruct Hr as [[-> _]|(_ & ? & [] & _)]; [|lia].
       replace (n * sz) with 0 by nia. exists NULL, h. split; [|split; [done|split; [done|]]].
       - by destruct (Z.ltb_spec 0 n), (Z.ltb_spec 0 sz); try lia.
       - left. split; [done|]. split; [done|]. right. by exists h1. }
  rewrite !(proj2 (Z.ltb_lt _ _)) by done. cbn [andb].
  unfold SIZE_MAX. destruct (Z.leb_spec n ((2 ^ 32 - 1) / sz)) as [Hle|Hgt].
  - assert (Hlt : n * sz < 2 ^ 32).
    { assert (sz * ((2 ^ 32 - 1) / sz) ≤ 2 ^ 32 - 1) by (apply Z.mul_div_le; lia). nia. }
    rewrite u32_small by nia.
    destruct (zalloc_view h B (n * sz) Hv) as (res & h' & -> & Hw & Hg & Hr); [nia|lia|].
    exists res, h'. split_and!; try done. destruct Hr as [(? & ? & ?)|(? & k & ?)]; [left|right].
    + split; [done|]. split; [done|]. right. by exists h'.
    + split; [done|]. split; [done|]. by exists k.
  - exists NULL, h. split_and!; try done. left. split; [done|]. split; [done|]. left.
    assert (2 ^ 32 - 1 < sz * ((2 ^ 32 - 1) / sz + 1)) by (pose proof (Z.mod_pos_bound (2 ^ 32 - 1) sz); pose proof (Z.div_mod (2 ^ 32 - 1) sz); lia).
    nia.
Qed.

End MmZalloc.
