(* ===== verification/MmMemalign.v ===== *)
(** * Aligned allocation

    [mm_memalign] allocates with room for the alignment, gives the front of the chunk
    back up to the aligned address, and then its end. *)

From S2P Require Import Prelude MmHeap MmList MmLayout MmState MmFree MmMalloc MmBlocks MmClient MmResize MmRealloc.

Module MmMemalign.
Import MmHeap MmList MmLayout MmState MmFree MmMalloc MmBlocks MmClient MmResize MmRealloc.

Implicit Types (cs l r : list chunk) (m : gmap Z Z) (B : list (Z * Z)).

(** The least multiple of the alignment that is not less. *)

Lemma alignchunk_spec raw j :
  0 ≤ j ≤ 31 → 0 ≤ raw → raw + 2 ^ j ≤ 2 ^ 32 →
  ∃ a, mm_alignchunk raw (u32 (2 ^ j - 1)) = raw + a ∧ 0 ≤ a < 2 ^ j ∧ (raw + a) mod 2 ^ j = 0.
Proof.
  intros Hj H0 H1. assert (Hp : 0 < 2 ^ j) by lia.
  assert (Hj' : 2 ^ j ≤ 2 ^ 31) by (apply Z.pow_le_mono_r; lia).
  exists (2 ^ j * ((raw + (2 ^ j - 1)) / 2 ^ j) - raw). unfold mm_alignchunk.
  rewrite (u32_small (2 ^ j - 1)), u32_small by lia.
  replace (2 ^ j - 1) with (Z.ones j) at 2 by (rewrite Z.ones_equiv; lia).
  rewrite Z.ldiff_ones_r, Z.shiftl_mul_pow2, Z.shiftr_div_pow2 by lia.
  pose proof (Z.div_mod (raw + (2 ^ j - 1)) (2 ^ j)). pose proof (Z.mod_pos_bound (raw + (2 ^ j - 1)) (2 ^ j)).
  split; [lia|]. split; [lia|]. replace (raw + _) with (((raw + (2 ^ j - 1)) / 2 ^ j) * 2 ^ j) by lia.
  apply Z.mod_mul. lia.
Qed.

Section Cut.

Context (h : mm_heap_s) (Hpl : place h).

(** The memory after the headers of the two chunks are written. *)

Definition cut_mem m (x s a : Z) (p : Z) (d : cstate) : gmap Z Z :=
  upd (upd (upd (upd (upd m (x + a) size (s - a)) (x + a) preceding (prec_word a true)) x size a)
    x preceding (prec_word p false)) (x + s) preceding (prec_word (s - a) (used d)).

Lemma cut_front_state m l s a u d r x :
  hstate h m (l ++ (s, Used) :: (u, d) :: r) → uchunk (s, Used) →
  16 ≤ a → a + 16 ≤ s → a mod 16 = 0 → x = mm_heapstart h + total l →
  let m' := cut_mem m x s a (psize 0 l) d in
  ∃ m2, mm_addfreechunk (set_mem h m') x = Some (set_mem h m2) ∧
    fld m' (x + a) size = Some (s - a) ∧
    hstate h m2 (l ++ (a, Free) :: (s - a, Used) :: (u, d) :: r) ∧
    keeps h (l ++ (a, Free) :: (s - a, Used) :: (u, d) :: r) m m2.
Proof.
  intros Hs Hu Ha1 Ha2 Ha3 Hx m'. destruct (wf_split _ _ _ (hs_wf _ _ _ Hs) Hu) as [Hl Hr].
  destruct (hs_hdr h Hpl m _ l s Used ((u, d) :: r) x Hs) as (_ & _ & Hb); [done..|]. simpl in Hb.
  pose proof Hu as [_ Hu2]. simpl in Hu2.
  destruct (st_flip h Hpl m l s Used Loose ((u, d) :: r) Hs Hu) as [Hs1 Hk1]; [done..|].
  rewrite <- Hx in *. simpl used in *. set (m1 := upd m x preceding (prec_word (psize 0 l) false)) in *.
  destruct (st_cut h Hpl m1 m' l s Loose [] a (s - a) Used u d r) as [Hs2 Hk2]; try done;
    rewrite <- ?Hx; try (unfold m', cut_mem; by fields).
  - by repeat constructor.
  - split; simpl; dlia.
  - simpl. lia.
  - unfold m', cut_mem. pose proof (hs_words _ _ _ Hs). eauto 10 using words_upd.
  - intros k K1 K2 K3 K4. unfold m', cut_mem, m1, upd. simpl. rewrite lookup_insert_ne by lia.
    destruct (decide (k = x + 4)) as [->|]; [by rewrite !lookup_insert_eq|].
    by rewrite !lookup_insert_ne by lia.
  - unfold m', cut_mem. replace (x + a + (s - a)) with (x + s) by lia. by fields.
  - destruct (st_list h Hpl m' l a ((s - a, Used) :: (u, d) :: r) Hs2) as (m2 & Hadd & Hs3 & Hk3).
    rewrite <- Hx in Hadd. exists m2. split; [done|]. split; [unfold m', cut_mem; by fields|].
    split; [done|]. intros k Hk.
    assert (Hk' : user h (l ++ (a, Loose) :: (s - a, Used) :: (u, d) :: r) k)
      by by apply (user_relabel h l a Free Loose).
    rewrite (Hk3 k), (Hk2 k) by done. destruct Hk' as [_ [_ (Hq & _)]%quiet_app]. rewrite <- Hx in Hq.
    unfold m1, upd. simpl in *. apply lookup_insert_ne. lia.
Qed.

Lemma cut_front_ok l s r a x alignment :
  heap_ok h (l ++ (s, Used) :: r) → uchunk (s, Used) → ends_used l →
  16 ≤ a → a + 16 ≤ s → a mod 16 = 0 → x = mm_heapstart h + total l →
  ∃ m', mm_cut_front h (x + 8) alignment x (x + 8 + a) =
      Some (x + 8 + a, x + a, s - a - 8, set_mem h m') ∧
    heap_ok (set_mem h m') (l ++ (a, Free) :: (s - a, Used) :: r) ∧
    keeps h (l ++ (a, Free) :: (s - a, Used) :: r) (mem h) m'.
Proof.
  intros [_ Hs Hsz Hco Hset] Hu Hl Ha1 Ha2 Ha3 Hx.
  destruct (wf_split _ _ _ (hs_wf _ _ _ Hs) Hu) as [Hwl Hwr].
  destruct (wfr_head _ Hwr) as (u & d & r' & -> & _).
  destruct (cut_front_state (mem h) l s a u d r' x) as (m2 & Hadd & Hns & Hs2 & Hk2); [done..|].
  destruct (hs_hdr h Hpl (mem h) _ l s Used ((u, d) :: r') x Hs) as (X1 & X2 & Hb); [done..|].
  destruct (hs_hdr h Hpl (mem h) _ (l ++ [(s, Used)]) u d r' (x + s) Hs) as (_ & U & Hbu); [tiles..|].
  rewrite psize_snoc in U. rewrite total_app in Hbu. simpl in Hb, Hbu.
  pose proof (hs_words _ _ _ Hs) as Hw. unfold cut_mem in *.
  exists m2. split; [|split; [|done]].
  - unfold mm_cut_front, SIZEOF_MM_ALLOCNODE. change SIZEOF_MM_FREENODE with 16. mget X1.
    rewrite (u32_small (x + 8 + 8)), (proj2 (Z.leb_le (x + 8 + 8) _)) by lia.
    cbn [DEBUGASSERT mbind option_bind]. rewrite (u32_small (x + 8 + a - 8)) by lia.
    replace (x + 8 + a - 8) with (x + a) by lia. replace (x + a - x) with a by lia.
    rewrite (u32_small a), (proj2 (Z.ltb_ge a 16)) by lia.
    rewrite (u32_small (x + s)) by lia. replace (x + s - (x + a)) with (s - a) by lia.
    rewrite (u32_small (s - a)) by lia.
    lazy beta iota zeta. rewrite (new_header h Hpl (mem h) _ l [(s, Used)] ((u, d) :: r')) by (done || simpl; lia). cbn [mbind option_bind].
    rewrite (new_header h Hpl (mem h) _ l [(s, Used)] ((u, d) :: r')) by (eauto using words_upd || simpl; lia).
    cbn [mbind option_bind]. rewrite put_upd by (lia || (fields; eauto)). cbn [mbind option_bind].
    rewrite get_fld by lia. fields. rewrite X2. cbn [mbind option_bind].
    rewrite put_upd by (lia || (fields; eauto)). cbn [mbind option_bind].
    rewrite get_fld by lia. fields. cbn [mbind option_bind].
    rewrite (setprec_fld _ _ s (used d)) by (lia || by fields). cbn [mbind option_bind].
    rewrite get_fld by lia. fields. cbn [mbind option_bind].
    rewrite prec_size_prec by lia. rewrite prec_word_free in Hadd. change (Z.lor a MM_ALLOC_BIT) with (prec_word a true).
    rewrite Hadd. cbn [mbind option_bind]. by rewrite u32_small by lia.
  - apply coalesced_split in Hco as Hco2. destruct Hco2 as [Hcl Hcr].
    apply heap_ok_set; [done|done| | |].
    + rewrite Hsz, !total_app. simpl. lia.
    + apply coalesced_around; [done| |done|by rewrite coalesced_cons_used]. by exists (s - a), ((u, d) :: r').
    + apply Forall_app in Hset as [? [_ ?]%Forall_cons]. apply Forall_app. split; [done|]. constructor; [done|]. by constructor.
Qed.

(** On blocks: the block begins later, and a free chunk is before it. *)

Lemma cut_block cs p n B a alignment :
  heap_ok h cs → blocks (mm_heapstart h) cs ≡ₚ (p, n) :: B → fresh_at h cs p n →
  16 ≤ a → a + 8 ≤ n → a mod 16 = 0 →
  ∃ m' cs', mm_cut_front h p alignment (p - 8) (p + a) =
      Some (p + a, p + a - 8, n - a, set_mem h m') ∧
    heap_ok (set_mem h m') cs' ∧ blocks (mm_heapstart h) cs' ≡ₚ (p + a, n - a) :: B ∧
    same_words B (mem h) m'.
Proof.
  intros Hok HB (l & r & -> & Hl & ->) Ha1 Ha2 Ha3. pose proof Hok as [_ Hs _ _ _].
  pose proof (block_uchunk _ _ _ _ (hs_wf _ _ _ Hs) eq_refl ltac:(lia)) as Hu.
  destruct (cut_front_ok l (n + 8) r a (mm_heapstart h + total l) alignment)
    as (m' & Hc & Hok' & Hk); [done..|lia|done|done|].
  assert (HB' : blocks (mm_heapstart h) (l ++ (a, Free) :: (n + 8 - a, Used) :: r) ≡ₚ
    (mm_heapstart h + total l + 8 + a, n - a) :: B).
  { rewrite blocks_app in *. simpl in *. rewrite (proj2 (Z.eqb_neq (n + 8) 8)) in HB by lia.
    rewrite (proj2 (Z.eqb_neq (n + 8 - a) 8)) by lia. simpl in *. rewrite <- Permutation_middle in HB.
    rewrite Z.add_simpl_r in HB. apply Permutation_cons_inv in HB. rewrite <- HB, <- Permutation_middle.
    replace (mm_heapstart h + total l + a + (n + 8 - a)) with (mm_heapstart h + total l + (n + 8)) by lia.
    f_equiv. f_equal; lia. }
  exists m', (l ++ (a, Free) :: (n + 8 - a, Used) :: r). split; [|split; [done|split; [done|]]].
  - replace (mm_heapstart h + total l + 8 - 8) with (mm_heapstart h + total l) by lia. rewrite Hc.
    do 2 f_equal. f_equal; [f_equal|]; lia.
  - intros q k w Hq Hw. apply Hk. destruct Hok' as [_ Hs' _ _ _].
    eapply block_user; [apply (hs_wf _ _ _ Hs')|apply (hs_end _ _ _ Hs')| |exact Hw].
    simpl. rewrite HB'. set_solver.
Qed.

End Cut.

(** The end of the aligned chunk is given back. *)

Lemma tail_view h cs B q k sz c :
  heap_ok h cs → blocks (mm_heapstart h) cs ≡ₚ (q, k) :: B → mm_delaylist h = NULL →
  1 ≤ sz ≤ c - 8 → c mod 16 = 0 → c < k + 8 →
  ∃ m', mm_shrinkchunk h (q - 8) c = Some (set_mem h m') ∧ same_words B (mem h) m' ∧
    granted (mm_heapstart h) (mm_heapend h) B sz q (c - 8) ∧ heap_view (set_mem h m') ((q, c - 8) :: B).
Proof.
  intros Hok HB Hd Hsz Hc Hlt. pose proof (ho_place _ _ Hok) as Hpl.
  destruct (shrink_block h Hpl cs B q k c Hok HB) as (m' & cs' & Hsh & Hmv); [split; simpl; dlia|done|].
  destruct (realloc_place_view h ((q, k) :: B) q k B sz q (c - 8) m' cs cs' []) as (Hv & Hg & _ & Hw);
    [done|by rewrite Hd|done|done|done|lia|].
  by exists m'.
Qed.

(** Where the aligned block begins in the block [(p, n)]: at its start, or after a cut. *)

Lemma front_view h cs p n B j sz :
  heap_ok h cs → blocks (mm_heapstart h) cs ≡ₚ (p, n) :: B → fresh_at h cs p n → mm_delaylist h = NULL →
  5 ≤ j ≤ 30 → p mod 16 = 0 → 0 < p → p + n < 2 ^ 32 → 0 ≤ sz → sz + 2 * 2 ^ j ≤ n →
  ∃ q k asz m' cs',
    (if negb (mm_alignchunk p (u32 (2 ^ j - 1)) =? p) then
       mm_cut_front h p (2 ^ j) (p - 8) (mm_alignchunk p (u32 (2 ^ j - 1)))
     else Some (mm_alignchunk p (u32 (2 ^ j - 1)), p - 8, sz + 2 * 2 ^ j, h)) =
      Some (q, q - 8, asz, set_mem h m') ∧
    q mod 2 ^ j = 0 ∧ sz + 2 ^ j ≤ asz ∧ asz ≤ k ∧
    heap_ok (set_mem h m') cs' ∧ blocks (mm_heapstart h) cs' ≡ₚ (q, k) :: B ∧ same_words B (mem h) m'.
Proof.
  intros Hok HB Hfr Hd Hj Hp Hp0 Hpn Hsz Hn. pose proof (ho_place _ _ Hok) as Hpl.
  assert (H32 : 2 ^ 5 ≤ 2 ^ j) by (apply Z.pow_le_mono_r; lia).
  destruct (alignchunk_spec p j) as (a & -> & Ha & Hpa); [lia..|].
  destruct (Z.eqb_spec (p + a) p) as [He|Hne]; cbn [negb].
  - assert (a = 0) as -> by lia. rewrite Z.add_0_r in *.
    exists p, n, (sz + 2 * 2 ^ j), (mem h), cs.
    replace (set_mem h (mem h)) with h by by destruct h. split_and!; try done; lia.
  - assert (Ha16 : a mod 16 = 0).
    { replace (2 ^ j) with (16 * 2 ^ (j - 4)) in Hpa.
      - apply Z.mod_divide in Hpa; [|lia]. destruct Hpa as [c Hc].
        replace a with (16 * (2 ^ (j - 4) * c) - p) by lia. apply mod16_sub; [|done].
        rewrite Z.mul_comm. apply Z.mod_mul. lia.
      - change 16 with (2 ^ 4). rewrite <- Z.pow_add_r by lia. f_equal. lia. }
    destruct (cut_block h Hpl cs p n B a (2 ^ j))
      as (m' & cs' & -> & Hok' & HB' & Hw); [done..|dlia|lia|done|].
    exists (p + a), (n - a), (n - a), m', cs'. split_and!; try done; lia.
Qed.

Lemma align_small p j : 0 ≤ j ≤ 4 → p mod 16 = 0 → p mod 2 ^ j = 0.
Proof.
  intros Hj Hp. apply Z.mod_divide; [lia|]. apply Z.mod_divide in Hp as [c ->]; [|lia].
  apply Z.divide_mul_r. exists (2 ^ (4 - j)). rewrite <- Z.pow_add_r by lia.
  by replace (4 - j + j) with 4 by lia.
Qed.

(** What is asked of [mm_malloc]: room for two points of alignment. *)

Definition memalign_request (j sz : Z) : Z :=
  if 2 ^ j <=? 16 then sz else 16 * ((sz + 15) / 16) + 2 * 2 ^ j.

Lemma memalign_view h B j sz :
  heap_view h B → 0 ≤ j → 1 ≤ sz → sz + 2 * 2 ^ j + 38 < 2 ^ 32 →
  ∃ res h', mm_memalign false h (2 ^ j) sz = Some (res, h') ∧ same_words B (mem h) (mem h') ∧
    same_geometry h h' ∧
    ((res = NULL ∧ heap_view h' B ∧ mm_malloc false h (memalign_request j sz) = Some (NULL, h')) ∨
     (res ≠ NULL ∧ res mod 2 ^ j = 0 ∧ ∃ n, granted (mm_heapstart h) (mm_heapend h) B sz res n ∧
        heap_view h' ((res, n) :: B))).
Proof.
  intros Hv Hj0 H1 H2. unfold mm_memalign. change MM_MIN_CHUNK with 16.
  assert (Hpos : 0 < 2 ^ j) by lia. unfold memalign_request.
  assert (Hj30 : j ≤ 30) by (destruct (decide (j ≤ 30)); [done|]; assert (2 ^ 31 ≤ 2 ^ j) by (apply Z.pow_le_mono_r; lia); lia).
  destruct (Z.leb_spec (2 ^ j) 16) as [Hs|Hb].
  { assert (Hj4 : j ≤ 4) by (apply (Z.pow_le_mono_r_iff 2); lia).
    destruct (malloc_view h B sz Hv) as (p & h' & Hm & Hw & Hg & _ & Hr); [lia..|].
    rewrite Hm.
    exists p, h'. split_and!; try done. destruct Hr as [[-> ?]|(Hp & n & Hgr & Hv')]; [by left|right].
    split; [done|]. split; [|by exists n]. by apply align_small, (gr_align _ _ _ _ _ _ Hgr). }
  assert (Hj5 : 5 ≤ j) by (assert (2 ^ 4 < 2 ^ j) as ?%Z.pow_lt_mono_r_iff by lia; lia).
  rewrite (align_up_spec sz) by lia. set (sz1 := 16 * ((sz + 15) / 16)).
  assert (Hsz1 : sz ≤ sz1 ≤ sz + 15 ∧ sz1 mod 16 = 0) by (unfold sz1; dlia).
  rewrite (u32_small (sz1 + 2 * 2 ^ j)) by lia.
  destruct (malloc_state h B (sz1 + 2 * 2 ^ j) Hv) as (p & h1 & Hm & Hw1 & [Hg1 Hg2] & Hd & Hr); [lia..|].
  rewrite Hm.
  cbn [mbind option_bind]. destruct Hr as [[-> Hv1]|(Hp & n & cs1 & Hgr & Hok1 & HB1 & Hfr)].
  { exists NULL, h1. split_and!; try done. by left. }
  rewrite (proj2 (Z.eqb_neq p 0)) by done. rewrite <- Hg1 in HB1.
  pose proof Hgr as [[_ Hn] Hp16 [Hlo Hhi] _]. pose proof (ho_place _ _ Hok1) as Hpl1.
  pose proof (pl_start h1 Hpl1). pose proof (pl_top h1 Hpl1).
  assert (Hin : (p, n) ∈ blocks (mm_heapstart h1) cs1) by (rewrite HB1; set_solver).
  destruct (block_align h1 _ _ _ _ Hpl1 (ho_state _ _ Hok1) Hin) as (_ & _ & Hlo' & Hhi').
  change SIZEOF_MM_ALLOCNODE with 8. rewrite (u32_small (p - 8)) by lia.
  destruct (front_view h1 cs1 p n B j sz1) as (q & k & asz & m2 & cs2 & -> & Hq & Ha1 & Ha2 & Hok2 & HB2 & Hw2);
    [done|done|done|done|lia|done|lia|lia|lia|lia|].
  cbn [mbind option_bind]. rewrite (u32_small (sz1 + 8)), (align_up_spec (sz1 + 8)) by lia.
  assert (H32 : 2 ^ 5 ≤ 2 ^ j) by (apply Z.pow_le_mono_r; lia).
  set (c := 16 * ((sz1 + 8 + 15) / 16)). assert (Hc : c = sz1 + 16) by (unfold c; dlia).
  rewrite (proj2 (Z.ltb_lt c asz)) by lia.
  destruct (tail_view (set_mem h1 m2) cs2 B q k sz c) as (m3 & -> & Hw3 & Hg3 & Hv3); [done..|lia|dlia|lia|].
  cbn [mbind option_bind]. simpl in Hg3. rewrite Hg1, Hg2 in Hg3. eexists q, _. split; [reflexivity|].
  split; [|split; [done|right]].
  - eapply same_words_trans; [exact Hw1|]. eapply same_words_trans; [exact Hw2|exact Hw3].
  - split; [|split; [done|by exists (c - 8)]]. destruct Hg3 as [_ _ [? _] _]. unfold NULL. lia.
Qed.

End MmMemalign.
