(* ===== verification/MmExtend.v ===== *)
(** * Extending the heap

    [mm_extend] adds a block of memory that follows the region: the last guard becomes
    the header of a chunk, which is then freed. *)

From S2P Require Import Prelude MmHeap MmList MmLayout MmState MmFree MmMalloc MmInit MmBlocks MmInfo.

Module MmExtend.
Import MmHeap MmList MmLayout MmState MmFree MmMalloc MmInit MmBlocks MmInfo.

Implicit Types (cs l r : list chunk) (m : gmap Z Z).

(** The last guard. *)

Lemma wf_last cs : wf cs → ∃ l, cs = l ++ [guard] ∧ wfl l.
Proof. intros (mid & -> & Hm). exists (guard :: mid). split; [done|]. by exists mid. Qed.

Section Extend.

Context (h : mm_heap_s) (Hpl : place h) (sz : Z).

(** The words of the new block are in memory, and the region can be so long. *)

Local Abbreviation h' := (set_heapend h (mm_heapend h + sz)).
Local Abbreviation e := (mm_heapend h).

Record extension : Prop := {
  ex_place : place h';
  ex_size : 16 ≤ sz;
  ex_align : sz mod 16 = 0;
  ex_words : ∀ k, e + 8 ≤ k < e + 8 + sz → k mod 4 = 0 → is_Some (mem h !! k)
}.

Context (Hex : extension).

(** The memory after the two headers are written. *)

Definition ext_mem m : gmap Z Z :=
  upd (upd (upd m e size sz) (e + sz) size 8) (e + sz) preceding (prec_word sz true).

Lemma ext_mem_frame m k : k ≠ e → k ≠ e + sz → k ≠ e + sz + 4 → ext_mem m !! k = m !! k.
Proof. intros ???. unfold ext_mem, upd. simpl. by rewrite !lookup_insert_ne by lia. Qed.

Lemma caddr_ext x : caddr h x → caddr h' x.
Proof. intros [? ?]. destruct Hex. split; [done|]. simpl. lia. Qed.

Lemma ext_words m :
  words h m → (∀ k, e + 8 ≤ k < e + 8 + sz → k mod 4 = 0 → is_Some (m !! k)) → words h' m.
Proof.
  intros Hw Hm x f [[Hx1 Hx2]|Hx] Hf; [|apply (Hw x f); [by right|]; intros ->; by destruct (sentinel_end h Hpl _ Hx)].
  simpl in *. pose proof Hex as [_ ? ? _]. destruct Hpl. destruct (decide (x < e)); [apply Hw; [left; split; [done|lia]|lia]|].
  destruct (decide (x = e ∧ (f = size ∨ f = preceding))) as [[-> Hf']|Hn].
  - apply Hw; [left; split; [done|lia]|done].
  - apply Hm; [|destruct f; simpl; dlia].
    destruct (decide (x = e)) as [->|].
    + destruct f; simpl; try lia; exfalso; apply Hn; auto.
    + destruct (decide (x = e + sz)) as [He|]; [destruct (Hf He) as [->| ->]; simpl; dlia|].
      destruct f; simpl; dlia.
Qed.

Lemma ext_flist m F L : flist h m F L → flist h' (ext_mem m) F L.
Proof.
  intros Hl. assert (Hl' : flist h (ext_mem m) F L).
  { eapply (flist_frame h Hpl), Hl. intros x f Hx Hf. unfold fld. destruct Hex as [[] ? ? _], Hpl. simpl in *.
    assert (Ho : 0 ≤ offset f ≤ 12) by by destruct f.
    apply ext_mem_frame; (destruct Hx as [(i & Hi & ->)|Hx];
      [unfold nodelist, SIZEOF_MM_FREENODE in *; change MM_NNODES with 19 in Hi; lia
      |apply (fl_free _ _ _ _ Hl) in Hx as ([Hx1 Hx2] & Hx3 & _); dlia]). }
  destruct Hl' as [Hc Hp Hn Hs Hz Hfr]. constructor; try done.
  intros x (Hx1 & Hx2 & Hx3)%Hfr. split; [by apply caddr_ext|]. split; [|done]. destruct Hex. simpl. lia.
Qed.

Lemma ext_state m l :
  hstate h m (l ++ [guard]) → wfl l →
  (∀ k, e + 8 ≤ k < e + 8 + sz → k mod 4 = 0 → is_Some (m !! k)) →
  hstate h' (ext_mem m) (l ++ (sz, Used) :: [guard]).
Proof.
  intros [Hwf He Hw Hc [L Hl]] Hwl Hm. pose proof (wfl_total _ Hwl). rewrite total_app in He. simpl in He.
  pose proof Hex as [_ Hsz Hal _]. assert (Hee : mm_heapstart h + total l = e) by lia.
  constructor.
  - apply wf_app; [done|]. apply wfr_cons; [by exists []|done].
  - rewrite total_app. simpl. lia.
  - unfold ext_mem. do 3 apply words_upd. by apply ext_words.
  - apply chunks_app in Hc as [Hc1 (Hg1 & Hg2 & _)]. apply chunks_app. split.
    + eapply chunks_range, Hc1; [by apply wfl_big|]. simpl. intros k Hk. apply ext_mem_frame; lia.
    + simpl. rewrite Hee in *. unfold ext_mem. split_and!; try done; by fields.
  - exists L. rewrite frees_app in *. by apply ext_flist.
Qed.

(** The checks and the two headers; what is left is [mm_free]. *)

Lemma extend_free p :
  0 < e → words h (mem h) → fld (mem h) e preceding = Some (prec_word p true) → 0 ≤ p < 2 ^ 31 →
  mm_extend false h (e + 8) sz 0 = mm_free false (set_mem h' (ext_mem (mem h))) (e + 8).
Proof.
  intros He Hw Hp Hpb. pose proof Hex as [Hpl' Hsz Hal Hnew]. destruct Hpl' as [_ _ _ _ Hsm Htop _ _ _], Hpl.
  simpl in Hsm, Htop. unfold mm_extend, SIZEOF_MM_ALLOCNODE. change MIN_EXTEND with 16. unfold NULL.
  rewrite (proj2 (Z.eqb_neq (e + 8) 0)), (proj2 (Z.leb_le 16 sz)) by lia.
  cbn [negb andb Z.eqb DEBUGASSERT mbind option_bind].
  rewrite (u32_small (e + 8 + sz)), align_up_spec, align_down_spec by lia.
  rewrite (proj2 (Z.eqb_eq (16 * ((e + 8 + 15) / 16)) _)), (proj2 (Z.eqb_eq (16 * ((e + 8 + sz) / 16)) _)) by dlia.
  rewrite (u32_small (e + 8)), Z.eqb_refl by lia. cbn [DEBUGASSERT mbind option_bind].
  assert (Hen : is_node h e) by (left; split; [done|lia]).
  assert (Hw1 : words h' (mem h)) by by apply ext_words.
  assert (Hn : is_node h' (e + sz)) by (left; split; simpl; [dlia|lia]).
  rewrite (node_put h) by auto. cbn [mbind option_bind].
  rewrite get_fld by done. fields. rewrite Hp. cbn [mbind option_bind]. rewrite allocated_prec by done.
  cbn [DEBUGASSERT mbind option_bind]. replace (e + 8 + sz - 8) with (e + sz) by lia.
  rewrite (u32_small (e + sz)) by lia.
  rewrite (node_put h' (ex_place Hex)) by (try apply words_upd; auto). cbn [mbind option_bind].
  rewrite get_fld by done. fields. cbn [mbind option_bind].
  rewrite (node_put h' (ex_place Hex)) by (repeat apply words_upd; auto). done.
Qed.

(** The new chunk is free, merged with a free chunk at the end of the old region; the
    blocks are as before.  The size that the heap records is not. *)

Lemma extend_ok cs :
  heap_ok h cs →
  ∃ l m' cs', cs = l ++ [guard] ∧ mm_extend false h (e + 8) sz 0 = Some (set_mem h' m') ∧
    cs' = merge (l ++ [(sz, Free); guard]) ∧ hstate (set_mem h' m') m' cs' ∧ coalesced cs' = true ∧
    Forall settled cs' ∧ total cs' = total cs + sz ∧
    blocks (mm_heapstart h) cs' = blocks (mm_heapstart h) cs ∧
    (∀ q k w, (q, k) ∈ blocks (mm_heapstart h) cs → q ≤ w < q + k → m' !! w = mem h !! w).
Proof.
  intros [_ Hs Htot Hco Hset]. destruct (wf_last cs (hs_wf _ _ _ Hs)) as (l & -> & Hwl).
  pose proof (wfl_total _ Hwl) as [Hl8 _]. pose proof Hex as [Hpl' Hsz Hal Hnew].
  pose proof (hs_end _ _ _ Hs) as He. rewrite total_app in He. simpl in He.
  destruct (hs_hdr h Hpl (mem h) _ l 8 Used [] e Hs) as (_ & X2 & Hb); [done|lia|]. simpl in Hb.
  pose proof (ext_state (mem h) l Hs Hwl Hnew) as Hs1.
  set (h1 := set_mem h' (ext_mem (mem h))).
  destruct (free_ok h1 (place_set _ _ Hpl') l sz [guard]) as (m' & cs' & Hf & Hcs & Hs' & Hco' & Hset' & Hk);
    [by apply hstate_set|done| | |].
  { unfold guard in *. rewrite coalesced_snoc_used in Hco. by rewrite coalesced_mid, coalesced_snoc_used, Hco. }
  { apply Forall_app in Hset as [??]. apply Forall_app. split; [done|]. by constructor. }
  assert (HB : blocks (mm_heapstart h) (l ++ [(sz, Free); guard]) = blocks (mm_heapstart h) (l ++ [guard]))
    by (rewrite !blocks_app; done).
  exists l, m', cs'. split_and!; try done.
  - change (set_mem h' m') with (set_mem h1 m'). rewrite <- Hf.
    replace (mm_heapstart h1 + total l + 8) with (e + 8) by (simpl; lia). apply (extend_free (psize 0 l)); [lia|apply (hs_words _ _ _ Hs)|done|lia].
  - by apply (hstate_set h1).
  - rewrite Hcs. destruct (merge_settled (l ++ [(sz, Free); guard])) as (_ & _ & ->).
    { apply Forall_app in Hset as [??]. apply Forall_app. split; [done|]. by repeat constructor. }
    rewrite !total_app. simpl. lia.
  - by rewrite Hcs, blocks_merge.
  - intros q k w Hq Hw. rewrite (Hk w).
    + rewrite blocks_app in Hq. simpl in Hq. rewrite app_nil_r in Hq.
      apply blocks_range in Hq; [|by apply wfl_big]. apply ext_mem_frame; lia.
    + rewrite <- HB in Hq. eapply (block_user h1); [| |exact Hq|done].
      * apply wf_app; [done|]. apply wfr_cons; [by exists []|done].
      * rewrite total_app. simpl. lia.
Qed.

(** [mm_mallinfo] compares the sizes of the chunks with the recorded one. *)

Lemma extend_mallinfo cs h2 :
  heap_ok h cs → mm_extend false h (e + 8) sz 0 = Some h2 → mm_mallinfo h2 = None.
Proof.
  intros Hok Hx. pose proof (ho_size _ _ Hok) as Hsz.
  destruct (extend_ok cs Hok) as (l & m' & cs' & _ & Hx' & _ & Hs & _ & Hset & Htot & _).
  rewrite Hx' in Hx. simplify_eq. pose proof Hex as [Hpl' ? _ _].
  rewrite (mallinfo_cases _ (place_set _ m' Hpl') cs') by done. simpl.
  by rewrite Hsz, (proj2 (Z.eqb_neq (total cs) (total cs'))) by lia.
Qed.

End Extend.

End MmExtend.
