(* ===== verification/MmSession.v ===== *)
(** * Sessions of a client

    The heap as its users see it: a list of blocks that do not overlap, each of which
    keeps its contents until its owner stores into it or gives it back.  Every valid
    operation succeeds and does what this specification says. *)

From S2P Require Import Prelude MmHeap MmList MmLayout MmState MmFree MmMalloc MmInit MmBlocks MmClient.
From S2P Require Import MmResize MmRealloc MmZalloc MmMemalign.

Module MmSession.
Import MmHeap MmList MmLayout MmState MmFree MmMalloc MmInit MmBlocks MmClient.
Import MmResize MmRealloc MmZalloc MmMemalign.

Implicit Types (cs l r : list chunk) (m : gmap Z Z) (B : list (Z * Z)).

Inductive op :=
  | Malloc (sz : Z)
  | Calloc (n elem_size : Z)
  | Memalign (shift sz : Z)
  | Realloc (p sz : Z)
  | Release (defer : bool) (p : Z)
  | Store (k v : Z).

Definition exec (h : mm_heap_s) (o : op) : option (Z * mm_heap_s) :=
  match o with
  | Malloc sz => mm_malloc false h sz
  | Calloc n elem_size => mm_calloc false h n elem_size
  | Memalign j sz => mm_memalign false h (2 ^ j) sz
  | Realloc p sz => mm_realloc false h p sz
  | Release defer p => h ← mm_free defer h p; Some (NULL, h)
  | Store k v => m ← set_word (mem h) k v; Some (NULL, set_mem h m)
  end.

(** What a client may do: it frees only what it holds, and stores into it; no size is so
    large that the size of a chunk overflows. *)

Definition valid B (o : op) : Prop :=
  match o with
  | Malloc sz => 0 ≤ sz ∧ sz + 23 < 2 ^ 32
  | Calloc n e => 0 ≤ n < 2 ^ 32 ∧ 0 ≤ e < 2 ^ 32 ∧ (n * e + 23 < 2 ^ 32 ∨ 2 ^ 32 ≤ n * e)
  | Memalign j sz => 0 ≤ j ∧ 1 ≤ sz ∧ sz + 2 * 2 ^ j + 38 < 2 ^ 32
  | Realloc p sz => 0 ≤ sz ∧ sz + 23 < 2 ^ 32 ∧ (p = NULL ∨ ∃ n, (p, n) ∈ B)
  | Release _ p => p = NULL ∨ ∃ n, (p, n) ∈ B
  | Store k _ => k mod 4 = 0 ∧ ∃ p n, (p, n) ∈ B ∧ p ≤ k < p + n
  end.

(** ** The specification *)

(** The operations that ask for a block, with its size and what is promised of it. *)

Inductive asks : op → Z → (gmap Z Z → Z → Prop) → Prop :=
  | Asks_malloc sz : asks (Malloc sz) sz (λ _ _, True)
  | Asks_calloc n e : asks (Calloc n e) (n * e) (λ m p, zeroed m p (n * e))
  | Asks_memalign j sz : asks (Memalign j sz) sz (λ _ p, p mod 2 ^ j = 0)
  | Asks_realloc sz : asks (Realloc NULL sz) sz (λ _ _, True).

Inductive gives_back : op → Z → Prop :=
  | Gives_release defer p : gives_back (Release defer p) p
  | Gives_realloc p : gives_back (Realloc p 0) p.

(** The blocks of the client and the words in them, before and after; the result. *)

Inductive spec_step (lo hi : Z) B m : op → Z → list (Z * Z) → gmap Z Z → Prop :=
  | Spec_none o sz P m' :
      asks o sz P → same_words B m m' → spec_step lo hi B m o NULL B m'
  | Spec_some o sz P p n m' :
      asks o sz P → granted lo hi B sz p n → P m' p → same_words B m m' →
      spec_step lo hi B m o p ((p, n) :: B) m'
  | Spec_null o m' :
      gives_back o NULL → same_words B m m' → spec_step lo hi B m o NULL B m'
  | Spec_release o p n B' m' :
      gives_back o p → B ≡ₚ (p, n) :: B' → same_words B' m m' → spec_step lo hi B m o NULL B' m'
  | Spec_resize_none p n sz m' :
      (p, n) ∈ B → 1 ≤ sz → same_words B m m' → spec_step lo hi B m (Realloc p sz) NULL B m'
  | Spec_resize p n sz B' q k m' :
      B ≡ₚ (p, n) :: B' → granted lo hi B' sz q k → same_words B' m m' →
      same_contents p q (Z.min n k) m m' →
      spec_step lo hi B m (Realloc p sz) q ((q, k) :: B') m'
  | Spec_store k v :
      spec_step lo hi B m (Store k v) NULL B (<[k := v]> m).

(** The blocks that the client holds afterwards, as it can know them. *)

Definition add_block (h' : mm_heap_s) B (res : Z) : list (Z * Z) :=
  if res =? NULL then B else (res, default 0 (malloc_usable_size h' res)) :: B.

Definition drop_block B (p : Z) : list (Z * Z) := filter (λ b, b.1 ≠ p) B.

Definition track (h' : mm_heap_s) B (o : op) (res : Z) : list (Z * Z) :=
  match o with
  | Malloc _ | Calloc _ _ | Memalign _ _ => add_block h' B res
  | Realloc p sz =>
      if p =? NULL then add_block h' B res
      else if sz <? 1 then drop_block B p
      else if res =? NULL then B else add_block h' (drop_block B p) res
  | Release _ p => drop_block B p
  | Store _ _ => B
  end.

(** ** The operations against the specification *)

Lemma view_usable h B p n : heap_view h ((p, n) :: B) → malloc_usable_size h p = Some n.
Proof.
  intros (cs & Bd & [Hpl Hs _ _ _] & _ & HB). apply (usable_block h (mem h) cs); [done..|].
  rewrite HB. set_solver.
Qed.

Lemma view_drop h B p n : heap_view h B → (p, n) ∈ B → B ≡ₚ (p, n) :: drop_block B p.
Proof.
  intros (cs & Bd & [Hpl Hs _ _ _] & _ & HB) Hp. apply remove_block; [|done].
  pose proof (blocks_nodup (mm_heapstart h) cs (wf_big _ (hs_wf _ _ _ Hs))) as Hnd.
  rewrite HB, fmap_app in Hnd. by apply NoDup_app in Hnd as (_ & _ & ?).
Qed.

Lemma view_drop_null h B : heap_view h B → drop_block B NULL = B.
Proof.
  intros Hv. apply filter_all. intros [q k] Hq He. simpl in He.
  destruct (view_block h B q k Hv Hq) as (_ & _ & _ & ? & ? & _). unfold NULL in *. lia.
Qed.

(** An operation is right if it succeeds and keeps the view and the specification. *)

Definition right (h : mm_heap_s) B (o : op) : Prop :=
  ∃ res h', exec h o = Some (res, h') ∧ heap_view h' (track h' B o res) ∧
    spec_step (mm_heapstart h) (mm_heapend h) B (mem h) o res (track h' B o res) (mem h') ∧
    same_geometry h h'.

Lemma asks_right h B o sz P :
  asks o sz P → (∀ h' res, track h' B o res = add_block h' B res) →
  (∃ res h', exec h o = Some (res, h') ∧ same_words B (mem h) (mem h') ∧ same_geometry h h' ∧
    ((res = NULL ∧ heap_view h' B) ∨
     (res ≠ NULL ∧ ∃ n, granted (mm_heapstart h) (mm_heapend h) B sz res n ∧
        heap_view h' ((res, n) :: B) ∧ P (mem h') res))) →
  right h B o.
Proof.
  intros Ha Ht (res & h' & Hx & Hw & Hg & Hr). exists res, h'. rewrite Ht. unfold add_block.
  destruct Hr as [[-> Hv]|(Hres & n & Hgr & Hv & HP)].
  - split; [done|]. split; [done|]. split; [|done]. by eapply Spec_none.
  - rewrite (proj2 (Z.eqb_neq res NULL)), (view_usable _ _ _ _ Hv) by done.
    split; [done|]. split; [done|]. split; [|done]. by eapply Spec_some.
Qed.

Lemma gives_right h B defer p o :
  heap_view h B → (p = NULL ∨ ∃ n, (p, n) ∈ B) → gives_back o p →
  exec h o = (h ← mm_free defer h p; Some (NULL, h)) →
  (∀ h', track h' B o NULL = drop_block B p) → right h B o.
Proof.
  intros Hv Hp Hg Hx Ht. destruct Hp as [->|[n Hp]].
  - exists NULL, h. rewrite Hx, Ht, (view_drop_null h) by done. split; [done|]. split; [done|]. split; [|done].
    by apply Spec_null.
  - pose proof (view_drop h B p n Hv Hp) as HB.
    destruct (release_view h B defer p n _ Hv HB) as (h' & Hf & Hv' & Hw & Hge).
    exists NULL, h'. rewrite Hx, Hf, Ht. split; [done|]. split; [done|]. split; [|done].
    by eapply Spec_release.
Qed.

Lemma realloc_right h B p n sz :
  heap_view h B → (p, n) ∈ B → 1 ≤ sz → sz + 23 < 2 ^ 32 → right h B (Realloc p sz).
Proof.
  intros Hv Hp H1 H2. pose proof (view_drop h B p n Hv Hp) as HB.
  destruct (view_block h B p n Hv Hp) as (_ & _ & _ & ? & ? & _).
  destruct (realloc_view h p n (drop_block B p) sz) as (res & h' & Hx & Hw & Hge & Hr);
    [by eapply view_perm|done..|].
  exists res, h'. cbn [exec track]. rewrite (proj2 (Z.eqb_neq p NULL)), (proj2 (Z.ltb_ge sz 1)) by (unfold NULL; lia).
  split; [done|]. destruct Hr as [(-> & _ & _ & Hv' & Hw')|(Hres & k & Hgr & Hv' & Hc)].
  - cbn [Z.eqb]. split; [by eapply view_perm|]. split; [|done]. apply (Spec_resize_none _ _ _ _ p n); try done.
    intros q k w Hq Hqw. rewrite HB in Hq. apply elem_of_cons in Hq as [[= -> ->]|Hq];
      [apply (Hw' p n); [set_solver|done]|by apply (Hw q k)].
  - unfold add_block. rewrite (proj2 (Z.eqb_neq res NULL)), (view_usable _ _ _ _ Hv') by done.
    split; [done|]. split; [|done]. by eapply Spec_resize.
Qed.

Lemma store_right h B k v p n :
  heap_view h B → k mod 4 = 0 → (p, n) ∈ B → p ≤ k < p + n → right h B (Store k v).
Proof.
  intros Hv Hk4 Hp Hk. pose proof (view_drop h B p n Hv Hp) as HB.
  destruct (stores_view h B p n _ (<[k := v]> (mem h)) Hv HB) as [Hv' _].
  { apply rtc_once. by exists k, v. }
  exists NULL, (set_mem h (<[k := v]> (mem h))). cbn [exec].
  destruct Hv as (cs & Bd & Hok & _ & HB').
  destruct (store_view h cs p n k v Hok) as [-> _]; [rewrite HB'; set_solver|done|done|].
  split; [done|]. split; [done|]. split; [apply Spec_store|done].
Qed.

(** Every operation of a client succeeds, and does what the specification says. *)

Lemma exec_right h B o : heap_view h B → valid B o → right h B o.
Proof.
  intros Hv. destruct o as [sz|n e|j sz|p sz|defer p|k v]; simpl; intros Ho.
  - eapply asks_right; [constructor|done|].
    destruct (malloc_view h B sz Hv) as (res & h' & ? & ? & ? & _ & Hr); [apply Ho..|].
    exists res, h'. split_and!; try done. destruct Hr as [?|(? & n & ? & ?)]; [by left|right]. split; [done|]. by exists n.
  - eapply asks_right; [constructor|done|].
    destruct (calloc_view h B n e Hv) as (res & h' & ? & ? & ? & Hr); [apply Ho..|].
    exists res, h'. split_and!; try done. destruct Hr as [(? & ? & _)|(? & _ & k & ? & ?)]; [by left|right]. split; [done|]. by exists k.
  - eapply asks_right; [constructor|done|].
    destruct (memalign_view h B j sz Hv) as (res & h' & ? & ? & ? & Hr); [apply Ho..|].
    exists res, h'. split_and!; try done. destruct Hr as [(? & ? & _)|(? & ? & n & ? & ?)]; [by left|right]. split; [done|]. by exists n.
  - destruct Ho as (H0 & H1 & Hp). destruct (decide (p = NULL)) as [->|Hn].
    + eapply asks_right; [constructor|done|].
      destruct (malloc_view h B sz Hv H0 H1) as (res & h' & ? & ? & ? & _ & Hr).
      exists res, h'. split_and!; try done. destruct Hr as [?|(? & n & ? & ?)]; [by left|right]. split; [done|]. by exists n.
    + destruct (decide (sz = 0)) as [->|].
      * apply (gives_right h B false p); [done..|constructor| |]; intros; cbn [exec track]; unfold mm_realloc;
          by rewrite (proj2 (Z.eqb_neq p NULL)).
      * destruct Hp as [?|[k Hp]]; [done|]. apply (realloc_right h B p k); [done..|lia|done].
  - by eapply gives_right; [..|constructor|done|done].
  - destruct Ho as (Hk4 & p & n & Hp & Hk). by eapply store_right.
Qed.

(** ** Sessions *)

Inductive session (h0 : mm_heap_s) : mm_heap_s → list (Z * Z) → Prop :=
  | Session_start : session h0 h0 []
  | Session_step h B o res h' :
      session h0 h B → valid B o → exec h o = Some (res, h') → session h0 h' (track h' B o res).

Lemma session_view h0 h B :
  heap_view h0 [] → session h0 h B → heap_view h B ∧ same_geometry h0 h.
Proof.
  intros H0. induction 1 as [|h B o res h' _ (IH & Hs & He) Ho Hx]; [done|].
  destruct (exec_right h B o IH Ho) as (res' & h'' & Hx' & Hv & _ & Hs' & He').
  rewrite Hx in Hx'. injection Hx' as <- <-. split; [done|]. split; congruence.
Qed.

(** A heap without blocks is one free chunk between the guards. *)

Lemma no_blocks a cs :
  Forall uchunk cs → Forall settled cs → coalesced cs = true → blocks a cs = [] →
  cs = [] ∨ ∃ s, cs = [(s, Free)].
Proof.
  destruct cs as [|[s b] cs]; intros Hu Hs Hc Hb; [by left|right]. exists s.
  apply Forall_cons in Hu as [[Hu _] Hu'], Hs as [Hs Hs']. simpl in *.
  destruct b; [|clear Hs|done].
  - exfalso. simpl in Hb. by rewrite (proj2 (Z.eqb_neq s 8)) in Hb by lia.
  - destruct cs as [|[t d] cs]; [done|]. exfalso.
    apply Forall_cons in Hu' as [[Hu' _] _], Hs' as [Hs' _]. simpl in *.
    destruct d; [|done|done]. by rewrite (proj2 (Z.eqb_neq t 8)) in Hb by lia.
Qed.

Lemma view_empty h :
  heap_view h [] → mm_delaylist h = NULL →
  heap_ok h [guard; (mm_heapend h - mm_heapstart h - 8, Free); guard].
Proof.
  intros (cs & Bd & Hok & Hd & HB) Hn. rewrite Hn in Hd.
  assert (Bd = []) as ->.
  { destruct Bd as [|[d k] Bd]; [done|]. destruct Hd as [Hd _].
    pose proof Hok as [Hpl Hs _ _ _]. destruct (block_first h (mem h) cs d k Hpl Hs) as [_ ?];
      [rewrite HB; set_solver|]. unfold NULL in Hd. lia. }
  apply Permutation_nil_r in HB. pose proof Hok as [Hpl Hs Hsz Hco Hset].
  pose proof (hs_wf _ _ _ Hs) as (mid & -> & Hm). pose proof (hs_end _ _ _ Hs) as He.
  pose proof (pl_order h Hpl). rewrite app_comm_cons in *. unfold guard in *.
  rewrite coalesced_snoc_used, coalesced_cons_used in Hco. rewrite blocks_app in HB.
  apply app_nil in HB as [HB _]. simpl in HB.
  apply Forall_app in Hset as [[_ Hset]%Forall_cons _].
  destruct (no_blocks _ mid Hm Hset Hco HB) as [->|[s ->]].
  - simpl in He. lia.
  - simpl in He. by replace (mm_heapend h - mm_heapstart h - 8) with s by lia.
Qed.

End MmSession.
