(* ===== verification/MmProps.v ===== *)
(** * Properties of the heap

    What [mm_initialize], [mm_malloc], [mm_free], [mm_realloc], [mm_calloc],
    [mm_memalign], [mm_extend] and [mm_mallinfo] guarantee, one operation at a time and
    in sessions of a client. *)

From S2P Require Import Prelude MmHeap MmList MmLayout MmState MmFree MmMalloc MmInit MmBlocks MmClient.
From S2P Require Import MmInfo MmResize MmRealloc MmZalloc MmMemalign MmExtend MmSession.

Module MmProps.
Import MmHeap MmList MmLayout MmState MmFree MmMalloc MmInit MmBlocks MmClient.
Import MmInfo MmResize MmRealloc MmZalloc MmMemalign MmExtend MmSession.

Implicit Types (cs l r : list chunk) (m : gmap Z Z) (B : list (Z * Z)).

(** ** Lemmas *)

Lemma init_view m nodes heapstart heapsize :
  region_ok m nodes heapstart heapsize →
  ∃ h, mm_initialize m nodes heapstart heapsize = Some h ∧ heap_view h [] ∧
    mm_heapstart h = region_base heapstart ∧ mm_heapend h = region_top heapstart heapsize - 8.
Proof.
  intros Hr. destruct (init_ok m nodes heapstart heapsize Hr) as (m' & Hi & Hok).
  exists (new_heap nodes heapstart heapsize m'). split; [done|]. split; [|done].
  by exists (new_chunks heapstart heapsize Free), [].
Qed.

Lemma malloc_no_delay h sz : mm_delaylist h = NULL → mm_malloc false h sz = mm_alloc h sz.
Proof.
  intros Hd. unfold mm_malloc, mm_free_delaylist. rewrite Hd. cbn [mm_free_delayed].
  replace (set_delaylist h NULL) with h by (destruct h; simpl in *; by subst). done.
Qed.

(** What was carved from a free chunk merges with its rest. *)

Lemma merge_carve x l a s r :
  a ≤ s → a mod 16 = 0 → s mod 16 = 0 → Forall settled (l ++ (s, Free) :: r) →
  coalesced (l ++ (s, Free) :: r) = true → ends_used l → wfr r → Forall big8 l →
  merge (mark x (l ++ carve a s Used ++ r) (x + total l)) = l ++ (s, Free) :: r.
Proof.
  intros Ha Ha16 Hs16 Hset Hco Hl Hr Hbl. pose proof Hco as [Hcl Hcr]%coalesced_split.
  assert (Hr' : ∃ t r', r = (t, Used) :: r').
  { destruct (wfr_head _ Hr) as (t & d & r' & -> & _). rewrite coalesced_mid in Hco.
    apply andb_true_iff in Hco as [_ Hco]. apply Forall_app in Hset as [_ [_ [Hd _]%Forall_cons]%Forall_cons].
    destruct d; [eauto|done|done]. }
  destruct Hr' as (t & r' & ->). rewrite coalesced_cons_used in Hcr. unfold carve.
  destruct (Z.leb_spec 16 (s - a)); cbn [app]; rewrite mark_mid by done;
    rewrite merge_app by done; cbn [merge]; rewrite merge_coalesced by done.
  - by replace (a + (s - a)) with s by lia.
  - by assert (s = a) as -> by dlia.
Qed.

Lemma alloc_free h cs sz p h1 :
  heap_ok h cs → 1 ≤ sz → sz + 23 < 2 ^ 32 → mm_alloc h sz = Some (p, h1) → p ≠ NULL →
  ∃ h2, mm_free false h1 p = Some h2 ∧ heap_ok h2 cs ∧
    same_words (blocks (mm_heapstart h) cs) (mem h) (mem h2).
Proof.
  intros Hok H1 H2 Ha Hp. pose proof Hok as [Hpl Hs _ Hco Hset].
  destruct (alloc_ok h Hpl cs sz Hok H1 H2) as [[_ Hn]|(l & s & r & m' & Hcs & [Hle _] & Ha' & Hok' & Hk)];
    [by rewrite Hn in Ha; simplify_eq|].
  rewrite Ha' in Ha. simplify_eq. destruct (chunk_size_spec sz H1 H2) as (_ & Hc16 & Hcm & _).
  set (a := chunk_size sz) in *. pose proof (wf_free _ _ _ _ (hs_wf _ _ _ Hs) ltac:(done)) as Hu.
  destruct (wf_split _ _ _ (hs_wf _ _ _ Hs) Hu) as [Hwl Hwr]. pose proof (wfl_big _ Hwl) as Hbl.
  pose proof (before_free _ l s r (hs_wf _ _ _ Hs) Hco Hset eq_refl) as Hend.
  destruct (carve_head a s Used) as (t & Hct & _); [by split; simpl; lia|done|done|].
  set (h1 := set_mem h m') in *. set (x := mm_heapstart h + total l) in *.
  assert (Hin : (x + 8, a - 8) ∈ blocks (mm_heapstart h1) (l ++ carve a s Used ++ r)).
  { rewrite blocks_app, Hct. simpl. rewrite (proj2 (Z.eqb_neq a 8)) by lia. set_solver. }
  apply list_elem_of_split in Hin as (B1 & B2 & HB).
  destruct (free_block h1 (l ++ carve a s Used ++ r) (B1 ++ B2) (x + 8) (a - 8) Hok')
    as (m2 & cs2 & Hf & -> & Hok2 & HB2 & Hw2); [by rewrite HB, Permutation_middle|].
  rewrite Z.add_simpl_r in Hok2, HB2. unfold x in Hok2, HB2. cbn [mm_heapstart h1 set_mem] in Hok2, HB2.
  destruct Hu as [_ Hu]. rewrite merge_carve in Hok2, HB2 by done.
  exists (set_mem h1 m2). split; [done|]. split; [done|]. intros q k w Hq Hw. simpl.
  rewrite HB2 in Hq. rewrite (Hw2 q k) by done. apply Hk. eapply block_user; [apply Hs|apply Hs| |done].
  by rewrite HB2.
Qed.

(** ** Sessions *)

(** C1.  After [mm_initialize], the heap refines a list of blocks: in every session of
    [mm_malloc], [mm_calloc], [mm_memalign], [mm_realloc], immediate and deferred [mm_free]
    and stores, the next valid operation succeeds, no assertion of the code fails, and
    the result, the blocks and all the words in them are what the specification says.
    Blocks are aligned, large enough, inside of the region and apart from each other;
    the words of the blocks that an operation is not about do not change. *)
Theorem mm_refines_blocks m nodes heapstart heapsize h0 h B o :
  region_ok m nodes heapstart heapsize → mm_initialize m nodes heapstart heapsize = Some h0 →
  session h0 h B → valid B o →
  ∃ res h', exec h o = Some (res, h') ∧
    spec_step (region_base heapstart) (region_top heapstart heapsize - 8) B (mem h) o res
      (track h' B o res) (mem h') ∧
    session h0 h' (track h' B o res).
Proof.
  intros Hr Hi Hs Ho. destruct (init_view _ _ _ _ Hr) as (h0' & Hi' & Hv0 & Hlo & Hhi).
  rewrite Hi in Hi'. simplify_eq. destruct (session_view _ _ _ Hv0 Hs) as [Hv [Hg1 Hg2]].
  destruct (exec_right h B o Hv Ho) as (res & h' & Hx & _ & Hsp & _).
  exists res, h'. split; [done|]. split; [by rewrite <- Hlo, <- Hhi, <- Hg1, <- Hg2|]. by econstructor.
Qed.

(** C2.  The well-formedness of the heap is an invariant of every session.  The chunks
    tile the region, their headers agree with their neighbours, no two free chunks are
    adjacent, the free list holds the free chunks in the order of their size, and the
    chunks in use are the blocks of the client and those on the delay list. *)
Theorem mm_session_invariant m nodes heapstart heapsize h0 h B :
  region_ok m nodes heapstart heapsize → mm_initialize m nodes heapstart heapsize = Some h0 →
  session h0 h B →
  ∃ cs Bd, heap_ok h cs ∧ delayed (mem h) (mm_delaylist h) Bd ∧
    blocks (region_base heapstart) cs ≡ₚ Bd ++ B.
Proof.
  intros Hr Hi Hs. destruct (init_view _ _ _ _ Hr) as (h0' & Hi' & Hv0 & Hlo & _).
  rewrite Hi in Hi'. simplify_eq. destruct (session_view _ _ _ Hv0 Hs) as [(cs & Bd & ?) [Hg _]].
  exists cs, Bd. by rewrite <- Hlo, <- Hg.
Qed.

(** C3.  When all blocks are given back and none waits on the delay list, the heap is one
    free chunk again, as large as after [mm_initialize]: nothing is lost or fragmented. *)
Theorem mm_session_empties m nodes heapstart heapsize h0 h :
  region_ok m nodes heapstart heapsize → mm_initialize m nodes heapstart heapsize = Some h0 →
  session h0 h [] → mm_delaylist h = NULL → heap_ok h (new_chunks heapstart heapsize Free).
Proof.
  intros Hr Hi Hs Hd. destruct (init_view _ _ _ _ Hr) as (h0' & Hi' & Hv0 & Hlo & Hhi).
  rewrite Hi in Hi'. simplify_eq. destruct (session_view _ _ _ Hv0 Hs) as [Hv [Hg1 Hg2]].
  pose proof (view_empty h Hv Hd) as Hok. rewrite Hg1, Hg2, Hlo, Hhi in Hok. unfold new_chunks.
  by replace (region_top heapstart heapsize - region_base heapstart - 16)
    with (region_top heapstart heapsize - 8 - region_base heapstart - 8) by lia.
Qed.

(** ** The operations *)

(** C4.  [mm_malloc] takes the smallest free chunk that is large enough and splits off
    what is not needed, and it returns NULL only if no free chunk is large enough. *)
Theorem mm_malloc_best_fit h cs sz :
  heap_ok h cs → mm_delaylist h = NULL → 1 ≤ sz → sz + 23 < 2 ^ 32 →
  (none_fits cs (chunk_size sz) ∧ mm_malloc false h sz = Some (NULL, h)) ∨
  ∃ l s r h', cs = l ++ (s, Free) :: r ∧ best_fit cs (chunk_size sz) s ∧
    mm_malloc false h sz = Some (mm_heapstart h + total l + 8, h') ∧
    heap_ok h' (l ++ carve (chunk_size sz) s Used ++ r) ∧
    same_words (blocks (mm_heapstart h) cs) (mem h) (mem h').
Proof.
  intros Hok Hd H1 H2. rewrite malloc_no_delay by done. pose proof Hok as [Hpl Hs _ _ _].
  destruct (alloc_ok h Hpl cs sz Hok H1 H2) as [?|(l & s & r & m' & Hcs & Hb & Ha & Hok' & Hk)]; [by left|right].
  exists l, s, r, (set_mem h m'). split_and!; try done. intros q k w Hq Hw. apply Hk.
  by eapply block_user; [apply Hs|apply Hs| |].
Qed.

(** C5.  [mm_free] of a block marks its chunk free and merges it with free neighbours on
    both sides; the other blocks and their words do not change. *)
Theorem mm_free_merges h cs B p n :
  heap_ok h cs → blocks (mm_heapstart h) cs ≡ₚ (p, n) :: B →
  ∃ h', mm_free false h p = Some h' ∧ heap_ok h' (merge (mark (mm_heapstart h) cs (p - 8))) ∧
    blocks (mm_heapstart h) (merge (mark (mm_heapstart h) cs (p - 8))) ≡ₚ B ∧
    same_words B (mem h) (mem h').
Proof.
  intros Hok HB. destruct (free_block h cs B p n Hok HB) as (m' & cs' & Hf & -> & ?).
  by exists (set_mem h m').
Qed.

(** [mm_free] after [mm_malloc] restores the chunks of the heap exactly, and the words
    of all blocks. *)
Theorem mm_malloc_free_roundtrip h cs sz p h1 :
  heap_ok h cs → mm_delaylist h = NULL → 1 ≤ sz → sz + 23 < 2 ^ 32 →
  mm_malloc false h sz = Some (p, h1) → p ≠ NULL →
  ∃ h2, mm_free false h1 p = Some h2 ∧ heap_ok h2 cs ∧
    same_words (blocks (mm_heapstart h) cs) (mem h) (mem h2).
Proof. intros Hok Hd H1 H2. rewrite malloc_no_delay by done. by apply alloc_free. Qed.

(** C6.  [mm_realloc] of a block returns a block of the requested size with the old
    contents, whether the chunk shrinks, grows into a neighbour on either side or is
    copied; or it returns NULL and the block stays as it was, but only if the block is
    too small and [mm_malloc] has no larger one. *)
Theorem mm_realloc_keeps_contents h p n B sz :
  heap_view h ((p, n) :: B) → 1 ≤ sz → sz + 23 < 2 ^ 32 →
  ∃ res h', mm_realloc false h p sz = Some (res, h') ∧ resized h h' p n B sz res.
Proof. apply realloc_view. Qed.



(** [mm_initialize] on a region of any size and alignment builds a heap of one free
    chunk that lies between two guards and is the largest the region can hold. *)
Theorem mm_initialize_one_chunk m nodes heapstart heapsize :
  region_ok m nodes heapstart heapsize →
  ∃ h, mm_initialize m nodes heapstart heapsize = Some h ∧
    heap_ok h (new_chunks heapstart heapsize Free) ∧
    mm_heapstart h = region_base heapstart ∧ mm_heapend h = region_top heapstart heapsize - 8 ∧
    heapstart ≤ mm_heapstart h < heapstart + 16 ∧
    heapstart + heapsize - 16 < mm_heapend h + 8 ≤ heapstart + heapsize.
Proof.
  intros Hr. destruct (init_ok m nodes heapstart heapsize Hr) as (m' & Hi & Hok).
  exists (new_heap nodes heapstart heapsize m'). simpl. split_and!; try done; unfold region_base, region_top; dlia.
Qed.

(** [mm_mallinfo] passes its own assertions on every heap and reports the exact size
    of the arena, the number and the maximum of the free chunks, and the bytes used and
    free. *)
Theorem mm_mallinfo_exact h cs :
  heap_ok h cs →
  mm_mallinfo h =
    Some (mk_mallinfo (total cs) (free_count cs) (free_max 0 cs) (used_bytes cs) (free_bytes cs)) ∧
  used_bytes cs + free_bytes cs = total cs.
Proof. intros Hok. split; [by apply mallinfo_ok; [apply Hok|]|by rewrite bytes_total]. Qed.

(** C9.  [mm_extend] adds the block that follows the region as free memory, merged with a
    free chunk at the old end; all blocks and their words stay.  But the size that the heap
    records is stale then: the final assertion of [mm_mallinfo] fails. *)
Theorem mm_extend_adds h sz cs :
  heap_ok h cs → extension h sz →
  ∃ l h' cs', cs = l ++ [guard] ∧ mm_extend false h (mm_heapend h + 8) sz 0 = Some h' ∧
    cs' = merge (l ++ [(sz, Free); guard]) ∧ hstate h' (mem h') cs' ∧ coalesced cs' = true ∧
    total cs' = total cs + sz ∧ blocks (mm_heapstart h) cs' = blocks (mm_heapstart h) cs ∧
    same_words (blocks (mm_heapstart h) cs) (mem h) (mem h') ∧ mm_mallinfo h' = None.
Proof.
  intros Hok Hex. destruct (extend_ok h (ho_place _ _ Hok) sz Hex cs Hok)
    as (l & m' & cs' & Hcs & Hx & Hm & Hs & Hco & _ & Ht & HB & Hw).
  exists l, (set_mem (set_heapend h (mm_heapend h + sz)) m'), cs'. split_and!; try done.
  by apply (extend_mallinfo h (ho_place _ _ Hok) sz Hex cs).
Qed.

(** C18.  The index of a chunk size is inside of the array of nodes for every size that
    a chunk can have, and the list of that index starts at or below the size. *)
Theorem mm_size2ndx_bounds sz :
  16 ≤ sz < 2 ^ 32 →
  0 ≤ mm_size2ndx sz < MM_NNODES ∧ 2 ^ (mm_size2ndx sz + 4) ≤ sz ∧
  (mm_size2ndx sz = MM_NNODES - 1 ∨ sz < 2 ^ (mm_size2ndx sz + 5)).
Proof. apply size2ndx_spec. Qed.

(** ** A small heap

    The array of nodes is at 0x100; the region of 252 bytes at 0x404 is trimmed to
    0x410-0x500, and 64 more bytes follow it. *)

Definition demo_words : gset Z := list_to_set (Z.mul 4 <$> seqZ 0x40 76 ++ seqZ 0x104 76).
Definition demo_mem : gmap Z Z := gset_to_gmap 0 demo_words.

Lemma demo_word k : k mod 4 = 0 → 0x100 ≤ k < 0x230 ∨ 0x410 ≤ k < 0x540 → is_Some (demo_mem !! k).
Proof.
  intros Hk4 Hk. exists 0. apply lookup_gset_to_gmap_Some. split; [|done].
  apply elem_of_list_to_set, list_elem_of_fmap. exists (k / 4). rewrite elem_of_app, !elem_of_seqZ. dlia.
Qed.

Lemma demo_region : region_ok demo_mem 0x100 0x404 252.
Proof.
  assert (Hb : region_base 0x404 = 0x410) by done. assert (Ht : region_top 0x404 252 = 0x500) by done.
  constructor; rewrite ?Hb, ?Ht; try lia.
  - intros k [Hk1 Hk2]. apply demo_word; [dlia|]. simpl in Hk1. lia.
  - intros k Hk Hk4. apply demo_word; [done|]. lia.
Qed.

Definition empty_heap : mm_heap_s := mk_heap ∅ 0 0 0 0 0.
Definition demo_heap : mm_heap_s := default empty_heap (mm_initialize demo_mem 0x100 0x404 252).

Lemma demo_heap_eq : mm_initialize demo_mem 0x100 0x404 252 = Some demo_heap.
Proof.
  unfold demo_heap. by destruct (init_ok _ _ _ _ demo_region) as (m' & -> & _).
Qed.

(** After three allocations, of which the second is given back. *)

Definition demo_step (h : mm_heap_s) (o : op) : mm_heap_s := default empty_heap (snd <$> exec h o).
Definition demo1 : mm_heap_s := demo_step demo_heap (Malloc 40).
Definition demo2 : mm_heap_s := demo_step demo1 (Calloc 5 8).
Definition demo3 : mm_heap_s := demo_step demo2 (Memalign 5 20).
Definition demo4 : mm_heap_s := demo_step demo3 (Release false 0x450).

Lemma demo_next h B o res B' :
  session demo_heap h B → valid B o → fst <$> exec h o = Some res →
  track (demo_step h o) B o res = B' → session demo_heap (demo_step h o) B'.
Proof.
  intros Hs Ho Hx <-. unfold demo_step in *. destruct (exec h o) as [[r h']|] eqn:He; [|done].
  simpl in Hx. simplify_eq. simpl. by eapply Session_step.
Qed.

Lemma demo_session2 : session demo_heap demo2 [(0x450, 40); (0x420, 40)].
Proof.
  apply (demo_next _ [(0x420, 40)] (Calloc 5 8) 0x450); [|simpl; lia|by vm_compute..].
  apply (demo_next _ [] (Malloc 40) 0x420); [constructor|simpl; lia|by vm_compute..].
Qed.

Lemma demo_session4 : session demo_heap demo4 [(0x480, 40); (0x420, 40)].
Proof.
  apply (demo_next _ [(0x480, 40); (0x450, 40); (0x420, 40)] (Release false 0x450) 0);
    [|right; exists 40; set_solver|by vm_compute..].
  apply (demo_next _ [(0x450, 40); (0x420, 40)] (Memalign 5 20) 0x480); [|simpl; lia|by vm_compute..].
  apply demo_session2.
Qed.

(** The same heap after everything is given back. *)

Definition demo5 : mm_heap_s := demo_step demo4 (Release true 0x480).
Definition demo6 : mm_heap_s := demo_step demo5 (Realloc 0x420 0).
Definition demo7 : mm_heap_s := demo_step demo6 (Malloc 0).

Lemma demo_session7 : session demo_heap demo7 [].
Proof.
  apply (demo_next _ [] (Malloc 0) 0); [|simpl; lia|by vm_compute..].
  apply (demo_next _ [(0x420, 40)] (Realloc 0x420 0) 0); [|simpl; split_and!; [lia|lia|]|by vm_compute..].
  - apply (demo_next _ [(0x480, 40); (0x420, 40)] (Release true 0x480) 0);
      [apply demo_session4|right; exists 40; set_solver|by vm_compute..].
  - right. exists 40. set_solver.
Qed.

Lemma demo_view h B : session demo_heap h B → heap_view h B.
Proof.
  intros Hs. destruct (init_view _ _ _ _ demo_region) as (h0 & Hi & Hv & _).
  rewrite demo_heap_eq in Hi. apply (inj Some) in Hi. rewrite <- Hi in Hv.
  exact (proj1 (session_view _ _ _ Hv Hs)).
Qed.

(** The chunks of the first heap. *)

Lemma demo_ok : heap_ok demo_heap (new_chunks 0x404 252 Free) ∧ mm_delaylist demo_heap = NULL.
Proof.
  destruct (init_ok _ _ _ _ demo_region) as (m' & Hi & Hok).
  rewrite demo_heap_eq in Hi. apply (inj Some) in Hi. rewrite Hi. split; [exact Hok|reflexivity].
Qed.

Lemma demo_geometry :
  mm_heapstart demo_heap = 0x410 ∧ mm_heapend demo_heap = 0x4f8 ∧ mm_nodelist demo_heap = 0x100.
Proof. by vm_compute. Qed.

Lemma demo_block_words :
  Forall (λ i, is_Some (mem demo_heap !! (4 * i))) (seqZ 0x140 16).
Proof.
  apply (bool_decide_unpack (Forall _ _)). by vm_compute.
Qed.

Lemma extension_at h :
  mm_heapstart h = 0x410 → mm_heapend h = 0x4f8 → mm_nodelist h = 0x100 →
  Forall (λ i, is_Some (mem h !! (4 * i))) (seqZ 0x140 16) → extension h 0x40.
Proof.
  intros G1 G2 G3 Hw.
  constructor; [constructor; cbn [set_heapend mm_heapstart mm_heapend mm_nodelist]; rewrite ?G1, ?G2, ?G3|..];
    try (lia || done).
  rewrite G2. intros k Hk Hk4. replace k with (4 * (k / 4)) by dlia.
  apply (proj1 (Forall_forall _ _) Hw), elem_of_seqZ. dlia.
Qed.

Lemma demo_extension : extension demo_heap 0x40.
Proof. apply extension_at; [apply demo_geometry..|exact demo_block_words]. Qed.

Definition demo1_chunks : list chunk := [guard; (48, Used); (176, Free); guard].

Lemma demo1_malloc : mm_malloc false demo_heap 40 = Some (0x420, demo1).
Proof. by vm_compute. Qed.

Lemma first_block h p h1 :
  heap_ok h (new_chunks 0x404 252 Free) → mm_delaylist h = NULL →
  mm_malloc false h 40 = Some (p, h1) → p ≠ NULL → heap_ok h1 demo1_chunks.
Proof.
  intros Hok Hd Hm Hp. pose proof (ho_place _ _ Hok) as Hpl. rewrite malloc_no_delay in Hm by exact Hd.
  destruct (alloc_ok h Hpl _ 40 Hok) as [[_ Hn]|(l & s & r & m' & Hcs & _ & Ha & Hok' & _)]; [lia|lia|..].
  - rewrite Hn in Hm. simplify_eq.
  - rewrite Ha in Hm. simplify_eq.
    assert (Hl : l = [guard] ∧ s = 224 ∧ r = [guard]); [|by destruct Hl as (-> & -> & ->)].
    change (new_chunks 0x404 252 Free) with [(8, Used); (224, Free); (8, Used)] in Hcs.
    by destruct l as [|c1 [|c2 [|c3 [|c4 l]]]]; simpl in Hcs; simplify_eq.
Qed.

Lemma demo1_ok : heap_ok demo1 demo1_chunks.
Proof. apply (first_block demo_heap 0x420 demo1 (proj1 demo_ok) (proj2 demo_ok) demo1_malloc). done. Qed.

(** ** The hypotheses hold in this heap *)

Lemma mm_refines_blocks_witness :
  ∃ res h', exec demo4 (Realloc 0x420 100) = Some (res, h') ∧
    spec_step (region_base 0x404) (region_top 0x404 252 - 8) [(0x480, 40); (0x420, 40)] (mem demo4)
      (Realloc 0x420 100) res (track h' [(0x480, 40); (0x420, 40)] (Realloc 0x420 100) res) (mem h') ∧
    session demo_heap h' (track h' [(0x480, 40); (0x420, 40)] (Realloc 0x420 100) res).
Proof.
  apply (mm_refines_blocks demo_mem 0x100 0x404 252);
    [exact demo_region|exact demo_heap_eq|exact demo_session4|].
  split; [lia|]. split; [lia|]. right. exists 40. set_solver.
Defined.

Lemma mm_session_invariant_witness :
  ∃ cs Bd, heap_ok demo4 cs ∧ delayed (mem demo4) (mm_delaylist demo4) Bd ∧
    blocks (region_base 0x404) cs ≡ₚ Bd ++ [(0x480, 40); (0x420, 40)].
Proof.
  exact (mm_session_invariant demo_mem 0x100 0x404 252 demo_heap demo4 _ demo_region demo_heap_eq demo_session4).
Defined.

Lemma mm_session_empties_witness : heap_ok demo7 (new_chunks 0x404 252 Free).
Proof.
  apply (mm_session_empties demo_mem 0x100 0x404 252 demo_heap demo7 demo_region demo_heap_eq demo_session7).
  by vm_compute.
Defined.

Lemma mm_malloc_best_fit_witness :
  (none_fits (new_chunks 0x404 252 Free) (chunk_size 40) ∧ mm_malloc false demo_heap 40 = Some (NULL, demo_heap)) ∨
  ∃ l s r h', new_chunks 0x404 252 Free = l ++ (s, Free) :: r ∧
    best_fit (new_chunks 0x404 252 Free) (chunk_size 40) s ∧
    mm_malloc false demo_heap 40 = Some (mm_heapstart demo_heap + total l + 8, h') ∧
    heap_ok h' (l ++ carve (chunk_size 40) s Used ++ r) ∧
    same_words (blocks (mm_heapstart demo_heap) (new_chunks 0x404 252 Free)) (mem demo_heap) (mem h').
Proof. apply (mm_malloc_best_fit demo_heap _ 40 (proj1 demo_ok) (proj2 demo_ok)); lia. Defined.

Lemma mm_free_merges_witness :
  ∃ h', mm_free false demo1 0x420 = Some h' ∧
    heap_ok h' (merge (mark (mm_heapstart demo1) demo1_chunks (0x420 - 8))) ∧
    blocks (mm_heapstart demo1) (merge (mark (mm_heapstart demo1) demo1_chunks (0x420 - 8))) ≡ₚ [] ∧
    same_words [] (mem demo1) (mem h').
Proof.
  apply (mm_free_merges demo1 demo1_chunks [] 0x420 40 demo1_ok).
  assert (Hs : mm_heapstart demo1 = 0x410) by by vm_compute. by rewrite Hs.
Defined.

Lemma mm_malloc_free_roundtrip_witness :
  ∃ h2, mm_free false demo1 0x420 = Some h2 ∧ heap_ok h2 (new_chunks 0x404 252 Free) ∧
    same_words (blocks (mm_heapstart demo_heap) (new_chunks 0x404 252 Free)) (mem demo_heap) (mem h2).
Proof.
  apply (mm_malloc_free_roundtrip demo_heap _ 40 0x420 demo1 (proj1 demo_ok) (proj2 demo_ok));
    [lia|lia|exact demo1_malloc|done].
Defined.

Lemma mm_realloc_keeps_contents_witness :
  ∃ res h', mm_realloc false demo2 0x450 60 = Some (res, h') ∧
    resized demo2 h' 0x450 40 [(0x420, 40)] 60 res.
Proof.
  apply (mm_realloc_keeps_contents demo2 0x450 40 [(0x420, 40)] 60 (demo_view _ _ demo_session2)); lia.
Defined.



Lemma mm_initialize_one_chunk_witness :
  ∃ h, mm_initialize demo_mem 0x100 0x404 252 = Some h ∧ heap_ok h (new_chunks 0x404 252 Free) ∧
    mm_heapstart h = region_base 0x404 ∧ mm_heapend h = region_top 0x404 252 - 8 ∧
    0x404 ≤ mm_heapstart h < 0x404 + 16 ∧ 0x404 + 252 - 16 < mm_heapend h + 8 ≤ 0x404 + 252.
Proof. exact (mm_initialize_one_chunk demo_mem 0x100 0x404 252 demo_region). Defined.

Lemma mm_mallinfo_exact_witness :
  mm_mallinfo demo1 =
    Some (mk_mallinfo (total demo1_chunks) (free_count demo1_chunks) (free_max 0 demo1_chunks)
            (used_bytes demo1_chunks) (free_bytes demo1_chunks)) ∧
  used_bytes demo1_chunks + free_bytes demo1_chunks = total demo1_chunks.
Proof. exact (mm_mallinfo_exact demo1 demo1_chunks demo1_ok). Defined.

Lemma mm_extend_adds_witness :
  ∃ l h' cs', new_chunks 0x404 252 Free = l ++ [guard] ∧
    mm_extend false demo_heap (mm_heapend demo_heap + 8) 0x40 0 = Some h' ∧
    cs' = merge (l ++ [(0x40, Free); guard]) ∧ hstate h' (mem h') cs' ∧ coalesced cs' = true ∧
    total cs' = total (new_chunks 0x404 252 Free) + 0x40 ∧
    blocks (mm_heapstart demo_heap) cs' = blocks (mm_heapstart demo_heap) (new_chunks 0x404 252 Free) ∧
    same_words (blocks (mm_heapstart demo_heap) (new_chunks 0x404 252 Free)) (mem demo_heap) (mem h') ∧ mm_mallinfo h' = None.
Proof. exact (mm_extend_adds demo_heap 0x40 _ (proj1 demo_ok) demo_extension). Defined.

Lemma mm_size2ndx_bounds_witness :
  0 ≤ mm_size2ndx 48 < MM_NNODES ∧ 2 ^ (mm_size2ndx 48 + 4) ≤ 48 ∧
  (mm_size2ndx 48 = MM_NNODES - 1 ∨ 48 < 2 ^ (mm_size2ndx 48 + 5)).
Proof. apply mm_size2ndx_bounds. lia. Defined.

(** ** Sizes that overflow *)

(** [mm_realloc] does not check the size of the new chunk for overflow: the request for
    2^32 - 7 bytes succeeds, and leaves a block of 8 bytes. *)

Lemma mm_realloc_overflow :
  ∃ h, mm_realloc false demo1 0x420 (2 ^ 32 - 7) = Some (0x420, h) ∧
    malloc_usable_size demo1 0x420 = Some 40 ∧ malloc_usable_size h 0x420 = Some 8.
Proof. eexists. split; [vm_compute; reflexivity|]. by vm_compute. Qed.

(** Twice an alignment of 2^31 is 0: [mm_memalign] allocates the size alone, and then
    writes the header of the aligned chunk outside of the heap. *)

Lemma mm_memalign_overflow :
  (∃ h, mm_malloc false demo_heap 16 = Some (0x420, h)) ∧
  mm_alignchunk 0x420 (2 ^ 31 - 1) = 2 ^ 31 ∧ mm_memalign false demo_heap (2 ^ 31) 16 = None.
Proof. split; [eexists; vm_compute; reflexivity|]. by vm_compute. Qed.

End MmProps.
