(* ===== verification/Time.v ===== *)
(** * Calendar time (libs/libc/time)

    [gmtime_r] breaks a [time_t] down into a [tm], [mktime] goes the other way.  The days
    are converted in one of two ways: by default with the leap years of 1970 to 2099, and
    with CONFIG_GREGORIAN_TIME by the formulas of the Gregorian and, with
    CONFIG_JULIAN_TIME, the Julian calendar.  The calendar that they should implement is
    [civil]: the date that is reached from 1970-01-01 in a number of days. *)

From stdpp Require Import base list numbers option.
From S2P Require Import Prelude.

Module Time.

(** The options of the build. *)

Record config := mk_config {
  CONFIG_GREGORIAN_TIME : bool;
  CONFIG_JULIAN_TIME : bool
}.

Record tm := mk_tm {
  tm_sec : Z;
  tm_min : Z;
  tm_hour : Z;
  tm_mday : Z;
  tm_mon : Z;
  tm_year : Z;
  tm_wday : Z;
  tm_yday : Z;
  tm_isdst : Z;
  tm_gmtoff : Z
}.

Definition SEC_PER_MIN : Z := 60.
Definition SEC_PER_HOUR : Z := SEC_PER_MIN * 60.
Definition SEC_PER_DAY : Z := 24 * SEC_PER_HOUR.

Definition JD_OF_EPOCH : Z := 2440588.
Definition GREG_DUTC : Z := -141427.
Definition GREG_YEAR : Z := 1582.
Definition GREG_MONTH : Z := 10.
Definition GREG_DAY : Z := 15.

Definition clock_isleapyear (year : Z) : Z :=
  if Z.rem year 400 =? 0 then 1
  else if Z.rem year 100 =? 0 then 0
  else if Z.rem year 4 =? 0 then 1 else 0.

Definition g_daysbeforemonth : list Z :=
  [0; 31; 59; 90; 120; 151; 181; 212; 243; 273; 304; 334; 365].

Definition clock_daysbeforemonth (month : Z) (leapyear : bool) : option Z :=
  retval ← arr_get g_daysbeforemonth month;
  Some (if (2 <=? month) && leapyear then retval + 1 else retval).

Definition clock_dayoftheweek (mday month year : Z) : Z :=
  let '(year, month) := if month <=? 2 then (s32 (year - 1), s32 (month + 12)) else (year, month) in
  let month := s32 (month - 2) in
  Z.rem (s32 (mday + year + Z.quot year 4 - Z.quot year 100 + Z.quot year 400 + Z.quot (s32 (31 * month)) 12)) 7.

(** ** Days to dates *)

Definition clock_utc2gregorian (jd : Z) : Z * Z * Z :=
  let l := s32 (u32 (jd + 68569)) in
  let n := Z.quot (s32 (4 * l)) 146097 in
  let l := s32 (l - Z.quot (s32 (146097 * n + 3)) 4) in
  let i := Z.quot (s32 (4000 * (l + 1))) 1461001 in
  let l := s32 (l - Z.quot (s32 (1461 * i)) 4 + 31) in
  let j := Z.quot (s32 (80 * l)) 2447 in
  let d := s32 (l - Z.quot (s32 (2447 * j)) 80) in
  let l := Z.quot j 11 in
  let m := s32 (j + 2 - 12 * l) in
  let y := s32 (100 * (n - 49) + i + l) in
  (y, m, d).

Definition clock_utc2julian (jd : Z) : Z * Z * Z :=
  let j := s32 (u32 (jd + 1402)) in
  let k := Z.quot (s32 (j - 1)) 1461 in
  let l := s32 (j - 1461 * k) in
  let n := s32 (Z.quot (s32 (l - 1)) 365 - Z.quot l 1461) in
  let i := s32 (l - 365 * n + 30) in
  let j := Z.quot (s32 (80 * i)) 2447 in
  let d := s32 (i - Z.quot (s32 (2447 * j)) 80) in
  let i := Z.quot j 11 in
  let m := s32 (j + 2 - 12 * i) in
  let y := s32 (4 * k + n + i - 4716) in
  (y, m, d).

(** The comparison with GREG_DUTC is one of unsigned integers. *)

Definition clock_utc2calendar_gregorian (julian : bool) (utc : Z) : Z * Z * Z :=
  if julian then
    if u32 GREG_DUTC <=? utc then clock_utc2gregorian (u32 (utc + JD_OF_EPOCH))
    else clock_utc2julian (u32 (utc + JD_OF_EPOCH))
  else clock_utc2gregorian (u32 (utc + JD_OF_EPOCH)).

Fixpoint year_loop (fuel : nat) (value days : Z) : option (Z * Z * bool) :=
  match fuel with
  | O => None
  | S fuel =>
      let leapyear := negb (clock_isleapyear (s32 (value + 1970)) =? 0) in
      let tmp := if leapyear then 366 else 365 in
      if tmp <=? days then year_loop fuel (s32 (value + 1)) (u32 (days - tmp)) else Some (value, days, leapyear)
  end.

Fixpoint month_loop (fuel : nat) (min max days : Z) (leapyear : bool) : option Z :=
  match fuel with
  | O => None
  | S fuel =>
      let next min max := if min <? max then month_loop fuel min max days leapyear else Some min in
      let value := Z.shiftr (min + max) 1 in
      tmp ← clock_daysbeforemonth (value + 1) leapyear;
      if days <? tmp then
        tmp ← clock_daysbeforemonth value leapyear;
        if days <? tmp then next min (value - 1) else Some value
      else next (value + 1) max
  end.

Definition clock_utc2calendar_simple (days : Z) : option (Z * Z * Z) :=
  let value := Z.quot days (4 * 365 + 1) in
  let days := u32 (days - value * (4 * 365 + 1)) in
  let value := s32 (Z.shiftl value 2) in
  '(value, days, leapyear) ← year_loop 5 value days;
  let year := s32 (1970 + value) in
  value ← month_loop 12 0 11 days leapyear;
  before ← clock_daysbeforemonth value leapyear;
  let days := u32 (days - before) in
  Some (year, value + 1, s32 (u32 (days + 1))).

Definition clock_utc2calendar (cfg : config) (utc : Z) : option (Z * Z * Z) :=
  if CONFIG_GREGORIAN_TIME cfg then Some (clock_utc2calendar_gregorian (CONFIG_JULIAN_TIME cfg) utc)
  else clock_utc2calendar_simple utc.

Definition gmtime_r (cfg : config) (timep : Z) : option tm :=
  let epoch := timep in
  let jdn := Z.quot epoch SEC_PER_DAY in
  let epoch := u32 (epoch - SEC_PER_DAY * jdn) in
  let hour := Z.quot epoch SEC_PER_HOUR in
  let epoch := u32 (epoch - SEC_PER_HOUR * hour) in
  let min := Z.quot epoch SEC_PER_MIN in
  let epoch := u32 (epoch - SEC_PER_MIN * min) in
  let sec := epoch in
  '(year, month, day) ← clock_utc2calendar cfg jdn;
  before ← clock_daysbeforemonth (s32 (month - 1)) (negb (clock_isleapyear year =? 0));
  Some (mk_tm sec min hour day (s32 (month - 1)) (s32 (year - 1900))
    (clock_dayoftheweek day month year) (s32 (day + before)) 0 0).

(** ** Dates to days *)

Definition clock_gregorian2utc (year month day : Z) : Z :=
  let temp := if month <=? 2 then -1 else 0 in
  u32 (s32 (Z.quot (s32 (1461 * (year + 4800 + temp))) 4
    + Z.quot (s32 (367 * (month - 2 - 12 * temp))) 12
    - Z.quot (s32 (3 * Z.quot (s32 (year + 4900 + temp)) 100)) 4 + day - 32075)).

Definition clock_julian2utc (year month day : Z) : Z :=
  u32 (s32 (s32 (367 * year)
    - Z.quot (s32 (7 * (year + 5001 + Z.quot (s32 (month - 9)) 7))) 4
    + Z.quot (s32 (275 * month)) 9
    + day + 1729777)).

Definition clock_calendar2utc_gregorian (julian : bool) (year month day : Z) : Z :=
  let dyear := Z.quot (s32 (month - 1)) 12 in
  let month := s32 (month - 12 * dyear) in
  let year := s32 (year + dyear) in
  let '(month, year) := if month <? 1 then (s32 (month + 12), s32 (year - 1)) else (month, year) in
  if julian then
    let isgreg :=
      if GREG_YEAR <? year then true
      else if year <? GREG_YEAR then false
      else if GREG_MONTH <? month then true
      else if month <? GREG_MONTH then false
      else GREG_DAY <=? day in
    if isgreg then u32 (clock_gregorian2utc year month day - JD_OF_EPOCH)
    else u32 (clock_julian2utc year month day - JD_OF_EPOCH)
  else u32 (clock_gregorian2utc year month day - JD_OF_EPOCH).

Definition clock_calendar2utc_simple (year month day : Z) : option Z :=
  let days := u32 (s32 ((year - 1970) * 365)) in
  let days := u32 (days + Z.shiftr (s32 (year - 1969)) 2) in
  before ← clock_daysbeforemonth month (negb (clock_isleapyear year =? 0));
  let days := u32 (days + before) in
  Some (u32 (days + s32 (day - 1))).

Definition clock_calendar2utc (cfg : config) (year month day : Z) : option Z :=
  if CONFIG_GREGORIAN_TIME cfg then Some (clock_calendar2utc_gregorian (CONFIG_JULIAN_TIME cfg) year month day)
  else clock_calendar2utc_simple year month day.

Definition mktime (cfg : config) (tp : tm) : option Z :=
  jdn ← clock_calendar2utc cfg (s32 (tm_year tp + 1900)) (tm_mon tp) (tm_mday tp);
  Some (u32 (u32 (u32 (jdn * 24 + tm_hour tp) * 60 + tm_min tp) * 60 + tm_sec tp)).

(** The time at which the clock starts without a real-time clock. *)

Definition clock_basetime (cfg : config) (start_year start_month start_day : Z) : option Z :=
  jdn ← clock_calendar2utc cfg start_year (start_month - 1) start_day;
  Some (u32 (jdn * SEC_PER_DAY)).

End Time.
