(* ===== verification/TimeProps.v ===== *)
(** * Properties of calendar time

    Dates are compared by the number of their day, [day_no]; on valid dates it is
    injective, and the code is right when its result is valid and has the right number. *)

From stdpp Require Import base list numbers option.
From S2P Require Import Prelude Time.

Module TimeProps.

Import Time.

(** ** The calendar *)

Definition leap (y : Z) : bool := (y mod 4 =? 0) && (negb (y mod 100 =? 0) || (y mod 400 =? 0)).

Definition month_days (y m : Z) : Z :=
  if m =? 2 then if leap y then 29 else 28
  else if (m =? 4) || (m =? 6) || (m =? 9) || (m =? 11) then 30 else 31.

Definition next_day (c : Z * Z * Z) : Z * Z * Z :=
  let '(y, m, d) := c in
  if d <? month_days y m then (y, m, d + 1)
  else if m <? 12 then (y, m + 1, 1) else (y + 1, 1, 1).

(** The date [n] days after 1970-01-01. *)

Definition civil (n : nat) : Z * Z * Z := Nat.iter n next_day (1970, 1, 1).

Definition valid (c : Z * Z * Z) : Prop :=
  let '(y, m, d) := c in 1 ≤ m ≤ 12 ∧ 1 ≤ d ≤ month_days y m.

(** The day of the year, from 0, and the number of a day. *)

Definition days_before (y m : Z) : Z :=
  nth (Z.to_nat (m - 1)) g_daysbeforemonth 0 + (if (2 <? m) && leap y then 1 else 0).

Definition year_day (c : Z * Z * Z) : Z := let '(y, m, d) := c in days_before y m + d - 1.

Definition year_start (y : Z) : Z := 365 * (y - 1970) + (y - 1) / 4 - (y - 1) / 100 + (y - 1) / 400 - 477.

Definition day_no (c : Z * Z * Z) : Z := year_start c.1.1 + year_day c.

Definition year_len (y : Z) : Z := if leap y then 366 else 365.

Lemma year_start_next y : year_start (y + 1) = year_start y + year_len y.
Proof.
  unfold year_start, year_len, leap. destruct (Z.eqb_spec (y mod 4) 0), (Z.eqb_spec (y mod 100) 0), (Z.eqb_spec (y mod 400) 0);
    simpl; dlia.
Qed.

Lemma year_start_mono y y' : y < y' → year_start y + year_len y ≤ year_start y'.
Proof.
  intros H. rewrite <- year_start_next. unfold year_start. dlia.
Qed.

(** Case analysis on a month. *)

Lemma month_cases m : 1 ≤ m ≤ 12 → In m [1; 2; 3; 4; 5; 6; 7; 8; 9; 10; 11; 12].
Proof. intros. simpl. lia. Qed.

Ltac months H := apply month_cases in H; simpl in H; repeat (destruct H as [<-|H]); [..|done].

Lemma month_bounds y m : 1 ≤ m ≤ 12 → 0 ≤ days_before y m ≤ 335 ∧ 28 ≤ month_days y m ≤ 31.
Proof. intros Hm. unfold days_before, month_days. months Hm; simpl; destruct (leap y); simpl; lia. Qed.

Lemma year_day_range c : valid c → 0 ≤ year_day c < year_len c.1.1.
Proof.
  destruct c as [[y m] d]. intros [Hm Hd]. unfold year_day, year_len, days_before, month_days in *. simpl fst.
  months Hm; simpl in *; destruct (leap y); simpl in *; lia.
Qed.

Lemma valid_next c : valid c → valid (next_day c).
Proof.
  destruct c as [[y m] d]. intros [Hm Hd]. unfold next_day.
  destruct (Z.ltb_spec d (month_days y m)); [split; lia|].
  destruct (Z.ltb_spec m 12); (split; [lia|]); unfold month_days; repeat case_match; lia.
Qed.

Lemma day_no_next c : valid c → day_no (next_day c) = day_no c + 1.
Proof.
  destruct c as [[y m] d]. intros [Hm Hd]. unfold next_day, day_no.
  destruct (Z.ltb_spec d (month_days y m)) as [|Hl]; [unfold year_day; simpl; lia|].
  destruct (Z.ltb_spec m 12); simpl fst; [|rewrite year_start_next]; unfold year_len, year_day, days_before, month_days in *;
    months Hm; simpl in *; destruct (leap y); simpl in *; lia.
Qed.

Lemma civil_valid n : valid (civil n).
Proof. induction n; [done|]. simpl. by apply valid_next. Qed.

Lemma civil_day_no n : day_no (civil n) = Z.of_nat n.
Proof.
  induction n as [|n IH]; [done|]. change (civil (S n)) with (next_day (civil n)).
  rewrite day_no_next by apply civil_valid. lia.
Qed.

Lemma year_day_inj y m d m' d' :
  valid (y, m, d) → valid (y, m', d') → year_day (y, m, d) = year_day (y, m', d') → m = m' ∧ d = d'.
Proof.
  intros [Hm Hd] [Hm' Hd']. unfold year_day, days_before, month_days in *.
  months Hm; months Hm'; simpl in *; destruct (leap y); simpl in *; lia.
Qed.

Lemma day_no_inj c c' : valid c → valid c' → day_no c = day_no c' → c = c'.
Proof.
  intros Hc Hc' He. pose proof (year_day_range c Hc). pose proof (year_day_range c' Hc').
  destruct c as [[y m] d], c' as [[y' m'] d']. unfold day_no in He. simpl fst in *.
  assert (y = y') as ->.
  { destruct (Z.lt_trichotomy y y') as [Hy|[|Hy]]; [|done|]; apply year_start_mono in Hy; lia. }
  destruct (year_day_inj y' m d m' d') as [-> ->]; [done..|lia|done].
Qed.

(** The only valid date of the right number is the right date. *)

Lemma civil_unique n c : valid c → day_no c = Z.of_nat n → c = civil n.
Proof. intros Hc Hn. apply day_no_inj; [done|apply civil_valid|]. by rewrite civil_day_no. Qed.

(** ** Conversion by leap years *)

Lemma isleap y : 0 ≤ y → negb (clock_isleapyear y =? 0) = leap y.
Proof.
  intros. unfold clock_isleapyear, leap. rewrite !Z.rem_mod_nonneg by lia.
  destruct (Z.eqb_spec (y mod 400) 0), (Z.eqb_spec (y mod 100) 0), (Z.eqb_spec (y mod 4) 0); simpl; try done; dlia.
Qed.

Lemma daysbeforemonth y m : 1 ≤ m ≤ 12 → clock_daysbeforemonth (m - 1) (leap y) = Some (days_before y m).
Proof. intros Hm. months Hm; unfold days_before; simpl; destruct (leap y); done. Qed.

Lemma year_loop_ok fuel v d :
  0 ≤ v → v + Z.of_nat fuel ≤ 1000 → 0 ≤ d < 365 * Z.of_nat fuel →
  ∃ v' d', year_loop fuel v d = Some (v', d', leap (1970 + v')) ∧ v ≤ v' < v + Z.of_nat fuel ∧
    0 ≤ d' < year_len (1970 + v') ∧ year_start (1970 + v') + d' = year_start (1970 + v) + d.
Proof.
  revert v d. induction fuel as [|fuel IH]; intros v d Hv Hf Hd; [lia|].
  cbn [year_loop]. rewrite s32_small, isleap by lia. replace (v + 1970) with (1970 + v) by lia.
  change (if leap (1970 + v) then 366 else 365) with (year_len (1970 + v)).
  assert (365 ≤ year_len (1970 + v) ≤ 366) by (unfold year_len; destruct (leap _); lia).
  destruct (Z.leb_spec (year_len (1970 + v)) d).
  - fits. destruct (IH (v + 1) (d - year_len (1970 + v))) as (v' & d' & -> & ? & ? & Hy); [lia..|].
    exists v', d'. split; [done|]. split; [lia|]. split; [done|].
    rewrite Hy. replace (1970 + (v + 1)) with (1970 + v + 1) by lia. rewrite year_start_next. lia.
  - exists v, d. split; [done|]. split; [lia|]. split; [lia|done].
Qed.

(** The binary search finds the month of every day of a year. *)

Definition month_found (lp : bool) (r : Z) : bool :=
  let y := if lp then 4 else 1 in
  match month_loop 12 0 11 r lp with
  | Some m => (0 <=? m) && (m <=? 11) && (days_before y (m + 1) <=? r) && (r <? days_before y (m + 1) + month_days y (m + 1))
  | None => false
  end.

Lemma month_loop_found (lp : bool) r : 0 ≤ r < (if lp then 366 else 365) → month_found lp r = true.
Proof.
  intros Hr. assert (Hall : forallb (month_found lp) (seqZ 0 (if lp then 366 else 365)) = true) by (destruct lp; vm_compute; done).
  rewrite forallb_forall in Hall. apply Hall, list_elem_of_In, elem_of_seqZ. lia.
Qed.

Lemma month_loop_ok y r :
  0 ≤ r < year_len y →
  ∃ m, month_loop 12 0 11 r (leap y) = Some m ∧ 0 ≤ m ≤ 11 ∧ days_before y (m + 1) ≤ r < days_before y (m + 1) + month_days y (m + 1).
Proof.
  intros Hr. pose proof (month_loop_found (leap y) r Hr) as H. unfold month_found in H.
  destruct (month_loop 12 0 11 r (leap y)) as [m|]; [|done]. bool_to_prop. exists m. split; [done|]. split; [lia|].
  unfold days_before, month_days in *. destruct (leap y); [change (leap 4) with true in *|change (leap 1) with false in *]; cbv iota in *; lia.
Qed.

Lemma utc2calendar_from v r y0 :
  0 ≤ v ≤ 500 → 0 ≤ r < 1461 → y0 = 1970 + v →
  ∃ c, ('(value, days, leapyear) ← year_loop 5 v r;
        let year := s32 (1970 + value) in
        value ← month_loop 12 0 11 days leapyear;
        before ← clock_daysbeforemonth value leapyear;
        let days := u32 (days - before) in
        Some (year, value + 1, s32 (u32 (days + 1)))) = Some c ∧ valid c ∧ day_no c = year_start y0 + r ∧ y0 ≤ c.1.1 < y0 + 5.
Proof.
  intros Hv Hr ->. destruct (year_loop_ok 5 v r) as (v' & d & -> & Hv' & Hd & Hs); [lia..|]. cbn [mbind option_bind].
  destruct (month_loop_ok (1970 + v') d Hd) as (m & -> & Hm & Hdb). cbn [mbind option_bind].
  pose proof (daysbeforemonth (1970 + v') (m + 1)) as Hb. rewrite Z.add_simpl_r in Hb. rewrite Hb by lia. cbn [mbind option_bind].
  destruct (month_bounds (1970 + v') (m + 1)) as [? ?]; [lia|].
  fits. eexists. split; [done|]. split; [unfold valid; lia|]. unfold day_no, year_day. simpl fst. lia.
Qed.

(** The leap year that 2100 is not comes to bear in 2102. *)

Definition day_shown (n : Z) : Z := if n <? 48213 then n else n - 1.

Lemma utc2calendar_simple_ok n : 0 ≤ n ≤ 49710 → clock_utc2calendar_simple n = Some (civil (Z.to_nat (day_shown n))).
Proof.
  intros Hn. unfold clock_utc2calendar_simple. rewrite Z.quot_div_nonneg by lia.
  change (4 * 365 + 1) with 1461. rewrite Z.shiftl_mul_pow2 by lia. change (2 ^ 2) with 4. fits.
  destruct (utc2calendar_from (n / 1461 * 4) (n - n / 1461 * 1461) (1970 + n / 1461 * 4)) as (c & E & Hc & Hd & _); [dlia..|].
  etrans; [exact E|]. f_equal. apply civil_unique; [done|]. rewrite Hd. unfold day_shown, year_start.
  destruct (Z.ltb_spec n 48213); rewrite Z2Nat.id by lia; dlia.
Qed.

(** The day after which the dates of 2101 and later have one leap day too many. *)

Lemma calendar2utc_simple_ok y m d :
  valid (y, m, d) → 1970 ≤ y ≤ 2107 →
  clock_calendar2utc_simple y (m - 1) d = Some (day_no (y, m, d) + (if y <=? 2100 then 0 else 1)).
Proof.
  intros Hv Hy. pose proof (year_day_range _ Hv) as Hr. destruct Hv as [Hm Hd]. unfold clock_calendar2utc_simple.
  rewrite isleap, daysbeforemonth by lia. cbn [mbind option_bind]. rewrite Z.shiftr_div_pow2 by lia.
  unfold day_no, year_day in *. simpl fst in *.
  destruct (month_bounds y m Hm) as [? ?].
  fits. f_equal. unfold year_start. destruct (Z.leb_spec y 2100); dlia.
Qed.

Lemma leap_days y :
  y / 4 - y / 100 + y / 400 = (y - 1) / 4 - (y - 1) / 100 + (y - 1) / 400 + (if leap y then 1 else 0).
Proof.
  unfold leap. destruct (Z.eqb_spec (y mod 4) 0), (Z.eqb_spec (y mod 100) 0), (Z.eqb_spec (y mod 400) 0); simpl; dlia.
Qed.

Ltac eval_to_nat :=
  repeat match goal with
  | |- context [Z.to_nat ?k] => let v := eval vm_compute in (Z.to_nat k) in change (Z.to_nat k) with v
  end.

Ltac abstract_quotients :=
  repeat match goal with
  | H : context [?a / ?k] |- _ => generalize dependent (a / k); intros
  end.

Lemma dayoftheweek_ok y m d :
  valid (y, m, d) → 1970 ≤ y ≤ 2107 → clock_dayoftheweek d m y = (day_no (y, m, d) + 4) mod 7.
Proof.
  intros Hv Hy. pose proof (leap_days y) as Hl. destruct (month_bounds y m (proj1 Hv)) as [_ H]. destruct Hv as [Hm Hd].
  unfold clock_dayoftheweek, day_no, year_day, days_before, year_start. cbn [fst].
  assert (0 ≤ (y - 1) / 4 - (y - 1) / 100 + (y - 1) / 400 ≤ 1000) by dlia.
  destruct (Z.leb_spec m 2) as [Hm2|Hm2]; rewrite ?(s32_small (y - 1)) by lia;
    rewrite !Z.quot_div_nonneg, Z.rem_mod_nonneg by (fits; dlia); fits.
  all: clear H Hd Hy; months Hm; try lia; eval_to_nat; cbn [nth g_daysbeforemonth Z.ltb Z.compare Pos.compare Pos.compare_cont andb].
  all: abstract_quotients; destruct (leap y); dlia.
Qed.

(** ** Conversion by the formulas of the Gregorian calendar *)

(** The year that begins in March, and the month in it, of a number of days. *)

Definition march_month (o : Z) : Z * Z * Z :=
  let l := o + 31 in
  let j := 80 * l / 2447 in
  (j + 2 - 12 * (j / 11), l - 2447 * j / 80, j / 11).

Definition march_found (o : Z) : bool :=
  let '(m, d, l) := march_month o in
  (1 <=? m) && (m <=? 12) && (1 <=? d) && (d <=? if o =? 365 then 29 else month_days 1 m) &&
  (if o <? 306 then (l =? 0) && (3 <=? m) && (days_before 1 m + d - 1 =? o + 59)
   else (l =? 1) && (m <=? 2) && (days_before 1 m + d - 1 =? o - 306)).

Lemma march_month_found o : 0 ≤ o ≤ 365 → march_found o = true.
Proof.
  intros Ho. assert (Hall : forallb march_found (seqZ 0 366) = true) by (vm_compute; done).
  rewrite forallb_forall in Hall. apply Hall, list_elem_of_In, elem_of_seqZ. lia.
Qed.

Lemma march_month_ok y o m d l :
  0 ≤ o ≤ 364 ∨ (o = 365 ∧ leap (y + 1) = true) → march_month o = (m, d, l) →
  valid (y + l, m, d) ∧ day_no (y + l, m, d) = year_start y + year_len y - 306 + o.
Proof.
  intros Ho E. pose proof (march_month_found o ltac:(lia)) as H. unfold march_found in H. rewrite E in H.
  unfold day_no, year_day. cbn [fst]. destruct (Z.ltb_spec o 306); bool_to_prop; subst l.
  - rewrite Z.add_0_r. unfold days_before, year_len, month_days in *. replace (2 <? m) with true in * by (symmetry; apply Z.ltb_lt; lia).
    replace (m =? 2) with false in * by (symmetry; apply Z.eqb_neq; lia). change (leap 1) with false in *. cbn [andb] in *.
    replace (o =? 365) with false in * by (symmetry; apply Z.eqb_neq; lia). split; [unfold valid, month_days|destruct (leap y); lia].
    replace (m =? 2) with false in * by (symmetry; apply Z.eqb_neq; lia). lia.
  - rewrite year_start_next. unfold days_before, month_days in *. replace (2 <? m) with false in * by (symmetry; apply Z.ltb_ge; lia).
    change (leap 1) with false in *. cbn [andb] in *. split; [|lia]. unfold valid, month_days. split; [lia|].
    assert (Hm : 1 ≤ m ≤ 12) by lia. destruct (Z.eqb_spec o 365); [|months Hm; simpl in *; try lia; destruct (leap (y + 1)); lia].
    destruct Ho as [|[_ Hl]]; [lia|]. rewrite Hl. months Hm; simpl in *; lia.
Qed.

(** The century, the year in it and the day of that year. *)

Lemma gregorian_year n N L I :
  0 ≤ n ≤ 49710 → N = 4 * (n + 2509157) / 146097 → L = n + 2509157 - (146097 * N + 3) / 4 → I = 4000 * (L + 1) / 1461001 →
  let y := 100 * (N - 49) + I in let o := L - 1461 * I / 4 in
  68 ≤ N ≤ 70 ∧ 0 ≤ L ≤ 36524 ∧ 0 ≤ I ≤ 100 ∧ (0 ≤ o ≤ 364 ∨ (o = 365 ∧ leap (y + 1) = true)) ∧
  year_start y + year_len y - 306 + o = n.
Proof.
  intros Hn EN EL EI y o. assert (68 ≤ N ≤ 70) by dlia. assert (0 ≤ L ≤ 36524) by dlia. assert (0 ≤ I ≤ 99) by dlia.
  split; [done|]. split; [done|]. split; [lia|]. rewrite <- year_start_next.
  assert (Hy : year_start (y + 1) - 306 + o = n).
  { unfold year_start, o. rewrite Z.add_simpl_r. assert (N = 68 ∨ N = 69 ∨ N = 70) as [->|[->| ->]] by lia; unfold y; dlia. }
  split; [|done]. assert (0 ≤ o ≤ 365) by (unfold o; dlia).
  destruct (decide (o = 365)) as [Ho|]; [right; split; [done|]|lia]. unfold leap, o, y in *.
  assert (N = 68 ∨ N = 69 ∨ N = 70) as [->|[->| ->]] by lia.
  all: rewrite !andb_true_iff, orb_true_iff, negb_true_iff, !Z.eqb_eq, Z.eqb_neq; dlia.
Qed.

Lemma utc2gregorian_ok n : 0 ≤ n ≤ 49710 → clock_utc2gregorian (u32 (n + JD_OF_EPOCH)) = civil (Z.to_nat n).
Proof.
  intros Hn. unfold clock_utc2gregorian, JD_OF_EPOCH. fits. replace (n + 2440588 + 68569) with (n + 2509157) by lia.
  destruct (gregorian_year n _ _ _ Hn eq_refl eq_refl eq_refl) as (HN & HL & HI & Ho & Hd).
  rewrite (Z.quot_div_nonneg (4 * (n + 2509157))) by lia. set (N := 4 * (n + 2509157) / 146097) in *.
  rewrite (Z.quot_div_nonneg (146097 * N + 3)) by lia. set (L := n + 2509157 - (146097 * N + 3) / 4) in *.
  rewrite (Z.quot_div_nonneg (4000 * (L + 1))) by lia. set (I := 4000 * (L + 1) / 1461001) in *.
  rewrite (Z.quot_div_nonneg (1461 * I)) by lia. set (o := L - 1461 * I / 4) in *.
  rewrite (Z.quot_div_nonneg (80 * (o + 31))) by lia. rewrite !Z.quot_div_nonneg by dlia.
  destruct (march_month o) as [[m d] l] eqn:E. destruct (march_month_ok _ o m d l Ho E) as [Hv Hn'].
  unfold march_month in E. injection E as <- <- <-. apply civil_unique; [done|]. rewrite Hn', Z2Nat.id by lia. done.
Qed.

Lemma gregorian_days z :
  1461 * (z + 4800) / 4 - 3 * ((z + 4900) / 100) / 4 = 365 * z + (z / 4 - z / 100 + z / 400) + 1753164.
Proof. dlia. Qed.

Lemma gregorian2utc_ok y m d :
  1 ≤ m ≤ 12 → 0 ≤ d ≤ 1000 → 1900 ≤ y ≤ 2200 →
  clock_gregorian2utc y m d = JD_OF_EPOCH + year_start y + days_before y m + d - 1.
Proof.
  intros Hm Hd Hy. unfold clock_gregorian2utc, JD_OF_EPOCH.
  destruct (Z.leb_spec m 2); rewrite ?Z.add_0_r, ?Z.mul_0_r; fits; rewrite !Z.quot_div_nonneg by dlia;
    pose proof (leap_days y); unfold days_before, year_start.
  - pose proof (gregorian_days (y - 1)) as Hg.
    replace (y + 4800 + -1) with (y - 1 + 4800) by lia. replace (y + 4900 + -1) with (y - 1 + 4900) by lia.
    abstract_quotients. months Hm; try lia; eval_to_nat; cbn [nth g_daysbeforemonth Z.ltb Z.compare Pos.compare Pos.compare_cont andb]; dlia.
  - pose proof (gregorian_days y) as Hg.
    abstract_quotients. months Hm; try lia; eval_to_nat; cbn [nth g_daysbeforemonth Z.ltb Z.compare Pos.compare Pos.compare_cont andb]; dlia.
Qed.

(** The month before, and what [mktime] makes of a month that it counts from 1. *)

Definition prev_month_days (c : Z * Z * Z) : Z :=
  let '(y, m, _) := c in if m =? 1 then 31 else month_days y (m - 1).

Lemma calendar2utc_gregorian_ok y m d :
  valid (y, m, d) → 1970 ≤ y ≤ 2107 →
  clock_calendar2utc_gregorian false y (m - 1) d = u32 (day_no (y, m, d) - prev_month_days (y, m, d)).
Proof.
  intros [Hm Hd] Hy. destruct (month_bounds y m Hm) as [_ ?]. unfold clock_calendar2utc_gregorian.
  replace (s32 (m - 1 - 1) ÷ 12) with 0 by (fits; dlia). rewrite Z.mul_0_r, Z.sub_0_r, Z.add_0_r. fits.
  destruct (Z.ltb_spec (m - 1) 1); fits; rewrite gregorian2utc_ok by lia; f_equal; unfold day_no, year_day, prev_month_days; cbn [fst].
  - replace m with 1 by lia. change (1 =? 1) with true. cbv iota.
    pose proof (year_start_next (y - 1)) as Hn. rewrite Z.sub_add in Hn. rewrite Hn. unfold year_len, days_before.
    change (1 - 1 + 12) with 12. eval_to_nat. cbn [nth g_daysbeforemonth Z.ltb Z.compare Pos.compare Pos.compare_cont andb].
    destruct (leap (y - 1)); lia.
  - replace (m =? 1) with false by (symmetry; apply Z.eqb_neq; lia). unfold days_before, month_days.
    months Hm; try lia; simpl; destruct (leap y); lia.
Qed.

(** ** Properties *)

Definition simple : config := mk_config false false.
Definition gregorian : config := mk_config true false.
Definition julian : config := mk_config true true.

Definition date (t : tm) : Z * Z * Z := (tm_year t + 1900, tm_mon t + 1, tm_mday t).

(** What [gmtime_r] makes of the time [t] when it takes the day to be [n]. *)

Definition broken_down (t : Z) (n : Z) (r : tm) : Prop :=
  date r = civil (Z.to_nat n) ∧ tm_wday r = (n + 4) mod 7 ∧ tm_yday r = year_day (date r) + 1 ∧
  0 ≤ tm_hour r < 24 ∧ 0 ≤ tm_min r < 60 ∧ 0 ≤ tm_sec r < 60 ∧
  t mod 86400 = tm_hour r * 3600 + tm_min r * 60 + tm_sec r.

Lemma civil_year n : Z.of_nat n ≤ 49710 → 1970 ≤ (civil n).1.1 ≤ 2107.
Proof.
  intros Hn. pose proof (civil_day_no n) as Hd. pose proof (year_day_range _ (civil_valid n)) as Hr. unfold day_no in Hd.
  split; apply Z.nlt_ge; intros Hy%year_start_mono.
  - change (year_start 1970) with 0 in Hy. lia.
  - change (year_start 2107 + year_len 2107) with 50403 in Hy. lia.
Qed.

Lemma gmtime_r_of cfg t n :
  0 ≤ t < 2 ^ 32 → 0 ≤ n ≤ 49710 → clock_utc2calendar cfg (t / 86400) = Some (civil (Z.to_nat n)) →
  ∃ r, gmtime_r cfg t = Some r ∧ broken_down t n r.
Proof.
  intros Ht Hn E. unfold gmtime_r. change SEC_PER_DAY with 86400. change SEC_PER_HOUR with 3600. change SEC_PER_MIN with 60.
  rewrite (Z.quot_div_nonneg t) by lia. rewrite E. cbn [mbind option_bind].
  pose proof (civil_year (Z.to_nat n) ltac:(lia)) as Hy. pose proof (civil_valid (Z.to_nat n)) as Hv. pose proof (civil_day_no (Z.to_nat n)) as Hd.
  destruct (civil (Z.to_nat n)) as [[y m] d] eqn:Ec. cbn [fst] in Hy. rewrite Z2Nat.id in Hd by lia.
  destruct (month_bounds y m (proj1 Hv)). pose proof (proj1 Hv). pose proof (proj2 Hv).
  rewrite (s32_small (m - 1)) by lia. rewrite isleap, daysbeforemonth by lia. cbn [mbind option_bind]. eexists. split; [done|].
  rewrite (u32_small (t - 86400 * (t / 86400))) by dlia. replace (t - 86400 * (t / 86400)) with (t mod 86400) by dlia.
  pose proof (Z.mod_pos_bound t 86400 ltac:(lia)). set (e := t mod 86400) in *. rewrite (Z.quot_div_nonneg e) by lia.
  rewrite (u32_small (e - _)) by dlia. rewrite Z.quot_div_nonneg by dlia. rewrite u32_small by dlia.
  unfold broken_down, date. cbn. rewrite !s32_small by lia. rewrite !Z.sub_add, Ec.
  rewrite dayoftheweek_ok, Hd by (done || lia). unfold year_day. split_and!; try done; try lia; dlia.
Qed.

Lemma gmtime_simple t : 0 ≤ t < 2 ^ 32 → ∃ r, gmtime_r simple t = Some r ∧ broken_down t (day_shown (t / 86400)) r.
Proof.
  intros Ht. assert (0 ≤ t / 86400 ≤ 49710) by dlia. apply gmtime_r_of; [done| |by apply utc2calendar_simple_ok].
  unfold day_shown. destruct (Z.ltb_spec (t / 86400) 48213); lia.
Qed.

Lemma gmtime_gregorian t : 0 ≤ t < 2 ^ 32 → ∃ r, gmtime_r gregorian t = Some r ∧ broken_down t (t / 86400) r.
Proof.
  intros Ht. assert (0 ≤ t / 86400 ≤ 49710) by dlia. apply gmtime_r_of; [done|done|].
  unfold clock_utc2calendar, clock_utc2calendar_gregorian. simpl. by rewrite utc2gregorian_ok.
Qed.

(** The seconds of a day number and a time of day. *)

Lemma mktime_seconds jdn h m s : u32 (u32 (u32 (u32 jdn * 24 + h) * 60 + m) * 60 + s) = u32 (jdn * 86400 + h * 3600 + m * 60 + s).
Proof. unfold u32. dlia. Qed.

(** C32.  For every time, [gmtime_r] gives the date, the weekday and the time of day that the
    calendar has for it: with CONFIG_GREGORIAN_TIME always, and by default until
    2102-01-01, after which it is a day behind.  The day of the year is counted from 1. *)
Theorem gmtime_r_civil t :
  0 ≤ t < 2 ^ 32 →
  (∃ r, gmtime_r simple t = Some r ∧ broken_down t (if t / 86400 <? 48213 then t / 86400 else t / 86400 - 1) r) ∧
  (∃ r, gmtime_r gregorian t = Some r ∧ broken_down t (t / 86400) r).
Proof. intros Ht. split; [by apply gmtime_simple|by apply gmtime_gregorian]. Qed.

Lemma gmtime_r_civil_witness :
  (∃ r, gmtime_r simple 951827696 = Some r ∧ broken_down 951827696 11016 r) ∧ civil (Z.to_nat 11016) = (2000, 2, 29).
Proof. split; [destruct (gmtime_r_civil 951827696) as [H _]; [lia|exact H]|vm_compute; done]. Defined.

Lemma civil_before n : ((civil n).1.1 <=? 2100) = (Z.of_nat n <? 47847).
Proof.
  pose proof (civil_day_no n) as Hd. pose proof (year_day_range _ (civil_valid n)) as Hr. unfold day_no in Hd.
  destruct (Z.leb_spec (civil n).1.1 2100), (Z.ltb_spec (Z.of_nat n) 47847); try done.
  - pose proof (year_start_mono (civil n).1.1 2101 ltac:(lia)) as Hy. change (year_start 2101) with 47847 in Hy. lia.
  - pose proof (year_start_mono 2100 (civil n).1.1 ltac:(lia)) as Hy. change (year_start 2100 + year_len 2100) with 47847 in Hy. lia.
Qed.

Lemma date_inv r y m d : date r = (y, m, d) → tm_year r = y - 1900 ∧ tm_mon r = m - 1 ∧ tm_mday r = d.
Proof. unfold date. intros [= <- <- <-]. lia. Qed.

Lemma mktime_simple n r :
  Z.of_nat n ≤ 49710 → date r = civil n →
  mktime simple r = Some (u32 ((Z.of_nat n + (if Z.of_nat n <? 47847 then 0 else 1)) * 86400 + tm_hour r * 3600 + tm_min r * 60 + tm_sec r)).
Proof.
  intros Hn E. pose proof (civil_year n Hn) as Hy. pose proof (civil_valid n) as Hv. pose proof (civil_day_no n) as Hd.
  rewrite <- civil_before. rewrite <- E in *. unfold mktime, clock_calendar2utc. cbn [simple CONFIG_GREGORIAN_TIME].
  destruct (date r) as [[y m] d] eqn:Er. destruct (date_inv r y m d Er) as (-> & -> & ->). cbn [fst] in *.
  rewrite Z.sub_add, s32_small, calendar2utc_simple_ok by (done || lia). cbn [mbind option_bind].
  rewrite <- (u32_small (day_no _ + _)) by (destruct (_ <=? _); lia). rewrite mktime_seconds, Hd. done.
Qed.

Lemma mktime_gregorian n r :
  Z.of_nat n ≤ 49710 → date r = civil n →
  mktime gregorian r = Some (u32 ((Z.of_nat n - prev_month_days (civil n)) * 86400 + tm_hour r * 3600 + tm_min r * 60 + tm_sec r)).
Proof.
  intros Hn E. pose proof (civil_year n Hn) as Hy. pose proof (civil_valid n) as Hv. pose proof (civil_day_no n) as Hd.
  rewrite <- E in *. unfold mktime, clock_calendar2utc. cbn [gregorian CONFIG_GREGORIAN_TIME CONFIG_JULIAN_TIME].
  destruct (date r) as [[y m] d] eqn:Er. destruct (date_inv r y m d Er) as (-> & -> & ->). cbn [fst] in *.
  rewrite Z.sub_add, s32_small, calendar2utc_gregorian_ok by (done || lia). cbn [mbind option_bind].
  rewrite mktime_seconds, Hd. done.
Qed.

(** C33.  By default, [mktime] is exact for the dates of 1970 to 2100, whatever the time of day,
    and undoes [gmtime_r] for every time but those from 2101-01-01 to 2102-01-01, for which
    it adds a day. *)
Theorem mktime_gmtime_r :
  (∀ n r, Z.of_nat n < 47847 → date r = civil n → mktime simple r = Some (u32 (Z.of_nat n * 86400 + tm_hour r * 3600 + tm_min r * 60 + tm_sec r))) ∧
  (∀ t, 0 ≤ t < 2 ^ 32 → gmtime_r simple t ≫= mktime simple = Some (if (47847 <=? t / 86400) && (t / 86400 <? 48213) then u32 (t + 86400) else t)).
Proof.
  split.
  - intros n r Hn E. rewrite (mktime_simple n r) by (done || lia). replace (_ <? 47847) with true by (symmetry; apply Z.ltb_lt; lia).
    by rewrite Z.add_0_r.
  - intros t Ht. destruct (gmtime_simple t Ht) as (r & -> & E & _ & _ & _ & _ & _ & Hs). cbn [mbind option_bind].
    assert (0 ≤ t / 86400 ≤ 49710) by dlia. assert (0 ≤ day_shown (t / 86400) ≤ 49710) by (unfold day_shown; case_if; lia).
    rewrite (mktime_simple (Z.to_nat (day_shown (t / 86400))) r) by (done || lia). rewrite Z2Nat.id by lia. f_equal.
    unfold day_shown.
    destruct (Z.ltb_spec (t / 86400) 48213), (Z.leb_spec 47847 (t / 86400)); cbn [andb]; try lia; case_if; try lia;
      first [f_equal; dlia|rewrite u32_small; dlia].
Qed.

(** With CONFIG_GREGORIAN_TIME, [mktime] takes the month of a [tm], which counts from 0, for
    one that counts from 1: it returns the time one month before the one that [gmtime_r]
    has broken down.  With CONFIG_JULIAN_TIME, [gmtime_r] uses the Julian calendar for
    every time, since the day of the reform is compared as an unsigned number. *)
Theorem mktime_month_before t :
  0 ≤ t < 2 ^ 32 →
  (∃ r, gmtime_r gregorian t = Some r ∧ mktime gregorian r = Some (u32 (t - 86400 * prev_month_days (date r)))) ∧
  clock_utc2calendar julian (t / 86400) = Some (clock_utc2julian (u32 (t / 86400 + JD_OF_EPOCH))).
Proof.
  intros Ht. assert (0 ≤ t / 86400 ≤ 49710) by dlia. split.
  - destruct (gmtime_gregorian t Ht) as (r & E & Hc & _ & _ & _ & _ & _ & Hs). exists r. split; [done|].
    rewrite (mktime_gregorian (Z.to_nat (t / 86400)) r) by (done || lia). rewrite Z2Nat.id, Hc by lia. do 2 f_equal. dlia.
  - unfold clock_utc2calendar, clock_utc2calendar_gregorian. cbn [julian CONFIG_GREGORIAN_TIME CONFIG_JULIAN_TIME].
    change (u32 GREG_DUTC) with 4294825869. by destruct (Z.leb_spec 4294825869 (t / 86400)); [lia|].
Qed.

(** 2020-03-15 becomes 2020-02-15, and 1970-01-01 is shown as 1969-12-19. *)
Lemma mktime_month_before_witness :
  (∃ r, gmtime_r gregorian 1584230400 = Some r ∧ mktime gregorian r = Some 1581724800) ∧
  (∃ r, gmtime_r julian 0 = Some r ∧ date r = (1969, 12, 19)).
Proof.
  split; [|eexists; split; vm_compute; done].
  destruct (mktime_month_before 1584230400) as [(r & E & H) _]; [lia|]. exists r. split; [done|].
  rewrite H. vm_compute in E. injection E as <-. vm_compute. done.
Defined.

End TimeProps.
