(* ===== verification/CString.v ===== *)
(** * C strings (libs/libc/string)

    A [char *] is the block of bytes that it points into and an offset; a string is what is
    there up to the NUL.  A function that reads past the end of the block faults. *)

From stdpp Require Import base list numbers option.
From S2P Require Import Prelude.

Module CString.

Fixpoint strlen_loop (fuel : nat) (s : list Z) (sc : Z) : option Z :=
  match fuel with
  | O => None
  | S fuel => c ← arr_get s sc; if c =? 0 then Some sc else strlen_loop fuel s (sc + 1)
  end.

Definition strlen (s : list Z) (p : Z) : option Z :=
  sc ← strlen_loop (S (length s)) s p; Some (u32 (sc - p)).

Fixpoint strchr_loop (fuel : nat) (s : list Z) (p c : Z) : option (option Z) :=
  match fuel with
  | O => None
  | S fuel =>
      b ← arr_get s p;
      if b =? c then Some (Some p)
      else if b =? 0 then Some None
      else strchr_loop fuel s (p + 1) c
  end.

Definition strchr (s : list Z) (p c : Z) : option (option Z) := strchr_loop (S (length s)) s p c.

Fixpoint strcpy_loop (fuel : nat) (dest : list Z) (d : Z) (src : list Z) (s : Z) : option (list Z) :=
  match fuel with
  | O => None
  | S fuel =>
      c ← arr_get src s;
      dest ← arr_set dest d c;
      if c =? 0 then Some dest else strcpy_loop fuel dest (d + 1) src (s + 1)
  end.

Definition strcpy (dest : list Z) (d : Z) (src : list Z) (s : Z) : option (list Z) :=
  strcpy_loop (S (length src)) dest d src s.

Fixpoint memcpy_loop (n : nat) (pout : list Z) (d : Z) (pin : list Z) (s : Z) : option (list Z) :=
  match n with
  | O => Some pout
  | S n => c ← arr_get pin s; pout ← arr_set pout d c; memcpy_loop n pout (d + 1) pin (s + 1)
  end.

Definition memcpy (dest : list Z) (d : Z) (src : list Z) (s n : Z) : option (list Z) :=
  memcpy_loop (Z.to_nat n) dest d src s.

(** The string at an offset. *)

Definition string_at (s : list Z) (p : Z) (w : list Z) : Prop :=
  0 ≤ p ∧ (0 ∉ w) ∧ ∃ rest, drop (Z.to_nat p) s = w ++ 0 :: rest.

(** ** Lemmas *)

Implicit Types (s w rest : list Z) (p c : Z).

Lemma arr_get_drop s p c rest : 0 ≤ p → drop (Z.to_nat p) s = c :: rest → arr_get s p = Some c.
Proof.
  intros Hp E. unfold arr_get. replace (0 <=? p) with true by (symmetry; apply Z.leb_le; lia).
  rewrite <- (Nat.add_0_r (Z.to_nat p)), <- lookup_drop, E. done.
Qed.

Lemma drop_next s p c rest : 0 ≤ p → drop (Z.to_nat p) s = c :: rest → drop (Z.to_nat (p + 1)) s = rest.
Proof. intros Hp E. replace (Z.to_nat (p + 1)) with (Z.to_nat p + 1)%nat by lia. by rewrite <- drop_drop, E. Qed.

Lemma drop_length_lt s p rest : drop (Z.to_nat p) s = rest → (length rest ≤ length s)%nat.
Proof. intros <-. rewrite length_drop. lia. Qed.

Lemma strlen_loop_ok fuel s p w rest :
  0 ≤ p → (0 ∉ w) → drop (Z.to_nat p) s = w ++ 0 :: rest → (length w < fuel)%nat →
  strlen_loop fuel s p = Some (p + Z.of_nat (length w)).
Proof.
  revert p w. induction fuel as [|fuel IH]; intros p w Hp Hw E Hf; [lia|]. destruct w as [|c w]; simpl in *.
  - rewrite (arr_get_drop s p 0 rest) by done. simpl. f_equal. lia.
  - rewrite (arr_get_drop s p c (w ++ 0 :: rest)) by done. cbn [mbind option_bind].
    destruct (Z.eqb_spec c 0); [set_solver|]. rewrite (IH (p + 1) w); [f_equal; lia|lia|set_solver| |lia].
    by eapply drop_next.
Qed.

Lemma strlen_ok s p w : string_at s p w → strlen s p = Some (u32 (Z.of_nat (length w))).
Proof.
  intros (Hp & Hw & rest & E). unfold strlen. pose proof (drop_length_lt s p _ E) as Hl. rewrite length_app in Hl. simpl in Hl.
  rewrite (strlen_loop_ok _ s p w rest) by (done || lia). cbn [mbind option_bind]. do 2 f_equal. lia.
Qed.

Lemma strchr_loop_ok fuel s p c w rest :
  0 ≤ p → (0 ∉ w) → c ≠ 0 → (c ∉ w) → drop (Z.to_nat p) s = w ++ c :: rest → (length w < fuel)%nat →
  strchr_loop fuel s p c = Some (Some (p + Z.of_nat (length w))).
Proof.
  revert p w. induction fuel as [|fuel IH]; intros p w Hp Hw Hc Hcw E Hf; [lia|]. destruct w as [|b w]; simpl in *.
  - rewrite (arr_get_drop s p c rest) by done. cbn [mbind option_bind]. rewrite Z.eqb_refl. do 2 f_equal. lia.
  - rewrite (arr_get_drop s p b (w ++ c :: rest)) by done. cbn [mbind option_bind].
    destruct (Z.eqb_spec b c); [set_solver|]. destruct (Z.eqb_spec b 0); [set_solver|].
    rewrite (IH (p + 1) w); [do 2 f_equal; lia|lia|set_solver|done|set_solver| |lia]. by eapply drop_next.
Qed.

Lemma strchr_found s p c w rest :
  0 ≤ p → (0 ∉ w) → c ≠ 0 → (c ∉ w) → drop (Z.to_nat p) s = w ++ c :: rest → strchr s p c = Some (Some (p + Z.of_nat (length w))).
Proof.
  intros. apply strchr_loop_ok with rest; try done. pose proof (drop_length_lt s p _ H3) as Hl. rewrite length_app in Hl. simpl in Hl. lia.
Qed.

Lemma strchr_loop_none fuel s p c w rest :
  0 ≤ p → (0 ∉ w) → c ≠ 0 → (c ∉ w) → drop (Z.to_nat p) s = w ++ 0 :: rest → (length w < fuel)%nat →
  strchr_loop fuel s p c = Some None.
Proof.
  revert p w. induction fuel as [|fuel IH]; intros p w Hp Hw Hc Hcw E Hf; [lia|]. destruct w as [|b w]; simpl in *.
  - rewrite (arr_get_drop s p 0 rest) by done. cbn [mbind option_bind]. by destruct (Z.eqb_spec 0 c).
  - rewrite (arr_get_drop s p b (w ++ 0 :: rest)) by done. cbn [mbind option_bind].
    destruct (Z.eqb_spec b c); [set_solver|]. destruct (Z.eqb_spec b 0); [set_solver|].
    apply IH with w; [lia|set_solver|done|set_solver| |lia]. by eapply drop_next.
Qed.

Lemma strchr_none s p c w : string_at s p w → c ≠ 0 → (c ∉ w) → strchr s p c = Some None.
Proof.
  intros (Hp & Hw & rest & E) Hc Hcw. apply strchr_loop_none with w rest; try done.
  pose proof (drop_length_lt s p _ E) as Hl. rewrite length_app in Hl. simpl in Hl. lia.
Qed.

(** A copy of bytes one by one is a copy of the range. *)

Lemma memcpy_loop_ok n pout d pin (s : Z) l :
  0 ≤ d → 0 ≤ s → take n (drop (Z.to_nat s) pin) = l → length l = n → d + Z.of_nat n ≤ Z.of_nat (length pout) →
  memcpy_loop n pout d pin s = Some (list_inserts (Z.to_nat d) l pout).
Proof.
  revert pout d s l. induction n as [|n IH]; intros pout d s l Hd Hs El Hl Ho; [by destruct l|].
  destruct l as [|c l]; [done|]. destruct (drop (Z.to_nat s) pin) as [|c' rest] eqn:E; [done|]. simpl in El. injection El as -> El.
  cbn [memcpy_loop]. rewrite (arr_get_drop pin s c rest) by done. cbn [mbind option_bind].
  unfold arr_set. replace ((0 <=? d) && (d <? Z.of_nat (length pout))) with true by (symmetry; apply andb_true_iff; split; [apply Z.leb_le|apply Z.ltb_lt]; lia).
  cbn [mbind option_bind]. rewrite (IH _ (d + 1) (s + 1) l); [|lia|lia|by rewrite (drop_next pin s c rest)|by injection Hl|rewrite length_insert; lia].
  replace (Z.to_nat (d + 1)) with (S (Z.to_nat d)) by lia. simpl. f_equal. by rewrite inserts_insert by lia.
Qed.

Lemma strcpy_loop_ok fuel dest d src (s : Z) w rest :
  0 ≤ d → 0 ≤ s → (0 ∉ w) → drop (Z.to_nat s) src = w ++ 0 :: rest → d + Z.of_nat (length w) < Z.of_nat (length dest) → (length w < fuel)%nat →
  strcpy_loop fuel dest d src s = Some (list_inserts (Z.to_nat d) (w ++ [0]) dest).
Proof.
  revert dest d s w. induction fuel as [|fuel IH]; intros dest d s w Hd Hs Hw E Hl Hf; [lia|]. cbn [strcpy_loop].
  assert (Hset : ∀ c, arr_set dest d c = Some (<[Z.to_nat d := c]> dest)).
  { intros c. unfold arr_set. by replace ((0 <=? d) && (d <? Z.of_nat (length dest))) with true by (symmetry; apply andb_true_iff; split; [apply Z.leb_le|apply Z.ltb_lt]; lia). }
  destruct w as [|c w]; simpl in *.
  - rewrite (arr_get_drop src s 0 rest) by done. cbn [mbind option_bind]. by rewrite Hset.
  - rewrite (arr_get_drop src s c (w ++ 0 :: rest)) by done. cbn [mbind option_bind]. rewrite Hset. cbn [mbind option_bind]. destruct (Z.eqb_spec c 0); [set_solver|].
    rewrite (IH _ (d + 1) (s + 1) w); [|lia|lia|set_solver|by eapply drop_next|rewrite length_insert; lia|lia].
    replace (Z.to_nat (d + 1)) with (S (Z.to_nat d)) by lia. f_equal. by rewrite inserts_insert by lia.
Qed.

Lemma strcpy_ok dest src w :
  string_at src 0 w → length dest = S (length w) → strcpy dest 0 src 0 = Some (w ++ [0]).
Proof.
  intros (_ & Hw & rest & E) Hl. unfold strcpy. pose proof (drop_length_lt src 0 _ E) as Hs. rewrite length_app in Hs. simpl in Hs.
  rewrite (strcpy_loop_ok _ dest 0 src 0 w rest) by (done || lia). rewrite inserts_split by (rewrite length_app; simpl; lia).
  rewrite drop_ge by (rewrite length_app; simpl; lia). simpl. by rewrite app_nil_r.
Qed.

End CString.
