(* ===== verification/Env.v ===== *)
(** * Environment variables (sched/environ)

    The environment of a task group is one allocated block with the strings [name=value],
    each ended by a NUL.  Strings are as in CString.v, [None] for a NULL pointer.

    The user heap is the argument [km]: every call may find another state of it, and may
    fail. *)

From stdpp Require Import base list numbers option.
From S2P Require Import Prelude CString.

Module Env.

Import CString.

Definition ERROR : Z := -1.
Definition ENOENT : Z := 2.

(** What the environment calls of the user heap. *)

Record heap := mk_heap {
  kumm_malloc : Z → option (list Z);
  kumm_realloc : list Z → Z → option (list Z);
  lib_malloc : Z → option (list Z)
}.

(** Of a [task_group_s], the environment; [errno] is that of the caller. *)

Record task_group_s := mk_group {
  tg_envsize : Z;
  tg_envp : option (list Z)
}.

Record state := mk_state {
  group : task_group_s;
  errno : Z
}.

Definition fail (ret : Z) (st : state) : Z * state := (ERROR, mk_state (group st) ret).
Definition ok (g : task_group_s) (st : state) : Z * state := (OK, mk_state g (errno st)).

(** ** Searching *)

Fixpoint env_cmpname_loop (fuel : nat) (pszname : list Z) (i : Z) (peqname : list Z) (j : Z) : option bool :=
  match fuel with
  | O => None
  | S fuel =>
      a ← arr_get pszname i;
      b ← arr_get peqname j;
      if a =? b then env_cmpname_loop fuel pszname (i + 1) peqname (j + 1)
      else Some ((a =? 0) && (b =? 61))
  end.

Definition env_cmpname (pszname peqname : list Z) (ptr : Z) : option bool :=
  env_cmpname_loop (S (length pszname)) pszname 0 peqname ptr.

Fixpoint env_findvar_loop (fuel : nat) (envp : list Z) (size : Z) (pname : list Z) (ptr : Z) : option (option Z) :=
  match fuel with
  | O => None
  | S fuel =>
      if ptr <? size then
        found ← env_cmpname pname envp ptr;
        if found : bool then Some (Some ptr)
        else len ← strlen envp ptr; env_findvar_loop fuel envp size pname (ptr + (len + 1))
      else Some None
  end.

(** The strings of an environment without a block are at NULL, which cannot be read. *)

Definition strings (g : task_group_s) : list Z := default [] (tg_envp g).

Definition env_findvar (g : task_group_s) (pname : list Z) : option (option Z) :=
  env_findvar_loop (S (length (strings g))) (strings g) (tg_envsize g) pname 0.

Definition getenv (st : state) (name : option (list Z)) : option (option Z * state) :=
  match name with
  | None => Some (None, mk_state (group st) EINVAL)
  | Some name =>
      pvar ← env_findvar (group st) name;
      match pvar with
      | None => Some (None, mk_state (group st) ENOENT)
      | Some pvar =>
          pvalue ← strchr (strings (group st)) pvar 61;
          match pvalue with
          | None => Some (None, mk_state (group st) EINVAL)
          | Some pvalue => Some (Some (pvalue + 1), st)
          end
      end
  end.

(** The callback gets the argument [arg], which it may change, and a string. *)

Fixpoint env_foreach_loop {A} (fuel : nat) (envp : list Z) (size : Z) (cb : A → Z → A * Z) (arg : A) (ptr ret : Z) : option (A * Z) :=
  match fuel with
  | O => None
  | S fuel =>
      if ptr <? size then
        let '(arg, ret) := cb arg ptr in
        if ret =? 0 then len ← strlen envp ptr; env_foreach_loop fuel envp size cb arg (ptr + (len + 1)) ret
        else Some (arg, ret)
      else Some (arg, ret)
  end.

Definition env_foreach {A} (g : task_group_s) (cb : A → Z → A * Z) (arg : A) : option (A * Z) :=
  env_foreach_loop (S (length (strings g))) (strings g) (tg_envsize g) cb arg 0 OK.

(** ** Changes *)

Fixpoint env_move (count : nat) (envp : list Z) (dest src : Z) : option (list Z) :=
  match count with
  | O => Some envp
  | S count => c ← arr_get envp src; envp ← arr_set envp dest c; env_move count envp (dest + 1) (src + 1)
  end.

Definition env_removevar (g : task_group_s) (pvar : Z) : option (Z * task_group_s) :=
  let alloc := s32 (tg_envsize g) in
  if (0 <=? pvar) && (pvar <? alloc) then
    len ← strlen (strings g) pvar;
    let len := s32 (len + 1) in
    let src := pvar + len in
    envp ← env_move (Z.to_nat (alloc - src)) (strings g) pvar src;
    Some (OK, mk_group (u32 (tg_envsize g - len)) (Some envp))
  else Some (ERROR, g).

Definition unsetenv (km : heap) (st : state) (name : list Z) : option (Z * state) :=
  pvar ← env_findvar (group st) name;
  match pvar with
  | None => Some (OK, st)
  | Some pvar =>
      '(_, g) ← env_removevar (group st) pvar;
      let newsize := s32 (tg_envsize g) in
      if newsize <=? 0 then Some (ok (mk_group 0 None) st)
      else
        match kumm_realloc km (strings g) newsize with
        | None => Some (ERROR, mk_state g ENOMEM)
        | Some newenvp => Some (ok (mk_group (tg_envsize g) (Some newenvp)) st)
        end
  end.

(** The string that a pointer points to, and [sprintf] with the format [%s=%s]. *)

Definition text (s : list Z) : option (list Z) := n ← strlen s 0; Some (take (Z.to_nat n) s).

Definition sprintf_assign (buf : list Z) (p : Z) (name value : list Z) : option (list Z) :=
  n ← text name; v ← text value; mem_write buf p (n ++ 61 :: v ++ [0]).

Definition setenv_add (km : heap) (st : state) (g : task_group_s) (name value : list Z) : option (Z * state) :=
  n ← strlen name 0;
  v ← strlen value 0;
  let varlen := s32 (u32 (n + v + 2)) in
  let '(newsize, newenvp, pvar) :=
    match tg_envp g with
    | Some envp => let newsize := s32 (u32 (tg_envsize g + varlen)) in (newsize, kumm_realloc km envp newsize, tg_envsize g)
    | None => (varlen, kumm_malloc km varlen, 0)
    end in
  match newenvp with
  | None => Some (ERROR, mk_state g ENOMEM)
  | Some newenvp =>
      newenvp ← sprintf_assign newenvp pvar name value;
      Some (ok (mk_group (u32 newsize) (Some newenvp)) st)
  end.

Definition setenv (km : heap) (st : state) (name value : option (list Z)) (overwrite : Z) : option (Z * state) :=
  match name with
  | None => Some (fail EINVAL st)
  | Some name =>
      empty ← match value with None => Some true | Some value => c ← arr_get value 0; Some (c =? 0) end;
      match value, empty : bool with
      | None, _ | _, true => if overwrite =? 0 then Some (OK, st) else unsetenv km st name
      | Some value, false =>
          pvar ← match tg_envp (group st) with None => Some None | Some _ => env_findvar (group st) name end;
          match pvar with
          | Some pvar =>
              if overwrite =? 0 then Some (OK, st)
              else '(_, g) ← env_removevar (group st) pvar; setenv_add km st g name value
          | None => setenv_add km st (group st) name value
          end
      end
  end.

Definition strdup (km : heap) (s : list Z) : option (option (list Z)) :=
  n ← strlen s 0;
  match lib_malloc km (u32 (n + 1)) with
  | None => Some None
  | Some news => news ← strcpy news 0 s 0; Some (Some news)
  end.

Definition putenv (km : heap) (st : state) (string : option (list Z)) : option (Z * state) :=
  match string with
  | None => Some (fail EINVAL st)
  | Some string =>
      pname ← strdup km string;
      match pname with
      | None => Some (fail ENOMEM st)
      | Some pname =>
          pequal ← strchr pname 0 61;
          match pequal with
          | None => Some (OK, st)
          | Some pequal =>
              pname ← arr_set pname pequal 0;
              setenv km st (Some pname) (Some (drop (Z.to_nat (pequal + 1)) pname)) 1
          end
      end
  end.

Definition env_release (g : task_group_s) : task_group_s := mk_group 0 None.

Definition clearenv (st : state) : Z * state := ok (env_release (group st)) st.

(** The environment of a new group is a copy of that of its creator. *)

Definition env_dup (km : heap) (parent child : task_group_s) : option (Z * task_group_s) :=
  match tg_envp parent with
  | None => Some (OK, child)
  | Some penvp =>
      let envlen := tg_envsize parent in
      if 0 <? envlen then
        match kumm_malloc km envlen with
        | None => Some (- ENOMEM, mk_group 0 None)
        | Some envp => envp ← memcpy envp 0 penvp 0 envlen; Some (OK, mk_group envlen (Some envp))
        end
      else Some (OK, mk_group envlen None)
  end.

End Env.
