(* ===== verification/EnvProps.v ===== *)
(** * Properties of the environment

    The block of strings represents a list of variables, and for the tasks of the group a
    finite map from names to values. *)

From stdpp Require Import base list numbers option gmap.
From S2P Require Import Prelude CString Env.

Module EnvProps.

Import CString Env.

Implicit Types (n v w s : list Z) (l : list (list Z * list Z)) (g : task_group_s) (km : heap).

(** ** The block as a list of variables *)

Definition entry (e : list Z * list Z) : list Z := e.1 ++ 61 :: e.2 ++ [0].
Definition bytes l : list Z := concat (entry <$> l).

Definition name_ok n : Prop := (0 ∉ n) ∧ 61 ∉ n.
Definition good (e : list Z * list Z) : Prop := name_ok e.1 ∧ 0 ∉ e.2.

Record rep g l : Prop := {
  r_nodup : NoDup l.*1;
  r_good : Forall good l;
  r_size : tg_envsize g = Z.of_nat (length (bytes l));
  r_small : tg_envsize g < 2 ^ 31;
  r_strings : ∃ rest, strings g = bytes l ++ rest
}.

Lemma bytes_app l1 l2 : bytes (l1 ++ l2) = bytes l1 ++ bytes l2.
Proof. unfold bytes. by rewrite fmap_app, concat_app. Qed.

Lemma bytes_cons e l : bytes (e :: l) = entry e ++ bytes l.
Proof. done. Qed.

Lemma entry_eq n v r : entry (n, v) ++ r = n ++ 61 :: v ++ 0 :: r.
Proof. unfold entry. simpl. by rewrite <- app_assoc, <- app_comm_cons, <- app_assoc. Qed.

Lemma entry_length n v : length (entry (n, v)) = (length n + length v + 2)%nat.
Proof. unfold entry. simpl. rewrite length_app. simpl. rewrite length_app. simpl. lia. Qed.

Lemma rep_empty : rep (mk_group 0 None) [].
Proof. constructor; [constructor|constructor|done|simpl; lia|by exists []]. Qed.

(** ** Searching *)

Lemma cmpname_loop_ok fuel ps i pe j n n' r1 r2 :
  0 ≤ i → 0 ≤ j → name_ok n → name_ok n' → drop (Z.to_nat i) ps = n ++ 0 :: r1 → drop (Z.to_nat j) pe = n' ++ 61 :: r2 →
  (length n < fuel)%nat → env_cmpname_loop fuel ps i pe j = Some (bool_decide (n = n')).
Proof.
  revert i j n n'. induction fuel as [|fuel IH]; intros i j n n' Hi Hj [Hn1 Hn2] [Hn1' Hn2'] E1 E2 Hf; [lia|]. cbn [env_cmpname_loop].
  destruct n as [|a n], n' as [|b n']; simpl in *.
  - rewrite (arr_get_drop ps i 0 r1), (arr_get_drop pe j 61 r2) by done. done.
  - rewrite (arr_get_drop ps i 0 r1), (arr_get_drop pe j b (n' ++ 61 :: r2)) by done. cbn [mbind option_bind].
    destruct (Z.eqb_spec 0 b); [set_solver|]. destruct (Z.eqb_spec b 61); [set_solver|]. done.
  - rewrite (arr_get_drop ps i a (n ++ 0 :: r1)), (arr_get_drop pe j 61 r2) by done. cbn [mbind option_bind].
    destruct (Z.eqb_spec a 61); [set_solver|]. destruct (Z.eqb_spec a 0); [set_solver|]. done.
  - rewrite (arr_get_drop ps i a (n ++ 0 :: r1)), (arr_get_drop pe j b (n' ++ 61 :: r2)) by done. cbn [mbind option_bind].
    destruct (Z.eqb_spec a b) as [->|Hab].
    + rewrite (IH (i + 1) (j + 1) n n'); [|lia|lia|split; set_solver|split; set_solver|by eapply drop_next|by eapply drop_next|lia].
      f_equal. apply bool_decide_ext. split; congruence.
    + destruct (Z.eqb_spec a 0); [set_solver|]. simpl. rewrite bool_decide_false by congruence. done.
Qed.

Lemma cmpname_ok ps pe j n n' r2 :
  0 ≤ j → string_at ps 0 n → name_ok n → name_ok n' → drop (Z.to_nat j) pe = n' ++ 61 :: r2 →
  env_cmpname ps pe j = Some (bool_decide (n = n')).
Proof.
  intros Hj (_ & _ & r1 & E1) Hn Hn' E2. apply cmpname_loop_ok with r1 r2; try done.
  rewrite drop_0 in E1. rewrite E1, length_app. lia.
Qed.

Lemma string_at_entry s j n v r : 0 ≤ j → good (n, v) → drop (Z.to_nat j) s = entry (n, v) ++ r → string_at s j (n ++ 61 :: v).
Proof.
  intros Hj [[Hn _] Hv] E. split; [done|]. split; [set_solver|]. exists r. by rewrite E, entry_eq, <- app_assoc.
Qed.

(** Where a variable is. *)

Fixpoint position n l : option Z :=
  match l with
  | [] => None
  | e :: l => if decide (n = e.1) then Some 0 else (λ p, Z.of_nat (length (entry e)) + p) <$> position n l
  end.

Lemma findvar_loop_ok fuel envp size ps n l p rest :
  0 ≤ p → string_at ps 0 n → name_ok n → Forall good l → drop (Z.to_nat p) envp = bytes l ++ rest →
  size = p + Z.of_nat (length (bytes l)) → size < 2 ^ 31 → (length l < fuel)%nat →
  env_findvar_loop fuel envp size ps p = Some ((λ q, p + q) <$> position n l).
Proof.
  revert l p. induction fuel as [|fuel IH]; intros l p Hp Hs Hn Hg E Hsz Hsm Hf; [lia|]. cbn [env_findvar_loop].
  destruct l as [|[n' v'] l]; [by destruct (Z.ltb_spec p size); [simpl in *; lia|]|]. inversion Hg as [|? ? He Hg']; subst.
  rewrite bytes_cons, <- app_assoc in E. rewrite bytes_cons, length_app in *. pose proof (entry_length n' v') as El.
  destruct (Z.ltb_spec p (p + Z.of_nat (length (entry (n', v')) + length (bytes l)))); [|lia].
  rewrite (cmpname_ok ps envp p n n' (v' ++ 0 :: bytes l ++ rest)) by (done || apply He || by rewrite E, entry_eq).
  cbn [mbind option_bind position fst]. destruct (decide (n = n')) as [->|Hne].
  { rewrite bool_decide_true by done. simpl. do 2 f_equal. lia. }
  rewrite bool_decide_false by done. rewrite (strlen_ok envp p (n' ++ 61 :: v')) by by eapply string_at_entry.
  cbn [mbind option_bind]. rewrite length_app. simpl length. rewrite u32_small by lia.
  rewrite (IH l); [|lia|done|done|done| |lia|lia|simpl in *; lia].
  - destruct (position n l); simpl; [|done]. do 2 f_equal. lia.
  - replace (Z.to_nat _) with (Z.to_nat p + length (entry (n', v')))%nat by lia. by rewrite <- drop_drop, E, drop_app_length.
Qed.

Lemma bytes_length l : (length l ≤ length (bytes l))%nat.
Proof. induction l as [|[n v] l IH]; [done|]. rewrite bytes_cons, length_app, entry_length. simpl. lia. Qed.

Lemma findvar_ok g l ps n : rep g l → string_at ps 0 n → name_ok n → env_findvar g ps = Some (position n l).
Proof.
  intros Hr Hs Hn. destruct (r_strings _ _ Hr) as [rest E]. unfold env_findvar. pose proof (bytes_length l).
  rewrite (findvar_loop_ok _ _ _ ps n l 0 rest); [by destruct (position n l)|done|done|done|apply Hr|by rewrite E|rewrite (r_size _ _ Hr); lia|apply Hr|].
  rewrite E, length_app. lia.
Qed.

Lemma position_Some n l p :
  position n l = Some p → ∃ l1 v l2, l = l1 ++ (n, v) :: l2 ∧ p = Z.of_nat (length (bytes l1)).
Proof.
  revert p. induction l as [|[n' v'] l IH]; intros p; simpl; [done|]. case_decide as E; simpl in E.
  - intros [= <-]. subst. by exists [], v', l.
  - destruct (position n l) as [q|]; [|done]. intros [= <-]. destruct (IH q eq_refl) as (l1 & v & l2 & -> & ->).
    exists ((n', v') :: l1), v, l2. split; [done|]. rewrite bytes_cons, length_app. lia.
Qed.

Lemma position_None n l : position n l = None ↔ n ∉ l.*1.
Proof.
  induction l as [|[n' v'] l IH]; simpl; [set_solver|]. case_decide as E; simpl in E.
  - split; [done|set_solver].
  - destruct (position n l); set_solver.
Qed.

(** ** Removing a variable *)

Lemma env_move_ok count envp dest src :
  0 ≤ dest < src → src + Z.of_nat count ≤ Z.of_nat (length envp) →
  env_move count envp dest src = Some (list_inserts (Z.to_nat dest) (take count (drop (Z.to_nat src) envp)) envp).
Proof.
  revert envp dest src. induction count as [|count IH]; intros envp dest src Hd Hs; [done|]. cbn [env_move].
  destruct (drop (Z.to_nat src) envp) as [|c r] eqn:E; [apply (f_equal length) in E; rewrite length_drop in E; simpl in E; lia|].
  rewrite (arr_get_drop envp src c r) by (done || lia). cbn [mbind option_bind]. unfold arr_set.
  replace ((0 <=? dest) && (dest <? Z.of_nat (length envp))) with true by (symmetry; apply andb_true_iff; split; [apply Z.leb_le|apply Z.ltb_lt]; lia).
  cbn [mbind option_bind]. rewrite IH; [|lia|rewrite length_insert; lia]. f_equal.
  rewrite drop_insert_lt by lia. rewrite (drop_next envp src c r) by (done || lia).
  replace (Z.to_nat (dest + 1)) with (S (Z.to_nat dest)) by lia. simpl. by rewrite inserts_insert by lia.
Qed.

Lemma move_out (a b c d : list Z) :
  list_inserts (length a) c (a ++ b ++ c ++ d) = a ++ c ++ drop (length c) (b ++ c ++ d).
Proof.
  rewrite inserts_split by (rewrite !length_app; lia). rewrite take_app_length. f_equal. f_equal.
  by rewrite drop_app_ge, Nat.add_comm, Nat.add_sub by lia.
Qed.

Lemma removevar_ok g l1 n v l2 :
  rep g (l1 ++ (n, v) :: l2) →
  ∃ g', env_removevar g (Z.of_nat (length (bytes l1))) = Some (OK, g') ∧ rep g' (l1 ++ l2) ∧ is_Some (tg_envp g') ∧
    (length (strings g') = length (strings g))%nat.
Proof.
  intros [Hnd Hg Hsz Hsm [rest E]]. rewrite bytes_app, bytes_cons in *. rewrite !length_app, entry_length in Hsz.
  unfold env_removevar. rewrite (s32_small (tg_envsize g)) by lia.
  replace ((0 <=? _) && (_ <? tg_envsize g)) with true by (symmetry; apply andb_true_iff; split; [apply Z.leb_le|apply Z.ltb_lt]; lia).
  apply Forall_app in Hg as [Hg1 Hg2]. inversion Hg2 as [|? ? He Hg3]; subst.
  rewrite (strlen_ok (strings g) _ (n ++ 61 :: v)).
  2: { eapply string_at_entry with (r := bytes l2 ++ rest); [lia|done|]. by rewrite E, Nat2Z.id, <- app_assoc, drop_app_length, <- app_assoc. }
  cbn [mbind option_bind]. rewrite length_app. simpl length. fits.
  rewrite env_move_ok by (rewrite ?E, ?length_app, ?entry_length; lia). cbn [mbind option_bind]. eexists. split; [done|].
  replace (Z.to_nat (tg_envsize g - _)) with (length (bytes l2)) by lia.
  replace (Z.to_nat (Z.of_nat _ + _)) with (length (bytes l1 ++ entry (n, v))) by (rewrite length_app, entry_length; lia).
  rewrite E, Nat2Z.id. rewrite app_assoc. rewrite <- (app_assoc (bytes l1 ++ entry (n, v))), drop_app_length, take_app_length.
  rewrite <- !app_assoc, move_out. split; [|split; [by eexists|unfold strings; simpl; rewrite !length_app, length_drop, !length_app; lia]].
  constructor; simpl.
  - rewrite fmap_app in Hnd |- *. simpl in Hnd. by apply NoDup_app in Hnd as (? & ? & [? ?]%NoDup_cons); apply NoDup_app; split_and!; [done|set_solver|done].
  - by apply Forall_app.
  - rewrite bytes_app, length_app. lia.
  - lia.
  - unfold strings. simpl. eexists. by rewrite bytes_app, <- app_assoc.
Qed.

(** ** Visiting all variables *)

Fixpoint visit {A} (cb : A → Z → A * Z) (arg : A) (p : Z) l : A * Z :=
  match l with
  | [] => (arg, OK)
  | e :: l => let '(arg, ret) := cb arg p in if ret =? 0 then visit cb arg (p + Z.of_nat (length (entry e))) l else (arg, ret)
  end.

Lemma foreach_loop_ok {A} fuel envp size (cb : A → Z → A * Z) arg l p rest :
  0 ≤ p → Forall good l → drop (Z.to_nat p) envp = bytes l ++ rest →
  size = p + Z.of_nat (length (bytes l)) → size < 2 ^ 31 → (length l < fuel)%nat →
  env_foreach_loop fuel envp size cb arg p OK = Some (visit cb arg p l).
Proof.
  revert l p arg. induction fuel as [|fuel IH]; intros l p arg Hp Hg E Hsz Hsm Hf; [lia|]. cbn [env_foreach_loop].
  destruct l as [|[n v] l]; [by destruct (Z.ltb_spec p size); [simpl in *; lia|]|]. inversion Hg as [|? ? He Hg']; subst.
  rewrite bytes_cons, <- app_assoc in E. rewrite bytes_cons, length_app in *. pose proof (entry_length n v) as El.
  destruct (Z.ltb_spec p (p + Z.of_nat (length (entry (n, v)) + length (bytes l)))); [|lia]. cbn [visit].
  destruct (cb arg p) as [arg' ret]. destruct (Z.eqb_spec ret 0) as [->|]; [|done].
  rewrite (strlen_ok envp p (n ++ 61 :: v)) by by eapply string_at_entry.
  cbn [mbind option_bind]. rewrite length_app. simpl length. fits.
  replace (p + (Z.of_nat (length n + S (length v)) + 1)) with (p + Z.of_nat (length (entry (n, v)))) by lia.
  apply IH; [lia|done| |lia|lia|simpl in *; lia].
  replace (Z.to_nat _) with (Z.to_nat p + length (entry (n, v)))%nat by lia. by rewrite <- drop_drop, E, drop_app_length.
Qed.

Lemma foreach_ok {A} g l (cb : A → Z → A * Z) arg : rep g l → env_foreach g cb arg = Some (visit cb arg 0 l).
Proof.
  intros Hr. destruct (r_strings _ _ Hr) as [rest E]. unfold env_foreach. pose proof (bytes_length l).
  apply foreach_loop_ok with rest; [done|apply Hr|by rewrite E|rewrite (r_size _ _ Hr); lia|apply Hr|rewrite E, length_app; lia].
Qed.

(** ** What the heap promises *)

Class HeapOk km : Prop := {
  malloc_size z b : kumm_malloc km z = Some b → 0 ≤ z → Z.of_nat (length b) = z;
  realloc_size b z b' : kumm_realloc km b z = Some b' → 0 ≤ z → Z.of_nat (length b') = z;
  realloc_keeps b z b' : kumm_realloc km b z = Some b' → ∀ i, (i < length b)%nat → Z.of_nat i < z → b' !! i = b !! i;
  lib_malloc_size z b : lib_malloc km z = Some b → 0 ≤ z → Z.of_nat (length b) = z
}.

(** An allocation failed. *)

Definition fails km : Prop :=
  (∃ z, kumm_malloc km z = None) ∨ (∃ b z, kumm_realloc km b z = None) ∨ ∃ z, lib_malloc km z = None.

Lemma realloc_prefix km `{!HeapOk km} (a r b' : list Z) z :
  kumm_realloc km (a ++ r) z = Some b' → Z.of_nat (length a) ≤ z → take (length a) b' = a.
Proof.
  intros E Hz. pose proof (realloc_size _ _ _ E ltac:(lia)) as Hl. apply list_eq. intros i.
  destruct (decide (i < length a)%nat) as [Hi|Hi].
  - rewrite lookup_take_lt by done. rewrite (realloc_keeps _ _ _ E i) by (rewrite ?length_app; lia). by rewrite lookup_app_l.
  - rewrite lookup_take_ge by lia. symmetry. apply lookup_ge_None. lia.
Qed.

(** ** Adding a variable *)

Lemma text_ok s w : string_at s 0 w → Z.of_nat (length w) < 2 ^ 32 → text s = Some w.
Proof.
  intros Hs Hl. unfold text. rewrite (strlen_ok s 0 w Hs). cbn [mbind option_bind]. fits. rewrite Nat2Z.id.
  destruct Hs as (_ & _ & r & E). rewrite drop_0 in E. by rewrite E, take_app_length.
Qed.

Lemma rep_append l n v b a r sz :
  take (length a) b = a → a = bytes l → NoDup l.*1 → Forall good l → (n ∉ l.*1) → good (n, v) →
  length b = (length a + length (entry (n, v)))%nat → sz = Z.of_nat (length b) → sz < 2 ^ 31 →
  mem_write b (Z.of_nat (length a)) (entry (n, v)) = Some r → rep (mk_group sz (Some r)) (l ++ [(n, v)]).
Proof.
  intros Ha -> Hnd Hg Hn He Hl -> Hsz E. rewrite mem_write_Some in E by lia. injection E as <-. rewrite Nat2Z.id.
  assert (Hb : bytes (l ++ [(n, v)]) = bytes l ++ entry (n, v)) by (rewrite bytes_app, bytes_cons; unfold bytes at 2; simpl; by rewrite app_nil_r).
  constructor; simpl.
  - rewrite fmap_app. apply NoDup_app. split_and!; [done|set_solver|apply NoDup_singleton].
  - apply Forall_app. split; [done|by constructor].
  - rewrite Hb, length_app. lia.
  - done.
  - exists []. rewrite app_nil_r, Hb. unfold strings. simpl. rewrite inserts_split by lia. rewrite Ha.
    rewrite drop_ge by lia. by rewrite app_nil_r.
Qed.

Lemma setenv_add_ok km `{!HeapOk km} st g l ns vs n v :
  rep g l → (n ∉ l.*1) → good (n, v) → string_at ns 0 n → string_at vs 0 v → tg_envsize g + Z.of_nat (length (entry (n, v))) < 2 ^ 31 →
  (∃ g', setenv_add km st g ns vs = Some (ok g' st) ∧ rep g' (l ++ [(n, v)])) ∨
  (fails km ∧ setenv_add km st g ns vs = Some (ERROR, mk_state g ENOMEM)).
Proof.
  intros [Hnd Hg Hsz Hsm [rest E]] Hn He Hns Hvs Hsmall. pose proof (entry_length n v) as El. unfold setenv_add.
  rewrite (strlen_ok ns 0 n Hns), (strlen_ok vs 0 v Hvs). cbn [mbind option_bind]. fits.
  unfold strings in E. destruct (tg_envp g) as [envp|] eqn:Ep; simpl in E.
  - destruct (kumm_realloc km envp _) as [b|] eqn:Er; [left|right; split; [right; left; eauto|done]].
    pose proof (realloc_size _ _ _ Er ltac:(lia)) as Hlb. unfold sprintf_assign. rewrite (text_ok ns n), (text_ok vs v) by (done || lia). cbn [mbind option_bind].
    change (n ++ 61 :: v ++ [0]) with (entry (n, v)). destruct (mem_write b _ _) as [r|] eqn:Ew; [|rewrite mem_write_Some in Ew by lia; done].
    cbn [mbind option_bind]. eexists. split; [done|]. subst envp. rewrite Hsz in Ew.
    apply rep_append with b (bytes l); try done; [|lia|fits; lia|fits; lia]. apply (realloc_prefix km _ _ _ _ Er). lia.
  - destruct l as [|e l]; [|rewrite bytes_cons in *; destruct e; apply (f_equal length) in E; rewrite !length_app, entry_length in E; simpl in E; lia].
    destruct (kumm_malloc km _) as [b|] eqn:Er; [left|right; split; [left; eauto|done]].
    pose proof (malloc_size _ _ Er ltac:(lia)) as Hlb. unfold sprintf_assign. rewrite (text_ok ns n), (text_ok vs v) by (done || lia). cbn [mbind option_bind].
    change (n ++ 61 :: v ++ [0]) with (entry (n, v)). destruct (mem_write b _ _) as [r|] eqn:Ew; [|rewrite mem_write_Some in Ew by lia; done].
    cbn [mbind option_bind]. eexists. split; [done|]. apply rep_append with b []; simpl; try done; fits; try done; lia.
Qed.

Lemma unsetenv_ok km `{!HeapOk km} st l ns n :
  rep (group st) l → string_at ns 0 n → name_ok n →
  ((n ∉ l.*1) ∧ unsetenv km st ns = Some (OK, st)) ∨
  (∃ l1 v l2 g' ret, l = l1 ++ (n, v) :: l2 ∧ rep g' (l1 ++ l2) ∧ unsetenv km st ns = Some (ret, mk_state g' (if ret =? OK then errno st else ENOMEM)) ∧
    (ret = OK ∨ (ret = ERROR ∧ fails km))).
Proof.
  intros Hr Hs Hn. unfold unsetenv. rewrite (findvar_ok _ l ns n) by done. cbn [mbind option_bind].
  destruct (position n l) as [p|] eqn:Ep; [right|left; split; [by apply position_None|done]].
  destruct (position_Some n l p Ep) as (l1 & v & l2 & -> & ->). destruct (removevar_ok _ l1 n v l2 Hr) as (g' & -> & Hr' & [envp Hp] & Hl).
  cbn [mbind option_bind]. pose proof (r_size _ _ Hr') as Hsz. pose proof (r_small _ _ Hr'). rewrite (s32_small (tg_envsize g')) by lia.
  exists l1, v, l2. destruct (Z.leb_spec (tg_envsize g') 0).
  - exists (mk_group 0 None), OK. split; [done|]. split; [|by split; [|left]].
    destruct (l1 ++ l2) as [|[? ?] ?]; [apply rep_empty|]. rewrite bytes_cons, length_app, entry_length in Hsz. lia.
  - destruct (r_strings _ _ Hr') as [rest E]. destruct (kumm_realloc km (strings g') _) as [b|] eqn:Er.
    + exists (mk_group (tg_envsize g') (Some b)), OK. split; [done|]. split; [|by split; [|left]].
      pose proof (realloc_size _ _ _ Er ltac:(lia)) as Hlb. rewrite E in Er. pose proof (realloc_prefix km _ _ _ _ Er ltac:(lia)) as Ht.
      constructor; simpl; try apply Hr'. exists []. unfold strings. simpl. rewrite app_nil_r, <- Ht. symmetry. apply take_ge. lia.
    + exists g', ERROR. split; [done|]. split; [done|]. split; [done|]. right. split; [done|]. right. left. eauto.
Qed.

(** ** The environment as a map *)

Abbreviation vars := (gmap (list Z) (list Z)).

Implicit Types (m : vars).

Inductive op :=
  | Getenv (n : list Z)
  | Setenv (n v : list Z) (overwrite : Z)
  | Unsetenv (n : list Z)
  | Putenv (s : list Z)
  | Clearenv
  | Inherit. (* go on as a new task with the environment of this one *)

Inductive result :=
  | RInt (z : Z)
  | RStr (s : option (list Z)).

Definition exec km (st : state) (o : op) : option (result * state) :=
  match o with
  | Getenv n =>
      '(p, st) ← getenv st (Some (n ++ [0]));
      match p with
      | None => Some (RStr None, st)
      | Some p => w ← text (drop (Z.to_nat p) (strings (group st))); Some (RStr (Some w), st)
      end
  | Setenv n v overwrite => '(r, st) ← setenv km st (Some (n ++ [0])) (Some (v ++ [0])) overwrite; Some (RInt r, st)
  | Unsetenv n => '(r, st) ← unsetenv km st (n ++ [0]); Some (RInt r, st)
  | Putenv s => '(r, st) ← putenv km st (Some (s ++ [0])); Some (RInt r, st)
  | Clearenv => let '(r, st) := clearenv st in Some (RInt r, st)
  | Inherit => '(r, g) ← env_dup km (group st) (mk_group 0 None); Some (RInt r, mk_state g (errno st))
  end.

(** Names have no [=], no string has a NUL inside, and the environment stays below 2 GB. *)

Definition has (c : Z) (s : list Z) : bool := bool_decide (c ∈ s).
Definition fits_in (st : state) (k : nat) : bool := tg_envsize (group st) + Z.of_nat k + 2 <? 2 ^ 31.

Definition may (st : state) (o : op) : bool :=
  match o with
  | Getenv n | Unsetenv n => negb (has 0 n) && negb (has 61 n)
  | Setenv n v _ => negb (has 0 n) && negb (has 61 n) && negb (has 0 v) && fits_in st (length n + length v)
  | Putenv s => negb (has 0 s) && fits_in st (length s)
  | Clearenv | Inherit => true
  end.

(** [e] and [e'] are [errno] before and after. *)

Definition failed km r (e' : Z) : Prop := fails km ∧ r = ERROR ∧ e' = ENOMEM.
Definition done_ok r (e e' : Z) : Prop := r = OK ∧ e' = e.

Definition unsets km m n e r e' m' : Prop :=
  m' = delete n m ∧ (done_ok r e e' ∨ (failed km r e' ∧ is_Some (m !! n))).

Definition sets km m n v (overwrite : Z) e r e' m' : Prop :=
  if decide (overwrite = 0 ∧ (v = [] ∨ is_Some (m !! n))) then done_ok r e e' ∧ m' = m
  else if decide (v = []) then unsets km m n e r e' m'
  else (done_ok r e e' ∧ m' = <[n := v]> m) ∨ (failed km r e' ∧ m' = delete n m).

Definition spec km m (e : Z) (o : op) (r : result) (e' : Z) m' : Prop :=
  match o, r with
  | Getenv n, RStr w => w = m !! n ∧ m' = m ∧ e' = match m !! n with Some _ => e | None => ENOENT end
  | Setenv n v overwrite, RInt r => sets km m n v overwrite e r e' m'
  | Unsetenv n, RInt r => unsets km m n e r e' m'
  | Putenv s, RInt r =>
      (failed km r e' ∧ m' = m) ∨
      (if decide (61 ∈ s) then ∃ n v, s = n ++ 61 :: v ∧ (61 ∉ n) ∧ sets km m n v 1 e r e' m' else done_ok r e e' ∧ m' = m)
  | Clearenv, RInt r => done_ok r e e' ∧ m' = ∅
  | Inherit, RInt r => (done_ok r e e' ∧ m' = m) ∨ (fails km ∧ r = - ENOMEM ∧ e' = e ∧ m' = ∅)
  | _, _ => False
  end.

Definition env_is (st : state) m : Prop := ∃ l, rep (group st) l ∧ m = list_to_map l.

Fixpoint behaves (st : state) m (ops : list (heap * op)) : Prop :=
  match ops with
  | [] => True
  | (km, o) :: ops =>
      HeapOk km → may st o = true →
      ∃ r st' m', exec km st o = Some (r, st') ∧ spec km m (errno st) o r (errno st') m' ∧ behaves st' m' ops
  end.

(** ** The operations on the map *)

Lemma map_remove l1 n v l2 :
  NoDup (l1 ++ (n, v) :: l2).*1 → (list_to_map (l1 ++ l2) : vars) = delete n (list_to_map (l1 ++ (n, v) :: l2)).
Proof.
  intros Hnd. rewrite fmap_app in Hnd. simpl in Hnd. apply NoDup_app in Hnd as (_ & Hd & [Hn _]%NoDup_cons).
  rewrite !list_to_map_app. simpl. rewrite <- insert_union_r by (apply not_elem_of_list_to_map_1; set_solver).
  rewrite delete_insert_eq, delete_id; [done|]. apply lookup_union_None. split; apply not_elem_of_list_to_map_1; set_solver.
Qed.

Lemma map_here l1 n v l2 : NoDup (l1 ++ (n, v) :: l2).*1 → (list_to_map (l1 ++ (n, v) :: l2) : vars) !! n = Some v.
Proof. intros Hnd. apply elem_of_list_to_map_1; [done|]. set_solver. Qed.

Lemma map_add l n v : (n ∉ l.*1) → (list_to_map (l ++ [(n, v)]) : vars) = <[n := v]> (list_to_map l).
Proof.
  intros Hn. rewrite list_to_map_app. simpl. rewrite <- insert_union_r by by apply not_elem_of_list_to_map_1. by rewrite map_union_empty.
Qed.

Lemma map_absent l n : (n ∉ l.*1) → (list_to_map l : vars) !! n = None.
Proof. apply not_elem_of_list_to_map_1. Qed.

Lemma string_block w r : (0 ∉ w) → string_at (w ++ 0 :: r) 0 w.
Proof. intros Hw. split; [done|]. split; [done|]. by exists r. Qed.

Lemma unsetenv_spec km `{!HeapOk km} st m ns n :
  env_is st m → string_at ns 0 n → name_ok n →
  ∃ r st' m', unsetenv km st ns = Some (r, st') ∧ unsets km m n (errno st) r (errno st') m' ∧ env_is st' m'.
Proof.
  intros (l & Hr & ->) Hs Hn. destruct (unsetenv_ok km st l ns n Hr Hs Hn) as [[Hn' ->]|(l1 & v & l2 & g' & ret & -> & Hr' & -> & Hret)].
  - exists OK, st, (list_to_map l). split; [done|]. split; [|by exists l]. split; [|by left]. by rewrite delete_id by by apply map_absent.
  - eexists ret, _, (list_to_map (l1 ++ l2)). split; [done|]. split; [|by exists (l1 ++ l2)]. split; [apply map_remove, Hr|].
    destruct Hret as [->|[-> Hf]]; [by left|]. right. split; [done|]. rewrite map_here by apply Hr. eauto.
Qed.

Lemma string_head ns w : string_at ns 0 w → arr_get ns 0 = Some (hd 0 w).
Proof. intros (_ & _ & r & E). destruct w; by eapply arr_get_drop. Qed.

Lemma setenv_spec km `{!HeapOk km} st m ns vs n v overwrite :
  env_is st m → string_at ns 0 n → string_at vs 0 v → name_ok n →
  tg_envsize (group st) + Z.of_nat (length n + length v) + 2 < 2 ^ 31 →
  ∃ r st' m', setenv km st (Some ns) (Some vs) overwrite = Some (r, st') ∧ sets km m n v overwrite (errno st) r (errno st') m' ∧ env_is st' m'.
Proof.
  intros Hm Hns Hvs Hn Hsz. pose proof (proj1 (proj2 Hvs)) as Hv0. unfold setenv, sets. rewrite (string_head vs v Hvs). cbn [mbind option_bind].
  destruct v as [|c v]; simpl hd.
  { change (0 =? 0) with true. cbv iota. destruct (Z.eqb_spec overwrite 0) as [->|].
    - case_decide as Hd; [by exists OK, st, m|naive_solver].
    - case_decide; [naive_solver|]. case_decide; [by apply unsetenv_spec|done]. }
  destruct (Z.eqb_spec c 0); [set_solver|]. pose proof Hm as (l & Hr & ->).
  replace (match tg_envp (group st) with Some _ => env_findvar (group st) ns | None => Some None end) with (Some (position n l)).
  2: { destruct (tg_envp (group st)) eqn:Ep; [symmetry; by apply findvar_ok|]. destruct (r_strings _ _ Hr) as [rest E]. unfold strings in E.
       rewrite Ep in E. simpl in E. destruct l as [|[[|? ?] ?] ?]; done. }
  cbn [mbind option_bind]. assert (He : good (n, c :: v)) by done.
  destruct (position n l) as [p|] eqn:Ep.
  - destruct (position_Some n l p Ep) as (l1 & v0 & l2 & -> & ->). pose proof (map_here _ _ _ _ (r_nodup _ _ Hr)) as Hh.
    destruct (Z.eqb_spec overwrite 0) as [->|Ho].
    { case_decide as Hd; [by eexists OK, st, _|]. destruct Hd. rewrite Hh. eauto. }
    case_decide; [naive_solver|]. case_decide; [done|].
    destruct (removevar_ok _ l1 n v0 l2 Hr) as (g' & -> & Hr' & _). cbn [mbind option_bind].
    pose proof (map_remove _ _ _ _ (r_nodup _ _ Hr)) as Hrm. pose proof (r_size _ _ Hr') as Hs'. pose proof (r_size _ _ Hr) as Hs.
    rewrite bytes_app, length_app in Hs'. rewrite bytes_app, bytes_cons, !length_app in Hs.
    assert (Hnot : n ∉ (l1 ++ l2).*1).
    { intros Hin. apply (not_elem_of_list_to_map (M := gmap _)) in Hin; [done|]. rewrite Hrm. apply lookup_delete_eq. }
    destruct (setenv_add_ok km st g' (l1 ++ l2) ns vs n (c :: v)) as [(g2 & -> & Hr2)|[Hf ->]]; try done; [rewrite entry_length; simpl in *; lia| |].
    + eexists OK, _, _. split; [done|]. split; [by left|]. exists ((l1 ++ l2) ++ [(n, c :: v)]). split; [done|].
      rewrite map_add, Hrm by done. by rewrite insert_delete_eq.
    + eexists ERROR, _, _. split; [done|]. split; [by right|]. exists (l1 ++ l2). by rewrite Hrm.
  - apply position_None in Ep. pose proof (map_absent l n Ep) as Hh.
    case_decide as Hd; [destruct Hd as [_ [?|Hs]]; [done|]; rewrite Hh in Hs; by destruct Hs|]. case_decide; [done|].
    destruct (setenv_add_ok km st (group st) l ns vs n (c :: v)) as [(g2 & -> & Hr2)|[Hf ->]]; try done; [rewrite entry_length; simpl in *; lia| |].
    + eexists OK, _, _. split; [done|]. split; [by left|]. exists (l ++ [(n, c :: v)]). by rewrite map_add.
    + eexists ERROR, _, _. split; [done|]. split; [by right|]. exists l. split; [done|]. by rewrite delete_id.
Qed.

Lemma text_at s p w : string_at s p w → Z.of_nat (length w) < 2 ^ 32 → text (drop (Z.to_nat p) s) = Some w.
Proof. intros (_ & Hw & r & E) Hl. rewrite E. apply text_ok; [by apply string_block|done]. Qed.

Lemma getenv_spec km st m n :
  env_is st m → name_ok n →
  ∃ r st', exec km st (Getenv n) = Some (r, st') ∧ spec km m (errno st) (Getenv n) r (errno st') m ∧ env_is st' m.
Proof.
  intros Hm Hn. pose proof Hm as (l & Hr & ->). pose proof (string_block n [] (proj1 Hn)) as Hs. unfold exec, getenv.
  rewrite (findvar_ok _ l _ n) by done. cbn [mbind option_bind]. destruct (position n l) as [p|] eqn:Ep.
  - destruct (position_Some n l p Ep) as (l1 & v & l2 & -> & ->). pose proof (map_here _ _ _ _ (r_nodup _ _ Hr)) as Hh.
    destruct (r_strings _ _ Hr) as [rest E]. pose proof (r_good _ _ Hr) as Hg. apply Forall_app in Hg as [_ Hg].
    inversion Hg as [|? ? [_ Hv] _]; subst. pose proof (r_size _ _ Hr) as Hsz. pose proof (r_small _ _ Hr).
    rewrite bytes_app, bytes_cons in *. rewrite !length_app, entry_length in Hsz. rewrite <- !app_assoc, entry_eq in E.
    rewrite (strchr_found _ _ 61 n (v ++ 0 :: bytes l2 ++ rest)); [|lia|apply Hn|done|apply Hn|by rewrite E, Nat2Z.id, drop_app_length].
    cbn [mbind option_bind]. rewrite (text_at _ _ v); [|split; [lia|split; [done|exists (bytes l2 ++ rest)]]|lia].
    + cbn [mbind option_bind]. eexists _, st. split; [done|]. split; [|done]. simpl. by rewrite Hh.
    + replace (Z.to_nat _) with (length (bytes l1) + length (n ++ [61%Z]))%nat by (rewrite length_app; simpl; lia).
      rewrite E, <- drop_drop, drop_app_length. change (61 :: v ++ 0 :: bytes l2 ++ rest) with ([61] ++ v ++ 0 :: bytes l2 ++ rest).
      by rewrite app_assoc, drop_app_length.
  - apply position_None, map_absent in Ep. eexists _, (mk_state (group st) ENOENT). split; [done|]. simpl. rewrite Ep. split; [done|]. by exists l.
Qed.

Lemma has_false c s : negb (has c s) = true ↔ c ∉ s.
Proof. unfold has. rewrite negb_true_iff. apply bool_decide_eq_false. Qed.

Lemma split_first c s : c ∈ s → ∃ a b, s = a ++ c :: b ∧ c ∉ a.
Proof.
  induction s as [|d s IH]; [by intros ?%not_elem_of_nil|]. intros Hc. destruct (decide (d = c)) as [->|Hd].
  - exists [], s. split; [done|apply not_elem_of_nil].
  - destruct IH as (a & b & -> & Ha); [set_solver|]. exists (d :: a), b. split; [done|set_solver].
Qed.

Lemma arr_set_mid (a b : list Z) c d : arr_set (a ++ c :: b) (Z.of_nat (length a)) d = Some (a ++ d :: b).
Proof.
  unfold arr_set. replace ((0 <=? _) && _) with true by (symmetry; apply andb_true_iff; split; [apply Z.leb_le|apply Z.ltb_lt; rewrite length_app; simpl]; lia).
  rewrite Nat2Z.id. rewrite <- (Nat.add_0_r (length a)), insert_app_r. done.
Qed.

Lemma putenv_spec km `{!HeapOk km} st m s :
  env_is st m → (0 ∉ s) → tg_envsize (group st) + Z.of_nat (length s) + 2 < 2 ^ 31 →
  ∃ r st' m', exec km st (Putenv s) = Some (r, st') ∧ spec km m (errno st) (Putenv s) r (errno st') m' ∧ env_is st' m'.
Proof.
  intros Hm Hs Hsz. pose proof Hm as (l & Hr & _). pose proof (r_size _ _ Hr). pose proof (string_block s [] Hs) as Hb. unfold exec, putenv, strdup.
  rewrite (strlen_ok _ 0 s Hb). cbn [mbind option_bind]. fits. destruct (lib_malloc km _) as [news|] eqn:El.
  2: { eexists _, (mk_state (group st) ENOMEM), m. split; [done|]. split; [|done]. left. split; [|done].
       split; [|done]. right. right. eauto. }
  pose proof (lib_malloc_size _ _ El ltac:(lia)). rewrite (strcpy_ok news _ s) by (done || lia). cbn [mbind option_bind].
  destruct (decide (61 ∈ s)) as [He|He].
  - destruct (split_first 61 s He) as (n & v & -> & Hn). rewrite <- app_assoc. simpl app.
    rewrite (strchr_found _ 0 61 n (v ++ [0])) by (done || set_solver). cbn [mbind option_bind]. rewrite Z.add_0_l, arr_set_mid. cbn [mbind option_bind].
    replace (drop (Z.to_nat (Z.of_nat (length n) + 1)) (n ++ 0 :: v ++ [0])) with (v ++ [0]).
    2: { replace (Z.to_nat _) with (length (n ++ [0])) by (rewrite length_app; simpl; lia).
         change (n ++ 0 :: v ++ [0]) with (n ++ [0] ++ v ++ [0]). by rewrite app_assoc, drop_app_length. }
    rewrite length_app in Hsz. simpl in Hsz.
    destruct (setenv_spec km st m (n ++ 0 :: v ++ [0]) (v ++ [0]) n v 1) as (r & st' & m' & -> & Hsp & Hm').
    { done. } { apply string_block. set_solver. } { apply string_block. set_solver. } { split; [set_solver|done]. } { lia. }
    cbn [mbind option_bind]. eexists _, _, m'. split; [done|]. split; [|done]. right. case_decide; [|done]. by exists n, v.
  - rewrite (strchr_none _ 0 61 s) by done. eexists _, st, m. split; [done|]. split; [|done]. right. by case_decide.
Qed.

Lemma dup_spec km `{!HeapOk km} st m :
  env_is st m → ∃ r st' m', exec km st Inherit = Some (r, st') ∧ spec km m (errno st) Inherit r (errno st') m' ∧ env_is st' m'.
Proof.
  intros (l & Hr & ->). destruct Hr as [Hnd Hg Hsz Hsm [rest E]]. unfold exec, env_dup, strings in *.
  destruct (tg_envp (group st)) as [penvp|]; simpl in E.
  - destruct (Z.ltb_spec 0 (tg_envsize (group st))).
    + destruct (kumm_malloc km _) as [envp|] eqn:Em.
      * pose proof (malloc_size _ _ Em ltac:(lia)) as Hl. unfold memcpy. rewrite (memcpy_loop_ok _ envp 0 penvp 0 (bytes l)); [|lia|lia| |lia|lia].
        2: { rewrite E, Hsz, Nat2Z.id. apply take_app_length. }
        cbn [mbind option_bind]. eexists _, _, _. split; [done|]. split; [by left|]. exists l. split; [|done].
        constructor; simpl; try done. exists []. unfold strings. simpl. rewrite inserts_split by lia. rewrite drop_ge by lia. done.
      * eexists _, _, ∅. split; [done|]. split; [right; split; [by left; eauto|done]|]. exists []. split; [apply rep_empty|done].
    + eexists _, _, (list_to_map l). split; [done|]. split; [by left|]. exists l. split; [|done]. simpl.
      assert (l = []) as -> by (destruct l as [|[? ?] ?]; [done|]; rewrite bytes_cons, length_app, entry_length in Hsz; lia).
      rewrite Hsz. apply rep_empty.
  - eexists _, _, (list_to_map l). split; [done|]. split; [by left|]. exists l. split; [|done]. simpl.
    destruct l as [|[[|? ?] ?] ?]; [apply rep_empty|done..].
Qed.

Lemma env_step km st m o :
  HeapOk km → env_is st m → may st o = true →
  ∃ r st' m', exec km st o = Some (r, st') ∧ spec km m (errno st) o r (errno st') m' ∧ env_is st' m'.
Proof.
  intros Hk Hm Ho. destruct o as [n|n v ow|n|s| |]; cbn [may] in Ho; unfold fits_in in Ho;
    rewrite ?andb_true_iff, ?has_false, ?Z.ltb_lt in Ho.
  - destruct (getenv_spec km st m n Hm Ho) as (r & st' & H). eauto.
  - destruct Ho as [[[Hn1 Hn2] Hv] Hsz].
    destruct (setenv_spec km st m (n ++ [0]) (v ++ [0]) n v ow Hm) as (r & st' & m' & E & H); [by apply string_block|by apply string_block|done|lia|].
    exists (RInt r), st', m'. cbn [exec]. by rewrite E.
  - destruct (unsetenv_spec km st m (n ++ [0]) n Hm) as (r & st' & m' & E & H); [by apply string_block, Ho|done|].
    exists (RInt r), st', m'. cbn [exec]. by rewrite E.
  - destruct Ho. by apply putenv_spec.
  - eexists _, _, ∅. split; [done|]. split; [done|]. exists []. split; [apply rep_empty|done].
  - by apply dup_spec.
Qed.

Lemma behaves_of st m ops : env_is st m → behaves st m ops.
Proof.
  revert st m. induction ops as [|[km o] ops IH]; intros st m Hm; [done|]. intros Hk Ho.
  destruct (env_step km st m o Hk Hm Ho) as (r & st' & m' & E & Hs & Hm'). exists r, st', m'. split; [done|]. split; [done|]. by apply IH.
Qed.

(** C31.  The environment is a map from names to values: for every sequence of calls in which the names
    given to [getenv], [setenv] and [unsetenv] contain no = and the block stays below 2^31
    bytes ([may]), and whatever the heap does in each, no call reads or writes outside of the block or breaks an
    assertion, [getenv] points to the value of the name, and the others change the map as
    they should.  When the heap is exhausted, [setenv] removes the variable that it was
    to change, and [unsetenv] removes it although it reports an error. *)
Theorem env_refines_map e ops : behaves (mk_state (mk_group 0 None) e) ∅ ops.
Proof. apply behaves_of. exists []. split; [apply rep_empty|done]. Qed.

(** A heap that never fails. *)

Definition roomy : heap :=
  mk_heap (λ z, Some (replicate (Z.to_nat z) 7)) (λ b z, Some (resize (Z.to_nat z) 7 b)) (λ z, Some (replicate (Z.to_nat z) 7)).

Lemma roomy_ok : HeapOk roomy.
Proof.
  constructor; simpl.
  - intros z b [= <-] Hz. rewrite length_replicate. lia.
  - intros b z b' [= <-] Hz. rewrite length_resize. lia.
  - intros b z b' [= <-] i Hi Hiz. apply lookup_resize; lia.
  - intros z b [= <-] Hz. rewrite length_replicate. lia.
Qed.

(** The string A=B is put into an empty environment. *)
Lemma env_refines_map_witness :
  ∃ r st' m', exec roomy (mk_state (mk_group 0 None) 0) (Putenv [65; 61; 66]) = Some (r, st') ∧
    spec roomy ∅ 0 (Putenv [65; 61; 66]) r (errno st') m' ∧ strings (group st') = [65; 61; 66; 0].
Proof.
  destruct (env_refines_map 0 [(roomy, Putenv [65; 61; 66])] roomy_ok) as (r & st' & m' & E & Hs & _); [reflexivity|].
  exists r, st', m'. split; [exact E|]. split; [exact Hs|]. vm_compute in E. injection E as _ <-. reflexivity.
Defined.

(** The comparison of names goes on past the end of both strings when they are equal:
    with the variable A set to B, the lookup of the name A=B reads past the end of the
    environment. *)
Theorem env_cmpname_overrun km st b :
  kumm_malloc km 4 = Some b → length b = 4%nat → group st = mk_group 0 None →
  ∃ st', setenv km st (Some [65; 0]) (Some [66; 0]) 1 = Some (OK, st') ∧
    getenv st' (Some [65; 0]) = Some (Some 2, st') ∧ getenv st' (Some [65; 61; 66; 0]) = None.
Proof.
  intros Em Hb Hg. destruct b as [|b0 [|b1 [|b2 [|b3 [|]]]]]; try done. unfold setenv. rewrite Hg.
  cbn [arr_get mbind option_bind tg_envp group]. unfold setenv_add. simpl tg_envp. cbv iota.
  change (arr_get [66; 0] 0) with (Some 66). cbn [mbind option_bind]. change (66 =? 0) with false. cbv iota.
  change (strlen [65; 0] 0) with (Some 1). change (strlen [66; 0] 0) with (Some 1). cbn [mbind option_bind].
  change (s32 (u32 (1 + 1 + 2))) with 4. rewrite Em. eexists. split; [reflexivity|]. split; reflexivity.
Qed.

Lemma env_cmpname_overrun_witness :
  let km := mk_heap (λ z, Some (replicate (Z.to_nat z) 7)) (λ _ _, None) (λ _, None) in
  ∃ st', setenv km (mk_state (mk_group 0 None) 0) (Some [65; 0]) (Some [66; 0]) 1 = Some (OK, st') ∧
    getenv st' (Some [65; 61; 66; 0]) = None.
Proof.
  destruct (env_cmpname_overrun (mk_heap (λ z, Some (replicate (Z.to_nat z) 7)) (λ _ _, None) (λ _, None))
    (mk_state (mk_group 0 None) 0) [7; 7; 7; 7]) as (st' & H1 & _ & H2); [reflexivity|reflexivity|reflexivity|].
  exists st'. split; [exact H1|exact H2].
Defined.

End EnvProps.
