(* ===== verification/Qsort.v ===== *)
(** * Sorting and searching (libs/libc/stdlib: qsort and bsearch)

    The array is a range of a block of bytes: [addr] is the address of the block, and a
    pointer into it is an offset.  The comparison function is applied to the bytes of two
    elements.  An access outside of the block is a fault, and so is an access to a [long]
    at an address that is not aligned. *)

From stdpp Require Import base list numbers option.
From S2P Require Import Prelude.

Module Qsort.

Definition SIZEOF_LONG : Z := 4.

Section Code.

Context (addr width : Z) (compar : list Z → list Z → Z).

Implicit Types (m : list Z) (fuel : nat).

(** ** Exchange of elements *)

Definition load (size : Z) m (p : Z) : option (list Z) :=
  DEBUGASSERT ((addr + p) mod size =? 0) ;; mem_read m p size.

Definition store (size : Z) m (p : Z) (t : list Z) : option (list Z) :=
  DEBUGASSERT ((addr + p) mod size =? 0) ;; mem_write m p t.

Fixpoint swapcode_loop fuel (size : Z) m (i pi pj : Z) : option (list Z) :=
  match fuel with
  | O => None
  | S fuel =>
      t ← load size m pi;
      u ← load size m pj;
      m ← store size m pi u;
      m ← store size m pj t;
      let i := i - 1 in
      if 0 <? i then swapcode_loop fuel size m i (pi + size) (pj + size) else Some m
  end.

Definition swapcode (size : Z) m (parmi parmj n : Z) : option (list Z) :=
  let i := Z.quot n size in
  swapcode_loop (S (Z.to_nat i)) size m i parmi parmj.

Definition swapfunc m (a b n swaptype : Z) : option (list Z) :=
  if swaptype <=? 1 then swapcode SIZEOF_LONG m a b n else swapcode 1 m a b n.

Definition SWAPINIT (a : Z) : Z :=
  if negb (u32 (addr + a) mod SIZEOF_LONG =? 0) || negb (width mod SIZEOF_LONG =? 0) then 2
  else if width =? SIZEOF_LONG then 0 else 1.

Definition swap (swaptype : Z) m (a b : Z) : option (list Z) :=
  if swaptype =? 0 then
    t ← load SIZEOF_LONG m a;
    u ← load SIZEOF_LONG m b;
    m ← store SIZEOF_LONG m a u;
    store SIZEOF_LONG m b t
  else swapfunc m a b width swaptype.

Definition vecswap (swaptype : Z) m (a b n : Z) : option (list Z) :=
  if 0 <? n then swapfunc m a b n swaptype else Some m.

(** ** Comparisons *)

Definition compare m (p q : Z) : option Z :=
  a ← mem_read m p width; b ← mem_read m q width; Some (compar a b).

Definition med3 m (a b c : Z) : option Z :=
  ab ← compare m a b;
  bc ← compare m b c;
  if ab <? 0 then
    if bc <? 0 then Some b else ac ← compare m a c; Some (if ac <? 0 then c else a)
  else
    if 0 <? bc then Some b else ac ← compare m a c; Some (if ac <? 0 then a else c).

(** ** Insertion sort *)

Fixpoint insert_inner fuel (swaptype base : Z) m (pl : Z) : option (list Z) :=
  match fuel with
  | O => None
  | S fuel =>
      if base <? pl then
        r ← compare m (pl - width) pl;
        if 0 <? r then m ← swap swaptype m pl (pl - width); insert_inner fuel swaptype base m (pl - width)
        else Some m
      else Some m
  end.

Fixpoint insert_outer fuel (swaptype base nel : Z) m (pm : Z) : option (list Z) :=
  match fuel with
  | O => None
  | S fuel =>
      if pm <? base + u32 (nel * width) then
        m ← insert_inner (S (Z.to_nat nel)) swaptype base m pm;
        insert_outer fuel swaptype base nel m (pm + width)
      else Some m
  end.

Definition insertion (swaptype base nel : Z) m : option (list Z) :=
  insert_outer (S (Z.to_nat nel)) swaptype base nel m (base + width).

(** ** Partition *)

Fixpoint scan_up fuel (swaptype base : Z) m (pa pb pc swap_cnt : Z) : option (list Z * Z * Z * Z) :=
  match fuel with
  | O => None
  | S fuel =>
      if pb <=? pc then
        r ← compare m pb base;
        if r <=? 0 then
          if r =? 0 then m ← swap swaptype m pa pb; scan_up fuel swaptype base m (pa + width) (pb + width) pc 1
          else scan_up fuel swaptype base m pa (pb + width) pc swap_cnt
        else Some (m, pa, pb, swap_cnt)
      else Some (m, pa, pb, swap_cnt)
  end.

Fixpoint scan_down fuel (swaptype base : Z) m (pb pc pd swap_cnt : Z) : option (list Z * Z * Z * Z) :=
  match fuel with
  | O => None
  | S fuel =>
      if pb <=? pc then
        r ← compare m pc base;
        if 0 <=? r then
          if r =? 0 then m ← swap swaptype m pc pd; scan_down fuel swaptype base m pb (pc - width) (pd - width) 1
          else scan_down fuel swaptype base m pb (pc - width) pd swap_cnt
        else Some (m, pc, pd, swap_cnt)
      else Some (m, pc, pd, swap_cnt)
  end.

Fixpoint partition fuel (swaptype base nel : Z) m (pa pb pc pd swap_cnt : Z) : option (list Z * Z * Z * Z * Z * Z) :=
  match fuel with
  | O => None
  | S fuel =>
      '(m, pa, pb, swap_cnt) ← scan_up (S (Z.to_nat nel)) swaptype base m pa pb pc swap_cnt;
      '(m, pc, pd, swap_cnt) ← scan_down (S (Z.to_nat nel)) swaptype base m pb pc pd swap_cnt;
      if pc <? pb then Some (m, pa, pb, pc, pd, swap_cnt)
      else m ← swap swaptype m pb pc; partition fuel swaptype base nel m pa (pb + width) (pc - width) pd 1
  end.

Definition pivot (base nel : Z) m : option Z :=
  let pm := base + u32 (Z.quot nel 2 * width) in
  if 7 <? nel then
    let pl := base in
    let pn := base + u32 ((nel - 1) * width) in
    '(pl, pm, pn) ←
      (if 40 <? nel then
         let d := s32 (u32 (Z.quot nel 8 * width)) in
         pl ← med3 m pl (pl + d) (pl + 2 * d);
         pm ← med3 m (pm - d) pm (pm + d);
         pn ← med3 m (pn - 2 * d) (pn - d) pn;
         Some (pl, pm, pn)
       else Some (pl, pm, pn));
    med3 m pl pm pn
  else Some pm.

(** The elements that equal the pivot are at both ends; they are moved to the middle. *)

Definition gather_equals (swaptype base pn : Z) m (pa pb pc pd : Z) : option (list Z) :=
  let r := s32 (if pa - base <? pb - pa then pa - base else pb - pa) in
  m ← vecswap swaptype m base (pb - r) r;
  let r := s32 (if u32 (pd - pc) <? u32 (pn - pd - width) then pd - pc else u32 (pn - pd - width)) in
  vecswap swaptype m pb (pn - r) r.

(** ** The sort *)

Fixpoint qsort_loop fuel (base nel : Z) m : option (list Z) :=
  match fuel with
  | O => None
  | S fuel =>
      let swaptype := SWAPINIT base in
      if nel <? 7 then insertion swaptype base nel m
      else
        pm ← pivot base nel m;
        m ← swap swaptype m base pm;
        let pa := base + width in
        let pc := base + u32 ((nel - 1) * width) in
        '(m, pa, pb, pc, pd, swap_cnt) ← partition (S (Z.to_nat nel)) swaptype base nel m pa pa pc pc 0;
        if swap_cnt =? 0 then insertion swaptype base nel m
        else
          let pn := base + u32 (nel * width) in
          m ← gather_equals swaptype base pn m pa pb pc pd;
          let r := s32 (pb - pa) in
          m ← (if width <? u32 r then qsort_loop fuel base (Z.quot (u32 r) width) m else Some m);
          let r := s32 (pd - pc) in
          if width <? u32 r then qsort_loop fuel (pn - r) (Z.quot (u32 r) width) m else Some m
  end.

Definition qsort (base nel : Z) m : option (list Z) := qsort_loop (S (Z.to_nat nel)) base nel m.

(** ** The search *)

Fixpoint bsearch_loop fuel (key : list Z) m (lim lower : Z) : option (option Z) :=
  match fuel with
  | O => None
  | S fuel =>
      if lim =? 0 then Some None
      else
        let middle := lower + u32 (Z.shiftr lim 1 * width) in
        x ← mem_read m middle width;
        let cmp := compar key x in
        if cmp =? 0 then Some (Some middle)
        else if 0 <? cmp then bsearch_loop fuel key m (Z.shiftr (lim - 1) 1) (middle + width)
        else bsearch_loop fuel key m (Z.shiftr lim 1) lower
  end.

Definition bsearch (key m : list Z) (base nel : Z) : option (option Z) := bsearch_loop (S (Z.to_nat nel)) key m nel base.

End Code.

End Qsort.
