(* ===== verification/QsortSpec.v ===== *)
(** * Arrays of elements in a block of bytes

    [block] is an array of elements of [w] bytes between other bytes.  The exchange of two
    elements or of two ranges of elements, which the code makes byte by byte or word by
    word, is an exchange in the list of elements. *)

From stdpp Require Import base list numbers option sorting.
From S2P Require Import Prelude Qsort.

Module QsortSpec.

Import Qsort.

Abbreviation elem := (list Z).

(** ** Sorted lists *)

Section Sorted.

Context {A : Type} (R : A → A → Prop).

Lemma sorted_app (l1 l2 : list A) :
  StronglySorted R (l1 ++ l2) ↔ StronglySorted R l1 ∧ StronglySorted R l2 ∧ ∀ x y, x ∈ l1 → y ∈ l2 → R x y.
Proof.
  induction l1 as [|z l1 IH]; simpl.
  - split; [intros H; split_and!; [constructor|done|by intros x y ?%not_elem_of_nil]|by intros (_ & H & _)].
  - split.
    + intros [H Hz]%StronglySorted_inv. apply IH in H as (H1 & H2 & H3). apply Forall_app in Hz as [Hz1 Hz2].
      split_and!; [by constructor|done|]. intros x y [->|Hx]%elem_of_cons Hy; [|by apply H3].
      by eapply Forall_forall in Hz2.
    + intros (H1 & H2 & H3). apply StronglySorted_inv in H1 as [H1 Hz]. constructor.
      * apply IH. split_and!; [done|done|]. intros x y Hx Hy. apply H3; [by right|done].
      * apply Forall_app. split; [done|]. apply Forall_forall. intros y Hy. apply H3; [by left|done].
Qed.

Lemma sorted_short (l : list A) : (length l ≤ 1)%nat → StronglySorted R l.
Proof. destruct l as [|x [|]]; simpl; [constructor|by repeat constructor|lia]. Qed.

End Sorted.

(** ** What the comparison function has to be *)

Section Compar.

Context (compar : elem → elem → Z).

Definition le (x y : elem) : Prop := compar x y ≤ 0.

Record consistent (l : list elem) : Prop := {
  c_opp x y : x ∈ l → y ∈ l → 0 < compar x y ↔ compar y x < 0;
  c_trans x y z : x ∈ l → y ∈ l → z ∈ l → le x y → le y z → le x z
}.

Lemma consistent_sub l l' : consistent l → (∀ x, x ∈ l' → x ∈ l) → consistent l'.
Proof. intros [H1 H2] Hs. split; eauto. Qed.

Definition sorts (l l' : list elem) : Prop := l' ≡ₚ l ∧ (consistent l → StronglySorted le l').

Lemma c_total l x y : consistent l → x ∈ l → y ∈ l → le x y ∨ le y x.
Proof. intros Hc Hx Hy. unfold le. pose proof (c_opp _ Hc x y Hx Hy). lia. Qed.

End Compar.

(** ** Blocks *)

Section Block.

Context (addr : Z) (w : nat) (Hw : (0 < w)%nat).

Abbreviation width := (Z.of_nat w).

Implicit Types (pre post X Y V : list Z) (A B C : list elem).

Definition sized A : Prop := Forall (λ e, length e = w) A.

Definition block pre A post : list Z := pre ++ concat A ++ post.

Definition off pre A : Z := Z.of_nat (length pre) + Z.of_nat (length A) * width.

Lemma sized_app A B : sized (A ++ B) ↔ sized A ∧ sized B.
Proof. apply Forall_app. Qed.

Lemma sized_cons x A : sized (x :: A) ↔ length x = w ∧ sized A.
Proof. apply Forall_cons_iff. Qed.

Lemma sized_perm A B : A ≡ₚ B → sized A → sized B.
Proof. unfold sized. by intros ->. Qed.

Lemma concat_length A : sized A → length (concat A) = (length A * w)%nat.
Proof. induction 1 as [|e A He _ IH]; simpl; [done|]. rewrite length_app. lia. Qed.

Lemma off_length pre A : sized A → off pre A = Z.of_nat (length (pre ++ concat A)).
Proof. intros HA. unfold off. rewrite length_app, concat_length by done. lia. Qed.

Lemma read_mid (X U Y : list Z) p n :
  p = Z.of_nat (length X) → n = Z.of_nat (length U) → mem_read (X ++ U ++ Y) p n = Some U.
Proof.
  intros -> ->. rewrite mem_read_Some by (rewrite ?length_app; lia). by rewrite !Nat2Z.id, drop_app_length, take_app_length.
Qed.

Lemma write_mid (X U V Y : list Z) p :
  p = Z.of_nat (length X) → length U = length V → mem_write (X ++ U ++ Y) p V = Some (X ++ V ++ Y).
Proof.
  intros -> Hl. rewrite mem_write_Some by (rewrite ?length_app; lia). rewrite Nat2Z.id, inserts_split by (rewrite !length_app; lia).
  rewrite take_app_length, <- Hl, <- drop_drop, !drop_app_length. done.
Qed.

Lemma block_split pre A B post : block pre (A ++ B) post = (pre ++ concat A) ++ concat B ++ post.
Proof. unfold block. by rewrite concat_app, <- !app_assoc. Qed.

Lemma elem_at pre A x B post :
  sized (A ++ x :: B) → mem_read (block pre (A ++ x :: B) post) (off pre A) width = Some x.
Proof.
  intros [HA [Hx HB]%sized_cons]%sized_app. rewrite block_split. simpl. rewrite <- (app_assoc x).
  apply read_mid; [by apply off_length|by rewrite Hx].
Qed.

(** ** Exchanges of bytes and words *)

Definition aligned (size p : Z) : Prop := (addr + p) mod size = 0.

Lemma load_ok size X U Y p :
  p = Z.of_nat (length X) → size = Z.of_nat (length U) → aligned size p → load addr size (X ++ U ++ Y) p = Some U.
Proof. intros Hp Hs Ha. unfold load, aligned in *. rewrite Ha. simpl. by apply read_mid. Qed.

Lemma store_ok size X U V Y p :
  p = Z.of_nat (length X) → length U = length V → aligned size p → store addr size (X ++ U ++ Y) p V = Some (X ++ V ++ Y).
Proof. intros Hp Hs Ha. unfold store, aligned in *. rewrite Ha. simpl. by apply write_mid. Qed.

Lemma aligned_next size p : 0 < size → aligned size p → aligned size (p + size).
Proof. intros Hs Ha. unfold aligned in *. rewrite Z.add_assoc, <- (Z.mul_1_l size) at 1. by rewrite Z_mod_plus_full. Qed.

(** One step exchanges [U] and [V], in either order of the pointers. *)

Lemma exchange size X U Y V T p q :
  p = Z.of_nat (length X) → q = Z.of_nat (length X + length U + length Y) → size = Z.of_nat (length U) → length V = length U →
  aligned size p → aligned size q →
  (∃ m1, load addr size (X ++ U ++ Y ++ V ++ T) p = Some U ∧ load addr size (X ++ U ++ Y ++ V ++ T) q = Some V ∧
     store addr size (X ++ U ++ Y ++ V ++ T) p V = Some m1 ∧ store addr size m1 q U = Some (X ++ V ++ Y ++ U ++ T)) ∧
  (∃ m1, store addr size (X ++ U ++ Y ++ V ++ T) q U = Some m1 ∧ store addr size m1 p V = Some (X ++ V ++ Y ++ U ++ T)).
Proof.
  intros Hp Hq Hs HV Hap Haq. assert (G : ∀ W Q, X ++ W ++ Y ++ Q = (X ++ W ++ Y) ++ Q) by (intros; by rewrite <- !app_assoc).
  split.
  - exists (X ++ V ++ Y ++ V ++ T). split; [by apply load_ok|]. split; [|split; [by apply store_ok|]].
    + rewrite G. apply load_ok; [rewrite !length_app; lia|lia|done].
    + rewrite !G. apply store_ok; [rewrite !length_app; lia|done|done].
  - exists (X ++ U ++ Y ++ U ++ T). split; [|by apply store_ok]. rewrite !G. apply store_ok; [rewrite !length_app; lia|done|done].
Qed.

(** [k] steps exchange ranges of [k] units, and leave a range that is exchanged with itself. *)

Lemma swapcode_loop_ok size k fuel X U Y V T p q :
  0 < size → (0 < k ≤ fuel)%nat → Z.of_nat (length U) = Z.of_nat k * size → length V = length U →
  p = Z.of_nat (length X) → q = Z.of_nat (length X + length U + length Y) → aligned size p → aligned size q →
  swapcode_loop addr fuel size (X ++ U ++ Y ++ V ++ T) (Z.of_nat k) p q = Some (X ++ V ++ Y ++ U ++ T) ∧
  swapcode_loop addr fuel size (X ++ U ++ Y ++ V ++ T) (Z.of_nat k) q p = Some (X ++ V ++ Y ++ U ++ T).
Proof.
  revert k X U Y V p q. induction fuel as [|fuel IH]; intros k X U Y V p q Hs Hk HU HV Hp Hq Hap Haq; [lia|].
  set (n := Z.to_nat size). rewrite <- (take_drop n U), <- (take_drop n V).
  assert (length (take n U) = n ∧ length (take n V) = n) as [HnU HnV] by (rewrite !length_take; split; nia).
  set (u := take n U) in *. set (U' := drop n U) in *. set (v := take n V) in *. set (V' := drop n V) in *.
  assert (HU' : length U = (n + length U')%nat) by (rewrite <- (take_drop n U), length_app; fold u U'; lia).
  assert (HV' : length V = (n + length V')%nat) by (rewrite <- (take_drop n V), length_app; fold v V'; lia).
  destruct (exchange size X u (U' ++ Y) v (V' ++ T) p q) as [(m1 & L1 & L2 & S1 & S2) (m2 & S3 & S4)];
    [done|rewrite length_app; lia|lia|lia|done|done|].
  replace (X ++ (u ++ U') ++ Y ++ (v ++ V') ++ T) with (X ++ u ++ (U' ++ Y) ++ v ++ V' ++ T) by (by rewrite <- !app_assoc).
  cbn [swapcode_loop]. rewrite L1, L2. cbn [mbind option_bind]. rewrite S1, S3. cbn [mbind option_bind]. rewrite S2, S4. cbn [mbind option_bind].
  destruct (decide (k = 1%nat)) as [->|Hk1].
  - assert (U' = [] ∧ V' = []) as [-> ->] by (split; apply nil_length_inv; lia). simpl. by rewrite !app_nil_r.
  - destruct (Z.ltb_spec 0 (Z.of_nat k - 1)); [|lia]. replace (Z.of_nat k - 1) with (Z.of_nat (k - 1)) by lia.
    destruct (IH (k - 1)%nat (X ++ v) U' (Y ++ u) V' (p + size) (q + size)) as [E1 E2];
      [done|lia|nia|lia|rewrite length_app; lia|rewrite !length_app; lia|by apply aligned_next|by apply aligned_next|].
    rewrite <- !app_assoc in *. by rewrite E1, E2.
Qed.

Lemma swapcode_loop_self size k fuel X U T p :
  0 < size → (0 < k ≤ fuel)%nat → Z.of_nat (length U) = Z.of_nat k * size → p = Z.of_nat (length X) → aligned size p →
  swapcode_loop addr fuel size (X ++ U ++ T) (Z.of_nat k) p p = Some (X ++ U ++ T).
Proof.
  revert k X U p. induction fuel as [|fuel IH]; intros k X U p Hs Hk HU Hp Hap; [lia|].
  set (n := Z.to_nat size). rewrite <- (take_drop n U).
  assert (HnU : length (take n U) = n) by (rewrite !length_take; nia).
  set (u := take n U) in *. set (U' := drop n U) in *.
  assert (HU' : length U = (n + length U')%nat) by (rewrite <- (take_drop n U), length_app; fold u U'; lia).
  rewrite <- app_assoc. cbn [swapcode_loop]. rewrite !(load_ok size X u _ p) by (done || lia). cbn [mbind option_bind].
  rewrite (store_ok size X u u _ p) by done. cbn [mbind option_bind]. rewrite (store_ok size X u u _ p) by done. cbn [mbind option_bind].
  destruct (Z.ltb_spec 0 (Z.of_nat k - 1)); [|done]. replace (Z.of_nat k - 1) with (Z.of_nat (k - 1)) by lia.
  rewrite app_assoc. apply (IH (k - 1)%nat (X ++ u) U' (p + size)); [done|lia|nia|rewrite length_app; lia|by apply aligned_next].
Qed.

(** ** The kinds of exchange *)

Definition unit_of (st : Z) : Z := if st <=? 1 then SIZEOF_LONG else 1.

Record kind (st p : Z) : Prop := {
  k_width : width mod unit_of st = 0;
  k_align : aligned (unit_of st) p;
  k_zero : st = 0 → width = SIZEOF_LONG
}.

Lemma kind_init p : kind (SWAPINIT addr width p) p.
Proof.
  unfold SWAPINIT. assert (Hm : u32 (addr + p) mod SIZEOF_LONG = (addr + p) mod SIZEOF_LONG) by (unfold u32, SIZEOF_LONG; dlia).
  rewrite Hm. destruct (Z.eqb_spec ((addr + p) mod SIZEOF_LONG) 0), (Z.eqb_spec (width mod SIZEOF_LONG) 0); simpl;
    try (split; [by apply Z.mod_1_r|by apply Z.mod_1_r|done]).
  destruct (Z.eqb_spec width SIZEOF_LONG); by split.
Qed.

Lemma unit_pos st : 0 < unit_of st.
Proof. unfold unit_of, SIZEOF_LONG. case_if; lia. Qed.

Lemma kind_at st p k : kind st p → kind st (p + Z.of_nat k * width).
Proof.
  intros [H1 H2 H3]. split; [done| |done]. unfold aligned in *. pose proof (unit_pos st).
  apply Z.div_exact in H1; [|lia]. rewrite H1, Z.add_assoc, (Z.mul_comm (unit_of st)), Z.mul_assoc, Z_mod_plus_full. done.
Qed.

Lemma swapfunc_unit st m a b n : swapfunc addr m a b n st = swapcode addr (unit_of st) m a b n.
Proof. unfold swapfunc, unit_of. by destruct (st <=? 1). Qed.

(** The number of units of [k] elements. *)

Lemma units st p k : kind st p → (0 < k)%nat → ∃ j : nat, (0 < j)%nat ∧ Z.of_nat k * width = Z.of_nat j * unit_of st.
Proof.
  intros [H1 _ _] Hk. pose proof (unit_pos st). apply Z.div_exact in H1; [|lia].
  exists (Z.to_nat (Z.of_nat k * (width / unit_of st))). assert (0 < width / unit_of st) by nia. split; nia.
Qed.

Lemma swapcode_start st m a b (j : nat) n :
  n = Z.of_nat j * unit_of st → swapcode addr (unit_of st) m a b n = swapcode_loop addr (S j) (unit_of st) m (Z.of_nat j) a b.
Proof. intros ->. pose proof (unit_pos st). unfold swapcode. rewrite Z.quot_mul by lia. by rewrite Nat2Z.id. Qed.

Lemma swapfunc_ok st p0 A (U Y V : list elem) C pre post :
  kind st p0 → p0 = Z.of_nat (length pre) → sized (A ++ U ++ Y ++ V ++ C) → (0 < length U)%nat → length U = length V →
  let m := block pre (A ++ U ++ Y ++ V ++ C) post in let m' := block pre (A ++ V ++ Y ++ U ++ C) post in
  let n := Z.of_nat (length U) * width in
  swapfunc addr m (off pre A) (off pre (A ++ U ++ Y)) n st = Some m' ∧
  swapfunc addr m (off pre (A ++ U ++ Y)) (off pre A) n st = Some m'.
Proof.
  intros Hk -> Hs HU HV m m' n. rewrite !swapfunc_unit. destruct (units st _ (length U) Hk HU) as (j & Hj & Ej).
  apply sized_app in Hs as [HA [HsU [HsY [HsV HsC]%sized_app]%sized_app]%sized_app].
  rewrite !(swapcode_start st _ _ _ j n) by done.
  pose proof (swapcode_loop_ok (unit_of st) j (S j) (pre ++ concat A) (concat U) (concat Y) (concat V) (concat C ++ post)
    (off pre A) (off pre (A ++ U ++ Y))) as H.
  unfold m, m', block. rewrite !concat_app. rewrite <- !app_assoc in *. apply H; clear H.
  - apply unit_pos.
  - lia.
  - rewrite concat_length by done. lia.
  - rewrite !concat_length by done. lia.
  - by apply off_length.
  - unfold off. rewrite !length_app, !concat_length by done. lia.
  - apply (kind_at st _ (length A) Hk).
  - apply (kind_at st _ (length (A ++ U ++ Y)) Hk).
Qed.

Lemma vecswap_ok st p0 A (U Y V : list elem) C pre post :
  kind st p0 → p0 = Z.of_nat (length pre) → sized (A ++ U ++ Y ++ V ++ C) → length U = length V →
  vecswap addr st (block pre (A ++ U ++ Y ++ V ++ C) post) (off pre A) (off pre (A ++ U ++ Y)) (Z.of_nat (length U) * width) =
  Some (block pre (A ++ V ++ Y ++ U ++ C) post).
Proof.
  intros Hk Hp Hs HV. unfold vecswap. destruct (decide (length U = 0%nat)) as [E|HU].
  - rewrite E. simpl. assert (U = [] ∧ V = []) as [-> ->] by (split; apply nil_length_inv; lia). done.
  - destruct (Z.ltb_spec 0 (Z.of_nat (length U) * width)); [|nia]. by apply (swapfunc_ok st p0); [..|lia|].
Qed.

Lemma swap_self st p0 A x C pre post :
  kind st p0 → p0 = Z.of_nat (length pre) → sized (A ++ x :: C) →
  let m := block pre (A ++ x :: C) post in swap addr width st m (off pre A) (off pre A) = Some m.
Proof.
  intros Hk -> Hs m. apply sized_app in Hs as [HA [Hx HC]%sized_cons].
  assert (Em : m = (pre ++ concat A) ++ x ++ concat C ++ post) by (unfold m; rewrite block_split; simpl; by rewrite <- (app_assoc x)).
  pose proof (kind_at st _ (length A) Hk) as Ha. fold (off pre A) in Ha. unfold swap. rewrite Em. destruct (Z.eqb_spec st 0) as [->|].
  - pose proof (k_zero _ _ Hk eq_refl) as H4. pose proof (k_align _ _ Ha) as Hal. change (unit_of 0) with SIZEOF_LONG in Hal.
    rewrite !(load_ok SIZEOF_LONG _ x) by (done || lia || by apply off_length). cbn [mbind option_bind].
    rewrite (store_ok SIZEOF_LONG _ x x) by (done || by apply off_length). cbn [mbind option_bind].
    by rewrite (store_ok SIZEOF_LONG _ x x) by (done || by apply off_length).
  - rewrite swapfunc_unit. destruct (units st _ 1 Hk) as (j & Hj & Ej); [lia|]. rewrite (swapcode_start st _ _ _ j) by lia.
    apply swapcode_loop_self; [apply unit_pos|lia|lia|by apply off_length|apply Ha].
Qed.

Lemma swap_ok st p0 A x B y C pre post :
  kind st p0 → p0 = Z.of_nat (length pre) → sized (A ++ x :: B ++ y :: C) →
  let m := block pre (A ++ x :: B ++ y :: C) post in let m' := block pre (A ++ y :: B ++ x :: C) post in
  swap addr width st m (off pre A) (off pre (A ++ x :: B)) = Some m' ∧
  swap addr width st m (off pre (A ++ x :: B)) (off pre A) = Some m'.
Proof.
  intros Hk Hp Hs m m'. unfold swap. destruct (Z.eqb_spec st 0) as [->|].
  2: { pose proof (swapfunc_ok st p0 A [x] B [y] C pre post Hk Hp Hs) as H. simpl in H. rewrite Z.mul_1_l in H. apply H; [lia|done]. }
  pose proof (k_zero _ _ Hk eq_refl) as H4. subst p0.
  pose proof (k_align _ _ (kind_at 0 _ (length A) Hk)) as Ha. pose proof (k_align _ _ (kind_at 0 _ (length (A ++ x :: B)) Hk)) as Hb.
  change (unit_of 0) with SIZEOF_LONG in *. fold (off pre A) in Ha. fold (off pre (A ++ x :: B)) in Hb.
  apply sized_app in Hs as [HA [Hx [HB [Hy HC]%sized_cons]%sized_app]%sized_cons].
  destruct (exchange SIZEOF_LONG (pre ++ concat A) x (concat B) y (concat C ++ post) (off pre A) (off pre (A ++ x :: B)))
    as [(m1 & L1 & L2 & S1 & S2) (m2 & S3 & S4)]; [by apply off_length| |lia|lia|done|done|].
  { unfold off. rewrite !length_app, concat_length, concat_length by done. simpl. lia. }
  assert (G : ∀ a b, (pre ++ concat A) ++ a ++ concat B ++ b ++ concat C ++ post = block pre (A ++ a :: B ++ b :: C) post).
  { intros a b. unfold block. rewrite !concat_app. simpl. rewrite !concat_app. simpl. by rewrite <- !app_assoc. }
  rewrite !G in *. unfold m, m'. rewrite L1, L2. cbn [mbind option_bind]. rewrite S1, S3. cbn [mbind option_bind]. by rewrite S2, S4.
Qed.

End Block.

#[export] Instance sized_proper w : Proper ((≡ₚ) ==> iff) (sized w).
Proof. intros A B H. split; apply sized_perm; [done|by symmetry]. Qed.

End QsortSpec.
