(* ===== verification/QsortProps.v ===== *)
(** * Properties of sorting and searching

    [qsort] sorts every array in place, for every size and alignment of the elements; and
    it terminates inside of the array whatever the comparison function returns. *)

From stdpp Require Import base list numbers option sorting.
From S2P Require Import Prelude Qsort QsortSpec.

Module QsortProps.

Import Qsort QsortSpec.

Section Props.

Context (addr : Z) (w : nat) (Hw : (0 < w)%nat) (compar : elem → elem → Z).

Abbreviation width := (Z.of_nat w).
Abbreviation le := (QsortSpec.le compar).
Abbreviation consistent := (QsortSpec.consistent compar).
Abbreviation sorts := (QsortSpec.sorts compar).
Abbreviation sized := (QsortSpec.sized w).
Abbreviation kind := (QsortSpec.kind addr w).
Abbreviation off := (QsortSpec.off w).

Implicit Types (A B C E L M G R : list elem) (x y v : elem) (fuel : nat).

(** ** Positions *)

Definition pos (pre : list Z) (i : nat) : Z := Z.of_nat (length pre) + Z.of_nat i * width.

Lemma read_at pre es post i x : sized es → es !! i = Some x → mem_read (block pre es post) (pos pre i) width = Some x.
Proof.
  intros Hs Hi. pose proof (lookup_lt_Some _ _ _ Hi) as Hl. rewrite <- (take_drop_middle es i x Hi) in Hs |- *.
  replace (pos pre i) with (off pre (take i es)) by (unfold off, pos; rewrite length_take; do 3 f_equal; lia).
  by apply elem_at.
Qed.

Lemma compare_at pre es post i j x y :
  sized es → es !! i = Some x → es !! j = Some y →
  compare width compar (block pre es post) (pos pre i) (pos pre j) = Some (compar x y).
Proof. intros Hs Hi Hj. unfold compare. by rewrite (read_at pre es post i x), (read_at pre es post j y). Qed.

Lemma off_pos pre A i : i = length A → pos pre i = off pre A.
Proof. by intros ->. Qed.

(** Equations between positions. *)

Ltac pos_eq := unfold pos; cbn [length]; rewrite ?length_app; cbn [length]; rewrite ?length_app; cbn [length]; lia.

Section Array.

Context (st : Z) (pre post : list Z) (Hk : kind st (Z.of_nat (length pre))).

Abbreviation base := (pos pre 0).
Abbreviation blk A := (block pre A post).

Lemma swap_at A x B y C i j :
  sized (A ++ x :: B ++ y :: C) → i = length A → j = S (length A + length B) →
  swap addr width st (blk (A ++ x :: B ++ y :: C)) (pos pre i) (pos pre j) = Some (blk (A ++ y :: B ++ x :: C)) ∧
  swap addr width st (blk (A ++ x :: B ++ y :: C)) (pos pre j) (pos pre i) = Some (blk (A ++ y :: B ++ x :: C)).
Proof.
  intros Hs Hi Hj. rewrite (off_pos pre A i), (off_pos pre (A ++ x :: B) j) by (rewrite ?length_app; simpl; lia).
  by apply (swap_ok addr w Hw st _ A x B y C pre post Hk eq_refl).
Qed.

Lemma swap_same A x C i :
  sized (A ++ x :: C) → i = length A → swap addr width st (blk (A ++ x :: C)) (pos pre i) (pos pre i) = Some (blk (A ++ x :: C)).
Proof. intros Hs Hi. rewrite (off_pos pre A i) by done. by apply (swap_self addr w Hw st _ A x C pre post Hk eq_refl). Qed.

(** ** Insertion sort *)

Lemma sorted_before A y x :
  consistent (A ++ [y; x]) → StronglySorted le (A ++ [y]) → le y x → StronglySorted le (A ++ [y; x]).
Proof.
  intros Hc HA Hyx. change [y; x] with ([y] ++ [x]). rewrite app_assoc. apply sorted_app. split; [done|].
  split; [by apply sorted_short|]. intros a b Ha ->%list_elem_of_singleton. apply sorted_app in HA as (_ & _ & HA).
  apply elem_of_app in Ha as [Ha| ->%list_elem_of_singleton]; [|done].
  apply (c_trans _ _ Hc a y x); [set_solver..|apply HA; set_solver|done].
Qed.

Lemma insert_inner_ok fuel A x B :
  sized (A ++ x :: B) → (length A < fuel)%nat →
  ∃ A', insert_inner addr width compar fuel st base (blk (A ++ x :: B)) (pos pre (length A)) = Some (blk (A' ++ B)) ∧
    A' ≡ₚ A ++ [x] ∧ (consistent (A ++ [x]) → StronglySorted le A → StronglySorted le A').
Proof.
  revert A B. induction fuel as [|fuel IH]; intros A B Hs Hf; [lia|]. cbn [insert_inner].
  destruct A as [|y A _] using rev_ind.
  { rewrite Z.ltb_irrefl. exists [x]. split; [done|]. split; [done|]. intros _ _. by apply sorted_short. }
  rewrite length_app in *. simpl in Hf. rewrite <- app_assoc in *. simpl app in *. simpl length.
  destruct (Z.ltb_spec base (pos pre (length A + 1))) as [|Hn]; [|unfold pos in Hn; nia].
  replace (pos pre (length A + 1) - width) with (pos pre (length A)) by pos_eq.
  rewrite (compare_at pre _ post _ _ y x); [|done|by rewrite list_lookup_middle|].
  2: { rewrite lookup_app_r by lia. by replace (length A + 1 - length A)%nat with 1%nat by lia. }
  cbn [mbind option_bind]. destruct (Z.ltb_spec 0 (compar y x)) as [Hc|Hc].
  - destruct (swap_at A y [] x B (length A) (length A + 1)%nat) as [_ Esw]; [done|done|simpl; lia|]. simpl in Esw. rewrite Esw. cbn [mbind option_bind].
    destruct (IH A (y :: B)) as (A' & E & Hp & Hsort); [|lia|].
    { eapply sized_perm; [|exact Hs]. f_equiv. apply perm_swap. }
    exists (A' ++ [y]). rewrite <- app_assoc. split; [exact E|]. split; [rewrite Hp, <- !app_assoc; f_equiv; apply perm_swap|].
    intros Hcs [HA [_ Hy]]%sorted_app. apply sorted_app. split; [|split; [by apply sorted_short|]].
    + apply Hsort; [|done]. eapply consistent_sub; [done|]. set_solver.
    + intros a b Ha ->%list_elem_of_singleton. rewrite Hp in Ha. apply elem_of_app in Ha as [Ha| ->%list_elem_of_singleton]; [apply Hy; set_solver|].
      unfold QsortSpec.le. pose proof (c_opp _ _ Hcs y x ltac:(set_solver) ltac:(set_solver)). lia.
  - exists (A ++ [y; x]). rewrite <- !app_assoc. split; [done|]. split; [done|]. intros Hcs HA. by apply sorted_before.
Qed.

Lemma insert_outer_ok fuel A B nel :
  sized (A ++ B) → nel = Z.of_nat (length (A ++ B)) → nel * width < 2 ^ 32 → (length B < fuel)%nat →
  ∃ es, insert_outer addr width compar fuel st base nel (blk (A ++ B)) (pos pre (length A)) = Some (blk es) ∧
    es ≡ₚ A ++ B ∧ (consistent (A ++ B) → StronglySorted le A → StronglySorted le es).
Proof.
  revert A B. induction fuel as [|fuel IH]; intros A B Hs Hn Hb Hf; [lia|]. cbn [insert_outer]. rewrite u32_small by nia.
  rewrite length_app in Hn. destruct B as [|x B]; simpl length in *.
  - destruct (Z.ltb_spec (pos pre (length A)) (base + nel * width)) as [Hl|]; [unfold pos in Hl; nia|].
    exists A. by rewrite app_nil_r.
  - destruct (Z.ltb_spec (pos pre (length A)) (base + nel * width)) as [|Hl]; [|unfold pos in Hl; nia].
    destruct (insert_inner_ok (S (Z.to_nat nel)) A x B Hs) as (A' & -> & Hp & Hsort); [lia|]. cbn [mbind option_bind].
    assert (Hl : length A' = S (length A)) by (rewrite Hp, length_app; simpl; lia).
    assert (Hpm : A' ++ B ≡ₚ A ++ x :: B) by (rewrite Hp, <- app_assoc; done).
    replace (pos pre (length A) + width) with (pos pre (length A')) by pos_eq.
    destruct (IH A' B) as (es & -> & Hp' & Hsort'); [by eapply sized_perm; [symmetry|]|rewrite length_app; lia|done|lia|].
    exists es. split; [done|]. split; [by rewrite Hp'|]. intros Hc HA. apply Hsort'.
    + eapply consistent_sub; [done|]. intros z. by rewrite Hpm.
    + apply Hsort; [|done]. eapply consistent_sub; [done|]. set_solver.
Qed.

Lemma insertion_ok es nel :
  sized es → nel = Z.of_nat (length es) → nel * width < 2 ^ 32 →
  ∃ es', insertion addr width compar st base nel (blk es) = Some (blk es') ∧ sorts es es'.
Proof.
  intros Hs Hn Hb. unfold insertion. destruct es as [|x es]; simpl length in Hn.
  - subst nel. cbn [insert_outer Z.to_nat length]. rewrite Z.mul_0_l. destruct (Z.ltb_spec (base + width) (base + u32 0)) as [Hl|]; [change (u32 0) with 0 in Hl; lia|].
    exists []. split; [done|]. split; [done|constructor].
  - replace (base + width) with (pos pre (length [x])) by pos_eq. change (x :: es) with ([x] ++ es).
    destruct (insert_outer_ok (S (Z.to_nat nel)) [x] es nel Hs) as (es' & -> & Hp & Hsort); [done|done|lia|].
    exists es'. split; [done|]. split; [done|]. intros Hc. apply Hsort; [done|by apply sorted_short].
Qed.

(** ** Partition *)

Definition same v : elem → Prop := λ x, compar x v = 0.
Definition below v : elem → Prop := λ x, compar x v < 0.
Definition above v : elem → Prop := λ x, 0 < compar x v.

(** The exchange of [x] with the first element of [L] moves it to the end of [E]. *)

Lemma rotate_up v E L x T :
  sized (v :: E ++ L ++ x :: T) →
  ∃ L', swap addr width st (blk (v :: E ++ L ++ x :: T)) (pos pre (length (v :: E))) (pos pre (length (v :: E ++ L))) =
    Some (blk (v :: (E ++ [x]) ++ L' ++ T)) ∧ L' ≡ₚ L.
Proof.
  intros Hs. destruct L as [|l L].
  - exists []. split; [|done]. rewrite app_nil_r, <- app_assoc. simpl app in *. by apply (swap_same (v :: E) x T).
  - exists (L ++ [l]). split; [|rewrite Permutation_app_comm; done].
    destruct (swap_at (v :: E) l L x T (length (v :: E)) (length (v :: E ++ l :: L))) as [Esw _]; [done|done|simpl; rewrite length_app; simpl; lia|].
    etrans; [exact Esw|]. do 2 f_equal. simpl. by rewrite <- !app_assoc.
Qed.

Lemma rotate_down P x G T i j :
  sized (P ++ x :: G ++ T) → i = length P → j = length (P ++ G) →
  ∃ G', swap addr width st (blk (P ++ x :: G ++ T)) (pos pre i) (pos pre j) = Some (blk (P ++ G' ++ x :: T)) ∧ G' ≡ₚ G.
Proof.
  intros Hs Hi Hj. destruct G as [|g G _] using rev_ind.
  - rewrite app_nil_r in Hj. subst j. exists []. split; [|done]. subst i. by apply swap_same.
  - exists (g :: G). split; [|by rewrite Permutation_app_comm]. rewrite <- app_assoc in *. rewrite !length_app in Hj. simpl in *.
    destruct (swap_at P x G g T i j) as [-> _]; [done|done|lia|]. done.
Qed.

Lemma scan_up_ok fuel v E L M R cnt pc :
  sized (v :: E ++ L ++ M ++ R) → Forall (same v) E → Forall (below v) L → (length M < fuel)%nat →
  pc = pos pre (length (v :: E ++ L ++ M)) - width →
  ∃ E' L' M' cnt',
    scan_up addr width compar fuel st base (blk (v :: E ++ L ++ M ++ R)) (pos pre (length (v :: E))) (pos pre (length (v :: E ++ L))) pc cnt =
      Some (blk (v :: E' ++ L' ++ M' ++ R), pos pre (length (v :: E')), pos pre (length (v :: E' ++ L')), cnt') ∧
    Forall (same v) E' ∧ Forall (below v) L' ∧ (length M' ≤ length M)%nat ∧ E' ++ L' ++ M' ≡ₚ E ++ L ++ M ∧
    (M' = [] ∨ ∃ x N, M' = x :: N ∧ above v x).
Proof.
  revert E L M cnt. induction fuel as [|fuel IH]; intros E L M cnt Hs HE HL Hf Hpc; [lia|]. cbn [scan_up].
  destruct M as [|x M].
  { destruct (Z.leb_spec (pos pre (length (v :: E ++ L))) pc) as [Hl|_]; [rewrite Hpc, app_nil_r in Hl; lia|].
    exists E, L, [], cnt. by split_and!; [..|left]. }
  change ((x :: M) ++ R) with (x :: M ++ R) in *. destruct (Z.leb_spec (pos pre (length (v :: E ++ L))) pc) as [_|Hl].
  2: { rewrite Hpc in Hl. unfold pos in Hl. simpl in Hl. rewrite !length_app in Hl. simpl in Hl. nia. }
  rewrite (compare_at pre _ post _ 0 x v); [|done| |done].
  2: { simpl length. simpl. rewrite length_app, app_assoc, lookup_app_r by (rewrite length_app; lia). by rewrite length_app, Nat.sub_diag. }
  cbn [mbind option_bind]. destruct (Z.leb_spec (compar x v) 0) as [Hc|Hc].
  2: { exists E, L, (x :: M), cnt. split_and!; try done. right. by exists x, M. }
  destruct (Z.eqb_spec (compar x v) 0) as [H0|H0].
  - destruct (rotate_up v E L x (M ++ R) Hs) as (L1 & -> & HL1). cbn [mbind option_bind].
    assert (length L1 = length L) by (by rewrite HL1).
    replace (pos pre (length (v :: E)) + width) with (pos pre (length (v :: E ++ [x]))) by pos_eq.
    replace (pos pre (length (v :: E ++ L)) + width) with (pos pre (length (v :: (E ++ [x]) ++ L1))) by pos_eq.
    destruct (IH (E ++ [x]) L1 M 1) as (E' & L' & M' & cnt' & Eq & HE' & HL' & Hm & Hp & Hx).
    + eapply sized_perm; [|exact Hs]. rewrite HL1, <- app_assoc. simpl. do 2 f_equiv. by rewrite <- Permutation_middle.
    + apply Forall_app. by split; [|constructor].
    + by rewrite HL1.
    + simpl in *. lia.
    + rewrite Hpc. pos_eq.
    + exists E', L', M', cnt'. split_and!; try done; [simpl; lia|]. rewrite Hp, HL1, <- app_assoc. simpl. f_equiv. by rewrite <- Permutation_middle.
  - replace (pos pre (length (v :: E ++ L)) + width) with (pos pre (length (v :: E ++ L ++ [x]))) by pos_eq.
    destruct (IH E (L ++ [x]) M cnt) as (E' & L' & M' & cnt' & Eq & HE' & HL' & Hm & Hp & Hx).
    + by rewrite <- app_assoc.
    + done.
    + apply Forall_app. split; [done|]. constructor; [unfold below; lia|done].
    + simpl in *. lia.
    + rewrite Hpc. pos_eq.
    + rewrite <- !app_assoc in *. exists E', L', M', cnt'. split_and!; try done. simpl. lia.
Qed.

Lemma scan_down_ok fuel v P M G R cnt :
  sized ((v :: P) ++ M ++ G ++ R) → Forall (above v) G → Forall (same v) R → (length M < fuel)%nat →
  ∃ M' G' R' cnt',
    scan_down addr width compar fuel st base (blk ((v :: P) ++ M ++ G ++ R)) (pos pre (length (v :: P)))
      (pos pre (length ((v :: P) ++ M)) - width) (pos pre (length ((v :: P) ++ M ++ G)) - width) cnt =
      Some (blk ((v :: P) ++ M' ++ G' ++ R'), pos pre (length ((v :: P) ++ M')) - width, pos pre (length ((v :: P) ++ M' ++ G')) - width, cnt') ∧
    Forall (above v) G' ∧ Forall (same v) R' ∧ (∃ N, M = M' ++ N) ∧ M' ++ G' ++ R' ≡ₚ M ++ G ++ R ∧
    (M' = [] ∨ ∃ x N, M' = N ++ [x] ∧ below v x).
Proof.
  revert M G R cnt. induction fuel as [|fuel IH]; intros M G R cnt Hs HG HR Hf; [lia|]. cbn [scan_down].
  destruct M as [|x M _] using rev_ind.
  { destruct (Z.leb_spec (pos pre (length (v :: P))) (pos pre (length ((v :: P) ++ [])) - width)) as [Hl|_]; [rewrite app_nil_r in Hl; lia|].
    exists [], G, R, cnt. split_and!; try done; [by exists []|by left]. }
  rewrite length_app in Hf. simpl in Hf. rewrite <- !app_assoc in *. change ([x] ++ G ++ R) with (x :: G ++ R) in *.
  replace (pos pre (length ((v :: P) ++ M ++ [x])) - width) with (pos pre (length ((v :: P) ++ M))) by pos_eq.
  destruct (Z.leb_spec (pos pre (length (v :: P))) (pos pre (length ((v :: P) ++ M)))) as [_|Hl].
  2: { unfold pos in Hl. rewrite length_app in Hl. nia. }
  rewrite (compare_at pre _ post _ 0 x v); [|done| |done].
  2: { by rewrite app_assoc, list_lookup_middle. }
  cbn [mbind option_bind]. destruct (Z.leb_spec 0 (compar x v)) as [Hc|Hc].
  2: { exists (M ++ [x]), G, R, cnt. split_and!; try done; [|by exists []; rewrite app_nil_r|by rewrite <- app_assoc|right; by exists x, M].
       rewrite <- !app_assoc. do 4 f_equal. pos_eq. }
  destruct (Z.eqb_spec (compar x v) 0) as [H0|H0].
  - replace (pos pre (length ((v :: P) ++ M ++ [x] ++ G)) - width) with (pos pre (length (((v :: P) ++ M) ++ G))) by pos_eq.
    rewrite (app_assoc (v :: P) M) in Hs |- *.
    destruct (rotate_down ((v :: P) ++ M) x G R _ _ Hs eq_refl eq_refl) as (G1 & -> & HG1). cbn [mbind option_bind]. rewrite <- !app_assoc.
    replace (pos pre (length ((v :: P) ++ M ++ G)) - width) with (pos pre (length ((v :: P) ++ M ++ G1)) - width) by (rewrite !length_app; by rewrite HG1).
    destruct (IH M G1 (x :: R) 1) as (M' & G' & R' & cnt' & Eq & HG' & HR' & (N & HN) & Hp & Hx).
    + eapply sized_perm; [|exact Hs]. rewrite HG1, <- app_assoc. do 2 f_equiv. by rewrite <- Permutation_middle.
    + by rewrite HG1.
    + by constructor.
    + lia.
    + exists M', G', R', cnt'. split_and!; try done; [exists (N ++ [x]); by rewrite HN, <- app_assoc|].
      rewrite Hp, HG1. f_equiv. by rewrite <- Permutation_middle.
  - destruct (IH M (x :: G) R cnt) as (M' & G' & R' & cnt' & Eq & HG' & HR' & (N & HN) & Hp & Hx).
    + done.
    + constructor; [unfold above; lia|done].
    + done.
    + lia.
    + exists M', G', R', cnt'. split_and!; try done. exists (N ++ [x]). by rewrite HN, <- app_assoc.
Qed.

(** What the two scans leave is empty or begins with an element above the pivot and ends
    with one below it. *)

Lemma crossing v M1 M2 N :
  M1 = M2 ++ N → (M1 = [] ∨ ∃ x N, M1 = x :: N ∧ above v x) → (M2 = [] ∨ ∃ y N, M2 = N ++ [y] ∧ below v y) →
  M2 = [] ∨ ∃ x B y, M2 = x :: B ++ [y] ∧ above v x ∧ below v y.
Proof.
  intros -> H1 [->|(y & B & -> & Hy)]; [by left|right].
  destruct H1 as [E|(x & N' & E & Hx)]; [by destruct B|]. destruct B as [|x' B]; simpl in E; injection E as <- <-.
  - unfold above, below in *. lia.
  - by exists x', B, y.
Qed.

Lemma partition_swap P x B y G R :
  sized (P ++ (x :: B ++ [y]) ++ G ++ R) →
  swap addr width st (blk (P ++ (x :: B ++ [y]) ++ G ++ R)) (pos pre (length P)) (pos pre (length (P ++ x :: B ++ [y])) - width) =
  Some (blk ((P ++ [y]) ++ B ++ (x :: G) ++ R)).
Proof.
  intros Hs. replace (P ++ (x :: B ++ [y]) ++ G ++ R) with (P ++ x :: B ++ y :: G ++ R) in * by (simpl; by rewrite <- app_assoc).
  replace (pos pre (length (P ++ x :: B ++ [y])) - width) with (pos pre (S (length P + length B))) by pos_eq.
  destruct (swap_at P x B y (G ++ R) _ _ Hs eq_refl eq_refl) as [-> _]. by rewrite <- app_assoc.
Qed.

Lemma partition_ok fuel v E L M G R cnt nel :
  sized (v :: E ++ L ++ M ++ G ++ R) → Forall (same v) E → Forall (below v) L → Forall (above v) G → Forall (same v) R →
  (length M < fuel)%nat → Z.of_nat (length M) ≤ nel →
  ∃ E' L' G' R' cnt',
    partition addr width compar fuel st base nel (blk (v :: E ++ L ++ M ++ G ++ R)) (pos pre (length (v :: E))) (pos pre (length (v :: E ++ L)))
      (pos pre (length (v :: E ++ L ++ M)) - width) (pos pre (length (v :: E ++ L ++ M ++ G)) - width) cnt =
      Some (blk (v :: E' ++ L' ++ G' ++ R'), pos pre (length (v :: E')), pos pre (length (v :: E' ++ L')),
        pos pre (length (v :: E' ++ L')) - width, pos pre (length (v :: E' ++ L' ++ G')) - width, cnt') ∧
    Forall (same v) E' ∧ Forall (below v) L' ∧ Forall (above v) G' ∧ Forall (same v) R' ∧ E' ++ L' ++ G' ++ R' ≡ₚ E ++ L ++ M ++ G ++ R.
Proof.
  revert E L M G R cnt. induction fuel as [|fuel IH]; intros E L M G R cnt Hs HE HL HG HR Hf Hn; [lia|]. cbn [partition].
  destruct (scan_up_ok (S (Z.to_nat nel)) v E L M (G ++ R) cnt (pos pre (length (v :: E ++ L ++ M)) - width))
    as (E1 & L1 & M1 & cnt1 & -> & HE1 & HL1 & Hm1 & Hp1 & Hx1); [done..|lia|done|]. cbn [mbind option_bind].
  assert (HpA : E1 ++ L1 ++ M1 ++ G ++ R ≡ₚ E ++ L ++ M ++ G ++ R) by (rewrite !app_assoc in *; by rewrite Hp1).
  assert (Hlen : length (E1 ++ L1 ++ M1) = length (E ++ L ++ M)) by (by rewrite Hp1).
  replace (pos pre (length (v :: E ++ L ++ M)) - width) with (pos pre (length ((v :: E1 ++ L1) ++ M1)) - width).
  2: { rewrite !length_app in Hlen. pos_eq. }
  replace (pos pre (length (v :: E ++ L ++ M ++ G)) - width) with (pos pre (length ((v :: E1 ++ L1) ++ M1 ++ G)) - width).
  2: { rewrite !length_app in Hlen. pos_eq. }
  replace (v :: E1 ++ L1 ++ M1 ++ G ++ R) with ((v :: E1 ++ L1) ++ M1 ++ G ++ R) by (simpl; by rewrite <- !app_assoc).
  destruct (scan_down_ok (S (Z.to_nat nel)) v (E1 ++ L1) M1 G R cnt1)
    as (M2 & G2 & R2 & cnt2 & -> & HG2 & HR2 & (N & HN) & Hp2 & Hx2); [|done|done|lia|]. 
  { eapply sized_perm; [|exact Hs]. simpl. rewrite <- !app_assoc. by rewrite HpA. }
  cbn [mbind option_bind]. assert (HpB : E1 ++ L1 ++ M2 ++ G2 ++ R2 ≡ₚ E ++ L ++ M ++ G ++ R) by (by rewrite Hp2).
  destruct (crossing v M1 M2 N HN Hx1 Hx2) as [->|(x & B & y & -> & Hx & Hy)].
  { destruct (Z.ltb_spec (pos pre (length ((v :: E1 ++ L1) ++ [])) - width) (pos pre (length (v :: E1 ++ L1)))) as [_|Hl].
    - exists E1, L1, G2, R2, cnt2. split_and!; try done. simpl. by rewrite app_nil_r, <- !app_assoc.
    - rewrite app_nil_r in Hl. lia. }
  rewrite HN, length_app in Hm1. simpl in Hm1. rewrite length_app in Hm1. simpl in Hm1.
  destruct (Z.ltb_spec (pos pre (length ((v :: E1 ++ L1) ++ x :: B ++ [y])) - width) (pos pre (length (v :: E1 ++ L1)))) as [Hl|_].
  { unfold pos in Hl. rewrite length_app in Hl. simpl in Hl. rewrite length_app in Hl. simpl in Hl. nia. }
  rewrite partition_swap by (eapply sized_perm; [|exact Hs]; rewrite <- HpB; simpl; by rewrite <- !app_assoc). cbn [mbind option_bind].
  replace (((v :: E1 ++ L1) ++ [y]) ++ B ++ (x :: G2) ++ R2) with (v :: E1 ++ (L1 ++ [y]) ++ B ++ (x :: G2) ++ R2) by (simpl; by rewrite <- !app_assoc).
  replace (pos pre (length (v :: E1 ++ L1)) + width) with (pos pre (length (v :: E1 ++ L1 ++ [y]))) by pos_eq.
  replace (pos pre (length ((v :: E1 ++ L1) ++ x :: B ++ [y])) - width - width) with (pos pre (length (v :: E1 ++ (L1 ++ [y]) ++ B)) - width) by pos_eq.
  replace (pos pre (length ((v :: E1 ++ L1) ++ (x :: B ++ [y]) ++ G2)) - width)
    with (pos pre (length (v :: E1 ++ (L1 ++ [y]) ++ B ++ x :: G2)) - width) by pos_eq.
  assert (HpC : E1 ++ (L1 ++ [y]) ++ B ++ (x :: G2) ++ R2 ≡ₚ E ++ L ++ M ++ G ++ R).
  { rewrite <- HpB. rewrite <- !app_assoc. simpl. solve_Permutation. }
  destruct (IH E1 (L1 ++ [y]) B (x :: G2) R2 1) as (E' & L' & G' & R' & cnt' & Eq & H1 & H2 & H3 & H4 & Hp).
  - eapply sized_perm; [|exact Hs]. by rewrite HpC.
  - done.
  - apply Forall_app. by split; [|constructor].
  - by constructor.
  - done.
  - lia.
  - lia.
  - exists E', L', G', R', cnt'. split_and!; try done. by rewrite Hp.
Qed.

Lemma partition_start v M nel :
  sized (v :: M) → nel = Z.of_nat (S (length M)) → nel * width < 2 ^ 31 →
  ∃ E L G R cnt,
    partition addr width compar (S (Z.to_nat nel)) st base nel (blk (v :: M)) (base + width) (base + width)
      (base + u32 ((nel - 1) * width)) (base + u32 ((nel - 1) * width)) 0 =
      Some (blk (v :: E ++ L ++ G ++ R), pos pre (length (v :: E)), pos pre (length (v :: E ++ L)),
        pos pre (length (v :: E ++ L)) - width, pos pre (length (v :: E ++ L ++ G)) - width, cnt) ∧
    Forall (same v) E ∧ Forall (below v) L ∧ Forall (above v) G ∧ Forall (same v) R ∧ E ++ L ++ G ++ R ≡ₚ M.
Proof.
  intros Hs Hn Hb. destruct (partition_ok (S (Z.to_nat nel)) v [] [] M [] [] 0 nel) as (E & L & G & R & cnt & Ep & H);
    [by rewrite !app_nil_r|done..|lia|lia|]. simpl app in *. rewrite !app_nil_r in *. exists E, L, G, R, cnt. split; [|exact H].
  rewrite u32_small by nia. replace (base + width) with (pos pre (length [v])) by pos_eq.
  by replace (base + (nel - 1) * width) with (pos pre (length (v :: M)) - width) by (rewrite Hn; pos_eq).
Qed.

(** ** The middle *)

Lemma med3_ok es i j k :
  sized es → (i < length es)%nat → (j < length es)%nat → (k < length es)%nat →
  ∃ r, med3 width compar (blk es) (pos pre i) (pos pre j) (pos pre k) = Some (pos pre r) ∧ (r < length es)%nat.
Proof.
  intros Hs Hi Hj Hk'. apply lookup_lt_is_Some in Hi as Hi', Hj as Hj', Hk' as Hk''. destruct Hi' as [x Ex], Hj' as [y Ey], Hk'' as [z Ez].
  unfold med3. rewrite (compare_at pre es post i j x y), (compare_at pre es post j k y z) by done. cbn [mbind option_bind].
  rewrite (compare_at pre es post i k x z) by done. cbn [mbind option_bind]. repeat case_if; eauto.
Qed.

Lemma pivot_ok es nel :
  sized es → nel = Z.of_nat (length es) → 7 ≤ nel → nel * width < 2 ^ 31 →
  ∃ i, pivot width compar base nel (blk es) = Some (pos pre i) ∧ (i < length es)%nat.
Proof.
  intros Hs -> H7 Hb. unfold pivot. set (n := length es) in *. rewrite !Z.quot_div_nonneg by lia.
  assert (Hd : ∀ k, 0 ≤ k ≤ Z.of_nat n → u32 (k * width) = Z.of_nat (Z.to_nat k) * width) by (intros; rewrite u32_small; nia).
  rewrite (Hd (Z.of_nat n / 2)), (Hd (Z.of_nat n - 1)) by dlia.
  replace (base + Z.of_nat (Z.to_nat (Z.of_nat n / 2)) * width) with (pos pre (Z.to_nat (Z.of_nat n / 2))) by pos_eq.
  destruct (Z.ltb_spec 7 (Z.of_nat n)); [|exists (Z.to_nat (Z.of_nat n / 2)); split; [done|dlia]].
  replace (base + Z.of_nat (Z.to_nat (Z.of_nat n - 1)) * width) with (pos pre (n - 1)) by pos_eq.
  destruct (Z.ltb_spec 40 (Z.of_nat n)); [|apply med3_ok; [done|lia|dlia|lia]].
  rewrite (Hd (Z.of_nat n / 8)) by dlia. set (q := Z.to_nat (Z.of_nat n / 8)). set (h := Z.to_nat (Z.of_nat n / 2)).
  assert (8 * q ≤ n < 8 * q + 8 ∧ 2 * h ≤ n < 2 * h + 2)%nat as [? ?] by (unfold q, h; split; dlia). rewrite s32_small by nia.
  replace (base + Z.of_nat q * width) with (pos pre q) by pos_eq. replace (base + 2 * (Z.of_nat q * width)) with (pos pre (2 * q)) by pos_eq.
  replace (pos pre h - Z.of_nat q * width) with (pos pre (h - q)) by (unfold pos; nia).
  replace (pos pre h + Z.of_nat q * width) with (pos pre (h + q)) by pos_eq.
  replace (pos pre (n - 1) - 2 * (Z.of_nat q * width)) with (pos pre (n - 1 - 2 * q)) by (unfold pos; nia).
  replace (pos pre (n - 1) - Z.of_nat q * width) with (pos pre (n - 1 - q)) by (unfold pos; nia).
  destruct (med3_ok es 0 q (2 * q)) as (i1 & -> & ?); [done|lia..|].
  destruct (med3_ok es (h - q) h (h + q)) as (i2 & -> & ?); [done|lia..|].
  destruct (med3_ok es (n - 1 - 2 * q) (n - 1 - q) (n - 1)) as (i3 & -> & ?); [done|lia..|].
  cbn [mbind option_bind]. by apply med3_ok.
Qed.

(** ** Gathering the elements that equal the pivot *)

Lemma gather P Q L T a b r :
  sized (P ++ Q ++ L ++ T) → a = pos pre (length P) → b = pos pre (length (P ++ Q ++ L)) - r →
  r = Z.of_nat (Nat.min (length Q) (length L)) * width →
  ∃ L' Q', vecswap addr st (blk (P ++ Q ++ L ++ T)) a b r = Some (blk (P ++ L' ++ Q' ++ T)) ∧ L' ≡ₚ L ∧ Q' ≡ₚ Q.
Proof.
  intros Hs -> -> ->. destruct (decide (length Q ≤ length L)%nat) as [Hl|Hl].
  - rewrite Nat.min_l by done. set (k := (length L - length Q)%nat).
    assert (EL : L = take k L ++ drop k L) by (by rewrite take_drop). set (La := take k L) in *. set (Lb := drop k L) in *.
    assert (HLb : length Lb = length Q) by (unfold Lb; rewrite length_drop; lia).
    exists (Lb ++ La), Q. split; [|split; [rewrite EL at 1; apply Permutation_app_comm|done]]. rewrite EL in Hs |- *. rewrite <- !app_assoc in *.
    rewrite <- (vecswap_ok addr w Hw st _ P Q La Lb T pre post Hk eq_refl Hs (eq_sym HLb)). f_equal. unfold off. pos_eq.
  - rewrite Nat.min_r by lia. set (k := length L).
    assert (EQ : Q = take k Q ++ drop k Q) by (by rewrite take_drop). set (Qa := take k Q) in *. set (Qb := drop k Q) in *.
    assert (HQa : length Qa = length L) by (unfold Qa; rewrite length_take; lia).
    exists L, (Qb ++ Qa). split; [|split; [done|rewrite EQ at 1; apply Permutation_app_comm]]. rewrite EQ in Hs |- *. rewrite <- !app_assoc in *.
    rewrite <- (vecswap_ok addr w Hw st _ P Qa Qb L T pre post Hk eq_refl Hs HQa). f_equal; [unfold off; pos_eq|lia].
Qed.

Lemma gather_ok v E L G R pn :
  sized (v :: E ++ L ++ G ++ R) → Z.of_nat (length (v :: E ++ L ++ G ++ R)) * width < 2 ^ 31 → pn = pos pre (length (v :: E ++ L ++ G ++ R)) →
  ∃ L' Q R' G',
    gather_equals addr width st base pn (blk (v :: E ++ L ++ G ++ R)) (pos pre (length (v :: E))) (pos pre (length (v :: E ++ L)))
      (pos pre (length (v :: E ++ L)) - width) (pos pre (length (v :: E ++ L ++ G)) - width) = Some (blk (L' ++ Q ++ R' ++ G')) ∧
    L' ≡ₚ L ∧ Q ≡ₚ v :: E ∧ R' ≡ₚ R ∧ G' ≡ₚ G.
Proof.
  intros Hs Hb ->. unfold gather_equals. cbn [length] in Hb. rewrite !length_app in Hb.
  assert (E1 : pos pre (length (v :: E)) - base = Z.of_nat (length (v :: E)) * width) by pos_eq.
  assert (E2 : pos pre (length (v :: E ++ L)) - pos pre (length (v :: E)) = Z.of_nat (length L) * width) by pos_eq.
  assert (E3 : pos pre (length (v :: E ++ L ++ G)) - width - (pos pre (length (v :: E ++ L)) - width) = Z.of_nat (length G) * width) by pos_eq.
  assert (E4 : pos pre (length (v :: E ++ L ++ G ++ R)) - (pos pre (length (v :: E ++ L ++ G)) - width) - width = Z.of_nat (length R) * width) by pos_eq.
  rewrite E1, E2, E3, E4. rewrite (u32_small (Z.of_nat (length G) * width)), (u32_small (Z.of_nat (length R) * width)) by (cbn [length]; nia).
  assert (Hmin : ∀ a b : nat, Z.of_nat a * width < 2 ^ 31 → Z.of_nat b * width < 2 ^ 31 →
    s32 (if Z.of_nat a * width <? Z.of_nat b * width then Z.of_nat a * width else Z.of_nat b * width) = Z.of_nat (Nat.min a b) * width).
  { intros a b Ha Hb'. rewrite s32_small by (case_if; nia). case_if; [rewrite Nat.min_l by nia|rewrite Nat.min_r by nia]; done. }
  rewrite !Hmin by (cbn [length]; nia).
  destruct (gather [] (v :: E) L (G ++ R) base (pos pre (length (v :: E ++ L)) - Z.of_nat (Nat.min (length (v :: E)) (length L)) * width)
    (Z.of_nat (Nat.min (length (v :: E)) (length L)) * width)) as (L' & Q & Ev & HL & HQ); [exact Hs|done|done|done|]. simpl app in Ev. rewrite Ev. cbn [mbind option_bind].
  assert (Hl : length (L' ++ Q) = length (v :: E ++ L)) by (rewrite HL, HQ, Permutation_app_comm; done).
  destruct (gather (L' ++ Q) G R [] (pos pre (length (v :: E ++ L))) (pos pre (length (v :: E ++ L ++ G ++ R)) - Z.of_nat (Nat.min (length G) (length R)) * width)
    (Z.of_nat (Nat.min (length G) (length R)) * width)) as (R' & G' & Ev' & HR & HG).
  - rewrite app_nil_r. eapply sized_perm; [|exact Hs]. rewrite HL, HQ. solve_Permutation.
  - by rewrite Hl.
  - f_equal. unfold pos. rewrite (length_app (L' ++ Q)), Hl. cbn [length]. rewrite !length_app. lia.
  - done.
  - exists L', Q, R', G'. split; [|done]. rewrite !app_nil_r, <- !app_assoc in Ev'. exact Ev'.
Qed.

Lemma to_front es i :
  sized es → (i < length es)%nat →
  ∃ v rest, swap addr width st (blk es) base (pos pre i) = Some (blk (v :: rest)) ∧ v :: rest ≡ₚ es.
Proof.
  intros Hs Hi. destruct es as [|x es]; [simpl in Hi; lia|]. destruct i as [|i].
  - exists x, es. split; [|done]. by apply (swap_same []).
  - destruct (lookup_lt_is_Some_2 es i) as [y Hy]; [simpl in Hi; lia|]. pose proof (lookup_lt_Some _ _ _ Hy).
    rewrite <- (take_drop_middle es i y Hy) in Hs |- *. exists y, (take i es ++ x :: drop (S i) es).
    destruct (swap_at [] x (take i es) y (drop (S i) es) 0 (S i) Hs) as [E _]; [done|simpl; rewrite length_take; lia|].
    split; [exact E|]. rewrite <- !Permutation_middle. apply perm_swap.
Qed.

End Array.

(** ** The sort *)

Lemma sorted_parts v E L G R L' Q R' G' :
  consistent (v :: E ++ L ++ G ++ R) → Forall (same v) E → Forall (below v) L → Forall (above v) G → Forall (same v) R →
  L' ≡ₚ L → Q ≡ₚ v :: E → R' ≡ₚ R → G' ≡ₚ G → StronglySorted le L' → StronglySorted le G' → StronglySorted le (L' ++ Q ++ R' ++ G').
Proof.
  intros Hc HE HL HG HR PL PQ PR PG SL SG.
  assert (Hv : compar v v = 0) by (pose proof (c_opp _ _ Hc v v ltac:(set_solver) ltac:(set_solver)); lia).
  assert (Hq : ∀ x, x ∈ Q ++ R' → x ∈ v :: E ++ L ++ G ++ R ∧ le x v ∧ le v x).
  { intros x Hx. rewrite PQ, PR in Hx. assert (Hin : x ∈ v :: E ++ L ++ G ++ R) by set_solver. split; [done|].
    assert (Hs : compar x v = 0).
    { apply elem_of_app in Hx as [[->|Hx]%elem_of_cons|Hx]; [done|by eapply Forall_forall in HE|by eapply Forall_forall in HR]. }
    unfold QsortSpec.le. pose proof (c_opp _ _ Hc x v Hin ltac:(set_solver)). pose proof (c_opp _ _ Hc v x ltac:(set_solver) Hin). lia. }
  assert (Hl : ∀ x, x ∈ L' → x ∈ v :: E ++ L ++ G ++ R ∧ le x v).
  { intros x Hx. rewrite PL in Hx. split; [set_solver|]. eapply Forall_forall in HL; [|done]. unfold below, QsortSpec.le in *. lia. }
  assert (Hg : ∀ x, x ∈ G' → x ∈ v :: E ++ L ++ G ++ R ∧ le v x).
  { intros x Hx. rewrite PG in Hx. assert (Hin : x ∈ v :: E ++ L ++ G ++ R) by set_solver. split; [done|].
    eapply Forall_forall in HG; [|done]. pose proof (c_opp _ _ Hc x v Hin ltac:(set_solver)). unfold above, QsortSpec.le in *. lia. }
  assert (Ht : ∀ x y, (x ∈ v :: E ++ L ++ G ++ R ∧ le x v) → (y ∈ v :: E ++ L ++ G ++ R ∧ le v y) → le x y).
  { intros x y [] []. apply (c_trans _ _ Hc x v y); [done|set_solver|done..]. }
  rewrite (app_assoc Q). apply sorted_app. split; [done|]. split; [apply sorted_app; split; [|split; [done|]]|].
  - clear - Hq Ht. induction (Q ++ R') as [|x l IH]; constructor; [apply IH; intros; apply Hq; set_solver|].
    apply Forall_forall. intros y Hy. apply Ht; [|]; [destruct (Hq x) as (? & ? & ?)|destruct (Hq y) as (? & ? & ?)]; set_solver.
  - intros x y Hx Hy. apply Ht; [destruct (Hq x) as (? & ? & ?)|]; auto.
  - intros x y Hx [Hy|Hy]%elem_of_app; apply Ht; auto. by destruct (Hq y) as (? & ? & ?).
Qed.

(** One of the two recursive calls, which is left out for at most one element. *)

Lemma part_ok fuel pre A post r :
  (∀ pre es post, sized es → (length es < fuel)%nat → Z.of_nat (length es) * width < 2 ^ 31 →
    ∃ es', qsort_loop addr width compar fuel (Z.of_nat (length pre)) (Z.of_nat (length es)) (block pre es post) = Some (block pre es' post) ∧ sorts es es') →
  sized A → (length A < fuel)%nat → Z.of_nat (length A) * width < 2 ^ 31 → r = Z.of_nat (length A) * width →
  ∃ A', (if width <? u32 (s32 r) then qsort_loop addr width compar fuel (Z.of_nat (length pre)) (Z.quot (u32 (s32 r)) width) (block pre A post)
         else Some (block pre A post)) = Some (block pre A' post) ∧ sorts A A'.
Proof.
  intros IH Hs Hf Hb ->. fits. destruct (Z.ltb_spec width (Z.of_nat (length A) * width)).
  - rewrite Z.quot_mul by lia. by apply IH.
  - exists A. split; [done|]. split; [done|]. intros _. apply sorted_short. nia.
Qed.

Lemma block_tail pre A B post : block pre (A ++ B) post = block pre A (concat B ++ post).
Proof. unfold block. by rewrite concat_app, <- app_assoc. Qed.

Lemma block_head pre A B post : block pre (A ++ B) post = block (pre ++ concat A) B post.
Proof. apply block_split. Qed.

Lemma halves_ok fuel pre L X G post pn r1 r2 :
  (∀ pre es post, sized es → (length es < fuel)%nat → Z.of_nat (length es) * width < 2 ^ 31 →
    ∃ es', qsort_loop addr width compar fuel (Z.of_nat (length pre)) (Z.of_nat (length es)) (block pre es post) = Some (block pre es' post) ∧ sorts es es') →
  sized (L ++ X ++ G) → (length L < fuel)%nat → (length G < fuel)%nat → Z.of_nat (length (L ++ X ++ G)) * width < 2 ^ 31 →
  pn = pos pre (length (L ++ X ++ G)) → r1 = Z.of_nat (length L) * width → r2 = Z.of_nat (length G) * width →
  ∃ L' G', (m ← (if width <? u32 (s32 r1) then qsort_loop addr width compar fuel (pos pre 0) (Z.quot (u32 (s32 r1)) width) (block pre (L ++ X ++ G) post)
                 else Some (block pre (L ++ X ++ G) post));
            if width <? u32 (s32 r2) then qsort_loop addr width compar fuel (pn - s32 r2) (Z.quot (u32 (s32 r2)) width) m else Some m) =
    Some (block pre (L' ++ X ++ G') post) ∧ sorts L L' ∧ sorts G G'.
Proof.
  intros IH Hs HL HG Hb Hpn Hr1 Hr2. rewrite !length_app in *. apply sized_app in Hs as [HsL [HsX HsG]%sized_app].
  destruct (part_ok fuel pre L (concat (X ++ G) ++ post) r1 IH HsL) as (L' & EL & PL & SL); [lia|nia|done|].
  replace (pos pre 0) with (Z.of_nat (length pre)) by pos_eq. rewrite block_tail, EL. cbn [mbind option_bind].
  assert (HsL' : sized L') by by rewrite PL.
  destruct (part_ok fuel (pre ++ concat (L' ++ X)) G post r2 IH HsG) as (G' & EG & PG & SG); [lia|nia|done|].
  replace (pn - s32 r2) with (Z.of_nat (length (pre ++ concat (L' ++ X)))).
  2: { rewrite s32_small by nia. rewrite Hpn, Hr2, length_app, (concat_length w Hw) by (by apply sized_app). unfold pos. rewrite length_app, PL. lia. }
  rewrite <- block_tail, app_assoc, block_head, EG. exists L', G'. split; [|done]. by rewrite <- block_head, <- app_assoc.
Qed.

Lemma qsort_loop_ok fuel pre es post :
  sized es → (length es < fuel)%nat → Z.of_nat (length es) * width < 2 ^ 31 →
  ∃ es', qsort_loop addr width compar fuel (Z.of_nat (length pre)) (Z.of_nat (length es)) (block pre es post) = Some (block pre es' post) ∧ sorts es es'.
Proof.
  revert pre es post. induction fuel as [|fuel IH]; intros pre es post Hs Hf Hb; [lia|]. cbn [qsort_loop].
  pose proof (kind_init addr w Hw (Z.of_nat (length pre))) as Hk. set (st := SWAPINIT addr width (Z.of_nat (length pre))) in *.
  replace (Z.of_nat (length pre)) with (pos pre 0) by pos_eq. destruct (Z.ltb_spec (Z.of_nat (length es)) 7); [apply insertion_ok; done || lia|].
  destruct (pivot_ok pre post es (Z.of_nat (length es))) as (i & -> & Hi); [done..|]. cbn [mbind option_bind].
  destruct (to_front st pre post Hk es i Hs Hi) as (v & M & -> & HM). cbn [mbind option_bind].
  assert (Hl : length es = S (length M)) by (by rewrite <- HM).
  destruct (partition_start st pre post Hk v M (Z.of_nat (length es))) as (E & L & G & R & cnt & -> & HE & HL & HG & HR & Hp);
    [by rewrite HM|lia|done|]. cbn [mbind option_bind].
  assert (Hes : v :: E ++ L ++ G ++ R ≡ₚ es) by (by rewrite Hp).
  destruct (Z.eqb_spec cnt 0) as [_|_].
  { destruct (insertion_ok st pre post Hk (v :: E ++ L ++ G ++ R) (Z.of_nat (length es))) as (es' & E' & Hp' & Hsort);
      [by rewrite Hes|by rewrite Hes|lia|]. exists es'. split; [exact E'|]. split; [by rewrite Hp'|].
    intros Hc. apply Hsort. eapply consistent_sub; [done|]. intros x. by rewrite Hes. }
  rewrite (u32_small (Z.of_nat (length es) * width)) by nia.
  destruct (gather_ok st pre post Hk v E L G R (pos pre 0 + Z.of_nat (length es) * width)) as (L' & Q & R' & G' & -> & PL & PQ & PR & PG);
    [by rewrite Hes|by rewrite Hes|rewrite Hes; pos_eq|]. cbn [mbind option_bind].
  assert (Hlen : (length E + length L + length G + length R = length M)%nat) by (apply Permutation_length in Hp; rewrite !length_app in Hp; lia).
  assert (Hs' : sized (L' ++ Q ++ R' ++ G')) by (rewrite PL, PQ, PR, PG; eapply sized_perm; [|exact Hs]; rewrite <- Hes; solve_Permutation).
  rewrite (app_assoc Q) in *. assert (Hlen' : length (L' ++ (Q ++ R') ++ G') = length es) by (rewrite !length_app, PL, PQ, PR, PG; simpl; lia).
  destruct (halves_ok fuel pre L' (Q ++ R') G' post (pos pre 0 + Z.of_nat (length es) * width)
    (pos pre (length (v :: E ++ L)) - pos pre (length (v :: E)))
    (pos pre (length (v :: E ++ L ++ G)) - width - (pos pre (length (v :: E ++ L)) - width)) IH Hs')
    as (L2 & G2 & Eq & [PL2 SL2] & [PG2 SG2]); [rewrite PL; lia|rewrite PG; lia|by rewrite Hlen'|rewrite Hlen'; pos_eq|rewrite PL; pos_eq|rewrite PG; pos_eq|].
  exists (L2 ++ (Q ++ R') ++ G2). split; [exact Eq|]. split.
  - rewrite PL2, PG2, PL, PG, PQ, PR, <- Hes. solve_Permutation.
  - intros Hc. assert (Hc' : consistent (v :: E ++ L ++ G ++ R)) by (eapply consistent_sub; [done|]; intros x; by rewrite Hes).
    rewrite <- app_assoc. apply (sorted_parts v E L G R); try done; [by rewrite PL2|by rewrite PG2|apply SL2|apply SG2];
      (eapply consistent_sub; [exact Hc'|]); intros x; rewrite ?PL, ?PG; set_solver.
Qed.

(** ** The search *)

(** The elements below the key come first, then those that equal it. *)

Definition ordered (key : elem) : list elem → Prop :=
  StronglySorted (λ x y, (compar key x < 0 → compar key y < 0) ∧ (compar key x ≤ 0 → compar key y ≤ 0)).

Lemma bsearch_loop_ok fuel key pre A B C post :
  sized (A ++ B ++ C) → (length B < fuel)%nat → Z.of_nat (length B) * width < 2 ^ 31 →
  ∃ r, bsearch_loop width compar fuel key (block pre (A ++ B ++ C) post) (Z.of_nat (length B)) (pos pre (length A)) = Some r ∧
    match r with
    | Some p => ∃ i x, p = pos pre i ∧ (A ++ B ++ C) !! i = Some x ∧ compar key x = 0
    | None => ordered key B → Forall (λ x, compar key x ≠ 0) B
    end.
Proof.
  revert A B C. induction fuel as [|fuel IH]; intros A B C Hs Hf Hb; [lia|]. cbn [bsearch_loop].
  destruct (Z.eqb_spec (Z.of_nat (length B)) 0) as [E0|E0].
  { exists None. split; [done|]. assert (B = []) as -> by (apply nil_length_inv; lia). by constructor. }
  rewrite !Z.shiftr_div_pow2 by lia. change (2 ^ 1) with 2.
  set (h := Z.to_nat (Z.of_nat (length B) / 2)). assert (Hh : Z.of_nat (length B) / 2 = Z.of_nat h) by (unfold h; dlia). rewrite Hh.
  assert (Hhl : (h < length B)%nat) by dlia. rewrite u32_small by nia.
  destruct (lookup_lt_is_Some_2 B h Hhl) as [x Hx]. pose proof (take_drop_middle B h x Hx) as EB. pose proof (length_take_le B h ltac:(lia)) as Hlt.
  set (B1 := take h B) in *. set (B2 := drop (S h) B) in *. clearbody B1 B2 h.
  replace (pos pre (length A) + Z.of_nat h * width) with (pos pre (length A + h)) by pos_eq.
  assert (Hat : (A ++ B ++ C) !! (length A + h)%nat = Some x) by (rewrite lookup_app_r, Nat.add_sub', lookup_app_l by lia; done).
  rewrite (read_at pre _ post _ x Hs Hat). cbn [mbind option_bind]. destruct (Z.eqb_spec (compar key x) 0) as [H0|H0].
  { eexists. split; [done|]. by exists (length A + h)%nat, x. }
  assert (HlB : length B = S (h + length B2)) by (rewrite <- EB, length_app; simpl; lia).
  destruct (Z.ltb_spec 0 (compar key x)) as [Hc|Hc].
  - destruct (IH (A ++ B1 ++ [x]) B2 C) as (r & Er & Hr); [|lia|nia|].
    { rewrite <- !app_assoc. simpl. rewrite <- EB in Hs. by rewrite <- app_assoc in Hs. }
    exists r. rewrite <- EB at 1. replace ((A ++ (B1 ++ x :: B2) ++ C)) with ((A ++ B1 ++ [x]) ++ B2 ++ C) by (by rewrite <- !app_assoc).
    replace ((Z.of_nat (length B) - 1) / 2) with (Z.of_nat (length B2)) by dlia.
    replace (pos pre (length A + h) + width) with (pos pre (length (A ++ B1 ++ [x]))) by pos_eq. split; [exact Er|].
    destruct r as [p|]; [rewrite <- EB, <- !app_assoc in *; exact Hr|]. intros Ho. rewrite <- EB in Ho |- *.
    apply sorted_app in Ho as (_ & Ho2 & Ho3). apply StronglySorted_inv in Ho2 as [Ho2 _]. apply Forall_app. split.
    + apply Forall_forall. intros y Hy H0'. destruct (Ho3 y x Hy ltac:(set_solver)). lia.
    + constructor; [done|]. by apply Hr.
  - destruct (IH A B1 (x :: B2 ++ C)) as (r & Er & Hr); [|lia|nia|].
    { rewrite <- EB in Hs. by rewrite <- app_assoc in Hs. }
    exists r. rewrite <- EB at 1. rewrite <- (app_assoc B1). simpl app. rewrite <- Hlt. split; [exact Er|].
    destruct r as [p|]; [rewrite <- EB, <- !app_assoc; exact Hr|]. intros Ho. rewrite <- EB in Ho |- *.
    apply sorted_app in Ho as (Ho1 & Ho2 & _). apply StronglySorted_inv in Ho2 as [_ Ho2]. apply Forall_app. split; [by apply Hr|].
    constructor; [done|]. eapply Forall_impl; [exact Ho2|]. intros y [Hy _]. lia.
Qed.

(** ** Properties *)

(** A client sees the array as the elements between [pre] and [post]. *)

Lemma qsort_array pre es post :
  sized es → Z.of_nat (length es) * width < 2 ^ 31 →
  ∃ es', qsort addr width compar (Z.of_nat (length pre)) (Z.of_nat (length es)) (block pre es post) = Some (block pre es' post) ∧ sorts es es'.
Proof. intros Hs Hb. apply qsort_loop_ok; [done|lia|done]. Qed.

End Props.

(** C16.  Whatever the comparison function returns, [qsort] terminates, touches only the bytes of
    the array, makes no unaligned access, and leaves the array a permutation of itself. *)
Theorem qsort_terminates addr w compar pre es post :
  (0 < w)%nat → sized w es → Z.of_nat (length es) * Z.of_nat w < 2 ^ 31 →
  ∃ es', qsort addr (Z.of_nat w) compar (Z.of_nat (length pre)) (Z.of_nat (length es)) (pre ++ concat es ++ post) = Some (pre ++ concat es' ++ post) ∧
    es' ≡ₚ es.
Proof. intros Hw Hs Hb. destruct (qsort_array addr w Hw compar pre es post Hs Hb) as (es' & E & Hp & _). by exists es'. Qed.

(** The comparison function always says that its first argument is greater. *)
Lemma qsort_terminates_witness :
  ∃ es', qsort 0x20000001 3 (λ _ _, 1) 1 9 ([7] ++ concat (replicate 8 [3; 2; 1] ++ [[4; 5; 6]]) ++ [8; 9]) = Some ([7] ++ concat es' ++ [8; 9]) ∧
    es' ≡ₚ replicate 8 [3; 2; 1] ++ [[4; 5; 6]].
Proof.
  apply (qsort_terminates 0x20000001 3 (λ _ _, 1) [7] (replicate 8 [3; 2; 1] ++ [[4; 5; 6]]) [8; 9]); [lia| |vm_compute; reflexivity].
  repeat constructor.
Defined.

(** C15.  When the comparison function orders the elements, [qsort] sorts the array, for every
    number, size and alignment of elements. *)
Theorem qsort_sorts addr w compar pre es post :
  (0 < w)%nat → sized w es → Z.of_nat (length es) * Z.of_nat w < 2 ^ 31 → consistent compar es →
  ∃ es', qsort addr (Z.of_nat w) compar (Z.of_nat (length pre)) (Z.of_nat (length es)) (pre ++ concat es ++ post) = Some (pre ++ concat es' ++ post) ∧
    es' ≡ₚ es ∧ StronglySorted (λ x y, compar x y ≤ 0) es'.
Proof.
  intros Hw Hs Hb Hc. destruct (qsort_array addr w Hw compar pre es post Hs Hb) as (es' & E & Hp & Hsort).
  exists es'. split; [exact E|]. split; [exact Hp|]. by apply Hsort.
Qed.

(** Numbers of one byte, by their difference. *)
Definition by_byte (x y : elem) : Z := hd 0 x - hd 0 y.

Lemma by_byte_consistent l : consistent by_byte l.
Proof. split; unfold le, by_byte; intros; lia. Qed.

Definition nine : list elem := [[5]; [3]; [9]; [3]; [1]; [8]; [3]; [7]; [2]].

Lemma qsort_sorts_witness :
  (∃ es', qsort 0x20000000 1 by_byte 0 9 (concat nine) = Some (concat es') ∧ es' ≡ₚ nine ∧ StronglySorted (λ x y, by_byte x y ≤ 0) es') ∧
  qsort 0x20000000 1 by_byte 0 9 (concat nine) = Some [1; 2; 3; 3; 3; 5; 7; 8; 9].
Proof.
  split; [|vm_compute; reflexivity].
  destruct (qsort_sorts 0x20000000 1 by_byte [] nine []) as (es' & E & H);
    [lia|repeat constructor|vm_compute; reflexivity|apply by_byte_consistent|].
  exists es'. split; [|exact H]. simpl app in E. rewrite !app_nil_r in E. exact E.
Defined.

(** [bsearch] terminates inside of the array and returns a pointer to an element that the
    comparison function takes for the key; in an array that is ordered it returns NULL only
    when there is none. *)
Theorem bsearch_finds w compar key pre es post :
  (0 < w)%nat → sized w es → Z.of_nat (length es) * Z.of_nat w < 2 ^ 31 →
  ∃ r, bsearch (Z.of_nat w) compar key (pre ++ concat es ++ post) (Z.of_nat (length pre)) (Z.of_nat (length es)) = Some r ∧
    match r with
    | Some p => ∃ i x, p = Z.of_nat (length pre) + Z.of_nat i * Z.of_nat w ∧ es !! i = Some x ∧ compar key x = 0
    | None => ordered compar key es → Forall (λ x, compar key x ≠ 0) es
    end.
Proof.
  intros Hw Hs Hb. destruct (bsearch_loop_ok w Hw compar (S (length es)) key pre [] es [] post) as (r & E & Hr); [by rewrite app_nil_r|lia|done|].
  simpl app in *. rewrite app_nil_r in *. exists r. split; [|exact Hr]. unfold bsearch. rewrite Nat2Z.id, <- E. f_equal. unfold pos. simpl. lia.
Qed.

Lemma bsearch_finds_witness :
  (∃ r, bsearch 1 by_byte [4] [1; 2; 3; 5; 7] 0 5 = Some r ∧
    match r with
    | Some p => ∃ i x, p = 0 + Z.of_nat i * 1 ∧ [[1]; [2]; [3]; [5]; [7]] !! i = Some x ∧ by_byte [4] x = 0
    | None => ordered by_byte [4] [[1]; [2]; [3]; [5]; [7]] → Forall (λ x, by_byte [4] x ≠ 0) [[1]; [2]; [3]; [5]; [7]]
    end) ∧ bsearch 1 by_byte [5] [1; 2; 3; 5; 7] 0 5 = Some (Some 3).
Proof.
  split; [|vm_compute; reflexivity].
  apply (bsearch_finds 1 by_byte [4] [] [[1]; [2]; [3]; [5]; [7]] []); [lia|repeat constructor|vm_compute; reflexivity].
Defined.

End QsortProps.
