(* ===== verification/Lzf.v ===== *)
(** * LZF compression (libs/libc/lzf: lzf_compress and lzf_decompress)

    A pointer is its 32-bit address.  The input and the output buffer are two blocks of
    bytes that start at the addresses [sbase] and [dbase]; an access outside of its block
    is a fault.  The hash table holds pointers into the input (LZF_USE_OFFSETS is 0 on a
    32-bit target); it is not cleared (INIT_HTAB is 0), so that it can hold any pointer at
    first.  CHECK_INPUT is 1 and lzf_movsb is not defined. *)

From stdpp Require Import base list numbers option.
From S2P Require Import Prelude CString.
Import CString.

Module Lzf.

Definition E2BIG : Z := 7.

Definition LZF_TYPE0_HDR : Z := 0.
Definition LZF_TYPE1_HDR : Z := 1.
Definition LZF_TYPE0_HDR_SIZE : Z := 5.
Definition LZF_TYPE1_HDR_SIZE : Z := 7.

Definition MAX_LIT : Z := Z.shiftl 1 5.
Definition MAX_REF : Z := Z.shiftl 1 8 + Z.shiftl 1 3.

(** The compression options of Kconfig. *)

Inductive config := LIBC_LZF_SMALL | LIBC_LZF_FAST | LIBC_LZF_FASTEST.

(** ** Compression *)

Section Compress.

Context (HLOG : Z) (cfg : config).
Context (src : list Z) (sbase in_data in_len dbase out_data out_len : Z).

Implicit Types (dst htab : list Z) (ip op ref hval lit len off : Z) (fuel : nat).

Definition HSIZE : Z := Z.shiftl 1 HLOG.
Definition MAX_OFF : Z := Z.shiftl 1 HLOG.

Definition in_end : Z := u32 (in_data + in_len).
Definition out_end : Z := u32 (out_data + out_len).

Definition get (p : Z) : option Z := arr_get src (p - sbase).

Definition put dst (p v : Z) : option (list Z) := arr_set dst (p - dbase) (u8 v).

(** *** The hash of the next three bytes *)

Definition FRST (p : Z) : option Z :=
  b0 ← get p; b1 ← get (p + 1); Some (Z.lor (Z.shiftl b0 8) b1).

Definition NEXT hval (p : Z) : option Z :=
  b2 ← get (p + 2); Some (Z.lor (u32 (Z.shiftl hval 8)) b2).

Definition IDX (h : Z) : Z :=
  Z.land
    (u32 match cfg with
         | LIBC_LZF_FASTEST => Z.shiftr h (3 * 8 - HLOG) - h
         | LIBC_LZF_FAST => Z.shiftr h (3 * 8 - HLOG) - u32 (h * 5)
         | LIBC_LZF_SMALL =>
             Z.shiftr (Z.lxor h (u32 (Z.shiftl h 5))) (3 * 8 - HLOG) - u32 (h * 5)
         end)
    (HSIZE - 1).

(** Enters the position [ip] in the table. *)

Definition hash htab hval ip : option (list Z * Z) :=
  hval ← NEXT hval ip;
  htab ← arr_set htab (IDX hval) ip;
  Some (htab, hval).

Fixpoint rehash_loop (n : nat) htab hval ip : option (list Z * Z) :=
  match n with
  | O => Some (htab, hval)
  | S n => '(htab, hval) ← hash htab hval ip; rehash_loop n htab hval (ip + 1)
  end.

(** Enters the last positions of a match that ends at [ip]. *)

Definition rehash htab hval ip len : option (list Z * Z) :=
  match cfg with
  | LIBC_LZF_FASTEST =>
      hval ← FRST (ip - 1);
      hash htab hval (ip - 1)
  | LIBC_LZF_FAST =>
      hval ← FRST (ip - 2);
      '(htab, hval) ← hash htab hval (ip - 2);
      hash htab hval (ip - 1)
  | LIBC_LZF_SMALL => rehash_loop (Z.to_nat (len + 1)) htab hval (ip - (len + 1))
  end.

(** *** Matches *)

Definition offset ip ref : Z := (s32 (ip - ref) - 1) mod 2 ^ 64.

Definition matches ip ref : option bool :=
  if (offset ip ref <? MAX_OFF) && (in_data <? ref) then
    r2 ← get (ref + 2); i2 ← get (ip + 2);
    if r2 =? i2 then
      r1 ← get (ref + 1); r0 ← get ref;
      i1 ← get (ip + 1); i0 ← get ip;
      Some (Z.lor (Z.shiftl r1 8) r0 =? Z.lor (Z.shiftl i1 8) i0)
    else Some false
  else Some false.

(** The comparisons that are unrolled: stopped or not, and the length. *)

Fixpoint extend_unrolled (n : nat) ref ip len : option (bool * Z) :=
  match n with
  | O => Some (false, len)
  | S n =>
      let len := len + 1 in
      r ← get (ref + len); i ← get (ip + len);
      if negb (r =? i) then Some (true, len) else extend_unrolled n ref ip len
  end.

Fixpoint extend_loop fuel ref ip len (maxlen : Z) : option Z :=
  match fuel with
  | O => None
  | S fuel =>
      let len := len + 1 in
      if len <? maxlen then
        r ← get (ref + len); i ← get (ip + len);
        if r =? i then extend_loop fuel ref ip len maxlen else Some len
      else Some len
  end.

Definition match_len ref ip : option Z :=
  let len := 2 in
  let maxlen := u32 (in_end - ip - len) in
  let maxlen := if MAX_REF <? maxlen then MAX_REF else maxlen in
  '(stop, len) ← (if 16 <? maxlen then extend_unrolled 16 ref ip len else Some (false, len));
  if (stop : bool) then Some len else extend_loop (Z.to_nat maxlen + 1) ref ip len maxlen.

(** *** Output *)

Definition stop_run dst op lit : option (list Z * Z) :=
  dst ← put dst (op - lit - 1) (lit - 1);
  Some (dst, if lit =? 0 then op - 1 else op).

Definition put_literal dst op lit ip : option (list Z * Z * Z) :=
  b ← get ip;
  let lit := lit + 1 in
  dst ← put dst op b;
  let op := op + 1 in
  if lit =? MAX_LIT then
    dst ← put dst (op - lit - 1) (lit - 1);
    Some (dst, op + 1, 0)
  else Some (dst, op, lit).

Definition put_match dst op off len : option (list Z * Z) :=
  '(dst, op) ←
    (if len <? 7 then
       dst ← put dst op (Z.shiftr off 8 + Z.shiftl len 5);
       Some (dst, op + 1)
     else
       dst ← put dst op (Z.shiftr off 8 + Z.shiftl 7 5);
       dst ← put dst (op + 1) (len - 7);
       Some (dst, op + 2));
  dst ← put dst op off;
  Some (dst, op + 1).

(** *** The loops *)

Record lzf_vars := mk_vars { dst : list Z; htab : list Z; ip : Z; op : Z; lit : Z; hval : Z }.

(** What follows a pass of the loop: the next one, the code after the loop, or the jump to
    genhdr with [cs = 0]. *)

Inductive flow := Continue | Break | Genhdr.

Definition step_match (v : lzf_vars) ref : option (lzf_vars * flow) :=
  let 'mk_vars dst htab ip op lit hval := v in
  if (out_end <=? u32 (op + 3 + 1)) &&
     (out_end <=? u32 ((if lit =? 0 then op - 1 else op) + 3 + 1))
  then Some (v, Genhdr)
  else
    '(dst, op) ← stop_run dst op lit;
    len ← match_len ref ip;
    let len := len - 2 in
    '(dst, op) ← put_match dst op (offset ip ref) len;
    let op := op + 1 in
    let ip := ip + 1 + (len + 1) in
    if u32 (in_end - 2) <=? ip then Some (mk_vars dst htab ip op 0 hval, Break)
    else
      '(htab, hval) ← rehash htab hval ip len;
      Some (mk_vars dst htab ip op 0 hval, Continue).

Definition step_literal (v : lzf_vars) : option (lzf_vars * flow) :=
  let 'mk_vars dst htab ip op lit hval := v in
  if out_end <=? op then Some (v, Genhdr)
  else
    '(dst, op, lit) ← put_literal dst op lit ip;
    Some (mk_vars dst htab (ip + 1) op lit hval, Continue).

Definition step (v : lzf_vars) : option (lzf_vars * flow) :=
  let 'mk_vars dst htab ip op lit hval := v in
  hval ← NEXT hval ip;
  ref ← arr_get htab (IDX hval);
  htab ← arr_set htab (IDX hval) ip;
  m ← matches ip ref;
  let v := mk_vars dst htab ip op lit hval in
  if (m : bool) then step_match v ref else step_literal v.

Fixpoint compress_loop fuel (v : lzf_vars) : option (lzf_vars * flow) :=
  match fuel with
  | O => None
  | S fuel =>
      if ip v <? u32 (in_end - 2) then
        '(v, f) ← step v;
        match f with
        | Continue => compress_loop fuel v
        | _ => Some (v, f)
        end
      else Some (v, Break)
  end.

Fixpoint tail_loop fuel dst op lit ip : option (list Z * Z * Z) :=
  match fuel with
  | O => None
  | S fuel =>
      if ip <? in_end then
        '(dst, op, lit) ← put_literal dst op lit ip;
        tail_loop fuel dst op lit (ip + 1)
      else Some (dst, op, lit)
  end.

(** After the loop: the bytes that are left, and [cs]. *)

Definition finish (v : lzf_vars) : option (list Z * list Z * Z) :=
  let 'mk_vars dst htab ip op lit hval := v in
  if out_end <? u32 (op + 3) then Some (dst, htab, 0)
  else
    '(dst, op, lit) ← tail_loop (S (Z.to_nat in_len)) dst op lit ip;
    '(dst, op) ← stop_run dst op lit;
    Some (dst, htab, op - out_data).

(** From the start to the label genhdr: the output, the table and [cs]. *)

Definition compress dst htab : option (list Z * list Z * Z) :=
  if (in_len =? 0) || (out_len =? 0) then Some (dst, htab, 0)
  else
    hval ← FRST in_data;
    '(v, f) ←
      compress_loop (S (Z.to_nat in_len)) (mk_vars dst htab in_data (out_data + 1) 0 hval);
    match f with
    | Genhdr => let 'mk_vars dst htab _ _ _ _ := v in Some (dst, htab, 0)
    | _ => finish v
    end.

(** The buffer that the header is in, its address, and the length that is returned. *)

Inductive buffer := InData | OutData.

Record lzf_result := mk_result {
  res_src : list Z;
  res_dst : list Z;
  res_htab : list Z;
  reshdr : buffer * Z;
  retlen : Z
}.

Definition type1_header (cs : Z) : list Z :=
  [90; 86; LZF_TYPE1_HDR; u8 (Z.shiftr cs 8); Z.land cs 0xff;
   u8 (Z.shiftr in_len 8); Z.land in_len 0xff].

Definition type0_header : list Z :=
  [90; 86; LZF_TYPE0_HDR; u8 (Z.shiftr in_len 8); Z.land in_len 0xff].

Definition lzf_compress dst htab : option lzf_result :=
  '(dst, htab, cs) ← compress dst htab;
  if negb (cs =? 0) then
    let header := u32 (out_data - LZF_TYPE1_HDR_SIZE) in
    dst ← mem_write dst (header - dbase) (type1_header cs);
    Some (mk_result src dst htab (OutData, header) (cs + LZF_TYPE1_HDR_SIZE))
  else
    let header := u32 (in_data - LZF_TYPE0_HDR_SIZE) in
    src ← mem_write src (header - sbase) type0_header;
    Some (mk_result src dst htab (InData, header) (u32 (in_len + LZF_TYPE0_HDR_SIZE))).

End Compress.

(** ** Decompression *)

Section Decompress.

Context (src : list Z) (sbase in_data in_len dbase out_data out_len : Z).

Implicit Types (dst : list Z) (ip op ref ctrl len : Z) (fuel n : nat).

#[local] Abbreviation in_end := (in_end in_data in_len).
#[local] Abbreviation out_end := (out_end out_data out_len).
#[local] Abbreviation get := (get src sbase).
#[local] Abbreviation put := (put dbase).

(** The switch of a literal run: [n] bytes from the input. *)

Fixpoint copy_in n dst op ip : option (list Z) :=
  match n with
  | O => Some dst
  | S n => b ← get ip; dst ← put dst op b; copy_in n dst (op + 1) (ip + 1)
  end.

(** The switch and the loop of a back reference: [n] bytes from the output. *)

Fixpoint copy_ref n dst op ref : option (list Z) :=
  match n with
  | O => Some dst
  | S n => b ← arr_get dst (ref - dbase); dst ← put dst op b; copy_ref n dst (op + 1) (ref + 1)
  end.

(** The two branches of the loop: an error number, or the output and the two pointers. *)

Definition literal_run dst ip op ctrl : option (Z + list Z * Z * Z) :=
  let ctrl := ctrl + 1 in
  if out_end <? u32 (op + ctrl) then Some (inl E2BIG)
  else if in_end <? u32 (ip + ctrl) then Some (inl EINVAL)
  else
    dst ← copy_in (Z.to_nat ctrl) dst op ip;
    Some (inr (dst, ip + ctrl, op + ctrl)).

Definition back_copy dst op ref len : option (list Z * Z) :=
  if 9 <? len then
    let len := len + 2 in
    if u32 (ref + len) <=? op then
      dst ← memcpy dst (op - dbase) dst (ref - dbase) len;
      Some (dst, op + len)
    else
      dst ← copy_ref (Z.to_nat len) dst op ref;
      Some (dst, op + len)
  else
    dst ← copy_ref (Z.to_nat (len + 2)) dst op ref;
    Some (dst, op + (len + 2)).

Definition back_tail dst ip op ref len : option (Z + list Z * Z * Z) :=
  b ← get ip;
  let ip := ip + 1 in
  let ref := u32 (ref - b) in
  if out_end <? u32 (op + len + 2) then Some (inl E2BIG)
  else if ref <? out_data then Some (inl EINVAL)
  else
    '(dst, op) ← back_copy dst op ref len;
    Some (inr (dst, ip, op)).

Definition back_reference dst ip op ctrl : option (Z + list Z * Z * Z) :=
  let len := Z.shiftr ctrl 5 in
  let ref := u32 (op - Z.shiftl (Z.land ctrl 0x1f) 8 - 1) in
  if in_end <=? ip then Some (inl EINVAL)
  else if len =? 7 then
    b ← get ip;
    let ip := ip + 1 in
    if in_end <=? ip then Some (inl EINVAL) else back_tail dst ip op ref (len + b)
  else back_tail dst ip op ref len.

(** The output, the error number if one is set, and the value that is returned. *)

Fixpoint decompress_loop fuel dst ip op : option (list Z * option Z * Z) :=
  match fuel with
  | O => None
  | S fuel =>
      ctrl ← get ip;
      let ip := ip + 1 in
      r ← (if ctrl <? Z.shiftl 1 5 then literal_run dst ip op ctrl
           else back_reference dst ip op ctrl);
      match r with
      | inl err => Some (dst, Some err, 0)
      | inr (dst, ip, op) =>
          if ip <? in_end then decompress_loop fuel dst ip op
          else Some (dst, None, u32 (op - out_data))
      end
  end.

Definition lzf_decompress dst : option (list Z * option Z * Z) :=
  decompress_loop (S (Z.to_nat in_len)) dst in_data out_data.

End Decompress.

End Lzf.
