(* ===== verification/LzfSpec.v ===== *)
(** * The LZF format: tokens, their encoding, and what they stand for

    The compressed data is a sequence of tokens: runs of literal bytes, and references to
    bytes that are already there.  The decompressor is proved to expand the encoding of any
    sequence of tokens; the lemmas on the bytes of a buffer are shared with the proof of
    the compressor. *)

From stdpp Require Import base list numbers option.
From S2P Require Import Prelude CString Lzf.
Import CString Lzf.

Module LzfSpec.

Abbreviation size l := (Z.of_nat (length l)).

Definition byte (b : Z) : Prop := 0 ≤ b < 256.

(** ** Tokens *)

Inductive token := Literal (l : list Z) | Match (off n : Z).

Definition encode1 (t : token) : list Z :=
  match t with
  | Literal l => (size l - 1) :: l
  | Match off n =>
      if n <? 9 then [off / 256 + (n - 2) * 32; off mod 256]
      else [off / 256 + 224; n - 9; off mod 256]
  end.

Definition encode (ts : list token) : list Z := mjoin (encode1 <$> ts).

Definition token_ok (t : token) : Prop :=
  match t with
  | Literal l => 1 ≤ size l ≤ 32 ∧ Forall byte l
  | Match off n => 0 ≤ off < 8192 ∧ 3 ≤ n ≤ 264
  end.

(** The [n] bytes at the distance [off + 1] from the end, one after the other. *)

Fixpoint repeat_back (n : nat) (off : Z) (out : list Z) : option (list Z) :=
  match n with
  | O => Some out
  | S n => b ← arr_get out (size out - off - 1); repeat_back n off (out ++ [b])
  end.

Definition expand1 (out : list Z) (t : token) : option (list Z) :=
  match t with
  | Literal l => Some (out ++ l)
  | Match off n => repeat_back (Z.to_nat n) off out
  end.

Fixpoint expand (ts : list token) (out : list Z) : option (list Z) :=
  match ts with
  | [] => Some out
  | t :: ts => out ← expand1 out t; expand ts out
  end.

Lemma expand_app ts1 ts2 out :
  expand (ts1 ++ ts2) out = out ← expand ts1 out; expand ts2 out.
Proof.
  revert out. induction ts1 as [|t ts1 IH]; intros out; [done|]. cbn [expand app].
  destruct (expand1 out t); [|done]. apply IH.
Qed.

Lemma encode_app ts1 ts2 : encode (ts1 ++ ts2) = encode ts1 ++ encode ts2.
Proof. unfold encode. by rewrite fmap_app, join_app. Qed.

Lemma encode1_size t : token_ok t → 2 ≤ Z.of_nat (length (encode1 t)).
Proof. destruct t as [l|off n]; simpl; [lia|]. intros _. case_if; simpl; lia. Qed.

Lemma repeat_back_size n off out out' :
  repeat_back n off out = Some out' → length out' = (length out + n)%nat.
Proof.
  revert out. induction n as [|n IH]; intros out; simpl; [intros; simplify_eq; lia|].
  destruct (arr_get _ _); [|done]. cbn [mbind option_bind]. intros ->%IH.
  rewrite length_app. simpl. lia.
Qed.

Lemma expand1_grows t out out' : expand1 out t = Some out' → (length out ≤ length out')%nat.
Proof.
  destruct t as [l|off n]; simpl.
  - intros. simplify_eq. rewrite length_app. lia.
  - intros ->%repeat_back_size. lia.
Qed.

Lemma expand_grows ts out out' : expand ts out = Some out' → (length out ≤ length out')%nat.
Proof.
  revert out. induction ts as [|t ts IH]; intros out; cbn [expand]; [intros; by simplify_eq|].
  destruct (expand1 out t) as [o|] eqn:E; [|done]. intros H%IH. apply expand1_grows in E. lia.
Qed.

(** ** The bytes of a buffer *)

Definition has (m : list Z) (o : Z) (l : list Z) : Prop :=
  ∀ i b, l !! i = Some b → arr_get m (o + Z.of_nat i) = Some b.

Implicit Types (m l out : list Z) (o p : Z).

Lemma has_nil m o : has m o [].
Proof. intros i b H. done. Qed.

Lemma has_cons m o b l : has m o (b :: l) ↔ arr_get m o = Some b ∧ has m (o + 1) l.
Proof.
  split.
  - intros H. split; [specialize (H 0%nat b); rewrite Z.add_0_r in H; by apply H|].
    intros i c Hi. specialize (H (S i) c Hi). rewrite <- H. f_equal. lia.
  - intros [Hb H] [|i] c Hi; simpl in Hi; [simplify_eq; by rewrite Z.add_0_r|].
    rewrite <- (H i c Hi). f_equal. lia.
Qed.

Lemma has_app m o l1 l2 : has m o (l1 ++ l2) ↔ has m o l1 ∧ has m (o + size l1) l2.
Proof.
  revert o. induction l1 as [|b l1 IH]; intros o; simpl.
  - rewrite Z.add_0_r. split; [split; [apply has_nil|done]|tauto].
  - rewrite !has_cons, IH. replace (o + Z.of_nat (S (length l1))) with (o + 1 + size l1) by lia.
    tauto.
Qed.

Lemma has_get m o l i b : has m o l → arr_get l i = Some b → arr_get m (o + i) = Some b.
Proof.
  intros H [Hi Hb]%arr_get_Some. rewrite <- (H _ _ Hb). f_equal. lia.
Qed.

Lemma has_self m : has m 0 m.
Proof. intros i b Hi. apply arr_get_Some. rewrite Z.add_0_l, Nat2Z.id. split; [lia|done]. Qed.

Lemma has_read m o l : 0 ≤ o → has m o l → o + size l ≤ size m → mem_read m o (size l) = Some l.
Proof.
  intros Ho H Hl. rewrite mem_read_Some by lia. f_equal. rewrite Nat2Z.id.
  apply list_eq_same_length with (n := length l); [done|rewrite length_take, length_drop; lia|].
  intros i x y Hi Hx Hy. rewrite lookup_take_lt, lookup_drop in Hx by done.
  apply H in Hy. apply arr_get_Some in Hy as [_ Hy].
  replace (Z.to_nat (o + Z.of_nat i)) with (Z.to_nat o + i)%nat in Hy by lia. congruence.
Qed.

Lemma arr_set_get m p b : 0 ≤ p < size m →
  ∃ m', arr_set m p b = Some m' ∧ length m' = length m ∧ arr_get m' p = Some b ∧
        ∀ q, q ≠ p → arr_get m' q = arr_get m q.
Proof.
  intros Hp. exists (<[Z.to_nat p := b]> m). rewrite arr_set_lt by lia.
  split; [done|]. split; [apply length_insert|]. split.
  - apply arr_get_Some. split; [lia|]. apply list_lookup_insert_eq. lia.
  - intros q Hq. unfold arr_get. case_if; [|done]. apply list_lookup_insert_ne. lia.
Qed.

Lemma has_same m m' o l :
  has m o l → (∀ q, o ≤ q < o + size l → arr_get m' q = arr_get m q) → has m' o l.
Proof.
  intros H Hs i b Hi. rewrite Hs; [by apply H|]. apply lookup_lt_Some in Hi. lia.
Qed.

(** A byte that is written to a buffer. *)

Lemma u8_byte b : byte b → u8 b = b.
Proof. unfold byte, u8. intros. apply Z.mod_small. lia. Qed.

Lemma put_ok dbase m p v : dbase ≤ p < dbase + size m →
  ∃ m', put dbase m p v = Some m' ∧ length m' = length m ∧
        arr_get m' (p - dbase) = Some (u8 v) ∧
        ∀ q, q ≠ p - dbase → arr_get m' q = arr_get m q.
Proof. intros Hp. unfold put. apply arr_set_get. lia. Qed.

Lemma put_has dbase m p v o l :
  dbase ≤ p < dbase + size m → has m o l → o + size l = p - dbase →
  ∃ m', put dbase m p v = Some m' ∧ length m' = length m ∧ has m' o (l ++ [u8 v]) ∧
        ∀ q, q ≠ p - dbase → arr_get m' q = arr_get m q.
Proof.
  intros Hp Hl Ho. destruct (put_ok dbase m p v Hp) as (m' & E & Hlen & Hg & Hs).
  exists m'. split_and!; try done. rewrite has_app, has_cons. split_and!.
  - apply has_same with m; [done|]. intros q Hq. apply Hs. lia.
  - by rewrite Ho.
  - apply has_nil.
Qed.

(** ** The decompressor *)

Section Decode.

Context (src : list Z) (sbase in_data in_len dbase out_data out_len : Z).

Implicit Types (ts : list token) (dst : list Z) (ip op : Z).

(** The output so far: [out] ends at [op]. *)

Definition written dst op out : Prop :=
  has dst (out_data - dbase) out ∧ op = out_data + size out ∧ Forall byte out.

Lemma written_put dst op out b :
  dbase ≤ out_data → op < dbase + size dst → written dst op out → byte b →
  ∃ dst', put dbase dst op b = Some dst' ∧ length dst' = length dst ∧
          written dst' (op + 1) (out ++ [b]).
Proof.
  intros Hd Hop (Hh & -> & Hb) HB.
  destruct (put_has dbase dst (out_data + size out) b (out_data - dbase) out)
    as (dst' & E & Hl & Hh' & _); [lia|done|lia|].
  rewrite u8_byte in Hh' by done. exists dst'. unfold written.
  rewrite length_app, Forall_app, Forall_singleton. simpl. split_and!; try done; lia.
Qed.

Lemma copy_in_ok l dst ip op out :
  dbase ≤ out_data → has src (ip - sbase) l → Forall byte l → written dst op out →
  op + size l ≤ dbase + size dst →
  ∃ dst', copy_in src sbase dbase (length l) dst op ip = Some dst' ∧
          length dst' = length dst ∧ written dst' (op + size l) (out ++ l).
Proof.
  intros Hd. revert dst ip op out. induction l as [|b l IH]; intros dst ip op out Hs Hb Hw Hop.
  - exists dst. by rewrite app_nil_r, Z.add_0_r.
  - apply has_cons in Hs as [Hg Hs]. apply Forall_cons in Hb as [Hb1 Hb].
    cbn [length copy_in] in *. unfold get. rewrite Hg. cbn [mbind option_bind].
    destruct (written_put dst op out b) as (d1 & -> & Hl1 & Hw1); [done|lia|done|done|].
    cbn [mbind option_bind].
    destruct (IH d1 (ip + 1) (op + 1) (out ++ [b])) as (d2 & -> & Hl2 & Hw2); try done.
    + by replace (ip + 1 - sbase) with (ip - sbase + 1) by lia.
    + rewrite Hl1. lia.
    + exists d2. rewrite Hl2. split_and!; try done. rewrite <- app_assoc in Hw2.
      by replace (op + Z.of_nat (S (length l))) with (op + 1 + size l) by lia.
Qed.

Lemma arr_get_byte l i b : Forall byte l → arr_get l i = Some b → byte b.
Proof. intros H [_ Hi]%arr_get_Some. by eapply Forall_lookup_1. Qed.

Lemma copy_ref_ok n off dst op ref out out' :
  dbase ≤ out_data → written dst op out → ref = op - off - 1 →
  repeat_back n off out = Some out' → op + Z.of_nat n ≤ dbase + size dst →
  ∃ dst', copy_ref dbase n dst op ref = Some dst' ∧
          length dst' = length dst ∧ written dst' (op + Z.of_nat n) out'.
Proof.
  intros Hd. revert dst op ref out. induction n as [|n IH]; intros dst op ref out Hw -> Hr Hop.
  - simpl in Hr. simplify_eq. exists dst. by rewrite Z.add_0_r.
  - cbn [repeat_back copy_ref] in *. destruct (arr_get out _) as [b|] eqn:Eb; [|done].
    cbn [mbind option_bind] in Hr. pose proof Hw as (Hh & Eop & HB).
    assert (arr_get dst (op - off - 1 - dbase) = Some b) as ->.
    { apply (has_get _ _ _ _ _ Hh) in Eb. rewrite <- Eb. f_equal. lia. }
    cbn [mbind option_bind].
    destruct (written_put dst op out b) as (d1 & -> & Hl1 & Hw1);
      [done|lia|done|by eapply arr_get_byte|].
    cbn [mbind option_bind].
    destruct (IH d1 (op + 1) (op - off - 1 + 1) (out ++ [b])) as (d2 & -> & Hl2 & Hw2);
      [done|lia|done|rewrite Hl1; lia|].
    exists d2. rewrite Hl2. split_and!; try done.
    by replace (op + Z.of_nat (S n)) with (op + 1 + Z.of_nat n) by lia.
Qed.

(** Areas that do not overlap: [memcpy] does what the loop does. *)

Lemma memcpy_copy_ref n dst0 dst op ref :
  ref + Z.of_nat n ≤ op →
  (∀ q, ref - dbase ≤ q < ref - dbase + Z.of_nat n →
        arr_get dst q = arr_get dst0 q ∧ ∀ b, arr_get dst0 q = Some b → byte b) →
  memcpy_loop n dst (op - dbase) dst0 (ref - dbase) = copy_ref dbase n dst op ref.
Proof.
  revert dst op ref. induction n as [|n IH]; intros dst op ref Hd Hs; [done|].
  cbn [memcpy_loop copy_ref]. destruct (Hs (ref - dbase)) as [-> Hb]; [lia|].
  destruct (arr_get dst0 _) as [b|]; [|done]. cbn [mbind option_bind].
  unfold put. rewrite (u8_byte b) by auto.
  destruct (arr_set dst (op - dbase) b) as [d1|] eqn:E; [|done]. cbn [mbind option_bind].
  replace (op - dbase + 1) with (op + 1 - dbase) by lia.
  replace (ref - dbase + 1) with (ref + 1 - dbase) by lia.
  apply IH; [lia|]. intros q Hq. destruct (Hs q) as [Hq1 Hq2]; [lia|]. split; [|done].
  unfold arr_set in E. case_if_in E; [|done]. simplify_eq. rewrite <- Hq1.
  unfold arr_get. case_if; [|done]. apply list_lookup_insert_ne. lia.
Qed.

(** The buffers are in the address space, and the output is not in the first 8 KiB of it. *)

Definition placed : Prop :=
  sbase ≤ in_data ∧ 0 ≤ in_data ∧ 0 < in_len ∧ in_data + in_len ≤ sbase + size src ∧
  in_data + in_len + 32 < 2 ^ 32 ∧ dbase ≤ out_data ∧ 0 ≤ out_len ∧
  8192 ≤ out_data ∧ out_data + out_len + 264 < 2 ^ 32.

Lemma back_copy_ok dst op ref len off out out' :
  placed → 0 ≤ len ≤ 262 → written dst op out → 0 ≤ off → ref = op - off - 1 → out_data ≤ ref →
  repeat_back (Z.to_nat (len + 2)) off out = Some out' → op + len + 2 ≤ dbase + size dst →
  op ≤ out_data + out_len →
  ∃ dst', back_copy dbase dst op ref len = Some (dst', op + (len + 2)) ∧
          length dst' = length dst ∧ written dst' (op + (len + 2)) out'.
Proof.
  intros (? & ? & ? & ? & ? & ? & ? & ? & ?) Hlen Hw Ho -> Hr Hrep Hop Hoo.
  destruct (copy_ref_ok (Z.to_nat (len + 2)) off dst op (op - off - 1) out out')
    as (dst' & E & Hl & Hw'); try done; [lia|].
  rewrite Z2Nat.id in Hw' by lia. exists dst'. split; [|done]. unfold back_copy.
  case_if; [|by rewrite E]. fits. case_if; [|by rewrite E].
  unfold memcpy. rewrite memcpy_copy_ref, E; [done|lia|].
  destruct Hw as (Hh & Hopq & HB). intros q Hq. split; [done|]. intros b Hb.
  apply (arr_get_byte out (q - (out_data - dbase)) b HB).
  destruct (lookup_lt_is_Some_2 out (Z.to_nat (q - (out_data - dbase)))) as [c Hc]; [lia|].
  assert (arr_get out (q - (out_data - dbase)) = Some c) as Hg by (apply arr_get_Some; split; [lia|done]).
  rewrite Hg. apply (has_get _ _ _ _ _ Hh) in Hg. rewrite <- Hg, <- Hb. f_equal. lia.
Qed.

Lemma in_end_eq : placed → in_end in_data in_len = in_data + in_len.
Proof. intros (? & ? & ? & ? & ? & ? & ? & ? & ?). unfold in_end. by fits. Qed.

Lemma out_end_eq : placed → out_end out_data out_len = out_data + out_len.
Proof. intros (? & ? & ? & ? & ? & ? & ? & ? & ?). unfold out_end. by fits. Qed.

Lemma literal_run_ok l dst ip op out :
  placed → 1 ≤ size l ≤ 32 → Forall byte l → has src (ip - sbase) l →
  in_data ≤ ip → ip + size l ≤ in_data + in_len → written dst op out →
  op + size l ≤ out_data + out_len → out_data + out_len ≤ dbase + size dst →
  ∃ dst', literal_run src sbase in_data in_len dbase out_data out_len dst ip op (size l - 1)
          = Some (inr (dst', ip + size l, op + size l)) ∧
          length dst' = length dst ∧ written dst' (op + size l) (out ++ l).
Proof.
  intros Hp Hl HB Hs Hip Hie Hw Hop Hd. pose proof Hp as (? & ? & ? & ? & ? & ? & ? & ? & ?).
  pose proof Hw as (_ & Eop & _).
  destruct (copy_in_ok l dst ip op out) as (dst' & E & Hl' & Hw'); try done; [lia|].
  exists dst'. split; [|done]. unfold literal_run. rewrite in_end_eq, out_end_eq by done.
  rewrite Z.sub_add. fits. case_if; [lia|]. case_if; [lia|]. by rewrite Nat2Z.id, E.
Qed.

(** The fields of the first byte of a reference. *)

Lemma ctrl_fields hi len : 0 ≤ hi < 32 → 0 ≤ len →
  Z.shiftr (hi + len * 32) 5 = len ∧ Z.land (hi + len * 32) 0x1f = hi.
Proof.
  intros Hh Hl. rewrite Z.shiftr_div_pow2 by lia. change 0x1f with (Z.ones 5).
  rewrite Z.land_ones by lia. split; dlia.
Qed.

Lemma back_tail_ok off n dst ip op out out' :
  placed → 0 ≤ off < 8192 → 3 ≤ n ≤ 264 → arr_get src (ip - sbase) = Some (off mod 256) →
  written dst op out → repeat_back (Z.to_nat n) off out = Some out' →
  op + n ≤ out_data + out_len → out_data + out_len ≤ dbase + size dst →
  ∃ dst', back_tail src sbase dbase out_data out_len dst ip op (u32 (op - off / 256 * 256 - 1)) (n - 2)
          = Some (inr (dst', ip + 1, op + n)) ∧
          length dst' = length dst ∧ written dst' (op + n) out'.
Proof.
  intros Hp Hoff Hn Hs Hw Hr Hop Hd. pose proof Hp as (? & ? & ? & ? & ? & ? & ? & ? & ?).
  pose proof Hw as (_ & Eop & _).
  assert (off < size out) as Hoo.
  { replace (Z.to_nat n) with (S (Z.to_nat (n - 1))) in Hr by lia. cbn [repeat_back] in Hr.
    destruct (arr_get out _) eqn:E; [|done]. apply arr_get_Some in E. lia. }
  destruct (back_copy_ok dst op (op - off - 1) (n - 2) off out out') as (dst' & E & Hl & Hw');
    try done; try lia; [by rewrite Z.sub_add|]. rewrite Z.sub_add in E, Hw'.
  exists dst'. split; [|done]. unfold back_tail, get. rewrite Hs, out_end_eq by done.
  cbn [mbind option_bind]. rewrite u32_u32_sub.
  replace (op - off / 256 * 256 - 1 - off mod 256) with (op - off - 1) by dlia.
  fits. case_if; [lia|]. case_if; [lia|]. by rewrite E.
Qed.

Lemma back_reference_ok off n dst ip op ctrl rest out out' :
  placed → token_ok (Match off n) → encode1 (Match off n) = ctrl :: rest →
  has src (ip - sbase) rest → in_data ≤ ip → ip + size rest ≤ in_data + in_len →
  written dst op out → repeat_back (Z.to_nat n) off out = Some out' →
  op + n ≤ out_data + out_len → out_data + out_len ≤ dbase + size dst →
  32 ≤ ctrl ∧
  ∃ dst', back_reference src sbase in_data in_len dbase out_data out_len dst ip op ctrl
          = Some (inr (dst', ip + size rest, op + n)) ∧
          length dst' = length dst ∧ written dst' (op + n) out'.
Proof.
  intros Hp [Hoff Hn] He Hs Hip Hie Hw Hr Hop Hd. assert (0 ≤ off / 256 < 32) as Hhi by dlia.
  unfold back_reference. rewrite in_end_eq by done. simpl in He. case_if_in He; simplify_eq.
  - apply has_cons in Hs as [Hg _]. simpl in Hie. split; [lia|].
    destruct (ctrl_fields (off / 256) (n - 2)) as [-> ->]; [lia|lia|].
    rewrite Z.shiftl_mul_pow2 by lia. change (2 ^ 8) with 256.
    case_if; [lia|]. case_if; [lia|]. by apply back_tail_ok with out.
  - apply has_cons in Hs as [Hg Hs]. apply has_cons in Hs as [Hg' _]. simpl in Hie. split; [lia|].
    change 224 with (7 * 32). destruct (ctrl_fields (off / 256) 7) as [-> ->]; [lia|lia|].
    rewrite Z.shiftl_mul_pow2 by lia. change (2 ^ 8) with 256. change (7 =? 7) with true.
    case_if; [lia|]. unfold get. rewrite Hg. cbn [mbind option_bind]. case_if; [lia|].
    replace (7 + (n - 9)) with (n - 2) by lia.
    destruct (back_tail_ok off n dst (ip + 1) op out out') as (dst' & -> & Hd'); try done.
    + by replace (ip + 1 - sbase) with (ip - sbase + 1) by lia.
    + exists dst'. split; [|done]. do 4 f_equal. simpl. lia.
Qed.

Lemma token_decoded t dst ip op ctrl rest out out' :
  placed → token_ok t → encode1 t = ctrl :: rest →
  has src (ip - sbase) rest → in_data ≤ ip → ip + size rest ≤ in_data + in_len →
  written dst op out → expand1 out t = Some out' → size out' ≤ out_len →
  out_data + out_len ≤ dbase + size dst →
  ∃ dst', (if ctrl <? Z.shiftl 1 5
           then literal_run src sbase in_data in_len dbase out_data out_len dst ip op ctrl
           else back_reference src sbase in_data in_len dbase out_data out_len dst ip op ctrl)
          = Some (inr (dst', ip + size rest, out_data + size out')) ∧
          length dst' = length dst ∧ written dst' (out_data + size out') out'.
Proof.
  intros Hp Ht He Hs Hip Hie Hw Hx Ho Hd. pose proof Hw as (_ & Eop & _).
  change (Z.shiftl 1 5) with 32. destruct t as [l|off n].
  - simpl in He, Hx. simplify_eq. destruct Ht as [Hl HB]. rewrite length_app in *. case_if; [|lia].
    destruct (literal_run_ok rest dst ip (out_data + size out) out) as (dst' & -> & Hl' & Hw');
      try done; [lia|]. exists dst'.
    by replace (out_data + Z.of_nat (length out + length rest))
      with (out_data + size out + size rest) by lia.
  - pose proof (repeat_back_size _ _ _ _ Hx) as Hsz. pose proof Ht as [_ Hn].
    destruct (back_reference_ok off n dst ip op ctrl rest out out') as (Hc & dst' & E & Hd');
      try done; [lia|]. case_if; [lia|]. exists dst'.
    by replace (out_data + size out') with (op + n) by lia.
Qed.

Lemma decompress_loop_ok ts fuel dst ip op out final :
  placed → ts ≠ [] → Forall token_ok ts → has src (ip - sbase) (encode ts) →
  in_data ≤ ip → ip + size (encode ts) = in_data + in_len →
  written dst op out → expand ts out = Some final → size final ≤ out_len →
  out_data + out_len ≤ dbase + size dst → (length ts ≤ fuel)%nat →
  ∃ dst', decompress_loop src sbase in_data in_len dbase out_data out_len fuel dst ip op
          = Some (dst', None, size final) ∧
          length dst' = length dst ∧ written dst' (out_data + size final) final.
Proof.
  intros Hp. revert fuel dst ip op out.
  induction ts as [|t ts IH]; intros fuel dst ip op out Hne Ht Hs Hip Hie Hw Hx Hf Hd Hfuel; [done|].
  apply Forall_cons in Ht as [Ht Hts]. cbn [expand] in Hx.
  destruct (expand1 out t) as [out1|] eqn:E1; [|done]. cbn [mbind option_bind] in Hx.
  change (encode (t :: ts)) with (encode1 t ++ encode ts) in *.
  pose proof (encode1_size t Ht) as He2. pose proof (expand_grows _ _ _ Hx) as Hgr.
  destruct (encode1 t) as [|ctrl rest] eqn:Ee; [simpl in He2; lia|].
  rewrite <- app_comm_cons in Hs. apply has_cons in Hs as [Hg Hs].
  apply has_app in Hs as [Hs1 Hs2]. simpl in Hie. rewrite length_app in Hie.
  destruct fuel as [|fuel]; [simpl in Hfuel; lia|]. cbn [decompress_loop].
  unfold get at 1. rewrite Hg. cbn [mbind option_bind].
  destruct (token_decoded t dst (ip + 1) op ctrl rest out out1) as (d1 & -> & Hl1 & Hw1);
    try done; try lia; [by replace (ip + 1 - sbase) with (ip - sbase + 1) by lia|].
  cbn [mbind option_bind]. rewrite in_end_eq by done. destruct ts as [|t' ts].
  - cbn [expand] in Hx. simplify_eq. simpl in Hie. case_if; [lia|]. exists d1.
    pose proof Hp as (? & ? & ? & ? & ? & ? & ? & ? & ?).
    split; [|done]. do 2 f_equal. fits. lia.
  - assert (2 ≤ size (encode (t' :: ts))) as He3.
    { change (encode (t' :: ts)) with (encode1 t' ++ encode ts). rewrite length_app.
      apply Forall_cons in Hts as [Ht' _]. apply encode1_size in Ht'. lia. }
    case_if; [|lia]. rewrite <- Hl1. apply IH with out1; try done; try lia.
    + by replace (ip + 1 + size rest - sbase) with (ip - sbase + 1 + size rest) by lia.
    + simpl in Hfuel |- *. lia.
Qed.

End Decode.

End LzfSpec.
