(* ===== verification/LzfEncode.v ===== *)
(** * The LZF compressor emits tokens that expand to its input

    Whatever the hash table points to, a match that the compressor takes is one: the bytes
    that it emits are the encoding of tokens of which the expansion is the input so far. *)

From stdpp Require Import base list numbers option.
From S2P Require Import Prelude CString Lzf LzfSpec.
Import CString Lzf LzfSpec.

Module LzfEncode.

Section Encode.

Context (HLOG : Z) (cfg : config).
Context (src : list Z) (sbase in_data in_len dbase out_data out_len : Z) (data : list Z).

(** The input is [data], and the buffers are in the address space; a pointer that precedes
    the input by less than the greatest offset does not wrap around. *)

Record setting : Prop := {
  s_hlog : 1 ≤ HLOG ≤ 13;
  s_data : has src (in_data - sbase) data;
  s_len : size data = in_len;
  s_byte : Forall byte data;
  s_two : 2 ≤ in_len;
  s_low : 2 ^ HLOG ≤ in_data;
  s_high : in_data + in_len < 2 ^ 32;
  s_sbase : 0 ≤ sbase ≤ in_data;
  s_out : 0 ≤ dbase ≤ out_data;
  s_olen : 0 < out_len;
  s_ohigh : out_data + out_len + 32 < 2 ^ 32
}.

Context (HS : setting).

Definition pointer (p : Z) : Prop := 0 ≤ p < 2 ^ 32.

(** The table: pointers, of any kind. *)

Definition table (htab : list Z) : Prop := size htab = HSIZE HLOG ∧ Forall pointer htab.

Definition datum (p : Z) : Z := data !!! Z.to_nat (p - in_data).

Implicit Types (dst htab : list Z) (ip op ref hval lit len off k n : Z).

Lemma in_end_S : in_end in_data in_len = in_data + in_len.
Proof. destruct HS. unfold in_end. fits. done. Qed.

Lemma in_end2_S : u32 (in_end in_data in_len - 2) = in_data + in_len - 2.
Proof. rewrite in_end_S. destruct HS. fits. done. Qed.

Lemma out_end_S : out_end out_data out_len = out_data + out_len.
Proof. destruct HS. unfold out_end. fits. done. Qed.

Lemma data_at p : in_data ≤ p < in_data + in_len → data !! Z.to_nat (p - in_data) = Some (datum p).
Proof. destruct HS. intros Hp. apply list_lookup_lookup_total_lt. lia. Qed.

Lemma get_S p : in_data ≤ p < in_data + in_len → get src sbase p = Some (datum p).
Proof.
  intros Hp. unfold get. destruct HS.
  rewrite <- (s_data0 _ _ (data_at p Hp)). f_equal. lia.
Qed.

Lemma at_byte p : in_data ≤ p < in_data + in_len → byte (datum p).
Proof. intros Hp. destruct HS. eapply Forall_lookup_1; [done|by apply data_at]. Qed.

(** ** The hash table *)

Lemma HSIZE_pow : HSIZE HLOG = 2 ^ HLOG.
Proof. destruct HS. unfold HSIZE. rewrite Z.shiftl_mul_pow2 by lia. lia. Qed.

Lemma IDX_range h : 0 ≤ IDX HLOG cfg h < HSIZE HLOG.
Proof.
  unfold IDX. rewrite HSIZE_pow. destruct HS.
  replace (2 ^ HLOG - 1) with (Z.ones HLOG) by (rewrite Z.ones_equiv; lia).
  rewrite Z.land_ones by lia. apply Z.mod_pos_bound. lia.
Qed.

Lemma FRST_S p : in_data ≤ p → p + 1 < in_data + in_len → ∃ h, FRST src sbase p = Some h.
Proof.
  intros. unfold FRST. rewrite get_S by lia. cbn [mbind option_bind]. rewrite get_S by lia.
  eauto.
Qed.

Lemma NEXT_S h p : in_data ≤ p → p + 2 < in_data + in_len → ∃ h', NEXT src sbase h p = Some h'.
Proof. intros. unfold NEXT. rewrite get_S by lia. eauto. Qed.

Lemma table_set htab h ip : table htab → in_data ≤ ip < in_data + in_len →
  ∃ htab', arr_set htab (IDX HLOG cfg h) ip = Some htab' ∧ table htab'.
Proof.
  intros [Ht Hp] Hip. pose proof (IDX_range h). rewrite arr_set_lt by lia. eexists. split; [done|].
  split; [by rewrite length_insert|]. apply Forall_insert; [done|]. destruct HS. unfold pointer. lia.
Qed.

Lemma table_get htab h : table htab →
  ∃ ref, arr_get htab (IDX HLOG cfg h) = Some ref ∧ pointer ref.
Proof.
  intros [Ht Hp]. pose proof (IDX_range h). rewrite arr_get_lt by lia. eexists. split; [done|].
  eapply Forall_lookup_1; [done|]. apply list_lookup_lookup_total_lt. lia.
Qed.

Lemma hash_S htab h ip : table htab → in_data ≤ ip → ip + 2 < in_data + in_len →
  ∃ htab' h', hash HLOG cfg src sbase htab h ip = Some (htab', h') ∧ table htab'.
Proof.
  intros Ht ? ?. unfold hash. destruct (NEXT_S h ip) as [h' ->]; [lia|lia|].
  cbn [mbind option_bind]. destruct (table_set htab h' ip) as (t' & -> & ?); [done|lia|].
  cbn [mbind option_bind]. eauto.
Qed.

Lemma rehash_loop_S m htab h ip :
  table htab → in_data ≤ ip → ip + Z.of_nat m + 1 < in_data + in_len →
  ∃ htab' h', rehash_loop HLOG cfg src sbase m htab h ip = Some (htab', h') ∧ table htab'.
Proof.
  revert htab h ip. induction m as [|m IH]; intros htab h ip Ht ? ?; [by eauto|].
  cbn [rehash_loop]. destruct (hash_S htab h ip) as (t1 & h1 & -> & ?); [done|lia|lia|].
  cbn [mbind option_bind]. apply IH; [done|lia|lia].
Qed.

Lemma rehash_S htab h ip len :
  table htab → 1 ≤ len → in_data + len + 1 ≤ ip → ip + 2 < in_data + in_len →
  ∃ htab' h', rehash HLOG cfg src sbase htab h ip len = Some (htab', h') ∧ table htab'.
Proof.
  intros Ht Hl Hip Hie. unfold rehash. generalize cfg at 1. intros [| |].
  - apply rehash_loop_S; [done|lia|lia].
  - destruct (FRST_S (ip - 2)) as [h1 ->]; [lia|lia|]. cbn [mbind option_bind].
    destruct (hash_S htab h1 (ip - 2)) as (t1 & h2 & -> & ?); [done|lia|lia|].
    cbn [mbind option_bind]. apply hash_S; [done|lia|lia].
  - destruct (FRST_S (ip - 1)) as [h1 ->]; [lia|lia|]. cbn [mbind option_bind].
    apply hash_S; [done|lia|lia].
Qed.

(** ** Matches *)

(** The first [n] bytes at the two pointers are the same. *)

Definition same ref ip n : Prop := ∀ j, 0 ≤ j < n → datum (ref + j) = datum (ip + j).

Lemma same_step ref ip n : same ref ip n → datum (ref + n) = datum (ip + n) → same ref ip (n + 1).
Proof. intros H Hn j Hj. destruct (decide (j = n)) as [->|]; [done|]. apply H. lia. Qed.

Lemma same_le ref ip n n' : same ref ip n → n' ≤ n → same ref ip n'.
Proof. intros H Hn j Hj. apply H. lia. Qed.

(** The test of the offset: with it, the pointer from the table is into the input. *)

Lemma offset_S ip ref :
  in_data ≤ ip < in_data + in_len → pointer ref → offset ip ref < MAX_OFF HLOG →
  offset ip ref = ip - ref - 1 ∧ 0 ≤ ip - ref - 1 < 2 ^ HLOG.
Proof.
  unfold MAX_OFF, pointer. fold (HSIZE HLOG). rewrite HSIZE_pow. destruct HS. intros Hip Hr.
  assert (2 ^ HLOG ≤ 2 ^ 13) as Hlog by (apply Z.pow_le_mono_r; lia).
  unfold offset, s32. generalize dependent (2 ^ HLOG). intros z Hz Hz'.
  change (2 ^ 13) with 8192 in Hz'. dlia.
Qed.

Lemma pair_eq a b c d : byte b → byte d →
  Z.lor (Z.shiftl a 8) b = Z.lor (Z.shiftl c 8) d → a = c ∧ b = d.
Proof.
  assert (∀ x y, byte y → Z.lor (Z.shiftl x 8) y = x * 256 + y) as Hl.
  { intros x y Hy. pose proof (Z.add_lor_land (Z.shiftl x 8) y) as Hxy.
    assert (Z.land (Z.shiftl x 8) y = 0) as E.
    - apply Z.bits_inj'. intros i Hi. rewrite Z.land_spec, Z.bits_0, Z.shiftl_spec by done.
      destruct (decide (i < 8)); [by rewrite Z.testbit_neg_r by lia|].
      apply andb_false_intro2. apply Z.bits_above_log2; [apply Hy|].
      destruct (decide (y = 0)) as [->|]; [simpl; lia|].
      apply Z.log2_lt_pow2; [destruct Hy; lia|]. destruct Hy.
      apply Z.lt_le_trans with (2 ^ 8); [simpl; lia|]. apply Z.pow_le_mono_r; lia.
    - rewrite E, (Z.shiftl_mul_pow2 _ 8) in Hxy by lia. rewrite Z.shiftl_mul_pow2 by lia. lia. }
  intros Hb Hd. rewrite !Hl by done. unfold byte in *. lia.
Qed.

Lemma matches_S ip ref :
  in_data ≤ ip → ip + 2 < in_data + in_len → pointer ref →
  ∃ m, matches HLOG src sbase in_data ip ref = Some m ∧
       (m = true → offset ip ref = ip - ref - 1 ∧ 0 ≤ ip - ref - 1 < 2 ^ HLOG ∧
                   in_data ≤ ref ∧ same ref ip 3).
Proof.
  intros Hip Hie Hr. unfold matches. case_if; [|exists false; by split]. pose proof (offset_S ip ref) as Ho.
  destruct Ho as [Ho Hoff]; [lia|done|done|]. rewrite (get_S (ref + 2)) by lia.
  rewrite (get_S (ip + 2)) by lia. cbn [mbind option_bind]. case_if; [|exists false; by split].
  rewrite !get_S by lia. cbn [mbind option_bind]. eexists. split; [done|]. intros Hm%Z.eqb_eq.
  apply pair_eq in Hm as [Hm1 Hm0]; [|apply at_byte; lia|apply at_byte; lia].
  split_and!; try done; try lia. intros j Hj.
  assert (j = 0 ∨ j = 1 ∨ j = 2) as [->|[->| ->]] by lia; by rewrite ?Z.add_0_r.
Qed.

Lemma extend_unrolled_S m ref ip len :
  in_data ≤ ref < ip → ip + len + Z.of_nat m < in_data + in_len → 0 ≤ len →
  same ref ip (len + 1) →
  ∃ stop len', extend_unrolled src sbase m ref ip len = Some (stop, len') ∧
    len ≤ len' ≤ len + Z.of_nat m ∧
    if (stop : bool) then len < len' ∧ same ref ip len'
    else len' = len + Z.of_nat m ∧ same ref ip (len' + 1).
Proof.
  revert len. induction m as [|m IH]; intros len Hr Hip Hl Hs; cbn [extend_unrolled].
  - exists false, len. split_and!; try done; lia.
  - rewrite !get_S by lia. cbn [mbind option_bind]. destruct (Z.eqb_spec (datum (ref + (len + 1)))
      (datum (ip + (len + 1)))) as [E|E]; cbn [negb].
    + destruct (IH (len + 1)) as (stop & len' & -> & Hl' & Hst); [lia|lia|lia|by apply same_step|].
      exists stop, len'. split; [done|]. split; [lia|]. destruct stop; split; try apply Hst; lia.
    + exists true, (len + 1). split_and!; try done; lia.
Qed.

Lemma extend_loop_S fuel ref ip len maxlen :
  in_data ≤ ref < ip → ip + len + 1 ≤ in_data + in_len → ip + maxlen ≤ in_data + in_len →
  0 ≤ len → same ref ip (len + 1) → (Z.to_nat (maxlen - len) < fuel)%nat →
  ∃ len', extend_loop src sbase fuel ref ip len maxlen = Some len' ∧
    len < len' ≤ Z.max (len + 1) maxlen ∧ same ref ip len'.
Proof.
  revert len. induction fuel as [|fuel IH]; intros len Hr Hip Hm Hl Hs Hf; [lia|].
  cbn [extend_loop]. case_if; [|exists (len + 1); split_and!; try done; lia].
  rewrite !get_S by lia. cbn [mbind option_bind].
  case_if; [|exists (len + 1); split_and!; try done; lia].
  destruct (IH (len + 1)) as (len' & -> & Hl' & Hs'); try lia; [by apply same_step|].
  exists len'. split_and!; try done; lia.
Qed.

Lemma match_len_S ref ip :
  in_data ≤ ref < ip → ip + 2 < in_data + in_len → same ref ip 3 →
  ∃ len, match_len src sbase in_data in_len ref ip = Some len ∧
         3 ≤ len ≤ 264 ∧ ip + len ≤ in_data + in_len ∧ same ref ip len.
Proof.
  intros Hr Hip Hs. unfold match_len. rewrite in_end_S. change MAX_REF with 264.
  assert (u32 (in_data + in_len - ip - 2) = in_data + in_len - ip - 2) as ->
    by (destruct HS; by fits).
  set (maxlen := if _ <? _ then _ else _).
  assert (1 ≤ maxlen ≤ 264 ∧ ip + maxlen + 2 ≤ in_data + in_len) as [Hm1 Hm2]
    by (unfold maxlen; case_if; lia).
  case_if.
  - destruct (extend_unrolled_S 16 ref ip 2) as (stop & len & -> & Hl & Hst); [lia|lia|lia|done|].
    cbn [mbind option_bind]. destruct stop.
    + exists len. split_and!; try done; try lia. apply Hst.
    + destruct Hst as [-> Hst].
      destruct (extend_loop_S (Z.to_nat maxlen + 1) ref ip (2 + Z.of_nat 16) maxlen)
        as (len' & -> & Hl' & Hs'); try done; try lia.
      exists len'. split_and!; try done; lia.
  - cbn [mbind option_bind].
    destruct (extend_loop_S (Z.to_nat maxlen + 1) ref ip 2 maxlen)
      as (len' & -> & Hl' & Hs'); try done; try lia.
    exists len'. split_and!; try done; lia.
Qed.

(** ** Output *)

Definition prefix k : list Z := take (Z.to_nat k) data.

Definition slice k n : list Z := take (Z.to_nat n) (drop (Z.to_nat k) data).

Lemma prefix_slice k n : 0 ≤ k → 0 ≤ n → prefix k ++ slice k n = prefix (k + n).
Proof.
  intros. unfold prefix, slice. rewrite Z2Nat.inj_add by lia. by rewrite take_take_drop.
Qed.

Lemma prefix_size k : 0 ≤ k ≤ in_len → size (prefix k) = k.
Proof. destruct HS. intros. unfold prefix. rewrite length_take. lia. Qed.

Lemma slice_size k n : 0 ≤ k → 0 ≤ n → k + n ≤ in_len → size (slice k n) = n.
Proof. destruct HS. intros. unfold slice. rewrite length_take, length_drop. lia. Qed.

Lemma slice_bytes k n : Forall byte (slice k n).
Proof. destruct HS. by apply Forall_take, Forall_drop. Qed.

Lemma slice_snoc k n : 0 ≤ k → 0 ≤ n → k + n < in_len →
  slice k (n + 1) = slice k n ++ [datum (in_data + (k + n))].
Proof.
  intros Hk Hn Hl. unfold slice. replace (Z.to_nat (n + 1)) with (S (Z.to_nat n)) by lia.
  apply take_S_r. rewrite lookup_drop.
  rewrite <- (data_at (in_data + (k + n))) by lia. f_equal. lia.
Qed.

Lemma slice_0 k : slice k 0 = [].
Proof. done. Qed.

Lemma prefix_snoc k : 0 ≤ k < in_len → prefix (k + 1) = prefix k ++ [datum (in_data + k)].
Proof.
  intros Hk. rewrite <- prefix_slice by lia. f_equal.
  change 1 with (0 + 1). rewrite slice_snoc by lia. by rewrite slice_0, Z.add_0_r.
Qed.

(** A reference to bytes that are the same as the next ones stands for these. *)

Lemma repeat_back_data m off k :
  0 ≤ off < k → k + Z.of_nat m ≤ in_len →
  same (in_data + k - off - 1) (in_data + k) (Z.of_nat m) →
  repeat_back m off (prefix k) = Some (prefix (k + Z.of_nat m)).
Proof.
  revert k. induction m as [|m IH]; intros k Ho Hk Hs; [by rewrite Z.add_0_r|].
  cbn [repeat_back]. rewrite prefix_size by lia.
  assert (arr_get (prefix k) (k - off - 1) = Some (datum (in_data + k))) as ->.
  { apply arr_get_Some. split; [lia|]. unfold prefix. rewrite lookup_take_lt by lia.
    specialize (Hs 0). rewrite !Z.add_0_r in Hs. rewrite <- Hs by lia.
    rewrite <- (data_at (in_data + k - off - 1)) by lia. f_equal. lia. }
  cbn [mbind option_bind]. rewrite <- prefix_snoc by lia. rewrite IH.
  - do 2 f_equal. lia.
  - lia.
  - lia.
  - intros j Hj. specialize (Hs (j + 1) ltac:(lia)).
    replace (in_data + (k + 1) - off - 1 + j) with (in_data + k - off - 1 + (j + 1)) by lia.
    by replace (in_data + (k + 1) + j) with (in_data + k + (j + 1)) by lia.
Qed.

(** What the output holds: the encoding of [ts], then a run of [lit] bytes of which the
    length is not written, when [k] bytes of the input are consumed. *)

Record emitted dst op lit k (ts : list token) : Prop := {
  e_ok : Forall token_ok ts;
  e_expand : expand ts [] = Some (prefix (k - lit));
  e_has : has dst (out_data - dbase) (encode ts);
  e_lits : has dst (out_data - dbase + size (encode ts) + 1) (slice (k - lit) lit);
  e_op : op = out_data + size (encode ts) + 1 + lit;
  e_lit : 0 ≤ lit ≤ 32;
  e_k : lit ≤ k ≤ in_len;
  e_size : 32 * size (encode ts) ≤ 33 * (k - lit)
}.

(** The same, with no run open. *)

Record closed dst op k (ts : list token) : Prop := {
  c_ok : Forall token_ok ts;
  c_expand : expand ts [] = Some (prefix k);
  c_has : has dst (out_data - dbase) (encode ts);
  c_op : op = out_data + size (encode ts);
  c_k : 0 ≤ k ≤ in_len;
  c_size : 32 * size (encode ts) ≤ 33 * k + 32
}.

Definition room dst : Prop := out_data + out_len ≤ dbase + size dst.

Lemma start_run dst op k ts :
  closed dst op k ts → 32 * size (encode ts) ≤ 33 * k → emitted dst (op + 1) 0 k ts.
Proof.
  intros [] Hs. by split; rewrite ?Z.sub_0_r; try done; lia.
Qed.

Lemma emit_byte dst op lit k ts :
  room dst → emitted dst op lit k ts → lit < 32 → k < in_len → op < out_data + out_len →
  ∃ dst', put dbase dst op (datum (in_data + k)) = Some dst' ∧ length dst' = length dst ∧
          emitted dst' (op + 1) (lit + 1) (k + 1) ts.
Proof.
  intros Hr [] Hlit Hk Hop. pose proof (s_out HS).
  assert (size (slice (k - lit) lit) = lit) as Hsz by (apply slice_size; lia).
  unfold room in Hr. destruct (put_has dbase dst op (datum (in_data + k))
    (out_data - dbase + size (encode ts) + 1) (slice (k - lit) lit)) as (d & E & Hl & Hh & Hs);
    [lia|done|lia|].
  exists d. split; [done|]. split; [done|].
  split; replace (k + 1 - (lit + 1)) with (k - lit) by lia; try done; try lia.
  - apply has_same with dst; [done|]. intros q Hq. apply Hs. lia.
  - rewrite slice_snoc by lia. rewrite u8_byte in Hh by (apply at_byte; lia).
    by replace (k - lit + lit) with k by lia.
Qed.

(** The length of the run is written: the run is a token. *)

Lemma flush dst op lit k ts :
  room dst → emitted dst op lit k ts → 1 ≤ lit → op ≤ out_data + out_len →
  ∃ dst', put dbase dst (op - lit - 1) (lit - 1) = Some dst' ∧ length dst' = length dst ∧
          closed dst' op k (ts ++ [Literal (slice (k - lit) lit)]).
Proof.
  intros Hr [] Hlit Hop. pose proof (s_out HS). unfold room in Hr.
  assert (size (slice (k - lit) lit) = lit) as Hsz by (apply slice_size; lia).
  destruct (put_has dbase dst (op - lit - 1) (lit - 1) (out_data - dbase) (encode ts))
    as (d & E & Hl & Hh & Hs); [lia|done|lia|].
  assert (encode (ts ++ [Literal (slice (k - lit) lit)])
          = (encode ts ++ [u8 (lit - 1)]) ++ slice (k - lit) lit) as Hen.
  { rewrite encode_app, u8_byte by (unfold byte; lia). unfold encode at 2. simpl.
    by rewrite app_nil_r, Hsz, <- app_assoc. }
  assert (size (encode (ts ++ [Literal (slice (k - lit) lit)])) = size (encode ts) + 1 + lit) as Hes.
  { rewrite Hen, !length_app. simpl. lia. }
  exists d. split; [done|]. split; [done|]. split; try lia.
  - apply Forall_app. split; [done|]. apply Forall_singleton. split; [lia|apply slice_bytes].
  - rewrite expand_app, e_expand0. cbn. rewrite prefix_slice by lia. by rewrite Z.sub_add.
  - rewrite Hen, has_app. split; [done|]. rewrite length_app. simpl.
    replace (out_data - dbase + Z.of_nat (length (encode ts) + 1))
      with (out_data - dbase + size (encode ts) + 1) by lia.
    apply has_same with dst; [done|]. intros q Hq. apply Hs. lia.
Qed.

Lemma put_literal_S dst op lit k ts :
  room dst → emitted dst op lit k ts → lit < 32 → k < in_len → op < out_data + out_len →
  ∃ dst' op' lit' ts',
    put_literal src sbase dbase dst op lit (in_data + k) = Some (dst', op', lit') ∧
    length dst' = length dst ∧ emitted dst' op' lit' (k + 1) ts' ∧ lit' < 32 ∧
    (op' = op + 1 ∧ lit' = lit + 1 ∨ op' = op + 2 ∧ lit' = 0 ∧ lit = 31).
Proof.
  intros Hr He Hlit Hk Hop. unfold put_literal. pose proof (e_lit _ _ _ _ _ He).
  rewrite get_S by (destruct HS, He; lia). cbn [mbind option_bind].
  destruct (emit_byte dst op lit k ts) as (d1 & -> & Hl1 & He1); try done.
  cbn [mbind option_bind]. change MAX_LIT with 32. case_if.
  - destruct (flush d1 (op + 1) (lit + 1) (k + 1) ts) as (d2 & -> & Hl2 & Hc2); try done; try lia.
    { unfold room. by rewrite Hl1. }
    cbn [mbind option_bind]. exists d2, (op + 1 + 1), 0, (ts ++ [Literal (slice (k + 1 - (lit + 1)) (lit + 1))]).
    split_and!; try done; [lia| |lia].
    apply start_run; [done|]. destruct He1, Hc2. lia.
  - exists d1, (op + 1), (lit + 1), ts. split_and!; try done; try lia.
Qed.

Lemma stop_run_S dst op lit k ts :
  room dst → emitted dst op lit k ts → op ≤ out_data + out_len →
  ∃ dst' op' ts', stop_run dbase dst op lit = Some (dst', op') ∧ length dst' = length dst ∧
    closed dst' op' k ts' ∧ op' = (if lit =? 0 then op - 1 else op) ∧
    (lit = 0 → 32 * size (encode ts') ≤ 33 * k).
Proof.
  intros Hr He Hop. unfold stop_run. pose proof (s_out HS). case_if.
  - subst lit. unfold room in Hr. destruct He. rewrite !Z.sub_0_r in *.
    destruct (put_ok dbase dst (op - 1) (0 - 1)) as (d & -> & Hl & _ & Hs); [lia|].
    exists d, (op - 1), ts. split; [done|]. split; [done|]. split; [|lia].
    split; try done; try lia. apply has_same with dst; [done|]. intros q Hq. apply Hs. lia.
  - pose proof (e_lit _ _ _ _ _ He).
    destruct (flush dst op lit k ts) as (d & -> & Hl & Hc); try done; try lia.
    cbn [mbind option_bind]. exists d, op, (ts ++ [Literal (slice (k - lit) lit)]).
    split_and!; try done; lia.
Qed.

Lemma puts2 dst p o l v w :
  o + size l = p - dbase → has dst o l → dbase ≤ p → p + 2 ≤ dbase + size dst →
  ∃ d1 d2, put dbase dst p v = Some d1 ∧ put dbase d1 (p + 1) w = Some d2 ∧
           length d2 = length dst ∧ has d2 o (l ++ [u8 v; u8 w]).
Proof.
  intros Ho Hh Hp Hd. destruct (put_has dbase dst p v o l) as (d1 & E1 & Hl1 & Hh1 & _);
    [lia|done|lia|].
  destruct (put_has dbase d1 (p + 1) w o (l ++ [u8 v])) as (d2 & E2 & Hl2 & Hh2 & _);
    [lia|done|rewrite length_app; simpl; lia|].
  exists d1, d2. rewrite <- app_assoc in Hh2. split_and!; try done. congruence.
Qed.

(** The bytes of a reference. *)

Lemma put_match_bytes dst op off n o l :
  0 ≤ off < 8192 → 3 ≤ n ≤ 264 → o + size l = op - dbase → has dst o l →
  dbase ≤ op → op + 3 ≤ dbase + size dst →
  ∃ dst', put_match dbase dst op off (n - 2) = Some (dst', op + size (encode1 (Match off n))) ∧
          length dst' = length dst ∧ has dst' o (l ++ encode1 (Match off n)).
Proof.
  intros Hoff Hn Ho Hh Hop Hd. unfold put_match. cbn [encode1].
  rewrite Z.shiftr_div_pow2, Z.shiftl_mul_pow2 by lia.
  change (2 ^ 8) with 256. change (2 ^ 5) with 32. change (Z.shiftl 7 5) with 224.
  assert (u8 off = off mod 256) as Hu by done.
  destruct (Z.ltb_spec n 9); (case_if; [|try lia]); try lia.
  - destruct (puts2 dst op o l (off / 256 + (n - 2) * 32) off) as (d1 & d2 & -> & E2 & Hl & Hh2);
      [lia|done|lia|lia|].
    cbn [mbind option_bind]. rewrite E2. cbn [mbind option_bind]. exists d2.
    rewrite Hu, u8_byte in Hh2 by (unfold byte; dlia).
    split; [|done]. do 2 f_equal. simpl. lia.
  - destruct (puts2 dst op o l (off / 256 + 224) (n - 2 - 7)) as (d1 & d2 & -> & E2 & Hl & Hh2);
      [lia|done|lia|lia|].
    cbn [mbind option_bind]. rewrite E2. cbn [mbind option_bind].
    destruct (put_has dbase d2 (op + 2) off o (l ++ [u8 (off / 256 + 224); u8 (n - 2 - 7)]))
      as (d3 & -> & Hl3 & Hh3 & _); [lia|done|rewrite length_app; simpl; lia|].
    cbn [mbind option_bind]. exists d3. rewrite Hu, !u8_byte, <- app_assoc in Hh3 by (unfold byte; dlia).
    replace (n - 9) with (n - 2 - 7) by lia.
    split_and!; [do 2 f_equal; simpl; lia|congruence|done].
Qed.

Lemma put_match_S dst op k ts off n :
  room dst → closed dst op k ts → 0 ≤ off < k → off < 8192 → 3 ≤ n ≤ 264 → k + n ≤ in_len →
  same (in_data + k - off - 1) (in_data + k) n → op + 3 ≤ out_data + out_len →
  ∃ dst' op' ts', put_match dbase dst op off (n - 2) = Some (dst', op') ∧
    length dst' = length dst ∧ emitted dst' (op' + 1) 0 (k + n) ts' ∧ op' ≤ op + 3.
Proof.
  intros Hr [] Hoff Hoff' Hn Hk Hs Hop. pose proof (s_out HS). unfold room in Hr.
  destruct (put_match_bytes dst op off n (out_data - dbase) (encode ts)) as (d & -> & Hl & Hh);
    try done; try lia.
  assert (encode (ts ++ [Match off n]) = encode ts ++ encode1 (Match off n)) as Hen.
  { rewrite encode_app. unfold encode at 2. cbn. by rewrite app_nil_r. }
  assert (2 ≤ size (encode1 (Match off n)) ≤ (if n <? 9 then 2 else 3)) as Hes.
  { simpl. case_if; simpl; lia. }
  exists d, (op + size (encode1 (Match off n))), (ts ++ [Match off n]).
  split; [done|]. split; [done|]. split; [|case_if_in Hes; lia].
  apply start_run; [split|]; rewrite ?Hen, ?length_app; try done; try lia.
  - apply Forall_app. split; [done|]. apply Forall_singleton. split; lia.
  - rewrite expand_app, c_expand0. cbn.
    rewrite repeat_back_data; rewrite ?Z2Nat.id by lia; try done; lia.
  - case_if_in Hes; lia.
  - case_if_in Hes; lia.
Qed.

(** ** The loops *)

(** The variables after [k] bytes of the input. *)

Record consumed (L : nat) (v : lzf_vars) k : Prop := {
  v_room : room (dst v);
  v_len : length (dst v) = L;
  v_out : ∃ ts, emitted (dst v) (op v) (lit v) k ts;
  v_table : table (htab v);
  v_ip : ip v = in_data + k;
  v_lit : lit v < 32;
  v_op : op v ≤ out_data + out_len + 1
}.

(** The output buffer is so short that the compressor can give up. *)

Definition tight : Prop := 32 * out_len < 33 * in_len + 128.

Definition stepped (L : nat) k (v : lzf_vars) (f : flow) : Prop :=
  length (dst v) = L ∧ table (htab v) ∧
  match f with
  | Genhdr => tight
  | _ => ∃ k', k < k' ≤ in_len ∧ consumed L v k' ∧ (f = Break → in_len - 2 ≤ k')
  end.

Abbreviation Step := (step HLOG cfg src sbase in_data in_len dbase out_data out_len).
Abbreviation Step_literal := (step_literal src sbase dbase out_data out_len).
Abbreviation Step_match :=
  (step_match HLOG cfg src sbase in_data in_len dbase out_data out_len).

Lemma step_literal_S L v k :
  consumed L v k → k < in_len → ∃ v' f, Step_literal v = Some (v', f) ∧ stepped L k v' f.
Proof.
  intros [Hr HL [ts He] Ht Hip Hlit Hop] Hk. destruct v as [dst htab ip op lit hval].
  simpl in *. subst ip. unfold step_literal. rewrite out_end_S. case_if.
  - eexists _, _. split; [done|]. split; [done|]. split; [done|]. unfold tight.
    destruct He. lia.
  - destruct (put_literal_S dst op lit k ts) as (d & op' & lit' & ts' & -> & Hl & He' & Hlit' & Ho);
      try done; try lia.
    cbn [mbind option_bind]. eexists _, _. split; [done|]. split; [simpl; congruence|]. split; [done|].
    exists (k + 1). split; [lia|]. split; [|done]. split; simpl; try done; try lia; eauto.
    unfold room. by rewrite Hl.
Qed.

Lemma step_match_S L v k ref :
  consumed L v k → k + 2 < in_len → offset (ip v) ref = ip v - ref - 1 →
  0 ≤ ip v - ref - 1 < 2 ^ HLOG → in_data ≤ ref → same ref (ip v) 3 →
  ∃ v' f, Step_match v ref = Some (v', f) ∧ stepped L k v' f.
Proof.
  intros [Hr HL [ts He] Ht Hip Hlit Hop] Hk Hoff Ho Href Hs.
  destruct v as [dst htab ip op lit hval]. simpl in *. subst ip. pose proof HS as HS'.
  destruct HS'. assert (2 ^ HLOG ≤ 2 ^ 13) as Hlog by (apply Z.pow_le_mono_r; lia).
  change (2 ^ 13) with 8192 in Hlog.
  assert (0 ≤ op - 1) as Hop0 by (destruct He; lia).
  unfold step_match. rewrite out_end_S, in_end2_S, Hoff.
  set (op1 := if lit =? 0 then op - 1 else op).
  assert (op - 1 ≤ op1 ≤ op ∧ (lit = 0 → op1 = op - 1)) as [Hop1 Hop1'] by (unfold op1; case_if; lia).
  fits. destruct (_ && _) eqn:E.
  - eexists _, _. split; [done|]. split; [done|]. split; [done|]. bool_to_prop.
    unfold tight. destruct He. destruct (decide (lit = 0)); lia.
  - assert (op1 + 4 < out_data + out_len) as Hroom.
    { apply andb_false_iff in E as [E|E]; bool_to_prop; lia. }
    destruct (stop_run_S dst op lit k ts) as (d1 & opx & ts1 & -> & Hl1 & Hc & Eop & _); try done; [lia|].
    fold op1 in Eop. subst opx. cbn [mbind option_bind].
    destruct (match_len_S ref (in_data + k)) as (n & -> & Hn & Hkn & Hsn); [lia|lia|done|].
    cbn [mbind option_bind].
    destruct (put_match_S d1 op1 k ts1 (in_data + k - ref - 1) n)
      as (d2 & op2 & ts2 & -> & Hl2 & He2 & Hop2); try done; try lia.
    { unfold room. by rewrite Hl1. }
    { by replace (in_data + k - (in_data + k - ref - 1) - 1) with ref by lia. }
    cbn [mbind option_bind]. replace (in_data + k + 1 + (n - 2 + 1)) with (in_data + (k + n)) by lia.
    assert (∀ htab' hval', table htab' →
      consumed L (mk_vars d2 htab' (in_data + (k + n)) (op2 + 1) 0 hval') (k + n)) as Hcons.
    { intros. split; simpl; try done; try lia; [|by eauto]. unfold room. by rewrite Hl2, Hl1. }
    case_if.
    + eexists _, _. split; [done|]. split; [simpl; congruence|]. split; [done|]. exists (k + n). split; [lia|].
      split; [by apply Hcons|]. intros _. lia.
    + destruct (rehash_S htab hval (in_data + (k + n)) (n - 2)) as (ht' & h' & -> & Ht');
        [done|lia|lia|lia|].
      cbn [mbind option_bind]. eexists _, _. split; [done|]. split; [simpl; congruence|]. split; [done|].
      exists (k + n). split; [lia|]. split; [by apply Hcons|done].
Qed.

Lemma step_S L v k :
  consumed L v k → k + 2 < in_len → ∃ v' f, Step v = Some (v', f) ∧ stepped L k v' f.
Proof.
  intros [Hr HL [ts He] Ht Hip Hlit Hop] Hk. destruct v as [dst htab ip op lit hval].
  simpl in *. subst ip. unfold step. assert (0 ≤ k) by (destruct He; lia).
  destruct (NEXT_S hval (in_data + k)) as [h ->]; [lia|lia|]. cbn [mbind option_bind].
  destruct (table_get htab h) as (ref & -> & Href); [done|]. cbn [mbind option_bind].
  destruct (table_set htab h (in_data + k)) as (ht & -> & Ht'); [done|lia|]. cbn [mbind option_bind].
  destruct (matches_S (in_data + k) ref) as (m & -> & Hm); [lia|lia|done|]. cbn [mbind option_bind].
  assert (consumed L (mk_vars dst ht (in_data + k) op lit h) k) as Hc by (split; simpl; eauto).
  destruct m.
  - destruct Hm as (Ho & Hoff & Hr1 & Hs); [done|].
    by apply (step_match_S L (mk_vars dst ht (in_data + k) op lit h) k ref).
  - apply (step_literal_S L (mk_vars dst ht (in_data + k) op lit h)); [done|lia].
Qed.

Lemma compress_loop_S L fuel v k :
  consumed L v k → (Z.to_nat (in_len - k) < fuel)%nat →
  ∃ v' f, compress_loop HLOG cfg src sbase in_data in_len dbase out_data out_len fuel v
          = Some (v', f) ∧ length (dst v') = L ∧ table (htab v') ∧
          match f with
          | Genhdr => tight
          | _ => ∃ k', in_len - 2 ≤ k' ≤ in_len ∧ consumed L v' k'
          end.
Proof.
  revert v k. induction fuel as [|fuel IH]; intros v k Hv Hf; [lia|]. cbn [compress_loop].
  rewrite in_end2_S, (v_ip _ _ _ Hv). case_if.
  - destruct (step_S L v k) as (v' & f & -> & Hl & Ht & Hst); [done|lia|]. cbn [mbind option_bind].
    destruct f; [|by destruct Hst as (k' & ? & ? & ?); eauto 10 with lia|by eauto 10].
    destruct Hst as (k' & Hk' & Hv' & _). apply IH with k'; [done|lia].
  - exists v, Break. split; [done|]. split; [apply Hv|]. split; [apply Hv|]. exists k. split; [|done].
    destruct (v_out _ _ _ Hv) as [ts []]. lia.
Qed.

(** The bytes that are left: at most two, and the length of one more run. *)

Lemma tail_loop_S fuel dst op lit k ts :
  room dst → emitted dst op lit k ts → lit < 32 →
  op + (in_len - k) + (if 32 <=? lit + (in_len - k) then 1 else 0) ≤ out_data + out_len →
  in_len - k < 32 → (Z.to_nat (in_len - k) < fuel)%nat →
  ∃ dst' op' lit' ts',
    tail_loop src sbase in_data in_len dbase fuel dst op lit (in_data + k) = Some (dst', op', lit') ∧
    length dst' = length dst ∧ emitted dst' op' lit' in_len ts' ∧ op' ≤ out_data + out_len.
Proof.
  revert dst op lit k ts.
  induction fuel as [|fuel IH]; intros dst op lit k ts Hr He Hlit Hop Hk Hf; [lia|].
  cbn [tail_loop]. rewrite in_end_S. pose proof (e_k _ _ _ _ _ He). case_if.
  - destruct (put_literal_S dst op lit k ts) as (d & op' & lit' & ts' & -> & Hl & He' & Hlit' & Ho);
      try done; try lia. { case_if_in Hop; lia. }
    cbn [mbind option_bind]. rewrite <- Z.add_assoc, <- Hl. apply IH with ts'; try done; try lia.
    + unfold room. by rewrite Hl.
    + case_if_in Hop; case_if; lia.
  - replace in_len with k in * by lia. exists dst, op, lit, ts. split_and!; try done.
    case_if_in Hop; lia.
Qed.

Lemma closed_pos dst op ts : closed dst op in_len ts → ts ≠ [] ∧ out_data < op.
Proof.
  pose proof HS as []. intros []. destruct ts as [|t ts].
  - simpl in c_expand0. pose proof (prefix_size in_len). simplify_eq.
    replace (prefix _) with (@nil Z) in * by congruence. simpl in *. lia.
  - apply Forall_cons in c_ok0 as [Hok _]. apply encode1_size in Hok.
    change (encode (t :: ts)) with (encode1 t ++ encode ts) in c_op0.
    rewrite length_app in c_op0. split; [done|lia].
Qed.

(** What the compressor comes to: no room, or [cs] bytes of tokens. *)

Definition compressed (L : nat) (r : list Z * list Z * Z) : Prop :=
  let '(dst, htab, cs) := r in
  length dst = L ∧
  (cs = 0 ∧ tight ∨ 0 < cs ≤ out_len ∧ ∃ ts, closed dst (out_data + cs) in_len ts).

Lemma finish_S L v k :
  consumed L v k → in_len - 2 ≤ k ≤ in_len →
  ∃ r, finish src sbase in_data in_len dbase out_data out_len v = Some r ∧ compressed L r.
Proof.
  intros [Hr HL [ts He] Ht Hip Hlit Hop] Hk. destruct v as [dst htab ip op lit hval].
  cbn [Lzf.dst Lzf.htab Lzf.ip Lzf.op Lzf.lit] in *. subst ip. pose proof HS as []. unfold finish. rewrite out_end_S.
  assert (0 ≤ op) as Hop0 by (destruct He; lia). rewrite (u32_small (op + 3)) by lia.
  case_if.
  - eexists. split; [done|]. split; [done|]. left. split; [done|]. unfold tight. destruct He. lia.
  - destruct (tail_loop_S (S (Z.to_nat in_len)) dst op lit k ts)
      as (d2 & op2 & lit2 & ts2 & -> & Hl2 & He2 & Hop2); try done; try lia.
    { case_if; lia. }
    cbn [mbind option_bind].
    destruct (stop_run_S d2 op2 lit2 in_len ts2) as (d3 & op3 & ts3 & -> & Hl3 & Hc3 & Eop3 & _);
      try done. { unfold room. by rewrite Hl2. }
    cbn [mbind option_bind]. eexists. split; [done|]. split; [congruence|]. right.
    replace (out_data + (op3 - out_data)) with op3 by lia. split; [|by eauto].
    destruct (closed_pos d3 op3 ts3 Hc3). assert (op3 ≤ op2) by (subst op3; case_if; lia). lia.
Qed.

Lemma compress_S dst htab :
  room dst → table htab →
  ∃ r, compress HLOG cfg src sbase in_data in_len dbase out_data out_len dst htab = Some r ∧
       compressed (length dst) r.
Proof.
  intros Hr Ht. pose proof HS as []. unfold compress. do 2 (case_test; [lia|]). cbn [orb].
  destruct (FRST_S in_data) as [h ->]; [lia|lia|]. cbn [mbind option_bind].
  assert (emitted dst (out_data + 1) 0 0 []) as He0.
  { apply start_run; [|simpl; lia]. split; simpl; try done; try lia. }
  destruct (compress_loop_S (length dst) (S (Z.to_nat in_len))
    (mk_vars dst htab in_data (out_data + 1) 0 h) 0) as (v & f & -> & Hl & _ & Hf).
  { split; simpl; try done; try lia. by eauto. }
  { lia. }
  cbn [mbind option_bind]. destruct f; try (destruct Hf as (k & Hk & Hc); by apply finish_S with k).
  destruct v as [d t ? ? ? ?]. eexists. split; [done|]. split; [done|]. auto.
Qed.

End Encode.

End LzfEncode.
