(* ===== verification/LzfProps.v ===== *)
(** * LZF: the properties

    The round trip through the compressor and the decompressor, and the safety of the
    decompressor on data that no compressor has produced. *)

From stdpp Require Import base list numbers option.
From S2P Require Import Prelude CString Lzf LzfSpec LzfEncode.
Import CString Lzf LzfSpec LzfEncode.

Module LzfProps.

(** ** The decompressor on any data *)

Section Safe.

Context (src : list Z) (sbase in_data in_len dbase out_data out_len : Z).

Implicit Types (dst : list Z) (ip op ref len : Z).

(** Nothing is written outside of the output buffer. *)

Definition framed dst dst' : Prop :=
  length dst' = length dst ∧
  ∀ q, q < out_data - dbase ∨ out_data + out_len - dbase ≤ q → arr_get dst' q = arr_get dst q.

#[local] Instance framed_preorder : PreOrder framed.
Proof.
  split; [by split|]. intros d1 d2 d3 [Hl1 H1] [Hl2 H2]. split; [congruence|].
  intros q Hq. by rewrite H2, H1.
Qed.

Context (HP : placed src sbase in_data in_len dbase out_data out_len).
Context (HB : Forall byte src).

Abbreviation Room := (room dbase out_data out_len).

Lemma framed_room dst dst' : framed dst dst' → Room dst → Room dst'.
Proof. intros [Hl _]. unfold room. by rewrite Hl. Qed.

Lemma framed_set dst p b :
  Room dst → out_data ≤ p < out_data + out_len →
  ∃ dst', arr_set dst (p - dbase) b = Some dst' ∧ framed dst dst'.
Proof.
  destruct HP as (? & ? & ? & ? & ? & ? & ? & ? & ?). intros Hr Hp. unfold room in Hr.
  destruct (arr_set_get dst (p - dbase) b) as (d & -> & Hl & _ & Hs); [lia|].
  exists d. split; [done|]. split; [done|]. intros q Hq. apply Hs. lia.
Qed.

Lemma src_get p : in_data ≤ p < in_data + in_len → ∃ b, get src sbase p = Some b ∧ byte b.
Proof.
  destruct HP as (? & ? & ? & ? & ? & ? & ? & ? & ?). intros Hp. unfold get.
  rewrite arr_get_lt by lia. eexists. split; [done|].
  eapply Forall_lookup_1; [exact HB|]. apply list_lookup_lookup_total_lt. lia.
Qed.

Lemma dst_get dst p : Room dst → out_data ≤ p < out_data + out_len →
  ∃ b, arr_get dst (p - dbase) = Some b.
Proof.
  destruct HP as (? & ? & ? & ? & ? & ? & ? & ? & ?). unfold room. intros Hr Hp.
  rewrite arr_get_lt by lia. eauto.
Qed.

Lemma copy_in_safe n dst op ip :
  Room dst → in_data ≤ ip → ip + Z.of_nat n ≤ in_data + in_len →
  out_data ≤ op → op + Z.of_nat n ≤ out_data + out_len →
  ∃ dst', copy_in src sbase dbase n dst op ip = Some dst' ∧ framed dst dst'.
Proof.
  revert dst op ip. induction n as [|n IH]; intros dst op ip Hr ????; [by exists dst|].
  cbn [copy_in]. destruct (src_get ip) as (b & -> & _); [lia|]. cbn [mbind option_bind].
  destruct (framed_set dst op (u8 b)) as (d1 & E & Hf1); [done|lia|]. unfold put.
  rewrite E. cbn [mbind option_bind].
  destruct (IH d1 (op + 1) (ip + 1)) as (d2 & -> & Hf2); try lia; [by eapply framed_room|].
  exists d2. split; [done|]. by etrans.
Qed.

Lemma copy_ref_safe n dst op ref :
  Room dst → out_data ≤ ref < op → op + Z.of_nat n ≤ out_data + out_len →
  ∃ dst', copy_ref dbase n dst op ref = Some dst' ∧ framed dst dst'.
Proof.
  revert dst op ref. induction n as [|n IH]; intros dst op ref Hr ??; [by exists dst|].
  cbn [copy_ref]. destruct (dst_get dst ref) as (b & ->); [done|lia|]. cbn [mbind option_bind].
  destruct (framed_set dst op (u8 b)) as (d1 & E & Hf1); [done|lia|]. unfold put.
  rewrite E. cbn [mbind option_bind].
  destruct (IH d1 (op + 1) (ref + 1)) as (d2 & -> & Hf2); try lia; [by eapply framed_room|].
  exists d2. split; [done|]. by etrans.
Qed.

Lemma memcpy_safe n dst0 dst op ref :
  Room dst0 → Room dst → out_data ≤ ref → ref + Z.of_nat n ≤ out_data + out_len →
  out_data ≤ op → op + Z.of_nat n ≤ out_data + out_len →
  ∃ dst', memcpy_loop n dst (op - dbase) dst0 (ref - dbase) = Some dst' ∧ framed dst dst'.
Proof.
  intros Hr0. revert dst op ref. induction n as [|n IH]; intros dst op ref Hr ????; [by exists dst|].
  cbn [memcpy_loop]. destruct (dst_get dst0 ref) as (b & ->); [done|lia|]. cbn [mbind option_bind].
  destruct (framed_set dst op b) as (d1 & -> & Hf1); [done|lia|]. cbn [mbind option_bind].
  replace (op - dbase + 1) with (op + 1 - dbase) by lia.
  replace (ref - dbase + 1) with (ref + 1 - dbase) by lia.
  destruct (IH d1 (op + 1) (ref + 1)) as (d2 & -> & Hf2); try lia; [by eapply framed_room|].
  exists d2. split; [done|]. by etrans.
Qed.

(** What a token comes to: an error, or a step forward in both buffers. *)

Definition token_safe dst ip op (r : Z + list Z * Z * Z) : Prop :=
  match r with
  | inl err => err = E2BIG ∨ err = EINVAL
  | inr (dst', ip', op') =>
      framed dst dst' ∧ ip ≤ ip' ≤ in_data + in_len ∧ op < op' ≤ out_data + out_len
  end.

Lemma literal_run_safe dst ip op ctrl :
  Room dst → in_data ≤ ip ≤ in_data + in_len → out_data ≤ op ≤ out_data + out_len →
  0 ≤ ctrl < 32 →
  ∃ r, literal_run src sbase in_data in_len dbase out_data out_len dst ip op ctrl = Some r ∧
       token_safe dst ip op r.
Proof.
  intros Hr Hip Hop Hc. unfold literal_run. rewrite (in_end_eq _ _ _ _ _ _ _ HP).
  rewrite (out_end_eq _ _ _ _ _ _ _ HP). pose proof HP as (? & ? & ? & ? & ? & ? & ? & ? & ?).
  fits. case_if; [eexists; split; [done|simpl; auto]|].
  case_if; [eexists; split; [done|simpl; auto]|].
  destruct (copy_in_safe (Z.to_nat (ctrl + 1)) dst op ip) as (d & -> & Hd); try done; try lia.
  eexists. split; [done|]. split; [done|]. lia.
Qed.

Lemma back_copy_safe dst op ref len :
  Room dst → 0 ≤ len → out_data ≤ ref < op → op + len + 2 ≤ out_data + out_len →
  ∃ dst', back_copy dbase dst op ref len = Some (dst', op + (len + 2)) ∧ framed dst dst'.
Proof.
  intros Hr Hlen Href Hop. unfold back_copy. pose proof HP as (? & ? & ? & ? & ? & ? & ? & ? & ?).
  destruct (copy_ref_safe (Z.to_nat (len + 2)) dst op ref) as (d & E & Hd); try done; [lia|].
  case_if; [|rewrite E; by exists d]. fits. case_if; [|rewrite E; by exists d].
  unfold memcpy. destruct (memcpy_safe (Z.to_nat (len + 2)) dst dst op ref) as (d' & -> & Hd');
    try done; try lia. by exists d'.
Qed.

Lemma back_tail_safe dst ip op hi len :
  Room dst → in_data ≤ ip < in_data + in_len → out_data ≤ op ≤ out_data + out_len →
  0 ≤ hi < 32 → 0 ≤ len ≤ 262 →
  ∃ r, back_tail src sbase dbase out_data out_len dst ip op (u32 (op - Z.shiftl hi 8 - 1)) len
       = Some r ∧ token_safe dst ip op r.
Proof.
  intros Hr Hip Hop Hhi Hlen. unfold back_tail. rewrite (out_end_eq _ _ _ _ _ _ _ HP).
  pose proof HP as (? & ? & ? & ? & ? & ? & ? & ? & ?).
  destruct (src_get ip) as (b & -> & Hb); [lia|]. cbn [mbind option_bind]. unfold byte in Hb.
  rewrite Z.shiftl_mul_pow2 by lia. rewrite u32_u32_sub. fits.
  case_if; [eexists; split; [done|simpl; auto]|].
  case_if; [eexists; split; [done|simpl; auto]|].
  destruct (back_copy_safe dst op (op - hi * 2 ^ 8 - 1 - b) len) as (d & -> & Hd); try done; try lia.
  cbn [mbind option_bind]. eexists. split; [done|]. split; [done|]. lia.
Qed.

Lemma back_reference_safe dst ip op ctrl :
  Room dst → in_data ≤ ip ≤ in_data + in_len → out_data ≤ op ≤ out_data + out_len →
  32 ≤ ctrl < 256 →
  ∃ r, back_reference src sbase in_data in_len dbase out_data out_len dst ip op ctrl = Some r ∧
       token_safe dst ip op r.
Proof.
  intros Hr Hip Hop Hc. unfold back_reference. rewrite (in_end_eq _ _ _ _ _ _ _ HP).
  destruct (ctrl_fields (ctrl mod 32) (ctrl / 32)) as [Hlen Hhi]; [dlia|dlia|].
  replace (ctrl mod 32 + ctrl / 32 * 32) with ctrl in * by dlia. rewrite Hlen, Hhi.
  case_if; [eexists; split; [done|simpl; auto]|]. case_if.
  - destruct (src_get ip) as (b & -> & Hb); [lia|]. cbn [mbind option_bind]. unfold byte in Hb.
    case_if; [eexists; split; [done|simpl; auto]|].
    destruct (back_tail_safe dst (ip + 1) op (ctrl mod 32) (ctrl / 32 + b)) as (r & -> & Hs);
      try done; try lia; [dlia|].
    exists r. split; [done|]. destruct r as [err|[[d i] o]]; [done|].
    destruct Hs as (? & ? & ?). split; [done|]. lia.
  - apply back_tail_safe; try done; [lia|dlia|dlia].
Qed.

Lemma token_step_safe dst ip op ctrl :
  Room dst → in_data ≤ ip ≤ in_data + in_len → out_data ≤ op ≤ out_data + out_len → byte ctrl →
  ∃ r, (if ctrl <? Z.shiftl 1 5
        then literal_run src sbase in_data in_len dbase out_data out_len dst ip op ctrl
        else back_reference src sbase in_data in_len dbase out_data out_len dst ip op ctrl)
       = Some r ∧ token_safe dst ip op r.
Proof.
  intros Hr Hip Hop Hc. unfold byte in Hc. change (Z.shiftl 1 5) with 32. case_if.
  - apply literal_run_safe; try done; lia.
  - apply back_reference_safe; try done; lia.
Qed.

Definition outcome (e : option Z) (n : Z) : Prop :=
  match e with
  | None => 0 < n ≤ out_len
  | Some err => n = 0 ∧ (err = E2BIG ∨ err = EINVAL)
  end.

Lemma decompress_loop_safe fuel dst ip op :
  Room dst → in_data ≤ ip < in_data + in_len → out_data ≤ op ≤ out_data + out_len →
  (Z.to_nat (in_data + in_len - ip) < fuel)%nat →
  ∃ dst' e n, decompress_loop src sbase in_data in_len dbase out_data out_len fuel dst ip op
              = Some (dst', e, n) ∧ framed dst dst' ∧ outcome e n.
Proof.
  pose proof HP as (? & ? & ? & ? & ? & ? & ? & ? & ?). revert dst ip op.
  induction fuel as [|fuel IH]; intros dst ip op Hr Hip Hop Hf; [lia|]. cbn [decompress_loop].
  destruct (src_get ip) as (ctrl & -> & Hc); [lia|]. cbn [mbind option_bind].
  destruct (token_step_safe dst (ip + 1) op ctrl) as (r & -> & Hs); try done; [lia|].
  cbn [mbind option_bind]. destruct r as [err|[[d i] o]].
  - exists dst, (Some err), 0. split; [done|]. by split.
  - destruct Hs as (Hfr & Hi & Ho). rewrite (in_end_eq _ _ _ _ _ _ _ HP). case_if.
    + destruct (IH d i o) as (d' & e & n & -> & Hfr' & Hout); try lia; [by eapply framed_room|].
      exists d', e, n. split; [done|]. split; [by etrans|done].
    + exists d, None, (o - out_data). split; [by fits|]. split; [done|]. simpl. lia.
Qed.

End Safe.

(** ** The round trip *)

Lemma write_header m o d :
  0 ≤ o → o + size d ≤ size m →
  ∃ m', mem_write m o d = Some m' ∧ length m' = length m ∧ has m' o d ∧
        ∀ q, o + size d ≤ q → arr_get m' q = arr_get m q.
Proof.
  intros Ho Hd. exists (list_inserts (Z.to_nat o) d m). split; [by apply mem_write_Some|].
  split; [apply length_inserts|]. split.
  - intros i b Hi. apply arr_get_Some. split; [lia|].
    pose proof (lookup_lt_Some _ _ _ Hi). rewrite list_lookup_inserts by lia. rewrite <- Hi. f_equal. lia.
  - intros q Hq. unfold arr_get. case_if; [|done]. apply list_lookup_inserts_ge. lia.
Qed.

(** The output of the compressor, decompressed. *)

Definition decompresses_to (src : list Z) (sbase in_data in_len : Z) (data : list Z) : Prop :=
  ∀ dbase out_data out_len dst,
    dbase ≤ out_data → 8192 ≤ out_data → out_data + out_len + 264 < 2 ^ 32 →
    size data ≤ out_len → room dbase out_data out_len dst →
    ∃ dst', lzf_decompress src sbase in_data in_len dbase out_data out_len dst
            = Some (dst', None, size data) ∧
            mem_read dst' (out_data - dbase) (size data) = Some data.

Lemma encode_length ts : Forall token_ok ts → (length ts ≤ length (encode ts))%nat.
Proof.
  induction 1 as [|t ts Ht Hts IH]; [done|].
  change (encode (t :: ts)) with (encode1 t ++ encode ts). rewrite length_app.
  apply encode1_size in Ht. simpl. lia.
Qed.

Lemma tokens_decompress src sbase in_data ts data :
  sbase ≤ in_data → 0 ≤ in_data → has src (in_data - sbase) (encode ts) →
  in_data + size (encode ts) ≤ sbase + size src → in_data + size (encode ts) + 32 < 2 ^ 32 →
  ts ≠ [] → Forall token_ok ts → expand ts [] = Some data →
  decompresses_to src sbase in_data (size (encode ts)) data.
Proof.
  intros Hsb Hin Hh Hsz Hhi Hne Hok Hx dbase out_data out_len dst Hd Hlow Hhigh Hlen Hr.
  pose proof (encode_length ts Hok). unfold room in Hr. destruct ts as [|t ts]; [done|].
  destruct (decompress_loop_ok src sbase in_data (size (encode (t :: ts))) dbase out_data out_len
    (t :: ts) (S (Z.to_nat (size (encode (t :: ts))))) dst in_data out_data [] data)
    as (dst' & E & Hl & (Hw & _ & _)); try done; try lia.
  - unfold placed. simpl in *. lia.
  - split_and!; [apply has_nil|simpl; lia|done].
  - exists dst'. split; [done|]. apply has_read; [lia|done|rewrite Hl; lia].
Qed.

(** What [lzf_compress] leaves: the data behind a header of type 0, or a header of type 1
    and compressed data behind it. *)

Definition stored sbase in_data in_len (data : list Z) (r : lzf_result) : Prop :=
  reshdr r = (InData, in_data - 5) ∧ retlen r = in_len + 5 ∧
  mem_read (res_src r) (in_data - 5 - sbase) (in_len + 5) = Some (type0_header in_len ++ data).

Definition packed src dbase out_data in_len out_len (data : list Z) (r : lzf_result) : Prop :=
  ∃ cs, 0 < cs ≤ out_len ∧ 32 * cs ≤ 33 * in_len + 32 ∧
    res_src r = src ∧ reshdr r = (OutData, out_data - 7) ∧ retlen r = cs + 7 ∧
    mem_read (res_dst r) (out_data - 7 - dbase) 7 = Some (type1_header in_len cs) ∧
    decompresses_to (res_dst r) dbase out_data cs data.

Lemma packed_intro src dbase out_data in_len out_len data dst htab cs ts :
  0 ≤ dbase → dbase + 7 ≤ out_data → out_data + out_len + 32 < 2 ^ 32 → size data = in_len →
  room dbase out_data out_len dst → 0 < cs ≤ out_len → ts ≠ [] →
  closed in_len dbase out_data data dst (out_data + cs) in_len ts →
  ∃ dst', mem_write dst (out_data - 7 - dbase) (type1_header in_len cs) = Some dst' ∧
    packed src dbase out_data in_len out_len data
      (mk_result src dst' htab (OutData, out_data - 7) (cs + 7)).
Proof.
  intros Hb Hd Hhi Hlen Hr Hcs Hne Hc. destruct Hc as [Hok Hx Hh Hop Hk Hsz]. unfold room in Hr.
  destruct (write_header dst (out_data - 7 - dbase) (type1_header in_len cs))
    as (d & E & Hl & Hhd & Hs); [lia|simpl; lia|].
  exists d. split; [done|]. exists cs. simpl in Hs. cbn [res_src res_dst reshdr retlen].
  split_and!; try done; try lia.
  - apply (has_read d (out_data - 7 - dbase) (type1_header in_len cs)); [lia|done|simpl; lia].
  - replace cs with (size (encode ts)) by lia. apply tokens_decompress; try done; try lia.
    + apply has_same with dst; [done|]. intros q Hq. apply Hs. lia.
    + rewrite Hx. unfold prefix. by rewrite <- Hlen, Nat2Z.id, firstn_all.
Qed.

(** C17.  [lzf_decompress] is safe on any input of one byte or more, corrupted ones included, when the
    output is not in the first 8 KiB of the address space and no buffer reaches the last
    264 bytes of it: it reads the input and writes the output buffer inside of their bounds
    only, it terminates, and it returns the number of bytes in the output, or 0 with the
    error number E2BIG or EINVAL.  [lzf_decompress_empty] and [lzf_decompress_low] show
    that the input must not be empty and the output not lower. *)
Theorem lzf_decompress_safe src sbase in_data in_len dbase out_data out_len dst :
  placed src sbase in_data in_len dbase out_data out_len → Forall byte src →
  room dbase out_data out_len dst →
  ∃ dst' e n, lzf_decompress src sbase in_data in_len dbase out_data out_len dst
              = Some (dst', e, n) ∧
              framed dbase out_data out_len dst dst' ∧ outcome out_len e n.
Proof.
  intros HP HB Hr. pose proof HP as (? & ? & ? & ? & ? & ? & ? & ? & ?).
  apply decompress_loop_safe; try done; lia.
Qed.

Lemma stored_intro src sbase in_data in_len data dst htab :
  has src (in_data - sbase) data → size data = in_len → 0 < in_len → sbase + 5 ≤ in_data →
  ∃ src', mem_write src (in_data - 5 - sbase) (type0_header in_len) = Some src' ∧
    stored sbase in_data in_len data
      (mk_result src' dst htab (InData, in_data - 5) (in_len + 5)).
Proof.
  intros Hd Hl Hlen Hb. assert (in_data - sbase + in_len ≤ size src) as Hsz.
  { destruct (lookup_lt_is_Some_2 data (length data - 1)) as [b Hlast]; [lia|].
    apply Hd, arr_get_Some in Hlast as [_ Hi]. apply lookup_lt_Some in Hi. lia. }
  destruct (write_header src (in_data - 5 - sbase) (type0_header in_len))
    as (s & E & Hsl & Hsh & Hss); [lia|simpl; lia|].
  exists s. split; [done|]. split; [done|]. split; [done|]. cbn [res_src]. simpl in Hss.
  replace (in_len + 5) with (size (type0_header in_len ++ data)) by (rewrite length_app; simpl; lia).
  apply has_read; [lia| |rewrite length_app; simpl; lia].
  apply has_app. split; [done|]. simpl.
  replace (in_data - 5 - sbase + Z.of_nat 5) with (in_data - sbase) by lia.
  apply has_same with src; [done|]. intros q Hq. apply Hss. lia.
Qed.

(** A buffer of bytes that are not a compression of anything: a reference to bytes before
    the start of the output. *)
Lemma lzf_decompress_safe_witness :
  ∃ dst' e n, lzf_decompress [224; 255; 7] 5000 5000 3 9000 9002 300 (replicate 310 1)
              = Some (dst', e, n) ∧
              framed 9000 9002 300 (replicate 310 1) dst' ∧ outcome 300 e n.
Proof.
  apply (lzf_decompress_safe [224; 255; 7] 5000 5000 3 9000 9002 300 (replicate 310 1)).
  - unfold placed. simpl. lia.
  - repeat constructor; unfold byte; lia.
  - unfold room. simpl. lia.
Defined.

(** C14.  Compression loses nothing: for a table of at most 2^13 slots with any pointers in it, an
    input of two bytes or more that is not at an address below the number of slots, and 5
    and 7 bytes for the headers before the input and the output, [lzf_compress] stays inside of its buffers and
    leaves the data as it was behind a header of type 0, or [cs] bytes behind a header of
    type 1 that [lzf_decompress] turns back into the data in any buffer that is large enough.
    The former happens only when the output buffer is shorter than 33/32 of the input and
    4 bytes. *)
Theorem lzf_roundtrip HLOG cfg src sbase in_data in_len dbase out_data out_len data dst htab :
  setting HLOG src sbase in_data in_len dbase out_data out_len data →
  sbase + 5 ≤ in_data → dbase + 7 ≤ out_data →
  room dbase out_data out_len dst → table HLOG htab →
  ∃ r, lzf_compress HLOG cfg src sbase in_data in_len dbase out_data out_len dst htab = Some r ∧
    (stored sbase in_data in_len data r ∧ 32 * out_len < 33 * in_len + 128 ∨
     packed src dbase out_data in_len out_len data r).
Proof.
  intros HS Hs5 Hd7 Hr Ht. pose proof HS as []. unfold lzf_compress.
  destruct (compress_S HLOG cfg src sbase in_data in_len dbase out_data out_len data HS dst htab)
    as ([[d t] cs] & -> & Hl & Hc); try done. cbn [mbind option_bind].
  assert (room dbase out_data out_len d) as Hr' by (unfold room; by rewrite Hl).
  change LZF_TYPE1_HDR_SIZE with 7. change LZF_TYPE0_HDR_SIZE with 5.
  destruct Hc as [[-> Htight]|[Hcs [ts Hc]]].
  - change (negb (0 =? 0)) with false. cbn iota. rewrite (u32_small (in_data - 5)) by lia.
    rewrite (u32_small (in_len + 5)) by lia.
    destruct (stored_intro src sbase in_data in_len data d t) as (s & -> & Hst); try done; [lia|].
    cbn [mbind option_bind]. eauto.
  - assert (negb (cs =? 0) = true) as -> by (apply negb_true_iff, Z.eqb_neq; lia).
    rewrite (u32_small (out_data - 7)) by lia.
    destruct (closed_pos HLOG src sbase in_data in_len dbase out_data out_len data HS _ _ _ Hc) as [Hne _].
    destruct (packed_intro src dbase out_data in_len out_len data d t cs ts)
      as (d' & -> & Hp); try done; try lia.
    cbn [mbind option_bind]. eauto.
Qed.

Lemma lzf_roundtrip_witness :
  ∃ r, lzf_compress 2 LIBC_LZF_SMALL ([0; 0; 0; 0; 0] ++ [7; 1; 2; 3; 1; 2; 3; 1; 2; 3])
         5000 5005 10 9000 9007 20 (replicate 27 0) [5006; 0; 123456; 4294967295] = Some r ∧
    (stored 5000 5005 10 [7; 1; 2; 3; 1; 2; 3; 1; 2; 3] r ∧ 32 * 20 < 33 * 10 + 128 ∨
     packed ([0; 0; 0; 0; 0] ++ [7; 1; 2; 3; 1; 2; 3; 1; 2; 3]) 9000 9007 10 20
       [7; 1; 2; 3; 1; 2; 3; 1; 2; 3] r).
Proof.
  apply (lzf_roundtrip 2 LIBC_LZF_SMALL ([0; 0; 0; 0; 0] ++ [7; 1; 2; 3; 1; 2; 3; 1; 2; 3])
    5000 5005 10 9000 9007 20 [7; 1; 2; 3; 1; 2; 3; 1; 2; 3] (replicate 27 0)
    [5006; 0; 123456; 4294967295]).
  - split; try lia; [|done|repeat constructor; unfold byte; lia].
    rewrite !has_cons. split_and!; done.
  - lia.
  - lia.
  - unfold room. simpl. lia.
  - split; [done|]. repeat constructor; unfold pointer; lia.
Defined.

(** A hash table of more than 2^13 slots makes the compressor lose data: it then takes
    matches at a distance that the format cannot express, and the bytes that it writes for
    such a match of [n] bytes are those of a match of [n + 1] bytes at another distance. *)
Theorem lzf_far_match HLOG dbase dst op off n :
  14 ≤ HLOG → 8192 ≤ off < 16384 → 3 ≤ n < 8 →
  off < MAX_OFF HLOG ∧
  put_match dbase dst op off (n - 2) = put_match dbase dst op (off - 8192) (n + 1 - 2).
Proof.
  intros HH Hoff Hn. split.
  - unfold MAX_OFF. rewrite Z.shiftl_mul_pow2 by lia.
    pose proof (Z.pow_le_mono_r 2 14 HLOG ltac:(lia) HH) as Hp.
    change (2 ^ 14) with 16384 in Hp. lia.
  - unfold put_match. destruct (Z.ltb_spec (n - 2) 7); [|lia]. destruct (Z.ltb_spec (n + 1 - 2) 7); [|lia].
    rewrite !Z.shiftr_div_pow2, !Z.shiftl_mul_pow2 by lia.
    replace (off / 2 ^ 8 + (n - 2) * 2 ^ 5) with ((off - 8192) / 2 ^ 8 + (n + 1 - 2) * 2 ^ 5) by dlia.
    assert (∀ d p, put dbase d p off = put dbase d p (off - 8192)) as Hp.
    { intros d p. unfold put, u8. f_equal. dlia. }
    destruct (put dbase dst op _); [|done]. cbn [mbind option_bind]. by rewrite Hp.
Qed.

Lemma lzf_far_match_witness :
  8192 < MAX_OFF 14 ∧
  put_match 9000 (replicate 8 0) 9000 8192 (3 - 2)
  = put_match 9000 (replicate 8 0) 9000 (8192 - 8192) (3 + 1 - 2).
Proof. apply (lzf_far_match 14 9000 (replicate 8 0) 9000 8192 3); lia. Defined.

(** The hash of the first bytes reads past the end of an input of one byte. *)
Lemma lzf_compress_one_byte HLOG cfg src sbase in_data dbase out_data out_len dst htab :
  out_len ≠ 0 → in_data + 1 = sbase + size src →
  lzf_compress HLOG cfg src sbase in_data 1 dbase out_data out_len dst htab = None.
Proof.
  intros Ho Hi. unfold lzf_compress, compress. case_test; [lia|]. case_test; [lia|].
  cbn [orb]. unfold FRST, get. rewrite (arr_get_ge src (in_data + 1 - sbase)) by lia.
  by destruct (arr_get src (in_data - sbase)).
Qed.

(** The first byte of the input is read before its length is looked at. *)
Lemma lzf_decompress_empty src sbase in_data dbase out_data out_len dst :
  in_data = sbase + size src →
  lzf_decompress src sbase in_data 0 dbase out_data out_len dst = None.
Proof.
  intros ->. unfold lzf_decompress. simpl. unfold get. by rewrite arr_get_ge by lia.
Qed.

(** A reference to 8192 bytes before an output at a lower address wraps around, passes the
    test that it is not before the output, and is followed. *)
Lemma lzf_decompress_low sbase dbase out_data out_len dst :
  0 ≤ sbase → sbase + 2 < 2 ^ 32 → 0 ≤ out_data < 8192 → 3 ≤ out_len → out_data + out_len < 2 ^ 32 →
  dbase + size dst ≤ out_data - 8192 + 2 ^ 32 →
  lzf_decompress [63; 255] sbase sbase 2 dbase out_data out_len dst = None.
Proof.
  intros Hs Hs2 Ho Hl Hh Hd.
  enough (back_reference [63; 255] sbase sbase 2 dbase out_data out_len dst (sbase + 1) out_data 63 = None) as E.
  { unfold lzf_decompress. simpl. unfold get. rewrite !Z.sub_diag. change (arr_get [63; 255] 0) with (Some 63).
    cbn [mbind option_bind]. change (63 <? Z.shiftl 1 5) with false. cbn iota. by rewrite E. }
  unfold back_reference. change (Z.shiftr 63 5) with 1. change (Z.shiftl (Z.land 63 31) 8) with 7936.
  unfold in_end, out_end. rewrite (u32_small (sbase + 2)) by lia. rewrite (proj2 (Z.leb_gt _ _)) by lia.
  change (1 =? 7) with false. cbn iota. unfold back_tail, get. replace (sbase + 1 - sbase) with 1 by lia.
  change (arr_get [63; 255] 1) with (Some 255). cbn [mbind option_bind].
  assert (Hr : u32 (u32 (out_data - 7936 - 1) - 255) = out_data - 8192 + 2 ^ 32).
  { rewrite u32_u32_sub. unfold u32. symmetry. apply Zmod_unique with (-1); lia. }
  unfold out_end. rewrite Hr, (u32_small (out_data + out_len)), (u32_small (out_data + 1 + 2)) by lia.
  rewrite (proj2 (Z.ltb_ge _ _)), (proj2 (Z.ltb_ge _ _)) by lia. unfold back_copy. change (9 <? 1) with false. cbn iota.
  change (Z.to_nat (1 + 2)) with 3%nat. simpl. by rewrite arr_get_ge by lia.
Qed.

End LzfProps.
