(* ===== verification/Mq.v ===== *)
(** * Message queues (sched/mqueue)

    A message queue holds messages in the order of their priority, the oldest first among
    equals.  A task that sends to a full queue or receives from an empty one waits on a
    list for all queues, and the operation on the other side wakes the first task on it
    that waits for the queue.

    Messages and queues are addresses; the lists of messages are the order of the links.
    The field [msgwaitq] of the tasks is a map of its own, and so are their watchdogs that
    are active, with the delay and the timeout function.  A call that blocks ends with
    the switch to another task: its result is [None], and what the caller does once it runs
    again is the function with the name [_resumed].  Interrupt handlers run between the
    calls, and in the middle of one where [nxmq_do_receive] leaves a gap.  The memory that
    [kmm_malloc] returns is an argument.  The build has no cancellation points, and no task
    has asked for a notification ([mq_notify]). *)

From S2P Require Import Prelude Sched Sem.

Module Mq.
Import Sched Sem.

Definition EBADF : Z := 9.
Definition EMSGSIZE : Z := 122.

Definition O_RDOK : Z := Z.shiftl 1 0.
Definition O_WROK : Z := Z.shiftl 1 1.
Definition O_NONBLOCK : Z := Z.shiftl 1 6.

Definition MQ_MAX_BYTES : Z := 32.
Definition MQ_MAX_MSGS : Z := 16.
Definition MQ_PRIO_MAX : Z := 255.

Inductive mqalloc_e := MQ_ALLOC_FIXED | MQ_ALLOC_DYN | MQ_ALLOC_IRQ.

Record mqueue_msg_s := mk_msg {
  type : mqalloc_e;
  mpriority : Z;
  msglen : Z;
  mail : list Z
}.

Record mqueue_inode_s := mk_msgq {
  msglist : list Z;
  maxmsgs : Z;
  nmsgs : Z;
  nwaitnotfull : Z;
  nwaitnotempty : Z;
  maxmsgsize : Z
}.

(** The timeout functions of the timed calls. *)

Inductive wdentry_t := SNDTIMEOUT | RCVTIMEOUT.

Record mq_s := mk_mq {
  queues : gmap Z mqueue_inode_s;
  msgs : gmap Z mqueue_msg_s;
  g_msgfree : list Z;
  g_msgfreeirq : list Z;
  msgwaitq : gmap Z Z;
  waitdog : gmap Z (Z * wdentry_t);
  sched : sched_s
}.

Definition set_queue (st : mq_s) (q : Z) (i : mqueue_inode_s) : mq_s :=
  mk_mq (<[q := i]> (queues st)) (msgs st) (g_msgfree st) (g_msgfreeirq st) (msgwaitq st) (waitdog st) (sched st).
Definition set_msg (st : mq_s) (m : Z) (c : mqueue_msg_s) : mq_s :=
  mk_mq (queues st) (<[m := c]> (msgs st)) (g_msgfree st) (g_msgfreeirq st) (msgwaitq st) (waitdog st) (sched st).
Definition set_free (st : mq_s) (l : list Z) : mq_s :=
  mk_mq (queues st) (msgs st) l (g_msgfreeirq st) (msgwaitq st) (waitdog st) (sched st).
Definition set_freeirq (st : mq_s) (l : list Z) : mq_s :=
  mk_mq (queues st) (msgs st) (g_msgfree st) l (msgwaitq st) (waitdog st) (sched st).
Definition set_waitq (st : mq_s) (w : gmap Z Z) : mq_s :=
  mk_mq (queues st) (msgs st) (g_msgfree st) (g_msgfreeirq st) w (waitdog st) (sched st).

Definition set_waitdog (st : mq_s) (w : gmap Z (Z * wdentry_t)) : mq_s :=
  mk_mq (queues st) (msgs st) (g_msgfree st) (g_msgfreeirq st) (msgwaitq st) w (sched st).

Definition on_sched (f : sched_s → option sched_s) (st : mq_s) : option mq_s :=
  sc ← f (sched st);
  Some (mk_mq (queues st) (msgs st) (g_msgfree st) (g_msgfreeirq st) (msgwaitq st) (waitdog st) sc).

Definition set_msglist (l : list Z) (n : Z) (i : mqueue_inode_s) : mqueue_inode_s :=
  mk_msgq l (maxmsgs i) n (nwaitnotfull i) (nwaitnotempty i) (maxmsgsize i).
Definition set_nwaitnotfull (n : Z) (i : mqueue_inode_s) : mqueue_inode_s :=
  mk_msgq (msglist i) (maxmsgs i) (nmsgs i) n (nwaitnotempty i) (maxmsgsize i).
Definition set_nwaitnotempty (n : Z) (i : mqueue_inode_s) : mqueue_inode_s :=
  mk_msgq (msglist i) (maxmsgs i) (nmsgs i) (nwaitnotfull i) n (maxmsgsize i).

(** ** Queues and messages *)

(** [attr]: [mq_maxmsg] and [mq_msgsize]; [msgq]: what [kmm_zalloc] returns. *)

Definition nxmq_alloc_msgq (st : mq_s) (attr : option (Z * Z)) (msgq : option Z) : option (Z * mq_s) :=
  DEBUGASSERT match attr with Some (_, msgsize) => msgsize <=? MQ_MAX_BYTES | None => true end ;;
  match msgq with
  | None => Some (NULL, st)
  | Some q =>
      let '(max, size) :=
        match attr with
        | Some (maxmsg, msgsize) => (s16 maxmsg, u8 (s16 msgsize))
        | None => (MQ_MAX_MSGS, MQ_MAX_BYTES)
        end in
      Some (q, set_queue st q (mk_msgq [] max 0 0 0 size))
  end.

Definition nxmq_alloc_msg (irq : bool) (st : mq_s) (dyn : option (Z * list Z)) : option Z * mq_s :=
  match g_msgfree st with
  | m :: l => (Some m, set_free st l)
  | [] =>
      if irq then
        match g_msgfreeirq st with
        | m :: l => (Some m, set_freeirq st l)
        | [] => (None, st)
        end
      else
        match dyn with
        | Some (m, bytes) => (Some m, set_msg st m (mk_msg MQ_ALLOC_DYN 0 0 bytes))
        | None => (None, st)
        end
  end.

Definition nxmq_free_msg (st : mq_s) (m : Z) : option mq_s :=
  c ← msgs st !! m;
  match type c with
  | MQ_ALLOC_FIXED => Some (set_free st (g_msgfree st ++ [m]))
  | MQ_ALLOC_IRQ => Some (set_freeirq st (g_msgfreeirq st ++ [m]))
  | MQ_ALLOC_DYN =>
      Some (mk_mq (queues st) (delete m (msgs st)) (g_msgfree st) (g_msgfreeirq st) (msgwaitq st) (waitdog st) (sched st))
  end.

(** Messages of a block, which [kmm_malloc] returns, are put on a free list. *)

Definition SIZEOF_MQUEUE_MSG_S : Z := 40.

Fixpoint msgblock_loop (nmsgs : nat) (alloc_type : mqalloc_e) (mqmsg : Z) (bytes : list Z) (st : mq_s) : mq_s :=
  match nmsgs with
  | O => st
  | S n =>
      let st := set_msg st mqmsg (mk_msg alloc_type 0 0 bytes) in
      let st := match alloc_type with
                | MQ_ALLOC_IRQ => set_freeirq st (g_msgfreeirq st ++ [mqmsg])
                | _ => set_free st (g_msgfree st ++ [mqmsg])
                end in
      msgblock_loop n alloc_type (mqmsg + SIZEOF_MQUEUE_MSG_S) bytes st
  end.

Definition mq_msgblockalloc (nmsgs : Z) (alloc_type : mqalloc_e) (block : option (Z * list Z)) (st : mq_s) : mq_s :=
  match block with
  | Some (mqmsgblock, bytes) => msgblock_loop (Z.to_nat nmsgs) alloc_type mqmsgblock bytes st
  | None => st
  end.

Definition CONFIG_PREALLOC_MQ_MSGS : Z := 4.
Definition CONFIG_PREALLOC_MQ_IRQ_MSGS : Z := 8.

Definition nxmq_initialize (block irqblock : option (Z * list Z)) (st : mq_s) : mq_s :=
  let st := set_freeirq (set_free st []) [] in
  let st := mq_msgblockalloc CONFIG_PREALLOC_MQ_MSGS MQ_ALLOC_FIXED block st in
  mq_msgblockalloc CONFIG_PREALLOC_MQ_IRQ_MSGS MQ_ALLOC_IRQ irqblock st.

(** ** Waiting *)

(** The running task waits: [nwait] counts it, [s] is the list that it joins. *)

Definition nxmq_block (st : mq_s) (q : Z) (nwait : mqueue_inode_s → mqueue_inode_s) (s : tstate_t) : option mq_s :=
  rtcb ← this_task (sched st);
  i ← queues st !! q;
  let st := set_queue (set_waitq st (<[rtcb := q]> (msgwaitq st))) q (nwait i) in
  st ← on_sched (upd (set_errcode OK) rtcb) st;
  DEBUGASSERT (bool_decide (is_Some (flink rtcb (g_readytorun (sched st))))) ;;
  on_sched (up_block_task rtcb s) st.

(** [for (btcb = head; btcb && btcb->msgwaitq != msgq; btcb = btcb->flink)] *)

Fixpoint nxmq_first_waiter (w : gmap Z Z) (q : Z) (l : list Z) : option Z :=
  match l with
  | [] => None
  | btcb :: l => if negb (default NULL (w !! btcb) =? q) then nxmq_first_waiter w q l else Some btcb
  end.

(** The first task that waits for the queue is woken. *)

Definition nxmq_wake (st : mq_s) (q : Z) (nwait : mqueue_inode_s → mqueue_inode_s) (s : tstate_t) : option mq_s :=
  btcb ← nxmq_first_waiter (msgwaitq st) q (TLIST_HEAD s (sched st));
  i ← queues st !! q;
  let st := set_queue (set_waitq st (delete btcb (msgwaitq st))) q (nwait i) in
  on_sched (up_unblock_task btcb) st.

Definition more_notfull (i : mqueue_inode_s) : mqueue_inode_s := set_nwaitnotfull (s16 (nwaitnotfull i + 1)) i.
Definition less_notfull (i : mqueue_inode_s) : mqueue_inode_s := set_nwaitnotfull (s16 (nwaitnotfull i - 1)) i.
Definition more_notempty (i : mqueue_inode_s) : mqueue_inode_s := set_nwaitnotempty (s16 (nwaitnotempty i + 1)) i.
Definition less_notempty (i : mqueue_inode_s) : mqueue_inode_s := set_nwaitnotempty (s16 (nwaitnotempty i - 1)) i.

(** A signal, a timeout or a cancellation ends the wait of a task. *)

Definition nxmq_wait_irq (st : mq_s) (wtcb err : Z) : option mq_s :=
  t ← tcbs (sched st) !! wtcb;
  if decide (task_state t = TSTATE_WAIT_MQNOTEMPTY ∨ task_state t = TSTATE_WAIT_MQNOTFULL) then
    q ← msgwaitq st !! wtcb;
    let st := set_waitq st (delete wtcb (msgwaitq st)) in
    i ← queues st !! q;
    st ← (if decide (task_state t = TSTATE_WAIT_MQNOTEMPTY) then
            DEBUGASSERT (0 <? nwaitnotempty i) ;; Some (set_queue st q (less_notempty i))
          else
            DEBUGASSERT (0 <? nwaitnotfull i) ;; Some (set_queue st q (less_notfull i)));
    st ← on_sched (upd (set_errcode err) wtcb) st;
    on_sched (up_unblock_task wtcb) st
  else Some st.

(** The error with which the wait of the running task has ended, if any. *)

Definition wait_error (st : mq_s) : option Z :=
  rtcb ← this_task (sched st); t ← tcbs (sched st) !! rtcb; Some (errcode t).

(** ** Sending *)

Record file := mk_file { f_inode : option Z; f_oflags : Z }.

Definition nxmq_verify_send (st : mq_s) (q oflags : Z) (msg : option (list Z)) (msglen prio : Z) : option Z :=
  if bool_decide (msg = None) || (q =? NULL) || (MQ_PRIO_MAX <? prio) then Some (- EINVAL)
  else if Z.land oflags O_WROK =? 0 then Some (- EPERM)
  else i ← queues st !! q; Some (if maxmsgsize i <? msglen then - EMSGSIZE else OK).

Definition wait_send_loop (st : mq_s) (q : Z) : option (option Z * mq_s) :=
  i ← queues st !! q;
  if maxmsgs i <=? nmsgs i then
    st ← nxmq_block st q more_notfull TSTATE_WAIT_MQNOTFULL; Some (None, st)
  else Some (Some OK, st).

Definition nxmq_wait_send (st : mq_s) (q oflags : Z) : option (option Z * mq_s) :=
  i ← queues st !! q;
  if maxmsgs i <=? nmsgs i then
    if negb (Z.land oflags O_NONBLOCK =? 0) then Some (Some (- EAGAIN), st) else wait_send_loop st q
  else Some (Some OK, st).

Definition nxmq_wait_send_resumed (st : mq_s) (q : Z) : option (option Z * mq_s) :=
  ret ← wait_error st;
  if negb (ret =? OK) then Some (Some (- ret), st) else wait_send_loop st q.

(** [for (prev = NULL, next = head; next && prio <= next->priority; ...)] *)

Fixpoint insert_message (msgs : gmap Z mqueue_msg_s) (prio m : Z) (l : list Z) : option (list Z) :=
  match l with
  | [] => Some [m]
  | next :: r =>
      c ← msgs !! next;
      if prio <=? mpriority c then r ← insert_message msgs prio m r; Some (next :: r) else Some (m :: l)
  end.

Definition nxmq_do_send (irq : bool) (st : mq_s) (q m : Z) (msg : list Z) (msglen prio : Z) : option mq_s :=
  st ← on_sched (sched_lock irq) st;
  c ← msgs st !! m;
  bytes ← mem_read msg 0 msglen;
  mail ← mem_write (mail c) 0 bytes;
  let st := set_msg st m (mk_msg (type c) (u8 prio) (u8 msglen) mail) in
  i ← queues st !! q;
  l ← insert_message (msgs st) prio m (msglist i);
  let i := set_msglist l (s16 (nmsgs i + 1)) i in
  let st := set_queue st q i in
  st ← (if 0 <? nwaitnotempty i then nxmq_wake st q less_notempty TSTATE_WAIT_MQNOTEMPTY else Some st);
  on_sched (sched_unlock irq) st.

(** After the wait for room. *)

Definition file_mq_send_tail (irq : bool) (st : mq_s) (q : Z) (msg : list Z) (msglen prio : Z)
    (dyn : option (Z * list Z)) (ret : option Z) : option (option Z * mq_s) :=
  match ret with
  | None => Some (None, st)
  | Some ret =>
      '(ret, st) ←
        (if 0 <=? ret then
           let '(m, st) := nxmq_alloc_msg irq st dyn in
           match m with
           | None => Some (- ENOMEM, st)
           | Some m => st ← nxmq_do_send irq st q m msg msglen prio; Some (OK, st)
           end
         else Some (ret, st));
      st ← on_sched (sched_unlock irq) st;
      Some (Some ret, st)
  end.

Definition file_mq_send (irq : bool) (st : mq_s) (mq : file) (msg : option (list Z)) (msglen prio : Z)
    (dyn : option (Z * list Z)) : option (option Z * mq_s) :=
  match f_inode mq with
  | None => Some (Some (- EBADF), st)
  | Some q =>
      ret ← nxmq_verify_send st q (f_oflags mq) msg msglen prio;
      if ret <? 0 then Some (Some ret, st)
      else
        st ← on_sched (sched_lock irq) st;
        '(ret, st) ←
          (if negb irq then
             i ← queues st !! q;
             if maxmsgs i <=? nmsgs i then nxmq_wait_send st q (f_oflags mq) else Some (Some OK, st)
           else Some (Some OK, st));
        file_mq_send_tail irq st q (default [] msg) msglen prio dyn ret
  end.

Definition file_mq_send_resumed (st : mq_s) (q : Z) (msg : list Z) (msglen prio : Z)
    (dyn : option (Z * list Z)) : option (option Z * mq_s) :=
  '(ret, st) ← nxmq_wait_send_resumed st q;
  file_mq_send_tail false st q msg msglen prio dyn ret.

(** ** Receiving *)

Definition nxmq_verify_receive (st : mq_s) (q oflags : Z) (msg : option (list Z)) (msglen : Z) : option Z :=
  if bool_decide (msg = None) || (q =? NULL) then Some (- EINVAL)
  else if Z.land oflags O_RDOK =? 0 then Some (- EPERM)
  else i ← queues st !! q; Some (if msglen <? maxmsgsize i then - EMSGSIZE else OK).

(** The value that is returned, and the message. *)

Definition nxmq_wait_receive (st : mq_s) (q oflags : Z) : option (option (Z * Z) * mq_s) :=
  i ← queues st !! q;
  match msglist i with
  | newmsg :: l => Some (Some (OK, newmsg), set_queue st q (set_msglist l (s16 (nmsgs i - 1)) i))
  | [] =>
      if Z.land oflags O_NONBLOCK =? 0 then
        st ← nxmq_block st q more_notempty TSTATE_WAIT_MQNOTEMPTY; Some (None, st)
      else Some (Some (- EAGAIN, NULL), st)
  end.

Definition nxmq_wait_receive_resumed (st : mq_s) (q oflags : Z) : option (option (Z * Z) * mq_s) :=
  ret ← wait_error st;
  if negb (ret =? OK) then Some (Some (- ret, NULL), st) else nxmq_wait_receive st q oflags.

(** The length, the buffer of the caller and the priority.  [interrupt] is what interrupt
    handlers do between the test of [nwaitnotfull] and the critical section behind it. *)

Definition nxmq_do_receive (interrupt : mq_s → option mq_s) (st : mq_s) (q m : Z) (ubuffer : list Z)
  : option (Z * list Z * Z * mq_s) :=
  c ← msgs st !! m;
  let rcvmsglen := msglen c in
  bytes ← mem_read (mail c) 0 rcvmsglen;
  ubuffer ← mem_write ubuffer 0 bytes;
  st ← nxmq_free_msg st m;
  i ← queues st !! q;
  st ← (if 0 <? nwaitnotfull i then
          st ← interrupt st; nxmq_wake st q less_notfull TSTATE_WAIT_MQNOTFULL
        else Some st);
  Some (rcvmsglen, ubuffer, mpriority c, st).

(** What the caller gets: the value that is returned, its buffer, and the priority if it is
    set. *)

Definition received : Type := Z * list Z * option Z.

Definition file_mq_receive_tail (interrupt : mq_s → option mq_s) (st : mq_s) (q : Z) (ubuffer : list Z)
    (r : option (Z * Z)) : option (option received * mq_s) :=
  match r with
  | None => Some (None, st)
  | Some (ret, m) =>
      '(r, st) ←
        (if 0 <=? ret then
           DEBUGASSERT (negb (m =? NULL)) ;;
           '(n, ubuffer, prio, st) ← nxmq_do_receive interrupt st q m ubuffer;
           Some ((n, ubuffer, Some prio), st)
         else Some ((ret, ubuffer, None), st));
      st ← on_sched (sched_unlock false) st;
      Some (Some r, st)
  end.

Definition file_mq_receive (interrupt : mq_s → option mq_s) (st : mq_s) (mq : file) (msg : option (list Z))
    (msglen : Z) : option (option received * mq_s) :=
  let buf := default [] msg in
  match f_inode mq with
  | None => Some (Some (- EBADF, buf, None), st)
  | Some q =>
      ret ← nxmq_verify_receive st q (f_oflags mq) msg msglen;
      if ret <? 0 then Some (Some (ret, buf, None), st)
      else
        st ← on_sched (sched_lock false) st;
        '(r, st) ← nxmq_wait_receive st q (f_oflags mq);
        file_mq_receive_tail interrupt st q buf r
  end.

Definition file_mq_receive_resumed (interrupt : mq_s → option mq_s) (st : mq_s) (q oflags : Z) (buf : list Z)
  : option (option received * mq_s) :=
  '(r, st) ← nxmq_wait_receive_resumed st q oflags;
  file_mq_receive_tail interrupt st q buf r.

(** ** Timed calls *)

Definition NSEC_PER_SEC : Z := 1000000000.
Definition NSEC_PER_TICK : Z := USEC_PER_TICK * 1000.

Record timespec := mk_timespec { tv_sec : Z; tv_nsec : Z }.

Definition clock_timespec_compare (a b : timespec) : Z :=
  if tv_sec a <? tv_sec b then -1 else if tv_sec b <? tv_sec a then 1 else s32 (tv_nsec a - tv_nsec b).

Definition clock_time2ticks (reltime : timespec) : Z :=
  let relnsec := tv_sec reltime * NSEC_PER_SEC + tv_nsec reltime in
  s32 (Z.quot (relnsec + NSEC_PER_TICK - 1) NSEC_PER_TICK).

(** [currtime]: the time that [clock_gettime] reads. *)

Definition clock_abstime2ticks (abstime currtime : timespec) : Z * Z :=
  if clock_timespec_compare abstime currtime <? 0 then (OK, -1)
  else
    let nsec := s32 (tv_nsec abstime - tv_nsec currtime) in
    let sec := u32 (tv_sec abstime - tv_sec currtime) in
    let reltime := if nsec <? 0 then mk_timespec (u32 (sec - 1)) (s32 (nsec + NSEC_PER_SEC)) else mk_timespec sec nsec in
    (OK, clock_time2ticks reltime).

Definition valid_time (abstime : timespec) : bool := (0 <=? tv_nsec abstime) && (tv_nsec abstime <? 1000000000).

(** The delay until [abstime], or the error. *)

Definition wait_ticks (abstime currtime : timespec) : Z * Z :=
  let '(result, ticks) := clock_abstime2ticks abstime currtime in
  (if (result =? OK) && (ticks <=? 0) then ETIMEDOUT else result, ticks).

(** [wd_start] and [wd_cancel] on the watchdog of the task [p].  It may expire at any time
    while it is active; the timers themselves are the subject of Wdog.v. *)

Definition waitdog_start (p ticks : Z) (wdentry : wdentry_t) (st : mq_s) : mq_s :=
  set_waitdog st (<[p := (ticks, wdentry)]> (waitdog st)).

Definition waitdog_cancel (p : Z) (st : mq_s) : mq_s := set_waitdog st (delete p (waitdog st)).

(** The result of a timed send; a call that waits holds the message. *)

Inductive timedsend := TReturns (ret : Z) | TWaits (mqmsg : Z).

Definition file_mq_timedsend_error (st : mq_s) (m ret : Z) : option (timedsend * mq_s) :=
  st ← nxmq_free_msg st m;
  st ← on_sched (sched_unlock false) st;
  Some (TReturns ret, st).

(** After the wait for room; [rtcb] is the caller. *)

Definition file_mq_timedsend_tail (st : mq_s) (rtcb q m : Z) (msg : list Z) (msglen prio : Z) (ret : option Z)
  : option (timedsend * mq_s) :=
  match ret with
  | None => Some (TWaits m, st)
  | Some ret =>
      let st := waitdog_cancel rtcb st in
      if ret <? 0 then file_mq_timedsend_error st m ret
      else
        st ← nxmq_do_send false st q m msg msglen prio;
        st ← on_sched (sched_unlock false) st;
        Some (TReturns OK, st)
  end.

Definition file_mq_timedsend (st : mq_s) (mq : file) (msg : option (list Z)) (msglen prio : Z)
    (abstime : option timespec) (currtime : timespec) (dyn : option (Z * list Z)) : option (timedsend * mq_s) :=
  rtcb ← this_task (sched st);
  match f_inode mq with
  | None => Some (TReturns (- EBADF), st)
  | Some q =>
      ret ← nxmq_verify_send st q (f_oflags mq) msg msglen prio;
      if ret <? 0 then Some (TReturns ret, st)
      else
        let '(m, st) := nxmq_alloc_msg false st dyn in
        match m with
        | None => Some (TReturns (- ENOMEM), st)
        | Some m =>
            st ← on_sched (sched_lock false) st;
            i ← queues st !! q;
            if nmsgs i <? maxmsgs i then
              st ← nxmq_do_send false st q m (default [] msg) msglen prio;
              st ← on_sched (sched_unlock false) st;
              Some (TReturns OK, st)
            else
              match abstime with
              | None => file_mq_timedsend_error st m (- EINVAL)
              | Some abstime =>
                  if negb (valid_time abstime) then file_mq_timedsend_error st m (- EINVAL)
                  else
                    let '(result, ticks) := wait_ticks abstime currtime in
                    if negb (result =? OK) then file_mq_timedsend_error st m (- result)
                    else
                      let st := waitdog_start rtcb ticks SNDTIMEOUT st in
                      '(ret, st) ← nxmq_wait_send st q (f_oflags mq);
                      file_mq_timedsend_tail st rtcb q m (default [] msg) msglen prio ret
              end
        end
  end.

Definition file_mq_timedsend_resumed (st : mq_s) (q m : Z) (msg : list Z) (msglen prio : Z) : option (timedsend * mq_s) :=
  rtcb ← this_task (sched st);
  '(ret, st) ← nxmq_wait_send_resumed st q;
  file_mq_timedsend_tail st rtcb q m msg msglen prio ret.

Definition file_mq_timedreceive_tail (interrupt : mq_s → option mq_s) (st : mq_s) (rtcb q : Z) (ubuffer : list Z)
    (r : option (Z * Z)) : option (option received * mq_s) :=
  match r with
  | None => Some (None, st)
  | Some _ => file_mq_receive_tail interrupt (waitdog_cancel rtcb st) q ubuffer r
  end.

Definition file_mq_timedreceive (interrupt : mq_s → option mq_s) (st : mq_s) (mq : file) (msg : option (list Z))
    (msglen : Z) (abstime : option timespec) (currtime : timespec) : option (option received * mq_s) :=
  let buf := default [] msg in
  rtcb ← this_task (sched st);
  match f_inode mq with
  | None => Some (Some (- EBADF, buf, None), st)
  | Some q =>
      ret ← nxmq_verify_receive st q (f_oflags mq) msg msglen;
      if ret <? 0 then Some (Some (ret, buf, None), st)
      else
        match abstime with
        | None => Some (Some (- EINVAL, buf, None), st)
        | Some abstime =>
            if negb (valid_time abstime) then Some (Some (- EINVAL, buf, None), st)
            else
              st ← on_sched (sched_lock false) st;
              i ← queues st !! q;
              let '(result, ticks) := wait_ticks abstime currtime in
              if bool_decide (msglist i = []) && negb (result =? OK) then
                st ← on_sched (sched_unlock false) st;
                Some (Some (- result, buf, None), st)
              else
                let st := if bool_decide (msglist i = []) then waitdog_start rtcb ticks RCVTIMEOUT st else st in
                '(r, st) ← nxmq_wait_receive st q (f_oflags mq);
                file_mq_timedreceive_tail interrupt st rtcb q buf r
        end
  end.

Definition file_mq_timedreceive_resumed (interrupt : mq_s → option mq_s) (st : mq_s) (q oflags : Z) (buf : list Z)
  : option (option received * mq_s) :=
  rtcb ← this_task (sched st);
  '(r, st) ← nxmq_wait_receive_resumed st q oflags;
  file_mq_timedreceive_tail interrupt st rtcb q buf r.

(** The watchdog has expired. *)

Definition nxmq_timeout (s : tstate_t) (st : mq_s) (pid : Z) : option mq_s :=
  match tcbs (sched st) !! pid with
  | Some t => if decide (task_state t = s) then nxmq_wait_irq st pid ETIMEDOUT else Some st
  | None => Some st
  end.

Definition nxmq_sndtimeout : mq_s → Z → option mq_s := nxmq_timeout TSTATE_WAIT_MQNOTFULL.
Definition nxmq_rcvtimeout : mq_s → Z → option mq_s := nxmq_timeout TSTATE_WAIT_MQNOTEMPTY.

(** ** The end of a queue *)

(** [while (curr) { next = curr->next; nxmq_free_msg (curr); curr = next; }] *)

Fixpoint free_msgq_loop (st : mq_s) (l : list Z) : option mq_s :=
  match l with
  | [] => Some st
  | curr :: next => st ← nxmq_free_msg st curr; free_msgq_loop st next
  end.

Definition nxmq_free_msgq (st : mq_s) (q : Z) : option mq_s :=
  i ← queues st !! q;
  st ← free_msgq_loop st (msglist i);
  Some (mk_mq (delete q (queues st)) (msgs st) (g_msgfree st) (g_msgfreeirq st) (msgwaitq st) (waitdog st) (sched st)).

End Mq.
