(* ===== verification/MqSpec.v ===== *)
(** * Message queues as lists of messages with waiting tasks

    [wait_inv] relates the counts of the queues and the field [msgwaitq] to the tasks on
    the two lists, [store_inv] the messages to the places where they are.  Under them a
    queue is a capacity, a list of messages by priority, and the tasks that wait for a
    message and for room. *)

From S2P Require Import Prelude Sched SchedSpec SchedView SchedOps Sem SemSpec SemOps Mq.

Module MqSpec.
Import Sched SchedSpec SchedView SchedOps Mq.

Implicit Types (p q m : Z) (l : list Z) (A : pool) (W : gmap Z Z) (Q : gmap Z mqueue_inode_s) (k : tstate_t).

Abbreviation mqe := TSTATE_WAIT_MQNOTEMPTY.
Abbreviation mqf := TSTATE_WAIT_MQNOTFULL.

(** ** Waiting tasks *)

Definition mqstate k : Prop := k = mqe ∨ k = mqf.

Definition nwait k (i : mqueue_inode_s) : Z :=
  match k with mqe => nwaitnotempty i | _ => nwaitnotfull i end.

Definition set_nwait k (n : Z) (i : mqueue_inode_s) : mqueue_inode_s :=
  match k with mqe => set_nwaitnotempty n i | _ => set_nwaitnotfull n i end.

Definition waiting W A k q : list Z := filter (λ p, W !! p = Some q) (queue A k).

Record wait_inv W Q A : Prop := {
  wi_count : ∀ k q i, mqstate k → Q !! q = Some i → nwait k i = Z.of_nat (length (waiting W A k q));
  wi_in : ∀ k p, mqstate k → p ∈ queue A k → ∃ q, W !! p = Some q ∧ is_Some (Q !! q);
  wi_out : ∀ p q, W !! p = Some q → ∃ k, mqstate k ∧ p ∈ queue A k;
  wi_err : ∀ k p t, mqstate k → p ∈ queue A k → core A !! p = Some t → errcode t = OK;
  wi_code : ∀ p t, core A !! p = Some t → 0 ≤ errcode t;
  wi_few : Z.of_nat (base.size (core A)) < 2 ^ 15
}.

Lemma mqstate_blocked k : mqstate k → blocked k = true ∧ k ≠ rdy ∧ k ≠ pnd ∧ TLIST_ISPRIORITIZED k = true.
Proof. by intros [-> | ->]. Qed.

Lemma nwait_set k k' n i : mqstate k → mqstate k' → nwait k (set_nwait k' n i) = if decide (k = k') then n else nwait k i.
Proof. by intros [-> | ->] [-> | ->]; repeat case_decide. Qed.

Lemma waiting_few W Q A k q : wait_inv W Q A → pool_ok A → Z.of_nat (length (waiting W A k q)) < 2 ^ 15.
Proof.
  intros Hi HA. eapply Z.le_lt_trans; [|apply (wi_few _ _ _ Hi)]. apply Nat2Z.inj_le.
  etransitivity; [apply length_filter|].
  rewrite <- (size_dom (D := gset Z)), <- (size_list_to_set (C := gset Z)) by apply HA.
  apply subseteq_size. intros p Hp%elem_of_list_to_set. apply elem_of_dom. by eapply w_known.
Qed.

(** *** Moves that do not concern message queues *)

Record same_mq A A' : Prop := {
  sm_err : ∀ p, errcode <$> core A' !! p = errcode <$> core A !! p;
  sm_queue : ∀ k, mqstate k → queue A' k ≡ₚ queue A k
}.

#[global] Instance same_mq_refl : Reflexive same_mq.
Proof. by split. Qed.

#[global] Instance same_mq_trans : Transitive same_mq.
Proof. intros A1 A2 A3 [H1 H2] [H3 H4]. split; [intros p; by rewrite H3|intros k Hk; by rewrite H4, H2]. Qed.

Lemma same_mq_waiting W A A' k q : mqstate k → same_mq A A' → waiting W A' k q ≡ₚ waiting W A k q.
Proof. intros Hk H. unfold waiting. by rewrite (sm_queue _ _ H). Qed.

Lemma same_mq_size A A' : same_mq A A' → base.size (core A') = base.size (core A).
Proof.
  intros [H _]. rewrite <- !(size_dom (D := gset Z)). f_equal. apply set_eq. intros p.
  rewrite !elem_of_dom. specialize (H p). destruct (core A' !! p), (core A !! p); simplify_eq/=; naive_solver.
Qed.

Lemma same_mq_inv W Q A A' : same_mq A A' → wait_inv W Q A → wait_inv W Q A'.
Proof.
  intros H [H1 H2 H3 H4 H5 H6]. pose proof (sm_queue _ _ H) as Hq. constructor.
  - intros k q i Hk Hi. rewrite same_mq_waiting by done. by apply H1.
  - intros k p Hk. rewrite Hq by done. by apply H2.
  - intros p q Hp. destruct (H3 p q Hp) as (k & Hk & Hin). exists k. by rewrite Hq.
  - intros k p t Hk. rewrite Hq by done. intros Hp Ht. pose proof (sm_err _ _ H p) as He. rewrite Ht in He.
    destruct (core A !! p) as [t0|] eqn:E; simplify_eq/=. rewrite <- (H4 k p t0 Hk Hp E). congruence.
  - intros p t Ht. pose proof (sm_err _ _ H p) as He. rewrite Ht in He.
    destruct (core A !! p) as [t0|] eqn:E; simplify_eq/=. specialize (H5 p t0 E). congruence.
  - by rewrite (same_mq_size A).
Qed.

Lemma same_mq_qset A k l : (¬ mqstate k) → same_mq A (qset k l A).
Proof. intros Hk. split; [done|]. intros k' Hk'. simpl. rewrite decide_False; [done|]. by intros ->. Qed.

Lemma same_mq_put A k p : (¬ mqstate k) → same_mq A (put k p A).
Proof. apply same_mq_qset. Qed.

Lemma same_mq_take A k p : (¬ mqstate k) → same_mq A (SchedSpec.take k p A).
Proof. apply same_mq_qset. Qed.

Lemma not_mqstate k : bool_decide (k = mqe) || bool_decide (k = mqf) = false → ¬ mqstate k.
Proof. unfold mqstate. rewrite orb_false_iff, !bool_decide_eq_false. tauto. Qed.

Lemma same_mq_release A : same_mq A (release A).
Proof. etransitivity; [apply (same_mq_qset A pnd [])|apply same_mq_qset]; by apply not_mqstate. Qed.

Lemma same_mq_make_ready A p : same_mq A (make_ready p A).
Proof. unfold make_ready. case_if; apply same_mq_put; by apply not_mqstate. Qed.

Lemma same_mq_cupd A f p : (∀ t, errcode (f t) = errcode t) → same_mq A (cupd f p A).
Proof.
  intros Hf. split; [|done]. intros q. simpl. destruct (decide (q = p)) as [->|]; [|by rewrite lookup_alter_ne].
  rewrite lookup_alter_eq. destruct (core A !! p); simpl; by rewrite ?Hf.
Qed.

Lemma same_mq_unlock A r : same_mq A (unlock r A).
Proof. unfold unlock. case_if; [by apply same_mq_cupd|]. etransitivity; [by apply (same_mq_cupd A (set_lockcount 0) r)|apply same_mq_release]. Qed.

(** The same, with the order of the lists. *)

Definition same_order A A' : Prop := ∀ k, mqstate k → queue A' k = queue A k.

Lemma same_order_waiting W A A' k q : mqstate k → same_order A A' → waiting W A' k q = waiting W A k q.
Proof. intros Hk H. unfold waiting. by rewrite H. Qed.

(** *** A task begins to wait *)

Section Waits.

Context (W : gmap Z Z) (Q : gmap Z mqueue_inode_s) (A : pool) (HI : wait_inv W Q A) (HA : pool_ok A).
Context (p q : Z) (i : mqueue_inode_s) (Hq : Q !! q = Some i) (k : tstate_t) (Hk : mqstate k).

Section Blocking.

Context (Hp : p ∈ queue A rdy).

Definition waits_pool : pool := release (put k p (SchedSpec.take rdy p (cupd (set_errcode OK) p A))).

Lemma ready_not_waiting k' : mqstate k' → p ∉ queue A k'.
Proof. intros Hk' H. pose proof (w_disj _ HA _ _ _ H Hp). by destruct (mqstate_blocked k' Hk') as (_ & ? & _). Qed.

Lemma ready_no_queue : W !! p = None.
Proof.
  destruct (W !! p) as [x|] eqn:E; [|done]. destruct (wi_out _ _ _ HI p x E) as (k' & Hk' & Hin).
  by destruct (ready_not_waiting k' Hk').
Qed.

Lemma waits_queue k' : mqstate k' →
  queue waits_pool k' = if decide (k' = k) then enqueue (prio A) p (queue A k) else queue A k'.
Proof.
  intros Hk'. destruct (mqstate_blocked k Hk) as (_ & Hr & Hpd & Hs). destruct (mqstate_blocked k' Hk') as (_ & Hr' & Hpd' & _).
  unfold waits_pool. simpl. rewrite !(decide_False (P := k' = _)) by done. destruct (decide (k' = k)) as [->|Hne].
  - rewrite Hs. rewrite (decide_False (P := k = rdy)) by done. apply enqueue_ext. intros x _.
    apply (prio_cupd_same (set_errcode OK) p x A). done.
  - by rewrite (decide_False (P := k' = rdy)) by done.
Qed.

Lemma waits_waiting k' q' : mqstate k' →
  waiting (<[p := q]> W) waits_pool k' q' =
  if decide (k' = k ∧ q' = q) then enqueue (prio A) p (waiting W A k q) else waiting W A k' q'.
Proof.
  intros Hk'. assert (Hrest : ∀ k' x, mqstate k' → filter (λ r, <[p := q]> W !! r = Some x) (queue A k') = waiting W A k' x).
  { intros k2 x Hk2. apply SemSpec.filter_tasks. intros r Hr. rewrite lookup_insert_ne; [done|].
    intros <-. by apply (ready_not_waiting k2). }
  unfold waiting at 1. rewrite waits_queue by done. destruct (decide (k' = k)) as [->|Hne].
  - destruct (decide (q' = q)) as [->|Hq'].
    + rewrite decide_True by done. rewrite enqueue_filter, Hrest; [done..|by rewrite lookup_insert_eq|].
      destruct (mqstate_blocked k Hk) as (_ & _ & _ & Hs). by apply (w_sorted _ HA k).
    + rewrite decide_False by naive_solver. rewrite enqueue_filter_out, Hrest; [done..|].
      rewrite lookup_insert_eq. naive_solver.
  - rewrite decide_False by naive_solver. by apply Hrest.
Qed.

Lemma waits_core r : core waits_pool !! r = if decide (r = p) then set_errcode OK <$> core A !! r else core A !! r.
Proof. unfold waits_pool. simpl. case_decide; subst; [by rewrite lookup_alter_eq|by rewrite lookup_alter_ne]. Qed.

Lemma waits_inv : wait_inv (<[p := q]> W) (<[q := set_nwait k (nwait k i + 1) i]> Q) waits_pool.
Proof.
  constructor.
  - intros k' q' i' Hk' Hi'. rewrite waits_waiting by done. destruct (decide (q' = q)) as [->|Hne].
    + rewrite lookup_insert_eq in Hi'. simplify_eq. rewrite nwait_set by done. case_decide as Hkk; subst.
      * rewrite decide_True, enqueue_perm by done. simpl. rewrite (wi_count _ _ _ HI k q i) by done. lia.
      * rewrite decide_False by naive_solver. by apply (wi_count _ _ _ HI).
    + rewrite lookup_insert_ne in Hi' by done. rewrite decide_False by naive_solver. by apply (wi_count _ _ _ HI).
  - intros k' r Hk'. rewrite waits_queue by done. intros Hr. destruct (decide (r = p)) as [->|Hne].
    + exists q. by rewrite !lookup_insert_eq.
    + rewrite lookup_insert_ne by done.
      assert (r ∈ queue A k') as Hin by (case_decide; [|done]; subst; apply elem_enqueue in Hr; naive_solver).
      destruct (wi_in _ _ _ HI k' r Hk' Hin) as (x & Hx & Hsome). exists x. split; [done|].
      destruct (decide (x = q)) as [->|]; [by rewrite lookup_insert_eq|by rewrite lookup_insert_ne].
  - intros r x Hr. destruct (decide (r = p)) as [->|Hne].
    + exists k. split; [done|]. rewrite waits_queue, decide_True by done. apply elem_enqueue. by left.
    + rewrite lookup_insert_ne in Hr by done. destruct (wi_out _ _ _ HI r x Hr) as (k' & Hk' & Hin). exists k'.
      split; [done|]. rewrite waits_queue by done. case_decide; [|done]. subst. apply elem_enqueue. by right.
  - intros k' r t Hk'. rewrite waits_queue, waits_core by done. intros Hr Ht. destruct (decide (r = p)) as [->|Hne].
    + destruct (core A !! p); simplify_eq/=. done.
    + apply (wi_err _ _ _ HI k' r t Hk'); [|done]. case_decide; [|done]. subst. apply elem_enqueue in Hr. naive_solver.
  - intros r t. rewrite waits_core. case_decide; [|apply (wi_code _ _ _ HI)]. destruct (core A !! r); [|done]. by intros [= <-].
  - rewrite <- (size_dom (D := gset Z)). replace (dom (core waits_pool)) with (dom (D := gset Z) (core A)).
    { rewrite size_dom. apply HI. }
    apply set_eq. intros r. rewrite !elem_of_dom, waits_core. case_decide; [|done]. by rewrite fmap_is_Some.
Qed.

End Blocking.

(** *** A task no longer waits *)

Section Waking.

Context (Hp : p ∈ queue A k) (HW : W !! p = Some q).

(** The pool, up to what a signal or a timeout does to the task itself. *)

Context (A0 : pool) (Hq0 : ∀ k', queue A0 k' = queue A k').
Context (Hc0 : ∀ r, r ≠ p → errcode <$> core A0 !! r = errcode <$> core A !! r).
Context (He0 : ∀ t, core A0 !! p = Some t → 0 ≤ errcode t).
Context (Hs0 : base.size (core A0) = base.size (core A)).

Definition wakes_pool : pool := make_ready p (SchedSpec.take k p A0).

Lemma wakes_core : core wakes_pool = core A0.
Proof. unfold wakes_pool, make_ready. by case_if. Qed.

Lemma wakes_queue k' : mqstate k' → queue wakes_pool k' = if decide (k' = k) then dq_rem p (queue A k) else queue A k'.
Proof.
  intros Hk'. destruct (mqstate_blocked k' Hk') as (_ & Hr & Hpd & _).
  unfold wakes_pool, make_ready. case_if; simpl; rewrite (decide_False (P := k' = _)) by done;
    rewrite Hq0; case_decide; by rewrite ?Hq0.
Qed.

Lemma wakes_other k' : mqstate k' → k' ≠ k → p ∉ queue A k'.
Proof. intros Hk' Hne H. by pose proof (w_disj _ HA _ _ _ H Hp). Qed.

Lemma wakes_waiting k' q' : mqstate k' →
  waiting (delete p W) wakes_pool k' q' = if decide (k' = k ∧ q' = q) then dq_rem p (waiting W A k q) else waiting W A k' q'.
Proof.
  intros Hk'. unfold waiting at 1. rewrite wakes_queue by done. destruct (decide (k' = k)) as [->|Hne].
  - unfold dq_rem at 1. rewrite list_filter_filter. destruct (decide (q' = q)) as [->|Hq'].
    + rewrite decide_True by done. unfold dq_rem, waiting. rewrite list_filter_filter. apply SemSpec.filter_tasks.
      intros r _. destruct (decide (r = p)) as [->|]; [rewrite lookup_delete_eq|rewrite lookup_delete_ne by done]; naive_solver.
    + rewrite decide_False by naive_solver. apply SemSpec.filter_tasks. intros r _.
      destruct (decide (r = p)) as [->|]; [rewrite lookup_delete_eq|rewrite lookup_delete_ne by done]; naive_solver.
  - rewrite decide_False by naive_solver. apply SemSpec.filter_tasks. intros r Hr.
    rewrite lookup_delete_ne; [done|]. intros <-. by apply (wakes_other k').
Qed.

Lemma wakes_member : p ∈ waiting W A k q.
Proof. by apply list_elem_of_filter. Qed.

Lemma wakes_length : Z.of_nat (length (dq_rem p (waiting W A k q))) = nwait k i - 1.
Proof.
  rewrite (wi_count _ _ _ HI k q i) by done. rewrite (dq_rem_perm p (waiting W A k q)) at 2;
    [simpl; lia|by apply NoDup_filter, HA|apply wakes_member].
Qed.

Lemma wakes_inv : 0 < nwait k i ∧ wait_inv (delete p W) (<[q := set_nwait k (nwait k i - 1) i]> Q) wakes_pool.
Proof.
  pose proof wakes_length as Hlen. split; [lia|]. constructor.
  - intros k' q' i' Hk' Hi'. rewrite wakes_waiting by done. destruct (decide (q' = q)) as [->|Hne].
    + rewrite lookup_insert_eq in Hi'. simplify_eq. rewrite nwait_set by done. case_decide as Hkk; subst.
      * by rewrite decide_True.
      * rewrite decide_False by naive_solver. by apply (wi_count _ _ _ HI).
    + rewrite lookup_insert_ne in Hi' by done. rewrite decide_False by naive_solver. by apply (wi_count _ _ _ HI).
  - intros k' r Hk'. rewrite wakes_queue by done. intros Hr.
    assert (r ≠ p ∧ r ∈ queue A k') as [Hne Hin].
    { case_decide as Hkk; [subst; by apply elem_dq_rem in Hr|]. split; [|done]. intros ->. by apply (wakes_other k'). }
    rewrite lookup_delete_ne by done. destruct (wi_in _ _ _ HI k' r Hk' Hin) as (x & Hx & Hsome). exists x.
    split; [done|]. destruct (decide (x = q)) as [->|]; [by rewrite lookup_insert_eq|by rewrite lookup_insert_ne].
  - intros r x Hr. apply lookup_delete_Some in Hr as [Hne Hr]. destruct (wi_out _ _ _ HI r x Hr) as (k' & Hk' & Hin).
    exists k'. split; [done|]. rewrite wakes_queue by done. case_decide; [|done]. subst. by apply elem_dq_rem.
  - intros k' r t Hk'. rewrite wakes_queue, wakes_core by done. intros Hr Ht.
    assert (r ≠ p ∧ r ∈ queue A k') as [Hne Hin].
    { case_decide as Hkk; [subst; by apply elem_dq_rem in Hr|]. split; [|done]. intros ->. by apply (wakes_other k'). }
    specialize (Hc0 r Hne). rewrite Ht in Hc0. destruct (core A !! r) as [t0|] eqn:E; simplify_eq/=.
    rewrite <- (wi_err _ _ _ HI k' r t0 Hk' Hin E). congruence.
  - intros r t. rewrite wakes_core. intros Ht. destruct (decide (r = p)) as [->|Hne]; [by apply He0|].
    specialize (Hc0 r Hne). rewrite Ht in Hc0. destruct (core A !! r) as [t0|] eqn:E; simplify_eq/=.
    pose proof (wi_code _ _ _ HI r t0 E). congruence.
  - rewrite wakes_core, Hs0. apply HI.
Qed.

End Waking.

End Waits.

(** The messages do not matter for the waiting tasks. *)

Lemma wait_msglist W Q A q i l n :
  wait_inv W Q A → Q !! q = Some i → wait_inv W (<[q := set_msglist l n i]> Q) A.
Proof.
  intros [W1 W2 W3 W4 W5 W6] Hi. constructor; [| |done..].
  - intros k x i' Hk. destruct (decide (x = q)) as [->|]; [|rewrite lookup_insert_ne by done; by apply W1].
    rewrite lookup_insert_eq. intros [= <-]. rewrite <- (W1 k q i Hk Hi). by destruct Hk as [-> | ->].
  - intros k p Hk Hpk. destruct (W2 k p Hk Hpk) as (x & Hx & Hsx). exists x. split; [done|].
    destruct (decide (x = q)) as [->|]; [by rewrite lookup_insert_eq|by rewrite lookup_insert_ne].
Qed.

(** ** Messages *)

(** Where a message can be. *)

Inductive place := Free | FreeIrq | In (q : Z).

#[global] Instance place_eq_dec : EqDecision place.
Proof. solve_decision. Defined.

Implicit Types (x y : place) (P : place → list Z) (M : gmap Z mqueue_msg_s) (H : list Z).

(** Each message is at one place; [H] are those in the hands of tasks. *)

Record places H P M : Prop := {
  pl_nodup : ∀ x, NoDup (P x);
  pl_disj : ∀ x y m, m ∈ P x → m ∈ P y → x = y;
  pl_known : ∀ x m, m ∈ P x → is_Some (M !! m) ∧ m ≠ Sem.NULL;
  pl_own : NoDup H;
  pl_held : ∀ m, m ∈ H → is_Some (M !! m) ∧ m ≠ Sem.NULL ∧ ∀ x, m ∉ P x;
  pl_placed : ∀ m, is_Some (M !! m) → m ∈ H ∨ ∃ x, m ∈ P x
}.

Lemma places_ext H H' P P' M : H' ≡ₚ H → (∀ x, P' x ≡ₚ P x) → places H P M → places H' P' M.
Proof.
  intros HH HP [H1 H2 H3 H0 H4 H5]. constructor.
  - intros x. by rewrite HP.
  - intros x y m. rewrite !HP. apply H2.
  - intros x m. rewrite HP. apply H3.
  - by rewrite HH.
  - intros m. rewrite HH. intros Hm. destruct (H4 m Hm) as (? & ? & Hx). split_and!; [done..|]. intros x. rewrite HP. apply Hx.
  - intros m Hm. rewrite HH. destruct (H5 m Hm) as [?|[x Hx]]; [by left|right; exists x; by rewrite HP].
Qed.

Lemma places_take H P P' M x m l :
  places H P M → P x ≡ₚ m :: l → (∀ y, P' y ≡ₚ if decide (y = x) then l else P y) → places (m :: H) P' M.
Proof.
  intros [H1 H2 H3 H0 H4 H5] Hx HP. pose proof (H1 x) as Hnd. rewrite Hx in Hnd. apply NoDup_cons in Hnd as [Hm Hnd].
  assert (Hmx : m ∈ P x) by (rewrite Hx; set_solver).
  assert (Hin : ∀ y r, r ∈ P' y → r ∈ P y ∧ r ≠ m).
  { intros y r. rewrite HP. case_decide as E; [subst; rewrite Hx; set_solver|]. intros Hr. split; [done|].
    intros ->. by apply E, (H2 y x m Hr). }
  constructor.
  - intros y. rewrite HP. case_decide; [done|apply H1].
  - intros y z r Hy Hz. apply (H2 y z r); by apply Hin.
  - intros y r Hr. apply (H3 y r). by apply Hin.
  - apply NoDup_cons. split; [|done]. intros Hh. by destruct (H4 m Hh) as (_ & _ & Hno); destruct (Hno x).
  - intros r [->|Hr]%elem_of_cons.
    + destruct (H3 x m Hmx) as [? ?]. split_and!; [done..|]. intros y Hy. by destruct (Hin y m Hy).
    + destruct (H4 r Hr) as (? & ? & Hno). split_and!; [done..|]. intros y Hy. by apply (Hno y), Hin.
  - intros r Hr. destruct (decide (r = m)) as [->|Hne]; [left; set_solver|]. destruct (H5 r Hr) as [?|[y Hy]]; [left; set_solver|right].
    exists y. rewrite HP. case_decide; [|done]. subst. rewrite Hx in Hy. set_solver.
Qed.

Lemma places_put H P P' M x m :
  places (m :: H) P M → (∀ y, P' y ≡ₚ if decide (y = x) then m :: P x else P y) → places H P' M.
Proof.
  intros [H1 H2 H3 H0 H4 H5] HP. destruct (H4 m) as (Hs & Hn & Hm); [set_solver|]. apply NoDup_cons in H0 as [Hmh H0].
  assert (Hin : ∀ y r, r ∈ P' y → r ∈ P y ∨ r = m ∧ y = x).
  { intros y r. rewrite HP. case_decide; [subst; set_solver|by left]. }
  constructor; [| | |done| |].
  - intros y. rewrite HP. case_decide; [|apply H1]. apply NoDup_cons. split; [apply Hm|apply H1].
  - intros y z r Hy Hz. destruct (Hin y r Hy) as [Hy'|[-> ->]], (Hin z _ Hz) as [Hz'|[? ->]]; subst; try done.
    + by apply (H2 y z r).
    + by destruct (Hm y).
    + by destruct (Hm z).
  - intros y r Hr. destruct (Hin y r Hr) as [Hr'|[-> _]]; [by apply (H3 y)|done].
  - intros r Hr. destruct (H4 r) as (? & ? & Hno); [set_solver|]. split_and!; [done..|]. intros y Hy.
    destruct (Hin y r Hy) as [Hy'|[-> _]]; [by apply (Hno y)|done].
  - intros r Hr. destruct (H5 r Hr) as [[->|?]%elem_of_cons|[y Hy]];
      [right; exists x|by left|right; exists y]; rewrite HP; case_decide; set_solver.
Qed.

(** A message from the heap, and back. *)

Lemma places_alloc H P M m c : places H P M → M !! m = None → m ≠ Sem.NULL → places (m :: H) P (<[m := c]> M).
Proof.
  intros [H1 H2 H3 H0 H4 H5] Hm Hn. assert (Hno : ∀ x, m ∉ P x).
  { intros x Hx. destruct (H3 x m Hx) as [[? ?] _]. congruence. }
  assert (Hnh : m ∉ H) by (intros Hh; destruct (H4 m Hh) as ([? ?] & _); congruence).
  constructor; [done..| | | |].
  - intros x r Hr. destruct (H3 x r Hr) as [? ?]. split; [|done]. rewrite lookup_insert_ne; [done|]. intros <-. by apply (Hno x).
  - by apply NoDup_cons.
  - intros r [->|Hr]%elem_of_cons; [rewrite lookup_insert_eq; split_and!; [by eexists|done..]|].
    rewrite lookup_insert_ne by (intros <-; done). by apply H4.
  - intros r. destruct (decide (r = m)) as [->|]; [left; set_solver|]. rewrite lookup_insert_ne by done.
    intros Hr. destruct (H5 r Hr); [left; set_solver|by right].
Qed.

Lemma places_free H P M m : places (m :: H) P M → places H P (delete m M).
Proof.
  intros [H1 H2 H3 H0 H4 H5]. destruct (H4 m) as (Hs & Hn & Hno); [set_solver|]. apply NoDup_cons in H0 as [Hmh H0].
  constructor; [done..| |done| |].
  - intros x r Hr. destruct (H3 x r Hr) as [? ?]. split; [|done]. rewrite lookup_delete_ne; [done|]. intros <-. by apply (Hno x).
  - intros r Hr. rewrite lookup_delete_ne by (intros <-; done). apply H4. set_solver.
  - intros r [c Hr]. apply lookup_delete_Some in Hr as [Hne Hr]. destruct (H5 r) as [?|?]; [by eexists|left; set_solver|by right].
Qed.

Lemma places_msg H P M m c : is_Some (M !! m) → places H P M → places H P (<[m := c]> M).
Proof.
  intros Hm [H1 H2 H3 H0 H4 H5].
  assert (Hs : ∀ r, is_Some (<[m := c]> M !! r) ↔ is_Some (M !! r)).
  { intros r. destruct (decide (r = m)) as [->|]; [rewrite lookup_insert_eq; naive_solver|by rewrite lookup_insert_ne]. }
  constructor; [done..| |done| |].
  - intros x r. rewrite Hs. apply H3.
  - intros r. rewrite Hs. apply H4.
  - intros r. rewrite Hs. apply H5.
Qed.

(** The messages by priority, the bounds of their lengths, and what is on the free lists. *)

Definition at_place Q l l' x : list Z :=
  match x with
  | Free => l
  | FreeIrq => l'
  | In q => default [] (msglist <$> Q !! q)
  end.

Definition mprio M m : Z := default 0 (mpriority <$> M !! m).

Definition fits_place Q x (c : mqueue_msg_s) : Prop :=
  match x with
  | Free => type c = MQ_ALLOC_FIXED
  | FreeIrq => type c = MQ_ALLOC_IRQ
  | In q => ∃ i, Q !! q = Some i ∧ 0 ≤ msglen c ≤ maxmsgsize i
  end.

Record store_inv H Q M l l' : Prop := {
  mi_places : places H (at_place Q l l') M;
  mi_fits : ∀ x m c, m ∈ at_place Q l l' x → M !! m = Some c → fits_place Q x c;
  mi_mail : ∀ m c, M !! m = Some c → Z.of_nat (length (mail c)) = MQ_MAX_BYTES;
  mi_few : Z.of_nat (base.size M) < 2 ^ 15;
  mi_queue : ∀ q i, Q !! q = Some i →
    q ≠ Sem.NULL ∧ nmsgs i = Z.of_nat (length (msglist i)) ∧ 0 ≤ maxmsgsize i ≤ MQ_MAX_BYTES ∧
    StronglySorted (descending (mprio M)) (msglist i)
}.

Lemma few_messages H Q M l l' q i : store_inv H Q M l l' → Q !! q = Some i → 0 ≤ nmsgs i < 2 ^ 15.
Proof.
  intros Hs Hi. destruct (mi_queue _ _ _ _ _ Hs q i Hi) as (_ & -> & _). split; [lia|].
  eapply Z.le_lt_trans; [|apply (mi_few _ _ _ _ _ Hs)]. apply Nat2Z.inj_le.
  pose proof (pl_nodup _ _ _ (mi_places _ _ _ _ _ Hs) (In q)) as Hnd. simpl in Hnd. rewrite Hi in Hnd. simpl in Hnd.
  rewrite <- (size_dom (D := gset Z)), <- (size_list_to_set (C := gset Z)) by done.
  apply subseteq_size. intros m Hm%elem_of_list_to_set. apply elem_of_dom.
  apply (pl_known _ _ _ (mi_places _ _ _ _ _ Hs) (In q)). simpl. by rewrite Hi.
Qed.

(** The counts of the waiting tasks do not matter. *)

Definition same_messages (i i' : mqueue_inode_s) : Prop :=
  msglist i' = msglist i ∧ nmsgs i' = nmsgs i ∧ maxmsgsize i' = maxmsgsize i.

Lemma same_messages_wait k n i : same_messages i (set_nwait k n i).
Proof. by destruct k. Qed.

Lemma store_counts H Q M l l' q i i' :
  store_inv H Q M l l' → Q !! q = Some i → same_messages i i' → store_inv H (<[q := i']> Q) M l l'.
Proof.
  intros [H1 H2 H3 H4 H5] Hi (El & En & Es).
  assert (Hat : ∀ x, at_place (<[q := i']> Q) l l' x = at_place Q l l' x).
  { intros [| |q']; [done..|]. simpl. destruct (decide (q' = q)) as [->|]; [|by rewrite lookup_insert_ne].
    rewrite lookup_insert_eq, Hi. simpl. by rewrite El. }
  constructor; [| |done..|].
  - eapply places_ext; [done| |exact H1]. intros x. by rewrite Hat.
  - intros x m c. rewrite Hat. intros Hm Hc. specialize (H2 x m c Hm Hc). destruct x as [| |q']; [done..|].
    destruct H2 as (j & Hj & Hlen). simpl. destruct (decide (q' = q)) as [->|]; [|exists j; by rewrite lookup_insert_ne].
    exists i'. rewrite lookup_insert_eq, Es. by simplify_eq.
  - intros q' j. destruct (decide (q' = q)) as [->|].
    + rewrite lookup_insert_eq. intros [= <-]. rewrite El, En, Es. by apply H5.
    + rewrite lookup_insert_ne by done. apply H5.
Qed.

(** A message is taken from a free list. *)

Lemma store_take H Q M l l' l1 l1' x m r :
  store_inv H Q M l l' → at_place Q l l' x = m :: r → (∀ q, x ≠ In q) →
  (∀ y, at_place Q l1 l1' y = if decide (y = x) then r else at_place Q l l' y) → store_inv (m :: H) Q M l1 l1'.
Proof.
  intros [H1 H2 H3 H4 H5] Hx Hq HP. constructor; [| |done..].
  - eapply places_take; [exact H1|by rewrite Hx|]. intros y. by rewrite HP.
  - intros y m' c. rewrite HP. case_decide; [|by apply H2]. subst. intros Hm'. apply (H2 x). rewrite Hx. set_solver.
Qed.

Lemma store_alloc H Q M l l' m c :
  store_inv H Q M l l' → M !! m = None → m ≠ Sem.NULL → Z.of_nat (length (mail c)) = MQ_MAX_BYTES →
  Z.of_nat (base.size M) + 1 < 2 ^ 15 → store_inv (m :: H) Q (<[m := c]> M) l l'.
Proof.
  intros [H1 H2 H3 H4 H5] Hm Hn Hc Hsz.
  assert (Hne : ∀ x r, r ∈ at_place Q l l' x → r ≠ m).
  { intros x r Hr ->. destruct (pl_known _ _ _ H1 x m Hr) as [[? ?] _]. congruence. }
  constructor.
  - by apply places_alloc.
  - intros x r c' Hr. rewrite lookup_insert_ne by (intros <-; by eapply Hne). by apply H2.
  - intros r c'. destruct (decide (r = m)) as [->|]; [rewrite lookup_insert_eq; by intros [= <-]|].
    rewrite lookup_insert_ne by done. apply H3.
  - rewrite map_size_insert_None by done. lia.
  - intros q i Hi. destruct (H5 q i Hi) as (? & ? & ? & Hsort). do 3 (split; [done|]).
    eapply sorted_impl; [|exact Hsort]. intros a b Ha Hb. unfold descending, mprio.
    assert (∀ r, r ∈ msglist i → r ≠ m) as Hni by (intros r Hr; apply (Hne (In q)); simpl; by rewrite Hi).
    rewrite !lookup_insert_ne by naive_solver. done.
Qed.

(** The task that has a message writes to it. *)

Lemma store_fill H Q M l l' m c :
  store_inv (m :: H) Q M l l' → Z.of_nat (length (mail c)) = MQ_MAX_BYTES → store_inv (m :: H) Q (<[m := c]> M) l l'.
Proof.
  intros [H1 H2 H3 H4 H5] Hc. destruct (pl_held _ _ _ H1 m (list_elem_of_here _ _)) as (Hm & _ & Hno).
  assert (Hne : ∀ x r, r ∈ at_place Q l l' x → r ≠ m) by (intros x r Hr ->; by apply (Hno x)). constructor.
  - by apply places_msg.
  - intros x r c' Hr. rewrite lookup_insert_ne by naive_solver. by apply H2.
  - intros r c'. destruct (decide (r = m)) as [->|]; [rewrite lookup_insert_eq; by intros [= <-]|].
    rewrite lookup_insert_ne by done. apply H3.
  - by rewrite map_size_insert_Some.
  - intros q i Hi. destruct (H5 q i Hi) as (? & ? & ? & Hsort). do 3 (split; [done|]).
    eapply sorted_impl; [|exact Hsort]. intros a b Ha Hb. unfold descending, mprio.
    assert (∀ r, r ∈ msglist i → r ≠ m) as Hni by (intros r Hr; apply (Hne (In q)); simpl; by rewrite Hi).
    rewrite !lookup_insert_ne by naive_solver. done.
Qed.

(** A message is put into a queue, by its priority. *)

Lemma mprio_insert M m c r : mprio (<[m := c]> M) r = if decide (r = m) then mpriority c else mprio M r.
Proof.
  unfold mprio. destruct (decide (r = m)) as [->|]; [by rewrite lookup_insert_eq|by rewrite lookup_insert_ne].
Qed.

Lemma insert_message_enqueue M prio m l :
  mprio M m = prio → (∀ r, r ∈ l → is_Some (M !! r)) → insert_message M prio m l = Some (enqueue (mprio M) m l).
Proof.
  intros Hm Hl. unfold enqueue. induction l as [|next r IH]; [done|]. simpl.
  destruct (Hl next) as [c Hc]; [set_solver|]. rewrite Hc. cbn [mbind option_bind].
  assert (mprio M next = mpriority c) as -> by (unfold mprio; by rewrite Hc). rewrite Hm. case_if; [|done].
  rewrite IH by set_solver. done.
Qed.

Lemma at_place_list Q l l' q i j n x :
  Q !! q = Some i →
  at_place (<[q := set_msglist j n i]> Q) l l' x = if decide (x = In q) then j else at_place Q l l' x.
Proof.
  intros Hi. destruct x as [| |q']; [done..|]. simpl. destruct (decide (q' = q)) as [->|].
  - by rewrite decide_True, lookup_insert_eq.
  - by rewrite decide_False, lookup_insert_ne by naive_solver.
Qed.

Lemma fits_list Q x c q i j n : Q !! q = Some i → fits_place Q x c → fits_place (<[q := set_msglist j n i]> Q) x c.
Proof.
  intros Hi. destruct x as [| |q']; [done..|]. intros (i' & Hi' & Hlen). simpl.
  destruct (decide (q' = q)) as [->|]; [|exists i'; by rewrite lookup_insert_ne].
  rewrite Hi in Hi'. simplify_eq. eexists. by rewrite lookup_insert_eq.
Qed.

Lemma store_put H Q M l l' q i m c :
  store_inv (m :: H) Q M l l' → Q !! q = Some i → Z.of_nat (length (mail c)) = MQ_MAX_BYTES →
  0 ≤ msglen c ≤ maxmsgsize i →
  store_inv H (<[q := set_msglist (enqueue (mprio (<[m := c]> M)) m (msglist i)) (nmsgs i + 1) i]> Q)
    (<[m := c]> M) l l'.
Proof.
  intros [H1 H2 H3 H4 H5] Hi Hmail Hlen. destruct (pl_held _ _ _ H1 m (list_elem_of_here _ _)) as (Hm & Hn & Hno).
  assert (Hne : ∀ x r, r ∈ at_place Q l l' x → r ≠ m) by (intros x r Hr ->; by apply (Hno x)).
  set (j := enqueue _ m _).
  assert (Hj : j ≡ₚ m :: msglist i) by apply enqueue_perm.
  assert (Hsort : ∀ r, StronglySorted (descending (mprio M)) r → (∀ a, a ∈ r → a ≠ m) →
    StronglySorted (descending (mprio (<[m := c]> M))) r).
  { intros r Hr Hrm. eapply sorted_impl; [|exact Hr]. intros a b Ha Hb. unfold descending. rewrite !mprio_insert.
    by rewrite !decide_False by naive_solver. }
  constructor.
  - apply places_msg; [done|]. eapply (places_put _ _ _ _ (In q)); [exact H1|]. intros x. rewrite at_place_list by done.
    case_decide; [|done]. simpl. by rewrite Hi, Hj.
  - intros x r c'. rewrite at_place_list by done. intros Hr Hc'. destruct (decide (r = m)) as [->|Hrm].
    + rewrite lookup_insert_eq in Hc'. simplify_eq. case_decide; [subst|by destruct (Hno x)].
      eexists. by rewrite lookup_insert_eq.
    + rewrite lookup_insert_ne in Hc' by done. apply fits_list; [done|]. apply (H2 x r c'); [|done].
      case_decide; [|done]. subst. simpl. rewrite Hi. simpl. rewrite Hj in Hr. set_solver.
  - intros r c'. destruct (decide (r = m)) as [->|]; [rewrite lookup_insert_eq; by intros [= <-]|].
    rewrite lookup_insert_ne by done. apply H3.
  - rewrite map_size_insert_Some by done. done.
  - intros q' i'. destruct (decide (q' = q)) as [->|].
    + rewrite lookup_insert_eq. intros [= <-]. destruct (H5 q i Hi) as (? & En & ? & Hs). simpl.
      split; [done|]. split; [rewrite Hj; simpl; lia|]. split; [done|]. apply enqueue_sorted, Hsort; [done|].
      intros a Ha. apply (Hne (In q)). simpl. by rewrite Hi.
    + rewrite lookup_insert_ne by done. intros Hi'. destruct (H5 q' i' Hi') as (? & ? & ? & Hs). do 3 (split; [done|]).
      apply Hsort; [done|]. intros a Ha. apply (Hne (In q')). simpl. by rewrite Hi'.
Qed.

(** The first message is taken out. *)

Lemma store_get H Q M l l' q i m r :
  store_inv H Q M l l' → Q !! q = Some i → msglist i = m :: r →
  store_inv (m :: H) (<[q := set_msglist r (nmsgs i - 1) i]> Q) M l l' ∧
  ∃ c, M !! m = Some c ∧ 0 ≤ msglen c ≤ maxmsgsize i ∧ m ≠ Sem.NULL.
Proof.
  intros [H1 H2 H3 H4 H5] Hi Hr. assert (Hm : m ∈ at_place Q l l' (In q)) by (simpl; rewrite Hi; simpl; rewrite Hr; set_solver).
  destruct (pl_known _ _ _ H1 _ m Hm) as [[c Hc] Hn]. split.
  - constructor; [| |done..|].
    + eapply (places_take _ _ _ _ (In q)); [exact H1|simpl; by rewrite Hi; simpl; rewrite Hr|].
      intros x. by rewrite at_place_list.
    + intros x r' c'. rewrite at_place_list by done. intros Hr' Hc'. apply fits_list; [done|]. apply (H2 x r' c'); [|done].
      case_decide; [|done]. subst. simpl. rewrite Hi. simpl. rewrite Hr. set_solver.
    + intros q' i'. destruct (decide (q' = q)) as [->|].
      * rewrite lookup_insert_eq. intros [= <-]. destruct (H5 q i Hi) as (? & En & ? & Hs). simpl. rewrite Hr in En, Hs.
        split; [done|]. split; [simpl in En; lia|]. split; [done|]. by apply StronglySorted_inv in Hs as [? _].
      * rewrite lookup_insert_ne by done. apply H5.
  - exists c. destruct (H2 _ m c Hm Hc) as (i' & Hi' & Hlen). simplify_eq. done.
Qed.

(** A message is given back. *)

Lemma store_back H Q M l l' m c :
  store_inv (m :: H) Q M l l' → M !! m = Some c →
  match type c with
  | MQ_ALLOC_FIXED => store_inv H Q M (l ++ [m]) l'
  | MQ_ALLOC_IRQ => store_inv H Q M l (l' ++ [m])
  | MQ_ALLOC_DYN => store_inv H Q (delete m M) l l'
  end.
Proof.
  intros [H1 H2 H3 H4 H5] Hc. destruct (pl_held _ _ _ H1 m (list_elem_of_here _ _)) as (_ & Hn & Hno). destruct (type c) eqn:Et.
  - constructor; [| |done..].
    + eapply (places_put _ _ _ _ Free); [exact H1|]. intros [| |q]; case_decide; try done. simpl. symmetry. apply Permutation_cons_append.
    + intros [| |q] r c' Hr Hc'; [|by apply (H2 _ r c')..]. simpl in *.
      apply elem_of_app in Hr as [Hr|Hr%list_elem_of_singleton]; [by apply (H2 Free r c')|by simplify_eq].
  - assert (Hne : ∀ x r, r ∈ at_place Q l l' x → r ≠ m) by (intros x r Hr ->; by apply (Hno x)). constructor.
    + by apply places_free.
    + intros x r c' Hr. rewrite lookup_delete_ne by naive_solver. by apply H2.
    + intros r c' Hr. apply lookup_delete_Some in Hr as [_ Hr]. by apply (H3 r).
    + rewrite map_size_delete_Some by (by eexists). lia.
    + intros q i Hi. destruct (H5 q i Hi) as (? & ? & ? & Hs). do 3 (split; [done|]).
      eapply sorted_impl; [|exact Hs]. intros a b Ha Hb. unfold descending, mprio.
      assert (∀ r, r ∈ msglist i → r ≠ m) as Hni by (intros r Hr; apply (Hne (In q)); simpl; by rewrite Hi).
      rewrite !lookup_delete_ne by naive_solver. done.
  - constructor; [| |done..].
    + eapply (places_put _ _ _ _ FreeIrq); [exact H1|]. intros [| |q]; case_decide; try done. simpl. symmetry. apply Permutation_cons_append.
    + intros [| |q] r c' Hr Hc'; [by apply (H2 _ r c')| |by apply (H2 _ r c')]. simpl in *.
      apply elem_of_app in Hr as [Hr|Hr%list_elem_of_singleton]; [by apply (H2 FreeIrq r c')|by simplify_eq].
Qed.

(** A new queue. *)

Lemma waiting_unknown W Q A k q : wait_inv W Q A → mqstate k → Q !! q = None → waiting W A k q = [].
Proof.
  intros HW Hk Hq. destruct (waiting W A k q) as [|p l] eqn:E; [done|]. exfalso.
  assert (Hp : p ∈ waiting W A k q) by (rewrite E; set_solver). apply list_elem_of_filter in Hp as [Hp Hin].
  destruct (wi_in _ _ _ HW k p Hk Hin) as (q' & Hq' & [i Hi]). congruence.
Qed.

Lemma wait_open W Q A q max size :
  wait_inv W Q A → Q !! q = None → wait_inv W (<[q := mk_msgq [] max 0 0 0 size]> Q) A.
Proof.
  intros HW Hq. pose proof HW as [W1 W2 W3 W4 W5 W6]. constructor; [| |done..].
  - intros k x i Hk. destruct (decide (x = q)) as [->|]; [|rewrite lookup_insert_ne by done; by apply W1].
    rewrite lookup_insert_eq. intros [= <-]. rewrite (waiting_unknown W Q A k q) by done. by destruct Hk as [-> | ->].
  - intros k p Hk Hp. destruct (W2 k p Hk Hp) as (x & Hx & Hs). exists x. split; [done|].
    destruct (decide (x = q)) as [->|]; [by rewrite lookup_insert_eq|by rewrite lookup_insert_ne].
Qed.

Lemma store_open H Q M l l' q max size :
  store_inv H Q M l l' → Q !! q = None → q ≠ Sem.NULL → 0 ≤ size ≤ MQ_MAX_BYTES →
  store_inv H (<[q := mk_msgq [] max 0 0 0 size]> Q) M l l'.
Proof.
  intros [H1 H2 H3 H4 H5] Hq Hn Hsz. set (Q' := <[q := _]> Q).
  assert (Hat : ∀ x, at_place Q' l l' x = at_place Q l l' x).
  { intros [| |q']; [done..|]. simpl. unfold Q'. destruct (decide (q' = q)) as [->|]; [|by rewrite lookup_insert_ne].
    by rewrite lookup_insert_eq, Hq. }
  constructor; [| |done..|].
  - eapply places_ext; [done| |exact H1]. intros x. by rewrite Hat.
  - intros x m c. rewrite Hat. intros Hm Hc. specialize (H2 x m c Hm Hc). destruct x as [| |q']; [done..|].
    destruct H2 as (j & Hj & Hlen). exists j. unfold Q'. rewrite lookup_insert_ne; [done|]. congruence.
  - intros q' j. unfold Q'. destruct (decide (q' = q)) as [->|]; [|rewrite lookup_insert_ne by done; apply H5].
    rewrite lookup_insert_eq. intros [= <-]. split_and!; (done || constructor || apply Hsz).
Qed.

(** A queue goes; its messages are in the hands of the one who frees them. *)

Lemma store_close H Q M l l' q i :
  store_inv H Q M l l' → Q !! q = Some i → store_inv (msglist i ++ H) (delete q Q) M l l'.
Proof.
  intros [[P1 P2 P3 P0 P4 P5] H2 H3 H4 H5] Hi.
  assert (Hq : at_place Q l l' (In q) = msglist i) by (simpl; by rewrite Hi).
  assert (Hat : ∀ x, at_place (delete q Q) l l' x = if decide (x = In q) then [] else at_place Q l l' x).
  { intros [| |q']; [done..|]. simpl. case_decide as Hx; [injection Hx as ->; by rewrite lookup_delete_eq|].
    rewrite lookup_delete_ne by congruence. done. }
  assert (Hin : ∀ x m, m ∈ at_place (delete q Q) l l' x → m ∈ at_place Q l l' x ∧ x ≠ In q).
  { intros x m. rewrite Hat. case_decide; [set_solver|done]. }
  constructor; [constructor| |done..|].
  - intros x. rewrite Hat. case_decide; [constructor|apply P1].
  - intros x y m [Hx _]%Hin [Hy _]%Hin. by apply (P2 x y m).
  - intros x m [Hx _]%Hin. by apply (P3 x m).
  - apply NoDup_app. split; [rewrite <- Hq; apply P1|]. split; [|done]. intros m Hm Hh. rewrite <- Hq in Hm.
    destruct (P4 m Hh) as (_ & _ & Hno). by apply (Hno (In q)).
  - intros m [Hm|Hm]%elem_of_app.
    + rewrite <- Hq in Hm. destruct (P3 _ m Hm) as [? ?]. split_and!; [done..|]. intros x [Hx Hne]%Hin. by apply Hne, (P2 x (In q) m).
    + destruct (P4 m Hm) as (? & ? & Hno). split_and!; [done..|]. intros x [Hx _]%Hin. by apply (Hno x).
  - intros m Hm. destruct (P5 m Hm) as [?|[x Hx]]; [left; set_solver|]. destruct (decide (x = In q)) as [->|Hne].
    + left. rewrite Hq in Hx. set_solver.
    + right. exists x. by rewrite Hat, decide_False.
  - intros x m c [Hx Hne]%Hin Hc. specialize (H2 x m c Hx Hc). destruct x as [| |q']; [done..|].
    destruct H2 as (j & Hj & Hlen). exists j. rewrite lookup_delete_ne; [done|]. congruence.
  - intros q' j Hj. apply lookup_delete_Some in Hj as [_ Hj]. by apply H5.
Qed.

Lemma wait_close W Q A q :
  wait_inv W Q A → (∀ k, mqstate k → waiting W A k q = []) → wait_inv W (delete q Q) A.
Proof.
  intros [W1 W2 W3 W4 W5 W6] Hno. constructor; [| |done..].
  - intros k x i Hk Hx. apply lookup_delete_Some in Hx as [_ Hx]. by apply W1.
  - intros k p Hk Hp. destruct (W2 k p Hk Hp) as (x & Hx & Hs). exists x. split; [done|].
    rewrite lookup_delete_ne; [done|]. intros <-. assert (p ∈ waiting W A k q) as Hin by by apply list_elem_of_filter.
    rewrite Hno in Hin by done. set_solver.
Qed.

(** A new message on a free list. *)

Lemma store_new H Q M l l' m c :
  store_inv H Q M l l' → M !! m = None → m ≠ Sem.NULL → Z.of_nat (length (mail c)) = MQ_MAX_BYTES →
  Z.of_nat (base.size M) + 1 < 2 ^ 15 →
  match type c with
  | MQ_ALLOC_FIXED => store_inv H Q (<[m := c]> M) (l ++ [m]) l'
  | MQ_ALLOC_IRQ => store_inv H Q (<[m := c]> M) l (l' ++ [m])
  | MQ_ALLOC_DYN => True
  end.
Proof.
  intros Hs Hm Hn Hc Hsz. pose proof (store_back H Q _ l l' m c (store_alloc H Q M l l' m c Hs Hm Hn Hc Hsz) (lookup_insert_eq _ _ _)).
  by destruct (type c).
Qed.

End MqSpec.
