(* ===== verification/MqOps.v ===== *)
(** * The operations on message queues

    Each part of the functions of Mq.v on a state that satisfies [mq_ok]: it succeeds, keeps
    [mq_ok], and changes one queue of the view [mview]. *)

From S2P Require Import Prelude Sched SchedSpec SchedView SchedOps Sem SemSpec SemOps Mq MqSpec.

Module MqOps.
Import Sched SchedSpec SchedView SchedOps Mq MqSpec.

Implicit Types (st : mq_s) (p q m : Z) (l : list Z) (A : pool) (k : tstate_t) (H : list Z) (i : mqueue_inode_s).

(** ** Queues as the users see them *)

Record mqueue := mk_mqueue {
  capacity : Z;
  msize : Z;
  contents : list (Z * list Z);
  receivers : list Z;
  senders : list Z
}.

Definition content (M : gmap Z mqueue_msg_s) m : Z * list Z :=
  match M !! m with Some c => (mpriority c, firstn (Z.to_nat (msglen c)) (mail c)) | None => (0, []) end.

Definition mview st A : Z → option mqueue := λ q,
  (λ i, mk_mqueue (maxmsgs i) (maxmsgsize i) (content (msgs st) <$> msglist i)
          (waiting (msgwaitq st) A mqe q) (waiting (msgwaitq st) A mqf q)) <$> queues st !! q.

Record mq_ok H st A : Prop := {
  mo_sched : sched_ok (sched st) A;
  mo_wait : wait_inv (msgwaitq st) (queues st) A;
  mo_store : store_inv H (queues st) (msgs st) (g_msgfree st) (g_msgfreeirq st)
}.

Definition turns (S S' : Z → option mqueue) q v : Prop := ∀ q', S' q' = if decide (q' = q) then Some v else S q'.

Definition stays (S S' : Z → option mqueue) : Prop := ∀ q, S' q = S q.

#[global] Instance stays_equiv : Equivalence stays.
Proof. split; [done|by intros S S' HS q; rewrite HS|by intros S1 S2 S3 H1 H2 q; rewrite H2, H1]. Qed.

#[global] Instance turns_proper : Proper (stays ==> stays ==> (=) ==> (=) ==> iff) turns.
Proof.
  intros S1 S2 HS S1' S2' HS' q ? <- v ? <-. split; intros HT x; specialize (HS x); specialize (HS' x);
    specialize (HT x); case_decide; congruence.
Qed.

Lemma turns_trans S1 S2 S3 q v w : turns S1 S2 q v → turns S2 S3 q w → turns S1 S3 q w.
Proof. intros H1 H2 x. rewrite H2. case_decide; [done|]. by rewrite H1, decide_False. Qed.

Lemma turns_self S q v : S q = Some v → turns S S q v.
Proof. intros H x. by case_decide; subst. Qed.

(** The codes with which waits end. *)

Definition same_codes A A' : Prop := ∀ x, errcode <$> core A' !! x = errcode <$> core A !! x.

Definition codes (r : Z) A A' : Prop := ∀ x, x ≠ r → errcode <$> core A' !! x = errcode <$> core A !! x.

#[global] Instance same_codes_equiv : Equivalence same_codes.
Proof. split; [done|by intros A A' HA x; rewrite HA|by intros A1 A2 A3 H1 H2 x; rewrite H2, H1]. Qed.

Lemma codes_after r A1 A2 A3 : same_codes A1 A2 → codes r A2 A3 → codes r A1 A3.
Proof. intros H1 H2 x Hx. by rewrite H2, H1. Qed.

Lemma codes_same r A A' : same_codes A A' → codes r A A'.
Proof. intros H x _. apply H. Qed.

(** ** A step of the scheduler *)

Definition with_sched st (sc : sched_s) : mq_s :=
  mk_mq (queues st) (msgs st) (g_msgfree st) (g_msgfreeirq st) (msgwaitq st) (waitdog st) sc.

Lemma on_sched_ok H st A f sc A' :
  mq_ok H st A → f (sched st) = Some sc → sched_ok sc A' → same_mq A A' → same_order A A' →
  on_sched f st = Some (with_sched st sc) ∧ mq_ok H (with_sched st sc) A' ∧ same_codes A A' ∧
  stays (mview st A) (mview (with_sched st sc) A').
Proof.
  intros [H1 H2 H3] E Hs Hm Ho. unfold on_sched. rewrite E. split; [done|].
  split; [constructor; [done|by eapply same_mq_inv|done]|]. split; [exact (sm_err _ _ Hm)|].
  intros q. unfold mview. simpl. destruct (queues st !! q); [|done]. simpl.
  rewrite (same_order_waiting _ A A' mqe), (same_order_waiting _ A A' mqf); [done|by right|done|by left|done].
Qed.

(** The lock; interrupt handlers do not take it. *)

Definition lockable (irq : bool) (n : Z) st A : Prop := irq = true ∨ locks A (current (sched st)) + n ≤ MAX_LOCK_COUNT.

Lemma lock_step H irq n st A :
  mq_ok H st A → lockable irq (n + 1) st A → 0 ≤ n →
  ∃ sc A', on_sched (sched_lock irq) st = Some (with_sched st sc) ∧ mq_ok H (with_sched st sc) A' ∧ same_codes A A' ∧
    stays (mview st A) (mview (with_sched st sc) A') ∧ lockable irq n (with_sched st sc) A' ∧
    current sc = current (sched st) ∧ (∀ x, prio A' x = prio A x).
Proof.
  intros Hok Hlk Hn. pose proof (mo_sched _ _ _ Hok) as Hs. destruct irq.
  - destruct (on_sched_ok H st A (sched_lock true) (sched st) A) as (E & Hok' & Hcd & Hv); [done|apply lock_irq|done..|].
    exists (sched st), A. split_and!; try done. by left.
  - destruct Hlk as [?|Hlk]; [done|]. destruct (lock_ok _ A Hs) as (sc & E & Hc & Hsc); [lia|].
    destruct (on_sched_ok H st A _ sc _ Hok E Hsc) as (E' & Hok' & Hcd & Hv); [by apply same_mq_cupd|done|].
    eexists sc, _. split_and!; try done.
    + right. simpl. rewrite Hc, locks_cupd; [lia|].
      destruct (head_tcb _ A Hs) as (t & _ & Ht & _). eexists. by apply (v_lookup _ A (ok_view _ _ Hs)).
    + intros x. by apply prio_cupd_same.
Qed.

Lemma unlock_step H irq st A :
  mq_ok H st A →
  ∃ sc A', on_sched (sched_unlock irq) st = Some (with_sched st sc) ∧ mq_ok H (with_sched st sc) A' ∧ same_codes A A' ∧
    stays (mview st A) (mview (with_sched st sc) A').
Proof.
  intros Hok. pose proof (mo_sched _ _ _ Hok) as Hs. destruct irq.
  - exists (sched st), A. apply on_sched_ok; [done|apply unlock_irq|done..].
  - destruct (unlock_ok _ A Hs) as (sc & E & Hsc). eexists sc, _.
    apply (on_sched_ok H st A _ sc _ Hok E Hsc); [apply same_mq_unlock|].
    intros k Hk. unfold unlock. case_if; [done|]. simpl. destruct Hk as [-> | ->]; done.
Qed.

(** ** Waiting and waking *)

Definition waiters_of k (v : mqueue) : list Z := match k with mqe => receivers v | _ => senders v end.

Definition with_waiters k l (v : mqueue) : mqueue :=
  match k with
  | mqe => mk_mqueue (capacity v) (msize v) (contents v) l (senders v)
  | _ => mk_mqueue (capacity v) (msize v) (contents v) (receivers v) l
  end.

(** [more_notfull] and the like. *)

Definition count k (d : Z) i : mqueue_inode_s := set_nwait k (Sem.s16 (nwait k i + d)) i.

Lemma mview_some st A q i : queues st !! q = Some i →
  mview st A q = Some (mk_mqueue (maxmsgs i) (maxmsgsize i) (content (msgs st) <$> msglist i)
    (waiting (msgwaitq st) A mqe q) (waiting (msgwaitq st) A mqf q)).
Proof. intros Hi. unfold mview. by rewrite Hi. Qed.

(** The view after a change of the waiting tasks of one queue. *)

Lemma turns_waiters st st' A A' k q i v n l :
  mqstate k → queues st !! q = Some i → mview st A q = Some v → msgs st' = msgs st →
  queues st' = <[q := set_nwait k n i]> (queues st) →
  (∀ k' q', mqstate k' → waiting (msgwaitq st') A' k' q' = if decide (k' = k ∧ q' = q) then l else waiting (msgwaitq st) A k' q') →
  turns (mview st A) (mview st' A') q (with_waiters k l v).
Proof.
  intros Hk Hi Hv HM HQ HW q'. unfold mview in *. rewrite HM, HQ. rewrite Hi in Hv. simplify_eq/=.
  rewrite (HW mqe), (HW mqf) by (first [by left|by right]). destruct (decide (q' = q)) as [->|Hq].
  - rewrite lookup_insert_eq. simpl. destruct Hk as [-> | ->]; simpl; by repeat case_decide; naive_solver.
  - rewrite lookup_insert_ne by done. rewrite !decide_False by naive_solver. done.
Qed.

Section Step.

Context (H : list Z) (st : mq_s) (A : pool) (Hok : mq_ok H st A).

Local Abbreviation r := (current (sched st)).

Lemma block_step k q i v :
  mqstate k → queues st !! q = Some i → r ≠ 0 → mview st A q = Some v →
  ∃ st' A', nxmq_block st q (count k 1) k = Some st' ∧ mq_ok H st' A' ∧ codes r A A' ∧
    turns (mview st A) (mview st' A') q (with_waiters k (enqueue (prio A) r (waiters_of k v)) v).
Proof.
  intros Hk Hi Hr Hv. destruct Hok as [Hs Hw Hst]. destruct (head_tcb _ A Hs) as (t & Hth & Ht & Hh & _).
  pose proof (ok_pool _ _ Hs) as HA. assert (Hin : r ∈ queue A rdy) by by apply head_Some_elem_of.
  unfold nxmq_block. rewrite Hth. cbn [mbind option_bind]. rewrite Hi. cbn [mbind option_bind].
  destruct (SemOps.upd_ok _ A r t (set_errcode OK) Hs Ht) as (sc1 & E1 & Hok1 & Hc1); [by intros []|].
  unfold on_sched. cbn [sched set_queue set_waitq]. rewrite E1. cbn [mbind option_bind sched].
  assert (Hn : is_Some (flink r (g_readytorun sc1))).
  { rewrite (v_ready sc1 _ (ok_view _ _ Hok1)). simpl. destruct (head_next A r HA Hr Hh) as (n & l & -> & _).
    rewrite flink_head. by eexists. }
  rewrite bool_decide_true by done. cbn [DEBUGASSERT mbind option_bind].
  destruct (mqstate_blocked k Hk) as (Hb & _). destruct (block_ok sc1 _ Hok1 r k Hin Hr Hb) as (sc2 & -> & Hok2).
  cbn [mbind option_bind]. pose proof (waits_inv _ _ A Hw HA r q i Hi k Hk Hin) as Hw2.
  assert (Hf : Sem.s16 (nwait k i + 1) = nwait k i + 1).
  { pose proof (wi_count _ _ _ Hw2 k q _ Hk (lookup_insert_eq _ _ _)) as Hcnt. rewrite nwait_set, decide_True in Hcnt by done.
    pose proof (waiting_few _ _ _ k q Hw2 (ok_pool _ _ Hok2)). apply SemSpec.s16_small. lia. }
  eexists _, (waits_pool A r k). split; [done|]. unfold count. cbn [queues msgs g_msgfree g_msgfreeirq msgwaitq sched]. rewrite Hf. split; [|split].
  - constructor; [exact Hok2|exact Hw2|]. eapply store_counts; [exact Hst|done|apply same_messages_wait].
  - intros x Hx. rewrite waits_core. by rewrite decide_False.
  - eapply turns_waiters; [done|done|done|done|done|]. intros k' q' Hk'. cbn [msgwaitq set_queue set_waitq].
    rewrite (waits_waiting _ A HA r q k Hk Hin k' q' Hk'). case_decide as Hx; [|done]. destruct Hx as [-> ->].
    unfold mview in Hv. rewrite Hi in Hv. simplify_eq/=. by destruct Hk as [-> | ->].
Qed.

Lemma first_waiter_head k q : q ≠ Sem.NULL →
  nxmq_first_waiter (msgwaitq st) q (queue A k) = head (waiting (msgwaitq st) A k q).
Proof.
  intros Hq. unfold waiting. induction (queue A k) as [|p l IH]; [done|]. simpl.
  destruct (Z.eqb_spec (default Sem.NULL (msgwaitq st !! p)) q) as [E|E]; cbn [negb].
  - rewrite filter_cons_True; [done|]. destruct (msgwaitq st !! p); simpl in E; congruence.
  - rewrite filter_cons_False; [done|]. intros Hp. rewrite Hp in E. done.
Qed.

Lemma wake_step k q i v :
  mqstate k → queues st !! q = Some i → mview st A q = Some v → waiters_of k v ≠ [] →
  ∃ st' A', nxmq_wake st q (count k (-1)) k = Some st' ∧ mq_ok H st' A' ∧ same_codes A A' ∧
    turns (mview st A) (mview st' A') q (with_waiters k (tail (waiters_of k v)) v) ∧
    (∀ x, prio A' x = prio A x) ∧ (∀ x, locks A' x = locks A x).
Proof.
  intros Hk Hi Hv Hne. destruct Hok as [Hs Hw Hst]. pose proof (ok_pool _ _ Hs) as HA.
  destruct (mi_queue _ _ _ _ _ Hst q i Hi) as (Hq0 & _).
  assert (waiters_of k v = waiting (msgwaitq st) A k q) as Hwv.
  { unfold mview in Hv. rewrite Hi in Hv. simplify_eq/=. by destruct Hk as [-> | ->]. }
  rewrite Hwv in *. destruct (mqstate_blocked k Hk) as (Hb & Hkr & _ & _).
  unfold nxmq_wake. rewrite (v_queue _ A (ok_view _ _ Hs)). replace (norm k) with k by (by destruct Hk as [-> | ->]).
  rewrite first_waiter_head by done. destruct (waiting (msgwaitq st) A k q) as [|p l] eqn:El; [done|].
  cbn [head mbind option_bind]. rewrite Hi. cbn [mbind option_bind].
  assert (Hp : p ∈ waiting (msgwaitq st) A k q) by (rewrite El; set_solver).
  apply list_elem_of_filter in Hp as [HWp Hp].
  assert (dq_rem p (p :: l) = l) as Hrem.
  { apply dq_rem_head. assert (NoDup (p :: l)) as Hnd by (rewrite <- El; by apply NoDup_filter, HA).
    by apply NoDup_cons in Hnd as [? _]. }
  destruct (unblock_ok _ A Hs p k Hp Hb) as (sc & E & Hok').
  unfold on_sched. cbn [sched set_queue set_waitq]. rewrite E. cbn [mbind option_bind].
  destruct (wakes_inv _ _ A Hw HA p q i Hi k Hk Hp HWp A) as [Hpos Hw2]; [done..|apply (wi_code _ _ _ Hw)|done|].
  assert (Hf : Sem.s16 (nwait k i + -1) = nwait k i - 1).
  { pose proof (waiting_few _ _ _ k q Hw HA). rewrite <- (wi_count _ _ _ Hw k q i) in * by done.
    rewrite SemSpec.s16_small; lia. }
  eexists _, (wakes_pool p k A). split; [done|]. unfold count. cbn [queues msgs g_msgfree g_msgfreeirq msgwaitq sched].
  rewrite Hf. split; [|split; [|split; [|split]]].
  - constructor; [exact Hok'|exact Hw2|]. eapply store_counts; [exact Hst|done|apply same_messages_wait].
  - intros x. by rewrite wakes_core.
  - eapply turns_waiters; [done|done|done|done|done|]. intros k' q' Hk'. cbn [msgwaitq set_queue set_waitq].
    rewrite (wakes_waiting _ A HA p q k Hp HWp A (λ _, eq_refl) k' q' Hk'). case_decide as Hx; [|done].
    by rewrite El, Hrem.
  - intros x. unfold prio. by rewrite wakes_core.
  - intros x. unfold locks. by rewrite wakes_core.
Qed.

(** A wait that a signal or a timeout ends. *)

Lemma end_wait_step k p q i v err :
  mqstate k → p ∈ queue A k → msgwaitq st !! p = Some q → queues st !! q = Some i → mview st A q = Some v → 0 ≤ err →
  0 < nwait k i ∧
  ∃ sc1 sc2 A', upd (set_errcode err) p (sched st) = Some sc1 ∧ up_unblock_task p sc1 = Some sc2 ∧
    let st' := mk_mq (<[q := count k (-1) i]> (queues st)) (msgs st) (g_msgfree st) (g_msgfreeirq st)
                 (delete p (msgwaitq st)) (waitdog st) sc2 in
    mq_ok H st' A' ∧ turns (mview st A) (mview st' A') q (with_waiters k (dq_rem p (waiters_of k v)) v) ∧
    errcode <$> core A' !! p = Some err ∧ codes p A A'.
Proof.
  intros Hk Hp HWp Hi Hv Herr. destruct Hok as [Hs Hw Hst]. pose proof (ok_pool _ _ Hs) as HA.
  destruct (v_tcb _ A (ok_view _ _ Hs) p) as (t & Ht & _); [by eapply w_known|].
  destruct (mqstate_blocked k Hk) as (Hb & _). destruct (w_known _ HA k p Hp) as [tc Htc].
  destruct (SemOps.upd_ok _ A p t (set_errcode err) Hs Ht) as (sc1 & E1 & Hok1 & _); [by intros []|].
  destruct (unblock_ok sc1 _ Hok1 p k Hp Hb) as (sc2 & E2 & Hok2). set (A0 := cupd (set_errcode err) p A) in *.
  assert (Hc0 : ∀ x, x ≠ p → errcode <$> core A0 !! x = errcode <$> core A !! x).
  { intros x Hx. simpl. by rewrite lookup_alter_ne. }
  assert (Hs0 : base.size (core A0) = base.size (core A)).
  { rewrite <- !(size_dom (D := gset Z)). simpl. by rewrite dom_alter. }
  destruct (wakes_inv _ _ A Hw HA p q i Hi k Hk Hp HWp A0 (λ _, eq_refl) Hc0) as [Hpos Hw2]; [|done|].
  { intros t'. simpl. rewrite lookup_alter_eq, Htc. by intros [= <-]. }
  split; [done|].
  assert (Hf : Sem.s16 (nwait k i + -1) = nwait k i - 1).
  { pose proof (waiting_few _ _ _ k q Hw HA). rewrite <- (wi_count _ _ _ Hw k q i) in * by done.
    rewrite SemSpec.s16_small; lia. }
  exists sc1, sc2, (wakes_pool p k A0). split; [done|]. split; [done|]. unfold count. rewrite Hf. cbn zeta.
  split; [|split; [|split]].
  - constructor; [exact Hok2|exact Hw2|]. eapply store_counts; [exact Hst|done|apply same_messages_wait].
  - eapply turns_waiters; [done|done|done|done|done|]. intros k' q' Hk'. cbn [msgwaitq].
    rewrite (wakes_waiting _ A HA p q k Hp HWp A0 (λ _, eq_refl) k' q' Hk'). case_decide as Hx; [|done]. f_equal.
    unfold mview in Hv. rewrite Hi in Hv. simplify_eq/=. by destruct Hk as [-> | ->].
  - rewrite wakes_core. simpl. by rewrite lookup_alter_eq, Htc.
  - intros x Hx. rewrite wakes_core. by apply Hc0.
Qed.

(** The tasks that wait, as the code finds them. *)

Lemma waits_state p t : tcbs (sched st) !! p = Some t →
  ∀ k, mqstate k → task_state t = k ↔ p ∈ queue A k.
Proof.
  intros Ht k Hk. destruct Hok as [Hs _ _]. pose proof (ok_view _ _ Hs) as HV. pose proof (ok_pool _ _ Hs) as HA.
  split.
  - intros E. pose proof (v_queued _ A HV HA p t Ht) as Hq. rewrite E in Hq. destruct Hk as [-> | ->]; by apply Hq.
  - intros Hp. pose proof (v_in _ A HV HA k p t Hp Ht) as E. destruct Hk as [-> | ->]; exact E.
Qed.

Lemma irq_step p t err :
  tcbs (sched st) !! p = Some t → 0 ≤ err →
  ∃ st' A', nxmq_wait_irq st p err = Some st' ∧ mq_ok H st' A' ∧ codes p A A' ∧
    ((∃ k q v, mqstate k ∧ mview st A q = Some v ∧ p ∈ waiters_of k v ∧ errcode <$> core A' !! p = Some err ∧
        turns (mview st A) (mview st' A') q (with_waiters k (dq_rem p (waiters_of k v)) v)) ∨
     (∀ q v k, mview st A q = Some v → p ∉ waiters_of k v) ∧ st' = st ∧ A' = A).
Proof.
  intros Ht Herr. pose proof (waits_state p t Ht) as Hws. unfold nxmq_wait_irq. rewrite Ht. cbn [mbind option_bind].
  pose proof Hok as [Hs Hw Hst].
  assert (Hwait : ∀ k, mqstate k → p ∈ queue A k → ∃ q i, msgwaitq st !! p = Some q ∧ queues st !! q = Some i ∧
    ∃ v, mview st A q = Some v ∧ p ∈ waiters_of k v).
  { intros k Hk Hp. destruct (wi_in _ _ _ Hw k p Hk Hp) as (q & HWp & [i Hi]). exists q, i. do 2 (split; [done|]).
    eexists. split; [by apply mview_some|]. destruct Hk as [-> | ->]; by apply list_elem_of_filter. }
  case_decide as Hst'.
  - assert (∃ k, mqstate k ∧ task_state t = k) as (k & Hk & Ek) by (destruct Hst'; eexists; split; [by left|done|by right|done]).
    destruct (Hwait k Hk) as (q & i & HWp & Hi & v & Hv & Hpv); [by apply Hws|].
    rewrite HWp. cbn [mbind option_bind set_waitq queues]. rewrite Hi. cbn [mbind option_bind].
    destruct (end_wait_step k p q i v err) as (Hpos & sc1 & sc2 & A' & E1 & E2 & Hok' & Ht' & He & Hcd); try done; [by apply Hws|].
    eexists _, A'. split; [|split; [exact Hok'|split; [done|left; exists k, q, v; done]]].
    destruct Hk as [-> | ->]; rewrite Ek; (case_decide; [|try done]); try done;
      rewrite (proj2 (Z.ltb_lt _ _)) by done; cbn [DEBUGASSERT mbind option_bind];
      unfold on_sched; cbn [sched set_queue set_waitq]; rewrite E1; cbn [mbind option_bind sched]; by rewrite E2.
  - exists st, A. split; [done|]. split; [done|]. split; [done|]. right. split; [|done]. intros q v k Hv Hp.
    unfold mview in Hv. destruct (queues st !! q); simplify_eq/=.
    apply Hst'. destruct k; simpl in Hp; apply list_elem_of_filter in Hp as [_ Hp];
      first [left; apply Hws; [by left|exact Hp]|right; apply Hws; [by right|exact Hp]].
Qed.

End Step.

(** ** Messages *)

(** A message behind those of its priority and before those of lower ones. *)

Fixpoint insert_content (e : Z * list Z) (l : list (Z * list Z)) : list (Z * list Z) :=
  match l with
  | [] => [e]
  | x :: l' => if e.1 <=? x.1 then x :: insert_content e l' else e :: l
  end.

Lemma insert_content_length e (l : list (Z * list Z)) : length (insert_content e l) = Datatypes.S (length l).
Proof. induction l as [|x l IH]; [done|]. simpl. case_if; simpl; [by rewrite IH|done]. Qed.

Lemma content_prio M m : (content M m).1 = mprio M m.
Proof. unfold content, mprio. by destruct (M !! m). Qed.

Lemma enqueue_content M m l :
  content M <$> enqueue (mprio M) m l = insert_content (content M m) (content M <$> l).
Proof.
  unfold enqueue. induction l as [|x l IH]; [done|]. simpl. rewrite !content_prio. case_if; simpl; [f_equal; exact IH|done].
Qed.

(** A message that is in no queue does not show. *)

Lemma content_other M m c l : m ∉ l → content (<[m := c]> M) <$> l = content M <$> l.
Proof.
  intros Hm. apply list_fmap_ext. intros j x Hx. apply list_elem_of_lookup_2 in Hx. unfold content.
  rewrite lookup_insert_ne; [done|]. intros <-. done.
Qed.

(** The tasks that are suspended hold the messages [hs]. *)

Section Held.

Context (hs : list Z).

Definition held (r : option Z) : list Z := match r with Some m => m :: hs | None => hs end.

(** What [kmm_malloc] returns. *)

Definition fresh_msg st (dyn : option (Z * list Z)) : Prop :=
  match dyn with
  | Some (m, bytes) => msgs st !! m = None ∧ m ≠ Sem.NULL ∧ Z.of_nat (length bytes) = MQ_MAX_BYTES ∧
      Z.of_nat (base.size (msgs st)) + 1 < 2 ^ 15
  | None => True
  end.

Lemma alloc_step irq st A dyn :
  mq_ok hs st A → fresh_msg st dyn →
  let '(r, st') := nxmq_alloc_msg irq st dyn in
  queues st' = queues st ∧ sched st' = sched st ∧ stays (mview st A) (mview st' A) ∧ mq_ok (held r) st' A ∧
  (r = None → g_msgfree st = [] ∧ (if irq then g_msgfreeirq st = [] else dyn = None)).
Proof.
  intros Hok Hd. pose proof Hok as [Hs Hw Hst]. unfold nxmq_alloc_msg. destruct (g_msgfree st) as [|m l] eqn:Ef.
  - destruct irq.
    + destruct (g_msgfreeirq st) as [|m l] eqn:Ei; [by split_and!|]. do 3 (split; [done|]). split; [|done].
      constructor; [done..|]. simpl. rewrite Ef. eapply (store_take _ _ _ _ _ _ _ FreeIrq); [exact Hst|done|done|].
      intros [| |q]; case_decide; simpl; congruence.
    + destruct dyn as [[m bytes]|]; [|by split_and!]. destruct Hd as (Hm & Hn & Hb & Hsz).
      do 2 (split; [done|]). split; [|split; [|done]].
      * intros q. unfold mview. simpl. destruct (queues st !! q) as [i|] eqn:Hi; [|done]. simpl.
        rewrite content_other; [done|]. intros Hin.
        destruct (pl_known _ _ _ (mi_places _ _ _ _ _ Hst) (In q) m) as [[? ?] _]; [simpl; by rewrite Hi|congruence].
      * constructor; [done..|]. simpl. rewrite Ef. by apply store_alloc.
  - do 3 (split; [done|]). split; [|done]. constructor; [done..|]. simpl.
    eapply (store_take _ _ _ _ _ _ _ Free); [exact Hst|done|done|].
    intros [| |q]; case_decide; simpl; congruence.
Qed.

Lemma mem_copy (src dst : list Z) n :
  0 ≤ n ≤ Z.of_nat (length src) → n ≤ Z.of_nat (length dst) →
  ∃ bytes dst', mem_read src 0 n = Some bytes ∧ mem_write dst 0 bytes = Some dst' ∧
    bytes = firstn (Z.to_nat n) src ∧ length dst' = length dst ∧ firstn (Z.to_nat n) dst' = bytes.
Proof.
  intros Hs Hd. assert (length (firstn (Z.to_nat n) src) = Z.to_nat n) as Hl by (rewrite length_take; lia).
  exists (firstn (Z.to_nat n) src), (list_inserts 0 (firstn (Z.to_nat n) src) dst).
  rewrite mem_read_Some by lia. rewrite drop_0. split; [done|]. rewrite mem_write_Some by (rewrite ?Hl; lia).
  split; [done|]. split; [done|]. split; [apply length_inserts|].
  rewrite inserts_split by (rewrite Hl; lia). simpl. by rewrite take_app_length' by done.
Qed.

(** ** Sending *)

Definition delivered (e : Z * list Z) (v : mqueue) : mqueue :=
  mk_mqueue (capacity v) (msize v) (insert_content e (contents v)) (tail (receivers v)) (senders v).

Lemma put_step st A q i v m c n prio :
  mq_ok (m :: hs) st A → queues st !! q = Some i → mview st A q = Some v → msgs st !! m = Some c →
  Z.of_nat (length (mail c)) = MQ_MAX_BYTES → n = msglen c → 0 ≤ n ≤ maxmsgsize i → mpriority c = prio →
  let l := enqueue (mprio (msgs st)) m (msglist i) in
  insert_message (msgs st) prio m (msglist i) = Some l ∧
  let st' := set_queue st q (set_msglist l (Sem.s16 (nmsgs i + 1)) i) in
  mq_ok hs st' A ∧
  turns (mview st A) (mview st' A) q
    (mk_mqueue (capacity v) (msize v) (insert_content (content (msgs st) m) (contents v)) (receivers v) (senders v)).
Proof.
  intros Hok Hi Hv Hc Hmail -> Hlen Hp. pose proof Hok as [Hs Hw Hst]. cbn zeta. split.
  { apply insert_message_enqueue; [unfold mprio; by rewrite Hc|]. intros x Hx.
    apply (pl_known _ _ _ (mi_places _ _ _ _ _ Hst) (In q)). simpl. by rewrite Hi. }
  pose proof (store_put _ _ _ _ _ q i m c Hst Hi Hmail Hlen) as Hst'. rewrite (insert_id (msgs st) m c Hc) in Hst'.
  assert (Sem.s16 (nmsgs i + 1) = nmsgs i + 1) as ->.
  { pose proof (few_messages _ _ _ _ _ q _ Hst' (lookup_insert_eq _ _ _)) as Hf. simpl in Hf. apply SemSpec.s16_small. lia. }
  split.
  - constructor; [done|by apply wait_msglist|done].
  - intros x. unfold mview in *. simpl. rewrite Hi in Hv. simplify_eq/=.
    destruct (decide (x = q)) as [->|]; [|by rewrite lookup_insert_ne]. rewrite lookup_insert_eq. simpl.
    by rewrite enqueue_content.
Qed.

(** A task that waits is woken, if there is one. *)

Lemma wake_if_step st A S k q i v :
  mqstate k → mq_ok hs st A → queues st !! q = Some i → turns S (mview st A) q v →
  ∃ st' A', (if 0 <? nwait k i then nxmq_wake st q (count k (-1)) k else Some st) = Some st' ∧ mq_ok hs st' A' ∧ same_codes A A' ∧
    turns S (mview st' A') q (with_waiters k (tail (waiters_of k v)) v).
Proof.
  intros Hk Hok Hi Ht. assert (Hv : mview st A q = Some v) by (specialize (Ht q); by rewrite decide_True in Ht).
  assert (nwait k i = Z.of_nat (length (waiters_of k v))) as Hn.
  { rewrite (mview_some st A q i Hi) in Hv. simplify_eq/=. rewrite (wi_count _ _ _ (mo_wait _ _ _ Hok) k q i) by done.
    by destruct Hk as [-> | ->]. }
  case_if.
  - destruct (wake_step hs st A Hok k q i v) as (st1 & A1 & E1 & Hok1 & Hc1 & Ht1 & _); [done..| |].
    { intros Hr. rewrite Hr in Hn. simpl in Hn. lia. }
    exists st1, A1. do 3 (split; [done|]). by eapply turns_trans.
  - exists st, A. do 3 (split; [done|]). destruct v as [cap ms con rc sn].
    destruct Hk as [-> | ->]; simpl in *; [destruct rc|destruct sn]; (done || (simpl in Hn; lia)).
Qed.

(** The end of [nxmq_do_send]. *)

Lemma deliver_step irq st A S q i v :
  mq_ok hs st A → queues st !! q = Some i → turns S (mview st A) q v →
  ∃ st' A', (st ← (if 0 <? nwaitnotempty i then nxmq_wake st q less_notempty mqe else Some st);
             on_sched (sched_unlock irq) st) = Some st' ∧ mq_ok hs st' A' ∧ same_codes A A' ∧
    turns S (mview st' A') q (with_waiters mqe (tail (receivers v)) v).
Proof.
  intros Hok Hi Ht. destruct (wake_if_step st A S mqe q i v) as (st1 & A1 & E1 & Hok1 & Hc1 & Ht1); [by left|done..|].
  change (nwait mqe i) with (nwaitnotempty i) in E1. change (count mqe (-1)) with less_notempty in E1. rewrite E1.
  cbn [mbind option_bind]. destruct (unlock_step hs irq st1 A1 Hok1) as (sc & A2 & -> & Hok2 & Hc2 & Hv2).
  eexists _, A2. split; [done|]. split; [done|]. split; [by etransitivity|by rewrite <- Hv2].
Qed.

Lemma do_send_step irq st A q i v m msg n prio :
  mq_ok (m :: hs) st A → queues st !! q = Some i → mview st A q = Some v →
  0 ≤ n ≤ maxmsgsize i → n ≤ Z.of_nat (length msg) → 0 ≤ prio ≤ MQ_PRIO_MAX → lockable irq 1 st A →
  ∃ st' A', nxmq_do_send irq st q m msg n prio = Some st' ∧ mq_ok hs st' A' ∧ same_codes A A' ∧
    turns (mview st A) (mview st' A') q (delivered (prio, firstn (Z.to_nat n) msg) v).
Proof.
  intros Hok Hi Hv Hn Hmsg Hprio Hlk. unfold nxmq_do_send.
  destruct (lock_step (m :: hs) irq 0 st A Hok) as (sc & A1 & -> & Hok1 & Hc1 & Hv1 & _ & _ & Hpr1); [done|done|].
  cbn [mbind option_bind with_sched msgs queues]. pose proof Hok1 as [_ _ Hst1]. simpl in Hst1.
  destruct (pl_held _ _ _ (mi_places _ _ _ _ _ Hst1) m (list_elem_of_here _ _)) as ([c Hc] & _ & Hno). rewrite Hc. cbn [mbind option_bind].
  pose proof (mi_mail _ _ _ _ _ Hst1 m c Hc) as Hml. destruct (mi_queue _ _ _ _ _ Hst1 q i Hi) as (_ & _ & Hsz & _).
  unfold MQ_MAX_BYTES, MQ_PRIO_MAX in *.
  destruct (mem_copy msg (mail c) n) as (bytes & ml & -> & E2 & -> & Hl2 & Hb2); [lia|lia|].
  cbn [mbind option_bind]. rewrite E2. cbn [mbind option_bind]. rewrite !u8_small by lia.
  set (c' := mk_msg (type c) prio n ml).
  set (st2 := set_msg (with_sched st sc) m c').
  assert (Hok2 : mq_ok (m :: hs) st2 A1).
  { destruct Hok1 as [? ? ?]. constructor; [done..|]. apply store_fill; [done|]. simpl. unfold MQ_MAX_BYTES. lia. }
  assert (Hv2 : stays (mview st A) (mview st2 A1)).
  { etransitivity; [exact Hv1|]. intros x. unfold mview. simpl. destruct (queues st !! x) as [j|] eqn:Hj; [|done].
    simpl. rewrite content_other; [done|]. specialize (Hno (In x)). simpl in Hno. by rewrite Hj in Hno. }
  assert (Hm2 : msgs st2 !! m = Some c') by apply lookup_insert_eq.
  assert (mview st2 A1 q = Some v) as Hvq by by rewrite Hv2.
  destruct (put_step st2 A1 q i v m c' n prio) as (E3 & Hok3 & Ht3); try done.
  { simpl. unfold MQ_MAX_BYTES. lia. }
  change (queues st2 !! q) with (queues st !! q). rewrite Hi. cbn [mbind option_bind]. rewrite E3. cbn [mbind option_bind].
  set (st3 := set_queue st2 q _) in *. replace (content (msgs st2) m) with (prio, firstn (Z.to_nat n) msg) in Ht3.
  - rewrite <- Hv2 in Ht3.
    destruct (deliver_step irq st3 A1 (mview st A) q _ _ Hok3 (lookup_insert_eq _ _ _) Ht3) as (st' & A' & E4 & Hok' & Hc' & Ht').
    exists st', A'. do 2 (split; [done|]). split; [by etransitivity|done].
  - unfold content. rewrite Hm2. simpl. by rewrite Hb2.
Qed.

Definition dyn_of (irq : bool) (dyn : option (Z * list Z)) st : Prop :=
  g_msgfree st = [] ∧ (if irq then g_msgfreeirq st = [] else dyn = None).

Lemma send_tail_ok irq st A q i v msg n prio dyn :
  mq_ok hs st A → queues st !! q = Some i → mview st A q = Some v → 0 ≤ n ≤ maxmsgsize i →
  n ≤ Z.of_nat (length msg) → 0 ≤ prio ≤ MQ_PRIO_MAX → lockable irq 1 st A → fresh_msg st dyn →
  ∃ ret st' A', file_mq_send_tail irq st q msg n prio dyn (Some OK) = Some (Some ret, st') ∧ mq_ok hs st' A' ∧ same_codes A A' ∧
    (ret = OK ∧ turns (mview st A) (mview st' A') q (delivered (prio, firstn (Z.to_nat n) msg) v) ∨
     ret = - ENOMEM ∧ stays (mview st A) (mview st' A') ∧ dyn_of irq dyn st).
Proof.
  intros Hok Hi Hv Hn Hmsg Hprio Hlk Hd. unfold file_mq_send_tail. change (0 <=? OK) with true. cbn iota.
  pose proof (alloc_step irq st A dyn Hok Hd) as Ha. destruct (nxmq_alloc_msg irq st dyn) as [[m|] st1].
  - destruct Ha as (Hq & Hs & Hv1 & Hok1 & _).
    destruct (do_send_step irq st1 A q i v m msg n prio) as (st2 & A2 & -> & Hok2 & Hc2 & Ht2); try done.
    { by rewrite Hq. } { by rewrite Hv1. } { unfold lockable in *. by rewrite Hs. }
    cbn [mbind option_bind]. destruct (unlock_step hs irq st2 A2 Hok2) as (sc & A3 & -> & Hok3 & Hc3 & Hv3).
    eexists OK, _, A3. split; [done|]. split; [done|]. split; [by etransitivity|]. left. split; [done|]. by rewrite <- Hv3, Hv1.
  - destruct Ha as (Hq & Hs & Hv1 & Hok1 & Hd1). cbn [mbind option_bind].
    destruct (unlock_step hs irq st1 A Hok1) as (sc & A3 & -> & Hok3 & Hc3 & Hv3).
    eexists _, _, A3. do 3 (split; [done|]). right. split; [done|]. split; [|by apply Hd1].
    by etransitivity.
Qed.

Lemma send_tail_error irq st A q msg n prio dyn ret :
  mq_ok hs st A → ret < 0 →
  ∃ st' A', file_mq_send_tail irq st q msg n prio dyn (Some ret) = Some (Some ret, st') ∧ mq_ok hs st' A' ∧ same_codes A A' ∧
    stays (mview st A) (mview st' A').
Proof.
  intros Hok Hret. unfold file_mq_send_tail. rewrite (proj2 (Z.leb_gt _ _)) by done. cbn [mbind option_bind].
  destruct (unlock_step hs irq st A Hok) as (sc & A' & -> & Hok' & Hc & Hv). by eexists _, A'.
Qed.

(** *** What sending does to the queues

    [pr] is the priority of the tasks and [r] the running one. *)

Definition full (v : mqueue) : Prop := capacity v ≤ Z.of_nat (length (contents v)).

Inductive sends (pr : Z → Z) (r : Z) (S S' : Z → option mqueue) (irq : bool) (q oflags n : Z) (e : Z * list Z)
  : option Z → Prop :=
  | sent v : S q = Some v → n ≤ msize v → irq = true ∨ ¬ full v → turns S S' q (delivered e v) →
      sends pr r S S' irq q oflags n e (Some OK)
  | send_would_block v : S q = Some v → full v → Z.land oflags O_NONBLOCK ≠ 0 → stays S S' →
      sends pr r S S' irq q oflags n e (Some (- Sem.EAGAIN))
  | send_blocks v : S q = Some v → n ≤ msize v → e.1 ≤ MQ_PRIO_MAX → full v → Z.land oflags O_NONBLOCK = 0 → irq = false →
      turns S S' q (with_waiters mqf (enqueue pr r (senders v)) v) → sends pr r S S' irq q oflags n e None
  | send_invalid : MQ_PRIO_MAX < e.1 → stays S S' → sends pr r S S' irq q oflags n e (Some (- EINVAL))
  | send_no_memory : stays S S' → sends pr r S S' irq q oflags n e (Some (- ENOMEM))
  | send_not_permitted : Z.land oflags O_WROK = 0 → stays S S' → sends pr r S S' irq q oflags n e (Some (- EPERM))
  | send_too_long v : S q = Some v → msize v < n → stays S S' → sends pr r S S' irq q oflags n e (Some (- EMSGSIZE)).

(** When a task that has waited for room runs again. *)

Inductive resends (pr : Z → Z) (r : Z) (S S' : Z → option mqueue) (q : Z) (e : Z * list Z) (err : Z) : option Z → Prop :=
  | resent v : err = OK → S q = Some v → (¬ full v) → turns S S' q (delivered e v) →
      resends pr r S S' q e err (Some OK)
  | resend_blocks v : err = OK → S q = Some v → full v →
      turns S S' q (with_waiters mqf (enqueue pr r (senders v)) v) → resends pr r S S' q e err None
  | resend_no_memory : err = OK → stays S S' → resends pr r S S' q e err (Some (- ENOMEM))
  | resend_ended : err ≠ OK → stays S S' → resends pr r S S' q e err (Some (- err)).

Lemma full_nmsgs st A q i v : mq_ok hs st A → queues st !! q = Some i → mview st A q = Some v →
  (maxmsgs i <=? nmsgs i) = bool_decide (full v) ∧ maxmsgsize i = msize v.
Proof.
  intros Hok Hi Hv. destruct (mi_queue _ _ _ _ _ (mo_store _ _ _ Hok) q i Hi) as (_ & -> & _).
  rewrite (mview_some st A q i Hi) in Hv. simplify_eq/=. split; [|done]. unfold full. simpl. rewrite length_fmap.
  case_bool_decide; [apply Z.leb_le|apply Z.leb_gt]; lia.
Qed.

Definition tail_ends pr r S st' A' q (e : Z * list Z) v (ret : option Z) : Prop :=
  match ret with
  | None => full v ∧ turns S (mview st' A') q (with_waiters mqf (enqueue pr r (senders v)) v)
  | Some ret =>
      ret = OK ∧ (¬ full v) ∧ turns S (mview st' A') q (delivered e v) ∨ ret = - ENOMEM ∧ stays S (mview st' A')
  end.

(** The loop that waits for room, and what follows. *)

Lemma wait_send_step st A q i v msg n prio dyn :
  mq_ok hs st A → queues st !! q = Some i → mview st A q = Some v → current (sched st) ≠ 0 →
  0 ≤ n ≤ maxmsgsize i → n ≤ Z.of_nat (length msg) → 0 ≤ prio ≤ MQ_PRIO_MAX → lockable false 1 st A → fresh_msg st dyn →
  ∃ ret st' A', ('(ret, st) ← wait_send_loop st q; file_mq_send_tail false st q msg n prio dyn ret) = Some (ret, st') ∧
    mq_ok hs st' A' ∧ codes (current (sched st)) A A' ∧
    tail_ends (SchedSpec.prio A) (current (sched st)) (mview st A) st' A' q (prio, firstn (Z.to_nat n) msg) v ret.
Proof.
  intros Hok Hi Hv Hr Hn Hmsg Hprio Hlk Hd. unfold wait_send_loop. rewrite Hi. cbn [mbind option_bind].
  destruct (full_nmsgs st A q i v Hok Hi Hv) as [-> _]. case_bool_decide as Hf.
  - destruct (block_step hs st A Hok mqf q i v) as (st' & A' & E & Hok' & Hc & Ht); [by right|done..|].
    change (count mqf 1) with more_notfull in E. rewrite E. cbn [mbind option_bind]. by exists None, st', A'.
  - cbn [mbind option_bind].
    destruct (send_tail_ok false st A q i v msg n prio dyn) as (ret & st' & A' & -> & Hok' & Hc & Hret); try done.
    exists (Some ret), st', A'. split; [done|]. split; [done|]. split; [by apply codes_same|]. simpl. naive_solver.
Qed.

Section Calls.

Context (st : mq_s) (A : pool) (Hok : mq_ok hs st A) (q : Z) (i : mqueue_inode_s) (Hi : queues st !! q = Some i).
Context (msg : list Z) (n prio : Z) (Hn : 0 ≤ n ≤ Z.of_nat (length msg)) (Hprio : 0 ≤ prio).
Context (dyn : option (Z * list Z)) (Hd : fresh_msg st dyn).

Local Abbreviation e := (prio, firstn (Z.to_nat n) msg).
Local Abbreviation r := (current (sched st)).

Lemma enqueue_prio A' l : (∀ x, SchedSpec.prio A' x = SchedSpec.prio A x) →
  enqueue (SchedSpec.prio A') r l = enqueue (SchedSpec.prio A) r l.
Proof. intros HP. apply enqueue_ext. intros x _. apply HP. Qed.

Lemma send_ok irq oflags :
  lockable irq 2 st A → irq = true ∨ r ≠ 0 →
  ∃ ret st' A', file_mq_send irq st (mk_file (Some q) oflags) (Some msg) n prio dyn = Some (ret, st') ∧
    mq_ok hs st' A' ∧ codes r A A' ∧ (irq = true → same_codes A A') ∧
    sends (SchedSpec.prio A) r (mview st A) (mview st' A') irq q oflags n e ret.
Proof.
  intros Hlk Hr. pose proof (mview_some st A q i Hi) as Hv. destruct (mi_queue _ _ _ _ _ (mo_store _ _ _ Hok) q i Hi) as (Hq0 & _).
  unfold file_mq_send. cbn [f_inode f_oflags]. change (default [] (Some msg)) with msg. unfold nxmq_verify_send.
  rewrite (proj2 (Z.eqb_neq q Sem.NULL)), bool_decide_false by done. cbn [orb].
  destruct (Z.ltb_spec MQ_PRIO_MAX prio) as [Hmax|Hmax].
  { exists (Some (- EINVAL)), st, A. do 4 (split; [done|]). by apply send_invalid. }
  destruct (Z.eqb_spec (Z.land oflags O_WROK) 0) as [Hw|Hw].
  { exists (Some (- EPERM)), st, A. do 4 (split; [done|]). by apply send_not_permitted. }
  rewrite Hi. cbn [mbind option_bind]. destruct (Z.ltb_spec (maxmsgsize i) n) as [Hsz|Hsz].
  { exists (Some (- EMSGSIZE)), st, A. do 4 (split; [done|]). by eapply send_too_long. }
  change (OK <? 0) with false. cbn iota.
  destruct (lock_step hs irq 1 st A Hok) as (sc & A1 & -> & Hok1 & Hcd1 & Hv1 & Hlk1 & Hc1 & Hp1); [done|lia|]. cbn [mbind option_bind].
  set (st1 := with_sched st sc) in *. assert (Hi1 : queues st1 !! q = Some i) by done.
  assert (Hv1q : mview st1 A1 q = mview st A q) by by rewrite Hv1. rewrite Hv in Hv1q.
  set (v := mk_mqueue _ _ _ _ _) in *. destruct (full_nmsgs st1 A1 q i v Hok1 Hi1 Hv1q) as [Hfull Hms].
  destruct irq; cbn [negb mbind option_bind].
  - destruct (send_tail_ok true st1 A1 q i v msg n prio dyn) as (ret & st' & A' & -> & Hok' & Hcd & Hret); try done; try lia.
    exists (Some ret), st', A'. do 2 (split; [done|]). split; [by apply codes_same; etransitivity|]. split; [by etransitivity|].
    destruct Hret as [[-> Ht]|(-> & Hs & _)]; [|by apply send_no_memory; etransitivity].
    eapply sent; [done|done|by left|]. by rewrite Hv1.
  - rewrite Hi1. cbn [mbind option_bind]. unfold nxmq_wait_send. rewrite Hi1. cbn [mbind option_bind]. rewrite Hfull.
    assert (Hr0 : current (sched st1) ≠ 0) by (simpl; rewrite Hc1; by destruct Hr). case_bool_decide as Hf.
    + destruct (Z.eqb_spec (Z.land oflags O_NONBLOCK) 0) as [Hnb|Hnb]; cbn [negb].
      * destruct (wait_send_step st1 A1 q i v msg n prio dyn) as (ret & st' & A' & -> & Hok' & Hcd & Hret); try done; try lia.
        simpl in Hcd. rewrite Hc1 in Hcd. exists ret, st', A'. do 2 (split; [done|]). split; [by eapply codes_after|]. split; [done|]. destruct ret as [ret|]; simpl in Hret.
        -- destruct Hret as [(_ & ? & _)|[-> Hs]]; [done|]. by apply send_no_memory; etransitivity.
        -- destruct Hret as [_ Ht]. rewrite Hc1, enqueue_prio in Ht by done. eapply send_blocks; [done..|]. by rewrite Hv1.
      * cbn [mbind option_bind].
        destruct (send_tail_error false st1 A1 q msg n prio dyn (- Sem.EAGAIN)) as (st' & A' & -> & Hok' & Hcd & Hs); [done|done|].
        eexists _, st', A'. do 2 (split; [done|]). split; [by apply codes_same; etransitivity|]. split; [done|]. eapply send_would_block; [done..|]. by etransitivity.
    + cbn [mbind option_bind].
      destruct (send_tail_ok false st1 A1 q i v msg n prio dyn) as (ret & st' & A' & -> & Hok' & Hcd & Hret); try done; try lia.
      exists (Some ret), st', A'. do 2 (split; [done|]). split; [by apply codes_same; etransitivity|]. split; [done|].
      destruct Hret as [[-> Ht]|(-> & Hs & _)]; [|by apply send_no_memory; etransitivity].
      eapply sent; [done|done|by right|]. by rewrite Hv1.
Qed.

Lemma resend_ok err :
  lockable false 1 st A → r ≠ 0 → n ≤ maxmsgsize i → prio ≤ MQ_PRIO_MAX → wait_error st = Some err → 0 ≤ err →
  ∃ ret st' A', file_mq_send_resumed st q msg n prio dyn = Some (ret, st') ∧ mq_ok hs st' A' ∧ codes r A A' ∧
    resends (SchedSpec.prio A) r (mview st A) (mview st' A') q e err ret.
Proof.
  intros Hlk Hr Hsz Hmax He Hpos. pose proof (mview_some st A q i Hi) as Hv. set (v := mk_mqueue _ _ _ _ _) in *.
  unfold file_mq_send_resumed, nxmq_wait_send_resumed. rewrite He. cbn [mbind option_bind].
  destruct (Z.eqb_spec err OK) as [->|Hne]; cbn [negb].
  - destruct (wait_send_step st A q i v msg n prio dyn) as (ret & st' & A' & -> & Hok' & Hcd & Hret); try done; try lia.
    exists ret, st', A'. do 3 (split; [done|]). destruct ret as [ret|]; simpl in Hret.
    + destruct Hret as [(-> & Hf & Ht)|[-> Hs]]; [by eapply resent|by apply resend_no_memory].
    + destruct Hret as [Hf Ht]. by eapply resend_blocks.
  - cbn [mbind option_bind]. destruct (send_tail_error false st A q msg n prio dyn (- err)) as (st' & A' & -> & Hok' & Hcd & Hs).
    { done. } { unfold OK in Hne. lia. }
    eexists _, st', A'. do 2 (split; [done|]). split; [by apply codes_same|]. by apply resend_ended.
Qed.

End Calls.

(** ** Receiving *)

Lemma free_step st A m :
  mq_ok (m :: hs) st A → (∀ q i, queues st !! q = Some i → m ∉ msglist i) →
  ∃ st', nxmq_free_msg st m = Some st' ∧ mq_ok hs st' A ∧ queues st' = queues st ∧ sched st' = sched st ∧
    stays (mview st A) (mview st' A).
Proof.
  intros [Hs Hw Hst] Hno. destruct (pl_held _ _ _ (mi_places _ _ _ _ _ Hst) m (list_elem_of_here _ _)) as ([c Hc] & _ & _).
  pose proof (store_back _ _ _ _ _ m c Hst Hc) as Hb. unfold nxmq_free_msg. rewrite Hc. cbn [mbind option_bind].
  destruct (type c); (eexists; split; [done|split; [by constructor|split; [done|split; [done|]]]]); try done.
  intros q. unfold mview. simpl. destruct (queues st !! q) as [i|] eqn:Hi; [|done]. simpl. f_equal. f_equal.
  apply list_fmap_ext. intros j x Hx. apply list_elem_of_lookup_2 in Hx. unfold content.
  rewrite lookup_delete_ne; [done|]. intros <-. by apply (Hno q i).
Qed.

(** The first message is taken and a task that waits for room is woken. *)

Definition taken (v : mqueue) : mqueue :=
  mk_mqueue (capacity v) (msize v) (tail (contents v)) (receivers v) (tail (senders v)).

Definition gets (x : Z * list Z) (buf : list Z) : received :=
  (Z.of_nat (length x.2), x.2 ++ drop (length x.2) buf, Some x.1).

Lemma do_receive_step st A S q i v m c buf :
  mq_ok (m :: hs) st A → queues st !! q = Some i → turns S (mview st A) q v → msgs st !! m = Some c →
  0 ≤ msglen c ≤ MQ_MAX_BYTES → msglen c ≤ Z.of_nat (length buf) →
  ∃ st' A', nxmq_do_receive Some st q m buf
            = Some (msglen c, (content (msgs st) m).2 ++ drop (Z.to_nat (msglen c)) buf, mpriority c, st') ∧
    mq_ok hs st' A' ∧ same_codes A A' ∧ turns S (mview st' A') q (with_waiters mqf (tail (senders v)) v).
Proof.
  intros Hok Hi Ht Hc Hlen Hbuf. pose proof Hok as [_ _ Hst]. pose proof (mi_mail _ _ _ _ _ Hst m c Hc) as Hml.
  assert (length (firstn (Z.to_nat (msglen c)) (mail c)) = Z.to_nat (msglen c)) as Hl by (rewrite length_take; lia).
  unfold nxmq_do_receive. rewrite Hc. cbn [mbind option_bind]. rewrite mem_read_Some, drop_0 by lia. cbn [mbind option_bind].
  rewrite mem_write_Some by (rewrite ?Hl; lia). cbn [mbind option_bind].
  rewrite inserts_split by (rewrite Hl; lia). rewrite Hl. unfold content. rewrite Hc. cbn [Z.to_nat firstn app Nat.add snd].
  destruct (free_step st A m Hok) as (st1 & -> & Hok1 & Hq1 & _ & Hv1).
  { intros x j Hj Hin. apply (proj2 (proj2 (pl_held _ _ _ (mi_places _ _ _ _ _ Hst) m (list_elem_of_here _ _))) (In x)). simpl. by rewrite Hj. }
  cbn [mbind option_bind]. rewrite Hq1, Hi. cbn [mbind option_bind].
  destruct (wake_if_step st1 A S mqf q i v) as (st2 & A2 & E2 & Hok2 & Hc2 & Ht2); [by right|done|by rewrite Hq1|by rewrite <- Hv1|].
  change (nwait mqf i) with (nwaitnotfull i) in E2. change (count mqf (-1)) with less_notfull in E2. rewrite E2.
  cbn [mbind option_bind]. by exists st2, A2.
Qed.

(** *** What receiving does to the queues *)

Inductive takes (pr : Z → Z) (r : Z) (S S' : Z → option mqueue) (q oflags : Z) (buf : list Z) : option received → Prop :=
  | take_got v (x : Z * list Z) (l : list (Z * list Z)) : S q = Some v → contents v = x :: l → turns S S' q (taken v) →
      takes pr r S S' q oflags buf (Some (gets x buf))
  | take_blocks v : S q = Some v → contents v = [] → Z.land oflags O_NONBLOCK = 0 →
      turns S S' q (with_waiters mqe (enqueue pr r (receivers v)) v) → takes pr r S S' q oflags buf None
  | take_would_block v : S q = Some v → contents v = [] → Z.land oflags O_NONBLOCK ≠ 0 → stays S S' →
      takes pr r S S' q oflags buf (Some (- Sem.EAGAIN, buf, None)).

Inductive receives (pr : Z → Z) (r : Z) (S S' : Z → option mqueue) (q oflags : Z) (buf : list Z) : option received → Prop :=
  | receive_permitted v ret : S q = Some v → msize v ≤ Z.of_nat (length buf) → Z.land oflags O_RDOK ≠ 0 →
      takes pr r S S' q oflags buf ret → receives pr r S S' q oflags buf ret
  | receive_not_permitted : Z.land oflags O_RDOK = 0 → stays S S' →
      receives pr r S S' q oflags buf (Some (- EPERM, buf, None))
  | receive_too_short v : S q = Some v → Z.of_nat (length buf) < msize v → stays S S' →
      receives pr r S S' q oflags buf (Some (- EMSGSIZE, buf, None)).

(** When a task that has waited for a message runs again. *)

Inductive rereceives (pr : Z → Z) (r : Z) (S S' : Z → option mqueue) (q oflags : Z) (buf : list Z) (err : Z)
  : option received → Prop :=
  | rereceive_takes ret : err = OK → takes pr r S S' q oflags buf ret → rereceives pr r S S' q oflags buf err ret
  | rereceive_ended : err ≠ OK → stays S S' → rereceives pr r S S' q oflags buf err (Some (- err, buf, None)).

Lemma takes_ext pr pr' r S1 S2 S' q oflags buf ret :
  stays S1 S2 → (∀ x, pr' x = pr x) → takes pr' r S2 S' q oflags buf ret → takes pr r S1 S' q oflags buf ret.
Proof.
  intros HS HP Hr. assert (HE : ∀ l, enqueue pr' r l = enqueue pr r l) by (intros; apply enqueue_ext; intros; apply HP).
  destruct Hr as [v x l Hv ? Ht|v Hv ? ? Ht|v Hv ? ? Ht]; rewrite ?HS, ?HE in *;
    first [eapply take_got|eapply take_blocks|eapply take_would_block]; try done; by rewrite HS.
Qed.

Lemma receive_tail_error st A q buf ret m :
  mq_ok hs st A → ret < 0 →
  ∃ st' A', file_mq_receive_tail Some st q buf (Some (ret, m)) = Some (Some (ret, buf, None), st') ∧ mq_ok hs st' A' ∧ same_codes A A' ∧
    stays (mview st A) (mview st' A').
Proof.
  intros Hok Hret. unfold file_mq_receive_tail. rewrite (proj2 (Z.leb_gt _ _)) by done. cbn [mbind option_bind].
  destruct (unlock_step hs false st A Hok) as (sc & A' & -> & Hok' & Hc & Hv). by eexists _, A'.
Qed.

(** A message that is there. *)

Lemma take_step st A q i v m l buf :
  mq_ok hs st A → queues st !! q = Some i → mview st A q = Some v → msglist i = m :: l →
  maxmsgsize i ≤ Z.of_nat (length buf) →
  ∃ x c st' A', contents v = x :: c ∧
    file_mq_receive_tail Some (set_queue st q (set_msglist l (Sem.s16 (nmsgs i - 1)) i)) q buf (Some (OK, m))
      = Some (Some (gets x buf), st') ∧ mq_ok hs st' A' ∧ same_codes A A' ∧ turns (mview st A) (mview st' A') q (taken v).
Proof.
  intros Hok Hi Hv Hl Hbuf. pose proof Hok as [Hs Hw Hst].
  destruct (store_get _ _ _ _ _ q i m l Hst Hi Hl) as (Hst1 & c & Hc & Hlen & Hm0).
  destruct (mi_queue _ _ _ _ _ Hst q i Hi) as (_ & Hn & Hsz & _).
  assert (Sem.s16 (nmsgs i - 1) = nmsgs i - 1) as ->.
  { pose proof (few_messages _ _ _ _ _ q i Hst Hi). rewrite SemSpec.s16_small; lia. }
  set (st1 := set_queue st q _). set (x := content (msgs st) m).
  assert (Hx : x = (mpriority c, firstn (Z.to_nat (msglen c)) (mail c))) by (unfold x, content; by rewrite Hc).
  pose proof (mi_mail _ _ _ _ _ Hst m c Hc) as Hml.
  assert (Hxl : Z.of_nat (length x.2) = msglen c) by (rewrite Hx; simpl; rewrite length_take; lia).
  assert (Hok1 : mq_ok (m :: hs) st1 A) by (constructor; [done|by apply wait_msglist|done]).
  rewrite (mview_some st A q i Hi), Hl in Hv. injection Hv as <-.
  exists x, (content (msgs st) <$> l).
  destruct (do_receive_step st1 A (mview st A) q (set_msglist l (nmsgs i - 1) i)
    (mk_mqueue (maxmsgs i) (maxmsgsize i) (content (msgs st) <$> l)
      (waiting (msgwaitq st) A mqe q) (waiting (msgwaitq st) A mqf q)) m c buf) as (st2 & A2 & E & Hok2 & Hc2 & Ht2); try done; try lia.
  { apply lookup_insert_eq. }
  { intros y. unfold mview. simpl. destruct (decide (y = q)) as [->|]; [by rewrite lookup_insert_eq|by rewrite lookup_insert_ne]. }
  unfold file_mq_receive_tail. change (0 <=? OK) with true. cbn iota. rewrite (proj2 (Z.eqb_neq _ _)) by done.
  change (content (msgs st1) m) with x in E. cbn [negb DEBUGASSERT mbind option_bind]. rewrite E. cbn [mbind option_bind].
  destruct (unlock_step hs false st2 A2 Hok2) as (sc & A3 & -> & Hok3 & Hc3 & Hv3).
  eexists _, A3. split; [done|]. split; [|split; [done|split; [by etransitivity|by rewrite <- Hv3]]].
  unfold gets. rewrite Hxl. rewrite <- (Nat2Z.id (length x.2)), Hxl. by rewrite Hx.
Qed.

Lemma wait_receive_step st A q i v oflags buf :
  mq_ok hs st A → queues st !! q = Some i → mview st A q = Some v → current (sched st) ≠ 0 →
  maxmsgsize i ≤ Z.of_nat (length buf) →
  ∃ ret st' A', ('(r, st) ← nxmq_wait_receive st q oflags; file_mq_receive_tail Some st q buf r) = Some (ret, st') ∧
    mq_ok hs st' A' ∧ codes (current (sched st)) A A' ∧
    takes (prio A) (current (sched st)) (mview st A) (mview st' A') q oflags buf ret.
Proof.
  intros Hok Hi Hv Hr Hbuf. unfold nxmq_wait_receive. rewrite Hi. cbn [mbind option_bind].
  destruct (msglist i) as [|m l] eqn:Hl.
  - assert (contents v = []) as Hc by (rewrite (mview_some st A q i Hi), Hl in Hv; by simplify_eq/=).
    destruct (Z.eqb_spec (Z.land oflags O_NONBLOCK) 0) as [Hnb|Hnb].
    + destruct (block_step hs st A Hok mqe q i v) as (st' & A' & E & Hok' & Hc' & Ht); [by left|done..|].
      change (count mqe 1) with more_notempty in E. rewrite E. cbn [mbind option_bind].
      exists None, st', A'. do 3 (split; [done|]). by eapply take_blocks.
    + cbn [mbind option_bind]. destruct (receive_tail_error st A q buf (- Sem.EAGAIN) Sem.NULL) as (st' & A' & -> & Hok' & Hc' & Hs); [done|done|].
      eexists _, st', A'. do 2 (split; [done|]). split; [by apply codes_same|]. by eapply take_would_block.
  - cbn [mbind option_bind].
    destruct (take_step st A q i v m l buf) as (x & c & st' & A' & Hc & -> & Hok' & Hc' & Ht); try done.
    eexists _, st', A'. do 2 (split; [done|]). split; [by apply codes_same|]. by eapply take_got.
Qed.

Section Receive.

Context (st : mq_s) (A : pool) (Hok : mq_ok hs st A) (q : Z) (i : mqueue_inode_s) (Hi : queues st !! q = Some i).
Context (oflags : Z) (buf : list Z) (Hr : current (sched st) ≠ 0).

Lemma receive_ok :
  lockable false 1 st A →
  ∃ ret st' A', file_mq_receive Some st (mk_file (Some q) oflags) (Some buf) (Z.of_nat (length buf)) = Some (ret, st') ∧
    mq_ok hs st' A' ∧ codes (current (sched st)) A A' ∧ receives (prio A) (current (sched st)) (mview st A) (mview st' A') q oflags buf ret.
Proof.
  intros Hlk. pose proof (mview_some st A q i Hi) as Hv. destruct (mi_queue _ _ _ _ _ (mo_store _ _ _ Hok) q i Hi) as (Hq0 & _).
  unfold file_mq_receive. cbn [f_inode f_oflags]. change (default [] (Some buf)) with buf. unfold nxmq_verify_receive.
  rewrite (proj2 (Z.eqb_neq q Sem.NULL)), bool_decide_false by done. cbn [orb].
  destruct (Z.eqb_spec (Z.land oflags O_RDOK) 0) as [Hw|Hw].
  { eexists _, st, A. do 3 (split; [done|]). by apply receive_not_permitted. }
  rewrite Hi. cbn [mbind option_bind]. destruct (Z.ltb_spec (Z.of_nat (length buf)) (maxmsgsize i)) as [Hsz|Hsz].
  { eexists _, st, A. do 3 (split; [done|]). by eapply receive_too_short. }
  change (OK <? 0) with false. cbn iota.
  destruct (lock_step hs false 0 st A Hok) as (sc & A1 & -> & Hok1 & Hcd1 & Hv1 & _ & Hc1 & Hp1); [done|lia|]. cbn [mbind option_bind].
  destruct (wait_receive_step (with_sched st sc) A1 q i _ oflags buf Hok1 Hi (mview_some (with_sched st sc) A1 q i Hi))
    as (ret & st' & A' & -> & Hok' & Hcd & Hret); [simpl; by rewrite Hc1|done|].
  simpl in Hret, Hcd. rewrite Hc1 in Hret, Hcd. exists ret, st', A'. do 2 (split; [done|]). split; [by eapply codes_after|].
  eapply receive_permitted; [done|done|done|]. eapply takes_ext; [exact Hv1|exact Hp1|exact Hret].
Qed.

Lemma rereceive_ok err :
  wait_error st = Some err → 0 ≤ err → maxmsgsize i ≤ Z.of_nat (length buf) →
  ∃ ret st' A', file_mq_receive_resumed Some st q oflags buf = Some (ret, st') ∧
    mq_ok hs st' A' ∧ codes (current (sched st)) A A' ∧ rereceives (prio A) (current (sched st)) (mview st A) (mview st' A') q oflags buf err ret.
Proof.
  intros He Hpos Hsz. pose proof (mview_some st A q i Hi) as Hv.
  unfold file_mq_receive_resumed, nxmq_wait_receive_resumed. rewrite He. cbn [mbind option_bind].
  destruct (Z.eqb_spec err OK) as [->|Hne]; cbn [negb]; [|].
  { destruct (wait_receive_step st A q i _ oflags buf Hok Hi Hv Hr Hsz) as (ret & st' & A' & -> & Hok' & Hcd & Ht).
    exists ret, st', A'. do 3 (split; [done|]). by apply rereceive_takes. }
  cbn [mbind option_bind]. destruct (receive_tail_error st A q buf (- err) Sem.NULL) as (st' & A' & -> & Hok' & Hcd & Hs).
  { done. } { unfold OK in Hne. lia. }
  eexists _, st', A'. do 2 (split; [done|]). split; [by apply codes_same|]. by apply rereceive_ended.
Qed.

End Receive.

End Held.

End MqOps.
