(* ===== verification/MqTimed.v ===== *)
(** * Timed calls and the end of a queue

    The timed calls of Mq.v on a state that satisfies [mq_ok]: what they add to the others
    is the conversion of the time, the message that is allocated before the wait, and the
    watchdog around it.  And [nxmq_free_msgq]. *)

From S2P Require Import Prelude Sched SchedSpec SchedView SchedOps Sem SemSpec SemOps Mq MqSpec MqOps.

Module MqTimed.
Import Sched SchedSpec SchedView SchedOps Mq MqSpec MqOps.

Implicit Types (st : mq_s) (p q m : Z) (l : list Z) (A : pool) (k : tstate_t) (i : mqueue_inode_s).

(** ** Times *)

Definition nsecs (t : timespec) : Z := tv_sec t * NSEC_PER_SEC + tv_nsec t.

Definition time_ok (t : timespec) : Prop := valid_time t = true ∧ 0 ≤ tv_sec t < 2 ^ 32.

(** The delay is rounded up to the next tick, up to 2^31 ticks from now. *)

Lemma abstime2ticks_rounds_up a b :
  time_ok a → time_ok b → nsecs a - nsecs b ≤ (2 ^ 31 - 1) * NSEC_PER_TICK →
  ∃ ticks, clock_abstime2ticks a b = (OK, ticks) ∧
    if nsecs a <? nsecs b then ticks = -1
    else 0 ≤ ticks ∧ (ticks - 1) * NSEC_PER_TICK < nsecs a - nsecs b ≤ ticks * NSEC_PER_TICK.
Proof.
  intros [Ha Hsa] [Hb Hsb] Hfar. unfold valid_time in *. destruct a as [sa na], b as [sb nb]. unfold nsecs, NSEC_PER_SEC in *.
  cbn [tv_sec tv_nsec] in *. unfold clock_abstime2ticks, clock_timespec_compare. cbn [tv_sec tv_nsec].
  assert (Hc : ((if sa <? sb then -1 else if sb <? sa then 1 else s32 (na - nb)) <? 0) = (sa * 1000000000 + na <? sb * 1000000000 + nb)).
  { rewrite s32_small by lia. repeat case_match; lia. }
  rewrite Hc. destruct (Z.ltb_spec (sa * 1000000000 + na) (sb * 1000000000 + nb)); [by exists (-1)|]. rewrite (s32_small (na - nb)), (u32_small (sa - sb)) by lia.
  set (rel := sa * 1000000000 + na - (sb * 1000000000 + nb)).
  assert (Hr : ∃ t, (if na - nb <? 0 then mk_timespec (u32 (sa - sb - 1)) (s32 (na - nb + NSEC_PER_SEC)) else mk_timespec (sa - sb) (na - nb)) = t
    ∧ tv_sec t * NSEC_PER_SEC + tv_nsec t = rel).
  { eexists. split; [done|]. unfold NSEC_PER_SEC, rel. destruct (Z.ltb_spec (na - nb) 0); cbn [tv_sec tv_nsec]; [|lia]. rewrite s32_small by lia. rewrite u32_small by lia. lia. }
  destruct Hr as (t & -> & Ht). unfold clock_time2ticks. rewrite Ht. unfold NSEC_PER_TICK, USEC_PER_TICK in *.
  rewrite Z.quot_div_nonneg by lia. rewrite s32_small by dlia. eexists. split; [done|]. dlia.
Qed.

(** Later times are taken for past ones. *)

Lemma abstime2ticks_overflow : wait_ticks (mk_timespec 21474837 0) (mk_timespec 0 0) = (Sem.ETIMEDOUT, - (2 ^ 31 - 52)).
Proof. by vm_compute. Qed.

(** ** The calls that are not timed leave the watchdogs alone *)

Section Watchdogs.

Local Ltac step :=
  match goal with
  | H : (_ ≫= _) = Some _ |- _ => apply bind_Some in H as (? & ? & H)
  | H : Some _ = Some _ |- _ => simplify_eq
  | H : None = Some _ |- _ => discriminate H
  | H : context [match ?x with _ => _ end] |- _ => destruct x
  | x : _ * _ |- _ => destruct x
  end.

Lemma dog_on_sched f st st' : on_sched f st = Some st' → waitdog st' = waitdog st.
Proof. unfold on_sched. intros H. by repeat step. Qed.

Local Ltac dog := simpl in *; repeat match goal with H : on_sched _ _ = Some _ |- _ => apply dog_on_sched in H end; simpl in *; congruence.

Lemma dog_block st q f s st' : nxmq_block st q f s = Some st' → waitdog st' = waitdog st.
Proof. unfold nxmq_block. intros H. repeat step; dog. Qed.

Lemma dog_wake st q f s st' : nxmq_wake st q f s = Some st' → waitdog st' = waitdog st.
Proof. unfold nxmq_wake. intros H. repeat step; dog. Qed.

Lemma dog_irq st p err st' : nxmq_wait_irq st p err = Some st' → waitdog st' = waitdog st.
Proof. unfold nxmq_wait_irq, DEBUGASSERT. intros H. repeat step; dog. Qed.

Lemma dog_alloc irq st dyn : waitdog (nxmq_alloc_msg irq st dyn).2 = waitdog st.
Proof. unfold nxmq_alloc_msg. by repeat case_match. Qed.

Lemma dog_free st m st' : nxmq_free_msg st m = Some st' → waitdog st' = waitdog st.
Proof. unfold nxmq_free_msg. intros H. repeat step; dog. Qed.

Local Ltac dogs :=
  repeat match goal with
    | H : on_sched _ _ = Some _ |- _ => apply dog_on_sched in H
    | H : nxmq_block _ _ _ _ = Some _ |- _ => apply dog_block in H
    | H : nxmq_wake _ _ _ _ = Some _ |- _ => apply dog_wake in H
    | H : nxmq_free_msg _ _ = Some _ |- _ => apply dog_free in H
    end; simpl in *; congruence.

Lemma dog_do_send irq st q m msg n prio st' : nxmq_do_send irq st q m msg n prio = Some st' → waitdog st' = waitdog st.
Proof. unfold nxmq_do_send. intros H. repeat step; dogs. Qed.

Lemma dog_send_loop st q r st' : wait_send_loop st q = Some (r, st') → waitdog st' = waitdog st.
Proof. unfold wait_send_loop. intros H. repeat step; dogs. Qed.

Lemma dog_wait_send st q oflags r st' : nxmq_wait_send st q oflags = Some (r, st') → waitdog st' = waitdog st.
Proof. unfold nxmq_wait_send. intros H. repeat step; first [by eapply dog_send_loop|dogs]. Qed.

Lemma dog_wait_resend st q r st' : nxmq_wait_send_resumed st q = Some (r, st') → waitdog st' = waitdog st.
Proof. unfold nxmq_wait_send_resumed. intros H. repeat step; first [by eapply dog_send_loop|dogs]. Qed.

Lemma dog_send_tail irq st q msg n prio dyn r ret st' :
  file_mq_send_tail irq st q msg n prio dyn r = Some (ret, st') → waitdog st' = waitdog st.
Proof.
  unfold file_mq_send_tail. intros H. destruct r as [r|]; [|by repeat step]. pose proof (dog_alloc irq st dyn) as Ha.
  destruct (nxmq_alloc_msg irq st dyn) as [o st1]. simpl in Ha.
  repeat step; repeat match goal with H : nxmq_do_send _ _ _ _ _ _ _ = Some _ |- _ => apply dog_do_send in H end; dogs.
Qed.

Lemma dog_send irq st f msg n prio dyn ret st' : file_mq_send irq st f msg n prio dyn = Some (ret, st') → waitdog st' = waitdog st.
Proof.
  unfold file_mq_send. intros H. destruct (f_inode f) as [q|]; [|by repeat step]. apply bind_Some in H as (v & _ & H).
  destruct (v <? 0); [by repeat step|]. apply bind_Some in H as (st1 & H1 & H). apply bind_Some in H as ([r st2] & H2 & H).
  apply dog_send_tail in H. apply dog_on_sched in H1. rewrite H, <- H1. clear - H2. repeat step; first [by eapply dog_wait_send|dogs].
Qed.

Lemma dog_resend st q msg n prio dyn ret st' : file_mq_send_resumed st q msg n prio dyn = Some (ret, st') → waitdog st' = waitdog st.
Proof.
  unfold file_mq_send_resumed. intros H. apply bind_Some in H as ([r st2] & H2 & H).
  apply dog_send_tail in H. apply dog_wait_resend in H2. congruence.
Qed.

Lemma dog_wait_receive st q oflags r st' : nxmq_wait_receive st q oflags = Some (r, st') → waitdog st' = waitdog st.
Proof. unfold nxmq_wait_receive. intros H. repeat step; dogs. Qed.

Lemma dog_wait_rereceive st q oflags r st' : nxmq_wait_receive_resumed st q oflags = Some (r, st') → waitdog st' = waitdog st.
Proof. unfold nxmq_wait_receive_resumed. intros H. repeat step; first [by eapply dog_wait_receive|dogs]. Qed.

Lemma dog_receive_tail st q buf r ret st' : file_mq_receive_tail Some st q buf r = Some (ret, st') → waitdog st' = waitdog st.
Proof. unfold file_mq_receive_tail, nxmq_do_receive. intros H. repeat step; dogs. Qed.

Lemma dog_receive st f msg n ret st' : file_mq_receive Some st f msg n = Some (ret, st') → waitdog st' = waitdog st.
Proof.
  unfold file_mq_receive. intros H. destruct (f_inode f) as [q|]; [|by repeat step]. apply bind_Some in H as (v & _ & H).
  destruct (v <? 0); [by repeat step|]. apply bind_Some in H as (st1 & H1 & H). apply bind_Some in H as ([r st2] & H2 & H).
  apply dog_receive_tail in H. apply dog_on_sched in H1. apply dog_wait_receive in H2. congruence.
Qed.

Lemma dog_rereceive st q oflags buf ret st' : file_mq_receive_resumed Some st q oflags buf = Some (ret, st') → waitdog st' = waitdog st.
Proof.
  unfold file_mq_receive_resumed. intros H. apply bind_Some in H as ([r st2] & H2 & H).
  apply dog_receive_tail in H. apply dog_wait_rereceive in H2. congruence.
Qed.

End Watchdogs.

Lemma mview_waiters st A q v k p :
  mqstate k → mview st A q = Some v → p ∈ waiters_of k v ↔ p ∈ queue A k ∧ msgwaitq st !! p = Some q.
Proof.
  intros Hk Hv. unfold mview in Hv. destruct (queues st !! q); simplify_eq/=.
  destruct Hk as [-> | ->]; simpl; unfold waiting; rewrite list_elem_of_filter; tauto.
Qed.

(** ** Sending *)

(** What is left of the time. *)

Definition in_time (abstime : option timespec) (currtime : timespec) : Prop :=
  ∃ a ticks, abstime = Some a ∧ valid_time a = true ∧ wait_ticks a currtime = (OK, ticks).

Definition bad_time (abstime : option timespec) : Prop :=
  match abstime with Some a => valid_time a = false | None => True end.

Definition too_late (abstime : option timespec) (currtime : timespec) : Prop :=
  ∃ a ticks, abstime = Some a ∧ valid_time a = true ∧ wait_ticks a currtime = (Sem.ETIMEDOUT, ticks).

Lemma wait_ticks_cases a b : ∃ ticks, wait_ticks a b = (Sem.ETIMEDOUT, ticks) ∨ wait_ticks a b = (OK, ticks) ∧ 0 < ticks.
Proof.
  assert (∃ t, clock_abstime2ticks a b = (OK, t)) as [t Ht] by (unfold clock_abstime2ticks; case_if; by eexists).
  unfold wait_ticks. rewrite Ht. change (OK =? OK) with true. cbn [andb]. exists t.
  destruct (Z.leb_spec t 0); [by left|by right].
Qed.

Inductive tsends (pr : Z → Z) (r : Z) (S S' : Z → option mqueue) (q oflags n : Z) (e : Z * list Z)
    (abstime : option timespec) (currtime : timespec) : option Z → Prop :=
  | tsend_as ret : (ret = None ∨ ret = Some (- Sem.EAGAIN) → in_time abstime currtime) →
      sends pr r S S' false q oflags n e ret → tsends pr r S S' q oflags n e abstime currtime ret
  | tsend_bad_time v : S q = Some v → full v → bad_time abstime → stays S S' →
      tsends pr r S S' q oflags n e abstime currtime (Some (- EINVAL))
  | tsend_too_late v : S q = Some v → full v → too_late abstime currtime → stays S S' →
      tsends pr r S S' q oflags n e abstime currtime (Some (- Sem.ETIMEDOUT)).

Lemma sends_ext pr pr' r S1 S2 S' irq q oflags n e ret :
  stays S1 S2 → (∀ x, pr' x = pr x) → sends pr' r S2 S' irq q oflags n e ret → sends pr r S1 S' irq q oflags n e ret.
Proof.
  intros HS HP Hr. assert (HE : ∀ l, enqueue pr' r l = enqueue pr r l) by (intros; apply enqueue_ext; intros; apply HP).
  destruct Hr as [v Hv ? ? Ht|v Hv ? ? Ht|v Hv ? ? ? ? ? Ht|? Ht|Ht|? Ht|v Hv ? Ht]; rewrite ?HS, ?HE in *;
    first [eapply sent|eapply send_would_block|eapply send_blocks|eapply send_invalid|eapply send_no_memory
          |eapply send_not_permitted|eapply send_too_long]; try done; by rewrite HS.
Qed.

Lemma tsends_ext pr pr' r S1 S2 S' q oflags n e abstime currtime ret :
  stays S1 S2 → (∀ x, pr' x = pr x) → tsends pr' r S2 S' q oflags n e abstime currtime ret →
  tsends pr r S1 S' q oflags n e abstime currtime ret.
Proof.
  intros HS HP Hr. destruct Hr as [ret Hin Hs|v Hv Hf Hb Hs|v Hv Hf Hl Hs].
  - apply tsend_as; [done|]. by eapply sends_ext.
  - rewrite HS in Hv. eapply tsend_bad_time; [done..|by etransitivity].
  - rewrite HS in Hv. eapply tsend_too_late; [done..|by etransitivity].
Qed.

(** The watchdog of the caller [r] is active while it waits. *)

Definition dog_done r st st' : Prop :=
  (∀ x, x ≠ r → waitdog st' !! x = waitdog st !! x) ∧ (waitdog st' !! r = waitdog st !! r ∨ waitdog st' !! r = None).

Definition dog_armed r h st st' : Prop := ∃ ticks, 0 < ticks ∧ waitdog st' = <[r := (ticks, h)]> (waitdog st).

Lemma dog_done_same r st st' : waitdog st' = waitdog st → dog_done r st st'.
Proof. intros H. split; [by rewrite H|left; by rewrite H]. Qed.

Lemma dog_done_cancel r st st' ticks h : waitdog st' = delete r (<[r := (ticks, h)]> (waitdog st)) → dog_done r st st'.
Proof.
  intros H. split; [intros x Hx; by rewrite H, lookup_delete_ne, lookup_insert_ne|right; by rewrite H, lookup_delete_eq].
Qed.

Section Held.

Context (hs : list Z).

Lemma dog_ok st A w : mq_ok hs st A → mq_ok hs (set_waitdog st w) A.
Proof. by intros [? ? ?]. Qed.

Lemma timed_error_step st A m ret :
  mq_ok (m :: hs) st A →
  ∃ st' A', file_mq_timedsend_error st m ret = Some (TReturns ret, st') ∧ mq_ok hs st' A' ∧ same_codes A A' ∧
    stays (mview st A) (mview st' A') ∧ waitdog st' = waitdog st.
Proof.
  intros Hok. pose proof Hok as [_ _ Hst]. destruct (free_step hs st A m Hok) as (st1 & E1 & Hok1 & _ & _ & Hv1).
  { intros x j Hj Hin. apply (proj2 (proj2 (pl_held _ _ _ (mi_places _ _ _ _ _ Hst) m (list_elem_of_here _ _))) (In x)). simpl. by rewrite Hj. }
  unfold file_mq_timedsend_error. rewrite E1. cbn [mbind option_bind].
  destruct (unlock_step hs false st1 A Hok1) as (sc & A2 & E2 & Hok2 & Hc2 & Hv2). rewrite E2.
  eexists _, A2. split; [done|]. split; [done|]. split; [done|]. split; [by etransitivity|]. simpl. by apply dog_free in E1.
Qed.

Lemma timed_deliver_step st A q i v m msg n prio :
  mq_ok (m :: hs) st A → queues st !! q = Some i → mview st A q = Some v → 0 ≤ n ≤ maxmsgsize i →
  n ≤ Z.of_nat (length msg) → 0 ≤ prio ≤ MQ_PRIO_MAX → lockable false 1 st A →
  ∃ st' A', (st ← nxmq_do_send false st q m msg n prio; st ← on_sched (sched_unlock false) st; Some (TReturns OK, st))
      = Some (TReturns OK, st') ∧ mq_ok hs st' A' ∧ same_codes A A' ∧
    turns (mview st A) (mview st' A') q (delivered (prio, firstn (Z.to_nat n) msg) v) ∧ waitdog st' = waitdog st.
Proof.
  intros Hok Hi Hv Hn Hmsg Hprio Hlk.
  destruct (do_send_step hs false st A q i v m msg n prio) as (st2 & A2 & E2 & Hok2 & Hc2 & Ht2); try done. rewrite E2.
  cbn [mbind option_bind]. destruct (unlock_step hs false st2 A2 Hok2) as (sc & A3 & -> & Hok3 & Hc3 & Hv3).
  eexists _, A3. split; [done|]. split; [done|]. split; [by etransitivity|]. split; [by rewrite <- Hv3|].
  by apply dog_do_send in E2.
Qed.

(** What the call returns, if it does, and the messages that are held then. *)

Definition returned (t : timedsend) : option Z := match t with TReturns ret => Some ret | TWaits _ => None end.

Definition holds (t : timedsend) : list Z := match t with TReturns _ => hs | TWaits m => m :: hs end.

(** The loop that waits for room, and what follows. *)

Lemma timed_wait_step st A q i v m msg n prio :
  mq_ok (m :: hs) st A → queues st !! q = Some i → mview st A q = Some v → current (sched st) ≠ 0 →
  0 ≤ n ≤ maxmsgsize i → n ≤ Z.of_nat (length msg) → 0 ≤ prio ≤ MQ_PRIO_MAX → lockable false 1 st A →
  ∃ t st' A', ('(ret, st') ← wait_send_loop st q; file_mq_timedsend_tail st' (current (sched st)) q m msg n prio ret) = Some (t, st') ∧
    mq_ok (holds t) st' A' ∧ codes (current (sched st)) A A' ∧
    if bool_decide (full v) then
      t = TWaits m ∧ waitdog st' = waitdog st ∧
      turns (mview st A) (mview st' A') q (with_waiters mqf (enqueue (SchedSpec.prio A) (current (sched st)) (senders v)) v)
    else
      t = TReturns OK ∧ waitdog st' = delete (current (sched st)) (waitdog st) ∧
      turns (mview st A) (mview st' A') q (delivered (prio, firstn (Z.to_nat n) msg) v).
Proof.
  intros Hok Hi Hv Hr Hn Hmsg Hprio Hlk. unfold wait_send_loop. rewrite Hi. cbn [mbind option_bind].
  destruct (full_nmsgs (m :: hs) st A q i v Hok Hi Hv) as [-> _]. case_bool_decide as Hf.
  - destruct (block_step (m :: hs) st A Hok mqf q i v) as (st' & A' & E & Hok' & Hc & Ht); [by right|done..|].
    change (count mqf 1) with more_notfull in E. rewrite E. cbn [mbind option_bind].
    exists (TWaits m), st', A'. do 4 (split; [done|]). split; [by apply dog_block in E|done].
  - cbn [mbind option_bind file_mq_timedsend_tail]. change (OK <? 0) with false. cbn iota.
    destruct (timed_deliver_step (waitdog_cancel (current (sched st)) st) A q i v m msg n prio) as (st' & A' & E & Hok' & Hc & Ht & Hd); try done.
    { by destruct Hok as [? ? ?]. }
    rewrite E. exists (TReturns OK), st', A'. split; [done|]. split; [done|]. split; [by apply codes_same|]. done.
Qed.

Section Calls.

Context (st : mq_s) (A : pool) (q : Z) (i : mqueue_inode_s) (Hi : queues st !! q = Some i).
Context (msg : list Z) (n prio : Z) (Hn : 0 ≤ n ≤ Z.of_nat (length msg)) (Hprio : 0 ≤ prio).

Local Abbreviation e := (prio, firstn (Z.to_nat n) msg).
Local Abbreviation r := (current (sched st)).

Definition tsend_ends (m oflags : Z) abstime currtime st1 A1 t st' A' : Prop :=
  mq_ok (holds t) st' A' ∧ codes r A1 A' ∧
  tsends (SchedSpec.prio A1) r (mview st1 A1) (mview st' A') q oflags n e abstime currtime (returned t) ∧
  match t with TWaits m' => m' = m ∧ dog_armed r SNDTIMEOUT st1 st' | TReturns _ => dog_done r st1 st' end.

(** The message is given back. *)

Lemma timed_refused m oflags abstime currtime st1 st2 A1 ret :
  mq_ok (m :: hs) st2 A1 → mview st2 A1 = mview st1 A1 → dog_done r st1 st2 →
  (∀ S', stays (mview st1 A1) S' → tsends (SchedSpec.prio A1) r (mview st1 A1) S' q oflags n e abstime currtime (Some ret)) →
  ∃ t st' A', file_mq_timedsend_error st2 m ret = Some (t, st') ∧ tsend_ends m oflags abstime currtime st1 A1 t st' A'.
Proof.
  intros Hok Hv [D1 D2] Hsp. destruct (timed_error_step st2 A1 m ret Hok) as (st' & A' & E & Hok' & Hcd & Hs & Hdog).
  exists (TReturns ret), st', A'. split; [done|]. split; [done|]. split; [by apply codes_same|].
  split; [apply Hsp; by rewrite <- Hv|]. split; [intros x Hx; rewrite Hdog; by apply D1|by rewrite Hdog].
Qed.

(** With a full queue: the checks of the time, and the wait. *)

Lemma timed_full_step st1 A1 v m oflags abstime currtime :
  mq_ok (m :: hs) st1 A1 → queues st1 !! q = Some i → mview st1 A1 q = Some v → current (sched st1) = r → r ≠ 0 → full v →
  n ≤ maxmsgsize i → prio ≤ MQ_PRIO_MAX → lockable false 1 st1 A1 →
  ∃ t st' A', match abstime with
      | None => file_mq_timedsend_error st1 m (- EINVAL)
      | Some abstime =>
          if negb (valid_time abstime) then file_mq_timedsend_error st1 m (- EINVAL)
          else
            let '(result, ticks) := wait_ticks abstime currtime in
            if negb (result =? OK) then file_mq_timedsend_error st1 m (- result)
            else
              '(ret, st2) ← nxmq_wait_send (waitdog_start r ticks SNDTIMEOUT st1) q oflags;
              file_mq_timedsend_tail st2 r q m msg n prio ret
      end = Some (t, st') ∧ tsend_ends m oflags abstime currtime st1 A1 t st' A'.
Proof.
  intros Hok Hi1 Hv Hc Hr Hf Hsz Hmax Hlk.
  destruct abstime as [a|]; [|apply (timed_refused _ _ _ _ st1 st1); [done..|by apply dog_done_same|by intros S' HS; eapply tsend_bad_time]].
  destruct (valid_time a) eqn:Hval; cbn [negb];
    [|apply (timed_refused _ _ _ _ st1 st1); [done..|by apply dog_done_same|by intros S' HS; eapply tsend_bad_time]].
  destruct (wait_ticks_cases a currtime) as (ticks & [Hw|[Hw Hpos]]); rewrite Hw.
  { change (Sem.ETIMEDOUT =? OK) with false. cbn [negb]. apply (timed_refused _ _ _ _ st1 st1); [done..|by apply dog_done_same|].
    intros S' HS. eapply tsend_too_late; [done..| |done]. by exists a, ticks. }
  change (OK =? OK) with true. cbn [negb]. assert (Hin : in_time (Some a) currtime) by by exists a, ticks.
  set (st2 := waitdog_start r ticks SNDTIMEOUT st1). assert (Hok2 : mq_ok (m :: hs) st2 A1) by (by destruct Hok as [? ? ?]).
  unfold nxmq_wait_send. change (queues st2 !! q) with (queues st1 !! q). rewrite Hi1. cbn [mbind option_bind].
  destruct (full_nmsgs (m :: hs) st1 A1 q i v Hok Hi1 Hv) as [-> Hms]. rewrite bool_decide_true by done.
  destruct (Z.eqb_spec (Z.land oflags O_NONBLOCK) 0) as [Hnb|Hnb]; cbn [negb].
  - destruct (timed_wait_step st2 A1 q i v m msg n prio) as (t & st' & A' & E & Hok' & Hcd & Hcase); try done; try lia.
    { simpl. by rewrite Hc. }
    rewrite bool_decide_true in Hcase by done. destruct Hcase as (-> & Hd & Ht). simpl in E, Hcd, Ht. rewrite Hc in E, Hcd, Ht.
    rewrite E. exists (TWaits m), st', A'. split; [done|]. split; [done|]. split; [done|]. split; [|split; [done|by exists ticks]].
    apply tsend_as; [done|]. eapply send_blocks; [done|lia|done|done|done|done|exact Ht].
  - cbn [mbind option_bind file_mq_timedsend_tail]. change (- Sem.EAGAIN <? 0) with true. cbn iota.
    apply (timed_refused _ _ _ _ st1 (waitdog_cancel r st2)); [by destruct Hok as [? ? ?]|done|by eapply dog_done_cancel|].
    intros S' HS. apply tsend_as; [done|]. by eapply send_would_block.
Qed.

(** With the lock and the message. *)

Lemma timed_locked_step st2 A2 m oflags abstime currtime :
  mq_ok (m :: hs) st2 A2 → stays (mview st A) (mview st2 A2) → queues st2 !! q = Some i → waitdog st2 = waitdog st →
  current (sched st2) = r → same_codes A A2 → (∀ x, SchedSpec.prio A2 x = SchedSpec.prio A x) → lockable false 1 st2 A2 →
  r ≠ 0 → prio ≤ MQ_PRIO_MAX → n ≤ maxmsgsize i →
  ∃ t st' A', (i ← queues st2 !! q;
      if nmsgs i <? maxmsgs i then
        st ← nxmq_do_send false st2 q m msg n prio; st ← on_sched (sched_unlock false) st; Some (TReturns OK, st)
      else
        match abstime with
        | None => file_mq_timedsend_error st2 m (- EINVAL)
        | Some abstime =>
            if negb (valid_time abstime) then file_mq_timedsend_error st2 m (- EINVAL)
            else
              let '(result, ticks) := wait_ticks abstime currtime in
              if negb (result =? OK) then file_mq_timedsend_error st2 m (- result)
              else
                '(ret, st) ← nxmq_wait_send (waitdog_start r ticks SNDTIMEOUT st2) q oflags;
                file_mq_timedsend_tail st r q m msg n prio ret
        end) = Some (t, st') ∧
    mq_ok (holds t) st' A' ∧ codes r A A' ∧
    tsends (SchedSpec.prio A) r (mview st A) (mview st' A') q oflags n e abstime currtime (returned t) ∧
    match t with TWaits _ => dog_armed r SNDTIMEOUT st st' | TReturns _ => dog_done r st st' end.
Proof.
  intros Hok2 Hv2 Hi2 Hdog Hc2 Hcd2 Hp2 Hlk2 Hr Hmax Hsz. rewrite Hi2. cbn [mbind option_bind].
  pose proof (mview_some st2 A2 q i Hi2) as Hvq. set (v := mk_mqueue _ _ _ _ _) in Hvq.
  destruct (full_nmsgs (m :: hs) st2 A2 q i v Hok2 Hi2 Hvq) as [Hfull Hms]. rewrite Z.ltb_antisym, Hfull.
  case_bool_decide as Hf; cbn [negb].
  - destruct (timed_full_step st2 A2 v m oflags abstime currtime) as (t & st' & A' & E & Hok' & Hcd & Hs & Hd); try done.
    exists t, st', A'. split; [exact E|]. split; [done|]. split; [by eapply codes_after|]. split; [by eapply tsends_ext|].
    unfold dog_done, dog_armed in *. rewrite Hdog in Hd. destruct t; [done|by destruct Hd].
  - destruct (timed_deliver_step st2 A2 q i v m msg n prio) as (st' & A' & E & Hok' & Hcd & Ht & Hd); try done; try lia.
    exists (TReturns OK), st', A'. split; [exact E|]. split; [done|]. split; [apply codes_same; by etransitivity|].
    split; [|apply dog_done_same; congruence]. apply tsend_as; [naive_solver|]. eapply sent; [by rewrite <- Hv2| |by right|by rewrite Hv2].
    rewrite <- Hms. done.
Qed.

Lemma tsend_ok oflags abstime currtime dyn :
  mq_ok hs st A → fresh_msg st dyn → lockable false 2 st A → r ≠ 0 →
  ∃ t st' A', file_mq_timedsend st (mk_file (Some q) oflags) (Some msg) n prio abstime currtime dyn = Some (t, st') ∧
    mq_ok (holds t) st' A' ∧ codes r A A' ∧
    tsends (SchedSpec.prio A) r (mview st A) (mview st' A') q oflags n e abstime currtime (returned t) ∧
    match t with TWaits _ => dog_armed r SNDTIMEOUT st st' | TReturns _ => dog_done r st st' end.
Proof.
  intros Hok Hd Hlk Hr. pose proof (mview_some st A q i Hi) as Hv. destruct (head_tcb _ A (mo_sched _ _ _ Hok)) as (tc & Hth & _).
  destruct (mi_queue _ _ _ _ _ (mo_store _ _ _ Hok) q i Hi) as (Hq0 & _).
  unfold file_mq_timedsend. rewrite Hth. cbn [mbind option_bind f_inode f_oflags]. change (default [] (Some msg)) with msg.
  assert (Hskip : ∀ ret, sends (SchedSpec.prio A) r (mview st A) (mview st A) false q oflags n e (Some ret) → ret ≠ - Sem.EAGAIN →
    ∃ t st' A', Some (TReturns ret, st) = Some (t, st') ∧ mq_ok (holds t) st' A' ∧ codes r A A' ∧
      tsends (SchedSpec.prio A) r (mview st A) (mview st' A') q oflags n e abstime currtime (returned t) ∧
      match t with TWaits _ => dog_armed r SNDTIMEOUT st st' | TReturns _ => dog_done r st st' end).
  { intros ret Hs Hne. exists (TReturns ret), st, A. do 3 (split; [done|]). split; [apply tsend_as; [naive_solver|done]|by apply dog_done_same]. }
  unfold nxmq_verify_send. rewrite (proj2 (Z.eqb_neq q Sem.NULL)), bool_decide_false by done. cbn [orb].
  destruct (Z.ltb_spec MQ_PRIO_MAX prio) as [Hmax|Hmax]; [apply Hskip; [by apply send_invalid|done]|].
  destruct (Z.eqb_spec (Z.land oflags O_WROK) 0) as [Hw|Hw]; [apply Hskip; [by apply send_not_permitted|done]|].
  rewrite Hi. cbn [mbind option_bind].
  destruct (Z.ltb_spec (maxmsgsize i) n) as [Hsz|Hsz]; [apply Hskip; [by eapply send_too_long|done]|].
  change (OK <? 0) with false. cbn iota. pose proof (alloc_step hs false st A dyn Hok Hd) as Ha.
  pose proof (dog_alloc false st dyn) as Hdog. destruct (nxmq_alloc_msg false st dyn) as [[m|] st1]; destruct Ha as (Hq1 & Hsc1 & Hv1 & Hok1 & _);
    simpl in Hdog.
  2: { exists (TReturns (- ENOMEM)), st1, A. do 3 (split; [done|]). split; [|by apply dog_done_same].
       apply tsend_as; [naive_solver|by apply send_no_memory]. }
  destruct (lock_step (m :: hs) false 1 st1 A Hok1) as (sc & A2 & -> & Hok2 & Hcd2 & Hv2 & Hlk2 & Hc2 & Hp2);
    [unfold lockable in *; by rewrite Hsc1|lia|]. cbn [mbind option_bind]. rewrite Hsc1 in Hc2.
  apply (timed_locked_step (with_sched st1 sc) A2 m); try done; [etransitivity; [exact Hv1|exact Hv2]|simpl; by rewrite Hq1].
Qed.

Lemma tresend_ok m err :
  mq_ok (m :: hs) st A → lockable false 1 st A → r ≠ 0 → n ≤ maxmsgsize i → prio ≤ MQ_PRIO_MAX →
  wait_error st = Some err → 0 ≤ err →
  ∃ t st' A', file_mq_timedsend_resumed st q m msg n prio = Some (t, st') ∧ mq_ok (holds t) st' A' ∧ codes r A A' ∧
    resends (SchedSpec.prio A) r (mview st A) (mview st' A') q e err (returned t) ∧
    match t with TWaits m' => m' = m ∧ waitdog st' = waitdog st | TReturns _ => waitdog st' = delete r (waitdog st) end.
Proof.
  intros Hok Hlk Hr Hsz Hmax He Hpos. pose proof (mview_some st A q i Hi) as Hv. set (v := mk_mqueue _ _ _ _ _) in Hv.
  destruct (head_tcb _ A (mo_sched _ _ _ Hok)) as (tc & Hth & _).
  unfold file_mq_timedsend_resumed, nxmq_wait_send_resumed. rewrite Hth, He. cbn [mbind option_bind].
  destruct (Z.eqb_spec err OK) as [->|Hne]; cbn [negb].
  - destruct (timed_wait_step st A q i v m msg n prio) as (t & st' & A' & E & Hok' & Hcd & Hcase); try done; try lia.
    exists t, st', A'. split; [exact E|]. split; [done|]. split; [done|]. case_bool_decide as Hf; destruct Hcase as (-> & Hd & Ht).
    + split; [by eapply resend_blocks|done].
    + split; [by eapply resent|done].
  - cbn [mbind option_bind file_mq_timedsend_tail]. rewrite (proj2 (Z.ltb_lt _ _)) by (unfold OK in Hne; lia).
    destruct (timed_error_step (waitdog_cancel r st) A m (- err)) as (st' & A' & E & Hok' & Hcd & Hs & Hd); [by destruct Hok as [? ? ?]|].
    exists (TReturns (- err)), st', A'. split; [exact E|]. split; [done|]. split; [by apply codes_same|].
    split; [by apply resend_ended|done].
Qed.

End Calls.

(** ** Receiving *)

Lemma timed_take_step st A q i v oflags buf :
  mq_ok hs st A → queues st !! q = Some i → mview st A q = Some v → current (sched st) ≠ 0 →
  maxmsgsize i ≤ Z.of_nat (length buf) →
  ∃ ret st' A', ('(x, st1) ← nxmq_wait_receive st q oflags;
                 file_mq_timedreceive_tail Some st1 (current (sched st)) q buf x) = Some (ret, st') ∧
    mq_ok hs st' A' ∧ codes (current (sched st)) A A' ∧
    takes (prio A) (current (sched st)) (mview st A) (mview st' A') q oflags buf ret ∧
    waitdog st' = match ret with None => waitdog st | Some _ => delete (current (sched st)) (waitdog st) end.
Proof.
  intros Hok Hi Hv Hr Hbuf. set (r := current (sched st)).
  destruct (bool_decide (msglist i = []) && (Z.land oflags O_NONBLOCK =? 0)) eqn:Hb.
  - apply andb_true_iff in Hb as [Hl%bool_decide_eq_true Hnb].
    assert (contents v = []) as Hc by (rewrite (mview_some st A q i Hi), Hl in Hv; by simplify_eq/=).
    unfold nxmq_wait_receive. rewrite Hi. cbn [mbind option_bind]. rewrite Hl, Hnb.
    destruct (block_step hs st A Hok mqe q i v) as (st' & A' & E & Hok' & Hcd & Ht); [by left|done..|].
    change (count mqe 1) with more_notempty in E. rewrite E. cbn [mbind option_bind file_mq_timedreceive_tail].
    exists None, st', A'. do 3 (split; [done|]). split; [eapply take_blocks; [done|done|lia|done]|by apply dog_block in E].
  - assert (E : ('(x, st1) ← nxmq_wait_receive st q oflags; file_mq_timedreceive_tail Some st1 r q buf x)
      = ('(x, st1) ← nxmq_wait_receive (waitdog_cancel r st) q oflags; file_mq_receive_tail Some st1 q buf x)).
    { unfold nxmq_wait_receive. change (queues (waitdog_cancel r st)) with (queues st). rewrite Hi. cbn [mbind option_bind].
      destruct (msglist i); [|done]. destruct (Z.land oflags O_NONBLOCK =? 0); done. }
    destruct (wait_receive_step hs (waitdog_cancel r st) A q i v oflags buf) as (ret & st' & A' & E' & Hok' & Hcd & Ht); try done.
    { by destruct Hok as [? ? ?]. }
    exists ret, st', A'. rewrite E. split; [done|]. split; [done|]. split; [done|]. split; [done|].
    apply bind_Some in E' as ([x st1] & E1 & E2). apply dog_wait_receive in E1. apply dog_receive_tail in E2 as Hd. rewrite Hd, E1.
    destruct ret; [done|]. inversion Ht as [|v' Hv' Hc Hnb _|]; subst. exfalso. change (mview (waitdog_cancel r st) A q) with (mview st A q) in Hv'. rewrite Hv in Hv'. simplify_eq.
    rewrite (mview_some st A q i Hi) in Hv. simplify_eq/=. apply fmap_nil_inv in Hc. rewrite Hc, Hnb in Hb. done.
Qed.

(** *** What receiving does to the queues *)

Inductive treceives (pr : Z → Z) (r : Z) (S S' : Z → option mqueue) (q oflags : Z) (buf : list Z)
    (abstime : option timespec) (currtime : timespec) : option received → Prop :=
  | treceive_takes v ret : S q = Some v → msize v ≤ Z.of_nat (length buf) → Z.land oflags O_RDOK ≠ 0 → (¬ bad_time abstime) →
      (contents v = [] → in_time abstime currtime) → takes pr r S S' q oflags buf ret →
      treceives pr r S S' q oflags buf abstime currtime ret
  | treceive_too_late v : S q = Some v → contents v = [] → too_late abstime currtime → stays S S' →
      treceives pr r S S' q oflags buf abstime currtime (Some (- Sem.ETIMEDOUT, buf, None))
  | treceive_bad_time : bad_time abstime → stays S S' →
      treceives pr r S S' q oflags buf abstime currtime (Some (- EINVAL, buf, None))
  | treceive_not_permitted : Z.land oflags O_RDOK = 0 → stays S S' →
      treceives pr r S S' q oflags buf abstime currtime (Some (- EPERM, buf, None))
  | treceive_too_short v : S q = Some v → Z.of_nat (length buf) < msize v → stays S S' →
      treceives pr r S S' q oflags buf abstime currtime (Some (- EMSGSIZE, buf, None)).

Section Receive.

Context (st : mq_s) (A : pool) (Hok : mq_ok hs st A) (q : Z) (i : mqueue_inode_s) (Hi : queues st !! q = Some i).
Context (oflags : Z) (buf : list Z) (Hr : current (sched st) ≠ 0).

Local Abbreviation r := (current (sched st)).

(** With the lock, and a valid time. *)

Lemma treceive_locked_step sc A1 a currtime :
  mq_ok hs (with_sched st sc) A1 → stays (mview st A) (mview (with_sched st sc) A1) → current sc = r → same_codes A A1 →
  (∀ x, prio A1 x = prio A x) → Z.land oflags O_RDOK ≠ 0 → maxmsgsize i ≤ Z.of_nat (length buf) → valid_time a = true →
  ∃ ret st' A', (i ← queues (with_sched st sc) !! q;
      let '(result, ticks) := wait_ticks a currtime in
      if bool_decide (msglist i = []) && negb (result =? OK) then
        st1 ← on_sched (sched_unlock false) (with_sched st sc); Some (Some (- result, buf, None), st1)
      else
        '(x, st1) ← nxmq_wait_receive (if bool_decide (msglist i = []) then waitdog_start r ticks RCVTIMEOUT (with_sched st sc) else with_sched st sc) q oflags;
        file_mq_timedreceive_tail Some st1 r q buf x) = Some (ret, st') ∧
    mq_ok hs st' A' ∧ codes r A A' ∧
    treceives (prio A) r (mview st A) (mview st' A') q oflags buf (Some a) currtime ret ∧
    match ret with None => dog_armed r RCVTIMEOUT st st' | Some _ => dog_done r st st' end.
Proof.
  intros Hok1 Hv1 Hc1 Hcd1 Hp1 Hrd Hsz Hval. change (queues (with_sched st sc) !! q) with (queues st !! q). rewrite Hi. cbn [mbind option_bind].
  pose proof (mview_some st A q i Hi) as Hv. set (v := mk_mqueue _ _ _ _ _) in Hv.
  assert (Hv2 : mview (with_sched st sc) A1 q = Some v) by by rewrite Hv1.
  assert (Hcont : contents v = [] ↔ msglist i = []) by (unfold v; simpl; split; [by intros ?%fmap_nil_inv|by intros ->]).
  destruct (wait_ticks_cases a currtime) as (ticks & Hw).
  destruct (bool_decide (msglist i = [])) eqn:Hl; cbn [andb].
  - apply bool_decide_eq_true in Hl. destruct Hw as [Hw|[Hw Hpos]]; rewrite Hw.
    { change (Sem.ETIMEDOUT =? OK) with false. cbn [negb]. destruct (unlock_step hs false _ A1 Hok1) as (sc2 & A2 & E & Hok2 & Hcd2 & Hv3).
      rewrite E. cbn [mbind option_bind]. eexists _, _, A2. split; [done|]. split; [done|]. split; [apply codes_same; by etransitivity|].
      split; [|by apply dog_done_same]. eapply treceive_too_late; [done|by apply Hcont|by exists a, ticks|by etransitivity]. }
    change (OK =? OK) with true. cbn [negb]. set (st2 := waitdog_start r ticks RCVTIMEOUT (with_sched st sc)).
    destruct (timed_take_step st2 A1 q i v oflags buf) as (ret & st' & A' & E & Hok' & Hcd & Ht & Hd); try done; [by destruct Hok1|simpl; by rewrite Hc1|].
    simpl in E, Hcd, Ht, Hd. rewrite Hc1 in E, Hcd, Ht, Hd. exists ret, st', A'. split; [exact E|]. split; [done|]. split; [by eapply codes_after|].
    split; [|destruct ret; [by eapply dog_done_cancel|by exists ticks]].
    eapply treceive_takes; [done|done|done|simpl; congruence|by intros _; exists a, ticks|by eapply takes_ext].
  - apply bool_decide_eq_false in Hl. rewrite (surjective_pairing (wait_ticks a currtime)). cbn [fst snd].
    destruct (timed_take_step (with_sched st sc) A1 q i v oflags buf) as (ret & st' & A' & E & Hok' & Hcd & Ht & Hd); try done; [simpl; by rewrite Hc1|].
    simpl in E, Hcd, Ht, Hd. rewrite Hc1 in E, Hcd, Ht, Hd. exists ret, st', A'. split; [exact E|]. split; [done|]. split; [by eapply codes_after|].
    split; [eapply treceive_takes; [done|done|done|simpl; congruence|by intros ?%Hcont|by eapply takes_ext]|].
    destruct ret as [ret|].
    + split; [intros x Hx; by rewrite Hd, lookup_delete_ne|right; by rewrite Hd, lookup_delete_eq].
    + inversion Ht as [|v' Hv' Hc' _ _|]; subst. rewrite Hv2 in Hv'. simplify_eq. by apply Hcont in Hc'.
Qed.

Lemma treceive_ok abstime currtime :
  lockable false 1 st A →
  ∃ ret st' A', file_mq_timedreceive Some st (mk_file (Some q) oflags) (Some buf) (Z.of_nat (length buf)) abstime currtime = Some (ret, st') ∧
    mq_ok hs st' A' ∧ codes r A A' ∧
    treceives (prio A) r (mview st A) (mview st' A') q oflags buf abstime currtime ret ∧
    match ret with None => dog_armed r RCVTIMEOUT st st' | Some _ => dog_done r st st' end.
Proof.
  intros Hlk. pose proof (mview_some st A q i Hi) as Hv. destruct (mi_queue _ _ _ _ _ (mo_store _ _ _ Hok) q i Hi) as (Hq0 & _).
  destruct (head_tcb _ A (mo_sched _ _ _ Hok)) as (tc & Hth & _). unfold file_mq_timedreceive. rewrite Hth.
  cbn [mbind option_bind f_inode f_oflags]. change (default [] (Some buf)) with buf. unfold nxmq_verify_receive.
  assert (Hskip : ∀ ret, treceives (prio A) r (mview st A) (mview st A) q oflags buf abstime currtime (Some ret) →
    ∃ ret' st' A', Some (Some ret, st) = Some (ret', st') ∧ mq_ok hs st' A' ∧ codes r A A' ∧
      treceives (prio A) r (mview st A) (mview st' A') q oflags buf abstime currtime ret' ∧
      match ret' with None => dog_armed r RCVTIMEOUT st st' | Some _ => dog_done r st st' end).
  { intros ret Hs. exists (Some ret), st, A. do 4 (split; [done|]). by apply dog_done_same. }
  rewrite (proj2 (Z.eqb_neq q Sem.NULL)), bool_decide_false by done. cbn [orb].
  destruct (Z.eqb_spec (Z.land oflags O_RDOK) 0) as [Hw|Hw]; [by apply Hskip, treceive_not_permitted|].
  rewrite Hi. cbn [mbind option_bind].
  destruct (Z.ltb_spec (Z.of_nat (length buf)) (maxmsgsize i)) as [Hsz|Hsz]; [by eapply Hskip, treceive_too_short|].
  change (OK <? 0) with false. cbn iota. destruct abstime as [a|]; [|by apply Hskip, treceive_bad_time].
  destruct (valid_time a) eqn:Hval; cbn [negb]; [|by apply Hskip, treceive_bad_time].
  destruct (lock_step hs false 0 st A Hok) as (sc & A1 & -> & Hok1 & Hcd1 & Hv1 & _ & Hc1 & Hp1); [done|lia|]. cbn [mbind option_bind].
  by apply (treceive_locked_step sc A1).
Qed.

Lemma trereceive_ok err :
  wait_error st = Some err → 0 ≤ err → maxmsgsize i ≤ Z.of_nat (length buf) →
  ∃ ret st' A', file_mq_timedreceive_resumed Some st q oflags buf = Some (ret, st') ∧
    mq_ok hs st' A' ∧ codes r A A' ∧ rereceives (prio A) r (mview st A) (mview st' A') q oflags buf err ret ∧
    waitdog st' = match ret with None => waitdog st | Some _ => delete r (waitdog st) end.
Proof.
  intros He Hpos Hsz. pose proof (mview_some st A q i Hi) as Hv. destruct (head_tcb _ A (mo_sched _ _ _ Hok)) as (tc & Hth & _).
  unfold file_mq_timedreceive_resumed, nxmq_wait_receive_resumed. rewrite Hth, He. cbn [mbind option_bind].
  destruct (Z.eqb_spec err OK) as [->|Hne]; cbn [negb].
  { destruct (timed_take_step st A q i _ oflags buf Hok Hi Hv Hr Hsz) as (ret & st' & A' & E & Hok' & Hcd & Ht & Hd).
    exists ret, st', A'. do 3 (split; [done|]). split; [by apply rereceive_takes|done]. }
  cbn [mbind option_bind file_mq_timedreceive_tail].
  destruct (receive_tail_error hs (waitdog_cancel r st) A q buf (- err) Sem.NULL) as (st' & A' & E & Hok' & Hcd & Hs).
  { by destruct Hok as [? ? ?]. } { unfold OK in Hne. lia. }
  exists (Some (- err, buf, None)), st', A'. do 2 (split; [done|]). split; [by apply codes_same|]. split; [by apply rereceive_ended|].
  by apply dog_receive_tail in E.
Qed.

End Receive.

(** ** Timeouts *)

Lemma timeout_step k st A p :
  mqstate k → mq_ok hs st A →
  ∃ st' A', nxmq_timeout k st p = Some st' ∧ mq_ok hs st' A' ∧ codes p A A' ∧ waitdog st' = waitdog st ∧
    ((∃ q v, mview st A q = Some v ∧ p ∈ waiters_of k v ∧ errcode <$> core A' !! p = Some Sem.ETIMEDOUT ∧
        turns (mview st A) (mview st' A') q (with_waiters k (dq_rem p (waiters_of k v)) v)) ∨
     (∀ q v, mview st A q = Some v → p ∉ waiters_of k v) ∧ st' = st ∧ A' = A).
Proof.
  intros Hk Hok. unfold nxmq_timeout. destruct (tcbs (sched st) !! p) as [t|] eqn:Ht.
  - case_decide as Hs.
    + destruct (irq_step hs st A Hok p t Sem.ETIMEDOUT Ht) as (st' & A' & E & Hok' & Hcd & Hcase); [done|].
      exists st', A'. do 3 (split; [done|]). split; [by apply dog_irq in E|].
      destruct Hcase as [(k' & q & v & Hk' & Hv & Hp & He & Hturn)|(Hno & -> & ->)]; [left|right; by split; [intros q v; apply Hno|]].
      assert (k' = k) as ->.
      { rewrite <- Hs. symmetry. apply (waits_state hs st A Hok p t Ht k' Hk'). by apply (mview_waiters st A q v). }
      by exists q, v.
    + exists st, A. do 4 (split; [done|]). right. split; [|done]. intros q v Hv Hp. apply Hs.
      apply (waits_state hs st A Hok p t Ht k Hk). by apply (mview_waiters st A q v).
  - exists st, A. do 4 (split; [done|]). right. split; [|done]. intros q v Hv Hp.
    apply (mview_waiters st A q v k p Hk Hv) in Hp as [Hp _]. destruct Hok as [Hs _ _].
    destruct (v_tcb _ A (ok_view _ _ Hs) p) as (t & Ht' & _); [by eapply (w_known _ (ok_pool _ _ Hs))|congruence].
Qed.

(** ** The end of a queue *)

Definition no_queue (q : Z) st : mq_s :=
  mk_mq (delete q (queues st)) (msgs st) (g_msgfree st) (g_msgfreeirq st) (msgwaitq st) (waitdog st) (sched st).

Lemma free_no_queue q l st st1 :
  free_msgq_loop (no_queue q st) l = Some st1 → ∃ st', free_msgq_loop st l = Some st' ∧ st1 = no_queue q st'.
Proof.
  revert st. induction l as [|m l IH]; intros st; simpl; [intros [= <-]; by exists st|].
  unfold nxmq_free_msg. simpl. destruct (msgs st !! m) as [c|]; [|done]. cbn [mbind option_bind].
  destruct (type c); cbn [mbind option_bind]; [apply (IH (set_free st _))|apply (IH (mk_mq _ _ _ _ _ _ _))|apply (IH (set_freeirq st _))].
Qed.

End Held.

Lemma free_loop_step hs l st A :
  mq_ok (l ++ hs) st A →
  ∃ st', free_msgq_loop st l = Some st' ∧ mq_ok hs st' A ∧ stays (mview st A) (mview st' A) ∧ waitdog st' = waitdog st ∧
    msgwaitq st' = msgwaitq st ∧ sched st' = sched st.
Proof.
  revert st. induction l as [|m l IH]; intros st Hok; simpl in *; [by exists st|]. pose proof Hok as [_ _ Hst].
  destruct (free_step (l ++ hs) st A m Hok) as (st1 & E1 & Hok1 & _ & Hs1 & Hv1).
  { intros x j Hj Hin. apply (proj2 (proj2 (pl_held _ _ _ (mi_places _ _ _ _ _ Hst) m (list_elem_of_here _ _))) (In x)). simpl. by rewrite Hj. }
  rewrite E1. cbn [mbind option_bind]. destruct (IH st1 Hok1) as (st' & E & Hok' & Hv' & Hd & Hw & Hs).
  exists st'. split; [done|]. split; [done|]. split; [by etransitivity|].
  split; [apply dog_free in E1; congruence|]. split; [|congruence]. rewrite Hw.
  unfold nxmq_free_msg in E1. apply bind_Some in E1 as (c & _ & E1). by destruct (type c); simplify_eq.
Qed.

Lemma free_msgq_step hs st A q v :
  mq_ok hs st A → mview st A q = Some v → receivers v = [] → senders v = [] →
  ∃ st', nxmq_free_msgq st q = Some st' ∧ mq_ok hs st' A ∧ waitdog st' = waitdog st ∧ msgwaitq st' = msgwaitq st ∧ sched st' = sched st ∧
    ∀ x, mview st' A x = if decide (x = q) then None else mview st A x.
Proof.
  intros [Hs Hw Hst] Hv Hr Hsn. destruct (queues st !! q) as [i|] eqn:Hi; [|unfold mview in Hv; by rewrite Hi in Hv].
  rewrite (mview_some st A q i Hi) in Hv. injection Hv as <-. simpl in Hr, Hsn.
  assert (Hok0 : mq_ok (msglist i ++ hs) (no_queue q st) A).
  { constructor; [done| |by apply store_close]. apply wait_close; [done|]. by intros k [-> | ->]. }
  destruct (free_loop_step hs (msglist i) _ A Hok0) as (st1 & E & Hok1 & Hv1 & Hd & Hwt & Hsc).
  apply free_no_queue in E as (st' & E & ->). unfold nxmq_free_msgq. rewrite Hi. cbn [mbind option_bind]. rewrite E.
  exists (no_queue q st'). do 5 (split; [done|]). intros x. rewrite Hv1. unfold mview. simpl.
  case_decide as Hx; [subst; by rewrite lookup_delete_eq|by rewrite lookup_delete_ne].
Qed.

End MqTimed.
