(* ===== verification/MqCalls.v ===== *)
(** * Calls that wait for a message queue

    A call that blocks is suspended until its task runs again.  [calls_inv] relates the
    suspended calls to the tasks that wait, and holds that no wake-up is lost: as long as
    tasks wait for a message, each message in the queue has a task of its own that has
    been woken to take it. *)

From S2P Require Import Prelude Sched SchedSpec Sem Mq MqSpec MqOps MqTimed.

Module MqCalls.
Import Sched SchedSpec Mq MqSpec MqOps MqTimed.

(** A timed call that sends holds its message. *)

Inductive call :=
  | CSend (q : Z) (msg : list Z) (n prio : Z) (mqmsg : option Z)
  | CReceive (q oflags : Z) (buf : list Z) (timed : bool).

(** The calls after one of [r] that returns, or waits. *)

Definition suspend {R : Type} (r : Z) (c : call) (ret : option R) (C : gmap Z call) : gmap Z call :=
  match ret with None => <[r := c]> C | Some _ => delete r C end.

Implicit Types (S : Z → option mqueue) (E : Z → option Z) (C : gmap Z call) (c : call) (p q : Z) (v : mqueue) (k : tstate_t).

Definition call_on k q c : Prop :=
  match k, c with
  | mqe, CReceive q' _ _ _ => q' = q
  | mqf, CSend q' _ _ _ _ => q' = q
  | _, _ => False
  end.

(** What was checked when the call was made. *)

Definition checked S c : Prop :=
  match c with
  | CSend q msg n prio _ => ∃ v, S q = Some v ∧ 0 ≤ n ≤ msize v ∧ n ≤ Z.of_nat (length msg) ∧ 0 ≤ prio ≤ MQ_PRIO_MAX
  | CReceive q _ buf _ => ∃ v, S q = Some v ∧ msize v ≤ Z.of_nat (length buf)
  end.

Definition receiving S p : Prop := ∃ q v, S q = Some v ∧ p ∈ receivers v.

(** A task that has been woken because of a message, and has not run since. *)

Definition woken S E C q p : Prop :=
  (∃ c, C !! p = Some c ∧ call_on mqe q c) ∧ E p = Some OK ∧ ¬ receiving S p.

Definition awake S E C q (n : nat) : Prop := ∃ l, NoDup l ∧ Forall (woken S E C q) l ∧ (n ≤ length l)%nat.

Record calls_inv S E C : Prop := {
  ci_checked : ∀ p c, C !! p = Some c → checked S c;
  ci_waits : ∀ k q v p, mqstate k → S q = Some v → p ∈ waiters_of k v → ∃ c, C !! p = Some c ∧ call_on k q c;
  ci_awake : ∀ q v, S q = Some v → receivers v ≠ [] → awake S E C q (length (contents v))
}.

(** The messages that suspended calls hold. *)

Definition message_of c : list Z := match c with CSend _ _ _ _ (Some m) => [m] | _ => [] end.

Definition messages C : list Z := map_to_list C ≫= λ pc, message_of pc.2.

Lemma messages_insert C r c : C !! r = None → messages (<[r := c]> C) ≡ₚ message_of c ++ messages C.
Proof. intros Hr. unfold messages. by rewrite map_to_list_insert. Qed.

Lemma messages_delete C r c : C !! r = Some c → messages C ≡ₚ message_of c ++ messages (delete r C).
Proof. intros Hr. unfold messages. by rewrite <- (map_to_list_delete C r c Hr). Qed.

Lemma messages_none C r c : C !! r = None → message_of c = [] → messages (<[r := c]> C) ≡ₚ messages C.
Proof. intros Hr Hc. by rewrite messages_insert, Hc. Qed.

(** What holds of the tasks that wait, in any state of the kernel. *)

Record waiters_ok S E : Prop := {
  wo_nodup : ∀ q v, S q = Some v → NoDup (receivers v);
  wo_one : ∀ q q' v v' k k' p, mqstate k → mqstate k' → S q = Some v → S q' = Some v' →
    p ∈ waiters_of k v → p ∈ waiters_of k' v' → q = q' ∧ k = k';
  wo_code : ∀ q v p, S q = Some v → p ∈ receivers v → E p = Some OK
}.

Lemma call_on_fun k k' q q' c : mqstate k → mqstate k' → call_on k q c → call_on k' q' c → k = k' ∧ q = q'.
Proof. intros [-> | ->] [-> | ->]; destruct c; simpl; naive_solver. Qed.

(** ** Frames *)

Definition sizes S S' : Prop := ∀ q v, S q = Some v → ∃ v', S' q = Some v' ∧ msize v' = msize v.

Lemma checked_sizes S S' c : sizes S S' → checked S c → checked S' c.
Proof.
  intros HS. destruct c as [q msg n prio h|q oflags buf tm]; intros (v & Hv & H); destruct (HS q v Hv) as (v' & Hv' & E');
    exists v'; by rewrite E'.
Qed.

Lemma sizes_stays S S' : stays S S' → sizes S S'.
Proof. intros HS q v Hv. exists v. by rewrite HS. Qed.

Lemma sizes_turns S S' q v v' : turns S S' q v' → S q = Some v → msize v' = msize v → sizes S S'.
Proof.
  intros HS Hv Hm x y Hy. rewrite HS. case_decide as Hx; [subst|by exists y]. exists v'. by simplify_eq.
Qed.

Lemma awake_zero S E C q : awake S E C q 0.
Proof. exists []. split; [constructor|]. split; [constructor|simpl; lia]. Qed.

(** ** Steps

    Only the task [x] is touched, if any. *)

Section Frame.

Context (x : option Z) (S S' : Z → option mqueue) (E E' : Z → option Z) (C C' : gmap Z call).

Record frame : Prop := {
  fr_call : ∀ p, x ≠ Some p → C' !! p = C !! p;
  fr_code : ∀ p e, x ≠ Some p → E p = Some e → E' p = Some e;
  fr_waits : ∀ k q v' p, mqstate k → S' q = Some v' → p ∈ waiters_of k v' →
    (x ≠ Some p ∧ ∃ v, S q = Some v ∧ p ∈ waiters_of k v) ∨ (∃ c, C' !! p = Some c ∧ call_on k q c) ∧ x = Some p;
  fr_checked : ∀ p c, x = Some p → C' !! p = Some c → checked S' c;
  fr_sizes : sizes S S'
}.

Context (HF : frame).

Lemma mq_woken_frame q p : x ≠ Some p → woken S E C q p → woken S' E' C' q p.
Proof.
  intros Hx (Hc & He & Hr). split; [by rewrite (fr_call HF)|]. split; [by apply (fr_code HF)|].
  intros (q' & v' & Hv' & Hp). apply Hr.
  destruct (fr_waits HF mqe q' v' p) as [(_ & v & Hv & Hp')|[_ ?]]; [by left|done|done| |done]. by exists q', v.
Qed.

Lemma awake_frame q n : (∀ p, x = Some p → ¬ woken S E C q p) → awake S E C q n → awake S' E' C' q n.
Proof.
  intros Hx (l & Hnd & Hl & Hn). exists l. split; [done|]. split; [|done].
  eapply Forall_impl; [exact Hl|]. intros p Hp. apply mq_woken_frame; [|done]. intros Hxp. by apply (Hx p).
Qed.

(** The task has taken a message. *)

Lemma awake_less q n p : x = Some p → awake S E C q n → awake S' E' C' q (pred n).
Proof.
  intros Hx (l & Hnd & Hl & Hn). exists (dq_rem p l). split; [by apply NoDup_filter|]. split.
  - rewrite Forall_forall in Hl |- *. intros r [Hr Hp]%elem_dq_rem. apply mq_woken_frame; [|by apply Hl]. congruence.
  - destruct (decide (p ∈ l)) as [Hp|Hp]; [|rewrite dq_rem_absent by done; lia].
    pose proof (dq_rem_perm p l Hnd Hp) as Hperm. apply Permutation_length in Hperm. simpl in Hperm. lia.
Qed.

(** A task is woken. *)

Lemma awake_more q n p :
  receiving S p → woken S' E' C' q p → (∀ r, x = Some r → ¬ woken S E C q r) →
  awake S E C q n → awake S' E' C' q (Datatypes.S n).
Proof.
  intros Hp Hw Hx (l & Hnd & Hl & Hn). exists (p :: l). rewrite Forall_forall in Hl. split.
  { apply NoDup_cons. split; [|done]. intros Hin. by destruct (Hl p Hin) as (_ & _ & ?). }
  split; [|simpl; lia]. constructor; [done|]. apply Forall_forall. intros r Hr. apply mq_woken_frame; [|by apply Hl].
  intros Hxr. by apply (Hx r Hxr), Hl.
Qed.

Lemma inv_frame :
  calls_inv S E C →
  (∀ q v', S' q = Some v' → receivers v' ≠ [] → awake S' E' C' q (length (contents v'))) → calls_inv S' E' C'.
Proof.
  intros [I1 I2 I3] Haw. constructor; [| |done].
  - intros p c Hc. destruct (decide (x = Some p)) as [Hx|Hx]; [by eapply (fr_checked HF)|].
    rewrite (fr_call HF) in Hc by done. eapply checked_sizes; [apply (fr_sizes HF)|by eapply I1].
  - intros k q v' p Hk Hv' Hp. destruct (fr_waits HF k q v' p Hk Hv' Hp) as [(Hx & v & Hv & Hp')|[Hc _]]; [|done].
    rewrite (fr_call HF) by done. by eapply I2.
Qed.

End Frame.

(** ** Every operation keeps the invariant *)

Lemma elem_waiters_with k k' (l : list Z) v : mqstate k → mqstate k' →
  waiters_of k' (with_waiters k l v) = if decide (k' = k) then l else waiters_of k' v.
Proof. by intros [-> | ->] [-> | ->]; repeat case_decide. Qed.

Lemma waiters_delivered k p e v : mqstate k → p ∈ waiters_of k (delivered e v) → p ∈ waiters_of k v.
Proof. intros [-> | ->]; simpl; [|done]. destruct (receivers v); [done|]. simpl. by right. Qed.

Lemma waiters_taken k p v : mqstate k → p ∈ waiters_of k (taken v) → p ∈ waiters_of k v.
Proof. intros [-> | ->]; simpl; [done|]. destruct (senders v); [done|]. simpl. by right. Qed.

Section Steps.

Context (S S' : Z → option mqueue) (E E' : Z → option Z) (C : gmap Z call).
Context (HI : calls_inv S E C) (HW : waiters_ok S E).

(** A message arrives, from the task [x] or from an interrupt handler. *)

Lemma delivered_inv x C' q v e :
  frame x S S' E E' C C' → (∀ r q', x = Some r → (¬ woken S E C q' r) ∧ ¬ receiving S r) →
  S q = Some v → turns S S' q (delivered e v) → calls_inv S' E' C'.
Proof.
  intros HF Hx Hv Ht. eapply inv_frame; [exact HF|exact HI|]. intros q' v' Hv' Hne. pose proof (Ht q') as Hq'.
  assert (Hnw : ∀ q' r, x = Some r → ¬ woken S E C q' r) by (intros q0 r Hr; by apply (Hx r)).
  case_decide as Hqq; [|eapply awake_frame; [exact HF|by apply Hnw|]; apply (ci_awake _ _ _ HI); [congruence|done]].
  subst q'. rewrite Hv' in Hq'. simplify_eq/=. destruct (receivers v) as [|p l] eqn:Hrv; [done|].
  assert (Hp : p ∈ receivers v) by (rewrite Hrv; set_solver).
  replace (length (insert_content e (contents v))) with (Datatypes.S (length (contents v))) by (symmetry; apply insert_content_length).
  eapply (awake_more x _ _ _ _ _ _ HF q _ p); [by exists q, v| |apply Hnw|].
  - assert (Hxp : x ≠ Some p) by (intros Hxp; apply (proj2 (Hx p q Hxp)); by exists q, v).
    destruct (ci_waits _ _ _ HI mqe q v p) as (c & Hc & Hon); [by left|done|done|].
    split; [exists c; by rewrite (fr_call _ _ _ _ _ _ _ HF)|].
    split; [eapply (fr_code _ _ _ _ _ _ _ HF); [done|by eapply (wo_code _ _ HW)]|].
    intros (q' & v' & Hv2 & Hp2). rewrite Ht in Hv2. case_decide as Hqq.
    + simplify_eq/=. rewrite Hrv in Hp2. simpl in Hp2. pose proof (wo_nodup _ _ HW _ _ Hv) as Hnd. rewrite Hrv in Hnd.
      by apply NoDup_cons in Hnd as [? _].
    + destruct (wo_one _ _ HW q q' v v' mqe mqe p); [by left|by left|done..].
  - apply (ci_awake _ _ _ HI); [done|]. by rewrite Hrv.
Qed.

Section Task.

Context (r : Z) (Hr : ∀ k q v, mqstate k → S q = Some v → r ∉ waiters_of k v) (Hcode : ∀ p, p ≠ r → E' p = E p).

Lemma not_receiving : ¬ receiving S r.
Proof. intros (q & v & Hv & Hp). by apply (Hr mqe q v); [left|..]. Qed.

(** The call of the task, if it is a suspended one. *)

Definition own k q : Prop := ∀ c, C !! r = Some c → call_on k q c.

Lemma own_woken k q q' : mqstate k → own k q → woken S E C q' r → k = mqe ∧ q' = q.
Proof.
  intros Hk Ho ((c & Hc & Hon) & _). destruct (call_on_fun k mqe q q' c) as [-> ->]; [done|by left|by apply Ho|done..].
Qed.

Lemma end_frame :
  sizes S S' → (∀ k q v' p, mqstate k → S' q = Some v' → p ∈ waiters_of k v' → ∃ v, S q = Some v ∧ p ∈ waiters_of k v) →
  frame (Some r) S S' E E' C (delete r C).
Proof.
  intros Hsz Hw. constructor; [| | | |done].
  - intros p Hp. rewrite lookup_delete_ne; [done|]. congruence.
  - intros p e Hp. rewrite Hcode; [done|]. congruence.
  - intros k q v' p Hk Hv' Hp. left. destruct (Hw k q v' p Hk Hv' Hp) as (v & Hv & Hpv). split; [|by exists v].
    intros [= ->]. by apply (Hr k q v).
  - intros p c [= <-]. by rewrite lookup_delete_eq.
Qed.

Lemma end_stays :
  stays S S' → (∀ q v, woken S E C q r → S q = Some v → contents v = []) → calls_inv S' E' (delete r C).
Proof.
  intros Hs Hn. assert (HF : frame (Some r) S S' E E' C (delete r C)).
  { apply end_frame; [by apply sizes_stays|]. intros k q v' p _. rewrite Hs. by exists v'. }
  eapply inv_frame; [exact HF|exact HI|]. intros q v Hv Hne. rewrite Hs in Hv.
  destruct (contents v) as [|y l] eqn:Hc; [apply awake_zero|]. rewrite <- Hc.
  eapply awake_frame; [exact HF| |by apply (ci_awake _ _ _ HI)]. intros p [= <-] Hw. specialize (Hn q v Hw Hv). congruence.
Qed.

Lemma end_delivered q v e : own mqf q → S q = Some v → turns S S' q (delivered e v) → calls_inv S' E' (delete r C).
Proof.
  intros Ho Hv Ht. eapply (delivered_inv (Some r)); [|intros p q' [= <-]; split; [|apply not_receiving]|exact Hv|exact Ht].
  - apply end_frame; [by eapply sizes_turns|]. intros k q' v' p Hk. rewrite Ht. case_decide as Hq; [|by exists v'].
    intros [= <-] Hp. subst. exists v. split; [done|]. by eapply waiters_delivered.
  - intros Hw. by destruct (own_woken mqf q q') as [? _]; [right|..].
Qed.

Lemma end_taken q v y l : own mqe q → S q = Some v → contents v = y :: l → turns S S' q (taken v) → calls_inv S' E' (delete r C).
Proof.
  intros Ho Hv Hc Ht. assert (HF : frame (Some r) S S' E E' C (delete r C)).
  { apply end_frame; [by eapply sizes_turns|]. intros k q' v' p Hk. rewrite Ht. case_decide as Hq; [|by exists v'].
    intros [= <-] Hp. subst. exists v. split; [done|]. by eapply waiters_taken. }
  eapply inv_frame; [exact HF|exact HI|]. intros q' v' Hv' Hne. rewrite Ht in Hv'. case_decide as Hq.
  - simplify_eq/=. rewrite Hc. simpl. change (length l) with (pred (length (y :: l))).
    eapply awake_less; [exact HF|done|]. rewrite <- Hc. by apply (ci_awake _ _ _ HI).
  - eapply awake_frame; [exact HF| |by apply (ci_awake _ _ _ HI)]. intros p [= <-] Hw.
    by destruct (own_woken mqe q q') as [_ ?]; [left|..].
Qed.

Lemma begin_wait pr k q v c :
  mqstate k → own k q → S q = Some v → call_on k q c → checked S c → (k = mqe → contents v = []) →
  turns S S' q (with_waiters k (enqueue pr r (waiters_of k v)) v) → calls_inv S' E' (<[r := c]> C).
Proof.
  intros Hk Ho Hv Hon Hch Hc Ht. assert (Hsz : sizes S S') by (eapply sizes_turns; [exact Ht|done|by destruct Hk as [-> | ->]]).
  assert (HF : frame (Some r) S S' E E' C (<[r := c]> C)).
  { constructor; [| | | |done].
    - intros p Hp. rewrite lookup_insert_ne; [done|]. congruence.
    - intros p e Hp. rewrite Hcode; [done|]. congruence.
    - intros k' q' v' p Hk'. rewrite Ht. case_decide as Hq.
      + intros [= <-]. subst. rewrite elem_waiters_with by done. case_decide as Hkk.
        * subst k'. rewrite elem_enqueue. intros [->|Hp]; [right; split; [exists c; by rewrite lookup_insert_eq|done]|].
          left. split; [intros [= ->]; by apply (Hr k q v)|by exists v].
        * intros Hp. left. split; [intros [= ->]; by apply (Hr k' q v)|by exists v].
      + intros Hv' Hp. left. split; [intros [= ->]; by apply (Hr k' q' v')|by exists v'].
    - intros p c' [= <-]. rewrite lookup_insert_eq. intros [= <-]. by eapply checked_sizes. }
  eapply inv_frame; [exact HF|exact HI|]. intros q' v' Hv' Hne. rewrite Ht in Hv'. case_decide as Hq.
  - simplify_eq/=. destruct Hk as [-> | ->]; simpl; [rewrite Hc by done; apply awake_zero|]. simpl in Hne.
    eapply awake_frame; [exact HF| |by apply (ci_awake _ _ _ HI)]. intros p [= <-] Hw.
    by destruct (own_woken mqf q q) as [? _]; [right|..].
  - eapply awake_frame; [exact HF| |by apply (ci_awake _ _ _ HI)]. intros p [= <-] Hw.
    by destruct (own_woken k q q') as [_ ?].
Qed.

Lemma send_calls pr q oflags n prio msg ret h :
  C !! r = None → 0 ≤ n ≤ Z.of_nat (length msg) → 0 ≤ prio →
  sends pr r S S' false q oflags n (prio, firstn (Z.to_nat n) msg) ret →
  calls_inv S' E' (suspend r (CSend q msg n prio h) ret C).
Proof.
  intros HC Hn Hp Hs. assert (Ho : ∀ k q, own k q) by (intros k q' c Hc; congruence).
  assert (Hnw : ∀ q', ¬ woken S E C q' r) by (intros q' ((c & Hc & _) & _); congruence).
  destruct Hs as [v Hv _ _ Ht|v _ _ _ Ht|v Hv Hsz Hmax _ _ _ Ht|_ Ht|Ht|_ Ht|v _ _ Ht]; simpl;
    try (apply end_stays; [exact Ht|by intros q' v' ?%Hnw]).
  - by eapply end_delivered.
  - eapply (begin_wait pr mqf); [by right|done|done|done| |done|exact Ht]. exists v. simpl in Hmax. split_and!; (done || lia).
Qed.

Lemma resend_calls pr q n prio msg err ret h :
  C !! r = Some (CSend q msg n prio h) → resends pr r S S' q (prio, firstn (Z.to_nat n) msg) err ret →
  calls_inv S' E' (suspend r (CSend q msg n prio h) ret C).
Proof.
  intros HC Hs. assert (Ho : own mqf q) by (intros c Hc; by simplify_eq).
  assert (Hnw : ∀ q', ¬ woken S E C q' r) by (intros q' ((c & Hc & Hon) & _); by simplify_eq).
  destruct Hs as [v _ Hv _ Ht|v _ Hv _ Ht|_ Ht|_ Ht]; simpl; try (apply end_stays; [exact Ht|by intros q' v' ?%Hnw]).
  - by eapply end_delivered.
  - eapply (begin_wait pr mqf); [by right|done|done|done| |done|exact Ht]. by apply (ci_checked _ _ _ HI r).
Qed.

Lemma take_calls pr q oflags buf ret tm :
  own mqe q → checked S (CReceive q oflags buf tm) → takes pr r S S' q oflags buf ret →
  calls_inv S' E' (suspend r (CReceive q oflags buf tm) ret C).
Proof.
  intros Ho Hch Ht. destruct Ht as [v y l Hv Hc Ht|v Hv Hc _ Ht|v Hv Hc _ Ht]; simpl.
  - by eapply end_taken.
  - eapply (begin_wait pr mqe); [by left|done..|exact Ht].
  - apply end_stays; [exact Ht|]. intros q' v' Hw Hv'. destruct (own_woken mqe q q') as [_ ->]; [by left|done..|]. by simplify_eq.
Qed.

Lemma receive_calls pr q oflags buf ret tm :
  C !! r = None → receives pr r S S' q oflags buf ret → calls_inv S' E' (suspend r (CReceive q oflags buf tm) ret C).
Proof.
  intros HC Hs. assert (Hnw : ∀ q', ¬ woken S E C q' r) by (intros q' ((c & Hc & _) & _); congruence).
  destruct Hs as [v ret Hv Hsz _ Ht|_ Ht|v _ _ Ht]; try (apply end_stays; [exact Ht|by intros q' v' ?%Hnw]).
  eapply take_calls; [intros c Hc; congruence|by exists v|exact Ht].
Qed.

Lemma rereceive_calls pr q oflags buf err ret tm :
  C !! r = Some (CReceive q oflags buf tm) → E r = Some err → rereceives pr r S S' q oflags buf err ret →
  calls_inv S' E' (suspend r (CReceive q oflags buf tm) ret C).
Proof.
  intros HC He Hs. destruct Hs as [ret -> Ht|Hne Ht].
  - eapply take_calls; [intros c Hc; by simplify_eq|by apply (ci_checked _ _ _ HI r)|exact Ht].
  - apply end_stays; [exact Ht|]. intros q' v' (_ & He' & _). congruence.
Qed.

Lemma tsend_calls pr q oflags n prio msg abstime currtime ret h :
  C !! r = None → 0 ≤ n ≤ Z.of_nat (length msg) → 0 ≤ prio →
  tsends pr r S S' q oflags n (prio, firstn (Z.to_nat n) msg) abstime currtime ret →
  calls_inv S' E' (suspend r (CSend q msg n prio h) ret C).
Proof.
  intros HC Hn Hp Hs. assert (Hnw : ∀ q', ¬ woken S E C q' r) by (intros q' ((c & Hc & _) & _); congruence).
  destruct Hs as [ret _ Hs|v _ _ _ Ht|v _ _ _ Ht]; [by eapply send_calls|..]; (apply end_stays; [exact Ht|by intros q' v' ?%Hnw]).
Qed.

Lemma treceive_calls pr q oflags buf abstime currtime ret tm :
  C !! r = None → treceives pr r S S' q oflags buf abstime currtime ret →
  calls_inv S' E' (suspend r (CReceive q oflags buf tm) ret C).
Proof.
  intros HC Hs. assert (Hnw : ∀ q', ¬ woken S E C q' r) by (intros q' ((c & Hc & _) & _); congruence).
  destruct Hs as [v ret Hv Hsz _ _ _ Ht|v _ _ _ Ht|_ Ht|_ Ht|v _ _ Ht]; try (apply end_stays; [exact Ht|by intros q' v' ?%Hnw]).
  eapply take_calls; [intros c Hc; congruence|by exists v|exact Ht].
Qed.

End Task.

(** A queue goes that no call is about. *)

Definition target c : Z := match c with CSend q _ _ _ _ | CReceive q _ _ _ => q end.

Lemma close_inv q :
  (∀ p c, C !! p = Some c → target c ≠ q) → (∀ p e, E p = Some e → E' p = Some e) →
  (∀ x, S' x = if decide (x = q) then None else S x) → calls_inv S' E' C.
Proof.
  intros Ht Hcode HS. assert (Hsub : ∀ x v, S' x = Some v → S x = Some v) by (intros x v; rewrite HS; by case_decide).
  constructor.
  - intros p c Hc. pose proof (Ht p c Hc) as Hne. pose proof (ci_checked _ _ _ HI p c Hc) as Hch.
    destruct c as [x msg n prio h|x oflags buf tm]; simpl in *; by rewrite HS, decide_False.
  - intros k x v p Hk Hv. apply (ci_waits _ _ _ HI); [done|by apply Hsub].
  - intros x v Hv Hne. destruct (ci_awake _ _ _ HI x v (Hsub x v Hv) Hne) as (l & Hnd & Hl & Hn). exists l.
    split; [done|]. split; [|done]. eapply Forall_impl; [exact Hl|]. intros p (Hc & He & Hr). split; [done|].
    split; [by apply Hcode|]. intros (y & u & Hu & Hp). apply Hr. exists y, u. split; [by apply Hsub|done].
Qed.

(** The wait of [p] ends with an error. *)

Lemma end_wait k p q v :
  mqstate k → S q = Some v → p ∈ waiters_of k v → (∀ p', p' ≠ p → E' p' = E p') →
  turns S S' q (with_waiters k (dq_rem p (waiters_of k v)) v) → calls_inv S' E' C.
Proof.
  intros Hk Hv Hp Hcode Ht. assert (Hsz : sizes S S') by (eapply sizes_turns; [exact Ht|done|by destruct Hk as [-> | ->]]).
  destruct (ci_waits _ _ _ HI k q v p Hk Hv Hp) as (c & Hc & Hon).
  assert (HF : frame (Some p) S S' E E' C C).
  { constructor; [done| | | |done].
    - intros p' e Hp'. rewrite Hcode; [done|]. congruence.
    - intros k' q' v' p' Hk'. rewrite Ht. intros Hv' Hp'. left.
      assert (∃ v0, S q' = Some v0 ∧ p' ∈ waiters_of k' v0 ∧ (k' = k → q' = q → p' ≠ p)) as (v0 & Hv0 & Hin & Hne).
      { case_decide as Hq; [|exists v'; naive_solver]. simplify_eq. exists v. rewrite elem_waiters_with in Hp' by done.
        case_decide; [|naive_solver]. subst. apply elem_dq_rem in Hp'. naive_solver. }
      split; [|by exists v0]. intros [= <-]. destruct (wo_one _ _ HW q' q v0 v k' k p) as [-> ->]; [done..|]. by apply Hne.
    - intros p' c' [= <-] Hc'. eapply checked_sizes; [done|]. by apply (ci_checked _ _ _ HI p). }
  assert (Hnw : ∀ q', ¬ woken S E C q' p).
  { intros q' ((c' & Hc' & Hon') & _ & Hnr). rewrite Hc in Hc'. injection Hc' as <-. destruct (call_on_fun k mqe q q' c) as [-> ->]; [done|by left|done..|].
    apply Hnr. by exists q', v. }
  eapply inv_frame; [exact HF|exact HI|]. intros q' v' Hv' Hne. eapply awake_frame; [exact HF|intros ? [= <-]; apply Hnw|].
  rewrite Ht in Hv'. case_decide as Hq; [|by apply (ci_awake _ _ _ HI)]. simplify_eq.
  replace (contents (with_waiters k (dq_rem p (waiters_of k v)) v)) with (contents v) by (by destruct Hk as [-> | ->]).
  apply (ci_awake _ _ _ HI); [done|]. destruct Hk as [-> | ->]; simpl in *; [intros Hn; by rewrite Hn in Hp; apply not_elem_of_nil in Hp|done].
Qed.

(** Nothing happens but that waiting tasks change places or a queue is added. *)

Definition reorders (v v' : mqueue) : Prop :=
  capacity v' = capacity v ∧ msize v' = msize v ∧ contents v' = contents v ∧ receivers v' ≡ₚ receivers v ∧ senders v' ≡ₚ senders v.

Lemma reorders_inv :
  (∀ p e, E p = Some e → E' p = Some e) → sizes S S' →
  (∀ q v', S' q = Some v' → (∃ v, S q = Some v ∧ reorders v v') ∨ receivers v' = [] ∧ senders v' = []) → calls_inv S' E' C.
Proof.
  intros Hcode Hsz HS. assert (HF : frame None S S' E E' C C).
  { constructor; [done|by intros p e _; apply Hcode| |done|done]. intros k q v' p Hk Hv' Hp. left. split; [done|].
    destruct (HS q v' Hv') as [(v & Hv & _ & _ & _ & H1 & H2)|[H1 H2]].
    - exists v. split; [done|]. destruct Hk as [-> | ->]; simpl in *; [by rewrite <- H1|by rewrite <- H2].
    - destruct Hk as [-> | ->]; simpl in Hp; [rewrite H1 in Hp|rewrite H2 in Hp]; set_solver. }
  eapply inv_frame; [exact HF|exact HI|]. intros q v' Hv' Hne. destruct (HS q v' Hv') as [(v & Hv & _ & _ & -> & H1 & _)|[? _]]; [|done].
  eapply awake_frame; [exact HF|done|]. apply (ci_awake _ _ _ HI); [done|]. intros Hn. rewrite Hn in H1.
  by apply Hne, Permutation_nil_r.
Qed.

End Steps.

End MqCalls.
