(* ===== verification/MqWorld.v ===== *)
(** * Tasks that use message queues

    The states that occur when tasks and interrupt handlers use message queues next to
    everything else that the scheduler does: [exec] runs an operation, [may] is what its
    caller has to ensure, [acts] is what it does to the queues. *)

From S2P Require Import Prelude Sched SchedSpec SchedView SchedOps SchedProps Sem SemSpec SemOps Mq MqSpec MqOps MqTimed MqCalls.

Module MqWorld.
Import Sched SchedSpec SchedView SchedOps SchedProps Mq MqSpec MqOps MqTimed MqCalls.

Implicit Types (st : mq_s) (p q m : Z) (l : list Z) (A : pool) (k : tstate_t) (i : mqueue_inode_s).

(** ** Scheduling does not concern the message queues *)

Lemma same_mq_requeue A k p n :
  pool_ok A → p ∈ queue A k → same_mq A (put k p (cupd (set_priority n) p (SchedSpec.take k p A))).
Proof.
  intros HA Hp. split.
  - intros q. simpl. destruct (decide (q = p)) as [->|]; [|by rewrite lookup_alter_ne].
    rewrite lookup_alter_eq. by destruct (core A !! p).
  - intros k' Hk'. unfold put. simpl. destruct (decide (k' = k)) as [->|]; [|done].
    destruct (mqstate_blocked k Hk') as (_ & _ & _ & Hs). rewrite Hs, enqueue_perm, decide_True by done. symmetry. apply dq_rem_perm; [apply HA|done].
Qed.

Lemma same_mq_reprio A p n A' : pool_ok A → reprio A p n A' → same_mq A A'.
Proof.
  intros HA Hr. destruct Hr as [x l E _|x l E _|Hp _|k Hp _ _|k Hp _]; [|by apply same_mq_cupd| | |by apply same_mq_cupd].
  - etransitivity; [|apply same_mq_release]. apply same_mq_requeue; [done|]. rewrite E. set_solver.
  - unfold again. etransitivity; [apply (same_mq_take A rdy p); by apply not_mqstate|].
    etransitivity; [|apply same_mq_make_ready]. by apply same_mq_cupd.
  - by apply same_mq_requeue.
Qed.

Lemma same_mq_next_slice A p : pool_ok A → head (queue A rdy) = Some p → same_mq A (next_slice p A).
Proof.
  intros HA Hp. unfold next_slice. destruct (queue A rdy) as [|x [|y l]] eqn:E; [done..|]. case_if; [|done].
  unfold rotate. etransitivity; [|apply same_mq_release]. apply same_mq_requeue; [done|]. rewrite E. simplify_eq/=. set_solver.
Qed.

Lemma move_same_mq A r o ret A' :
  pool_ok A → head (queue A rdy) = Some r → move A r o ret A' →
  match o with
  | Create _ _ _ => False
  | Block s => ¬ mqstate s
  | Wake p => ∀ k, mqstate k → p ∉ queue A k
  | _ => True
  end → same_mq A A'.
Proof.
  intros HA Hh Hm Ho. destruct Hm as [| s|p k Hp Hb| | | | |p n A' _ Hr| |A' _ Hr| | |];
    try done; eauto using same_mq_reprio, same_mq_unlock, same_mq_next_slice.
  - etransitivity; [apply (same_mq_take A rdy r); by apply not_mqstate|].
    etransitivity; [by apply (same_mq_put _ s r)|apply same_mq_release].
  - etransitivity; [|apply same_mq_make_ready]. apply same_mq_take. intros Hk. by apply (Ho k).
  - by apply same_mq_cupd.
Qed.

Lemma create_wait W Q A p t :
  wait_inv W Q A → core A !! p = None → errcode t = OK → Z.of_nat (base.size (core A)) + 1 < 2 ^ 15 →
  pool_ok A → wait_inv W Q (create p t A).
Proof.
  intros [H1 H2 H3 H4 H5 H6] Hp Ht Hsz HA.
  assert (Hq : ∀ k, mqstate k → queue (create p t A) k = queue A k) by (by intros k [-> | ->]).
  constructor.
  - intros k q i Hk Hi. unfold waiting. rewrite Hq by done. by apply H1.
  - intros k x Hk. rewrite Hq by done. by apply H2.
  - intros x q Hx. destruct (H3 x q Hx) as (k & Hk & Hin). exists k. by rewrite Hq.
  - intros k x t' Hk. rewrite Hq by done. intros Hin. simpl. rewrite lookup_insert_ne; [by eapply H4|].
    intros <-. destruct (w_known _ HA _ _ Hin). congruence.
  - intros x t'. simpl. destruct (decide (x = p)) as [->|]; [|rewrite lookup_insert_ne by done; apply H5].
    rewrite lookup_insert_eq. intros [= <-]. by rewrite Ht.
  - simpl. rewrite map_size_insert_None by done. lia.
Qed.

(** ** The state of the tasks *)

Definition code A : Z → option Z := λ p, errcode <$> core A !! p.

Lemma waiters_ok_view hs st A : mq_ok hs st A → waiters_ok (mview st A) (code A).
Proof.
  intros [Hs Hw _]. pose proof (ok_pool _ _ Hs) as HA. constructor.
  - intros q v Hv. unfold mview in Hv. destruct (queues st !! q); simplify_eq/=. by apply NoDup_filter, HA.
  - intros q q' v v' k k' p Hk Hk' Hv Hv'. rewrite (mview_waiters _ _ _ _ _ _ Hk Hv), (mview_waiters _ _ _ _ _ _ Hk' Hv').
    intros [H1 H2] [H3 H4]. split; [congruence|by eapply (w_disj _ HA)].
  - intros q v p Hv Hp. change (receivers v) with (waiters_of mqe v) in Hp.
    apply (mview_waiters st A q v mqe p) in Hp as [Hp _]; [|by left|done]. destruct (w_known _ HA _ _ Hp) as [t Ht].
    unfold code. rewrite Ht. simpl. f_equal. by eapply (wi_err _ _ _ Hw mqe); [left|..].
Qed.

Lemma current_not_waiting hs st A : mq_ok hs st A →
  ∀ k q v, mqstate k → mview st A q = Some v → current (sched st) ∉ waiters_of k v.
Proof.
  intros [Hs _ _] k q v Hk Hv Hp. apply (mview_waiters _ _ _ _ _ _ Hk Hv) in Hp as [Hp _].
  destruct (head_tcb _ A Hs) as (t & _ & _ & Hh & _). apply head_Some_elem_of in Hh.
  eapply (ready_not_waiting A (ok_pool _ _ Hs)); [exact Hh|exact Hk|exact Hp].
Qed.

Lemma wait_error_ok hs st A : mq_ok hs st A →
  ∃ err, wait_error st = Some err ∧ 0 ≤ err ∧ code A (current (sched st)) = Some err.
Proof.
  intros [Hs Hw _]. destruct (head_tcb _ A Hs) as (t & Hr & Ht & _). unfold wait_error. rewrite Hr. cbn [mbind option_bind].
  rewrite Ht. pose proof (v_lookup _ A (ok_view _ _ Hs) _ _ Ht) as Hc. exists (errcode t). split; [done|].
  unfold code. rewrite Hc. split; [apply (wi_code _ _ _ Hw _ _ Hc)|done].
Qed.

(** ** Operations *)

(** The calls of the running task, what interrupt handlers do, and the return of a task to
    a call in which it has waited. *)

Inductive op :=
  | OSched (o : SchedProps.op)
  | OOpen (q : Z) (attr : option (Z * Z))
  | OSend (q oflags : Z) (msg : list Z) (n prio : Z) (dyn : option (Z * list Z))
  | OIrqSend (q oflags : Z) (msg : list Z) (n prio : Z)
  | OReceive (q oflags : Z) (buf : list Z)
  | OTimedSend (q oflags : Z) (msg : list Z) (n prio : Z) (abstime : option timespec) (currtime : timespec)
      (dyn : option (Z * list Z))
  | OTimedReceive (q oflags : Z) (buf : list Z) (abstime : option timespec) (currtime : timespec)
  | OResume (dyn : option (Z * list Z))
  | OIrq (p err : Z)
  | OTimeout (p : Z)
  | OClose (q : Z).

(** [None] is a call that waits. *)

Inductive result := RInt (ret : option Z) | RReceived (ret : option received).

Record world := mk_world { kernel : mq_s; calls : gmap Z call }.

Definition message (t : timedsend) : option Z := match t with TWaits m => Some m | TReturns _ => None end.

Definition exec (w : world) (o : op) : option (result * world) :=
  let st := kernel w in
  let r := current (sched st) in
  match o with
  | OSched o => '(ret, sc) ← SchedProps.exec (sched st) o; Some (RInt (Some ret), mk_world (with_sched st sc) (calls w))
  | OOpen q attr => '(ret, st) ← nxmq_alloc_msgq st attr (Some q); Some (RInt (Some ret), mk_world st (calls w))
  | OSend q oflags msg n prio dyn =>
      '(ret, st) ← file_mq_send false st (mk_file (Some q) oflags) (Some msg) n prio dyn;
      Some (RInt ret, mk_world st (suspend r (CSend q msg n prio None) ret (calls w)))
  | OIrqSend q oflags msg n prio =>
      '(ret, st) ← file_mq_send true st (mk_file (Some q) oflags) (Some msg) n prio None;
      Some (RInt ret, mk_world st (calls w))
  | OReceive q oflags buf =>
      '(ret, st) ← file_mq_receive Some st (mk_file (Some q) oflags) (Some buf) (Z.of_nat (length buf));
      Some (RReceived ret, mk_world st (suspend r (CReceive q oflags buf false) ret (calls w)))
  | OTimedSend q oflags msg n prio abstime currtime dyn =>
      '(t, st) ← file_mq_timedsend st (mk_file (Some q) oflags) (Some msg) n prio abstime currtime dyn;
      Some (RInt (returned t), mk_world st (suspend r (CSend q msg n prio (message t)) (returned t) (calls w)))
  | OTimedReceive q oflags buf abstime currtime =>
      '(ret, st) ← file_mq_timedreceive Some st (mk_file (Some q) oflags) (Some buf) (Z.of_nat (length buf)) abstime currtime;
      Some (RReceived ret, mk_world st (suspend r (CReceive q oflags buf true) ret (calls w)))
  | OResume dyn =>
      c ← calls w !! r;
      match c with
      | CSend q msg n prio (Some m) =>
          '(t, st) ← file_mq_timedsend_resumed st q m msg n prio;
          Some (RInt (returned t), mk_world st (suspend r c (returned t) (calls w)))
      | CSend q msg n prio None =>
          '(ret, st) ← file_mq_send_resumed st q msg n prio dyn;
          Some (RInt ret, mk_world st (suspend r c ret (calls w)))
      | CReceive q oflags buf timed =>
          '(ret, st) ← (if timed then file_mq_timedreceive_resumed else file_mq_receive_resumed) Some st q oflags buf;
          Some (RReceived ret, mk_world st (suspend r c ret (calls w)))
      end
  | OIrq p err => st ← nxmq_wait_irq st p err; Some (RInt (Some OK), mk_world st (calls w))
  | OTimeout p =>
      '(_, wdentry) ← waitdog st !! p;
      st ← match wdentry with SNDTIMEOUT => nxmq_sndtimeout | RCVTIMEOUT => nxmq_rcvtimeout end (waitdog_cancel p st) p;
      Some (RInt (Some OK), mk_world st (calls w))
  | OClose q => st ← nxmq_free_msgq st q; Some (RInt (Some OK), mk_world st (calls w))
  end.

(** Tasks wait for messages through the calls only, and the idle task does not call them;
    the heap returns memory that is not in use. *)

Definition waits_mq (sc : sched_s) p : bool :=
  match tcbs sc !! p with Some t => bool_decide (task_state t = mqe ∨ task_state t = mqf) | None => false end.

Definition lock_left (n : Z) st : bool := locks (pool_of (sched st)) (current (sched st)) + n <=? MAX_LOCK_COUNT.

Definition fresh st (dyn : option (Z * list Z)) : bool :=
  match dyn with
  | Some (m, bytes) =>
      bool_decide (msgs st !! m = None) && negb (m =? Sem.NULL) && (Z.of_nat (length bytes) =? MQ_MAX_BYTES) &&
      (Z.of_nat (base.size (msgs st)) + 1 <? 2 ^ 15)
  | None => true
  end.

Definition is_queue st q : bool := bool_decide (is_Some (queues st !! q)).

Definition may_send (w : world) (q : Z) (msg : list Z) (n prio : Z) (dyn : option (Z * list Z)) : bool :=
  let st := kernel w in
  let r := current (sched st) in
  negb (r =? 0) && bool_decide (calls w !! r = None) && is_queue st q && (0 <=? n) &&
  (n <=? Z.of_nat (length msg)) && (0 <=? prio) && lock_left 2 st && fresh st dyn.

Definition may_receive (w : world) (q : Z) : bool :=
  let st := kernel w in
  let r := current (sched st) in
  negb (r =? 0) && bool_decide (calls w !! r = None) && is_queue st q && lock_left 1 st.

(** A queue that is freed has no users. *)

Definition unused (w : world) (q : Z) : bool :=
  match queues (kernel w) !! q with
  | Some i => (nwaitnotempty i =? 0) && (nwaitnotfull i =? 0) && bool_decide (map_Forall (λ _ c, target c ≠ q) (calls w))
  | None => false
  end.

Definition may (w : world) (o : op) : bool :=
  let st := kernel w in
  let r := current (sched st) in
  match o with
  | OSched o =>
      SchedProps.may (sched st) o &&
      match o with
      | Create _ _ _ => Z.of_nat (base.size (tcbs (sched st))) + 1 <? 2 ^ 15
      | Block s => negb (bool_decide (s = mqe ∨ s = mqf))
      | Wake p => negb (waits_mq (sched st) p)
      | _ => true
      end
  | OOpen q attr =>
      negb (q =? Sem.NULL) && negb (is_queue st q) &&
      match attr with Some (_, size) => (0 <=? size) && (size <=? MQ_MAX_BYTES) | None => true end
  | OSend q _ msg n prio dyn | OTimedSend q _ msg n prio _ _ dyn => may_send w q msg n prio dyn
  | OIrqSend q oflags msg n prio => is_queue st q && (0 <=? n) && (n <=? Z.of_nat (length msg)) && (0 <=? prio)
  | OReceive q _ _ | OTimedReceive q _ _ _ _ => may_receive w q
  | OResume dyn => negb (r =? 0) && bool_decide (is_Some (calls w !! r)) && lock_left 1 st && fresh st dyn
  | OIrq p err => bool_decide (is_Some (tcbs (sched st) !! p)) && (0 <? err)
  | OTimeout p => bool_decide (is_Some (waitdog st !! p))
  | OClose q => unused w q
  end.

(** ** What they do to the queues *)

Definition opened (attr : option (Z * Z)) : mqueue :=
  match attr with
  | Some (maxmsg, size) => mk_mqueue (Sem.s16 maxmsg) size [] [] []
  | None => mk_mqueue MQ_MAX_MSGS MQ_MAX_BYTES [] [] []
  end.

(** [p] no longer waits, if it did. *)

Definition ends_wait (S S' : Z → option mqueue) p : Prop :=
  (∃ k q v, mqstate k ∧ S q = Some v ∧ p ∈ waiters_of k v ∧ turns S S' q (with_waiters k (dq_rem p (waiters_of k v)) v)) ∨
  (∀ k q v, mqstate k → S q = Some v → p ∉ waiters_of k v) ∧ stays S S'.

Definition acts (pr : Z → Z) (r err : Z) (C : gmap Z call) (S S' : Z → option mqueue) (o : op) (res : result) : Prop :=
  match o, res with
  | OSched _, RInt (Some _) => ∀ q, option_Forall2 reorders (S q) (S' q)
  | OOpen q attr, RInt (Some ret) => ret = q ∧ turns S S' q (opened attr)
  | OSend q oflags msg n prio _, RInt ret => sends pr r S S' false q oflags n (prio, firstn (Z.to_nat n) msg) ret
  | OIrqSend q oflags msg n prio, RInt ret => sends pr r S S' true q oflags n (prio, firstn (Z.to_nat n) msg) ret
  | OReceive q oflags buf, RReceived ret => receives pr r S S' q oflags buf ret
  | OTimedSend q oflags msg n prio abstime currtime _, RInt ret =>
      tsends pr r S S' q oflags n (prio, firstn (Z.to_nat n) msg) abstime currtime ret
  | OTimedReceive q oflags buf abstime currtime, RReceived ret => treceives pr r S S' q oflags buf abstime currtime ret
  | OResume _, RInt ret =>
      ∃ q msg n prio h, C !! r = Some (CSend q msg n prio h) ∧ resends pr r S S' q (prio, firstn (Z.to_nat n) msg) err ret
  | OResume _, RReceived ret =>
      ∃ q oflags buf tm, C !! r = Some (CReceive q oflags buf tm) ∧ rereceives pr r S S' q oflags buf err ret
  | OIrq p _, RInt (Some ret) | OTimeout p, RInt (Some ret) => ret = OK ∧ ends_wait S S' p
  | OClose q, RInt (Some ret) => ret = OK ∧ ∀ x, S' x = if decide (x = q) then None else S x
  | _, _ => False
  end.

(** The code with which waits end that an operation ends. *)

Definition ends_with (o : op) : Z := match o with OIrq _ err => err | OTimeout _ => Sem.ETIMEDOUT | _ => OK end.

Definition leaves st st' A' (o : op) : Prop :=
  ∀ p q, msgwaitq st !! p = Some q → msgwaitq st' !! p = None → code A' p = Some (ends_with o).

(** ** Watchdogs *)

Definition timed_by (h : wdentry_t) (c : call) : Prop :=
  match h, c with
  | SNDTIMEOUT, CSend _ _ _ _ (Some _) => True
  | RCVTIMEOUT, CReceive _ _ _ true => True
  | _, _ => False
  end.

(** A watchdog is active only during a timed call. *)

Definition dogs_ok st (C : gmap Z call) : Prop :=
  ∀ p t h, waitdog st !! p = Some (t, h) → 0 < t ∧ ∃ c, C !! p = Some c ∧ timed_by h c.

(** A timed call that begins to wait starts its watchdog, which stays active until it expires
    or the call returns. *)

Record dogs_step st st' (C C' : gmap Z call) (o : op) : Prop := {
  ds_armed : ∀ p c h, C !! p = None → C' !! p = Some c → timed_by h c → ∃ t, 0 < t ∧ waitdog st' !! p = Some (t, h);
  ds_kept : ∀ p d, waitdog st !! p = Some d → o ≠ OTimeout p → is_Some (C' !! p) → waitdog st' !! p = Some d;
  ds_calls : ∀ p c c', C !! p = Some c → C' !! p = Some c' → c' = c
}.

Definition dogs_to st st' C C' o : Prop := dogs_ok st' C' ∧ dogs_step st st' C C' o.

Lemma dogs_same st st' C o : dogs_ok st C → waitdog st' = waitdog st → dogs_to st st' C C o.
Proof. intros HD Hd. split; [unfold dogs_ok; by rewrite Hd|]. constructor; [congruence|by rewrite Hd|congruence]. Qed.

Lemma dogs_end r st st' C o :
  dogs_ok st C → (∀ x, x ≠ r → waitdog st' !! x = waitdog st !! x) → waitdog st' !! r = None → dogs_to st st' C (delete r C) o.
Proof.
  intros HD Hd Hr. split; [|constructor].
  - intros p t h Hp. assert (Hne : p ≠ r) by congruence. rewrite Hd in Hp by done. rewrite lookup_delete_ne by done. by apply HD.
  - intros p c h Hn Hc. apply lookup_delete_Some in Hc as [_ Hc]. congruence.
  - intros p d Hp _ [c [Hne _]%lookup_delete_Some]. by rewrite Hd.
  - intros p c c' Hc [_ Hc']%lookup_delete_Some. congruence.
Qed.

Lemma dogs_begin r st st' C c o :
  dogs_ok st C → C !! r = None → (∀ x, x ≠ r → waitdog st' !! x = waitdog st !! x) →
  (∀ t h, waitdog st' !! r = Some (t, h) → 0 < t ∧ timed_by h c) →
  (∀ h, timed_by h c → ∃ t, 0 < t ∧ waitdog st' !! r = Some (t, h)) → dogs_to st st' C (<[r := c]> C) o.
Proof.
  intros HD HC Hd H1 H2. split; [|constructor].
  - intros p t h Hp. destruct (decide (p = r)) as [->|Hne]; [rewrite lookup_insert_eq; naive_solver|].
    rewrite Hd in Hp by done. rewrite lookup_insert_ne by done. by apply HD.
  - intros p c' h Hn. destruct (decide (p = r)) as [->|Hne]; [rewrite lookup_insert_eq; intros [= <-]; apply H2|].
    rewrite lookup_insert_ne by done. congruence.
  - intros p [t h] Hp _ _. destruct (decide (p = r)) as [->|Hne]; [|by rewrite Hd]. destruct (HD r t h Hp) as (_ & ? & ? & _). congruence.
  - intros p c1 c2 Hc. rewrite lookup_insert_ne by congruence. congruence.
Qed.

Lemma dogs_expire p st st' C : dogs_ok st C → waitdog st' = delete p (waitdog st) → dogs_to st st' C C (OTimeout p).
Proof.
  intros HD Hd. split; [|constructor]; [|congruence| |congruence].
  - intros x t h. rewrite Hd. intros [_ Hx]%lookup_delete_Some. by apply HD.
  - intros x d Hx Hne _. rewrite Hd, lookup_delete_ne; [done|congruence].
Qed.

Lemma dogs_none r st C : dogs_ok st C → C !! r = None → waitdog st !! r = None.
Proof.
  intros HD HC. destruct (waitdog st !! r) as [[t h]|] eqn:Hd; [|done]. destruct (HD r t h Hd) as (_ & c & Hc & _). congruence.
Qed.

(** ** The invariant *)

Definition world_ok (w : world) A : Prop :=
  mq_ok (messages (calls w)) (kernel w) A ∧ calls_inv (mview (kernel w) A) (code A) (calls w) ∧ dogs_ok (kernel w) (calls w).

Definition does (w : world) A (o : op) : Prop :=
  ∃ res w' A' err, exec w o = Some (res, w') ∧ world_ok w' A' ∧ wait_error (kernel w) = Some err ∧
    acts (prio A) (current (sched (kernel w))) err (calls w) (mview (kernel w) A) (mview (kernel w') A') o res ∧
    leaves (kernel w) (kernel w') A' o ∧ dogs_step (kernel w) (kernel w') (calls w) (calls w') o.

End MqWorld.
