(* ===== verification/MqSteps.v ===== *)
(** * Every operation on message queues

    In a state that satisfies [world_ok] each operation of MqWorld.v that its caller may use
    succeeds, keeps [world_ok], and acts on the queues as [acts] says. *)

From S2P Require Import Prelude Sched SchedSpec SchedView SchedOps SchedProps Sem SemSpec SemOps Mq MqSpec MqOps MqTimed MqCalls MqWorld.

Module MqSteps.
Import Sched SchedSpec SchedView SchedOps SchedProps Mq MqSpec MqOps MqTimed MqCalls MqWorld.

Implicit Types (st : mq_s) (p q m : Z) (l : list Z) (A : pool) (k : tstate_t) (i : mqueue_inode_s).

(** ** Messages that are held *)

#[global] Instance mq_ok_proper : Proper ((≡ₚ) ==> (=) ==> (=) ==> iff) mq_ok.
Proof.
  enough (Hx : ∀ hs hs' st A, hs ≡ₚ hs' → mq_ok hs st A → mq_ok hs' st A).
  { intros hs hs' Hh st ? <- A ? <-. split; apply Hx; [done|by symmetry]. }
  intros hs hs' st A Hh [H1 H2 [H3 H4 H5 H6 H7]]. constructor; [done..|]. constructor; [|done..].
  eapply places_ext; [by symmetry|done|exact H3].
Qed.

Lemma messages_fresh {R} C r c (ret : option R) : C !! r = None → message_of c = [] → messages (suspend r c ret C) ≡ₚ messages C.
Proof. intros HC Hc. destruct ret; simpl; [by rewrite delete_id|by apply messages_none]. Qed.

Lemma messages_again {R} C r c (ret : option R) : C !! r = Some c → message_of c = [] → messages (suspend r c ret C) ≡ₚ messages C.
Proof.
  intros HC Hc. destruct ret; simpl; [|by rewrite insert_id]. by rewrite (messages_delete C r c HC), Hc.
Qed.

Lemma messages_timed C r q msg n prio t :
  C !! r = None → messages (suspend r (CSend q msg n prio (message t)) (returned t) C) ≡ₚ holds (messages C) t.
Proof. intros HC. destruct t; simpl; [by rewrite delete_id|by rewrite messages_insert]. Qed.

(** ** Waits that end *)

Lemma mq_waiting_code hs st A p q : mq_ok hs st A → msgwaitq st !! p = Some q → code A p = Some OK ∧ p ≠ current (sched st).
Proof.
  intros [Hs Hw _] Hp. pose proof (ok_pool _ _ Hs) as HA. destruct (wi_out _ _ _ Hw p q Hp) as (k & Hk & Hin).
  destruct (w_known _ HA _ _ Hin) as [t Ht]. split.
  - unfold code. rewrite Ht. simpl. f_equal. by eapply (wi_err _ _ _ Hw k).
  - intros ->. destruct (head_tcb _ A Hs) as (_ & _ & _ & Hh & _). apply head_Some_elem_of in Hh.
    eapply (ready_not_waiting A HA); [exact Hh|exact Hk|exact Hin].
Qed.

Lemma leaves_codes hs st st' A A' o :
  mq_ok hs st A → codes (current (sched st)) A A' → ends_with o = OK → leaves st st' A' o.
Proof.
  intros Hok Hc Ho p q Hp _. destruct (mq_waiting_code hs st A p q Hok Hp) as [He Hne]. rewrite Ho, <- He. by apply Hc.
Qed.

Lemma fresh_ok st dyn : fresh st dyn = true → fresh_msg st dyn.
Proof.
  unfold fresh, fresh_msg. destruct dyn as [[m bytes]|]; [|done]. rewrite !andb_true_iff, bool_decide_eq_true.
  intros (((H1 & H2) & H3) & H4). split_and!; [done|lia..].
Qed.

Lemma lockable_left hs n st A : mq_ok hs st A → lock_left n st = true → lockable false n st A.
Proof.
  intros [Hs _ _] Hl. right. unfold lock_left in Hl.
  rewrite <- (view_pool_of _ A (ok_view _ _ Hs) (ok_pool _ _ Hs)) in Hl. lia.
Qed.

Lemma untimed_again C r c st : dogs_ok st C → C !! r = Some c → (∀ h, ¬ timed_by h c) → waitdog st !! r = None.
Proof.
  intros HD HC Hc. destruct (waitdog st !! r) as [[t h]|] eqn:Hd; [|done]. destruct (HD r t h Hd) as (_ & c' & Hc' & Ht).
  rewrite HC in Hc'. simplify_eq. by destruct (Hc h).
Qed.

(** The watchdogs after a call that is not timed, and after one that is. *)

Lemma dogs_untimed {R} r c (ret : option R) st st' C o :
  dogs_ok st C → C !! r = None ∨ C !! r = Some c → (∀ h, ¬ timed_by h c) → waitdog st' = waitdog st →
  dogs_to st st' C (suspend r c ret C) o.
Proof.
  intros HD HC Hc Hd. assert (Hr : waitdog st !! r = None) by (destruct HC; [by eapply dogs_none|by eapply untimed_again]).
  destruct ret; simpl; [apply dogs_end; [done|by rewrite Hd|by rewrite Hd]|].
  destruct HC as [HC|HC]; [|rewrite insert_id by done; by apply dogs_same].
  apply dogs_begin; [done|done|by rewrite Hd|rewrite Hd; congruence|]. intros h Hh. by destruct (Hc h).
Qed.

Lemma dogs_timed {R} r c h (ret : option R) st st' C o :
  dogs_ok st C → C !! r = None → timed_by h c → (∀ h', timed_by h' c → h' = h) →
  match ret with None => dog_armed r h st st' | Some _ => dog_done r st st' end → dogs_to st st' C (suspend r c ret C) o.
Proof.
  intros HD HC Hc Hu Hd. pose proof (dogs_none r st C HD HC) as Hr. destruct ret; simpl.
  - destruct Hd as [D1 [D2|D2]]; (apply dogs_end; [done|done|congruence]).
  - destruct Hd as (t & Ht & Hd). apply dogs_begin; [done|done|intros x Hx; by rewrite Hd, lookup_insert_ne|..];
      rewrite Hd, lookup_insert_eq; [by intros ? ? [= <- <-]|]. intros h' Hh'. rewrite (Hu h' Hh'). by exists t.
Qed.

(** The watchdog of a timed call that goes on. *)

Lemma dogs_again {R} r c (ret : option R) st st' C o :
  dogs_ok st C → C !! r = Some c → waitdog st' = match ret with None => waitdog st | Some _ => delete r (waitdog st) end →
  dogs_to st st' C (suspend r c ret C) o.
Proof.
  intros HD HC Hd. destruct ret; simpl; [|rewrite insert_id by done; by apply dogs_same].
  apply dogs_end; [done|intros x Hx; by rewrite Hd, lookup_delete_ne|by rewrite Hd, lookup_delete_eq].
Qed.

Section Does.

Context (w : world) (A : pool) (Hw : world_ok w A).

Local Abbreviation st := (kernel w).
Local Abbreviation r := (current (sched (kernel w))).

Lemma does_intro o res st' C' A' :
  exec w o = Some (res, mk_world st' C') → mq_ok (messages C') st' A' → calls_inv (mview st' A') (code A') C' → dogs_to st st' (calls w) C' o →
  (∀ err, wait_error st = Some err → code A r = Some err → acts (prio A) r err (calls w) (mview st A) (mview st' A') o res) →
  leaves st st' A' o → does w A o.
Proof.
  intros E Hok Hc [Hd Hds] Ha Hl. destruct Hw as [Hok0 _]. destruct (wait_error_ok _ _ A Hok0) as (err & He & _ & Hcd).
  exists res, (mk_world st' C'), A', err. split; [done|]. split; [done|]. split; [done|]. split; [by apply Ha|done].
Qed.

Lemma may_send_ok q msg n prio dyn :
  may_send w q msg n prio dyn = true →
  ∃ i, queues st !! q = Some i ∧ calls w !! r = None ∧ r ≠ 0 ∧ 0 ≤ n ≤ Z.of_nat (length msg) ∧ 0 ≤ prio ∧ lockable false 2 st A ∧ fresh_msg st dyn.
Proof.
  intros Hm. unfold may_send, is_queue in Hm. rewrite !andb_true_iff, !bool_decide_eq_true in Hm.
  destruct Hm as (((((((Hr & HC) & [i Hi]) & Hn1) & Hn2) & Hp) & Hl) & Hd). exists i.
  split; [done|]. split; [done|]. split; [lia|]. split; [lia|]. split; [lia|].
  split; [eapply lockable_left; [apply Hw|done]|by apply fresh_ok].
Qed.

Lemma may_receive_ok q : may_receive w q = true →
  ∃ i, queues st !! q = Some i ∧ calls w !! r = None ∧ r ≠ 0 ∧ lockable false 1 st A.
Proof.
  intros Hm. unfold may_receive, is_queue in Hm. rewrite !andb_true_iff, !bool_decide_eq_true in Hm.
  destruct Hm as (((Hr & HC) & [i Hi]) & Hl). exists i. split; [done|]. split; [done|]. split; [lia|].
  eapply lockable_left; [apply Hw|done].
Qed.

Lemma send_does q oflags msg n prio dyn :
  may w (OSend q oflags msg n prio dyn) = true → does w A (OSend q oflags msg n prio dyn).
Proof.
  intros (i & Hi & HC & Hr & Hn & Hp & Hl & Hd)%may_send_ok. destruct Hw as (Hok & HI & HD).
  destruct (send_ok _ _ A Hok q i Hi msg n prio Hn Hp dyn Hd false oflags) as (ret & st' & A' & E & Hok' & Hcd & _ & Hs); [done|by right|].
  eapply does_intro; [unfold exec; rewrite E; done|by rewrite messages_fresh| | |by intros err _ _|by eapply leaves_codes].
  - eapply send_calls; [exact HI|by eapply waiters_ok_view|by eapply current_not_waiting|exact Hcd|done|lia|lia|exact Hs].
  - apply dogs_untimed; [done|by left|by intros [] []|by eapply dog_send].
Qed.

Lemma timed_send_does q oflags msg n prio abstime currtime dyn :
  may w (OTimedSend q oflags msg n prio abstime currtime dyn) = true → does w A (OTimedSend q oflags msg n prio abstime currtime dyn).
Proof.
  intros (i & Hi & HC & Hr & Hn & Hp & Hl & Hd)%may_send_ok. destruct Hw as (Hok & HI & HD).
  destruct (tsend_ok _ _ A q i Hi msg n prio Hn Hp oflags abstime currtime dyn Hok Hd Hl Hr) as (t & st' & A' & E & Hok' & Hcd & Hs & Hdog).
  eapply does_intro; [unfold exec; rewrite E; done|by rewrite messages_timed| | |by intros err _ _|by eapply leaves_codes].
  - eapply tsend_calls; [exact HI|by eapply waiters_ok_view|by eapply current_not_waiting|exact Hcd|done|lia|lia|exact Hs].
  - assert (Hu : ∀ h' m, timed_by h' (CSend q msg n prio (Some m)) → h' = SNDTIMEOUT) by (by intros []).
    destruct t as [ret|m]; simpl.
    + apply (dogs_timed r (CSend q msg n prio (Some 0)) SNDTIMEOUT (Some ret)); [done..|by intros h' ?%Hu|done].
    + apply (dogs_timed (R := Z) r _ SNDTIMEOUT None); [done..|by intros h' ?%Hu|done].
Qed.

Lemma receive_does q oflags buf : may w (OReceive q oflags buf) = true → does w A (OReceive q oflags buf).
Proof.
  intros (i & Hi & HC & Hr & Hl)%may_receive_ok. destruct Hw as (Hok & HI & HD).
  destruct (receive_ok _ _ A Hok q i Hi oflags buf Hr Hl) as (ret & st' & A' & E & Hok' & Hcd & Hs).
  eapply does_intro; [unfold exec; rewrite E; done|by rewrite messages_fresh| | |by intros err _ _|by eapply leaves_codes].
  - eapply receive_calls; [exact HI|by eapply current_not_waiting|exact Hcd|done|exact Hs].
  - apply dogs_untimed; [done|by left|by intros [] []|by eapply dog_receive].
Qed.

Lemma timed_receive_does q oflags buf abstime currtime :
  may w (OTimedReceive q oflags buf abstime currtime) = true → does w A (OTimedReceive q oflags buf abstime currtime).
Proof.
  intros (i & Hi & HC & Hr & Hl)%may_receive_ok. destruct Hw as (Hok & HI & HD).
  destruct (treceive_ok _ _ A Hok q i Hi oflags buf Hr abstime currtime Hl) as (ret & st' & A' & E & Hok' & Hcd & Hs & Hdog).
  eapply does_intro; [unfold exec; rewrite E; done|by rewrite messages_fresh| | |by intros err _ _|by eapply leaves_codes].
  - eapply treceive_calls; [exact HI|by eapply current_not_waiting|exact Hcd|done|exact Hs].
  - apply (dogs_timed _ _ RCVTIMEOUT); [done..|by intros []|done].
Qed.

(** *** A suspended call goes on *)

Lemma may_resume_ok dyn :
  may w (OResume dyn) = true →
  ∃ c i err, calls w !! r = Some c ∧ queues st !! target c = Some i ∧ wait_error st = Some err ∧ 0 ≤ err ∧ code A r = Some err ∧
    r ≠ 0 ∧ lockable false 1 st A ∧ fresh_msg st dyn ∧
    match c with
    | CSend _ msg n prio _ => 0 ≤ n ≤ maxmsgsize i ∧ n ≤ Z.of_nat (length msg) ∧ 0 ≤ prio ≤ MQ_PRIO_MAX
    | CReceive _ _ buf _ => maxmsgsize i ≤ Z.of_nat (length buf)
    end.
Proof.
  intros Hm. unfold may in Hm. rewrite !andb_true_iff, !bool_decide_eq_true in Hm. destruct Hm as (((Hr & [c Hc]) & Hl) & Hd).
  destruct Hw as (Hok & HI & _). destruct (wait_error_ok _ _ A Hok) as (err & He & Hpos & Hcode).
  assert (∃ i, queues st !! target c = Some i ∧ match c with
    | CSend _ msg n prio _ => 0 ≤ n ≤ maxmsgsize i ∧ n ≤ Z.of_nat (length msg) ∧ 0 ≤ prio ≤ MQ_PRIO_MAX
    | CReceive _ _ buf _ => maxmsgsize i ≤ Z.of_nat (length buf) end) as (i & Hi & Hch).
  { pose proof (ci_checked _ _ _ HI _ _ Hc) as Hch. destruct c as [q msg n prio h|q oflags buf tm]; destruct Hch as (v & Hv & Hch);
      unfold mview in Hv; simpl; destruct (queues st !! q) as [i|]; simplify_eq/=; by exists i. }
  exists c, i, err. do 5 (split; [done|]). split; [lia|]. split; [by eapply lockable_left|]. split; [by apply fresh_ok|done].
Qed.

Lemma resume_timed_send q msg n prio m i err :
  calls w !! r = Some (CSend q msg n prio (Some m)) → queues st !! q = Some i → wait_error st = Some err → 0 ≤ err →
  r ≠ 0 → lockable false 1 st A → 0 ≤ n ≤ maxmsgsize i → n ≤ Z.of_nat (length msg) → 0 ≤ prio ≤ MQ_PRIO_MAX →
  ∀ dyn, does w A (OResume dyn).
Proof.
  intros Hc Hi He Hpos Hr Hl Hn Hlen Hp dyn. destruct Hw as (Hok & HI & HD). pose proof Hok as Hok0.
  rewrite (messages_delete _ r _ Hc) in Hok. simpl in Hok.
  destruct (tresend_ok _ _ A q i Hi msg n prio ltac:(lia) ltac:(lia) m err Hok Hl Hr ltac:(lia) ltac:(lia) He Hpos)
    as (t & st' & A' & E & Hok' & Hcd & Hs & Hdog).
  eapply does_intro; [unfold exec; rewrite Hc; cbn [mbind option_bind]; rewrite E; done| | | | |by eapply leaves_codes].
  - destruct t as [ret|m']; simpl in *; [done|]. destruct Hdog as [-> _]. by rewrite insert_id, (messages_delete _ r _ Hc).
  - eapply resend_calls; [exact HI|by eapply waiters_ok_view|by eapply current_not_waiting|exact Hcd|done|exact Hs].
  - apply dogs_again; [done|done|]. destruct t; simpl; [done|apply Hdog].
  - intros e He' _. assert (e = err) as -> by congruence. by exists q, msg, n, prio, (Some m).
Qed.

Lemma resume_does dyn : may w (OResume dyn) = true → does w A (OResume dyn).
Proof.
  intros (c & i & err & Hc & Hi & He & Hpos & Hcode & Hr & Hl & Hd & Hch)%may_resume_ok. destruct Hw as (Hok & HI & HD).
  destruct c as [q msg n prio [m|]|q oflags buf tm]; simpl in Hi.
  - destruct Hch as (Hn & Hlen & Hp). by eapply resume_timed_send.
  - destruct (resend_ok _ _ A Hok q i Hi msg n prio ltac:(lia) ltac:(lia) dyn Hd err) as (ret & st' & A' & E & Hok' & Hcd & Hs); [done|lia..|done|done|].
    eapply does_intro; [unfold exec; rewrite Hc; cbn [mbind option_bind]; rewrite E; done|by rewrite messages_again| | | |by eapply leaves_codes].
    + eapply resend_calls; [exact HI|by eapply waiters_ok_view|by eapply current_not_waiting|exact Hcd|done|exact Hs].
    + apply dogs_untimed; [done|by right|by intros [] []|by eapply dog_resend].
    + intros e He' _. assert (e = err) as -> by congruence. by exists q, msg, n, prio, None.
  - assert (∃ ret st' A', (if tm then file_mq_timedreceive_resumed else file_mq_receive_resumed) Some st q oflags buf = Some (ret, st') ∧
      mq_ok (messages (calls w)) st' A' ∧ codes r A A' ∧ rereceives (prio A) r (mview st A) (mview st' A') q oflags buf err ret ∧
      dogs_to st st' (calls w) (suspend r (CReceive q oflags buf tm) ret (calls w)) (OResume dyn)) as (ret & st' & A' & E & Hok' & Hcd & Hs & Hdog).
    { destruct tm.
      - destruct (trereceive_ok _ _ A Hok q i Hi oflags buf Hr err He Hpos Hch) as (ret & st' & A' & E & Hok' & Hcd & Hs & Hdog).
        exists ret, st', A'. do 4 (split; [done|]). by apply dogs_again.
      - destruct (rereceive_ok _ _ A Hok q i Hi oflags buf Hr err He Hpos Hch) as (ret & st' & A' & E & Hok' & Hcd & Hs).
        exists ret, st', A'. do 4 (split; [done|]). apply dogs_untimed; [done|by right|by intros [] []|by eapply dog_rereceive]. }
    eapply does_intro; [unfold exec; rewrite Hc; cbn [mbind option_bind]; rewrite E; done|by rewrite messages_again| |done| |by eapply leaves_codes].
    + eapply rereceive_calls; [exact HI|by eapply current_not_waiting|exact Hcd|done|exact Hcode|exact Hs].
    + intros e He' _. assert (e = err) as -> by congruence. by exists q, oflags, buf, tm.
Qed.

(** *** The end of a wait *)

Lemma still_waits hs st' A' p p' q k q0 v :
  mq_ok hs st' A' → mqstate k → mview (kernel w) A q0 = Some v → p' ≠ p → msgwaitq (kernel w) !! p' = Some q →
  turns (mview (kernel w) A) (mview st' A') q0 (with_waiters k (dq_rem p (waiters_of k v)) v) → msgwaitq st' !! p' = Some q.
Proof.
  intros Hok' Hk Hv Hne Hp Ht. destruct Hw as [[Hs Hwt _] _]. destruct (wi_out _ _ _ Hwt p' q Hp) as (k' & Hk' & Hin).
  destruct (wi_in _ _ _ Hwt k' p' Hk' Hin) as (q' & Hq' & [i Hi]). assert (q' = q) as -> by congruence.
  pose proof (mview_some _ A q i Hi) as Hvq. set (vq := mk_mqueue _ _ _ _ _) in Hvq.
  assert (Hpv : p' ∈ waiters_of k' vq) by by apply (mview_waiters _ _ _ _ _ _ Hk' Hvq).
  pose proof (Ht q) as Hq. case_decide as Hqq.
  - subst q0. rewrite Hv in Hvq. injection Hvq as ->.
    apply (mview_waiters st' A' q _ k' p' Hk' Hq). rewrite elem_waiters_with by done. case_decide; [|done].
    subst. by apply elem_dq_rem.
  - rewrite Hvq in Hq. by apply (mview_waiters st' A' q _ k' p' Hk' Hq).
Qed.

(** [p] leaves the queue with the code [ends_with o], or does not wait. *)

Lemma ended_does p o st' A' :
  exec w o = Some (RInt (Some OK), mk_world st' (calls w)) → mq_ok (messages (calls w)) st' A' → codes p A A' →
  dogs_to st st' (calls w) (calls w) o → (∀ S S' err C, ends_wait S S' p → acts (prio A) r err C S S' o (RInt (Some OK))) →
  ((∃ k q v, mqstate k ∧ mview st A q = Some v ∧ p ∈ waiters_of k v ∧ errcode <$> core A' !! p = Some (ends_with o) ∧
      turns (mview st A) (mview st' A') q (with_waiters k (dq_rem p (waiters_of k v)) v)) ∨
   (∀ k q v, mqstate k → mview st A q = Some v → p ∉ waiters_of k v) ∧ msgwaitq st' = msgwaitq st ∧ A' = A ∧ mview st' A = mview st A) →
  does w A o.
Proof.
  intros E Hok' Hcd Hdog Hact Hs. pose proof Hw as (Hok & HI & _). eapply does_intro; [exact E|exact Hok'| |exact Hdog| |].
  - destruct Hs as [(k & q & v & Hk & Hv & Hp & Hcp & Htn)|(_ & _ & -> & ->)]; [|done].
    eapply end_wait; [exact HI|by eapply waiters_ok_view|exact Hk|exact Hv|exact Hp|exact Hcd|exact Htn].
  - intros ? _ _. apply Hact. destruct Hs as [(k & q & v & Hk & Hv & Hp & _ & Htn)|(Hno & _ & -> & ->)]; [left; by exists k, q, v|by right].
  - intros p' q' Hp' Hn. destruct Hs as [(k & q & v & Hk & Hv & Hp & Hcp & Htn)|(_ & Hm & _)]; [|congruence].
    destruct (decide (p' = p)) as [->|Hne]; [done|]. pose proof (still_waits _ st' A' p p' q' k q v Hok') as Hst. naive_solver.
Qed.

Lemma irq_does p err : may w (OIrq p err) = true → does w A (OIrq p err).
Proof.
  intros Hm. unfold may in Hm. rewrite andb_true_iff, bool_decide_eq_true in Hm. destruct Hm as [[t Ht] He].
  pose proof Hw as (Hok & HI & HD). destruct (irq_step _ _ A Hok p t err Ht) as (st' & A' & E & Hok' & Hcd & Hs); [lia|].
  apply (ended_does p _ st' A'); [unfold exec; by rewrite E|done|done|apply dogs_same; [done|by eapply dog_irq]|done|].
  destruct Hs as [Hs|(Hno & -> & ->)]; [by left|right]. split; [intros k q v _; apply Hno|done].
Qed.

Lemma timeout_does p : may w (OTimeout p) = true → does w A (OTimeout p).
Proof.
  intros Hm. unfold may in Hm. rewrite bool_decide_eq_true in Hm. destruct Hm as [[t h] Hd]. pose proof Hw as (Hok & HI & HD).
  set (k := match h with SNDTIMEOUT => mqf | RCVTIMEOUT => mqe end).
  assert (Hk : mqstate k) by (unfold k; destruct h; [by right|by left]).
  destruct (timeout_step (messages (calls w)) k (waitdog_cancel p st) A p Hk) as (st' & A' & E & Hok' & Hcd & Hdog & Hs); [by destruct Hok as [? ? ?]|].
  apply (ended_does p _ st' A'); [unfold exec; rewrite Hd; cbn [mbind option_bind]; by unfold k in E; destruct h; unfold nxmq_sndtimeout, nxmq_rcvtimeout; rewrite E
    |done|done|by apply dogs_expire|done|].
  destruct Hs as [(q & v & Hv & Hp & Hc & Ht)|(Hno & -> & ->)]; [left; by exists k, q, v|right]. split; [|done].
  intros k' q v Hk' Hv Hp. destruct (ci_waits _ _ _ HI k' q v p Hk' Hv Hp) as (c & Hc & Hon). destruct (HD p t h Hd) as (_ & c' & Hc' & Ht).
  rewrite Hc in Hc'. simplify_eq. apply (Hno q v Hv). assert (k = k') as ->; [|done]. unfold k.
  destruct Hk' as [-> | ->], h, c' as [? ? ? ? []|? ? ? []]; done.
Qed.

(** *** The other operations *)

Lemma irq_send_does q oflags msg n prio : may w (OIrqSend q oflags msg n prio) = true → does w A (OIrqSend q oflags msg n prio).
Proof.
  intros Hm. unfold may, is_queue in Hm. rewrite !andb_true_iff in Hm.
  destruct Hm as ((([i Hi]%bool_decide_eq_true & Hn1) & Hn2) & Hp). destruct Hw as (Hok & HI & HD).
  destruct (send_ok _ _ A Hok q i Hi msg n prio ltac:(lia) ltac:(lia) None I true oflags)
    as (ret & st' & A' & E & Hok' & Hcd & Hsc & Hs); [by left|by left|]. specialize (Hsc eq_refl).
  eapply does_intro; [unfold exec; rewrite E; done|exact Hok'| |apply dogs_same; [done|by eapply dog_send]|by intros err _ _|by eapply leaves_codes].
  assert (Hst : stays (mview (kernel w) A) (mview st' A') → calls_inv (mview st' A') (code A') (calls w)).
  { intros Hst. eapply reorders_inv; [exact HI|by eapply waiters_ok_view|by intros p e He; rewrite <- He; apply Hsc|by apply sizes_stays|].
    intros q' v Hv. left. exists v. by rewrite <- Hst. }
  destruct Hs as [v Hv _ _ Ht|v _ _ _ Ht|v _ _ _ _ _ Hf _|_ Ht|Ht|_ Ht|v _ _ Ht]; try by apply Hst.
  eapply (delivered_inv _ _ _ _ _ HI (waiters_ok_view _ _ A Hok) None); [|done|exact Hv|exact Ht].
  constructor; [done|by intros p e _ He; rewrite <- He; apply Hsc| |done|by eapply sizes_turns].
  intros k q' v' p Hk. rewrite Ht. case_decide; [|intros Hv' Hp'; left; split; [done|by exists v']].
  intros [= <-] Hp'. subst. left. split; [done|]. exists v. split; [done|]. by eapply waiters_delivered.
Qed.

Lemma sched_does o : may w (OSched o) = true → does w A (OSched o).
Proof.
  intros Hm. unfold may in Hm. apply andb_true_iff in Hm as [Hm Hx]. pose proof Hw as (Hok & HI & HD). pose proof Hok as [Hs Hwt Hst].
  pose proof (ok_pool _ _ Hs) as HA. pose proof (ok_view _ _ Hs) as HV.
  destruct (step_ok _ A o Hs Hm) as (ret & sc & A' & E & Hmv & Hs'). destruct (head_tcb _ A Hs) as (_ & _ & _ & Hh & _).
  assert (wait_inv (msgwaitq (kernel w)) (queues (kernel w)) A' ∧ (∀ p e, code A p = Some e → code A' p = Some e) ∧
    ∀ k q, mqstate k → waiting (msgwaitq (kernel w)) A' k q ≡ₚ waiting (msgwaitq (kernel w)) A k q) as (Hw' & Hc & Hq).
  { destruct o as [p n tt|s|p| | | | |].
    1: { inversion Hmv; subst. unfold SchedProps.may in Hm. rewrite !andb_true_iff, bool_decide_eq_true in Hm.
      destruct Hm as [[Hp _] _]. assert (Hcp : core A !! p = None) by by rewrite <- (v_core _ _ HV), lookup_fmap, Hp.
      split; [apply create_wait; try done; rewrite <- (v_core _ _ HV), map_size_fmap; lia|]. split.
      - intros x e. unfold code. simpl. destruct (decide (x = p)) as [->|]; [by rewrite Hcp|by rewrite lookup_insert_ne].
      - intros k q [-> | ->]; done. }
    all: assert (Hsw : same_mq A A');
      [|split; [by eapply same_mq_inv|split; [intros x e Hx'; unfold code; by rewrite (sm_err _ _ Hsw)|intros k q Hk; by apply same_mq_waiting]]];
      eapply move_same_mq; [done|done|exact Hmv|try done].
    - intros Hk. by rewrite bool_decide_true in Hx.
    - intros k Hk Hp. unfold waits_mq in Hx. destruct (v_tcb _ A HV p) as (t & Ht & _); [by eapply w_known|].
      rewrite Ht in Hx. apply (waits_state _ _ A Hok p t Ht k Hk) in Hp. by rewrite bool_decide_true in Hx by (rewrite Hp; exact Hk). }
  assert (Hr : ∀ q, option_Forall2 reorders (mview (kernel w) A q) (mview (with_sched (kernel w) sc) A' q)).
  { intros q. unfold mview. simpl. destruct (queues (kernel w) !! q); constructor.
    split_and!; [done..|apply Hq; by left|apply Hq; by right]. }
  eapply does_intro; [unfold exec; rewrite E; done|by constructor| |by apply dogs_same|by intros ? _ _|].
  - eapply reorders_inv; [exact HI|by eapply waiters_ok_view|exact Hc| |].
    + intros q v Hv. specialize (Hr q). rewrite Hv in Hr. inversion Hr as [? v' Hre Hv'|]; subst. exists v'. split; [done|apply Hre].
    + intros q v' Hv'. left. specialize (Hr q). rewrite Hv' in Hr. inversion Hr as [v ? Hre Hv|]; subst. by exists v.
  - intros p q Hp. simpl. congruence.
Qed.

Lemma open_does q attr : may w (OOpen q attr) = true → does w A (OOpen q attr).
Proof.
  intros Hm. unfold may, is_queue in Hm. rewrite !andb_true_iff, !negb_true_iff, bool_decide_eq_false in Hm.
  destruct Hm as [[Hn Hq%eq_None_not_Some] Ha]. pose proof Hw as (Hok & HI & HD). pose proof Hok as [Hs Hwt Hst].
  set (v := opened attr). assert (Hsz : 0 ≤ msize v ≤ MQ_MAX_BYTES) by (unfold v; destruct attr as [[max size]|]; simpl; [lia|done]).
  set (st' := set_queue (kernel w) q (mk_msgq [] (capacity v) 0 0 0 (msize v))).
  assert (E : exec w (OOpen q attr) = Some (RInt (Some q), mk_world st' (calls w))).
  { unfold exec, nxmq_alloc_msgq. destruct attr as [[max size]|]; cbn [DEBUGASSERT mbind option_bind]; [|done].
    simpl in Hsz. unfold MQ_MAX_BYTES in *. rewrite (proj2 (Z.leb_le _ _)) by lia. cbn [DEBUGASSERT mbind option_bind].
    rewrite (SemSpec.s16_small size), u8_small by lia. done. }
  assert (Ht : turns (mview (kernel w) A) (mview st' A) q v).
  { intros x. unfold mview, st'. simpl. case_decide as Hx; [|by rewrite lookup_insert_ne]. subst x. rewrite lookup_insert_eq. simpl.
    rewrite !(waiting_unknown _ _ _ _ _ Hwt) by (done || (by left) || by right).
    unfold v. by destruct attr as [[max size]|]. }
  eapply does_intro; [exact E| | |by apply dogs_same|by intros ? _ _|intros p x Hp; simpl; congruence].
  - constructor; [done|by apply wait_open|apply store_open; [done..|lia|done]].
  - eapply reorders_inv; [exact HI|by eapply waiters_ok_view|done| |].
    + intros x y Hy. rewrite Ht, decide_False; [by exists y|]. intros ->. unfold mview in Hy. by rewrite Hq in Hy.
    + intros x y. rewrite Ht. case_decide; [|intros Hy; left; by exists y]. intros [= <-]. right. unfold v. by destruct attr as [[max size]|].
Qed.

Lemma close_does q : may w (OClose q) = true → does w A (OClose q).
Proof.
  intros Hm. unfold may, unused in Hm. destruct (queues st !! q) as [i|] eqn:Hi; [|done]. rewrite !andb_true_iff, bool_decide_eq_true in Hm.
  destruct Hm as [[H1 H2] Hc]. pose proof Hw as (Hok & HI & HD). pose proof Hok as [_ Hwt _].
  pose proof (wi_count _ _ _ Hwt mqe q i (or_introl eq_refl) Hi) as Hce. pose proof (wi_count _ _ _ Hwt mqf q i (or_intror eq_refl) Hi) as Hcf. simpl in Hce, Hcf.
  destruct (free_msgq_step _ st A q _ Hok (mview_some st A q i Hi)) as (st' & E & Hok' & Hd & Hm & _ & Hv); [apply nil_length_inv; simpl; lia..|].
  eapply does_intro; [unfold exec; rewrite E; done|exact Hok'| |by apply dogs_same|by intros ? _ _|intros p x Hp; congruence].
  eapply close_inv; [exact HI|exact Hc|done|exact Hv].
Qed.

End Does.

End MqSteps.
