(* ===== verification/MqProps.v ===== *)
(** * Properties of message queues

    The states that are [reachable] from the start of the system, and the theorems about
    the operations in them. *)

From S2P Require Import Prelude Sched SchedSpec SchedView SchedOps SchedProps Sem SemSpec SemOps Mq MqSpec MqOps MqTimed MqCalls MqWorld MqSteps.

Module MqProps.
Import Sched SchedSpec SchedView SchedOps SchedProps Mq MqSpec MqOps MqTimed MqCalls MqWorld MqSteps.

Implicit Types (st : mq_s) (p q m : Z) (A : pool) (w : world) (o : MqWorld.op).

(** ** The start *)

Definition mq_start (block irqblock : option (Z * list Z)) : mq_s :=
  nxmq_initialize block irqblock (mk_mq ∅ ∅ [] [] ∅ ∅ nx_start).

(** What [kmm_malloc] returns for the two blocks of messages. *)

Definition block_ok (block : option (Z * list Z)) : bool :=
  match block with Some (a, bytes) => (0 <? a) && (Z.of_nat (length bytes) =? MQ_MAX_BYTES) | None => true end.

Definition apart (block irqblock : option (Z * list Z)) : bool :=
  match block, irqblock with
  | Some (a, _), Some (b, _) =>
      (a + CONFIG_PREALLOC_MQ_MSGS * SIZEOF_MQUEUE_MSG_S <=? b) ||
      (b + CONFIG_PREALLOC_MQ_IRQ_MSGS * SIZEOF_MQUEUE_MSG_S <=? a)
  | _, _ => true
  end.

Definition blocks_ok (block irqblock : option (Z * list Z)) : bool :=
  block_ok block && block_ok irqblock && apart block irqblock.

Definition stored st : Prop := store_inv [] (queues st) (msgs st) (g_msgfree st) (g_msgfreeirq st).

Lemma msgblock_stored n t a bytes st :
  stored st → t ≠ MQ_ALLOC_DYN → 0 < a → Z.of_nat (length bytes) = MQ_MAX_BYTES →
  (∀ m, a ≤ m < a + Z.of_nat n * SIZEOF_MQUEUE_MSG_S → msgs st !! m = None) →
  Z.of_nat (base.size (msgs st)) + Z.of_nat n < 2 ^ 15 →
  let st' := msgblock_loop n t a bytes st in
  stored st' ∧ (∀ m, m < a ∨ a + Z.of_nat n * SIZEOF_MQUEUE_MSG_S ≤ m → msgs st' !! m = msgs st !! m) ∧
  Z.of_nat (base.size (msgs st')) = Z.of_nat (base.size (msgs st)) + Z.of_nat n ∧
  queues st' = queues st ∧ msgwaitq st' = msgwaitq st ∧ sched st' = sched st ∧ waitdog st' = waitdog st.
Proof.
  revert a st. induction n as [|n IH]; intros a st Hs Ht Ha Hb Hfree Hsz; [simpl; split_and!; (done || lia)|].
  cbn [msgblock_loop]. set (c := mk_msg t 0 0 bytes).
  set (st1 := match t with MQ_ALLOC_IRQ => _ | _ => _ end).
  assert (Hm : msgs st !! a = None) by (apply Hfree; unfold SIZEOF_MQUEUE_MSG_S; lia).
  assert (H1 : stored st1 ∧ msgs st1 = <[a := c]> (msgs st) ∧ queues st1 = queues st ∧ msgwaitq st1 = msgwaitq st ∧ sched st1 = sched st ∧ waitdog st1 = waitdog st).
  { pose proof (store_new _ _ _ _ _ a c Hs Hm) as Hn. unfold st1. destruct t; [|done|]; split; try done;
      (apply Hn; [unfold Sem.NULL; lia|done|lia]). }
  clearbody st1. destruct H1 as (Hs1 & HM & HQ & HW & HC & HD).
  assert (Hsize : Z.of_nat (base.size (msgs st1)) = Z.of_nat (base.size (msgs st)) + 1).
  { rewrite HM, map_size_insert_None by done. lia. }
  unfold SIZEOF_MQUEUE_MSG_S in *.
  destruct (IH (a + 40) st1) as (I1 & I2 & I3 & I4 & I5 & I6 & I7); [done|done|lia|done| |lia|].
  { intros m Hm'. rewrite HM, lookup_insert_ne by lia. apply Hfree. lia. }
  split; [done|]. split; [|split; [lia|by rewrite I4, I5, I6, I7]].
  intros m Hm'. rewrite I2 by lia. rewrite HM, lookup_insert_ne by lia. done.
Qed.

Lemma start_stored block irqblock :
  blocks_ok block irqblock = true →
  let st := mq_start block irqblock in stored st ∧ queues st = ∅ ∧ msgwaitq st = ∅ ∧ sched st = nx_start ∧ waitdog st = ∅.
Proof.
  intros Hb. unfold blocks_ok in Hb. rewrite !andb_true_iff in Hb. destruct Hb as [[H1 H2] H3].
  set (st0 := mk_mq ∅ ∅ [] [] ∅ ∅ nx_start). assert (H0 : stored st0).
  { constructor; simpl; try done. constructor; simpl; try done.
    - intros [| |q]; constructor.
    - intros [| |q] y m; simpl; set_solver.
    - intros [| |q] m; simpl; set_solver.
    - constructor.
    - intros m; set_solver.
    - by intros m [? ?]. }
  unfold mq_start, nxmq_initialize. fold st0. change (set_freeirq (set_free st0 []) []) with st0.
  assert (Ha : ∃ st1, mq_msgblockalloc CONFIG_PREALLOC_MQ_MSGS MQ_ALLOC_FIXED block st0 = st1 ∧ stored st1 ∧
    (Z.of_nat (base.size (msgs st1)) ≤ 4 ∧
     ∀ b bytes m, irqblock = Some (b, bytes) → b ≤ m < b + 320 → msgs st1 !! m = None) ∧
    queues st1 = ∅ ∧ msgwaitq st1 = ∅ ∧ sched st1 = nx_start ∧ waitdog st1 = ∅).
  { destruct block as [[a bytes]|]; simpl in H1; [|by exists st0].
    destruct (msgblock_stored 4 MQ_ALLOC_FIXED a bytes st0) as (I1 & I2 & I3 & I4 & I5 & I6 & I7); [done|done|lia|lia|done|done|].
    exists (msgblock_loop 4 MQ_ALLOC_FIXED a bytes st0). split; [done|]. split; [exact I1|]. split; [split|done]; [rewrite I3; by vm_compute|].
    intros b bytes' m -> Hm. rewrite I2; [done|]. simpl in H3. unfold CONFIG_PREALLOC_MQ_MSGS, CONFIG_PREALLOC_MQ_IRQ_MSGS, SIZEOF_MQUEUE_MSG_S in *. lia. }
  destruct Ha as (st1 & -> & I1 & [I2 I3] & I4 & I5 & I6 & I7). destruct irqblock as [[b bytes]|]; [|done]. simpl in H2.
  destruct (msgblock_stored 8 MQ_ALLOC_IRQ b bytes st1) as (J1 & _ & _ & J4 & J5 & J6 & J7); [done|done|lia|lia| |lia|].
  { intros m Hm. eapply I3; [done|]. unfold SIZEOF_MQUEUE_MSG_S in Hm. lia. }
  split; [exact J1|]. by rewrite <- I4, <- I5, <- I6, <- I7.
Qed.

Inductive mq_reach : world → Prop :=
  | mq_reach_start block irqblock : blocks_ok block irqblock = true → mq_reach (mk_world (mq_start block irqblock) ∅)
  | mq_reach_step w o res w' : mq_reach w → may w o = true → exec w o = Some (res, w') → mq_reach w'.

Lemma start_world block irqblock : blocks_ok block irqblock = true → world_ok (mk_world (mq_start block irqblock) ∅) (pool_of nx_start).
Proof.
  intros Hb. destruct (start_stored block irqblock Hb) as (Hst & HQ & HW & HS & HD).
  split_and!; simpl.
  - constructor; [rewrite HS; apply start_ok| |exact Hst]. rewrite HQ, HW. constructor; simpl; try done.
    + intros k p [-> | ->]; simpl; set_solver.
    + intros k p t [-> | ->]; simpl; set_solver.
    + intros p t. rewrite lookup_fmap. unfold nx_start. simpl. destruct (decide (p = 0)) as [->|].
      * rewrite lookup_singleton_eq. by intros [= <-].
      * by rewrite lookup_singleton_ne.
  - assert (Hv : ∀ q, mview (mq_start block irqblock) (pool_of nx_start) q = None) by (intros q; unfold mview; by rewrite HQ).
    constructor; [done|..]; intros; congruence.
  - intros p t h. simpl. by rewrite HD.
Qed.

Lemma step_does w A o : world_ok w A → may w o = true → does w A o.
Proof.
  intros Hw Hm. destruct o; [by apply sched_does|by apply open_does|by apply send_does|by apply irq_send_does
    |by apply receive_does|by apply timed_send_does|by apply timed_receive_does|by apply resume_does|by apply irq_does
    |by apply timeout_does|by apply close_does].
Qed.

(** ** The queues of a state *)

Definition tasks_of w : pool := pool_of (sched (kernel w)).

Definition queues_of w : Z → option mqueue := mview (kernel w) (tasks_of w).

Lemma pool_view w A : world_ok w A → pool_eq A (tasks_of w).
Proof. intros [[Hs _ _] _]. apply view_pool_of; apply Hs. Qed.

Lemma view_ext st A A' : pool_eq A A' → stays (mview st A) (mview st A').
Proof. intros [_ HQ] q. unfold mview, waiting. by rewrite !HQ. Qed.

Lemma world_pool w A : world_ok w A → world_ok w (tasks_of w).
Proof.
  intros Hw. pose proof (pool_view w A Hw) as Heq. destruct Hw as ([Hs Hwt Hst] & HI & HD). split_and!; [..|done].
  - constructor; [by rewrite <- Heq| |done]. eapply same_mq_inv; [|exact Hwt].
    split; [intros p; by rewrite (proj1 Heq)|intros k _; by rewrite (proj2 Heq)].
  - eapply reorders_inv; [exact HI|by eapply waiters_ok_view| |apply sizes_stays; by apply view_ext|].
    + intros p e. unfold code. by rewrite (proj1 Heq).
    + intros q v Hv. left. exists v. by rewrite <- Hv, (view_ext _ A (tasks_of w) Heq q).
Qed.

Lemma reach_world w : mq_reach w → world_ok w (tasks_of w).
Proof.
  intros Hr. enough (∃ A, world_ok w A) as [A HA] by by eapply world_pool.
  induction Hr as [block irqblock Hb|w o res w' _ [A IH] Hm E]; [eexists; by apply start_world|].
  destruct (step_does w A o IH Hm) as (res' & w2 & A' & err & E' & Hok & _). rewrite E in E'. simplify_eq. by exists A'.
Qed.

Lemma acts_ext pr r err C S S1 S2 o res : stays S1 S2 → acts pr r err C S S1 o res → acts pr r err C S S2 o res.
Proof.
  intros HS. assert (Ht : ∀ q v, turns S S1 q v → turns S S2 q v) by (intros q v H; by rewrite <- HS).
  assert (Hs : stays S S1 → stays S S2) by (intros H; by etransitivity).
  assert (Hk : ∀ q oflags buf ret, takes pr r S S1 q oflags buf ret → takes pr r S S2 q oflags buf ret).
  { intros q oflags buf ret []; by econstructor; eauto. }
  assert (Hn : ∀ irq q oflags n e ret, sends pr r S S1 irq q oflags n e ret → sends pr r S S2 irq q oflags n e ret).
  { intros irq q oflags n e ret []; by econstructor; eauto. }
  assert (He : ∀ p, ends_wait S S1 p → ends_wait S S2 p).
  { intros p [(k & q & v & ? & ? & ? & ?)|[? ?]]; [left; exists k, q, v; by eauto|right; by eauto]. }
  destruct o, res as [[ret|]|[ret|]]; simpl; try done; try (by apply Hn); try (by intros [? ?]; eauto).
  all: try (intros []; by econstructor; eauto).
  all: try (intros (q & msg & n & prio & h & Hc & []); exists q, msg, n, prio, h; (split; [done|]); by econstructor; eauto).
  all: try (intros (q & oflags & buf & tm & Hc & []); exists q, oflags, buf, tm; (split; [done|]); by econstructor; eauto).
  - intros H q. by rewrite HS.
  - intros [-> H]. split; [done|]. intros x. by rewrite HS.
Qed.

(** ** Theorems *)

Definition wait_code w p : option Z := errcode <$> tcbs (sched (kernel w)) !! p.

Lemma wait_code_of w p : code (tasks_of w) p = wait_code w p.
Proof. unfold code, wait_code, tasks_of. simpl. rewrite lookup_fmap. by destruct (tcbs (sched (kernel w)) !! p). Qed.

(** C11.  In every state that tasks and interrupt handlers reach with message queues and the
    scheduler, each operation succeeds, no assertion in it fails, and it acts on queues of
    messages with waiting tasks: a message goes behind those of its priority and before
    those of lower ones and wakes the first receiver, the first message is taken and
    wakes the first sender, a caller that has to wait is queued by priority, and so on.
    A task that leaves a queue runs on with [OK] if it was woken, and else with the error
    that ended its wait. *)
Theorem mq_refines_queues w o :
  mq_reach w → may w o = true →
  ∃ res w' err, exec w o = Some (res, w') ∧ mq_reach w' ∧ wait_error (kernel w) = Some err ∧
    acts (prio (tasks_of w)) (current (sched (kernel w))) err (calls w) (queues_of w) (queues_of w') o res ∧
    ∀ p q, msgwaitq (kernel w) !! p = Some q → msgwaitq (kernel w') !! p = None → wait_code w' p = Some (ends_with o).
Proof.
  intros Hr Hm. destruct (step_does w _ o (reach_world w Hr) Hm) as (res & w' & A' & err & E & Hw' & He & Ha & Hl & _).
  pose proof (pool_view w' A' Hw') as Heq. exists res, w', err. split; [done|]. split; [by eapply mq_reach_step|].
  split; [done|]. split.
  - eapply acts_ext; [|exact Ha]. by apply view_ext.
  - intros p q Hp Hn. rewrite <- wait_code_of, <- (Hl p q Hp Hn). unfold code. by rewrite (proj1 Heq).
Qed.

(** A task that has been woken for a message of the queue and has not yet taken it. *)

Definition woken_for w q p : Prop :=
  (∃ oflags buf tm, calls w !! p = Some (CReceive q oflags buf tm)) ∧ msgwaitq (kernel w) !! p = None ∧ wait_code w p = Some OK.

Lemma woken_woken_for w q p :
  world_ok w (tasks_of w) → woken (queues_of w) (code (tasks_of w)) (calls w) q p → woken_for w q p.
Proof.
  intros ([Hs Hwt _] & HI & _) ((c & Hc & Hon) & He & Hnr). destruct c as [|q' oflags buf tm]; [done|]. simpl in Hon. subst q'.
  split; [by exists oflags, buf, tm|]. split; [|by rewrite <- wait_code_of].
  destruct (msgwaitq (kernel w) !! p) as [q'|] eqn:Hp; [|done]. exfalso.
  destruct (wi_out _ _ _ Hwt p q' Hp) as (k & Hk & Hin). destruct (wi_in _ _ _ Hwt k p Hk Hin) as (q2 & Hq2 & [i Hi]).
  assert (q2 = q') as -> by congruence. pose proof (mview_some _ (tasks_of w) q' i Hi) as Hv. set (v := mk_mqueue _ _ _ _ _) in Hv.
  assert (Hpv : p ∈ waiters_of k v) by by apply (mview_waiters _ _ _ _ _ _ Hk Hv).
  destruct (ci_waits _ _ _ HI k q' v p Hk Hv Hpv) as (c & Hc' & Hon). rewrite Hc in Hc'. injection Hc' as <-.
  destruct Hk as [-> | ->]; [|done]. apply Hnr. by exists q', v.
Qed.

(** C12.  No wake-up for a message is lost: as long as tasks wait for a message, each message in
    the queue has a task of its own that has been woken to receive from the queue and has
    not run since. *)
Theorem mq_no_lost_wakeup w q v :
  mq_reach w → queues_of w q = Some v → receivers v ≠ [] →
  ∃ l, NoDup l ∧ (length (contents v) ≤ length l)%nat ∧ ∀ p, p ∈ l → woken_for w q p.
Proof.
  intros Hr Hv Hne. pose proof (reach_world w Hr) as Hw. destruct (ci_awake _ _ _ (proj1 (proj2 Hw)) q v Hv Hne) as (l & Hnd & Hl & Hn).
  exists l. split; [done|]. split; [done|]. intros p Hp. apply woken_woken_for; [done|].
  rewrite Forall_forall in Hl. by apply Hl.
Qed.

(** *** Examples *)

Fixpoint run w (ops : list MqWorld.op) : option world :=
  match ops with
  | [] => Some w
  | o :: ops => if may w o then '(_, w) ← exec w o; run w ops else None
  end.

Lemma run_reach w ops w' : mq_reach w → run w ops = Some w' → mq_reach w'.
Proof.
  revert w. induction ops as [|o ops IH]; intros w Hw; simpl; [by intros [= <-]|].
  destruct (may w o) eqn:Hm; [|done]. destruct (exec w o) as [[res w1]|] eqn:E; [|done].
  apply IH. by eapply mq_reach_step.
Qed.

(** The start with blocks of messages at 1000 and 2000, or without. *)

Definition blank : list Z := repeat 0 32.

Definition boot : world := mk_world (mq_start (Some (1000, blank)) (Some (2000, blank))) ∅.

Definition boot_bare : world := mk_world (mq_start None None) ∅.

Definition O_RDWR : Z := Z.lor O_RDOK O_WROK.

(** Tasks 2 and 3 wait for a message of the queue at 16; task 1 runs. *)

Definition waiting_ops : list MqWorld.op :=
  [OSched (Create 1 100 0); OSched (Create 2 150 0); OSched (Create 3 160 0); OOpen 16 (Some (4, 8));
   OSched (Wake 1); OSched (Wake 2); OReceive 16 O_RDWR (repeat 0 8); OSched (Wake 3); OReceive 16 O_RDWR (repeat 0 8)].

(** Under the lock of task 1 an interrupt handler sends: task 3 is woken and does not yet run. *)

Definition woken_ops : list MqWorld.op :=
  waiting_ops ++ [OSched (Lock false); OIrqSend 16 O_RDWR [7; 8] 2 5].

Definition ran w ops : world := default w (run w ops).

Lemma ran_reach w ops : mq_reach w → match run w ops with Some _ => true | None => false end = true → mq_reach (ran w ops).
Proof. intros Hw. unfold ran. destruct (run w ops) eqn:E; [|done]. intros _. by eapply run_reach. Qed.

Lemma boot_reach : mq_reach boot.
Proof. by apply mq_reach_start. Qed.

Lemma mq_refines_queues_witness :
  queues_of (ran boot waiting_ops) 16 = Some (mk_mqueue 4 8 [] [3; 2] []) ∧
  ∃ res w' err, exec (ran boot waiting_ops) (OSend 16 O_RDWR [1; 2; 3] 3 5 None) = Some (res, w') ∧ mq_reach w' ∧
    wait_error (kernel (ran boot waiting_ops)) = Some err ∧
    acts (prio (tasks_of (ran boot waiting_ops))) (current (sched (kernel (ran boot waiting_ops)))) err
      (calls (ran boot waiting_ops)) (queues_of (ran boot waiting_ops)) (queues_of w')
      (OSend 16 O_RDWR [1; 2; 3] 3 5 None) res ∧
    ∀ p q, msgwaitq (kernel (ran boot waiting_ops)) !! p = Some q → msgwaitq (kernel w') !! p = None →
      wait_code w' p = Some (ends_with (OSend 16 O_RDWR [1; 2; 3] 3 5 None)).
Proof.
  split; [by vm_compute|]. apply (mq_refines_queues (ran boot waiting_ops)); [|by vm_compute].
  apply ran_reach; [apply boot_reach|by vm_compute].
Defined.

Lemma mq_no_lost_wakeup_witness :
  ∃ l, NoDup l ∧ (length [(5, [7; 8])] ≤ length l)%nat ∧ ∀ p, p ∈ l → woken_for (ran boot woken_ops) 16 p.
Proof.
  apply (mq_no_lost_wakeup (ran boot woken_ops) 16 (mk_mqueue 4 8 [(5, [7; 8])] [2] [])); [|by vm_compute|done].
  apply ran_reach; [apply boot_reach|by vm_compute].
Defined.

(** Task 1 sends, tasks 2 and 3 wait for room, task 1 receives, and there is no memory for
    the message of task 2, which was woken. *)

Definition lost_ops : list MqWorld.op :=
  [OSched (Create 1 100 0); OSched (Create 2 160 0); OSched (Create 3 150 0); OOpen 16 (Some (1, 8));
   OSched (Wake 1); OSend 16 O_RDWR [1] 1 0 (Some (1000, blank)); OSched (Wake 2); OSend 16 O_RDWR [2] 1 0 None;
   OSched (Wake 3); OSend 16 O_RDWR [3] 1 0 None; OReceive 16 O_RDWR (repeat 0 8); OResume None].

(** C40.  A wake-up for room can be lost: when the sender that was woken finds no memory for its
    message, it returns [-ENOMEM] and no other sender is woken.  In a state that occurs a
    task waits to send to an empty queue, and no other task is in a call. *)
Theorem mq_send_wakeup_lost :
  ∃ w, mq_reach w ∧ queues_of w 16 = Some (mk_mqueue 1 8 [] [] [3]) ∧ ∀ p, p ≠ 3 → calls w !! p = None.
Proof.
  exists (ran boot_bare lost_ops). split; [apply ran_reach; [by apply mq_reach_start|by vm_compute]|]. split; [by vm_compute|].
  intros p Hp. change (calls (ran boot_bare lost_ops)) with ({[3 := CSend 16 [3] 1 0 None]} : gmap Z call). by rewrite lookup_singleton_ne.
Qed.

(** *** Timeouts *)

(** The tasks whose watchdog has expired during the call in which they are. *)

Definition expired o w' (X : gset Z) : gset Z :=
  filter (λ p, is_Some (calls w' !! p)) (match o with OTimeout p => {[p]} ∪ X | _ => X end).

Inductive timed_reach : world → gset Z → Prop :=
  | timed_start block irqblock : blocks_ok block irqblock = true → timed_reach (mk_world (mq_start block irqblock) ∅) ∅
  | timed_step w X o res w' :
      timed_reach w X → may w o = true → exec w o = Some (res, w') → timed_reach w' (expired o w' X).

Lemma timed_mq_reach w X : timed_reach w X → mq_reach w.
Proof. induction 1; [by apply mq_reach_start|by eapply mq_reach_step]. Qed.

Lemma expired_not o w' X p c : calls w' !! p = Some c → p ∉ expired o w' X → o ≠ OTimeout p ∧ p ∉ X.
Proof. intros Hc Hn. unfold expired in Hn. rewrite elem_of_filter in Hn. split; [intros ->; set_solver|intros Hx; destruct o; set_solver]. Qed.

(** C13.  A task that is in a timed call has an active watchdog with a delay of at least one tick and
    the timeout function of its call, from the moment it waits until the call returns,
    unless the watchdog has expired during the call. *)
Theorem mq_timed_calls_armed w X p c h :
  timed_reach w X → calls w !! p = Some c → timed_by h c → p ∉ X → ∃ t, 0 < t ∧ waitdog (kernel w) !! p = Some (t, h).
Proof.
  intros Hr. revert c. induction Hr as [block irqblock Hb|w X o res w' Hr IH Hm E]; intros c Hc Ht HX; [done|].
  destruct (step_does w _ o (reach_world w (timed_mq_reach w X Hr)) Hm) as (res' & w2 & A' & err & E' & _ & _ & _ & _ & [D1 D2 D3]).
  rewrite E in E'. simplify_eq. destruct (expired_not o w2 X p c Hc HX) as [Ho HX'].
  destruct (calls w !! p) as [c0|] eqn:Hc0; [|by eapply D1].
  rewrite (D3 p c0 c Hc0 Hc) in Ht. destruct (IH c0 eq_refl Ht HX') as (t & Hpos & Hd). exists t. split; [done|].
  by eapply D2.
Qed.

Fixpoint timed_run w (X : gset Z) (ops : list MqWorld.op) : option (world * gset Z) :=
  match ops with
  | [] => Some (w, X)
  | o :: ops => if may w o then '(_, w) ← exec w o; timed_run w (expired o w X) ops else None
  end.

Lemma timed_run_reach w X ops w' X' : timed_reach w X → timed_run w X ops = Some (w', X') → timed_reach w' X'.
Proof.
  revert w X. induction ops as [|o ops IH]; intros w X Hw; simpl; [by intros [= <- <-]|].
  destruct (may w o) eqn:Hm; [|done]. destruct (exec w o) as [[res w1]|] eqn:E; [|done].
  apply IH. by eapply timed_step.
Qed.

(** Task 1 has filled the queue and task 2 waits for room, for at most 20 ms. *)

Definition timed_ops : list MqWorld.op :=
  [OSched (Create 1 100 0); OSched (Create 2 160 0); OOpen 16 (Some (1, 8)); OSched (Wake 1); OSend 16 O_RDWR [1] 1 0 None;
   OSched (Wake 2); OTimedSend 16 O_RDWR [2] 1 0 (Some (mk_timespec 5 20000000)) (mk_timespec 5 0) None].

Definition timed_ran w ops : world * gset Z := default (w, ∅) (timed_run w ∅ ops).

Lemma timed_ran_reach ops :
  match timed_run boot ∅ ops with Some _ => true | None => false end = true → timed_reach (timed_ran boot ops).1 (timed_ran boot ops).2.
Proof.
  unfold timed_ran. destruct (timed_run boot ∅ ops) as [[w X]|] eqn:E; [|done]. intros _.
  eapply timed_run_reach; [|exact E]. by apply timed_start.
Qed.

Lemma mq_timed_calls_armed_witness :
  ∃ t, 0 < t ∧ waitdog (kernel (timed_ran boot timed_ops).1) !! 2 = Some (t, SNDTIMEOUT).
Proof.
  apply (mq_timed_calls_armed (timed_ran boot timed_ops).1 (timed_ran boot timed_ops).2 2 (CSend 16 [2] 1 0 (Some 1040)) SNDTIMEOUT);
    [apply timed_ran_reach; by vm_compute|by vm_compute|done|].
  apply (bool_decide_unpack _). by vm_compute.
Defined.

(** Under its lock task 1 makes room, the watchdog of task 2 expires before task 2 runs, and
    task 1 fills the queue again. *)

Definition lost_timeout_ops : list MqWorld.op :=
  timed_ops ++ [OSched (Lock false); OReceive 16 O_RDWR (repeat 0 8); OTimeout 2; OSend 16 O_RDWR [3] 1 0 None;
    OSched (Unlock false); OResume None].

(** C39.  A timeout can be lost: when the watchdog of a sender expires after the sender was woken and
    before it runs, the timeout function does nothing, and when the queue is full again
    the sender waits again without a watchdog.  In a state that occurs a task waits in a
    timed call for room in a full queue, and no watchdog is active that ends the wait. *)
Theorem mq_timeout_lost :
  ∃ w m, mq_reach w ∧ queues_of w 16 = Some (mk_mqueue 1 8 [(0, [3])] [] [2]) ∧
    calls w !! 2 = Some (CSend 16 [2] 1 0 (Some m)) ∧ waitdog (kernel w) = ∅.
Proof.
  exists (timed_ran boot lost_timeout_ops).1, 1040. split; [eapply timed_mq_reach, timed_ran_reach; by vm_compute|].
  split_and!; by vm_compute.
Qed.

(** *** The race of a receiver with the end of a wait *)

(** The receiver up to the wake-up of a sender. *)

Lemma receive_until_wake hs interrupt st A q i v m l oflags buf :
  mq_ok hs st A → queues st !! q = Some i → mview st A q = Some v → msglist i = m :: l →
  maxmsgsize i ≤ Z.of_nat (length buf) → senders v ≠ [] →
  ∃ st1 v1, mq_ok hs st1 A ∧ sched st1 = sched st ∧ mview st1 A q = Some v1 ∧ senders v1 = senders v ∧
    ((st2 ← interrupt st1; nxmq_wake st2 q less_notfull mqf) = None →
     ('(r, st2) ← nxmq_wait_receive st q oflags; file_mq_receive_tail interrupt st2 q buf r) = None).
Proof.
  intros Hok Hi Hv Hl Hbuf Hsn. pose proof Hok as [Hs Hw Hst].
  destruct (store_get _ _ _ _ _ q i m l Hst Hi Hl) as (Hst1 & c & Hc & Hlen & Hm0).
  destruct (mi_queue _ _ _ _ _ Hst q i Hi) as (_ & Hn & Hsz & _). pose proof (mi_mail _ _ _ _ _ Hst m c Hc) as Hml.
  assert (E16 : Sem.s16 (nmsgs i - 1) = nmsgs i - 1).
  { pose proof (few_messages _ _ _ _ _ q i Hst Hi). rewrite Hn, Hl. simpl. rewrite Hn, Hl in *. simpl in *. rewrite SemSpec.s16_small; lia. }
  set (st0 := set_queue st q (set_msglist l (nmsgs i - 1) i)).
  assert (Hok0 : mq_ok (m :: hs) st0 A) by (constructor; [done|by apply wait_msglist|done]).
  assert (Hnw : 0 < nwaitnotfull i).
  { pose proof (wi_count _ _ _ Hw mqf q i) as Hct. rewrite (mview_some st A q i Hi) in Hv. injection Hv as <-. simpl in Hsn.
    simpl in Hct. rewrite Hct by (done || by right). destruct (waiting _ _ _ _); [done|simpl; lia]. }
  destruct (free_step hs st0 A m Hok0) as (st1 & Ef & Hok1 & Hq1 & Hsc1 & Hv1).
  { intros x j Hj Hin. apply (proj2 (proj2 (pl_held _ _ _ (mi_places _ _ _ _ _ Hst1) m (list_elem_of_here _ _))) (In x)). simpl in *. by rewrite Hj. }
  exists st1. eexists. split; [done|]. split; [done|]. split.
  { rewrite Hv1. apply mview_some. apply lookup_insert_eq. }
  split; [rewrite (mview_some st A q i Hi) in Hv; by injection Hv as <-|]. intros Hnone.
  unfold nxmq_wait_receive. rewrite Hi. cbn [mbind option_bind]. rewrite Hl, E16. fold st0. cbn [mbind option_bind]. unfold file_mq_receive_tail.
  change (0 <=? OK) with true. cbn iota. rewrite (proj2 (Z.eqb_neq _ _)) by done. cbn [negb DEBUGASSERT mbind option_bind].
  unfold nxmq_do_receive. change (msgs st0) with (msgs st). rewrite Hc. cbn [mbind option_bind]. unfold MQ_MAX_BYTES in *.
  assert (length (firstn (Z.to_nat (msglen c)) (mail c)) = Z.to_nat (msglen c)) as Hlt by (rewrite length_take; lia).
  rewrite mem_read_Some, drop_0 by lia. cbn [mbind option_bind]. rewrite mem_write_Some by (rewrite ?Hlt; lia).
  cbn [mbind option_bind]. rewrite Ef. cbn [mbind option_bind]. rewrite Hq1. simpl queues. rewrite lookup_insert_eq.
  cbn [mbind option_bind]. simpl nwaitnotfull. rewrite (proj2 (Z.ltb_lt _ _)) by done. by rewrite Hnone.
Qed.

(** The only sender that waits leaves, and there is none to wake. *)

Lemma irq_then_wake hs st A q v p err f :
  mq_ok hs st A → mview st A q = Some v → senders v = [p] → 0 < err →
  (st2 ← nxmq_wait_irq st p err; nxmq_wake st2 q f mqf) = None.
Proof.
  intros Hok Hv Hsn He. assert (Hp : p ∈ waiters_of mqf v) by (simpl; rewrite Hsn; set_solver).
  pose proof Hok as [Hs _ Hst]. pose proof (proj1 (mview_waiters st A q v mqf p (or_intror eq_refl) Hv) Hp) as [Hin _].
  destruct (v_tcb _ A (ok_view _ _ Hs) p) as (t & Ht & _); [by eapply (w_known _ (ok_pool _ _ Hs))|].
  destruct (irq_step hs st A Hok p t err Ht) as (st' & A' & -> & Hok' & _ & Hcase); [lia|]. cbn [mbind option_bind].
  destruct Hcase as [(k & q' & v' & Hk & Hv' & Hp' & _ & Htn)|(Hno & _)]; [|by destruct (Hno q v mqf)].
  destruct (wo_one _ _ (waiters_ok_view hs st A Hok) q' q v' v k mqf p) as [-> ->]; [done|by right|done..|].
  assert (v' = v) as -> by congruence. pose proof (Htn q) as Hq. rewrite decide_True in Hq by done. simpl in Hq.
  rewrite Hsn, dq_rem_head in Hq by set_solver.
  assert (Hw : waiting (msgwaitq st') A' mqf q = []).
  { unfold mview in Hq. destruct (queues st' !! q); simplify_eq/=. done. }
  destruct (queues st !! q) as [i|] eqn:Hi; [|unfold mview in Hv; by rewrite Hi in Hv].
  destruct (mi_queue _ _ _ _ _ Hst q i Hi) as (Hq0 & _). unfold nxmq_wake.
  rewrite (v_queue _ A' (ok_view _ _ (mo_sched _ _ _ Hok'))). change (norm mqf) with mqf.
  by rewrite (first_waiter_head st' A' mqf q Hq0), Hw.
Qed.

(** C38.  A receiver tests for waiting senders before it enters the critical section.  If the wait of
    the only sender ends in between, by a timeout or a signal, the assertion fails that
    there is a task to wake. *)
Theorem mq_receive_race w q v p oflags buf err :
  mq_reach w → may w (OReceive q oflags buf) = true → queues_of w q = Some v → contents v ≠ [] → senders v = [p] →
  Z.land oflags O_RDOK ≠ 0 → msize v ≤ Z.of_nat (length buf) → 0 < err →
  file_mq_receive (λ st, nxmq_wait_irq st p err) (kernel w) (mk_file (Some q) oflags) (Some buf) (Z.of_nat (length buf)) = None.
Proof.
  intros Hr Hm Hv Hc Hsn Hrd Hsz He. destruct (reach_world w Hr) as [Hok _]. set (st := kernel w) in *. set (A := tasks_of w) in *.
  unfold may, may_receive, is_queue in Hm. rewrite !andb_true_iff, !bool_decide_eq_true in Hm. destruct Hm as (((Hr0 & HC) & [i Hi]) & Hl). fold st in Hi, Hr0, Hl.
  destruct (mi_queue _ _ _ _ _ (mo_store _ _ _ Hok) q i Hi) as (Hq0 & _).
  unfold file_mq_receive. cbn [f_inode f_oflags]. change (default [] (Some buf)) with buf. unfold nxmq_verify_receive.
  rewrite (proj2 (Z.eqb_neq q Sem.NULL)), bool_decide_false, (proj2 (Z.eqb_neq (Z.land oflags O_RDOK) 0)) by done.
  cbn [orb]. rewrite Hi. cbn [mbind option_bind]. pose proof Hv as Hv0. unfold queues_of in Hv0. fold st A in Hv0.
  rewrite (mview_some st A q i Hi) in Hv0. injection Hv0 as <-. simpl in Hc, Hsn, Hsz. rewrite (proj2 (Z.ltb_ge _ (maxmsgsize i))) by done.
  change (OK <? 0) with false. cbn iota.
  destruct (lock_step _ false 0 st A Hok) as (sc & A1 & -> & Hok1 & _ & Hv1 & _); [by eapply lockable_left|lia|]. cbn [mbind option_bind].
  destruct (msglist i) as [|m l] eqn:Hml; [done|].
  destruct (receive_until_wake _ (λ st, nxmq_wait_irq st p err) (with_sched st sc) A1 q i _ m l oflags buf Hok1 Hi
    ltac:(rewrite Hv1; exact Hv) Hml Hsz) as (st1 & v1 & Hok2 & Hsc & Hv2 & Hs2 & Hgo); [simpl; by rewrite Hsn|].
  apply Hgo. eapply irq_then_wake; [done|done| |done]. by rewrite Hs2.
Qed.

(** Task 1 has filled the queue and task 2 waits for room. *)

Definition race_ops : list MqWorld.op :=
  [OSched (Create 1 100 0); OSched (Create 2 160 0); OOpen 16 (Some (1, 8)); OSched (Wake 1); OSend 16 O_RDWR [1] 1 0 None;
   OSched (Wake 2); OSend 16 O_RDWR [2] 1 0 None].

Lemma mq_receive_race_witness :
  file_mq_receive (λ st, nxmq_wait_irq st 2 4) (kernel (ran boot race_ops)) (mk_file (Some 16) O_RDWR) (Some (repeat 0 8))
    (Z.of_nat (length (repeat 0 8))) = None.
Proof.
  apply (mq_receive_race (ran boot race_ops) 16 (mk_mqueue 1 8 [(0, [1])] [] [2]) 2 O_RDWR (repeat 0 8) 4);
    [apply ran_reach; [apply boot_reach|by vm_compute]|by vm_compute..].
Defined.

End MqProps.
